(* ===== verification/_CoqProject ===== *)
-Q . S2P
Prelude.v
Effects.v
GoTime.v
GoFloat.v
Api.v
Ledger.v
Contract.v
Hiss.v
Publish.v
HissTransport.v
ThumpExec.v
ThumpTransport.v
Actuate.v
Configfile.v
ClankScore.v
ClankLedger.v
ClankEngine.v
Rattle.v
Broker.v
ApprovalRequests.v
Decimal.v
Strings.v
GoParse.v
Wal.v
Inbox.v
Clank.v
Archive.v
Poll.v
Converge.v
Subjects.v
Topology.v
Evidence.v
Changes.v
Config.v
Tlsx.v
Otelx.v
RattleSources.v
Telemetry.v
Lifecycle.v
Filepath.v
Validate.v
Process.v
Forge.v
Replay.v
Anthropic.v
Gemini.v
Models.v
Probe.v
Corpus.v
Rca.v
Tune.v
Transcripts.v
Adapters.v
Harvest.v
Incident.v
Calipers.v
Commands.v
HarvestMain.v
Pipeline.v
Loop.v
