(* ===== verification/Prelude.v ===== *)
(** * thump: a verified model of the detect, reason, govern, act and learn loop

    thump watches reliability signals, asks a language model for a diagnosis,
    and executes an action of an authored catalog once governance has cleared
    it.  Its beats are processes joined by message subjects.  This library
    translates the Go code of the beats and proves what they promise.  This file
    is its root and its prelude (strings, errors, slices, tactics).

    ** The parts of the program and where they are modelled

    - The boundary records that travel between beats (src/api/v1): Api.
    - rattle, the Detect beat (src/internal/rattle): Rattle.  Detectors read
      windows of samples, a debouncer spaces detections, [Reconcile] makes one
      pass over the watched SLOs, [runLoop] publishes what it found.
      RattleSources has the live sources behind [Reconcile]: the range query of
      an SLO's burn rate, and the instant queries of traffic and topology.
    - clank, the Reason and Learn beat (src/internal/clank): ClankScore is the
      scorer, the readiness gate, the case base and the ranking; ClankLedger the
      ledger of open proposals, the handlers that absorb outcomes and declines,
      and the replay after a restart; ClankEngine is [Engine.Propose], from a
      detection to a published set; Clank is the running beat, the engine and
      the two return edges over one ledger and one case base.
    - hiss, the governor (src/internal/hiss): Hiss is the policy and
      [Authority.Evaluate]; HissTransport the handlers, the holds and their
      replay; ApprovalRequests the Kubernetes surface through which a person
      releases a hold.
    - thump, the actuator (src/internal/thump): ThumpExec renders a governed
      decision into an order, with the executors, the kill switch and the
      watchers; ThumpTransport is the handler, its background settlement and
      acceptance tasks, and the life of the process.
    - the runner (src/internal/actuate): Actuate binds catalog entries to
      operations and performs them on a cluster or a forge; Forge is the forge
      (src/internal/forge/github) and the Slack notice.
    - shared packages: Contract (the catalog), Configfile (the two-stage
      loader), Ledger (the append-only log), Publish (the port every beat
      publishes through), Wal (the write-ahead log and the journaling
      publishers over it), Subjects (which graph node a label set names),
      Config (what each beat reads from its environment), Tlsx and Otelx (the
      TLS configurations, and the breaker of the metrics exporter).
    - how objects reach a beat: Broker is the consumer side of the message
      stream (src/internal/broker), a delivery and its four ways out as a step
      relation against an interface of JetStream, and the replay of a subject;
      Inbox is the directory transport (src/internal/beat and the [Tick] of each
      beat) over a file system whose calls can fail; Poll the two poll loops.
    - what the beats measure: Converge (src/internal/converge) reads a target
      and queries the metric after an action; Topology (src/internal/whir,
      src/internal/clank/topology.go) assembles the dependency graph clank scores
      against; Evidence and Changes (src/internal/evidence) are the tools the
      model calls and the change sources.
    - the models: Anthropic and Gemini are the two adapters, Models picks one and
      has the theorems on what a model is shown.
    - the record kept of a run: Archive (sealbox, objectstore, unseal and the
      walk of a bucket), Transcripts (the checkpoint stores of
      src/internal/clank/store.go and the exports of src/internal/transcript),
      Corpus (the mined cases and their labels, src/internal/corpus and
      src/internal/grade), Harvest (the calibration runs of src/internal/harvest
      and their scorecard), Incident (the operator's read model) and Calipers
      (the operator's commands).  The metrics are Telemetry.
    - what measures the program itself: Validate audits an authored profile,
      Replay runs a recorded engine again, Tune sweeps the grounding weights over
      such replays, Probe and Rca grade repeated runs of one detection.
    - processes: Lifecycle is what every Main shares (flags, signals, listeners,
      the connection, what is released on the way out), Process each Main and
      [runBroker] as the trace of what it acquires, serves and exits with.
    - the language: GoTime (int64, time, fmt verbs), GoFloat (float64), Decimal
      (strconv and the order of numerals), Strings (package strings), GoParse
      (ParseFloat, ParseDuration), Filepath (path/filepath).  Effects is the
      state and error monad the transports use, with the rule that a computation
      keeps a property.
    - the production side of the interfaces: Adapters has the JetStream
      publisher, the S3 sink, the cluster behind the runner and the codec.
    - the remaining commands: Commands (unseal, transcript, corpus) and
      HarvestMain (harvest, its legs over NATS, and the scorecard).
    - Pipeline composes clank, hiss, thump and the runner for one proposal; Loop
      composes the four beats and the operator over whole histories.

    A definition carries the Go name of the function it translates (a method
    [T.m] whose name would clash is [T_m]); a struct field [F] of [S] is the
    projection [S_F].  Each file's own comment names the Go files behind it.

    ** How state, effects and errors are represented

    A pure function is a function.  A method on a struct takes the struct and
    returns the new one.  Code that publishes, queries or calls out takes the
    world it acts on and returns the changed one: a publisher is the typeclass
    [Publish.Publisher] with laws [PublisherLaws], the API server
    [ApprovalRequests.Cluster] with [ClusterLaws], clank's model, tools and
    sources one environment, the cluster and the forge records of operations.
    The write-ahead log uses a state and error monad of its own, [Wal.IO], the
    transports [Effects.IO].  JetStream, S3, GitHub and the AEAD cipher are
    interfaces with laws too ([Broker.JetStream], [Transcripts.S3Laws],
    [Forge.GitHub], [Archive.AEADLaws]).  A Go
    error is an [error] value: its text and the sentinels [errors.Is] finds in
    it; a fallible call returns [result T], and a function that changes state
    and then fails returns the changed state with its error.  A nil-pointer
    dereference or a panic is an explicit error value.  Mutexes serialise the
    operations of one object, so an object's operations are atomic steps;
    goroutines a handler starts are pending tasks of ThumpTransport's machine,
    finished by later events in any order.  A process's life is a list of
    events (deliveries, redeliveries, clock reads, restarts, power losses, the
    choices of a [select]) run by an executable function, so a theorem over all
    lists of events covers all interleavings of whole operations.  In Clank the
    interleaving is finer: outcomes and declines come back while a [Propose] is
    in flight, before it scores.  A Main is a trace of what it acquires, defers, serves
    and logs, with its exit code.

    ** What the groups of theorems show

    - The closed loop.  Whatever the loop did to the infrastructure was done by
      orders rendered for candidates that clank had ready for a detection rattle
      read off Prometheus and that governance, a person or an operator let pass;
      forward actions only after a reload that read the kill switch armed
      (Loop.every_effect_answers_an_incident).  Conversely an approved proposal
      renders and is bound (Pipeline.approved_proposals_execute).
    - Safety along the loop.  An order that runs was rendered from an approved
      verdict, its action is the catalog's, and the kill switch was armed when
      it started (ThumpTransport.only_granted_actions_run,
      ThumpExec.killswitch_fails_closed); an approval on the decision stream is
      a verdict the policy permitted or the release of a hold by an ack
      (HissTransport.approvals_are_governed), which in turn comes from an
      authenticated person or a foreign publisher
      (ApprovalRequests.approvals_are_attributed); an operator's force answers the
      last decision of its incident if that awaits a person, and says who forced
      it (Calipers.force_answers_a_hold); every outcome names the decision it
      answers (ThumpTransport.emitted_outcomes_auditable); a published set rests
      on what this run's tools answered, passed the gate and names catalog actions
      only (ClankEngine.published_sets_are_ready), and a run that returns a set
      was suppressed by an open one or accounts for it
      (ClankEngine.every_run_is_accounted_for).
    - The reasoning beat.  Two open proposals of one incident are a dedupe
      window apart (Clank.one_open_proposal), every case in the case base is an
      outcome that came back for a gated set of the beat's own
      (Clank.cases_are_earned), and, when no run failed and what came back was
      accepted, a restart resumes with the open sets and the case base the
      process had (Clank.restart_resumes_the_beat).
    - Specifications and refinements.  Evaluate implements the contract
      [Hiss.Permitted]/[Hiss.Fired]; the gate is the conjunction of its stages;
      Render implements its contract; binding accepts exactly the executable
      catalogs; cutting a release leaves one pull request however often it is
      retried (Forge.release_is_one_pull_request; for paths a URL takes as they
      are and contents of up to 1 MB, which is what the contents endpoint serves).
    - Processes.  Asked for live execution a process serves the gated executor or
      does not serve, and not asked it never acts
      (Process.live_execution_is_opted_into); everything acquired is released on
      every path out, and over the broker the log of every publisher is shipped
      and drained but for hiss's approvals, which have none
      (Process.logs_are_shipped_and_drained); a start that fails exits non-zero
      (Process.failed_start_is_not_success), and a bad environment names every
      problem at once (Config.environments_name_every_problem).
    - Transport.  Every delivery leaves by the door its handler chose and none
      is settled twice (Broker.messages_settle_by_their_door), every message is
      settled within its budget when the server answers
      (Broker.messages_settle_within_budget), the dead letters are the messages
      that earned it and nothing else is published there, no pass over an inbox loses a file
      (Inbox.ticks_lose_nothing), and the offline governor is the live one run over
      the files in order (Inbox.hiss_pass_is_handle).
    - Measurement.  An action is left standing only on a finite reading that
      meets its target (Converge.actions_stand_on_a_measurement); evidence marked
      live was seen and is attributed to the node its query names
      (Evidence.live_evidence_is_seen_and_attributed); a corroborated cause was
      looked up (Topology.corroboration_is_looked_up); a detection was read off
      Prometheus (RattleSources.detections_are_read_from_prometheus).
    - The models.  No model is shown a tool call without its answer
      (Models.calls_are_answered), and a Gemini call is replayed with the
      signature it was issued with (Models.signatures_are_echoed).
    - The record.  What is sealed is read back over any pages of the bucket
      (Archive), a run the bucket took whole is exported as it was
      (Transcripts.exported_run_is_the_run), the corpus has one case per
      incident and mining is idempotent (Corpus), a harvest undoes what it did on
      every path and a hit is earned (Harvest), and the read model is the four
      subjects folded in publish order (Incident.snapshot_is_the_stream).
    - Calibration.  A profile that passes the audit governs and binds
      (Validate.valid_profiles_are_governed), a replayed run reaches the draft of
      the recorded one (Replay.replay_reproduces_the_run), the sweep recommends
      the middle of the longest plateau at the peak
      (Tune.sweep_recommends_the_peak), and a graded run's files read back
      (Rca.graded_run_reads_back).
    - Metrics.  Confidence is sampled once per proposal and the calibration
      counter slices as the histogram does, but at the lowest boundary
      (Telemetry.one_sample_per_proposal,
      Telemetry.calibration_slices_as_the_histogram).
    - Commands.  The commands read the bucket with the beats' key
      (Commands.beats_key_opens_the_bucket), mining adds to the artifact what it
      mined (Commands.corpus_artifact_reads_back), and a harvest fires only where
      it was asked to (HarvestMain.harvest_fires_where_asked).
    - Durability.  Whatever was acknowledged or delivered through a journaling
      publisher is a line of the log or of the store (Wal.delivered_is_journaled),
      what was synced survives power loss (Wal.synced_lines_survive), and
      segment names are read back and sort by offset (Wal.segment_names).
    - Bounds and order.  Scores stay in the unit interval and confidence is a
      ceiling, the case base is a bounded queue, ranking is a stable sort,
      detections are spaced by the debounce hold, the reason loop ends.
    - Errors.  What a failing publish, patch, write or query leaves behind,
      including the cases in which the code loses or repeats work.

    ** Bounds and fuel

    Recursion is structural.  [ClankEngine.reason_loop] recurses on the number
    of turns left, which is the code's own loop bound (MaxSteps);
    [reason_loop_bounded] states the bound.  A background watcher recurses on
    the polls that remain before its own deadline.  [Broker.drain_loop] recurses
    on the messages left (each round consumes a batch), [Harvest.settle_loop] on
    the choices its select makes.  Four functions carry fuel: the walk up the
    directories in Filepath, whose fuel is enough by [Filepath.walk_up_ends],
    [Filepath.trim_slashes] and [GoParse.duration_terms], which carry the length
    of their input and consume a byte a round, and the reader of selectors with
    which Evidence states its round trip.  No theorem is conditional on a run
    ending; where the code waits for the world (a select, a redelivery) the
    theorem is about the events that did happen, and the
    liveness claims say how many of them are enough.

    ** Modelling choices a reader should know

    Strings are byte strings.  A [float64] is a binary64 datum with one NaN and
    unfused arithmetic (amd64).  [time.Time] is a wall-clock instant; monotonic
    readings are left out.  Go map iteration is modelled only where its order
    cannot show.  A failing publish may have delivered; a failing call to the
    API server may have been performed; a failing write or upload may have been
    done in part.  In Wal, creation, rename and removal of a file are durable at
    once, and every system call can fail at any point.  JSON and YAML codecs, the
    model SDKs, the HTTP clients of Prometheus, Loki, Tempo, Argo and Kubernetes,
    flag parsing, certificates, the
    cipher and the SHA-256 function are parameters.  An unstable sort is any
    sort of its keys ([SortKeyed]).  Logging and tracing are left out.

    ** What is not modelled, and why

    The SDKs and libraries the source calls (model clients, NATS, the AWS SDK,
    client-go, the Prometheus client, OpenTelemetry, JSON and YAML) are
    parameters: what the code relies on is a law of an interface or a hypothesis
    of the theorem that needs it.  Logging, spans and the text the flag package
    prints have no effect on the program and are left out, as are the options
    [NewS3Client] sets on the S3 client and the choice of a kubeconfig.  The
    fixtures of the tests (configtest, natstest, s3test, tlsxtest, leaftest,
    decisiontest, and the HTTP servers the graded suite runs in place of
    Prometheus and Loki) and the one-line packages under src/cmd are not part of
    the program. *)

From Stdlib Require Export ZArith.
From Stdlib Require Export Lia.
From stdpp Require Export base list gmap strings pretty option.
From stdpp Require Import sorting.

(** ** Strings

    A Go [string] is a Rocq [string] (a byte sequence).  [a =s b] is Go's [==]
    on strings, as a [bool] so that code guards stay executable. *)

Declare Scope go_scope.
Delimit Scope go_scope with go.

Notation "a =s b" := (String.eqb a%string b%string) (at level 70, no associativity) : go_scope.
Notation "a <>s b" := (negb (String.eqb a%string b%string)) (at level 70, no associativity) : go_scope.
Notation "a +:+ b" := (String.append a%string b%string) (at level 60, right associativity) : go_scope.

#[global] Open Scope go_scope.

(** ** Errors

    A Go [error] value: its rendered text and the sentinels it wraps.  A
    sentinel (an [errors.New] package variable) is identified by its text,
    which is distinct for every sentinel of the modelled packages;
    [errors.Is e s] then asks whether [s] is in the chain of [e]. *)

Record error : Type := mkError {
  err_text : string;
  err_chain : list string
}.

(** [errors.New text] *)
Definition errors_New (text : string) : error := mkError text [text].

(** [fmt.Errorf("<pre>%w", e)] *)
Definition errorf_w (pre : string) (e : error) : error :=
  mkError (pre +:+ err_text e) (err_chain e).

(** [fmt.Errorf("%w<post>", e)] *)
Definition errorf_wp (e : error) (post : string) : error :=
  mkError (err_text e +:+ post) (err_chain e).

(** [fmt.Errorf("%w: %w", e1, e2)] *)
Definition errorf_ww (e1 e2 : error) : error :=
  mkError (err_text e1 +:+ ": " +:+ err_text e2) (err_chain e1 ++ err_chain e2).

(** [errors.Is e s], with the sentinel [s] an [errors.New] value *)
Definition errors_Is (e s : error) : bool :=
  existsb (String.eqb (err_text s)) (err_chain e).

(** A fallible Go call [(T, error)]: either a value or an error. *)
Abbreviation result T := (T + error)%type.

(** A [context.Context] as a handler sees it: [ctx.Err()]. *)
Record context : Type := mkContext { ctx_Err : option error }.

Definition Background : context := mkContext None.

(** ** Slices

    [find_first p l] is the Go idiom
    [for _, x := range l { if p(x) { return x, true } }; return zero, false]. *)

Fixpoint find_first {A} (p : A -> bool) (l : list A) : option A :=
  match l with
  | [] => None
  | x :: l' => if p x then Some x else find_first p l'
  end.

(** [update_last p f l]: the Go idiom
    [for i := len(l)-1; i >= 0; i-- { if p(l[i]) { l[i] = f(l[i]); return l[i] } }],
    the updated slice with the element written, or [None] when no element
    matches. *)
Fixpoint update_last {A} (p : A -> bool) (f : A -> A) (l : list A) : option (list A * A) :=
  match l with
  | [] => None
  | x :: l' =>
      match update_last p f l' with
      | Some (l'', y) => Some (x :: l'', y)
      | None => if p x then Some (f x :: l', f x) else None
      end
  end.

(** ** Tactics *)

Ltac case_match_eqn :=
  match goal with
  | |- context [match ?x with _ => _ end] => destruct x eqn:?
  | H : context [match ?x with _ => _ end] |- _ => destruct x eqn:?
  end.

(** [split_matches] walks every remaining branch of a goal that is only case
    analysis and closes the branches that are immediate. *)
Ltac split_matches :=
  repeat (case_match_eqn; simplify_eq/=; try done).

(** [bsplit] turns boolean guards in the context into propositions. *)
Ltac bsplit :=
  repeat match goal with
  | H : (_ && _)%bool = true |- _ => apply andb_true_iff in H; destruct H
  | H : (_ || _)%bool = false |- _ => apply orb_false_iff in H; destruct H
  | H : negb _ = true |- _ => apply negb_true_iff in H
  | H : negb _ = false |- _ => apply negb_false_iff in H
  | H : (_ =s _) = true |- _ => apply String.eqb_eq in H
  | H : (_ =s _) = false |- _ => apply String.eqb_neq in H
  | H : (_ <=? _)%Z = true |- _ => apply Z.leb_le in H
  | H : (_ <=? _)%Z = false |- _ => apply Z.leb_gt in H
  | H : (_ <? _)%Z = true |- _ => apply Z.ltb_lt in H
  | H : (_ <? _)%Z = false |- _ => apply Z.ltb_ge in H
  end.

(** [sclash] closes a goal whose context equates one value to two distinct
    string constants. *)
Ltac sclash :=
  exfalso;
  match goal with
  | H : ?x = ?a, H' : ?x = ?b |- _ => rewrite H in H'; discriminate H'
  end.

Create HintDb go.

(** ** Lemmas on strings and slices *)

Lemma seqb_refl (s : string) : (s =s s) = true.
Proof. apply String.eqb_refl. Qed.

Lemma seqb_spec (a b : string) : (a =s b) = bool_decide (a = b).
Proof. case_bool_decide; [subst; apply seqb_refl | by apply String.eqb_neq]. Qed.

Lemma find_first_Some {A} (p : A -> bool) (l : list A) (x : A) :
  find_first p l = Some x -> x ∈ l /\ p x = true.
Proof.
  induction l as [|y l IH]; intros H; simplify_eq/=.
  destruct (p y) eqn:E; simplify_eq/=; [by split; [left|]|].
  destruct (IH H). split; [by right | done].
Qed.

Lemma find_first_None {A} (p : A -> bool) (l : list A) :
  find_first p l = None <-> Forall (fun x => p x = false) l.
Proof.
  induction l as [|y l IH]; simpl; [by split|].
  destruct (p y) eqn:E; split; intros H; try done.
  - by inversion H; congruence.
  - constructor; [done | by apply IH].
  - inversion H; by apply IH.
Qed.

Lemma find_first_is_Some {A} (p : A -> bool) (l : list A) (x : A) :
  x ∈ l -> p x = true -> is_Some (find_first p l).
Proof.
  intros Hx Hp. destruct (find_first p l) eqn:E; [by eexists|].
  apply find_first_None in E. rewrite list.Forall_forall in E. by specialize (E _ Hx); congruence.
Qed.

Lemma existsb_elem {A} (p : A -> bool) (l : list A) :
  existsb p l = true <-> exists x, x ∈ l /\ p x = true.
Proof.
  rewrite existsb_exists. split; intros (x & ? & ?); exists x; split; try done;
    by apply list_elem_of_In.
Qed.

Lemma existsb_false_elem {A} (p : A -> bool) (l : list A) :
  existsb p l = false <-> forall x, x ∈ l -> p x = false.
Proof.
  split.
  - intros H x Hx. destruct (p x) eqn:E; [|done].
    assert (existsb p l = true) by (apply existsb_elem; eauto). congruence.
  - intros H. destruct (existsb p l) eqn:E; [|done].
    apply existsb_elem in E as (x & Hx & Hp). rewrite H in Hp; done.
Qed.

Lemma elem_of_if {A} (b : bool) (x r : A) : r ∈ (if b then [x] else []) <-> b = true /\ r = x.
Proof. destruct b; rewrite ?elem_of_cons, ?elem_of_nil; naive_solver. Qed.

Lemma elem_of_filterb {A} (p : A -> bool) (l : list A) (x : A) :
  x ∈ List.filter p l <-> x ∈ l /\ p x = true.
Proof. by rewrite !list_elem_of_In, filter_In. Qed.

Lemma StronglySorted_filterb {A} (R : A -> A -> Prop) (f : A -> bool) l : StronglySorted R l -> StronglySorted R (List.filter f l).
Proof.
  induction 1 as [| a l Hl IH Ha]; [constructor |]. cbn. destruct (f a); [| done]. constructor; [done |].
  apply list.Forall_forall. intros b [Hb _]%elem_of_filterb. by apply (proj1 (list.Forall_forall _ _) Ha).
Qed.

Lemma update_last_None {A} (p : A -> bool) (f : A -> A) (l : list A) :
  update_last p f l = None <-> Forall (fun z => p z = false) l.
Proof.
  induction l as [|a l IH]; simpl; [by split|].
  destruct (update_last p f l) as [[]|] eqn:E; split; intros H; try done.
  - inversion H as [|? ? _ Hl]; subst. by apply IH in Hl.
  - destruct (p a) eqn:Ea; [done|]. constructor; [done | by apply IH].
  - inversion H as [|? ? Ha]; subst. by rewrite Ha.
Qed.

Lemma update_last_app {A} (p : A -> bool) (f : A -> A) (pre post : list A) (x : A) :
  p x = true -> Forall (fun z => p z = false) post ->
  update_last p f (pre ++ x :: post) = Some (pre ++ f x :: post, f x).
Proof.
  intros Hx Hpost. induction pre as [|a pre IH]; simpl.
  - apply (update_last_None p f) in Hpost. by rewrite Hpost, Hx.
  - by rewrite IH.
Qed.

(** [update_last] changes one element: the last one that matches. *)
Lemma update_last_Some {A} (p : A -> bool) (f : A -> A) (l l' : list A) (y : A) :
  update_last p f l = Some (l', y) ->
  exists pre x post, l = pre ++ x :: post /\ p x = true /\
    Forall (fun z => p z = false) post /\ l' = pre ++ f x :: post /\ y = f x.
Proof.
  revert l' y. induction l as [|a l IH]; intros l' y; simpl; [done|].
  destruct (update_last p f l) as [[l'' z]|] eqn:E.
  - intros H; simplify_eq.
    destruct (IH _ _ eq_refl) as (pre & x & post & -> & ? & ? & -> & ->).
    by exists (a :: pre), x, post.
  - apply update_last_None in E. destruct (p a) eqn:Ea; [|done].
    intros H; simplify_eq. by exists [], a, l.
Qed.

Lemma update_last_length {A} (p : A -> bool) (f : A -> A) (l l' : list A) (y : A) :
  update_last p f l = Some (l', y) -> length l' = length l.
Proof.
  intros (pre & x & post & -> & _ & _ & -> & _)%update_last_Some.
  by rewrite !length_app.
Qed.

Lemma elem_of_delete_nth {A} (i : nat) (l : list A) (x : A) : x ∈ delete i l -> x ∈ l.
Proof.
  revert i. induction l as [|y l IH]; intros [|i]; simpl; try done.
  - intros. by right.
  - intros [->|Hin]%elem_of_cons; [by left|right; eauto].
Qed.

(** ** Sorting by an integer key

    Go's [sort.Slice] promises no order among equal keys; an instance is any function that
    permutes and sorts. *)

Class SortKeyed (A : Type) : Type := {
  sort_keyed : list (Z * A) -> list (Z * A);
  sort_keyed_perm : forall l, sort_keyed l ≡ₚ l;
  sort_keyed_sorted : forall l, Sorted (fun a b => (a.1 <= b.1)%Z) (sort_keyed l)
}.

(** where the keys are distinct there is one sorted order *)
Lemma sorted_keys_unique {A} (l1 l2 : list (Z * A)) :
  StronglySorted (fun a b => (a.1 < b.1)%Z) l1 -> Sorted (fun a b => (a.1 <= b.1)%Z) l2 -> l2 ≡ₚ l1 -> l2 = l1.
Proof.
  intros Hl1 Hl2 Hp. apply (StronglySorted_unique_strong (fun a b : Z * A => (a.1 <= b.1)%Z)).
  - intros x y Hx Hy Hle Hge. rewrite Hp in Hx. apply list_elem_of_lookup in Hx as [i Hi], Hy as [j Hj].
    assert (forall i j x y, (i < j)%nat -> l1 !! i = Some x -> l1 !! j = Some y -> (x.1 < y.1)%Z) as Hlt.
    { clear -Hl1. induction Hl1 as [| a l1 _ IH Ha]; intros i j x y Hij Hi Hj; [done |]. destruct j as [| j]; [lia |]. destruct i as [| i].
      - injection Hi as <-. rewrite list.Forall_forall in Ha. apply Ha. by eapply list_elem_of_lookup_2.
      - apply (IH i j x y); [lia | done | done]. }
    destruct (decide (i = j)) as [-> | Hne]; [congruence |]. destruct (decide (i < j)%nat) as [Hij | Hij].
    + pose proof (Hlt _ _ _ _ Hij Hi Hj). lia.
    + pose proof (Hlt j i y x ltac:(lia) Hj Hi). lia.
  - apply Sorted_StronglySorted; [intros a b c; lia | exact Hl2].
  - clear -Hl1. induction Hl1 as [| a l1 _ IH Ha]; [constructor |]. constructor; [done |]. eapply Forall_impl; [exact Ha |]. cbn. intros. lia.
  - done.
Qed.

Section merge_keyed.
Context {A : Type}.

Definition key_le (a b : Z * A) : Prop := (a.1 <= b.1)%Z.

#[local] Instance key_le_dec : RelDecision key_le := fun a b => Z_le_dec a.1 b.1.
#[local] Instance key_le_total : Total key_le.
Proof. intros a b. unfold key_le. lia. Qed.

(** a stable sort is one *)
#[export] Instance merge_keyed : SortKeyed A.
Proof. exists (merge_sort key_le); [apply merge_sort_Permutation | apply (Sorted_merge_sort key_le)]. Defined.

End merge_keyed.
