(* ===== verification/Effects.v ===== *)
(** * A state and error monad

    [IO S A] is Go code that works on a state [S] and returns [(A, error)]: an
    error keeps the state reached so far.  The directory transports and the
    write-ahead log are written in it. *)

From S2P Require Import Prelude.

Definition IO (S A : Type) : Type := S -> S * result A.

Definition ret {S A : Type} (x : A) : IO S A := fun s => (s, inl x).

Definition fail {S A : Type} (e : error) : IO S A := fun s => (s, inr e).

Definition bind {S A B : Type} (m : IO S A) (k : A -> IO S B) : IO S B :=
  fun s => match m s with
           | (s', inl x) => k x s'
           | (s', inr e) => (s', inr e)
           end.

(** [fmt.Errorf("<pre>%w", err)] on failure *)
Definition wrapping {S A : Type} (pre : string) (m : IO S A) : IO S A :=
  fun s => match m s with
           | (s', inl x) => (s', inl x)
           | (s', inr e) => (s', inr (errorf_w pre e))
           end.

(** the error of [m] as a value: [if err := m(); err != nil { ... }] *)
Definition attempt {S : Type} (m : IO S unit) : IO S (option error) :=
  fun s => match m s with
           | (s', inl _) => (s', inl None)
           | (s', inr e) => (s', inl (Some e))
           end.

(** a method that returns the new state and an [error], run on a part of the state *)
Definition on_fst {S S' : Type} (f : S -> S * option error) : IO (S * S') unit :=
  fun '(s, s') => let '(s1, e) := f s in ((s1, s'), match e with Some e => inr e | None => inl tt end).

Definition on_snd {S S' A : Type} (m : IO S' A) : IO (S * S') A :=
  fun '(s, s') => let '(s1, r) := m s' in ((s, s1), r).

Declare Scope io_scope.
Delimit Scope io_scope with io.
Notation "x <~ m ;; k" := (bind m (fun x => k)) (at level 100, m at next level, right associativity) : io_scope.
Notation "m ;;~ k" := (bind m (fun _ => k)) (at level 100, right associativity) : io_scope.

(** [keeps P m]: whatever [m] returns, it preserves [P] *)
Definition keeps {S A : Type} (P : S -> Prop) (m : IO S A) : Prop := forall s, P s -> P (m s).1.

Section keeps.
Context {S : Type} (P : S -> Prop).

Lemma keeps_ret {A} (x : A) : keeps P (ret x).
Proof. by intros s. Qed.

Lemma keeps_fail {A} e : keeps P (fail (A := A) e).
Proof. by intros s. Qed.

Lemma keeps_bind {A B} (m : IO S A) (k : A -> IO S B) : keeps P m -> (forall x, keeps P (k x)) -> keeps P (bind m k).
Proof.
  intros Hm Hk s Hs. unfold bind. specialize (Hm s Hs). destruct (m s) as [s' [x | e]]; [by apply Hk | done].
Qed.

Lemma keeps_wrapping {A} pre (m : IO S A) : keeps P m -> keeps P (wrapping pre m).
Proof. intros Hm s Hs. unfold wrapping. specialize (Hm s Hs). by destruct (m s) as [s' [x | e]]. Qed.

Lemma keeps_attempt (m : IO S unit) : keeps P m -> keeps P (attempt m).
Proof. intros Hm s Hs. unfold attempt. specialize (Hm s Hs). by destruct (m s) as [s' [x | e]]. Qed.

End keeps.

#[export] Hint Resolve keeps_ret keeps_fail keeps_bind keeps_wrapping keeps_attempt : go.
