(* ===== verification/GoTime.v ===== *)
(** * Go's integers, [time.Duration] and [time.Time]

    [int64] values are integers of [Z] kept in range by [wrap64] where the
    source relies on wrap-around.  A [time.Duration] is an [int64] count of
    nanoseconds; a [time.Time] is the number of nanoseconds since Go's zero time
    (January 1, year 1, UTC), so that [IsZero] is a comparison with [0].  The
    monotonic clock reading a [time.Now] value carries is not modelled: [Sub],
    [Before] and [After] compare wall-clock instants. *)

From Stdlib Require Import Ascii.
From S2P Require Import Prelude.
Local Open Scope Z_scope.

Definition int64_min : Z := - 2 ^ 63.
Definition int64_max : Z := 2 ^ 63 - 1.

(** two's-complement wrap-around of [int64] arithmetic *)
Definition wrap64 (z : Z) : Z := (z + 2 ^ 63) mod 2 ^ 64 - 2 ^ 63.

(** saturation at the [int64] bounds, as [time.Time.Sub] performs it *)
Definition sat64 (z : Z) : Z := Z.max int64_min (Z.min int64_max z).

Abbreviation Duration := Z (only parsing).
Abbreviation Time := Z (only parsing).

Definition Nanosecond : Duration := 1.
Definition Microsecond : Duration := 1000.
Definition Millisecond : Duration := 1000000.
Definition Second : Duration := 1000000000.
Definition Minute : Duration := 60 * Second.
Definition Hour : Duration := 60 * Minute.

(** seconds between the zero time and the Unix epoch *)
Definition unixToInternal : Z := 62135596800.

Definition IsZero (t : Time) : bool := t =? 0.
Definition Before (t u : Time) : bool := t <? u.
Definition After (t u : Time) : bool := u <? t.
Definition Sub (t u : Time) : Duration := sat64 (t - u).
Definition Add (t : Time) (d : Duration) : Time := t + d.
Definition Unix (t : Time) : Z := t / Second - unixToInternal.
Definition UnixNano (t : Time) : Z := wrap64 (t - unixToInternal * Second).

(** ** [fmt] verbs on integers and durations *)

(** [%d] *)
Definition fmt_d (z : Z) : string := pretty z.

Fixpoint string_repeat (s : string) (n : nat) : string :=
  match n with O => ""%string | S n' => s +:+ string_repeat s n' end.

(** left-pad [s] to width [w] with zeros ([%0wd] of a non-negative number) *)
Definition zero_pad (w : nat) (s : string) : string :=
  string_repeat "0" (w - String.length s) +:+ s.

(** drop the trailing zeros of a fraction, as [Duration.String] does *)
Fixpoint drop_zeros (l : list ascii) : list ascii :=
  match l with
  | c :: l' => if Ascii.eqb c "0"%char then drop_zeros l' else l
  | [] => []
  end.

(** [v] printed with [p] decimals, trailing zeros (and a bare point) removed *)
Definition fmtFrac (v : Z) (p : nat) : string :=
  let pow := 10 ^ Z.of_nat p in
  let frac := zero_pad p (fmt_d (v mod pow)) in
  let frac' := String.string_of_list_ascii
                 (rev (drop_zeros (rev (String.list_ascii_of_string frac)))) in
  fmt_d (Z.div v pow) +:+ (if frac' =s "" then "" else "." +:+ frac').

(** UTF-8 bytes of the micro sign *)
Definition micro : string :=
  String (ascii_of_nat 194) (String (ascii_of_nat 181) EmptyString).

(** [Duration.String] *)
Definition Duration_String (d : Duration) : string :=
  let u := Z.abs d in
  let sign := if d <? 0 then "-"%string else ""%string in
  if d =? 0 then "0s"%string
  else if u <? Second then
    sign +:+ (if Z.ltb u Microsecond then fmt_d u +:+ "ns"
              else if Z.ltb u Millisecond then fmtFrac u 3 +:+ micro +:+ "s"
              else fmtFrac u 6 +:+ "ms")
  else
    let secs := u / Second in
    let s := fmtFrac (u mod Second + (secs mod 60) * Second) 9 +:+ "s" in
    let m := secs / 60 in
    sign +:+
    (if Z.ltb 0 m then
       let ms := fmt_d (Z.modulo m 60) +:+ "m" +:+ s in
       let h := Z.div m 60 in
       if Z.ltb 0 h then fmt_d h +:+ "h" +:+ ms else ms
     else s).

(** [%q] on a string: a double-quoted Go literal.  Bytes at or above 0x80 are
    kept as they are, which is Go's output for printable UTF-8 text. *)
Definition hex_digit (n : nat) : ascii :=
  ascii_of_nat (if Nat.ltb n 10 then 48 + n else 87 + n)%nat.

Definition quote_byte (c : ascii) : string :=
  let n := nat_of_ascii c in
  if Nat.eqb n 34 then String (ascii_of_nat 92) (String c EmptyString)
  else if Nat.eqb n 92 then String c (String c EmptyString)
  else if Nat.eqb n 7 then "\a" else if Nat.eqb n 8 then "\b"
  else if Nat.eqb n 12 then "\f" else if Nat.eqb n 10 then "\n"
  else if Nat.eqb n 13 then "\r" else if Nat.eqb n 9 then "\t"
  else if Nat.eqb n 11 then "\v"
  else if (Nat.ltb n 32 || Nat.eqb n 127)%bool then
    "\x" +:+ String (hex_digit (Nat.div n 16)) (String (hex_digit (Nat.modulo n 16)) EmptyString)
  else String c EmptyString.

Fixpoint quote_body (s : string) : string :=
  match s with
  | EmptyString => EmptyString
  | String c s' => quote_byte c +:+ quote_body s'
  end.

Definition dquote : string := String (ascii_of_nat 34) EmptyString.

Definition fmt_q (s : string) : string := dquote +:+ quote_body s +:+ dquote.

(** [strings.Join] *)
Fixpoint strings_Join (l : list string) (sep : string) : string :=
  match l with
  | [] => ""
  | [x] => x
  | x :: l' => x +:+ sep +:+ strings_Join l' sep
  end.

(** [%t] *)
Definition fmt_t (b : bool) : string := if b then "true" else "false".

(** ** Lemmas *)

Lemma sat64_range z : int64_min <= sat64 z <= int64_max.
Proof. unfold sat64, int64_min, int64_max. lia. Qed.

Lemma sat64_lt_nonneg z d : 0 <= d <= int64_max -> sat64 z < d <-> z < d.
Proof. unfold sat64, int64_min, int64_max. lia. Qed.

Lemma wrap64_id z : int64_min <= z <= int64_max -> wrap64 z = z.
Proof.
  unfold wrap64, int64_min, int64_max. intros H.
  rewrite Z.mod_small by lia. lia.
Qed.

Lemma wrap64_range z : int64_min <= wrap64 z <= int64_max.
Proof.
  unfold wrap64, int64_min, int64_max.
  pose proof (Z.mod_pos_bound (z + 2 ^ 63) (2 ^ 64) ltac:(lia)). lia.
Qed.

Example Duration_String_ex1 : Duration_String (90 * Second + 500 * Millisecond) = "1m30.5s"%string.
Proof. vm_compute. reflexivity. Qed.

Example Duration_String_ex2 : Duration_String (30 * Minute) = "30m0s"%string.
Proof. vm_compute. reflexivity. Qed.

Example Duration_String_ex3 : Duration_String (Hour) = "1h0m0s"%string.
Proof. vm_compute. reflexivity. Qed.
