(* ===== verification/GoFloat.v ===== *)
(** * Go's [float64]

    A [float64] is an IEEE-754 binary64 datum, computed with the executable
    specification of the standard library ([SpecFloat], round to nearest even,
    no NaN payloads).  [float64] arithmetic here is unfused: the Go
    specification lets a compiler fuse [x*y + z] on some targets; on amd64
    (the deployment target) it does not. *)

From S2P Require Import Prelude GoTime.
From Stdlib Require Export SpecFloat.
Local Open Scope Z_scope.

Abbreviation float64 := spec_float.

Definition fadd : float64 -> float64 -> float64 := SFadd 53 1024.
Definition fsub : float64 -> float64 -> float64 := SFsub 53 1024.
Definition fmul : float64 -> float64 -> float64 := SFmul 53 1024.
Definition fdiv : float64 -> float64 -> float64 := SFdiv 53 1024.
Definition fsqrt : float64 -> float64 := SFsqrt 53 1024.
Definition fneg : float64 -> float64 := SFopp.
Definition flt (x y : float64) : bool := SFltb x y.
Definition fgt (x y : float64) : bool := SFltb y x.
Definition fle (x y : float64) : bool := SFleb x y.
Definition feq (x y : float64) : bool := SFeqb x y.

(** [float64(n)] for an integer [n] *)
Definition of_int (n : Z) : float64 := binary_normalize 53 1024 n 0 false.

(** the literal [n/d], correctly rounded when [n] and [d] are exact *)
Definition flit (n d : Z) : float64 := fdiv (of_int n) (of_int d).

Definition f0 : float64 := S754_zero false.
Definition f1 : float64 := of_int 1.
Definition f2 : float64 := of_int 2.
Definition fhalf : float64 := flit 1 2.

(** [time.Duration.Seconds] *)
Definition Seconds (d : Duration) : float64 :=
  fadd (of_int (Z.quot d Second)) (fdiv (of_int (Z.rem d Second)) (of_int 1000000000)).

Definition is_nan (x : float64) : bool :=
  match x with S754_nan => true | _ => false end.

(** the builtins [min] and [max]: a NaN operand gives NaN, and [-0 < +0] *)
Definition fmin (x y : float64) : float64 :=
  if (is_nan x || is_nan y)%bool then S754_nan
  else match x, y with
       | S754_zero sx, S754_zero sy => S754_zero (sx || sy)
       | _, _ => if flt x y then x else y
       end.

Definition fmax (x y : float64) : float64 :=
  if (is_nan x || is_nan y)%bool then S754_nan
  else match x, y with
       | S754_zero sx, S754_zero sy => S754_zero (sx && sy)
       | _, _ => if flt x y then y else x
       end.

(** [int(x)]: truncation towards zero of a finite value *)
Definition trunc (x : float64) : Z :=
  match x with
  | S754_finite s m e =>
      let a := if 0 <=? e then Zpos m * 2 ^ e else Zpos m / 2 ^ (- e) in
      if s then - a else a
  | _ => 0
  end.

(** [math.Float64frombits] *)
Definition of_bits (b : Z) : float64 :=
  let s := Z.testbit b 63 in
  let e := Z.land (Z.shiftr b 52) 2047 in
  let m := Z.land b (2 ^ 52 - 1) in
  if e =? 2047 then (if m =? 0 then S754_infinity s else S754_nan)
  else if e =? 0 then
    match m with Zpos p => S754_finite s p (-1074) | _ => S754_zero s end
  else match 2 ^ 52 + m with
       | Zpos p => S754_finite s p (e - 1075)
       | _ => S754_nan
       end.

(** ** [math.Exp2]

    The portable implementation of Go's standard library: argument reduction
    to [x = k + t], a degree-5 rational kernel on [t * ln 2], then [Ldexp]. *)

Definition Ln2Hi : float64 := of_bits 0x3fe62e42fee00000.
Definition Ln2Lo : float64 := of_bits 0x3dea39ef35793c76.
Definition P1 : float64 := of_bits 0x3FC5555555555555.
Definition P2 : float64 := of_bits 0xBF66C16C16BEBD93.
Definition P3 : float64 := of_bits 0x3F11566AAF25DE2C.
Definition P4 : float64 := of_bits 0xBEBBBD41C5D26BF1.
Definition P5 : float64 := of_bits 0x3E66376972BEA4D0.

Definition expmulti (hi lo : float64) (k : Z) : float64 :=
  let r := fsub hi lo in
  let t := fmul r r in
  let c := fsub r (fmul t (fadd P1 (fmul t (fadd P2 (fmul t (fadd P3
             (fmul t (fadd P4 (fmul t P5))))))))) in
  let y := fsub f1 (fsub (fsub lo (fdiv (fmul r c) (fsub f2 c))) hi) in
  SFldexp 53 1024 y k.

Definition Exp2 (x : float64) : float64 :=
  match x with
  | S754_nan => S754_nan
  | S754_infinity false => x
  | S754_infinity true => f0
  | _ =>
      if fgt x (of_bits 0x408FFFFFFFFFFFFF) then S754_infinity false
      else if flt x (of_int (-1074)) then f0
      else
        let k := if fgt x f0 then trunc (fadd x fhalf)
                 else if flt x f0 then trunc (fsub x fhalf)
                 else 0 in
        let t := fsub x (of_int k) in
        expmulti (fmul t Ln2Hi) (fmul (fneg t) Ln2Lo) k
  end.

(** ** [%.<p>f]

    Exact decimal rounding of the binary value, half to even. *)

Definition round_half_even (n d : Z) : Z :=
  let q := n / d in
  let r := n mod d in
  match (2 * r) ?= d with
  | Lt => q
  | Gt => q + 1
  | Eq => if Z.even q then q else q + 1
  end.

(** sign, numerator and denominator of a finite value *)
Definition ratio_of (x : float64) : bool * Z * Z :=
  match x with
  | S754_finite s m e =>
      if 0 <=? e then (s, Zpos m * 2 ^ e, 1) else (s, Zpos m, 2 ^ (- e))
  | S754_zero s => (s, 0, 1)
  | _ => (false, 0, 1)
  end.

Definition fmt_f (p : nat) (x : float64) : string :=
  match x with
  | S754_nan => "NaN"
  | S754_infinity false => "+Inf"
  | S754_infinity true => "-Inf"
  | _ =>
      let '(s, n, d) := ratio_of x in
      let pow := Z.pow 10 (Z.of_nat p) in
      let v := round_half_even (Z.mul n pow) d in
      (if s then "-" else "") +:+ fmt_d (Z.div v pow) +:+
      (if Nat.eqb p 0 then "" else "." +:+ zero_pad p (fmt_d (Z.modulo v pow)))
  end%string.

(** ** The order of [float64]

    [fkey] embeds the non-NaN values in [Z * Z * Z] so that float comparison is
    the lexicographic order; every order lemma below follows from it. *)

Definition fkey (x : float64) : Z * Z * Z :=
  match x with
  | S754_nan => (0, 0, 0)
  | S754_infinity s => (if s then -2 else 2, 0, 0)
  | S754_zero _ => (0, 0, 0)
  | S754_finite false m e => (1, e, Zpos m)
  | S754_finite true m e => (-1, - e, Zneg m)
  end.

Definition key_lt (a b : Z * Z * Z) : Prop :=
  a.1.1 < b.1.1 \/ (a.1.1 = b.1.1 /\ (a.1.2 < b.1.2 \/ (a.1.2 = b.1.2 /\ a.2 < b.2))).

Lemma SFcompare_key (x y : float64) :
  is_nan x = false -> is_nan y = false ->
  exists c, SFcompare x y = Some c /\
    match c with Lt => key_lt (fkey x) (fkey y) | Eq => fkey x = fkey y
               | Gt => key_lt (fkey y) (fkey x) end.
Proof.
  intros Hx Hy. unfold key_lt.
  destruct x as [[]|[]| |[] mx ex], y as [[]|[]| |[] my ey]; try done; simpl;
    eexists; (split; [reflexivity|]); simpl; try lia; try done;
    destruct (Z.compare_spec ex ey); simpl; try lia; subst;
    change (Pos.compare_cont Eq mx my) with (Pos.compare mx my);
    destruct (Pos.compare_spec mx my); simpl; subst; try lia; done.
Qed.

Lemma flt_iff (x y : float64) :
  flt x y = true <-> is_nan x = false /\ is_nan y = false /\ key_lt (fkey x) (fkey y).
Proof.
  unfold flt, SFltb. destruct (is_nan x) eqn:Hx, (is_nan y) eqn:Hy;
    try (by destruct x, y; naive_solver).
  destruct (SFcompare_key x y Hx Hy) as ([] & -> & H); split; intros ?;
    try done; try naive_solver; unfold key_lt in *; rewrite ?H in *; lia.
Qed.

Lemma fle_iff (x y : float64) :
  fle x y = true <-> is_nan x = false /\ is_nan y = false /\ ~ key_lt (fkey y) (fkey x).
Proof.
  unfold fle, SFleb. destruct (is_nan x) eqn:Hx, (is_nan y) eqn:Hy;
    try (by destruct x, y; naive_solver).
  destruct (SFcompare_key x y Hx Hy) as ([] & -> & H); split; intros ?;
    try done; try naive_solver; unfold key_lt in *; rewrite ?H in *; try lia;
    repeat split; try done; lia.
Qed.

Lemma flt_false_iff (x y : float64) :
  flt x y = false <-> is_nan x = true \/ is_nan y = true \/ fle y x = true.
Proof.
  rewrite <- not_true_iff_false, flt_iff, fle_iff.
  destruct (is_nan x), (is_nan y); naive_solver.
Qed.

(** solves order goals once they are stated with [flt]/[fle] on the context *)
Ltac forder :=
  unfold fgt in *;
  repeat match goal with
  | H : flt _ _ = true |- _ =>
      rewrite flt_iff in H; let H1 := fresh in let H2 := fresh in destruct H as (H1 & H2 & H)
  | H : fle _ _ = true |- _ =>
      rewrite fle_iff in H; let H1 := fresh in let H2 := fresh in destruct H as (H1 & H2 & H)
  end;
  try match goal with
  | |- flt _ _ = true => apply flt_iff; repeat split; try done
  | |- fle _ _ = true => apply fle_iff; repeat split; try done
  end;
  unfold key_lt in *; try lia; try congruence.

Lemma fle_refl (x : float64) : is_nan x = false -> fle x x = true.
Proof. intros. forder. Qed.

Lemma fle_trans (x y z : float64) : fle x y = true -> fle y z = true -> fle x z = true.
Proof. intros. forder. Qed.

Lemma flt_fle (x y : float64) : flt x y = true -> fle x y = true.
Proof. intros. forder. Qed.

Lemma flt_fle_trans (x y z : float64) : flt x y = true -> fle y z = true -> flt x z = true.
Proof. intros. forder. Qed.

Lemma fle_flt_trans (x y z : float64) : fle x y = true -> flt y z = true -> flt x z = true.
Proof. intros. forder. Qed.

Lemma fle_flt_false (x y : float64) : fle x y = true -> flt y x = false.
Proof. intros. apply flt_false_iff. auto. Qed.

Lemma flt_irrefl (x : float64) : flt x x = false.
Proof.
  apply flt_false_iff. destruct (is_nan x) eqn:E; [auto|]. right; right. by apply fle_refl.
Qed.

Lemma flt_total (x y : float64) :
  is_nan x = false -> is_nan y = false -> flt x y = true \/ fle y x = true.
Proof.
  intros Hx Hy. destruct (flt x y) eqn:E; [auto|].
  apply flt_false_iff in E as [?|[?|?]]; [congruence..|auto].
Qed.

(** a confidence that clears a floor clears every lower floor *)
Lemma floor_antitone (c f f' : float64) :
  fle f f' = true -> flt c f' = false -> flt c f = false.
Proof.
  intros Hf Hc. destruct (flt c f) eqn:E; [|done]. rewrite (flt_fle_trans _ _ _ E Hf) in Hc. done.
Qed.

Lemma fmin_nan (x y : float64) : is_nan (fmin x y) = (is_nan x || is_nan y)%bool.
Proof. unfold fmin. destruct x, y; simpl; try done; by case_match. Qed.

Lemma fmax_nan (x y : float64) : is_nan (fmax x y) = (is_nan x || is_nan y)%bool.
Proof. unfold fmax. destruct x, y; simpl; try done; by case_match. Qed.

Lemma fmin_cases (x y : float64) :
  is_nan x = false -> is_nan y = false ->
  (fkey (fmin x y) = fkey x /\ fle x y = true) \/ (fkey (fmin x y) = fkey y /\ fle y x = true).
Proof.
  intros Hx Hy. unfold fmin. rewrite Hx, Hy. simpl.
  destruct (flt_total x y Hx Hy) as [H|H].
  - left. split; [|by apply flt_fle]. rewrite H. by destruct x, y.
  - right. split; [|done]. rewrite (fle_flt_false _ _ H). by destruct x, y.
Qed.

Lemma fmax_cases (x y : float64) :
  is_nan x = false -> is_nan y = false ->
  (fkey (fmax x y) = fkey y /\ fle x y = true) \/ (fkey (fmax x y) = fkey x /\ fle y x = true).
Proof.
  intros Hx Hy. unfold fmax. rewrite Hx, Hy. simpl.
  destruct (flt_total x y Hx Hy) as [H|H].
  - left. split; [|by apply flt_fle]. rewrite H. by destruct x, y.
  - right. split; [|done]. rewrite (fle_flt_false _ _ H). by destruct x, y.
Qed.

Lemma fmin_le_l (x y : float64) : is_nan x = false -> is_nan y = false -> fle (fmin x y) x = true.
Proof.
  intros Hx Hy. pose proof (fmin_nan x y) as Hn. rewrite Hx, Hy in Hn.
  destruct (fmin_cases x y Hx Hy) as [[E H]|[E H]]; forder; rewrite E; lia.
Qed.

Lemma fmin_le_r (x y : float64) : is_nan x = false -> is_nan y = false -> fle (fmin x y) y = true.
Proof.
  intros Hx Hy. pose proof (fmin_nan x y) as Hn. rewrite Hx, Hy in Hn.
  destruct (fmin_cases x y Hx Hy) as [[E H]|[E H]]; forder; rewrite E; lia.
Qed.

Lemma fmin_glb (x y z : float64) :
  fle z x = true -> fle z y = true -> fle z (fmin x y) = true.
Proof.
  intros H1 H2. pose proof (proj1 (fle_iff _ _) H1) as (_ & Hx & _).
  pose proof (proj1 (fle_iff _ _) H2) as (_ & Hy & _).
  pose proof (fmin_nan x y) as Hn. rewrite Hx, Hy in Hn.
  destruct (fmin_cases x y Hx Hy) as [[E H]|[E H]]; forder; rewrite E; lia.
Qed.

Lemma fmax_ge_l (x y : float64) : is_nan x = false -> is_nan y = false -> fle x (fmax x y) = true.
Proof.
  intros Hx Hy. pose proof (fmax_nan x y) as Hn. rewrite Hx, Hy in Hn.
  destruct (fmax_cases x y Hx Hy) as [[E H]|[E H]]; forder; rewrite E; lia.
Qed.

Lemma fmax_ge_r (x y : float64) : is_nan x = false -> is_nan y = false -> fle y (fmax x y) = true.
Proof.
  intros Hx Hy. pose proof (fmax_nan x y) as Hn. rewrite Hx, Hy in Hn.
  destruct (fmax_cases x y Hx Hy) as [[E H]|[E H]]; forder; rewrite E; lia.
Qed.

Lemma fmax_lub (x y z : float64) :
  fle x z = true -> fle y z = true -> fle (fmax x y) z = true.
Proof.
  intros H1 H2. pose proof (proj1 (fle_iff _ _) H1) as (Hx & _).
  pose proof (proj1 (fle_iff _ _) H2) as (Hy & _).
  pose proof (fmax_nan x y) as Hn. rewrite Hx, Hy in Hn.
  destruct (fmax_cases x y Hx Hy) as [[E H]|[E H]]; forder; rewrite E; lia.
Qed.

#[export] Hint Resolve fle_refl flt_fle fmin_le_l fmin_le_r fmin_glb fmax_ge_l fmax_ge_r
  fmax_lub flt_irrefl fle_flt_false : go.

(** ** Spot checks against hardware doubles running the same kernel *)

Example Exp2_half : Exp2 (of_int (-1)) = fhalf.
Proof. vm_compute. reflexivity. Qed.

Example Exp2_zero : Exp2 f0 = f1.
Proof. vm_compute. reflexivity. Qed.

Example Exp2_sqrt2 : Exp2 fhalf = of_bits 0x3FF6A09E667F3BCC.
Proof. vm_compute. reflexivity. Qed.

Example Exp2_frac : Exp2 (flit (-3) 10) = of_bits 0x3fe9fdf8bcce533e.
Proof. vm_compute. reflexivity. Qed.

Example fmt_f_ex : fmt_f 2 (flit 7 10) = "0.70"%string.
Proof. vm_compute. reflexivity. Qed.

Example fmt_f_neg : fmt_f 2 (flit (-1) 8) = "-0.12"%string.
Proof. vm_compute. reflexivity. Qed.
