(* ===== verification/Api.v ===== *)
(** * The boundary vocabulary: [api/v1]

    The records that cross the beats' seams, field for field: [signal]
    (rattle to clank), [proposal] (clank to hiss), [decision] (hiss to thump),
    [outcome] (thump back to clank) and [approval] (operator to hiss).

    Conventions: a field [F] of a Go struct [S] is the projection [S_F]; a
    pointer field is an [option] ([nil] is [None]); Go's string-based enum types
    stay strings, because a value read off the wire may be any string and the
    code decides what an unknown one means. *)

From S2P Require Import Prelude GoTime GoFloat.
Local Open Scope Z_scope.

(** ** api/v1/signal *)

Record Divergence : Type := mkDivergence {
  Divergence_Metric : string;
  Divergence_Observed : float64;
  Divergence_Baseline : float64;
  Divergence_Confidence : float64;
  Divergence_Trajectory : string
}.

Record Severity : Type := mkSeverity {
  Severity_DegradationPct : float64;
  Severity_Trajectory : string
}.

Record BlastRadius : Type := mkBlastRadius {
  BlastRadius_AffectedPct : float64;
  BlastRadius_Velocity : string;
  BlastRadius_DownstreamConsumers : Z
}.

Record Impact : Type := mkImpact {
  Impact_Severity : Severity;
  Impact_BlastRadius : BlastRadius
}.

Record ObservedNode : Type := mkObservedNode {
  ObservedNode_Name : string;
  ObservedNode_State : string
}.

Record TopologyContext : Type := mkTopologyContext {
  TopologyContext_Upstream : list ObservedNode;
  TopologyContext_Downstream : list ObservedNode
}.

Record TrafficContext : Type := mkTrafficContext {
  TrafficContext_AffectedPct : float64;
  TrafficContext_Baseline : float64;
  TrafficContext_BaselineWindow : string
}.

Record Detection : Type := mkDetection {
  Detection_Name : string;
  Detection_Fingerprint : string;
  Detection_OriginService : string;
  Detection_ServiceTier : string;
  Detection_DetectorType : string;
  Detection_Divergence : Divergence;
  Detection_Topology : TopologyContext;
  Detection_Traffic : TrafficContext;
  Detection_Impact : Impact;
  Detection_ContractRef : string;
  Detection_SLORef : string;
  Detection_DetectedAt : Time
}.

Definition Severity_zero : Severity := mkSeverity f0 "".
Definition BlastRadius_zero : BlastRadius := mkBlastRadius f0 "" 0.
Definition TrafficContext_zero : TrafficContext := mkTrafficContext f0 f0 "".

(** ** api/v1/proposal: sao.go *)

Record SignalSnapshot : Type := mkSignalSnapshot {
  SignalSnapshot_Confidence : float64;
  SignalSnapshot_Metric : string;
  SignalSnapshot_Severity : Severity;
  SignalSnapshot_BlastRadius : BlastRadius;
  SignalSnapshot_OriginService : string
}.

Record NodeState : Type := mkNodeState {
  NodeState_Name : string;
  NodeState_State : string;
  NodeState_DegradedSince : Duration;
  NodeState_TrafficShare : float64
}.

Definition NodeState_zero : NodeState := mkNodeState "" "" 0 f0.

Record TopologySnapshot : Type := mkTopologySnapshot {
  TopologySnapshot_Upstream : list NodeState;
  TopologySnapshot_Downstream : list NodeState
}.

Record ChangeEvent : Type := mkChangeEvent {
  ChangeEvent_ID : string;
  ChangeEvent_Type : string;
  ChangeEvent_Target : string;
  ChangeEvent_Age : Duration;
  ChangeEvent_CausalLikelihood : float64;
  ChangeEvent_Rationale : list string;
  ChangeEvent_PredictedSignals : list string;
  ChangeEvent_HistoricalStaleness : Duration
}.

Record ChangeSnapshot : Type := mkChangeSnapshot {
  ChangeSnapshot_Events : list ChangeEvent
}.

Record SAO : Type := mkSAO {
  SAO_Version : Z;
  SAO_AssembledAt : Time;
  SAO_Signal : SignalSnapshot;
  SAO_Topology : TopologySnapshot;
  SAO_Change : ChangeSnapshot
}.

(** ** api/v1/proposal: proposal.go *)

Abbreviation FailureClass := string (only parsing).
Abbreviation BlastTier := string (only parsing).

Definition ClassDependencySaturation : FailureClass := "dependency_saturation".
Definition ClassTrafficShift : FailureClass := "traffic_shift".
Definition ClassResourceExhaustion : FailureClass := "resource_exhaustion".
Definition ClassRedundancyDegraded : FailureClass := "redundancy_degraded".
Definition ClassServiceFailure : FailureClass := "service_failure".
Definition ClassUnknown : FailureClass := "unknown".
Definition BlastLow : BlastTier := "low".
Definition BlastMed : BlastTier := "med".
Definition BlastHigh : BlastTier := "high".

Record RankingRationale : Type := mkRankingRationale {
  RankingRationale_DominantAxis : string;
  RankingRationale_VelocityWeight : string
}.

Record Status : Type := mkStatus {
  Status_Phase : string;
  Status_Reason : string;
  Status_SupersededBy : string;
  Status_Outcome : string;
  Status_ObservedAt : Time
}.

Definition Status_zero : Status := mkStatus "" "" "" "" 0.

Definition PhaseProposed : string := "proposed".
Definition PhaseAcknowledge : string := "acknowledge".
Definition PhaseActed : string := "acted".
Definition PhaseSuperseded : string := "superseded".
Definition PhaseClosed : string := "closed".
Definition PhaseNoAction : string := "no_action".
Definition PhaseBudgetExhausted : string := "budget_exhausted".
Definition PhaseDeclined : string := "declined".

Record Hypothesis_ : Type := mkHypothesis {
  Hypothesis_Name : string;
  Hypothesis_Weight : float64
}.

Record EvidenceRef : Type := mkEvidenceRef {
  EvidenceRef_Tool : string;
  EvidenceRef_Query : string;
  EvidenceRef_Key : string;
  EvidenceRef_Summary : string;
  EvidenceRef_Ref : string;
  EvidenceRef_Live : bool;
  EvidenceRef_Subject : string
}.

Record ConfidenceTerms : Type := mkConfidenceTerms {
  ConfidenceTerms_SignalConfidence : float64;
  ConfidenceTerms_Corroborated : Z;
  ConfidenceTerms_Grounding : float64;
  ConfidenceTerms_AlignmentOK : bool;
  ConfidenceTerms_LikelihoodOK : bool
}.

Definition ConfidenceTerms_zero : ConfidenceTerms := mkConfidenceTerms f0 0 f0 false false.

Record PredictedImpact : Type := mkPredictedImpact {
  PredictedImpact_SeverityReductionPct : float64;
  PredictedImpact_BlastRadiusDelta : float64;
  PredictedImpact_SLOEffects : gmap string string
}.

Record ReversalPath : Type := mkReversalPath {
  ReversalPath_Method : string;
  ReversalPath_Watching : string;
  ReversalPath_Trigger : string;
  ReversalPath_Automatic : bool
}.

Record GovernanceLevel : Type := mkGovernanceLevel {
  GovernanceLevel_Band : string;
  GovernanceLevel_ThresholdApplied : float64
}.

Record Candidate : Type := mkCandidate {
  Candidate_ID : string;
  Candidate_ContractRef : string;
  Candidate_Confidence : float64;
  Candidate_ComputedConfidence : float64;
  Candidate_ConfidenceCeilingBound : bool;
  Candidate_Terms : ConfidenceTerms;
  Candidate_PredictedImpact : option PredictedImpact;
  Candidate_BlastTier : BlastTier;
  Candidate_ReversalPath : option ReversalPath;
  Candidate_GovernanceLevel : option GovernanceLevel;
  Candidate_Rank : Z;
  Candidate_Citations : list string
}.

Definition Candidate_zero : Candidate :=
  mkCandidate "" "" f0 f0 false ConfidenceTerms_zero None "" None None 0 [].

Record GateResult : Type := mkGateResult {
  GateResult_BudgetOK : bool;
  GateResult_DedupeOK : bool;
  GateResult_EvidenceOK : bool;
  GateResult_Passed : bool;
  GateResult_Reason : string
}.

Record CausalScore : Type := mkCausalScore {
  CausalScore_EventID : string;
  CausalScore_InTopology : bool;
  CausalScore_Temporal : float64;
  CausalScore_Topological : float64;
  CausalScore_Historical : float64;
  CausalScore_LiveCorroborated : bool;
  CausalScore_Likelihood : float64;
  CausalScore_Rationale : list string
}.

(** [proposal.Set] *)
Record ProposalSet : Type := mkSet {
  Set_Name : string;
  Set_RunID : string;
  Set_SignalRef : string;
  Set_SLORef : string;
  Set_SAOSnapshot : option SAO;
  Set_FailureClass : FailureClass;
  Set_CausalScores : list CausalScore;
  Set_Hypotheses : list Hypothesis_;
  Set_Evidence : list EvidenceRef;
  Set_ServiceTier : string;
  Set_Gate : option GateResult;
  Set_Proposals : list Candidate;
  Set_Recommended : string;
  Set_RankingRationale : option RankingRationale;
  Set_Status : option Status
}.

Definition Set_zero : ProposalSet :=
  mkSet "" "" "" "" None "" [] [] [] "" None [] "" None None.

(** the lookup every accessor of [Set] performs *)
Definition candidate_by_id (s : ProposalSet) (candidateID : string) : option Candidate :=
  find_first (fun c => Candidate_ID c =s candidateID) (Set_Proposals s).

Definition ContractRefFor (s : ProposalSet) (candidateID : string) : string :=
  match candidate_by_id s candidateID with Some c => Candidate_ContractRef c | None => "" end.

Definition ConfidenceFor (s : ProposalSet) (candidateID : string) : float64 :=
  match candidate_by_id s candidateID with Some c => Candidate_Confidence c | None => f0 end.

Definition ComputedConfidenceFor (s : ProposalSet) (candidateID : string) : float64 :=
  match candidate_by_id s candidateID with
  | Some c => Candidate_ComputedConfidence c | None => f0 end.

Definition ConfidenceCeilingBoundFor (s : ProposalSet) (candidateID : string) : bool :=
  match candidate_by_id s candidateID with
  | Some c => Candidate_ConfidenceCeilingBound c | None => false end.

Definition TermsFor (s : ProposalSet) (candidateID : string) : ConfidenceTerms :=
  match candidate_by_id s candidateID with
  | Some c => Candidate_Terms c | None => ConfidenceTerms_zero end.

(** ** api/v1/decision *)

Abbreviation Verdict := string (only parsing).
Abbreviation Band := string (only parsing).

Definition VerdictApproved : Verdict := "approved".
Definition VerdictEscalate : Verdict := "escalate".
Definition VerdictRejected : Verdict := "rejected".
Definition VerdictHold : Verdict := "hold".

Definition AwaitsApproval (v : Verdict) : bool := (v =s VerdictEscalate) || (v =s VerdictHold).

Definition BandObserve : Band := "observe".
Definition BandActReversible : Band := "act_reversible".
Definition BandActDisruptive : Band := "act_disruptive".

Definition ReasonConfidenceFloor : string := "confidence_floor".
Definition ReasonGroundingFloor : string := "grounding_floor".
Definition ReasonAuthorityCeiling : string := "authority_ceiling".
Definition ReasonIrreversible : string := "irreversible".
Definition ReasonFreezeWindow : string := "freeze_window".
Definition ReasonUngatedInput : string := "ungated_input".
Definition ReasonRiskCeiling : string := "risk_ceiling".

Record Decision : Type := mkDecision {
  Decision_ID : string;
  Decision_ProposalRef : string;
  Decision_SignalRef : string;
  Decision_SLORef : string;
  Decision_CandidateRef : string;
  Decision_Verdict : Verdict;
  Decision_Reasons : list string;
  Decision_RequestedBand : Band;
  Decision_GrantedBand : Band;
  Decision_RiskBand : Band;
  Decision_FloorApplied : float64;
  Decision_PolicyVersion : string;
  Decision_EvaluatedAt : Time;
  Decision_Forced : bool;
  Decision_Operator : string;
  Decision_Approver : string
}.

(** [Decision.Auditable]: [None] is a nil error *)
Definition Decision_Auditable (d : Decision) : option error :=
  if Decision_PolicyVersion d =s "" then Some (errors_New "decision missing policy version")
  else if IsZero (Decision_EvaluatedAt d) then Some (errors_New "decision missing evaluation time")
  else if (Decision_Verdict d <>s VerdictApproved) && (Nat.eqb (length (Decision_Reasons d)) 0)
  then Some (errors_New (Decision_Verdict d +:+ " decision with no reasons is not accepted"))
  else None.

(** [decision.Governed] *)
Record Governed : Type := mkGoverned {
  Governed_Decision : Decision;
  Governed_Set : ProposalSet
}.

(** ** api/v1/outcome *)

Abbreviation Mode := string (only parsing).
Abbreviation Result := string (only parsing).

Definition ModeDryRun : Mode := "dry_run".
Definition ModeLive : Mode := "live".

Definition ResultRendered : Result := "rendered".
Definition ResultApplied : Result := "applied".
Definition ResultProposed : Result := "proposed".
Definition ResultSuccess : Result := "success".
Definition ResultFailure : Result := "failure".
Definition ResultUnknown : Result := "unknown".
Definition ResultBlocked : Result := "blocked".
Definition ResultPartialNonConverging : Result := "partial_non_converging".

Record Outcome : Type := mkOutcome {
  Outcome_ID : string;
  Outcome_DecisionRef : string;
  Outcome_SignalRef : string;
  Outcome_ContractRef : string;
  Outcome_Mode : Mode;
  Outcome_Result : Result;
  Outcome_Error : string;
  Outcome_ExecutedAt : Time;
  Outcome_ObservedSeverity : option float64
}.

(** [Outcome.Auditable] *)
Definition Outcome_Auditable (o : Outcome) : option error :=
  if Outcome_DecisionRef o =s "" then
    Some (errors_New "outcome missing decision ref - an act answers to a grant")
  else if IsZero (Outcome_ExecutedAt o) then Some (errors_New "outcome missing execution time")
  else if Outcome_Mode o =s "" then
    Some (errors_New "outcome missing mode - rehearsal and reality must be distinguishable")
  else if Outcome_Result o =s "" then Some (errors_New "outcome missing result")
  else if ((Outcome_Result o =s ResultFailure) || (Outcome_Result o =s ResultPartialNonConverging))
          && (Outcome_Error o =s "") then
    Some (errors_New (Outcome_Result o +:+ " outcome with no error text is silence, not accountability"))
  else None.

(** ** api/v1/approval *)

Record Approval : Type := mkApproval {
  Approval_SignalRef : string;
  Approval_Approver : string;
  Approval_ApprovedAt : Time;
  Approval_CapBand : string
}.

Definition Approval_zero : Approval := mkApproval "" "" 0 "".

Definition Approval_Auditable (a : Approval) : option error :=
  if Approval_SignalRef a =s "" then
    Some (errors_New "approval missing signal ref - an ack answers to a held fingerprint")
  else if Approval_Approver a =s "" then
    Some (errors_New "approval missing approver - an ack with no human is not accountability")
  else if IsZero (Approval_ApprovedAt a) then Some (errors_New "approval missing ack time")
  else None.

(** ** Lemmas *)

Lemma candidate_by_id_Some (s : ProposalSet) (i : string) (c : Candidate) :
  candidate_by_id s i = Some c -> c ∈ Set_Proposals s /\ Candidate_ID c = i.
Proof. intros [? ?%String.eqb_eq]%find_first_Some. done. Qed.

Lemma Decision_Auditable_None (d : Decision) :
  Decision_Auditable d = None <->
  Decision_PolicyVersion d <> ""%string /\ Decision_EvaluatedAt d <> 0 /\
  (Decision_Verdict d = VerdictApproved \/ Decision_Reasons d <> []).
Proof.
  unfold Decision_Auditable, IsZero. rewrite !seqb_spec.
  destruct (Decision_Reasons d) eqn:Er; simpl;
    repeat (case_bool_decide; simpl); destruct (Z.eqb_spec (Decision_EvaluatedAt d) 0); naive_solver.
Qed.

Lemma Outcome_Auditable_None (o : Outcome) :
  Outcome_Auditable o = None <->
  Outcome_DecisionRef o <> ""%string /\ Outcome_ExecutedAt o <> 0 /\
  Outcome_Mode o <> ""%string /\ Outcome_Result o <> ""%string /\
  (Outcome_Result o = ResultFailure \/ Outcome_Result o = ResultPartialNonConverging ->
   Outcome_Error o <> ""%string).
Proof.
  unfold Outcome_Auditable, IsZero. rewrite !seqb_spec.
  repeat (case_bool_decide; simpl); destruct (Z.eqb_spec (Outcome_ExecutedAt o) 0); naive_solver.
Qed.
