(* ===== verification/Ledger.v ===== *)
(** * internal/ledger: the append-only event log

    [Log T] is the generic log hiss and thump embed; a beat's typed query
    ([ByVerdict], [ByResult]) is a [Log_Filter].  The mutex serialises the
    operations, so each one is a pure function of the log's contents. *)

From S2P Require Import Prelude GoTime GoFloat Api.
Local Open Scope Z_scope.

Record Log (T : Type) : Type := mkLog {
  Log_items : list T;
  Log_ts : T -> Time
}.
Arguments mkLog {T}.
Arguments Log_items {T}.
Arguments Log_ts {T}.

Definition NewLog {T} (ts : T -> Time) : Log T := mkLog [] ts.

Definition Log_Record {T} (l : Log T) (v : T) : Log T := mkLog (Log_items l ++ [v]) (Log_ts l).

Definition Log_Filter {T} (l : Log T) (pred : T -> bool) : list T :=
  List.filter pred (Log_items l).

Definition Log_Since {T} (l : Log T) (cut : Time) : list T :=
  Log_Filter l (fun v => After (Log_ts l v) cut).

(** ** The two beats' logs *)

Definition NewDecisionLog : Log Decision := NewLog Decision_EvaluatedAt.

Definition ByVerdict (l : Log Decision) (v : Verdict) : list Decision :=
  Log_Filter l (fun d => Decision_Verdict d =s v).

Definition NewOutcomeLog : Log Outcome := NewLog Outcome_ExecutedAt.

Definition ByResult (l : Log Outcome) (r : Result) : list Outcome :=
  Log_Filter l (fun o => Outcome_Result o =s r).

(** ** Lemmas *)

(** Recording extends every view by the new record and disturbs nothing else. *)
Lemma Log_Filter_Record {T} (l : Log T) (v : T) (pred : T -> bool) :
  Log_Filter (Log_Record l v) pred = Log_Filter l pred ++ (if pred v then [v] else []).
Proof. unfold Log_Filter, Log_Record. simpl. rewrite List.filter_app. simpl. by case_match. Qed.

#[export] Hint Rewrite @Log_Filter_Record : go.
