(* ===== verification/Contract.v ===== *)
(** * internal/contract: the authored action catalog

    The [ActionContract] record and the [StaticCatalog] lookups clank proposes
    from and thump renders from.  YAML decoding is a parameter of [Load]. *)

From S2P Require Import Prelude GoTime GoFloat Api.
Local Open Scope Z_scope.

Definition ErrOutsideCatalog : error := errors_New "contract: proposed contract not in catalog".

Record Range : Type := mkRange {
  Range_Min : float64;
  Range_Max : float64;
  Range_Default : float64
}.

Record ActionSpec : Type := mkActionSpec {
  ActionSpec_Description : string;
  ActionSpec_ScopeParameters : gmap string Range
}.

Record Step : Type := mkStep {
  Step_Verb : string;
  Step_Namespace : string;
  Step_Selector : string;
  Step_Command : list string;
  Step_Deployment : string;
  Step_Replicas : option Z;
  Step_ConfigMap : string;
  Step_DataKey : string;
  Step_Flag : string;
  Step_Variant : string;
  Step_Path : string
}.

Record Execution : Type := mkExecution {
  Execution_Forward : list Step;
  Execution_Reverse : list Step
}.

Record Reversal : Type := mkReversal {
  Reversal_Method : string;
  Reversal_Fallback : string;
  Reversal_RestoreOnSuccess : bool;
  Reversal_HoldOnMiss : bool
}.

Record SuccessCriteria : Type := mkSuccessCriteria {
  SuccessCriteria_Metric : string;
  SuccessCriteria_Target : string;
  SuccessCriteria_Window : Duration;
  SuccessCriteria_AbortConditions : list string;
  SuccessCriteria_SeverityQuery : string;
  SuccessCriteria_SeverityReductionPct : float64
}.

(** [OK] is authored Go, bound by name at load; [None] is the unbound nil
    function of a freshly parsed document. *)
Record Precondition : Type := mkPrecondition {
  Precondition_Name : string;
  Precondition_OK : option (SAO -> bool)
}.

Record ActionContract : Type := mkActionContract {
  AC_Name : string;
  AC_ApplicableFailureClasses : list FailureClass;
  AC_ApplicableTiers : list string;
  AC_BlastTier : BlastTier;
  AC_Preconditions : list Precondition;
  AC_Action : ActionSpec;
  AC_Reversal : Reversal;
  AC_Execution : Execution;
  AC_SuccessCriteria : SuccessCriteria
}.

Record StaticCatalog : Type := mkStaticCatalog { Catalog_contracts : list ActionContract }.

Definition NewStaticCatalog (t : list ActionContract) : StaticCatalog := mkStaticCatalog t.

(** [slices.Contains] on strings *)
Definition slices_Contains (l : list string) (x : string) : bool := existsb (String.eqb x) l.

Definition classMatches (c : ActionContract) (class : FailureClass) : bool :=
  slices_Contains (AC_ApplicableFailureClasses c) class.

Definition tierMatches (c : ActionContract) (tier : string) : bool :=
  slices_Contains (AC_ApplicableTiers c) tier.

(** A precondition whose [OK] was never bound is a nil-function call in Go (a
    panic); [Load] binds every one, and an unbound one holds for nothing here. *)
Definition preconditionsMet (c : ActionContract) (sao : SAO) : bool :=
  forallb (fun p => match Precondition_OK p with Some ok => ok sao | None => false end)
          (AC_Preconditions c).

Definition Applicable (s : StaticCatalog) (class : FailureClass) (tier : string) (sao : SAO)
  : list ActionContract :=
  List.filter (fun c => classMatches c class && tierMatches c tier && preconditionsMet c sao)
              (Catalog_contracts s).

Definition ApplicableToTier (s : StaticCatalog) (tier : string) (sao : SAO) : list ActionContract :=
  List.filter (fun c => tierMatches c tier && preconditionsMet c sao) (Catalog_contracts s).

Definition ByName (s : StaticCatalog) (name : string) : option ActionContract :=
  find_first (fun c => AC_Name c =s name) (Catalog_contracts s).

Definition Contracts (s : StaticCatalog) : list ActionContract := Catalog_contracts s.

(** ** load.go *)

Abbreviation PreconditionRegistry := (gmap string (SAO -> bool)).

Definition bind_precondition (reg : PreconditionRegistry) (cname : string) (p : Precondition)
  : result Precondition :=
  match reg !! Precondition_Name p with
  | None => inr (errors_New ("catalog: contract " +:+ fmt_q cname +:+ " names precondition "
                   +:+ fmt_q (Precondition_Name p) +:+ ", not in the registry"))
  | Some ok => inl (mkPrecondition (Precondition_Name p) (Some ok))
  end.

Fixpoint bind_preconditions (reg : PreconditionRegistry) (cname : string) (ps : list Precondition)
  : result (list Precondition) :=
  match ps with
  | [] => inl []
  | p :: ps' =>
      match bind_precondition reg cname p with
      | inr e => inr e
      | inl p' => match bind_preconditions reg cname ps' with
                  | inr e => inr e
                  | inl ps'' => inl (p' :: ps'')
                  end
      end
  end.

Fixpoint bind_contracts (reg : PreconditionRegistry) (cs : list ActionContract)
  : result (list ActionContract) :=
  match cs with
  | [] => inl []
  | c :: cs' =>
      match bind_preconditions reg (AC_Name c) (AC_Preconditions c) with
      | inr e => inr e
      | inl ps =>
          match bind_contracts reg cs' with
          | inr e => inr e
          | inl cs'' =>
              inl (mkActionContract (AC_Name c) (AC_ApplicableFailureClasses c)
                     (AC_ApplicableTiers c) (AC_BlastTier c) ps (AC_Action c) (AC_Reversal c)
                     (AC_Execution c) (AC_SuccessCriteria c) :: cs'')
          end
      end
  end.

(** [Load], with the YAML decoder [yaml.Unmarshal] as a parameter *)
Definition Load (unmarshal : string -> result (list ActionContract)) (raw : string)
  (reg : PreconditionRegistry) : result StaticCatalog :=
  match unmarshal raw with
  | inr e => inr (errorf_w "parse catalog: " e)
  | inl contracts =>
      match bind_contracts reg contracts with
      | inr e => inr e
      | inl cs => inl (NewStaticCatalog cs)
      end
  end.

(** ** Lemmas *)

Lemma slices_Contains_iff (l : list string) (x : string) : slices_Contains l x = true <-> x ∈ l.
Proof.
  unfold slices_Contains. rewrite existsb_elem. split.
  - by intros (y & Hy & ->%String.eqb_eq).
  - intros H. exists x. by rewrite seqb_refl.
Qed.

Lemma Applicable_spec (s : StaticCatalog) class tier sao (c : ActionContract) :
  c ∈ Applicable s class tier sao <->
  c ∈ Catalog_contracts s /\ class ∈ AC_ApplicableFailureClasses c /\
  tier ∈ AC_ApplicableTiers c /\ preconditionsMet c sao = true.
Proof.
  unfold Applicable. rewrite elem_of_filterb, !andb_true_iff.
  unfold classMatches, tierMatches. rewrite !slices_Contains_iff. naive_solver.
Qed.

Lemma ByName_Some (s : StaticCatalog) (n : string) (c : ActionContract) :
  ByName s n = Some c -> c ∈ Catalog_contracts s /\ AC_Name c = n.
Proof. intros [? ?%String.eqb_eq]%find_first_Some. done. Qed.

(** a name the catalog lists resolves *)
Lemma ByName_listed (s : StaticCatalog) (c : ActionContract) :
  c ∈ Catalog_contracts s -> is_Some (ByName s (AC_Name c)).
Proof. intros H. eapply find_first_is_Some; [exact H|]. apply seqb_refl. Qed.
