(* ===== verification/Hiss.v ===== *)
(** * internal/hiss: the governor

    [Policy], the risk lattice and [Authority.Evaluate] (authority.go, risk.go,
    policy.go).  [Permitted] and [Fired] are the abstract contract hiss promises
    thump: when an action may run unattended, and which vetoes a decision
    records.  [Evaluate] is proved to implement them. *)

From S2P Require Import Prelude GoTime GoFloat Api.
Local Open Scope Z_scope.

Record Window : Type := mkWindow {
  Window_Name : string;
  Window_Start : Time;
  Window_End : Time
}.

Record Policy : Type := mkPolicy {
  Policy_Version : string;
  Policy_ConfidenceGate : string;
  Policy_Floors : gmap string (gmap string float64);
  Policy_MaxBand : gmap string Band;
  Policy_AutoBand : gmap string Band;
  Policy_FreezeWindows : list Window;
  Policy_RequireReversal : bool
}.

(** the zero value of [Policy], as Go zero-initialises it *)
Definition Policy_zero : Policy := mkPolicy "" "" ∅ ∅ ∅ [] false.

(** Go map reads: a missing key (or a nil inner map) gives the zero value *)
Definition floor_for (pol : Policy) (tier : string) (class : FailureClass) : float64 :=
  match Policy_Floors pol !! tier with
  | None => f0
  | Some m => default f0 (m !! class)
  end.

Definition band_for (m : gmap string Band) (tier : string) : Band := default ""%string (m !! tier).

(** risk.go *)
Definition RiskBand (reversible automatic : bool) (blast : BlastTier) : Band :=
  if negb reversible then BandActDisruptive
  else if negb automatic then BandActDisruptive
  else if blast =s BlastHigh then BandActDisruptive
  else BandActReversible.

Definition bandRank (b : Band) : Z :=
  if b =s BandObserve then 0
  else if b =s BandActDisruptive then 2
  else if b =s BandActReversible then 1
  else 3.

Definition is_some {A} (o : option A) : bool := match o with Some _ => true | None => false end.

(** [c.ReversalPath != nil && c.ReversalPath.Automatic] *)
Definition automatic_undo (c : Candidate) : bool :=
  match Candidate_ReversalPath c with Some r => ReversalPath_Automatic r | None => false end.

Definition candidate_risk (c : Candidate) : Band :=
  RiskBand (is_some (Candidate_ReversalPath c)) (automatic_undo c) (Candidate_BlastTier c).

Definition selfReportBinds (c : Candidate) : bool :=
  bandRank BandActReversible <? bandRank (candidate_risk c).

Definition effectiveComputedConfidence (c : Candidate) : float64 :=
  if feq (Candidate_ComputedConfidence c) f0 && fgt (Candidate_Confidence c) f0
  then Candidate_Confidence c
  else Candidate_ComputedConfidence c.

Definition recommended (ps : ProposalSet) : option Candidate :=
  find_first (fun c => Candidate_ID c =s Set_Recommended ps) (Set_Proposals ps).

Definition requestedBand (c : Candidate) : Band :=
  match Candidate_GovernanceLevel c with
  | None => BandObserve
  | Some g => GovernanceLevel_Band g
  end.

(** now in [Start, End) *)
Definition in_window (now : Time) (w : Window) : bool :=
  negb (Before now (Window_Start w)) && Before now (Window_End w).

Definition floor_reasons (pol : Policy) (floor : float64) (rec : Candidate) : list string :=
  if Policy_ConfidenceGate pol =s "split" then
    (if flt (effectiveComputedConfidence rec) floor then [ReasonGroundingFloor] else [])
    ++ (if selfReportBinds rec && flt (Candidate_Confidence rec) floor
        then [ReasonConfidenceFloor] else [])
  else
    (if flt (Candidate_Confidence rec) floor then [ReasonConfidenceFloor] else []).

Definition freeze_reasons (pol : Policy) (now : Time) : list string :=
  map (fun w => ReasonFreezeWindow +:+ ":" +:+ Window_Name w)
      (List.filter (in_window now) (Policy_FreezeWindows pol)).

(** the stage-one minimums, in the order [Evaluate] appends their reasons *)
Definition stage1_reasons (ps : ProposalSet) (pol : Policy) (now : Time) (rec : Candidate)
  : list string :=
  floor_reasons pol (floor_for pol (Set_ServiceTier ps) (Set_FailureClass ps)) rec
  ++ (if bandRank (band_for (Policy_MaxBand pol) (Set_ServiceTier ps)) <? bandRank (requestedBand rec)
      then [ReasonAuthorityCeiling] else [])
  ++ (if Policy_RequireReversal pol && negb (is_some (Candidate_ReversalPath rec))
      then [ReasonIrreversible] else [])
  ++ freeze_reasons pol now.

(** [ps.Gate == nil || !ps.Gate.Passed] negated *)
Definition gate_passed (ps : ProposalSet) : bool :=
  match Set_Gate ps with Some g => GateResult_Passed g | None => false end.

(** authority.go: [Authority.Evaluate] *)
Definition Evaluate (ps : ProposalSet) (pol : Policy) (now : Time) : Decision :=
  let d verdict reasons req granted risk floor :=
    mkDecision ("dec:" +:+ Set_SignalRef ps +:+ ":" +:+ fmt_d (Unix now))
      (Set_Name ps) (Set_SignalRef ps) (Set_SLORef ps) (Set_Recommended ps)
      verdict reasons req granted risk floor (Policy_Version pol) now false "" "" in
  match recommended ps, gate_passed ps with
  | Some rec, true =>
      let req := requestedBand rec in
      let floor := floor_for pol (Set_ServiceTier ps) (Set_FailureClass ps) in
      match stage1_reasons ps pol now rec with
      | [] =>
          let risk := candidate_risk rec in
          if bandRank (band_for (Policy_AutoBand pol) (Set_ServiceTier ps)) <? bandRank risk
          then d VerdictHold [ReasonRiskCeiling] req ""%string risk floor
          else d VerdictApproved [] req req risk floor
      | reasons => d VerdictEscalate reasons req ""%string ""%string floor
      end
  | _, _ => d VerdictRejected [ReasonUngatedInput] ""%string ""%string ""%string f0
  end.

(** ** The contract: when an action may proceed unattended *)

(** the confidence minimum, under either reading of [ConfidenceGate] *)
Definition clears_floor (pol : Policy) (floor : float64) (rec : Candidate) : Prop :=
  if Policy_ConfidenceGate pol =s "split" then
    flt (effectiveComputedConfidence rec) floor = false /\
    (selfReportBinds rec = true -> flt (Candidate_Confidence rec) floor = false)
  else flt (Candidate_Confidence rec) floor = false.

Record Permitted (ps : ProposalSet) (pol : Policy) (now : Time) (rec : Candidate) : Prop := {
  permitted_gate : exists g, Set_Gate ps = Some g /\ GateResult_Passed g = true;
  permitted_recommended : recommended ps = Some rec;
  permitted_floor :
    clears_floor pol (floor_for pol (Set_ServiceTier ps) (Set_FailureClass ps)) rec;
  permitted_ceiling :
    bandRank (requestedBand rec) <= bandRank (band_for (Policy_MaxBand pol) (Set_ServiceTier ps));
  permitted_reversal :
    Policy_RequireReversal pol = true -> is_Some (Candidate_ReversalPath rec);
  permitted_window :
    forall w, w ∈ Policy_FreezeWindows pol -> ~ (Window_Start w <= now < Window_End w);
  permitted_risk :
    bandRank (candidate_risk rec) <= bandRank (band_for (Policy_AutoBand pol) (Set_ServiceTier ps))
}.

(** the stage-one vetoes, one rule per reason *)
Inductive Veto (ps : ProposalSet) (pol : Policy) (now : Time) (rec : Candidate) : string -> Prop :=
| veto_floor :
    (Policy_ConfidenceGate pol = "split"%string -> selfReportBinds rec = true) ->
    flt (Candidate_Confidence rec)
        (floor_for pol (Set_ServiceTier ps) (Set_FailureClass ps)) = true ->
    Veto ps pol now rec ReasonConfidenceFloor
| veto_grounding :
    Policy_ConfidenceGate pol = "split"%string ->
    flt (effectiveComputedConfidence rec)
        (floor_for pol (Set_ServiceTier ps) (Set_FailureClass ps)) = true ->
    Veto ps pol now rec ReasonGroundingFloor
| veto_ceiling :
    bandRank (band_for (Policy_MaxBand pol) (Set_ServiceTier ps)) < bandRank (requestedBand rec) ->
    Veto ps pol now rec ReasonAuthorityCeiling
| veto_irreversible :
    Policy_RequireReversal pol = true -> Candidate_ReversalPath rec = None ->
    Veto ps pol now rec ReasonIrreversible
| veto_freeze w :
    w ∈ Policy_FreezeWindows pol -> Window_Start w <= now < Window_End w ->
    Veto ps pol now rec (ReasonFreezeWindow +:+ ":" +:+ Window_Name w).

(** [Ruling ps pol now d]: the four verdicts and exactly what each records *)
Inductive Ruling (ps : ProposalSet) (pol : Policy) (now : Time) (d : Decision) : Prop :=
| ruled_rejected :
    gate_passed ps = false \/ recommended ps = None ->
    Decision_Verdict d = VerdictRejected -> Decision_Reasons d = [ReasonUngatedInput] ->
    Decision_GrantedBand d = ""%string -> Ruling ps pol now d
| ruled_escalate rec :
    gate_passed ps = true -> recommended ps = Some rec ->
    Decision_Verdict d = VerdictEscalate -> Decision_Reasons d <> [] ->
    (forall r, r ∈ Decision_Reasons d <-> Veto ps pol now rec r) ->
    Decision_GrantedBand d = ""%string -> Ruling ps pol now d
| ruled_hold rec :
    gate_passed ps = true -> recommended ps = Some rec ->
    (forall r, ~ Veto ps pol now rec r) ->
    bandRank (band_for (Policy_AutoBand pol) (Set_ServiceTier ps)) < bandRank (candidate_risk rec) ->
    Decision_Verdict d = VerdictHold -> Decision_Reasons d = [ReasonRiskCeiling] ->
    Decision_RiskBand d = candidate_risk rec ->
    Decision_GrantedBand d = ""%string -> Ruling ps pol now d
| ruled_approved rec :
    Permitted ps pol now rec ->
    Decision_Verdict d = VerdictApproved -> Decision_Reasons d = [] ->
    Decision_RequestedBand d = requestedBand rec ->
    Decision_GrantedBand d = requestedBand rec -> Ruling ps pol now d.

(** ** Policy tightening

    [tighter p q]: [q] asks at least as much as [p] on every axis. *)

Record tighter (p q : Policy) : Prop := {
  tighter_gate : Policy_ConfidenceGate q = Policy_ConfidenceGate p;
  tighter_floors : forall t c, fle (floor_for p t c) (floor_for q t c) = true;
  tighter_max : forall t, bandRank (band_for (Policy_MaxBand q) t) <= bandRank (band_for (Policy_MaxBand p) t);
  tighter_auto : forall t, bandRank (band_for (Policy_AutoBand q) t) <= bandRank (band_for (Policy_AutoBand p) t);
  tighter_windows : forall w, w ∈ Policy_FreezeWindows p -> w ∈ Policy_FreezeWindows q;
  tighter_reversal : Policy_RequireReversal p = true -> Policy_RequireReversal q = true
}.

(** ** Lemmas *)

Lemma in_window_iff now w : in_window now w = true <-> Window_Start w <= now < Window_End w.
Proof.
  unfold in_window, Before. rewrite andb_true_iff, negb_true_iff, Z.ltb_ge, Z.ltb_lt. lia.
Qed.

Lemma gate_passed_iff ps :
  gate_passed ps = true <-> exists g, Set_Gate ps = Some g /\ GateResult_Passed g = true.
Proof. unfold gate_passed. destruct (Set_Gate ps); naive_solver. Qed.

Lemma floor_reasons_elem pol floor rec r :
  r ∈ floor_reasons pol floor rec <->
  (r = ReasonConfidenceFloor /\
     (Policy_ConfidenceGate pol = "split"%string -> selfReportBinds rec = true) /\
     flt (Candidate_Confidence rec) floor = true) \/
  (r = ReasonGroundingFloor /\ Policy_ConfidenceGate pol = "split"%string /\
     flt (effectiveComputedConfidence rec) floor = true).
Proof.
  unfold floor_reasons. rewrite seqb_spec. case_bool_decide as E.
  - rewrite elem_of_app, !elem_of_if, andb_true_iff. naive_solver.
  - rewrite elem_of_if. naive_solver.
Qed.

Lemma stage1_reasons_elem ps pol now rec r :
  r ∈ stage1_reasons ps pol now rec <-> Veto ps pol now rec r.
Proof.
  unfold stage1_reasons, freeze_reasons.
  rewrite !elem_of_app, floor_reasons_elem, list_elem_of_fmap.
  rewrite !elem_of_if, Z.ltb_lt, andb_true_iff, negb_true_iff. split.
  - intros [[(-> & ? & ?)|(-> & ? & ?)]|[[? ->]|[[[? Hr] ->]|(w & -> & Hw)]]].
    + by apply veto_floor.
    + by apply veto_grounding.
    + by apply veto_ceiling.
    + apply veto_irreversible; [done|]. by destruct (Candidate_ReversalPath rec).
    + rewrite elem_of_filterb, in_window_iff in Hw. destruct Hw. by apply veto_freeze.
  - intros []; [by left; left|by left; right|by right; left| |].
    + right; right; left. repeat split; try done. by destruct (Candidate_ReversalPath rec).
    + right; right; right. exists w. split; [done|].
      by rewrite elem_of_filterb, in_window_iff.
Qed.

Lemma stage1_clear_iff ps pol now rec :
  stage1_reasons ps pol now rec = [] <-> forall r, ~ Veto ps pol now rec r.
Proof.
  setoid_rewrite <- stage1_reasons_elem.
  destruct (stage1_reasons ps pol now rec) as [|r l]; [set_solver|].
  split; [done|]. intros H. destruct (H r). by left.
Qed.

Lemma no_veto_permitted ps pol now rec :
  gate_passed ps = true -> recommended ps = Some rec ->
  bandRank (candidate_risk rec) <= bandRank (band_for (Policy_AutoBand pol) (Set_ServiceTier ps)) ->
  (forall r, ~ Veto ps pol now rec r) <-> Permitted ps pol now rec.
Proof.
  intros Hg Hr Hrisk. apply gate_passed_iff in Hg. split.
  - intros H. split; try done.
    + unfold clears_floor. rewrite seqb_spec. case_bool_decide.
      * split; [|intros Hb]; apply not_true_iff_false; intros Hf; eapply H;
          [by apply veto_grounding|by apply veto_floor].
      * apply not_true_iff_false. intros Hf. eapply H. by apply veto_floor.
    + apply Z.le_ngt. intros ?. eapply H. by apply veto_ceiling.
    + intros Hq. destruct (Candidate_ReversalPath rec) eqn:E; [by eexists|].
      exfalso. eapply H. by apply veto_irreversible.
    + intros w Hw Hin. eapply H. by eapply veto_freeze.
  - intros [_ _ Hf Hc Hv Hw _] r Hveto. unfold clears_floor in Hf. rewrite seqb_spec in Hf.
    destruct Hveto as [Hb Hlt|Hs Hlt|Hlt|Hq Hn|w Hin Hnow].
    + case_bool_decide; [|congruence]. destruct Hf as [_ Hf]. rewrite Hf in Hlt; [done|]. auto.
    + case_bool_decide; [|done]. destruct Hf. congruence.
    + lia.
    + destruct (Hv Hq). congruence.
    + by apply (Hw w Hin).
Qed.

Lemma Evaluate_Ruling ps pol now : Ruling ps pol now (Evaluate ps pol now).
Proof.
  unfold Evaluate.
  destruct (recommended ps) as [rec|] eqn:Hr; [|by apply ruled_rejected; auto].
  destruct (gate_passed ps) eqn:Hg; [|by apply ruled_rejected; auto].
  pose proof (stage1_reasons_elem ps pol now rec) as Hv.
  pose proof (stage1_clear_iff ps pol now rec) as Hc.
  destruct (stage1_reasons ps pol now rec) as [|r l].
  - assert (forall r, ~ Veto ps pol now rec r) as Hno by (by apply Hc).
    destruct (Z.ltb_spec (bandRank (band_for (Policy_AutoBand pol) (Set_ServiceTier ps)))
                (bandRank (candidate_risk rec))).
    + by eapply ruled_hold.
    + eapply ruled_approved; simpl; try done. by apply no_veto_permitted.
  - by eapply ruled_escalate.
Qed.

Lemma clears_floor_tighter p q f f' rec :
  Policy_ConfidenceGate q = Policy_ConfidenceGate p -> fle f f' = true ->
  clears_floor q f' rec -> clears_floor p f rec.
Proof.
  intros Hg Hf. unfold clears_floor. rewrite Hg. destruct (_ =s "split").
  - intros [H1 H2]. split; [|intros Hb; specialize (H2 Hb)]; by eapply floor_antitone.
  - by apply floor_antitone.
Qed.

Lemma Permitted_tighter p q ps now rec :
  tighter p q -> Permitted ps q now rec -> Permitted ps p now rec.
Proof.
  intros [Hg Hf Hm Ha Hw Hr] [? ? Hfl Hc Hv Hwin Hk]. split; try done.
  - by eapply clears_floor_tighter.
  - specialize (Hm (Set_ServiceTier ps)). lia.
  - auto.
  - intros w Hin. apply Hwin. auto.
  - specialize (Ha (Set_ServiceTier ps)). lia.
Qed.

Lemma bandRank_range b : 0 <= bandRank b <= 3.
Proof. unfold bandRank. repeat case_match; lia. Qed.

Lemma candidate_risk_rank c : bandRank (candidate_risk c) <= 2.
Proof. unfold candidate_risk, RiskBand. by repeat case_match. Qed.

(** a concrete tier-1 policy and a ready set, used by the witnesses *)
Definition demo_policy : Policy :=
  mkPolicy "v1" "collapsed" {[ "tier-1" := {[ "service_failure" := flit 3 4 ]} ]}
    {[ "tier-1" := BandActReversible ]} {[ "tier-1" := BandActReversible ]}
    [mkWindow "xmas" 1000 2000] true.

Definition demo_candidate : Candidate :=
  mkCandidate "c1" "acme-shed-load" (flit 9 10) (flit 9 10) false ConfidenceTerms_zero None BlastLow
    (Some (mkReversalPath "restore" "m" "t" true)) (Some (mkGovernanceLevel BandActReversible f0))
    1 ["k"%string].

Definition demo_set : ProposalSet :=
  mkSet "acme-burn-accel" "slo_burn:acme/1" "slo_burn:acme" "acme-availability" None
    "service_failure" [] [] [] "tier-1" (Some (mkGateResult true true true true ""))
    [demo_candidate] "c1" None (Some Status_zero).

(** ** Claims *)

(** C8. [Authority.Evaluate] implements its contract: it approves a set exactly
    when the set passed its gate, its recommendation resolves, every stage-one
    minimum (confidence floor, authority ceiling, reversibility, freeze windows)
    is met and the computed risk band stays inside the tier's auto-fire
    ceiling; otherwise it rejects, escalates or holds with exactly the reasons
    that fired, and grants nothing. *)
Theorem Evaluate_implements_contract (ps : ProposalSet) (pol : Policy) (now : Time) :
  Ruling ps pol now (Evaluate ps pol now) /\
  (Decision_Verdict (Evaluate ps pol now) = VerdictApproved <->
   exists rec, Permitted ps pol now rec).
Proof.
  pose proof (Evaluate_Ruling ps pol now) as HR. split; [done|]. split.
  - destruct HR; try (intros; sclash). eauto.
  - intros [rec HP]. pose proof (permitted_recommended _ _ _ _ HP) as Hr.
    pose proof (proj2 (gate_passed_iff ps) (permitted_gate _ _ _ _ HP)) as Hg.
    pose proof (proj2 (no_veto_permitted ps pol now rec Hg Hr (permitted_risk _ _ _ _ HP)) HP) as Hno.
    destruct HR as [[?|?]|rec' ? ? ? Hne Hv|rec' ? ? ? Hk|]; try congruence.
    + destruct (Decision_Reasons (Evaluate ps pol now)) as [|r l]; [done|].
      assert (rec' = rec) as -> by congruence. destruct (Hno r). apply Hv. by left.
    + assert (rec' = rec) as -> by congruence. pose proof (permitted_risk _ _ _ _ HP). lia.
Qed.

(** Tightening a policy never grants more: raising confidence floors,
    lowering a tier's requested-band or auto-fire ceiling, adding freeze windows
    or demanding reversibility cannot turn a verdict into an approval. *)
Theorem Evaluate_tightening (p q : Policy) (ps : ProposalSet) (now : Time) :
  tighter p q ->
  Decision_Verdict (Evaluate ps q now) = VerdictApproved ->
  Decision_Verdict (Evaluate ps p now) = VerdictApproved.
Proof.
  intros Ht. destruct (Evaluate_Ruling ps q now) as [| | |rec HP]; try (intros; sclash).
  intros _. apply (Permitted_tighter _ _ _ _ _ Ht) in HP.
  pose proof (permitted_recommended _ _ _ _ HP) as Hr.
  pose proof (proj2 (gate_passed_iff ps) (permitted_gate _ _ _ _ HP)) as Hg.
  unfold Evaluate. rewrite Hr, Hg.
  rewrite (proj2 (stage1_clear_iff ps p now rec))
    by (apply no_veto_permitted; eauto using permitted_risk).
  destruct (Z.ltb_spec (bandRank (band_for (Policy_AutoBand p) (Set_ServiceTier ps)))
              (bandRank (candidate_risk rec))); [|done].
  pose proof (permitted_risk _ _ _ _ HP). lia.
Qed.

Lemma Evaluate_tightening_witness :
  Decision_Verdict (Evaluate demo_set (mkPolicy "v0" "collapsed" ∅ ∅ ∅ [] false) 5) = VerdictApproved.
Proof.
  apply (Evaluate_tightening (mkPolicy "v0" "collapsed" ∅ ∅ ∅ [] false) demo_policy).
  - split; try done.
    + intros t c. unfold floor_for, demo_policy. simpl.
      destruct (decide (t = "tier-1"%string)) as [->|Hn].
      * rewrite lookup_singleton_eq. destruct (decide (c = "service_failure"%string)) as [->|Hc].
        -- rewrite lookup_singleton_eq. reflexivity.
        -- rewrite lookup_singleton_ne by done. reflexivity.
      * rewrite lookup_singleton_ne by done. reflexivity.
    + intros t. apply (bandRank_range (band_for (Policy_MaxBand demo_policy) t)).
    + intros t. apply (bandRank_range (band_for (Policy_AutoBand demo_policy) t)).
    + intros w Hw. by apply elem_of_nil in Hw.
  - vm_compute. reflexivity.
Defined.

(** hiss grants exactly what was asked or nothing, about exactly the set it
    was given: the granted band is the requested one on approval and empty
    otherwise, the identity fields are threaded through unchanged, no decision
    of [Evaluate] is forced or human-approved, and with a versioned policy and
    a real clock every decision is auditable. *)
Theorem Evaluate_grants_what_was_asked (ps : ProposalSet) (pol : Policy) (now : Time) :
  let d := Evaluate ps pol now in
  Decision_GrantedBand d =
    (if Decision_Verdict d =s VerdictApproved then Decision_RequestedBand d else ""%string) /\
  Decision_SignalRef d = Set_SignalRef ps /\ Decision_ProposalRef d = Set_Name ps /\
  Decision_CandidateRef d = Set_Recommended ps /\ Decision_SLORef d = Set_SLORef ps /\
  Decision_Forced d = false /\ Decision_Approver d = ""%string /\
  (Policy_Version pol <> ""%string -> now <> 0 -> Decision_Auditable d = None).
Proof.
  intros d.
  assert (Decision_PolicyVersion d = Policy_Version pol /\ Decision_EvaluatedAt d = now) as [Hv Hn].
  { subst d. unfold Evaluate. by repeat case_match. }
  repeat split; try (subst d; unfold Evaluate; by repeat case_match).
  intros. apply Decision_Auditable_None. rewrite Hv, Hn. repeat split; try done.
  subst d. destruct (Evaluate_Ruling ps pol now) as [? ? Hr|? ? ? ? Hr|? ? ? ? ? ? Hr|]; auto;
    right; rewrite ?Hr; try done.
Qed.

(** The zero-value [Policy] fails open, not closed: with no floors, no
    ceilings and no windows authored, [Evaluate] approves every gated set whose
    recommendation resolves with a confidence that is not negative.  (The
    comment on [LoadPolicy] expects the opposite: an empty [MaxBand] read as a
    ceiling ranks above every band, so nothing escalates.) *)
Theorem zero_policy_fails_open (ps : ProposalSet) (now : Time) (rec : Candidate) :
  gate_passed ps = true -> recommended ps = Some rec ->
  flt (Candidate_Confidence rec) f0 = false ->
  Decision_Verdict (Evaluate ps Policy_zero now) = VerdictApproved /\
  Decision_GrantedBand (Evaluate ps Policy_zero now) = requestedBand rec.
Proof.
  intros Hg Hr Hf. unfold Evaluate. rewrite Hr, Hg.
  rewrite (proj2 (stage1_clear_iff ps Policy_zero now rec)).
  - destruct (Z.ltb_spec (bandRank (band_for (Policy_AutoBand Policy_zero) (Set_ServiceTier ps)))
                (bandRank (candidate_risk rec))) as [Hlt|]; [|done].
    pose proof (candidate_risk_rank rec). unfold band_for in Hlt. simpl in Hlt.
    rewrite lookup_empty in Hlt.
    change (bandRank (default ""%string None)) with 3 in Hlt. lia.
  - intros r []; simpl in *; try congruence.
    + unfold floor_for in *. simpl in *. rewrite lookup_empty in *. congruence.
    + unfold band_for in *. rewrite lookup_empty in *.
      pose proof (bandRank_range (requestedBand rec)).
      change (bandRank (default ""%string None)) with 3 in *. lia.
    + by apply elem_of_nil in H.
Qed.

Lemma zero_policy_fails_open_witness :
  Decision_Verdict (Evaluate demo_set Policy_zero 5) = VerdictApproved /\
  Decision_GrantedBand (Evaluate demo_set Policy_zero 5) = BandActReversible.
Proof. apply (zero_policy_fails_open demo_set 5 demo_candidate); vm_compute; reflexivity. Defined.
