(* ===== verification/Publish.v ===== *)
(** * internal/publish: the outbound port

    [Publisher] is the port every beat publishes boundary objects through, with
    the world [W] it acts on made explicit; [delivered] observes what the
    destination has accepted.  [PublisherLaws] is what a beat relies on: a nil
    error means the object was delivered exactly once, an error means it was
    delivered at most once (the acknowledgement itself may be what was lost).
    Wal.v gives the durable implementation; [MemPub] below is the in-memory one
    the witnesses run. *)

From S2P Require Import Prelude GoTime.

Class Publisher (W T : Type) : Type := {
  publish : string -> T -> W -> W * option error;
  delivered : W -> list (string * T)
}.

Class PublisherLaws (W T : Type) `{Publisher W T} : Prop := {
  publish_ok : forall subj obj w w',
    publish subj obj w = (w', None) -> delivered w' = delivered w ++ [(subj, obj)];
  publish_err : forall subj obj w w' e,
    publish subj obj w = (w', Some e) ->
    delivered w' = delivered w \/ delivered w' = delivered w ++ [(subj, obj)]
}.

(** the objects delivered on one subject, oldest first *)
Definition on_subject {W T} `{Publisher W T} (subj : string) (w : W) : list T :=
  map snd (List.filter (fun p => p.1 =s subj) (delivered w)).

(** ** An in-memory publisher whose first [fails] publishes fail *)

Record MemPub (T : Type) : Type := mkMemPub { MemPub_log : list (string * T); MemPub_fails : nat }.
Arguments mkMemPub {T}.
Arguments MemPub_log {T}.
Arguments MemPub_fails {T}.

#[export] Instance MemPub_Publisher T : Publisher (MemPub T) T := {|
  publish subj obj w :=
    match MemPub_fails w with
    | O => (mkMemPub (MemPub_log w ++ [(subj, obj)]) 0, None)
    | S n => (mkMemPub (MemPub_log w) n, Some (errors_New "broker unreachable"))
    end;
  delivered := MemPub_log
|}.

#[export] Instance MemPub_PublisherLaws T : PublisherLaws (MemPub T) T.
Proof.
  split; simpl; intros subj obj w w'; destruct (MemPub_fails w); intros; simplify_eq/=; auto.
Qed.

(** ** Lemmas *)

Section laws.
Context {W T : Type} `{PublisherLaws W T}.

(** whatever a publish returns, nothing but [obj] can be added *)
Lemma publish_at_most_once subj obj (w w' : W) r :
  publish subj obj w = (w', r) ->
  delivered w' = delivered w \/ delivered w' = delivered w ++ [(subj, obj : T)].
Proof. destruct r as [e|]; intros Hp; [by eapply publish_err | right; by apply publish_ok]. Qed.

Lemma on_subject_ok subj obj (w w' : W) :
  publish subj (obj : T) w = (w', None) -> on_subject subj w' = on_subject subj w ++ [obj].
Proof.
  intros Hp%publish_ok. unfold on_subject. rewrite Hp, List.filter_app. simpl.
  rewrite seqb_refl, map_app. done.
Qed.

Lemma on_subject_any subj obj (w w' : W) r :
  publish subj (obj : T) w = (w', r) ->
  on_subject subj w' = on_subject subj w \/ on_subject subj w' = on_subject subj w ++ [obj].
Proof.
  intros [Hp|Hp]%publish_at_most_once; unfold on_subject; rewrite Hp; [by left|right].
  rewrite List.filter_app. simpl. by rewrite seqb_refl, map_app.
Qed.

End laws.
