(* ===== verification/HissTransport.v ===== *)
(** * internal/hiss: holds, acks and the transport

    [PendingHolds] (pending.go), [Transport.handle] and [approveHandler]
    (transport.go), [rebuildHolds] (rebuild.go), and the ApprovalRequest
    translation (approvalrequest.go).  The beat's lifecycle is the step relation
    [hiss_step]: a delivered proposal, a delivered ack, or a process restart
    that rebuilds the holds from the decision stream. *)

From S2P Require Import Prelude GoTime GoFloat Api Ledger Publish Hiss.
Local Open Scope Z_scope.

(** ** pending.go *)

Abbreviation PendingHolds := (gmap string Governed).

Definition NewPendingHolds : PendingHolds := ∅.

Definition Holds_Record (h : PendingHolds) (g : Governed) : PendingHolds :=
  <[Decision_SignalRef (Governed_Decision g) := g]> h.

Definition Holds_Take (h : PendingHolds) (fingerprint : string) : PendingHolds * option Governed :=
  match h !! fingerprint with
  | Some g => (delete fingerprint h, Some g)
  | None => (h, None)
  end.

Definition Holds_Len (h : PendingHolds) : nat := size h.

(** ** rebuild.go

    [history] is what [broker.DrainSubject] folds over: the decodable messages
    of thump.decisions in stream order. *)

Definition latest_decisions (history : list Governed) : PendingHolds :=
  fold_left (fun m g => <[Decision_SignalRef (Governed_Decision g) := g]> m) history ∅.

Definition awaits (g : Governed) : bool :=
  AwaitsApproval (Decision_Verdict (Governed_Decision g)).

Definition rebuildHolds (history : list Governed) : PendingHolds :=
  filter (fun kv : string * Governed => awaits kv.2 = true) (latest_decisions history).

(** ** approvalrequest.go *)

Record ApprovalRequestSpec : Type := mkARSpec {
  ARSpec_SignalRef : string;
  ARSpec_Action : string;
  ARSpec_Band : string;
  ARSpec_Reasons : list string;
  ARSpec_Decision : string
}.

Record ApprovalRequestStatus : Type := mkARStatus {
  ARStatus_Phase : string;
  ARStatus_DecidedAt : Time
}.

(** [(Approval, ok, error)]: [inl None] is "nothing decided yet" *)
Definition translateDecision (spec : ApprovalRequestSpec) (approvedBy : string) (now : Time)
  : result (option Approval) :=
  if ARSpec_Decision spec =s "" then inl None
  else if ARSpec_Decision spec =s "approve" then
    inl (Some (mkApproval (ARSpec_SignalRef spec) approvedBy now ""))
  else inr (errors_New ("hiss: unrecognized ApprovalRequest decision " +:+ fmt_q (ARSpec_Decision spec))).

Definition newApprovalRequestSpec (held : Governed) : ApprovalRequestSpec :=
  let d := Governed_Decision held in
  mkARSpec (Decision_SignalRef d) (ContractRefFor (Governed_Set held) (Decision_CandidateRef d))
    (Decision_RequestedBand d) (Decision_Reasons d) "".

(** ** transport.go *)

Section transport.
Context {W : Type} `{PublisherLaws W Governed}.

(** the parts of [Transport] that are fixed for its lifetime *)
Record TransportConfig : Type := mkTransportConfig {
  Tr_Policy : Policy;
  Tr_Approvals : option (Governed -> W -> W * option error)
}.

Record TransportState : Type := mkTransportState {
  Tr_Holds : option PendingHolds;
  Tr_Log : Log Decision;
  Tr_world : W
}.

(** [handle]: govern one delivered set.  The hold is recorded and its CR
    created before the decision is published. *)
Definition handle (cfg : TransportConfig) (ps : ProposalSet) (now : Time) (st : TransportState)
  : TransportState * option error :=
  let d := Evaluate ps (Tr_Policy cfg) now in
  let g := mkGoverned d ps in
  let '(st1, err) :=
    match AwaitsApproval (Decision_Verdict d), Tr_Holds st with
    | true, Some h =>
        let h' := Holds_Record h g in
        match Tr_Approvals cfg with
        | None => (mkTransportState (Some h') (Tr_Log st) (Tr_world st), None)
        | Some create =>
            let '(w', e) := create g (Tr_world st) in
            (mkTransportState (Some h') (Tr_Log st) w', e)
        end
    | _, _ => (st, None)
    end in
  match err with
  | Some e => (st1, Some (errorf_w ("hiss: create approvalrequest for " +:+ Decision_SignalRef d +:+ ": ") e))
  | None =>
      let log' := Log_Record (Tr_Log st1) d in
      let '(w', perr) := publish "thump.decisions" g (Tr_world st1) in
      (mkTransportState (Tr_Holds st1) log' w', perr)
  end.

(** the decision [approveHandler] re-issues for a held one *)
Definition reissue (cfg : TransportConfig) (held : Governed) (a : Approval) (now1 now2 : Time)
  : Governed :=
  let d := Governed_Decision held in
  mkGoverned
    (mkDecision ("dec:" +:+ Decision_SignalRef d +:+ ":" +:+ fmt_d (Unix now1))
       (Decision_ProposalRef d) (Decision_SignalRef d) (Decision_SLORef d) (Decision_CandidateRef d)
       VerdictApproved [] (Decision_RequestedBand d) (Decision_RequestedBand d) (Decision_RiskBand d)
       (Decision_FloorApplied d) (Policy_Version (Tr_Policy cfg)) now2
       (Decision_Forced d) (Decision_Operator d) (Approval_Approver a))
    (Governed_Set held).

(** [approveHandler]; [now1] and [now2] are its two clock reads.  A nil [Holds]
    is a nil-pointer panic in Go, surfaced as an error. *)
Definition approveHandler (cfg : TransportConfig) (a : Approval) (now1 now2 : Time)
  (st : TransportState) : TransportState * option error :=
  match Tr_Holds st with
  | None => (st, Some (errors_New "panic: nil PendingHolds"))
  | Some h =>
      let '(h', taken) := Holds_Take h (Approval_SignalRef a) in
      let st1 := mkTransportState (Some h') (Tr_Log st) (Tr_world st) in
      match taken with
      | None => (st1, None)
      | Some held =>
          let g := reissue cfg held a now1 now2 in
          match Decision_Auditable (Governed_Decision g) with
          | Some e => (st1, Some (errorf_w "hiss: re-stamped decision not auditable: " e))
          | None =>
              let '(w', perr) := publish "thump.decisions" g (Tr_world st1) in
              match perr with
              | Some e => (mkTransportState (Some h') (Tr_Log st) w',
                           Some (errorf_w ("hiss: publish re-issued decision for "
                                             +:+ Approval_SignalRef a +:+ ": ") e))
              | None => (mkTransportState (Some h') (Log_Record (Tr_Log st) (Governed_Decision g)) w',
                         None)
              end
          end
      end
  end.

(** [buildTransport]: a broker-mode transport seeded from the stream *)
Definition buildTransport (w : W) : TransportState :=
  mkTransportState (Some (rebuildHolds (on_subject "thump.decisions" w))) NewDecisionLog w.

(** ** The beat's lifecycle *)

Inductive event : Type :=
| EvProposal (ps : ProposalSet) (now : Time)
| EvAck (a : Approval) (now1 now2 : Time)
| EvRestart.

Definition run_event (cfg : TransportConfig) (st : TransportState) (ev : event) : TransportState :=
  match ev with
  | EvProposal ps now => (handle cfg ps now st).1
  | EvAck a now1 now2 => (approveHandler cfg a now1 now2 st).1
  | EvRestart => buildTransport (Tr_world st)
  end.

Definition hiss_step (cfg : TransportConfig) (st st' : TransportState) : Prop :=
  exists ev, st' = run_event cfg st ev.

Definition run (cfg : TransportConfig) (st : TransportState) (evs : list event) : TransportState :=
  fold_left (run_event cfg) evs st.

(** [Judged cfg g]: hiss itself evaluated this set *)
Definition Judged (cfg : TransportConfig) (g : Governed) : Prop :=
  exists now, Governed_Decision g = Evaluate (Governed_Set g) (Tr_Policy cfg) now.

(** [Issued cfg evs g]: what may legitimately travel on thump.decisions after
    the events [evs] — a verdict of [Evaluate], or the re-issue of one that
    awaited approval, released by an ack that was really received *)
Inductive Issued (cfg : TransportConfig) (evs : list event) : Governed -> Prop :=
| issued_verdict g : Judged cfg g -> Issued cfg evs g
| issued_ack held a now1 now2 :
    Judged cfg held -> awaits held = true ->
    EvAck a now1 now2 ∈ evs ->
    Approval_SignalRef a = Decision_SignalRef (Governed_Decision held) ->
    Issued cfg evs (reissue cfg held a now1 now2).

(** every hold is a judged, still-waiting decision filed under its fingerprint *)
Definition holds_wf (cfg : TransportConfig) (h : PendingHolds) : Prop :=
  forall fp g, h !! fp = Some g ->
    Judged cfg g /\ awaits g = true /\ Decision_SignalRef (Governed_Decision g) = fp.

Record hiss_inv (cfg : TransportConfig) (evs : list event) (st : TransportState) : Prop := {
  inv_stream : Forall (Issued cfg evs) (on_subject "thump.decisions" (Tr_world st));
  inv_holds : forall h, Tr_Holds st = Some h -> holds_wf cfg h
}.

(** a CR creation does not touch the decision stream *)
Definition approvals_quiet (cfg : TransportConfig) : Prop :=
  forall create g w w' e, Tr_Approvals cfg = Some create -> create g w = (w', e) ->
    on_subject "thump.decisions" w' = on_subject "thump.decisions" w.

(** ** Lemmas *)

Lemma latest_decisions_snoc history g :
  latest_decisions (history ++ [g])
  = <[Decision_SignalRef (Governed_Decision g) := g]> (latest_decisions history).
Proof. unfold latest_decisions. by rewrite fold_left_app. Qed.

Lemma latest_decisions_lookup history fp g :
  latest_decisions history !! fp = Some g ->
  g ∈ history /\ Decision_SignalRef (Governed_Decision g) = fp.
Proof.
  induction history as [|x history IH] using rev_ind; [done|].
  rewrite latest_decisions_snoc, elem_of_app, elem_of_cons. intros Hl.
  destruct (decide (Decision_SignalRef (Governed_Decision x) = fp)) as [<-|Hne].
  - rewrite lookup_insert_eq in Hl. simplify_eq. auto.
  - rewrite lookup_insert_ne in Hl by done. naive_solver.
Qed.

Lemma rebuildHolds_nil : rebuildHolds [] = ∅.
Proof. reflexivity. Qed.

Lemma rebuildHolds_snoc history g :
  rebuildHolds (history ++ [g]) =
  if awaits g then Holds_Record (rebuildHolds history) g
  else delete (Decision_SignalRef (Governed_Decision g)) (rebuildHolds history).
Proof.
  unfold rebuildHolds. rewrite latest_decisions_snoc. destruct (awaits g) eqn:E.
  - by rewrite map_filter_insert_True.
  - rewrite map_filter_insert_False by (simpl; congruence). by rewrite map_filter_delete.
Qed.

Lemma reissue_not_awaiting cfg held a n1 n2 : awaits (reissue cfg held a n1 n2) = false.
Proof. done. Qed.

Lemma Issued_awaiting_Judged cfg evs g : Issued cfg evs g -> awaits g = true -> Judged cfg g.
Proof. intros []; [done|]. by rewrite reissue_not_awaiting. Qed.

Lemma rebuildHolds_wf cfg evs history :
  Forall (Issued cfg evs) history -> holds_wf cfg (rebuildHolds history).
Proof.
  intros HF fp g. unfold rebuildHolds. rewrite map_lookup_filter_Some.
  intros [Hl Ha]. apply latest_decisions_lookup in Hl as [Hin Hfp].
  rewrite list.Forall_forall in HF. eauto using Issued_awaiting_Judged.
Qed.

Lemma Holds_Record_wf cfg h ps now :
  holds_wf cfg h -> awaits (mkGoverned (Evaluate ps (Tr_Policy cfg) now) ps) = true ->
  holds_wf cfg (Holds_Record h (mkGoverned (Evaluate ps (Tr_Policy cfg) now) ps)).
Proof.
  intros Hwf Ha fp g. unfold Holds_Record.
  destruct (decide (Decision_SignalRef (Evaluate ps (Tr_Policy cfg) now) = fp)) as [<-|Hne]; simpl.
  - rewrite lookup_insert_eq. intros; simplify_eq. repeat split; try done. by exists now.
  - rewrite lookup_insert_ne by done. apply Hwf.
Qed.

Lemma holds_wf_delete cfg h fp : holds_wf cfg h -> holds_wf cfg (delete fp h).
Proof. intros Hwf fp' g [_ Hl]%lookup_delete_Some. eauto. Qed.

Lemma stream_publish cfg evs g w w' r :
  publish "thump.decisions" g w = (w', r) -> Issued cfg evs g ->
  Forall (Issued cfg evs) (on_subject "thump.decisions" w) ->
  Forall (Issued cfg evs) (on_subject "thump.decisions" w').
Proof.
  intros [->| ->]%on_subject_any Hg HF; [done|]. apply Forall_app; auto.
Qed.

Lemma handle_inv cfg evs ps now st :
  approvals_quiet cfg -> hiss_inv cfg evs st -> hiss_inv cfg evs (handle cfg ps now st).1.
Proof.
  intros Hq [Hs Hh]. unfold handle.
  assert (Issued cfg evs (mkGoverned (Evaluate ps (Tr_Policy cfg) now) ps)) as Hi
    by (apply issued_verdict; by exists now).
  assert (forall h log w, Forall (Issued cfg evs) (on_subject "thump.decisions" w) ->
            (forall h', h = Some h' -> holds_wf cfg h') ->
            hiss_inv cfg evs (let '(w', perr) := publish "thump.decisions"
                            (mkGoverned (Evaluate ps (Tr_Policy cfg) now) ps) w in
                          (mkTransportState h log w', perr)).1) as Hpub.
  { intros h log w Hw Hwf. destruct (publish _ _ w) as [w' r] eqn:Ep.
    split; simpl; [by eapply stream_publish | done]. }
  destruct (AwaitsApproval _) eqn:Ha; [|by apply Hpub].
  destruct (Tr_Holds st) as [h|] eqn:Eh; [|apply Hpub; simpl; [done|congruence]].
  pose proof (Holds_Record_wf cfg h ps now (Hh _ eq_refl) Ha) as Hwf.
  destruct (Tr_Approvals cfg) as [create|] eqn:Ec; [|apply Hpub; naive_solver].
  destruct (create _ _) as [w1 [e|]] eqn:Ecr; simpl.
  - split; simpl; [by rewrite (Hq _ _ _ _ _ Ec Ecr) | naive_solver].
  - apply Hpub; [by rewrite (Hq _ _ _ _ _ Ec Ecr) | naive_solver].
Qed.

Lemma approveHandler_inv cfg evs a n1 n2 st :
  EvAck a n1 n2 ∈ evs -> hiss_inv cfg evs st -> hiss_inv cfg evs (approveHandler cfg a n1 n2 st).1.
Proof.
  intros Hack [Hs Hh]. unfold approveHandler, Holds_Take.
  destruct (Tr_Holds st) as [h|] eqn:Eh; [|split; simpl; [done|congruence]].
  destruct (h !! Approval_SignalRef a) as [held|] eqn:El; [|split; simpl; [done|naive_solver]].
  destruct (Hh _ eq_refl _ _ El) as (Hj & Ha & Hfp).
  pose proof (holds_wf_delete cfg h (Approval_SignalRef a) (Hh _ eq_refl)) as Hd.
  destruct (Decision_Auditable _); [split; simpl; [done|naive_solver]|].
  destruct (publish _ _ _) as [w' [e|]] eqn:Ep; (split; simpl; [|naive_solver]);
    eapply stream_publish; eauto; by apply issued_ack.
Qed.

Lemma Issued_mono cfg evs ev g : Issued cfg evs g -> Issued cfg (evs ++ [ev]) g.
Proof.
  intros []; [by apply issued_verdict|]. apply issued_ack; try done.
  apply elem_of_app. auto.
Qed.

Lemma run_event_inv cfg evs st ev :
  approvals_quiet cfg -> hiss_inv cfg evs st ->
  hiss_inv cfg (evs ++ [ev]) (run_event cfg st ev).
Proof.
  intros Hq [Hs Hh].
  assert (hiss_inv cfg (evs ++ [ev]) st) as Hi.
  { split; [|done]. eapply Forall_impl; [|exact Hs]. intros. by apply Issued_mono. }
  destruct ev; simpl; [by apply handle_inv| |].
  - apply approveHandler_inv; [|done]. apply elem_of_app. right. by left.
  - destruct Hi as [Hs' _]. split; simpl; [done|]. intros h ?; simplify_eq.
    by eapply rebuildHolds_wf.
Qed.

Lemma run_inv cfg w evs :
  approvals_quiet cfg -> delivered w = [] ->
  hiss_inv cfg evs (run cfg (buildTransport w) evs).
Proof.
  intros Hq Hw. induction evs as [|ev evs IH] using rev_ind.
  - unfold run, buildTransport. simpl. unfold on_subject. rewrite Hw. split; simpl; [unfold on_subject; rewrite Hw; by constructor|].
    intros h ?; simplify_eq. intros fp g. by rewrite rebuildHolds_nil, lookup_empty.
  - unfold run. rewrite fold_left_app. simpl. by apply run_event_inv.
Qed.

(** *** Every decision is about a set that was handed over *)

Definition Proposed (evs : list event) (g : Governed) : Prop := exists now, EvProposal (Governed_Set g) now ∈ evs.

Record heard (evs : list event) (st : TransportState) : Prop := {
  heard_stream : Forall (Proposed evs) (on_subject "thump.decisions" (Tr_world st));
  heard_holds : forall h fp g, Tr_Holds st = Some h -> h !! fp = Some g -> Proposed evs g
}.

Lemma Proposed_mono evs ev g : Proposed evs g -> Proposed (evs ++ [ev]) g.
Proof. intros [now Hin]. exists now. apply elem_of_app. by left. Qed.

Lemma stream_heard evs g w w' r :
  publish "thump.decisions" g w = (w', r) -> Proposed evs g ->
  Forall (Proposed evs) (on_subject "thump.decisions" w) -> Forall (Proposed evs) (on_subject "thump.decisions" w').
Proof. intros [-> | ->]%on_subject_any Hg HF; [done |]. apply Forall_app; auto. Qed.

Lemma handle_heard cfg evs ps now st :
  approvals_quiet cfg -> EvProposal ps now ∈ evs -> heard evs st -> heard evs (handle cfg ps now st).1.
Proof.
  intros Hq Hin [Hs Hh]. unfold handle. set (g := mkGoverned _ ps). assert (Proposed evs g) as Hg by (by exists now).
  assert (forall h log w, Forall (Proposed evs) (on_subject "thump.decisions" w) ->
            (forall h' fp g', h = Some h' -> h' !! fp = Some g' -> Proposed evs g') ->
            heard evs (let '(w', perr) := publish "thump.decisions" g w in (mkTransportState h log w', perr)).1) as Hpub.
  { intros h log w Hw Hwf. destruct (publish _ _ w) as [w' r] eqn:Ep. split; simpl; [by eapply stream_heard | done]. }
  destruct (AwaitsApproval _); [| by apply Hpub]. destruct (Tr_Holds st) as [h |] eqn:Eh; [| by apply Hpub; [| congruence]].
  assert (forall h' fp g', Some (Holds_Record h g) = Some h' -> h' !! fp = Some g' -> Proposed evs g') as Hwf.
  { intros h' fp g' [= <-]. unfold Holds_Record. intros [[_ <-] | [_ Hl]]%lookup_insert_Some; [done | by eapply Hh]. }
  destruct (Tr_Approvals cfg) as [create |] eqn:Ec; [| by apply Hpub].
  destruct (create _ _) as [w1 [e |]] eqn:Ecr; simpl; [split; simpl; [by rewrite (Hq _ _ _ _ _ Ec Ecr) | exact Hwf] |].
  apply Hpub; [by rewrite (Hq _ _ _ _ _ Ec Ecr) | exact Hwf].
Qed.

Lemma approveHandler_heard cfg evs a n1 n2 st : heard evs st -> heard evs (approveHandler cfg a n1 n2 st).1.
Proof.
  intros [Hs Hh]. unfold approveHandler, Holds_Take. destruct (Tr_Holds st) as [h |] eqn:Eh; [| by split; simpl; [| congruence]].
  assert (forall h' fp g', Some (delete (Approval_SignalRef a) h) = Some h' -> h' !! fp = Some g' -> Proposed evs g') as Hd
    by (intros h' fp g' [= <-] [_ Hl]%lookup_delete_Some; by eapply Hh).
  destruct (h !! Approval_SignalRef a) as [held |] eqn:El; [| by split]. destruct (Decision_Auditable _); [by split |].
  pose proof (Hh _ _ _ eq_refl El) as Hp. destruct (publish _ _ _) as [w' [e |]] eqn:Ep; (split; simpl; [| done]); by eapply stream_heard.
Qed.

Lemma latest_heard evs history h fp g :
  Forall (Proposed evs) history -> rebuildHolds history = h -> h !! fp = Some g -> Proposed evs g.
Proof.
  intros HF <-. unfold rebuildHolds. rewrite map_lookup_filter_Some. intros [[Hin _]%latest_decisions_lookup _].
  rewrite list.Forall_forall in HF. by apply HF.
Qed.

Lemma run_heard cfg w evs : approvals_quiet cfg -> delivered w = [] -> heard evs (run cfg (buildTransport w) evs).
Proof.
  intros Hq Hw. induction evs as [| ev evs IH] using rev_ind.
  - split; simpl; unfold on_subject; rewrite Hw; [constructor |]. intros h fp g [= <-]. by rewrite rebuildHolds_nil, lookup_empty.
  - unfold run in *. rewrite fold_left_app. simpl. assert (heard (evs ++ [ev]) (fold_left (run_event cfg) evs (buildTransport w))) as Hi.
    { destruct IH as [Hs Hh]. split; [eapply Forall_impl; [intros g; apply Proposed_mono | exact Hs] | intros h fp g Hst Hg; eapply Proposed_mono, Hh; done]. }
    destruct ev as [ps now | a n1 n2 |]; simpl.
    + apply handle_heard; [done | | done]. apply elem_of_app. right. by left.
    + by apply approveHandler_heard.
    + destruct Hi as [Hs _]. split; simpl; [done |]. intros h fp g [= <-]. by apply (latest_heard _ _ _ _ _ Hs).
Qed.

Lemma handle_terminal cfg ps now st :
  AwaitsApproval (Decision_Verdict (Evaluate ps (Tr_Policy cfg) now)) = false ->
  handle cfg ps now st =
  (let '(w', perr) := publish "thump.decisions"
                        (mkGoverned (Evaluate ps (Tr_Policy cfg) now) ps) (Tr_world st) in
   (mkTransportState (Tr_Holds st) (Log_Record (Tr_Log st) (Evaluate ps (Tr_Policy cfg) now)) w',
    perr)).
Proof. intros Ha. unfold handle. by rewrite Ha. Qed.

(** ** Clean runs: every publish succeeds and no waiting fingerprint is
    re-ruled to a terminal verdict *)

Definition clean_event (cfg : TransportConfig) (st : TransportState) (ev : event) : Prop :=
  match ev with
  | EvProposal ps now =>
      (handle cfg ps now st).2 = None /\
      (AwaitsApproval (Decision_Verdict (Evaluate ps (Tr_Policy cfg) now)) = false ->
       forall h, Tr_Holds st = Some h -> h !! Set_SignalRef ps = None)
  | EvAck a now1 now2 => (approveHandler cfg a now1 now2 st).2 = None
  | EvRestart => True
  end.

Fixpoint clean_run (cfg : TransportConfig) (st : TransportState) (evs : list event) : Prop :=
  match evs with
  | [] => True
  | ev :: evs' => clean_event cfg st ev /\ clean_run cfg (run_event cfg st ev) evs'
  end.

Definition in_sync (st : TransportState) : Prop :=
  Tr_Holds st = Some (rebuildHolds (on_subject "thump.decisions" (Tr_world st))).

Lemma clean_proposal_sync cfg st ps now :
  approvals_quiet cfg -> in_sync st -> clean_event cfg st (EvProposal ps now) ->
  in_sync (handle cfg ps now st).1.
Proof.
  unfold in_sync. intros Hq Hs [He Hc]. set (g := mkGoverned (Evaluate ps (Tr_Policy cfg) now) ps).
  assert (Decision_SignalRef (Evaluate ps (Tr_Policy cfg) now) = Set_SignalRef ps) as Hfp
    by (unfold Evaluate; by repeat case_match).
  destruct (awaits g) eqn:Ha; unfold awaits in Ha; simpl in Ha.
  - unfold handle in *. rewrite Ha, Hs in *. destruct (Tr_Approvals cfg) as [create|] eqn:Ec.
    + destruct (create _ _) as [w1 [e|]] eqn:Ecr; simpl in *; [done|].
      destruct (publish _ _ w1) as [w' r] eqn:Ep; simpl in *. subst r.
      rewrite (on_subject_ok _ _ _ _ Ep), (Hq _ _ _ _ _ Ec Ecr), rebuildHolds_snoc.
      unfold awaits. simpl. by rewrite Ha.
    + destruct (publish _ _ _) as [w' r] eqn:Ep; simpl in *. subst r.
      rewrite (on_subject_ok _ _ _ _ Ep), rebuildHolds_snoc. unfold awaits. simpl. by rewrite Ha.
  - rewrite handle_terminal in * by done. destruct (publish _ _ _) as [w' r] eqn:Ep; simpl in *.
    subst r. rewrite (on_subject_ok _ _ _ _ Ep), rebuildHolds_snoc. unfold awaits. simpl.
    rewrite Ha, Hs, Hfp. f_equal. symmetry. apply delete_id. eauto.
Qed.

Lemma clean_ack_sync cfg st a n1 n2 :
  in_sync st -> holds_wf cfg (rebuildHolds (on_subject "thump.decisions" (Tr_world st))) ->
  (approveHandler cfg a n1 n2 st).2 = None -> in_sync (approveHandler cfg a n1 n2 st).1.
Proof.
  unfold in_sync, approveHandler, Holds_Take. intros Hs Hwf. rewrite Hs.
  destruct (rebuildHolds _ !! Approval_SignalRef a) as [held|] eqn:El; simpl; [|done].
  destruct (Hwf _ _ El) as (_ & _ & Hfp).
  destruct (Decision_Auditable _); simpl; [done|].
  destruct (publish _ _ _) as [w' [e|]] eqn:Ep; simpl; [done|]. intros _.
  rewrite (on_subject_ok _ _ _ _ Ep), rebuildHolds_snoc, reissue_not_awaiting.
  simpl. by rewrite Hfp.
Qed.

(** an ack's cap is not consulted *)
Lemma approve_ignores_CapBand cfg a n1 n2 st cap :
  approveHandler cfg (mkApproval (Approval_SignalRef a) (Approval_Approver a)
                        (Approval_ApprovedAt a) cap) n1 n2 st
  = approveHandler cfg a n1 n2 st.
Proof. unfold approveHandler. by destruct a. Qed.

End transport.
Arguments TransportConfig : clear implicits.
Arguments TransportState : clear implicits.

(** a concrete broker-mode transport for the witnesses: no CR surface, an
    in-memory stream *)
Definition demo_cfg : TransportConfig (MemPub Governed) := mkTransportConfig demo_policy None.

(** the demo set with a confidence under its floor: it escalates *)
Definition weak_candidate : Candidate :=
  mkCandidate "c1" "acme-shed-load" (flit 1 2) (flit 1 2) false ConfidenceTerms_zero None BlastLow
    (Some (mkReversalPath "restore" "m" "t" true)) (Some (mkGovernanceLevel BandActReversible f0))
    1 ["k"%string].

Definition weak_set : ProposalSet :=
  mkSet "acme-burn-accel" "slo_burn:acme/0" "slo_burn:acme" "acme-availability" None
    "service_failure" [] [] [] "tier-1" (Some (mkGateResult true true true true ""))
    [weak_candidate] "c1" None (Some Status_zero).

Definition demo_ack : Approval := mkApproval "slo_burn:acme" "alice" 7 "".

Definition empty_stream : MemPub Governed := mkMemPub [] 0.

Lemma demo_cfg_quiet : approvals_quiet demo_cfg.
Proof. intros create g w w' e. done. Defined.

(** ** Claims *)

Section claims.
Context {W : Type} `{PublisherLaws W Governed}.
Implicit Types (cfg : TransportConfig W) (st : TransportState W) (w : W).

(** C9. Nothing is approved ungoverned, over every run of the beat (proposals,
    acks and restarts in any order, publishes failing or not): each approval on
    thump.decisions is either a verdict of [Evaluate] on the very set it travels
    with, whose recommendation was [Permitted] at that moment, or the re-issue of
    a decision [Evaluate] escalated or held on that set, released by an ack that
    was received for its fingerprint and granting exactly the band it had
    requested. *)
Theorem approvals_are_governed cfg w evs g :
  approvals_quiet cfg -> delivered w = [] ->
  g ∈ on_subject "thump.decisions" (Tr_world (run cfg (buildTransport w) evs)) ->
  Decision_Verdict (Governed_Decision g) = VerdictApproved ->
  (exists now rec, Governed_Decision g = Evaluate (Governed_Set g) (Tr_Policy cfg) now /\
     Permitted (Governed_Set g) (Tr_Policy cfg) now rec) \/
  (exists a n1 n2 now, EvAck a n1 n2 ∈ evs /\
     Approval_SignalRef a = Decision_SignalRef (Governed_Decision g) /\
     Decision_Approver (Governed_Decision g) = Approval_Approver a /\
     AwaitsApproval (Decision_Verdict (Evaluate (Governed_Set g) (Tr_Policy cfg) now)) = true /\
     Decision_GrantedBand (Governed_Decision g)
       = Decision_RequestedBand (Evaluate (Governed_Set g) (Tr_Policy cfg) now)).
Proof.
  intros Hq Hw Hin Hv. pose proof (inv_stream _ _ _ (run_inv cfg w evs Hq Hw)) as HF.
  rewrite list.Forall_forall in HF. destruct (HF _ Hin) as [g [now Hj]|held a n1 n2 [now Hj] Ha Hack Hfp].
  - left. rewrite Hj in Hv.
    destruct (Evaluate_Ruling (Governed_Set g) (Tr_Policy cfg) now) as [| | |rec HP]; try sclash. eauto.
  - right. exists a, n1, n2, now. unfold awaits in Ha. rewrite Hj in Ha.
    repeat split; try done. simpl. by rewrite Hj.
Qed.

(** The holds are rebuildable from the stream: along a run in which every
    publish succeeds and no waiting fingerprint is re-ruled to a terminal
    verdict, a restart at any point reconstructs exactly the holds the live
    process has. *)
Theorem rebuild_matches_live cfg w evs :
  approvals_quiet cfg -> delivered w = [] ->
  clean_run cfg (buildTransport w) evs ->
  Tr_Holds (run cfg (buildTransport w) evs)
  = Tr_Holds (buildTransport (Tr_world (run cfg (buildTransport w) evs))).
Proof.
  intros Hq Hw Hc. apply (@id (in_sync _)).
  assert (forall st pre, hiss_inv cfg pre st -> in_sync st -> clean_run cfg st evs ->
            in_sync (run cfg st evs)) as Hgen.
  { clear Hc. induction evs as [|ev evs IH]; intros st pre Hi Hs Hc; [done|]. destruct Hc as [Hev Hc].
    simpl. apply (IH _ (pre ++ [ev])); [by apply run_event_inv| |done].
    destruct ev; [by apply clean_proposal_sync| |done].
    apply clean_ack_sync; [done| |done]. by apply (inv_holds _ _ _ Hi). }
  apply (Hgen _ []); [by apply (run_inv cfg w [])|done..].
Qed.

(** A hold outlives a newer verdict on its fingerprint: when a later set for
    a waiting fingerprint is approved outright, the older hold stays, so a late
    ack still re-issues the older set as an approval; a restart in between would
    have dropped it. *)
Theorem superseded_hold_survives cfg st h held ps now a n1 n2 :
  Tr_Holds st = Some h ->
  h !! Set_SignalRef ps = Some held -> Approval_SignalRef a = Set_SignalRef ps ->
  Decision_Verdict (Evaluate ps (Tr_Policy cfg) now) = VerdictApproved ->
  (handle cfg ps now st).2 = None ->
  let st1 := (handle cfg ps now st).1 in
  Tr_Holds st1 = Some h /\
  (forall h', Tr_Holds (buildTransport (Tr_world st1)) = Some h' -> h' !! Set_SignalRef ps = None) /\
  ((approveHandler cfg a n1 n2 st1).2 = None ->
   on_subject "thump.decisions" (Tr_world (approveHandler cfg a n1 n2 st1).1)
   = on_subject "thump.decisions" (Tr_world st1) ++ [reissue cfg held a n1 n2]).
Proof.
  intros Hh Hl Ha Hv Hok st1. subst st1.
  rewrite handle_terminal in * by (rewrite Hv; reflexivity).
  destruct (publish _ _ _) as [w' r] eqn:Ep; simpl in *. subst r. repeat split.
  - done.
  - intros h' Hh'. simplify_eq. rewrite (on_subject_ok _ _ _ _ Ep), rebuildHolds_snoc.
    unfold awaits. simpl. rewrite Hv. simpl.
    assert (Decision_SignalRef (Evaluate ps (Tr_Policy cfg) now) = Set_SignalRef ps) as ->
      by (unfold Evaluate; by repeat case_match).
    apply lookup_delete_eq.
  - unfold approveHandler, Holds_Take. simpl. rewrite Hh, Ha, Hl.
    destruct (Decision_Auditable _); simpl; [done|].
    destruct (publish _ _ w') as [w2 [e|]] eqn:Ep2; simpl; [done|].
    intros _. by apply on_subject_ok.
Qed.

(** A failed re-issue loses its hold: when the publish of a re-issued
    approval fails, the handler returns an error, so the broker redelivers the
    ack, but the fingerprint is no longer held, and the redelivery returns nil
    (it is acknowledged) without publishing anything. *)
Theorem failed_reissue_loses_hold cfg st st1 a n1 n2 n1' n2' e :
  approveHandler cfg a n1 n2 st = (st1, Some e) -> is_Some (Tr_Holds st) ->
  approveHandler cfg a n1' n2' st1 = (st1, None).
Proof.
  unfold approveHandler, Holds_Take. intros Hrun [h Hh]. rewrite Hh in Hrun.
  destruct (h !! Approval_SignalRef a) as [held|] eqn:El; [|done].
  assert (Tr_Holds st1 = Some (delete (Approval_SignalRef a) h)) as Hst1.
  { destruct (Decision_Auditable _); simplify_eq/=; [done|].
    destruct (publish _ _ _) as [w' [e'|]]; by simplify_eq/=. }
  rewrite Hst1, lookup_delete_eq. rewrite <- Hst1. by destruct st1.
Qed.

End claims.

Lemma approvals_are_governed_witness :
  let evs := [EvProposal weak_set 5; EvAck demo_ack 8 8] in
  let g := reissue demo_cfg (mkGoverned (Evaluate weak_set demo_policy 5) weak_set) demo_ack 8 8 in
  Decision_GrantedBand (Governed_Decision g) = BandActReversible /\
  ((exists now rec, Governed_Decision g = Evaluate (Governed_Set g) (Tr_Policy demo_cfg) now /\
     Permitted (Governed_Set g) (Tr_Policy demo_cfg) now rec) \/
   (exists a n1 n2 now, EvAck a n1 n2 ∈ evs /\
     Approval_SignalRef a = Decision_SignalRef (Governed_Decision g) /\
     Decision_Approver (Governed_Decision g) = Approval_Approver a /\
     AwaitsApproval (Decision_Verdict (Evaluate (Governed_Set g) (Tr_Policy demo_cfg) now)) = true /\
     Decision_GrantedBand (Governed_Decision g)
       = Decision_RequestedBand (Evaluate (Governed_Set g) (Tr_Policy demo_cfg) now))).
Proof.
  intros evs g. split; [vm_compute; reflexivity|].
  apply (approvals_are_governed demo_cfg empty_stream evs g demo_cfg_quiet).
  - reflexivity.
  - right. left.
  - reflexivity.
Defined.

Lemma rebuild_matches_live_witness :
  Tr_Holds (run demo_cfg (buildTransport empty_stream) [EvProposal weak_set 5])
  = Tr_Holds (buildTransport
      (Tr_world (run demo_cfg (buildTransport empty_stream) [EvProposal weak_set 5]))).
Proof.
  apply (rebuild_matches_live demo_cfg empty_stream [EvProposal weak_set 5] demo_cfg_quiet).
  - reflexivity.
  - repeat split; vm_compute; done.
Defined.

Lemma superseded_hold_survives_witness :
  let st := run demo_cfg (buildTransport empty_stream) [EvProposal weak_set 5] in
  let held := mkGoverned (Evaluate weak_set demo_policy 5) weak_set in
  let st1 := (handle demo_cfg demo_set 6 st).1 in
  Tr_Holds st1 = Some {[ "slo_burn:acme" := held ]} /\
  (forall h', Tr_Holds (buildTransport (Tr_world st1)) = Some h' ->
     h' !! Set_SignalRef demo_set = None) /\
  ((approveHandler demo_cfg demo_ack 8 8 st1).2 = None ->
   on_subject "thump.decisions" (Tr_world (approveHandler demo_cfg demo_ack 8 8 st1).1)
   = on_subject "thump.decisions" (Tr_world st1) ++ [reissue demo_cfg held demo_ack 8 8]).
Proof.
  intros st held st1.
  apply (superseded_hold_survives demo_cfg st {[ "slo_burn:acme" := held ]} held demo_set 6
           demo_ack 8 8); vm_compute; reflexivity.
Defined.

Lemma failed_reissue_loses_hold_witness :
  let held := mkGoverned (Evaluate weak_set demo_policy 5) weak_set in
  let st := mkTransportState (Some {[ "slo_burn:acme" := held ]}) NewDecisionLog
              (mkMemPub [] 1 : MemPub Governed) in
  let st1 := (approveHandler demo_cfg demo_ack 8 8 st).1 in
  on_subject "thump.decisions" (Tr_world st1) = [] /\
  approveHandler demo_cfg demo_ack 9 9 st1 = (st1, None).
Proof.
  intros held st st1. split; [vm_compute; reflexivity|].
  eapply (failed_reissue_loses_hold demo_cfg st st1 demo_ack 8 8 9 9);
    [vm_compute; reflexivity | eexists; reflexivity].
Defined.
