(* ===== verification/ThumpExec.v ===== *)
(** * internal/thump: rendering and executing one order

    [Order] and [ReversalPlan] (order.go), [Actuator.Render] (actuator.go),
    [renderNotes] (notes.go), the executors [DryRun], [Live] and
    [GatedExecutor] with the [FileSwitch] kill switch, [ReversalWatcher.Watch]
    (reversal.go), [AcceptanceWatcher.Poll] (acceptance.go) and
    [PrometheusConverger.Settle] (converger.go).

    What the beat can touch is a world [C] passed through explicitly: an
    executor takes the world and returns the changed one, and [ActionRunner] is
    a function on it. *)

From Stdlib Require Import Ascii.
From S2P Require Import Prelude GoTime GoFloat Api Contract Hiss.
Local Open Scope Z_scope.

(** ** order.go *)

Abbreviation OrderKind := string (only parsing).
Definition OrderForward : OrderKind := "".
Definition OrderReversal : OrderKind := "reversal".

Record ReversalPlan : Type := mkReversalPlan {
  Plan_ReversalPath : ReversalPath;
  Plan_Fallback : string;
  Plan_RestoreOnSuccess : bool;
  Plan_HoldOnMiss : bool
}.

Record Order : Type := mkOrder {
  Order_ID : string;
  Order_Kind : OrderKind;
  Order_DecisionRef : string;
  Order_SignalRef : string;
  Order_SLORef : string;
  Order_ContractRef : string;
  Order_GrantedBand : Band;
  Order_Description : string;
  Order_Parameters : gmap string float64;
  Order_Reversal : ReversalPlan;
  Order_Success : SuccessCriteria;
  Order_RenderedAt : Time;
  Order_Notes : string
}.

Definition ReversalPath_zero : ReversalPath := mkReversalPath "" "" "" false.
Definition SuccessCriteria_zero : SuccessCriteria := mkSuccessCriteria "" "" 0 [] "" f0.

(** ** notes.go *)

Definition nl : string := String (ascii_of_nat 10) EmptyString.

(** the number of characters of a UTF-8 string: its bytes that are not
    continuation bytes *)
Fixpoint rune_count (s : string) : nat :=
  match s with
  | EmptyString => 0
  | String c s' =>
      let n := nat_of_ascii c in
      ((if (Nat.leb 128 n && Nat.ltb n 192)%bool then 0 else 1) + rune_count s')%nat
  end.

(** [fmt.Sprintf("%-<w>s", s)] *)
Definition pad_right (w : nat) (s : string) : string :=
  s +:+ string_repeat " " (w - rune_count s).

Definition note_hypothesis (h : Hypothesis_) : string :=
  "  - " +:+ Hypothesis_Name h +:+ " (weight " +:+ fmt_f 2 (Hypothesis_Weight h) +:+ ")" +:+ nl.

Definition note_candidate (recommended : string) (c : Candidate) : string :=
  (if Candidate_ID c =s recommended then "*" else " ") +:+ " #" +:+ fmt_d (Candidate_Rank c) +:+ " "
  +:+ pad_right 30 (Candidate_ContractRef c) +:+ " confidence=" +:+ fmt_f 2 (Candidate_Confidence c)
  +:+ (if Candidate_ConfidenceCeilingBound c
       then " (ceiling-bound, computed=" +:+ fmt_f 2 (Candidate_ComputedConfidence c) +:+ ")" else "")
  +:+ (match Candidate_Citations c with
       | [] => ""
       | cs => " citations=[" +:+ strings_Join cs ", " +:+ "]"
       end) +:+ nl.

Definition note_evidence (e : EvidenceRef) : string :=
  "  - [" +:+ EvidenceRef_Tool e +:+ "] " +:+ EvidenceRef_Query e +:+ ": "
  +:+ EvidenceRef_Summary e +:+ nl.

Definition renderNotes (ps : ProposalSet) : string :=
  "Recommended: " +:+ Set_Recommended ps +:+ nl
  +:+ (match Set_RankingRationale ps with
       | None => ""
       | Some r => "Ranked by: " +:+ RankingRationale_DominantAxis r
           +:+ (if RankingRationale_VelocityWeight r =s "" then ""
                else " (velocity: " +:+ RankingRationale_VelocityWeight r +:+ ")") +:+ nl
       end)
  +:+ (match Set_Hypotheses ps with
       | [] => ""
       | hs => nl +:+ "Hypotheses:" +:+ nl +:+ strings_Join (map note_hypothesis hs) ""
       end)
  +:+ nl +:+ "Candidates:" +:+ nl
  +:+ strings_Join (map (note_candidate (Set_Recommended ps)) (Set_Proposals ps)) ""
  +:+ (match Set_Evidence ps with
       | [] => ""
       | es => nl +:+ "Evidence:" +:+ nl +:+ strings_Join (map note_evidence es) ""
       end).

(** ** actuator.go *)

Definition ErrUnauditable : error := errors_New "thump: decision fails its audit invariant".
Definition ErrUngoverned : error := errors_New "thump: decision is not an approval".
Definition ErrSeamMismatch : error := errors_New "thump: decision and set do not describe each other".
Definition ErrOutsideCatalog : error := errors_New "thump: granted contract not in catalog".

Definition candidate (ps : ProposalSet) (ref : string) : option Candidate := candidate_by_id ps ref.

(** the Order [Render] builds once every seam check has passed *)
Definition order_of (g : Governed) (cand : Candidate) (ct : ActionContract) (now : Time) : Order :=
  let dec := Governed_Decision g in
  mkOrder ("ord:" +:+ Decision_SignalRef dec +:+ ":" +:+ fmt_d (Unix now)) OrderForward
    (Decision_ID dec) (Decision_SignalRef dec) (Decision_SLORef dec) (Candidate_ContractRef cand)
    (Decision_GrantedBand dec) (ActionSpec_Description (AC_Action ct))
    (Range_Default <$> ActionSpec_ScopeParameters (AC_Action ct))
    (mkReversalPlan (default ReversalPath_zero (Candidate_ReversalPath cand))
       (Reversal_Fallback (AC_Reversal ct)) (Reversal_RestoreOnSuccess (AC_Reversal ct))
       (Reversal_HoldOnMiss (AC_Reversal ct)))
    (AC_SuccessCriteria ct) now (renderNotes (Governed_Set g)).

Definition Render (g : Governed) (cat : StaticCatalog) (now : Time) : result Order :=
  let dec := Governed_Decision g in
  let ps := Governed_Set g in
  match Decision_Auditable dec with
  | Some err => inr (errorf_ww ErrUnauditable err)
  | None =>
      if Decision_Verdict dec <>s VerdictApproved then
        inr (errorf_wp ErrUngoverned (": verdict " +:+ fmt_q (Decision_Verdict dec)))
      else
        let mismatch := inr (errorf_wp ErrSeamMismatch
              (": decision " +:+ Decision_ID dec +:+ " vs set " +:+ Set_Name ps)) in
        match candidate ps (Decision_CandidateRef dec) with
        | None => mismatch
        | Some cand =>
            if (Decision_ProposalRef dec <>s Set_Name ps) || (Decision_SignalRef dec <>s Set_SignalRef ps)
            then mismatch
            else match ByName cat (Candidate_ContractRef cand) with
                 | None => inr (errorf_wp ErrOutsideCatalog (": " +:+ fmt_q (Candidate_ContractRef cand)))
                 | Some ct => inl (order_of g cand ct now)
                 end
        end
  end.

(** ** The executors: executor.go, live.go, gatedexecutor.go, killswitch.go *)

Definition Executor (C : Type) : Type := Order -> Time -> C -> C * Outcome.

(** [ActionRunner.Run(ref, reverse, params, notes)] *)
Definition ActionRunner (C : Type) : Type :=
  string -> bool -> gmap string float64 -> string -> C -> C * result Result.

Definition outcome_for (o : Order) (m : Mode) (r : Result) (err : string) (now : Time) : Outcome :=
  mkOutcome ("out:" +:+ Order_SignalRef o +:+ ":" +:+ fmt_d (Unix now)) (Order_DecisionRef o)
    (Order_SignalRef o) (Order_ContractRef o) m r err now None.

Definition DryRun {C} : Executor C :=
  fun o now c => (c, outcome_for o ModeDryRun ResultRendered "" now).

Definition Live {C} (runner : ActionRunner C) : Executor C :=
  fun o now c =>
    let '(c', res) := runner (Order_ContractRef o) (Order_Kind o =s OrderReversal)
                        (Order_Parameters o) (Order_Notes o) c in
    match res with
    | inr err => (c', outcome_for o ModeLive ResultFailure (err_text err) now)
    | inl r => (c', outcome_for o ModeLive r "" now)
    end.

Definition blockedOutcome (o : Order) (now : Time) : Outcome :=
  outcome_for o ModeLive ResultBlocked "" now.

Definition GatedExecutor {C} (inner : Executor C) (armed : C -> bool) : Executor C :=
  fun o now c =>
    if (Order_Kind o <>s OrderReversal) && negb (armed c) then (c, blockedOutcome o now)
    else inner o now c.

Record FileSwitch : Type := mkFileSwitch { FileSwitch_path : string; FileSwitch_armed : bool }.

Definition NewFileSwitch (path : string) : FileSwitch := mkFileSwitch path false.

Definition Armed (s : FileSwitch) : bool := FileSwitch_armed s.

Definition switch_set (s : FileSwitch) (armed : bool) : FileSwitch :=
  mkFileSwitch (FileSwitch_path s) armed.

(** [Reload]; [readFile] is [os.ReadFile] at the moment of the call and
    [unmarshal] is [yaml.Unmarshal] into [switchConfig], giving its [Armed]. *)
Definition Reload (readFile : string -> result string) (unmarshal : string -> result bool)
  (s : FileSwitch) : FileSwitch * option error :=
  match readFile (FileSwitch_path s) with
  | inr err => (switch_set s false, Some (errorf_w "kill-switch read: " err))
  | inl raw =>
      match unmarshal raw with
      | inr err => (switch_set s false, Some (errorf_w "kill-switch parse: " err))
      | inl armed => (switch_set s armed, None)
      end
  end.

(** [gatedLive]: the live executor's world is the switch and the
    infrastructure its runner mutates *)
Record LiveWorld (R : Type) : Type := mkLiveWorld { lw_switch : FileSwitch; lw_infra : R }.
Arguments mkLiveWorld {R}.
Arguments lw_switch {R}.
Arguments lw_infra {R}.

Definition on_infra {R} (runner : ActionRunner R) : ActionRunner (LiveWorld R) :=
  fun ref rev params notes c =>
    let '(r', res) := runner ref rev params notes (lw_infra c) in
    (mkLiveWorld (lw_switch c) r', res).

Definition gatedLive {R} (runner : ActionRunner R) : Executor (LiveWorld R) :=
  GatedExecutor (Live (on_infra runner)) (fun c => Armed (lw_switch c)).

(** ** reversal.go *)

(** [Converger.Settle], reading the world *)
Definition Converger (C : Type) : Type := Order -> C -> bool * option float64.

Record Settlement : Type := mkSettlement {
  Settlement_Converged : bool;
  Settlement_Fire : bool;
  Settlement_Held : bool;
  Settlement_Undo : option Order;
  Settlement_Severity : option float64
}.

Definition Settlement_zero : Settlement := mkSettlement false false false None None.

Definition reversalOf (o : Order) (now : Time) : Order :=
  mkOrder ("rev:" +:+ Order_SignalRef o +:+ ":" +:+ fmt_d (Unix now)) OrderReversal
    (Order_DecisionRef o) (Order_SignalRef o) "" (Order_ContractRef o) ""
    (ReversalPath_Method (Plan_ReversalPath (Order_Reversal o))) ∅ (Order_Reversal o)
    SuccessCriteria_zero now "".

(** [Watch]; [cancelled] is whether the context ended before the window
    elapsed.  A zero [Undo] is [None]. *)
Definition Watch {C} (probe : Converger C) (cancelled : bool) (o : Order) (now : Time) (c : C)
  : Settlement :=
  if cancelled then Settlement_zero
  else
    let '(converged, severity) := probe o c in
    let held := negb converged && Plan_HoldOnMiss (Order_Reversal o) in
    let fire := (negb converged && negb (Plan_HoldOnMiss (Order_Reversal o)))
                || Plan_RestoreOnSuccess (Order_Reversal o) in
    if fire then mkSettlement converged true false (Some (reversalOf o now)) severity
    else mkSettlement converged false held None severity.

(** ** acceptance.go *)

(** [ReleaseProbe.Withdraw]: it retracts an open release, so it acts on the world *)
Definition ReleaseProbe (C : Type) : Type := string -> C -> C * result bool.

Definition Poll {C} (probe : ReleaseProbe C) (cancelled : option error) (o : Order) (c : C)
  : C * result bool :=
  match cancelled with
  | Some e => (c, inr e)
  | None => probe (Order_ContractRef o) c
  end.

(** ** converger.go *)

Record ConvergenceProbe (C : Type) : Type := mkConvergenceProbe {
  Probe_Converged : string -> string -> C -> bool;
  Probe_Severity : string -> C -> option float64
}.
Arguments mkConvergenceProbe {C}.
Arguments Probe_Converged {C}.
Arguments Probe_Severity {C}.

Definition PrometheusConverger {C} (p : ConvergenceProbe C) : Converger C :=
  fun o c =>
    let converged := Probe_Converged p (SuccessCriteria_Metric (Order_Success o))
                       (SuccessCriteria_Target (Order_Success o)) c in
    let query := if Order_SLORef o =s "" then SuccessCriteria_SeverityQuery (Order_Success o)
                 else Order_SLORef o in
    (converged, if query =s "" then None else Probe_Severity p query c).

(** ** Specifications *)

(** the Decision and the Set travelling with it describe each other, and the
    granted candidate is [cand] *)
Definition describes (g : Governed) (cand : Candidate) : Prop :=
  Decision_ProposalRef (Governed_Decision g) = Set_Name (Governed_Set g) /\
  Decision_SignalRef (Governed_Decision g) = Set_SignalRef (Governed_Set g) /\
  candidate (Governed_Set g) (Decision_CandidateRef (Governed_Decision g)) = Some cand.

(** a governed approval thump may act on: auditable, approved, sealed to its
    set, and granting a catalogued contract *)
Definition Renderable (g : Governed) (cat : StaticCatalog) (cand : Candidate) (ct : ActionContract)
  : Prop :=
  Decision_Auditable (Governed_Decision g) = None /\
  Decision_Verdict (Governed_Decision g) = VerdictApproved /\
  describes g cand /\ ByName cat (Candidate_ContractRef cand) = Some ct.

(** ** Lemmas *)

Fixpoint last_char (s : string) : option ascii :=
  match s with
  | EmptyString => None
  | String c EmptyString => Some c
  | String _ s' => last_char s'
  end.

Lemma last_char_app (a : string) (c : ascii) (b : string) :
  last_char (a +:+ String c b) = last_char (String c b).
Proof.
  induction a as [|x a IH]; [done|]. change (String x a +:+ String c b) with (String x (a +:+ String c b)).
  rewrite <- IH. by destruct a.
Qed.

(** the audit error is none of the later sentinels *)
Lemma Auditable_err_not (d : Decision) (e : error) (c : ascii) (s : string) :
  Decision_Auditable d = Some e -> last_char s = Some c ->
  c <> "n"%char -> c <> "e"%char -> c <> "d"%char -> errors_Is e (errors_New s) = false.
Proof.
  unfold Decision_Auditable. intros He Hs Hn Hee Hd.
  assert (forall t, last_char t <> Some c -> errors_Is (errors_New t) (errors_New s) = false) as Hne.
  { intros t Ht. unfold errors_Is. simpl. rewrite orb_false_r. apply String.eqb_neq. congruence. }
  destruct (Decision_PolicyVersion d =s ""); simplify_eq; [apply Hne; simpl; congruence|].
  destruct (IsZero _); simplify_eq; [apply Hne; simpl; congruence|].
  destruct (_ && _); simplify_eq. apply Hne. rewrite last_char_app. simpl. congruence.
Qed.

Lemma Render_inl g cat now o :
  Render g cat now = inl o <-> exists cand ct, Renderable g cat cand ct /\ o = order_of g cand ct now.
Proof.
  unfold Render, Renderable, describes. split.
  - intros H. destruct (Decision_Auditable _) eqn:Ea; [done|].
    destruct (_ =s VerdictApproved) eqn:Ev; [|done].
    destruct (candidate _ _) as [cand|] eqn:Ec; [|done]. simpl in H.
    destruct (_ || _) eqn:Er; [done|]. bsplit.
    destruct (ByName cat _) as [ct|] eqn:Eb; [|done]. simplify_eq/=.
    exists cand, ct. repeat split; done.
  - intros (cand & ct & (Ha & Hv & (Hp & Hs & Hc) & Hb) & ->).
    by rewrite Ha, Hv, Hp, Hs, Hc, Hb, !seqb_refl.
Qed.

Lemma order_of_forward g cand ct now : (Order_Kind (order_of g cand ct now) =s OrderReversal) = false.
Proof. done. Qed.

Lemma outcome_for_Auditable o m r err now :
  Order_DecisionRef o <> ""%string -> now <> 0 -> m <> ""%string -> r <> ""%string ->
  (r = ResultFailure \/ r = ResultPartialNonConverging -> err <> ""%string) ->
  Outcome_Auditable (outcome_for o m r err now) = None.
Proof. intros. by apply Outcome_Auditable_None. Qed.

(** what a live runner must report for its outcomes to stand an audit: a
    non-empty result that is not a bare failure, and error text with an error *)
Definition runner_accountable {C} (runner : ActionRunner C) : Prop :=
  forall ref rev params notes c c' res, runner ref rev params notes c = (c', res) ->
    match res with
    | inl r => r = ResultApplied \/ r = ResultProposed
    | inr e => err_text e <> ""%string
    end.

Lemma gatedLive_cases {R} (runner : ActionRunner R) o now c c' oc :
  gatedLive runner o now c = (c', oc) ->
  (Order_Kind o <> OrderReversal /\ Armed (lw_switch c) = false /\ c' = c /\ oc = blockedOutcome o now) \/
  ((Order_Kind o = OrderReversal \/ Armed (lw_switch c) = true) /\
   exists r' res, runner (Order_ContractRef o) (Order_Kind o =s OrderReversal) (Order_Parameters o)
                    (Order_Notes o) (lw_infra c) = (r', res) /\
     c' = mkLiveWorld (lw_switch c) r' /\
     oc = match res with
          | inr err => outcome_for o ModeLive ResultFailure (err_text err) now
          | inl r => outcome_for o ModeLive r "" now
          end).
Proof.
  unfold gatedLive, GatedExecutor, Live, on_infra. intros H.
  destruct (Order_Kind o =s OrderReversal) eqn:Ek; simpl in H.
  - right. split; [left; by apply String.eqb_eq|].
    destruct (runner _ _ _ _ _) as [r' [r|e]]; simplify_eq; eauto.
  - destruct (Armed (lw_switch c)) eqn:Ea; simpl in H.
    + right. split; [by right|].
      destruct (runner _ _ _ _ _) as [r' [r|e]]; simplify_eq; eauto.
    + left. simplify_eq. apply String.eqb_neq in Ek. done.
Qed.

(** every outcome of the live path stands an audit *)
Lemma gatedLive_Auditable {R} (runner : ActionRunner R) o now c :
  runner_accountable runner -> Order_DecisionRef o <> ""%string -> now <> 0 ->
  Outcome_Auditable (gatedLive runner o now c).2 = None.
Proof.
  intros Hr Hd Hn. destruct (gatedLive runner o now c) as [c' oc] eqn:E.
  apply gatedLive_cases in E as [(_ & _ & _ & ->)|(_ & r' & res & Hrun & _ & ->)]; simpl.
  - apply outcome_for_Auditable; try done. intros [Hx|Hx]; discriminate Hx.
  - apply Hr in Hrun. destruct res as [r|e].
    + destruct Hrun as [-> | ->]; apply outcome_for_Auditable; try done; intros [Hx|Hx]; discriminate Hx.
    + by apply outcome_for_Auditable.
Qed.

Lemma Reload_armed readFile unmarshal s :
  Armed (Reload readFile unmarshal s).1 = true <->
  exists raw, readFile (FileSwitch_path s) = inl raw /\ unmarshal raw = inl true.
Proof.
  unfold Reload, Armed. destruct (readFile _) as [raw|]; simpl.
  - destruct (unmarshal raw) as [b|] eqn:E; simpl; split; try done.
    + intros ->. eauto.
    + intros (raw' & ? & ?). simplify_eq. congruence.
    + intros (raw' & ? & ?). simplify_eq. congruence.
  - split; [done|]. by intros (? & ? & _).
Qed.

Lemma Watch_Fire {C} (probe : Converger C) cancelled o now c :
  Settlement_Fire (Watch probe cancelled o now c) = true <->
  cancelled = false /\
  (((probe o c).1 = false /\ Plan_HoldOnMiss (Order_Reversal o) = false) \/
   Plan_RestoreOnSuccess (Order_Reversal o) = true).
Proof.
  unfold Watch. destruct cancelled; [naive_solver|]. destruct (probe o c) as [conv sev]. simpl.
  destruct conv, (Plan_HoldOnMiss _), (Plan_RestoreOnSuccess _); simpl; naive_solver.
Qed.

Lemma Watch_Undo {C} (probe : Converger C) cancelled o now c :
  Settlement_Undo (Watch probe cancelled o now c)
  = if Settlement_Fire (Watch probe cancelled o now c) then Some (reversalOf o now) else None.
Proof. unfold Watch. by repeat case_match. Qed.

Lemma Watch_Converged {C} (probe : Converger C) o now c :
  Settlement_Converged (Watch probe false o now c) = (probe o c).1 /\
  Settlement_Severity (Watch probe false o now c) = (probe o c).2.
Proof. unfold Watch. destruct (probe o c). by case_match. Qed.

(** a one-contract catalog and a governed approval of it, used by the witnesses *)
Definition demo_contract : ActionContract :=
  mkActionContract "acme-shed-load" ["service_failure"%string] ["tier-1"%string] BlastLow []
    (mkActionSpec "shed load" {[ "pct" := mkRange f0 f1 fhalf ]})
    (mkReversal "restore" "page the owner" true true)
    (mkExecution
       [mkStep "scale" "acme" "" [] "web" (Some 2) "" "" "" "" ""]
       [mkStep "scale" "acme" "" [] "web" (Some 4) "" "" "" "" ""])
    (mkSuccessCriteria "acme-errors" "< 0.01" Minute [] "" f0).

Definition demo_catalog : StaticCatalog := NewStaticCatalog [demo_contract].

Definition demo_governed : Governed := mkGoverned (Evaluate demo_set demo_policy 5) demo_set.

(** ** Claims *)

(** [Render] acts only on a governed approval, and says which seam refused:
    it returns an Order exactly when the Decision is auditable, is an approval,
    describes the Set it travels with and grants a catalogued contract, and the
    Order is then built from those three records alone; otherwise it returns
    the sentinel of the first check that failed, in that order. *)
Theorem Render_contract (g : Governed) (cat : StaticCatalog) (now : Time) :
  let dec := Governed_Decision g in
  (forall o, Render g cat now = inl o <->
     exists cand ct, Renderable g cat cand ct /\ o = order_of g cand ct now) /\
  (forall e, Render g cat now = inr e ->
     (errors_Is e ErrUnauditable = true <-> Decision_Auditable dec <> None) /\
     (errors_Is e ErrUngoverned = true <->
        Decision_Auditable dec = None /\ Decision_Verdict dec <> VerdictApproved) /\
     (errors_Is e ErrSeamMismatch = true <->
        Decision_Auditable dec = None /\ Decision_Verdict dec = VerdictApproved /\
        forall cand, ~ describes g cand) /\
     (errors_Is e ErrOutsideCatalog = true <->
        Decision_Auditable dec = None /\ Decision_Verdict dec = VerdictApproved /\
        exists cand, describes g cand /\ ByName cat (Candidate_ContractRef cand) = None)).
Proof.
  intros dec. split; [apply Render_inl|]. intros e. unfold Render. fold dec.
  destruct (Decision_Auditable dec) as [ea|] eqn:Ea; intros He.
  { simplify_eq. unfold errorf_ww, errors_Is. simpl.
    pose proof (Auditable_err_not dec ea "l" _ Ea (eq_refl : last_char (err_text ErrUngoverned) = _)) as H1.
    pose proof (Auditable_err_not dec ea "r" _ Ea (eq_refl : last_char (err_text ErrSeamMismatch) = _)) as H2.
    pose proof (Auditable_err_not dec ea "g" _ Ea (eq_refl : last_char (err_text ErrOutsideCatalog) = _)) as H3.
    unfold errors_Is in H1, H2, H3. simpl in H1, H2, H3.
    rewrite H1, H2, H3 by done. naive_solver. }
  destruct (Decision_Verdict dec =s VerdictApproved) eqn:Ev; simpl in He; bsplit.
  2: { simplify_eq. repeat split; try done; naive_solver. }
  assert (forall c, describes g c <-> candidate (Governed_Set g) (Decision_CandidateRef dec) = Some c /\
            ((Decision_ProposalRef dec <>s Set_Name (Governed_Set g)) ||
             (Decision_SignalRef dec <>s Set_SignalRef (Governed_Set g))) = false) as Hdes.
  { intros c. unfold describes. fold dec. rewrite orb_false_iff, !negb_false_iff, !String.eqb_eq. naive_solver. }
  setoid_rewrite Hdes. clear Hdes.
  destruct (candidate _ _) as [cand|] eqn:Ec.
  2: { simplify_eq. repeat split; try done; naive_solver. }
  destruct (_ || _) eqn:Er; [simplify_eq; repeat split; try done; naive_solver|].
  destruct (ByName cat _) as [ct|] eqn:Eb; [done|]. simplify_eq.
  repeat split; try done; naive_solver.
Qed.

(** The kill switch fails closed: a [Reload] leaves the switch armed only
    when the file was read, parsed and says so, whatever state the switch was
    in before; and until it is armed, the live executor runs no forward order:
    the infrastructure is untouched and the outcome records the refusal. *)
Theorem killswitch_fails_closed {R} (runner : ActionRunner R) readFile unmarshal
  (sw : FileSwitch) (infra : R) (o : Order) (now : Time) :
  let sw' := (Reload readFile unmarshal sw).1 in
  (Armed sw' = true <->
   exists raw, readFile (FileSwitch_path sw) = inl raw /\ unmarshal raw = inl true) /\
  (Armed sw' = false -> Order_Kind o <> OrderReversal ->
   gatedLive runner o now (mkLiveWorld sw' infra)
   = (mkLiveWorld sw' infra, blockedOutcome o now)).
Proof.
  intros sw'. split; [apply Reload_armed|]. intros Ha Hk.
  unfold gatedLive, GatedExecutor. simpl. by rewrite Ha, (proj2 (String.eqb_neq _ _) Hk).
Qed.

(** What one post-window read decides ([Watch]): the undo fires exactly on a
    miss the contract does not hold, or when the contract restores on success;
    the undo is then the reversal of the same order under the same grant; a
    cancelled watch decides nothing; and the reported convergence is the
    probe's. *)
Theorem Watch_decides {C} (probe : Converger C) (cancelled : bool) (o : Order) (now : Time) (c : C) :
  let s := Watch probe cancelled o now c in
  (Settlement_Fire s = true <->
     cancelled = false /\
     (((probe o c).1 = false /\ Plan_HoldOnMiss (Order_Reversal o) = false) \/
      Plan_RestoreOnSuccess (Order_Reversal o) = true)) /\
  Settlement_Undo s = (if Settlement_Fire s then Some (reversalOf o now) else None) /\
  (Settlement_Held s = true ->
     Settlement_Fire s = false /\ Settlement_Converged s = false /\
     Plan_HoldOnMiss (Order_Reversal o) = true) /\
  (cancelled = false -> Settlement_Converged s = (probe o c).1 /\ Settlement_Severity s = (probe o c).2) /\
  (cancelled = true -> s = Settlement_zero).
Proof.
  intros s. split; [apply Watch_Fire|]. split; [apply Watch_Undo|]. split; [|split].
  - unfold s, Watch. destruct cancelled; [done|]. destruct (probe o c) as [conv sev].
    destruct conv, (Plan_HoldOnMiss _), (Plan_RestoreOnSuccess _); simpl; done.
  - intros ->. apply Watch_Converged.
  - by intros ->.
Qed.

(** [HoldOnMiss] does not suppress the undo of a contract that also restores
    on success: on a miss the undo fires and the settlement is not marked held,
    although the field is documented to hold exactly that undo. *)
Theorem hold_on_miss_overridden {C} (probe : Converger C) (o : Order) (now : Time) (c : C) :
  Plan_HoldOnMiss (Order_Reversal o) = true -> Plan_RestoreOnSuccess (Order_Reversal o) = true ->
  (probe o c).1 = false ->
  let s := Watch probe false o now c in
  Settlement_Converged s = false /\ Settlement_Held s = false /\
  Settlement_Undo s = Some (reversalOf o now).
Proof. unfold Watch. destruct (probe o c); simpl. by intros -> -> ->. Qed.

Lemma hold_on_miss_overridden_witness :
  let o := order_of demo_governed demo_candidate demo_contract 6 in
  Settlement_Undo (Watch (fun _ (_ : unit) => (false, None)) false o 9 tt) = Some (reversalOf o 9).
Proof.
  intros o.
  apply (hold_on_miss_overridden (fun _ (_ : unit) => (false, None)) o 9 tt); reflexivity.
Defined.
