(* ===== verification/ThumpTransport.v ===== *)
(** * internal/thump: the transport

    [Transport.handle], [notify], [watchAndSettle], [watchAndAccept] and
    [recordAccept] (transport.go), and the beat's lifecycle as a machine.  The
    goroutines [handle] starts are the machine's pending tasks, each finished by
    a later event; a process restart loses them and starts from a disarmed
    switch, as the code documents.  Every publisher is its own world, so a
    publish on one stream cannot disturb another. *)

From S2P Require Import Prelude GoTime GoFloat Api Ledger Contract Publish Hiss ThumpExec.
Local Open Scope Z_scope.

Definition ErrRenderFailed : error := errors_New "thump: render failed".

Definition settleResult (converged : bool) : Result :=
  if converged then ResultSuccess else ResultPartialNonConverging.

Definition settleError (converged held : bool) (target fallback : string) : string :=
  if converged then ""
  else if held then
    if fallback =s "" then
      "success window elapsed without meeting " +:+ fmt_q target +:+ "; undo held, no fallback authored"
    else "success window elapsed without meeting " +:+ fmt_q target +:+ "; undo held, fallback: " +:+ fallback
  else "success window elapsed without meeting " +:+ fmt_q target.

Definition acceptanceError (fallback : string) : string :=
  if fallback =s "" then "release not accepted within the success window; no fallback authored"
  else "release not accepted within the success window; fallback: " +:+ fallback.

(** a goroutine [handle] started *)
Inductive task : Type :=
| TaskSettle (o : Order)
| TaskAccept (o : Order).

Section transport.
Context {WO WU WD WG C : Type}
  `{PublisherLaws WO Order} `{PublisherLaws WU Outcome}
  `{PublisherLaws WD Decision} `{PublisherLaws WG Governed}.

Record Transport : Type := mkTransport {
  Tr_Catalog : StaticCatalog;
  Tr_Exec : Executor C;
  Tr_Reversal : option (Converger C);
  Tr_Acceptance : option (ReleaseProbe C);
  Tr_Notifier : option (Governed -> option error)
}.

Record State : Type := mkState {
  St_orders : WO;
  St_outcomes : WU;
  St_declines : WD;
  St_held : WG;
  St_notified : list Governed;
  St_log : Log Outcome;
  St_world : C;
  St_tasks : list task
}.

Definition set_world (st : State) (c : C) : State :=
  mkState (St_orders st) (St_outcomes st) (St_declines st) (St_held st) (St_notified st) (St_log st)
    c (St_tasks st).

Definition spawn (st : State) (t : task) : State :=
  mkState (St_orders st) (St_outcomes st) (St_declines st) (St_held st) (St_notified st) (St_log st)
    (St_world st) (St_tasks st ++ [t]).

Definition publish_order (o : Order) (st : State) : State * option error :=
  let '(w, e) := publish "thump.orders" o (St_orders st) in
  (mkState w (St_outcomes st) (St_declines st) (St_held st) (St_notified st) (St_log st)
     (St_world st) (St_tasks st), e).

Definition publish_outcome (oc : Outcome) (st : State) : State * option error :=
  let '(w, e) := publish "thump.outcomes" oc (St_outcomes st) in
  (mkState (St_orders st) w (St_declines st) (St_held st) (St_notified st) (St_log st)
     (St_world st) (St_tasks st), e).

Definition publish_decline (d : Decision) (st : State) : State * option error :=
  let '(w, e) := publish "thump.declines" d (St_declines st) in
  (mkState (St_orders st) (St_outcomes st) w (St_held st) (St_notified st) (St_log st)
     (St_world st) (St_tasks st), e).

Definition publish_held (g : Governed) (st : State) : State * option error :=
  let '(w, e) := publish "thump.held" g (St_held st) in
  (mkState (St_orders st) (St_outcomes st) (St_declines st) w (St_notified st) (St_log st)
     (St_world st) (St_tasks st), e).

Definition record_log (oc : Outcome) (st : State) : State :=
  mkState (St_orders st) (St_outcomes st) (St_declines st) (St_held st) (St_notified st)
    (Log_Record (St_log st) oc) (St_world st) (St_tasks st).

(** [notify]: best effort, and only for a verdict that awaits a human *)
Definition notify (tr : Transport) (g : Governed) (st : State) : State * bool :=
  match AwaitsApproval (Decision_Verdict (Governed_Decision g)), Tr_Notifier tr with
  | true, Some send =>
      match send g with
      | Some _ => (st, false)
      | None => (mkState (St_orders st) (St_outcomes st) (St_declines st) (St_held st)
                   (St_notified st ++ [g]) (St_log st) (St_world st) (St_tasks st), true)
      end
  | _, _ => (st, false)
  end.

(** the watcher [handle] starts for an executed order, if any *)
Definition watcher_for (tr : Transport) (order : Order) (oc : Outcome) : option task :=
  match Tr_Reversal tr with
  | Some _ =>
      if (Outcome_Mode oc =s ModeLive) && (Outcome_Result oc =s ResultApplied)
      then Some (TaskSettle order)
      else match Tr_Acceptance tr with
           | Some _ => if (Outcome_Mode oc =s ModeLive) && (Outcome_Result oc =s ResultProposed)
                       then Some (TaskAccept order) else None
           | None => None
           end
  | None =>
      match Tr_Acceptance tr with
      | Some _ => if (Outcome_Mode oc =s ModeLive) && (Outcome_Result oc =s ResultProposed)
                  then Some (TaskAccept order) else None
      | None => None
      end
  end.

(** [handle]; [now1] is the render clock and [now2] the execution clock *)
Definition handle (tr : Transport) (g : Governed) (now1 now2 : Time) (st : State)
  : State * option error :=
  let d := Governed_Decision g in
  if Decision_Verdict d =s VerdictApproved then
    match Render g (Tr_Catalog tr) now1 with
    | inr err => (st, Some (errorf_ww (errorf_wp ErrRenderFailed (": " +:+ Decision_SignalRef d)) err))
    | inl order =>
        let '(c', oc) := Tr_Exec tr order now2 (St_world st) in
        let st1 := set_world st c' in
        let st2 := match watcher_for tr order oc with Some t => spawn st1 t | None => st1 end in
        let '(st3, e1) := publish_order order st2 in
        match e1 with
        | Some e => (st3, Some (errorf_w ("thump: publish order for " +:+ Decision_SignalRef d +:+ ": ") e))
        | None =>
            let '(st4, e2) := publish_outcome oc st3 in
            match e2 with
            | Some e => (st4, Some (errorf_w ("thump: publish outcome for " +:+ Decision_SignalRef d +:+ ": ") e))
            | None => (record_log oc st4, None)
            end
        end
    end
  else if Decision_Verdict d =s VerdictHold then
    let '(st1, e) := publish_held g st in
    match e with
    | Some e => (st1, Some (errorf_w ("thump: publish held for " +:+ Decision_SignalRef d +:+ ": ") e))
    | None => ((notify tr g st1).1, None)
    end
  else
    let '(st1, e) := publish_decline d st in
    match e with
    | Some e => (st1, Some (errorf_w ("thump: publish decline for " +:+ Decision_SignalRef d +:+ ": ") e))
    | None => ((notify tr g st1).1, None)
    end.

(** the terminal convergence outcome of a settlement *)
Definition settle_outcome (order : Order) (s : Settlement) (nowID now : Time) : Outcome :=
  mkOutcome ("out:" +:+ Order_SignalRef order +:+ ":conv:" +:+ fmt_d (Unix nowID))
    (Order_DecisionRef order) (Order_SignalRef order) (Order_ContractRef order) ModeLive
    (settleResult (Settlement_Converged s))
    (settleError (Settlement_Converged s) (Settlement_Held s)
       (SuccessCriteria_Target (Order_Success order)) (Plan_Fallback (Order_Reversal order)))
    now (Settlement_Severity s).

(** [watchAndSettle] from the end of the window; [probe] is [tr.Reversal], and
    the four clock reads are the undo's, the outcome id's, the outcome's and the
    undo execution's.  Publish errors are logged and dropped. *)
Definition watchAndSettle (tr : Transport) (probe : Converger C) (cancelled : bool) (order : Order)
  (nowUndo nowID now nowExec : Time) (st : State) : State :=
  let s := Watch probe cancelled order nowUndo (St_world st) in
  if cancelled then st
  else
    let conv := settle_outcome order s nowID now in
    let st1 := record_log conv (publish_outcome conv st).1 in
    match Settlement_Undo s with
    | None => st1
    | Some undo =>
        let '(c', oc) := Tr_Exec tr undo nowExec (St_world st1) in
        let st2 := set_world st1 c' in
        record_log oc (publish_outcome oc (publish_order undo st2).1).1
    end.

Definition accept_outcome (order : Order) (r : Result) (errText : string) (nowID now : Time) : Outcome :=
  mkOutcome ("out:" +:+ Order_SignalRef order +:+ ":accept:" +:+ fmt_d (Unix nowID))
    (Order_DecisionRef order) (Order_SignalRef order) (Order_ContractRef order) ModeLive r errText now None.

Definition recordAccept (order : Order) (r : Result) (errText : string) (nowID now : Time) (st : State)
  : State :=
  let oc := accept_outcome order r errText nowID now in
  record_log oc (publish_outcome oc st).1.

(** [watchAndAccept] from the end of its window; an accepted release goes on to
    wait for its convergence window, so it becomes a settle task.  With no
    [Reversal] wired, [watchAndSettle] would call through a nil pointer; the
    code starts it unconditionally. *)
Definition watchAndAccept (probe : ReleaseProbe C) (cancelled : option error) (order : Order)
  (nowID now : Time) (st : State) : State :=
  let '(c', res) := Poll probe cancelled order (St_world st) in
  let st1 := set_world st c' in
  match cancelled with
  | Some _ => st1
  | None =>
      match res with
      | inr e => recordAccept order ResultFailure ("acceptance poll failed: " +:+ err_text e) nowID now st1
      | inl false => recordAccept order ResultPartialNonConverging
                       (acceptanceError (Plan_Fallback (Order_Reversal order))) nowID now st1
      | inl true => spawn st1 (TaskSettle order)
      end
  end.

End transport.

Arguments mkTransport {C}.
Arguments Tr_Catalog {C}.
Arguments Tr_Exec {C}.
Arguments Tr_Reversal {C}.
Arguments Tr_Acceptance {C}.
Arguments Tr_Notifier {C}.
Arguments mkState {WO WU WD WG C}.
Arguments St_orders {WO WU WD WG C}.
Arguments St_outcomes {WO WU WD WG C}.
Arguments St_declines {WO WU WD WG C}.
Arguments St_held {WO WU WD WG C}.
Arguments St_notified {WO WU WD WG C}.
Arguments St_log {WO WU WD WG C}.
Arguments St_world {WO WU WD WG C}.
Arguments St_tasks {WO WU WD WG C}.

(** ** The beat's lifecycle in live mode

    [buildExecutor] and [runBroker] wire the gated live executor over a runner,
    a convergence probe (when PROM_URL is set) and a forge (when one is
    configured). *)

Section lifecycle.
Context {WO WU WD WG R : Type}
  `{PublisherLaws WO Order} `{PublisherLaws WU Outcome}
  `{PublisherLaws WD Decision} `{PublisherLaws WG Governed}.

Record Wiring : Type := mkWiring {
  Wi_Catalog : StaticCatalog;
  Wi_Runner : ActionRunner R;
  Wi_Probe : option (Converger (LiveWorld R));
  Wi_Forge : option (ReleaseProbe R);
  Wi_Notifier : option (Governed -> option error);
  Wi_KillSwitchPath : string
}.

Definition forge_probe (f : ReleaseProbe R) : ReleaseProbe (LiveWorld R) :=
  fun key c => let '(r', res) := f key (lw_infra c) in (mkLiveWorld (lw_switch c) r', res).

Definition transport_of (wi : Wiring) : Transport (C := LiveWorld R) :=
  mkTransport (Wi_Catalog wi) (gatedLive (Wi_Runner wi)) (Wi_Probe wi)
    (forge_probe <$> Wi_Forge wi) (Wi_Notifier wi).

Abbreviation LState := (State (WO := WO) (WU := WU) (WD := WD) (WG := WG) (C := LiveWorld R)).

Inductive event : Type :=
| EvDecision (g : Governed) (now1 now2 : Time)
| EvSettle (i : nat) (cancelled : bool) (nowUndo nowID now nowExec : Time)
| EvAccept (i : nat) (cancelled : option error) (nowID now : Time)
| EvReload (readFile : string -> result string) (unmarshal : string -> result bool)
| EvRestart.

Definition drop_task (i : nat) (st : LState) : LState :=
  mkState (St_orders st) (St_outcomes st) (St_declines st) (St_held st) (St_notified st) (St_log st)
    (St_world st) (delete i (St_tasks st)).

(** One event; [None] is a crashed process.  An event that names no task of its
    kind does nothing. *)
Definition run_event (wi : Wiring) (st : LState) (ev : event) : option LState :=
  let tr := transport_of wi in
  match ev with
  | EvDecision g n1 n2 => Some (handle tr g n1 n2 st).1
  | EvSettle i cancelled nu ni n ne =>
      match St_tasks st !! i with
      | Some (TaskSettle o) =>
          match Tr_Reversal tr with
          | None => None (* tr.Reversal.Watch through a nil pointer *)
          | Some probe => Some (watchAndSettle tr probe cancelled o nu ni n ne (drop_task i st))
          end
      | _ => Some st
      end
  | EvAccept i cancelled ni n =>
      match St_tasks st !! i, Tr_Acceptance tr with
      | Some (TaskAccept o), Some probe => Some (watchAndAccept probe cancelled o ni n (drop_task i st))
      | _, _ => Some st
      end
  | EvReload readFile unmarshal =>
      Some (set_world st (mkLiveWorld (Reload readFile unmarshal (lw_switch (St_world st))).1
                            (lw_infra (St_world st))))
  | EvRestart =>
      Some (mkState (St_orders st) (St_outcomes st) (St_declines st) (St_held st) (St_notified st)
              NewOutcomeLog
              (mkLiveWorld (NewFileSwitch (Wi_KillSwitchPath wi)) (lw_infra (St_world st))) [])
  end.

Fixpoint run (wi : Wiring) (st : LState) (evs : list event) : option LState :=
  match evs with
  | [] => Some st
  | ev :: evs' => match run_event wi st ev with
                  | None => None
                  | Some st' => run wi st' evs'
                  end
  end.

(** the state a fresh process starts from *)
Definition start (wi : Wiring) (wo : WO) (wu : WU) (wd : WD) (wg : WG) (r : R) : LState :=
  mkState wo wu wd wg [] NewOutcomeLog (mkLiveWorld (NewFileSwitch (Wi_KillSwitchPath wi)) r) [].

(** ** What may run *)

(** [o] is the rendering of a decision that was delivered *)
Definition Granted (wi : Wiring) (evs : list event) (o : Order) : Prop :=
  exists g n1 n2, EvDecision g n1 n2 ∈ evs /\ Render g (Wi_Catalog wi) n1 = inl o.

(** some reload read a file that says armed *)
Definition Arming (wi : Wiring) (evs : list event) : Prop :=
  exists readFile unmarshal raw, EvReload readFile unmarshal ∈ evs /\
    readFile (Wi_KillSwitchPath wi) = inl raw /\ unmarshal raw = inl true.

(** the runner calls governance permits: the forward action of a granted order
    with its own parameters and notes, under an arming reload; or its undo,
    which carries no parameters *)
Inductive Permitted_run (wi : Wiring) (evs : list event)
  : string -> bool -> gmap string float64 -> string -> Prop :=
| permitted_forward o :
    Granted wi evs o -> Arming wi evs ->
    Permitted_run wi evs (Order_ContractRef o) false (Order_Parameters o) (Order_Notes o)
| permitted_reverse o :
    Granted wi evs o -> Permitted_run wi evs (Order_ContractRef o) true ∅ "".

Definition task_order (t : task) : Order := match t with TaskSettle o => o | TaskAccept o => o end.

Record live_inv (wi : Wiring) (P : R -> Prop) (evs : list event) (st : LState) : Prop := {
  linv_infra : P (lw_infra (St_world st));
  linv_tasks : forall t, t ∈ St_tasks st -> Granted wi evs (task_order t);
  linv_path : FileSwitch_path (lw_switch (St_world st)) = Wi_KillSwitchPath wi;
  linv_armed : Armed (lw_switch (St_world st)) = true -> Arming wi evs
}.

(** ** Lemmas *)

(** publishing and recording leave the world and the tasks alone *)
Lemma publish_order_frame o (st : LState) :
  St_world (publish_order o st).1 = St_world st /\ St_tasks (publish_order o st).1 = St_tasks st.
Proof. unfold publish_order. by destruct (publish _ _ _). Qed.

Lemma publish_outcome_frame oc (st : LState) :
  St_world (publish_outcome oc st).1 = St_world st /\ St_tasks (publish_outcome oc st).1 = St_tasks st.
Proof. unfold publish_outcome. by destruct (publish _ _ _). Qed.

Lemma notify_frame tr g (st : LState) :
  St_world (notify tr g st).1 = St_world st /\ St_tasks (notify tr g st).1 = St_tasks st.
Proof. unfold notify. by repeat case_match. Qed.

Lemma handle_other_frame tr g n1 n2 (st : LState) :
  Decision_Verdict (Governed_Decision g) <> VerdictApproved ->
  St_world (handle tr g n1 n2 st).1 = St_world st /\ St_tasks (handle tr g n1 n2 st).1 = St_tasks st.
Proof.
  intros Hv. unfold handle. rewrite (proj2 (String.eqb_neq _ _) Hv).
  unfold publish_held, publish_decline.
  destruct (_ =s VerdictHold); destruct (publish _ _ _) as [w [e|]]; simpl; try done;
    rewrite !(proj1 (notify_frame _ _ _)), !(proj2 (notify_frame _ _ _)); done.
Qed.

(** an approved decision either fails to render and changes nothing, or runs
    its order once and may leave one watcher behind *)
Lemma handle_approved_frame tr g n1 n2 (st : LState) :
  Decision_Verdict (Governed_Decision g) = VerdictApproved ->
  ((handle tr g n1 n2 st).1 = st /\ exists e, Render g (Tr_Catalog tr) n1 = inr e) \/
  (exists o, Render g (Tr_Catalog tr) n1 = inl o /\
     St_world (handle tr g n1 n2 st).1 = (Tr_Exec tr o n2 (St_world st)).1 /\
     forall t, t ∈ St_tasks (handle tr g n1 n2 st).1 -> t ∈ St_tasks st \/ task_order t = o).
Proof.
  intros Hv. unfold handle. rewrite Hv, seqb_refl.
  destruct (Render g _ n1) as [o|e]; [right|left; eauto].
  exists o. split; [done|].
  destruct (Tr_Exec tr o n2 (St_world st)) as [c' oc].
  set (st2 := match watcher_for tr o oc with Some t => _ | None => _ end).
  assert (St_world st2 = c' /\ forall t, t ∈ St_tasks st2 -> t ∈ St_tasks st \/ task_order t = o) as [Hw Ht].
  { subst st2. unfold watcher_for. repeat case_match; simplify_eq/=; split; auto; intros t;
      rewrite ?elem_of_app, ?list_elem_of_singleton; intros; naive_solver. }
  clearbody st2. destruct (publish_order_frame o st2) as [Ha1 Ha2].
  destruct (publish_order o st2) as [st3 [e|]]; simpl in *; [rewrite Ha1, Ha2; done|].
  destruct (publish_outcome_frame oc st3) as [Hb1 Hb2].
  destruct (publish_outcome oc st3) as [st4 [e|]]; simpl in *; rewrite Hb1, Hb2, Ha1, Ha2; done.
Qed.

Section invariant.
Context (wi : Wiring) (P : R -> Prop) (evs : list event).
Hypothesis run_ok : forall ref rev params notes r,
  Permitted_run wi evs ref rev params notes -> P r -> P (Wi_Runner wi ref rev params notes r).1.
Hypothesis withdraw_ok : forall f o r,
  Wi_Forge wi = Some f -> Granted wi evs o -> P r -> P (f (Order_ContractRef o) r).1.

Lemma gatedLive_inv o now (c : LiveWorld R) :
  (Order_Kind o = OrderReversal \/ Arming wi evs ->
   Permitted_run wi evs (Order_ContractRef o) (Order_Kind o =s OrderReversal) (Order_Parameters o) (Order_Notes o)) ->
  (Armed (lw_switch c) = true -> Arming wi evs) -> P (lw_infra c) ->
  let c' := (gatedLive (Wi_Runner wi) o now c).1 in
  P (lw_infra c') /\ lw_switch c' = lw_switch c.
Proof.
  intros Hperm Harm HP c'. subst c'.
  destruct (gatedLive (Wi_Runner wi) o now c) as [c' oc] eqn:E.
  apply gatedLive_cases in E as [(_ & _ & -> & _)|(Hk & r' & res & Hrun & -> & _)]; [done|].
  simpl. split; [|done]. rewrite <- (f_equal fst Hrun : _ = r').
  apply run_ok; [|done]. apply Hperm. naive_solver.
Qed.

Lemma forward_permitted g n1 n2 o :
  EvDecision g n1 n2 ∈ evs -> Render g (Wi_Catalog wi) n1 = inl o ->
  Order_Kind o = OrderReversal \/ Arming wi evs ->
  Permitted_run wi evs (Order_ContractRef o) (Order_Kind o =s OrderReversal) (Order_Parameters o) (Order_Notes o).
Proof.
  intros Hin Hr. assert (Granted wi evs o) as Hg by (by exists g, n1, n2).
  apply Render_inl in Hr as (cand & ct & _ & ->). rewrite order_of_forward.
  intros [Hk|Ha]; [done|]. by apply permitted_forward.
Qed.

Lemma live_inv_frame (st st' : LState) :
  live_inv wi P evs st -> St_world st' = St_world st -> St_tasks st' = St_tasks st ->
  live_inv wi P evs st'.
Proof. intros [] Hw Ht. split; rewrite ?Hw, ?Ht; done. Qed.

Lemma handle_live_inv g n1 n2 (st : LState) :
  EvDecision g n1 n2 ∈ evs -> live_inv wi P evs st ->
  live_inv wi P evs (handle (transport_of wi) g n1 n2 st).1.
Proof.
  intros Hin Hi.
  destruct (decide (Decision_Verdict (Governed_Decision g) = VerdictApproved)) as [Hv|Hv].
  2: { destruct (handle_other_frame (transport_of wi) g n1 n2 st Hv). by eapply live_inv_frame. }
  destruct (handle_approved_frame (transport_of wi) g n1 n2 st Hv) as [[-> _]|(o & Hr & Hw & Ht)]; [done|].
  destruct Hi as [HP Htk Hp Ha].
  destruct (gatedLive_inv o n2 (St_world st) (forward_permitted _ _ _ _ Hin Hr) Ha HP) as [HP' Hs].
  simpl in Hw. split; rewrite ?Hw, ?Hs; try done.
  intros t [?| ->]%Ht; [by apply Htk|]. by exists g, n1, n2.
Qed.

Lemma reversal_permitted o n :
  Granted wi evs o ->
  Permitted_run wi evs (Order_ContractRef (reversalOf o n)) (Order_Kind (reversalOf o n) =s OrderReversal)
    (Order_Parameters (reversalOf o n)) (Order_Notes (reversalOf o n)).
Proof. intros Hg. exact (permitted_reverse wi evs o Hg). Qed.

Lemma watchAndSettle_live_inv probe cancelled o nu ni n ne (st : LState) :
  Granted wi evs o -> live_inv wi P evs st ->
  live_inv wi P evs (watchAndSettle (transport_of wi) probe cancelled o nu ni n ne st).
Proof.
  intros Hg Hi. unfold watchAndSettle. destruct cancelled; [done|].
  set (conv := settle_outcome _ _ _ _).
  destruct (publish_outcome_frame conv st) as [Hw Ht].
  assert (live_inv wi P evs (record_log conv (publish_outcome conv st).1)) as Hi1
    by (by apply (live_inv_frame st)).
  rewrite Watch_Undo. destruct (Settlement_Fire _); [|done].
  destruct Hi1 as [HP Htk Hp Ha].
  destruct (gatedLive_inv (reversalOf o nu) ne _ (fun _ => reversal_permitted o nu Hg) Ha HP) as [HP' Hs].
  cbn [Tr_Exec transport_of] in *.
  destruct (gatedLive _ _ _ _) as [c' oc]. simpl in HP', Hs.
  set (st2 := set_world _ c').
  assert (live_inv wi P evs st2) as Hi2 by (split; simpl; rewrite ?Hs; done).
  clearbody st2.
  eapply (live_inv_frame st2); [done|..]; simpl;
    rewrite ?(proj1 (publish_outcome_frame _ _)), ?(proj2 (publish_outcome_frame _ _));
    apply publish_order_frame.
Qed.

Lemma watchAndAccept_live_inv f cancelled o ni n (st : LState) :
  Wi_Forge wi = Some f -> Granted wi evs o -> live_inv wi P evs st ->
  live_inv wi P evs (watchAndAccept (forge_probe f) cancelled o ni n st).
Proof.
  intros Hf Hg [HP Ht Hp Ha]. unfold watchAndAccept, Poll, forge_probe, recordAccept.
  destruct cancelled as [e|]; [by split|].
  pose proof (withdraw_ok f o _ Hf Hg HP) as HP'.
  destruct (f _ (lw_infra (St_world st))) as [r' res]. simpl in HP'.
  assert (live_inv wi P evs (set_world st (mkLiveWorld (lw_switch (St_world st)) r'))) as Hi
    by (by split).
  set (st2 := set_world st _) in *. clearbody st2. destruct res as [[]|e].
  - destruct Hi as [? Ht' ? ?]. split; try done. intros t. simpl.
    rewrite elem_of_app, list_elem_of_singleton. intros [?| ->]; [by apply Ht'|done].
  - eapply (live_inv_frame st2); [done|..]; simpl; apply publish_outcome_frame.
  - eapply (live_inv_frame st2); [done|..]; simpl; apply publish_outcome_frame.
Qed.

Lemma drop_task_live_inv i (st : LState) :
  live_inv wi P evs st -> live_inv wi P evs (drop_task i st).
Proof.
  intros [HP Ht Hp Ha]. split; try done. simpl. intros t ?%elem_of_delete_nth. by apply Ht.
Qed.

Lemma run_event_live_inv ev (st st' : LState) :
  ev ∈ evs -> live_inv wi P evs st -> run_event wi st ev = Some st' -> live_inv wi P evs st'.
Proof.
  intros Hin Hi. destruct ev as [g n1 n2|i cancelled nu ni n ne|i cancelled ni n|rf um|]; cbn [run_event].
  - intros [= <-]. by apply handle_live_inv.
  - destruct (St_tasks st !! i) as [[o|o]|] eqn:El; [|by intros [= <-]|by intros [= <-]].
    destruct (Tr_Reversal _) as [probe|]; [|done]. intros [= <-].
    apply watchAndSettle_live_inv; [|by apply drop_task_live_inv].
    apply list_elem_of_lookup_2 in El. apply (linv_tasks _ _ _ _ Hi _ El).
  - destruct (St_tasks st !! i) as [[o|o]|] eqn:El; [by intros [= <-]| |by intros [= <-]].
    pose proof watchAndAccept_live_inv as Hacc.
    simpl. destruct (Wi_Forge wi) as [f|] eqn:Ef; simpl; intros [= <-]; [|done].
    apply Hacc; [done| |by apply drop_task_live_inv].
    apply list_elem_of_lookup_2 in El. apply (linv_tasks _ _ _ _ Hi _ El).
  - intros [= <-]. destruct Hi as [HP Ht Hp Ha]. split; simpl; try done.
    + unfold Reload. by repeat case_match.
    + rewrite Reload_armed, Hp. intros (raw & Hr & Hu). by exists rf, um, raw.
  - intros [= <-]. destruct Hi as [HP Ht Hp Ha]. split; simpl; try done.
    intros t Ht'. by apply elem_of_nil in Ht'.
Qed.

Lemma run_live_inv pre (st st' : LState) :
  (forall ev, ev ∈ pre -> ev ∈ evs) -> live_inv wi P evs st -> run wi st pre = Some st' ->
  live_inv wi P evs st'.
Proof.
  revert st. induction pre as [|ev pre IH]; intros st Hsub Hi Hr; simpl in Hr; [by simplify_eq|].
  destruct (run_event wi st ev) as [st1|] eqn:E; [|done].
  eapply (IH st1); [|by eapply run_event_live_inv; [apply Hsub; left| |]|done].
  intros. apply Hsub. by right.
Qed.

End invariant.

End lifecycle.

(** ** Auditability of what is emitted *)

Section audit.
Context {WO WU WD WG R : Type}
  `{PublisherLaws WO Order} `{PublisherLaws WU Outcome}
  `{PublisherLaws WD Decision} `{PublisherLaws WG Governed}.
Abbreviation LState := (State (WO := WO) (WU := WU) (WD := WD) (WG := WG) (C := LiveWorld R)).

(** a real clock *)
Definition event_sane (ev : event) : Prop :=
  match ev with
  | EvDecision _ _ now2 => now2 <> 0
  | EvSettle _ _ _ _ now nowExec => now <> 0 /\ nowExec <> 0
  | EvAccept _ _ _ now => now <> 0
  | _ => True
  end.

Section run.
Context (evs : list event).

(** the reference of a decision that was delivered *)
Definition delivered_ref (ref : string) : Prop := exists g n1 n2, EvDecision g n1 n2 ∈ evs /\ ref = Decision_ID (Governed_Decision g).

(** it answers to a delivered decision, and stands an audit if that decision has an ID *)
Definition auditable (oc : Outcome) : Prop :=
  delivered_ref (Outcome_DecisionRef oc) /\ (Outcome_DecisionRef oc <> ""%string -> Outcome_Auditable oc = None).

Record audit_inv (st : LState) : Prop := {
  ainv_stream : Forall auditable (on_subject "thump.outcomes" (St_outcomes st));
  ainv_tasks : forall t, t ∈ St_tasks st -> delivered_ref (Order_DecisionRef (task_order t))
}.

Lemma publish_outcome_audit oc (st : LState) :
  auditable oc -> audit_inv st -> audit_inv (publish_outcome oc st).1.
Proof.
  intros Hoc [Hs Ht]. unfold publish_outcome. destruct (publish _ _ _) as [w e] eqn:Ep. split; simpl; [|done].
  apply on_subject_any in Ep as [->| ->]; [done|]. by apply Forall_app; auto.
Qed.

Lemma audit_frame (st st' : LState) :
  audit_inv st -> St_outcomes st' = St_outcomes st ->
  (forall t, t ∈ St_tasks st' -> t ∈ St_tasks st) -> audit_inv st'.
Proof. intros [Hs Ht] Ho Hsub. split; [by rewrite Ho|]. eauto. Qed.

Lemma record_log_audit oc (st : LState) : audit_inv st -> audit_inv (record_log oc st).
Proof. intros Hi. by apply (audit_frame st). Qed.

Lemma publish_order_audit o (st : LState) : audit_inv st -> audit_inv (publish_order o st).1.
Proof.
  intros Hi. unfold publish_order. destruct (publish _ _ _). simpl. by apply (audit_frame st).
Qed.

Lemma settle_outcome_auditable order s ni n :
  delivered_ref (Order_DecisionRef order) -> n <> 0 -> auditable (settle_outcome order s ni n).
Proof.
  intros Hd Hn. split; [exact Hd|]. intros Hid. apply Outcome_Auditable_None. simpl. unfold settleResult, settleError.
  destruct (Settlement_Converged s); repeat split; try done.
  - intros [Hx|Hx]; discriminate Hx.
  - intros _. by repeat case_match.
Qed.

Lemma accept_outcome_auditable order r text ni n :
  delivered_ref (Order_DecisionRef order) -> n <> 0 -> r <> ""%string -> text <> ""%string ->
  auditable (accept_outcome order r text ni n).
Proof. intros. split; [done|]. intros ?. by apply Outcome_Auditable_None. Qed.

Lemma gated_outcome_auditable (runner : ActionRunner R) o n c :
  runner_accountable runner -> delivered_ref (Order_DecisionRef o) -> n <> 0 -> auditable (gatedLive runner o n c).2.
Proof.
  intros Hr Hd Hn.
  assert (Outcome_DecisionRef (gatedLive runner o n c).2 = Order_DecisionRef o) as Href.
  { destruct (gatedLive runner o n c) as [c' oc] eqn:E.
    apply gatedLive_cases in E as [(_ & _ & _ & ->)|(_ & r' & res & _ & _ & ->)]; [done|by destruct res]. }
  split; rewrite Href; [done|]. intros Hid. by apply gatedLive_Auditable.
Qed.

Lemma handle_audit wi g n1 n2 (st : LState) :
  runner_accountable (Wi_Runner wi) -> EvDecision g n1 n2 ∈ evs -> n2 <> 0 ->
  audit_inv st -> audit_inv (handle (transport_of wi) g n1 n2 st).1.
Proof.
  intros Hr Hd Hn Hi. unfold handle.
  destruct (_ =s VerdictApproved).
  - destruct (Render g _ n1) as [o|e] eqn:Er; [|done].
    assert (delivered_ref (Order_DecisionRef o)) as Hdo.
    { apply Render_inl in Er as (? & ? & _ & ->). by exists g, n1, n2. }
    pose proof (gated_outcome_auditable (Wi_Runner wi) o n2 (St_world st) Hr Hdo Hn) as Hoc.
    cbn [Tr_Exec transport_of]. destruct (gatedLive _ _ _ _) as [c' oc]. simpl in Hoc.
    set (st2 := match watcher_for _ o oc with Some t => _ | None => _ end).
    assert (audit_inv st2) as Hi2.
    { destruct Hi as [Hs Ht]. subst st2. unfold watcher_for. repeat case_match; simplify_eq/=; split; simpl;
        try done; intros t; rewrite elem_of_app, list_elem_of_singleton; intros [?| ->]; auto. }
    clearbody st2. pose proof (publish_order_audit o st2 Hi2) as Hi3.
    destruct (publish_order o st2) as [st3 [e|]]; [done|]. simpl in Hi3.
    pose proof (publish_outcome_audit oc st3 Hoc Hi3) as Hi4.
    destruct (publish_outcome oc st3) as [st4 [e|]]; [done|by apply record_log_audit].
  - assert (forall g' (s : LState), audit_inv s -> audit_inv (notify (transport_of wi) g' s).1) as Hnot.
    { intros g' s Hs. unfold notify. repeat case_match; try done. by apply (audit_frame s). }
    unfold publish_held, publish_decline.
    destruct (_ =s VerdictHold); destruct (publish _ _ _) as [w [e|]]; simpl; try apply Hnot;
      by apply (audit_frame st).
Qed.

Lemma drop_task_subset i (st : LState) t : t ∈ St_tasks (drop_task i st) -> t ∈ St_tasks st.
Proof. apply elem_of_delete_nth. Qed.

Lemma run_event_audit wi ev (st st' : LState) :
  runner_accountable (Wi_Runner wi) -> ev ∈ evs -> event_sane ev -> audit_inv st ->
  run_event wi st ev = Some st' -> audit_inv st'.
Proof.
  intros Hr Hin Hev Hi.
  assert (forall i, audit_inv (drop_task i st)) as Hdrop.
  { intros i. apply (audit_frame st); [done..|]. intros t. apply drop_task_subset. }
  destruct ev as [g n1 n2|i cancelled nu ni n ne|i cancelled ni n|rf um|]; cbn [run_event] in *.
  - intros [= <-]. by apply handle_audit.
  - destruct (St_tasks st !! i) as [[o|o]|] eqn:El; [|by intros [= <-]..].
    destruct (Tr_Reversal _) as [probe|]; [|done]. intros [= <-].
    apply list_elem_of_lookup_2, (ainv_tasks _ Hi) in El. simpl in El. destruct Hev as [Hn Hne].
    unfold watchAndSettle. destruct cancelled; [done|].
    set (conv := settle_outcome _ _ _ _). set (st1 := record_log conv _).
    assert (audit_inv st1) as Hi1
      by (by apply record_log_audit, publish_outcome_audit; [apply settle_outcome_auditable|]).
    rewrite Watch_Undo. destruct (Settlement_Fire _); [|done]. clearbody st1.
    pose proof (gated_outcome_auditable (Wi_Runner wi) (reversalOf o nu) ne (St_world st1) Hr El Hne) as Hoc.
    cbn [Tr_Exec transport_of]. destruct (gatedLive _ _ _ _) as [c' oc]. simpl in Hoc.
    apply record_log_audit, publish_outcome_audit; [done|]. apply publish_order_audit.
    by apply (audit_frame st1).
  - destruct (St_tasks st !! i) as [[o|o]|] eqn:El; [by intros [= <-]| |by intros [= <-]].
    destruct (Tr_Acceptance _) as [probe|]; intros [= <-]; [|done].
    apply list_elem_of_lookup_2, (ainv_tasks _ Hi) in El. simpl in El.
    unfold watchAndAccept, recordAccept. destruct (Poll _ _ _ _) as [c' res].
    set (st1 := set_world _ c'). assert (audit_inv st1) as Hi1 by (by apply (audit_frame (drop_task i st))).
    destruct cancelled; [done|]. destruct res as [[]|e].
    + destruct Hi1 as [Hs Ht]. split; [done|]. simpl. intros t.
      rewrite elem_of_app, list_elem_of_singleton. intros [?| ->]; [by apply Ht|done].
    + apply record_log_audit, publish_outcome_audit; [|done]. apply accept_outcome_auditable; try done.
      unfold acceptanceError. by case_match.
    + by apply record_log_audit, publish_outcome_audit; [apply accept_outcome_auditable|].
  - intros [= <-]. by apply (audit_frame st).
  - intros [= <-]. apply (audit_frame st); [done..|]. intros t Ht. by apply elem_of_nil in Ht.
Qed.

End run.

End audit.

(** ** Claims *)

Section claims.
Context {WO WU WD WG R : Type}
  `{PublisherLaws WO Order} `{PublisherLaws WU Outcome}
  `{PublisherLaws WD Decision} `{PublisherLaws WG Governed}.
Abbreviation LState := (State (WO := WO) (WU := WU) (WD := WD) (WG := WG) (C := LiveWorld R)).

(** C5. Nothing reaches the infrastructure but what was granted: along any run
    of the live beat (decisions, settling watchers, acceptance polls, reloads
    and restarts, in any order), every property of the infrastructure that the
    permitted runner calls and the withdrawal of granted releases preserve is
    preserved by the beat.  A permitted call is the forward action of an order
    rendered from a delivered approval, with exactly its catalogued parameters,
    made after some reload armed the kill switch; or the undo of such an order,
    with no parameters at all. *)
Theorem only_granted_actions_run (wi : Wiring) (P : R -> Prop) (evs : list event)
  (wo : WO) (wu : WU) (wd : WD) (wg : WG) (r : R) (st' : LState) :
  (forall ref rev params notes r,
     Permitted_run wi evs ref rev params notes -> P r -> P (Wi_Runner wi ref rev params notes r).1) ->
  (forall f o r, Wi_Forge wi = Some f -> Granted wi evs o -> P r -> P (f (Order_ContractRef o) r).1) ->
  P r -> run wi (start wi wo wu wd wg r) evs = Some st' ->
  P (lw_infra (St_world st')).
Proof.
  intros Hrun Hw HP Hr. eapply linv_infra, (run_live_inv wi P evs Hrun Hw evs); [done| |exact Hr].
  split; simpl; try done. intros t Ht. by apply elem_of_nil in Ht.
Qed.

(** [handle] routes each verdict to its own streams and acts on approvals
    only.  An approval that renders is executed once, and a nil error means its
    order and its outcome were both published and logged; one that does not
    render changes nothing and reports [ErrRenderFailed].  A hold goes to
    thump.held alone, every other verdict to thump.declines alone, and neither
    touches the infrastructure, the orders, the outcomes or the watchers. *)
Theorem handle_routes_verdicts (tr : Transport) (g : Governed) (n1 n2 : Time) (st st' : LState) e :
  handle tr g n1 n2 st = (st', e) ->
  let d := Governed_Decision g in
  (Decision_Verdict d = VerdictApproved ->
     match Render g (Tr_Catalog tr) n1 with
     | inr er => st' = st /\ exists er', e = Some er' /\ errors_Is er' ErrRenderFailed = true
     | inl o =>
         St_world st' = (Tr_Exec tr o n2 (St_world st)).1 /\
         St_declines st' = St_declines st /\ St_held st' = St_held st /\
         (e = None ->
          let oc := (Tr_Exec tr o n2 (St_world st)).2 in
          on_subject "thump.orders" (St_orders st') = on_subject "thump.orders" (St_orders st) ++ [o] /\
          on_subject "thump.outcomes" (St_outcomes st')
            = on_subject "thump.outcomes" (St_outcomes st) ++ [oc] /\
          Log_items (St_log st') = Log_items (St_log st) ++ [oc])
     end) /\
  (Decision_Verdict d <> VerdictApproved ->
     St_world st' = St_world st /\ St_orders st' = St_orders st /\ St_outcomes st' = St_outcomes st /\
     St_tasks st' = St_tasks st /\
     (e = None ->
      if Decision_Verdict d =s VerdictHold then
        on_subject "thump.held" (St_held st') = on_subject "thump.held" (St_held st) ++ [g] /\
        St_declines st' = St_declines st
      else
        on_subject "thump.declines" (St_declines st')
          = on_subject "thump.declines" (St_declines st) ++ [d] /\
        St_held st' = St_held st)).
Proof.
  intros Hrun d. unfold handle in Hrun. fold d in Hrun. split; intros Hv.
  - rewrite Hv, seqb_refl in Hrun. destruct (Render g _ n1) as [o|er]; [|simplify_eq; eauto].
    destruct (Tr_Exec tr o n2 (St_world st)) as [c' oc]. unfold publish_order, publish_outcome in Hrun.
    repeat case_match; simplify_eq/=; repeat split; try done;
      by erewrite on_subject_ok.
  - rewrite (proj2 (String.eqb_neq _ _) Hv) in Hrun.
    unfold publish_held, publish_decline, notify in Hrun.
    destruct (Decision_Verdict d =s VerdictHold); repeat case_match; simplify_eq/=; repeat split; try done;
      by erewrite on_subject_ok.
Qed.

(** C30. Everything thump says about an action answers for it: along any run with a real
    clock from an empty thump.outcomes, over a runner that reports a result or an error text,
    every outcome on thump.outcomes (forward, blocked, settled, acceptance and undo alike) carries the ID of a
    decision that was delivered to it, and passes [Outcome.Auditable] exactly when that ID is
    not empty; thump itself never asks whether it is. *)
Theorem emitted_outcomes_auditable (wi : Wiring) (evs : list event)
  (wo : WO) (wu : WU) (wd : WD) (wg : WG) (r : R) (st' : LState) :
  runner_accountable (Wi_Runner wi) -> Forall event_sane evs ->
  on_subject "thump.outcomes" wu = [] ->
  run wi (start wi wo wu wd wg r) evs = Some st' ->
  forall oc, oc ∈ on_subject "thump.outcomes" (St_outcomes st') ->
    exists g n1 n2, EvDecision g n1 n2 ∈ evs /\ Outcome_DecisionRef oc = Decision_ID (Governed_Decision g) /\
      (Outcome_Auditable oc = None <-> Decision_ID (Governed_Decision g) <> ""%string).
Proof.
  intros Hr Hevs Hwu Hrun.
  assert (Forall (auditable evs) (on_subject "thump.outcomes" (St_outcomes st'))) as Ha.
  { assert (audit_inv evs (start wi wo wu wd wg r)) as Hi.
    { split; simpl; [rewrite Hwu; by constructor|]. intros t Ht. by apply elem_of_nil in Ht. }
    assert (forall pre st, (forall ev, ev ∈ pre -> ev ∈ evs) -> Forall event_sane pre -> audit_inv evs st -> run wi st pre = Some st' -> audit_inv evs st') as Hgo;
      [|exact (ainv_stream evs st' (Hgo evs _ (fun ev H => H) Hevs Hi Hrun))].
    clear Hwu Hevs Hi Hrun. intros pre. induction pre as [|ev pre IH]; intros st Hsub Hs Hi Hrun; simpl in Hrun; [by simplify_eq|].
    apply Forall_cons_iff in Hs as [Hev Hs]. destruct (run_event wi st ev) as [st1|] eqn:E; [|done].
    eapply IH; [|exact Hs| |exact Hrun]; [intros; apply Hsub; by right|]. eapply (run_event_audit evs wi ev st st1); [exact Hr|apply Hsub; left|exact Hev|exact Hi|exact E]. }
  intros oc Hoc. rewrite list.Forall_forall in Ha. destruct (Ha oc Hoc) as [(g & n1 & n2 & Hin & Href) Hau].
  exists g, n1, n2. split; [done|]. split; [done|]. rewrite <- Href. split; [|done]. by intros [? _]%Outcome_Auditable_None.
Qed.

(** An accepted release crashes a beat that has a forge but no convergence
    probe: [watchAndAccept] goes on to [watchAndSettle] whether or not
    [Reversal] is wired, and the watch is then a call through a nil pointer.
    (PROM_URL, which wires it, and the forge are optional independently.) *)
Theorem accepted_release_needs_probe (wi : Wiring) (st : LState) (o : Order) (f : ReleaseProbe R) r'
  ni n cancelled nu ni' n' ne :
  Wi_Probe wi = None -> Wi_Forge wi = Some f -> St_tasks st = [TaskAccept o] ->
  f (Order_ContractRef o) (lw_infra (St_world st)) = (r', inl true) ->
  run wi st [EvAccept 0 None ni n; EvSettle 0 cancelled nu ni' n' ne] = None.
Proof.
  intros Hp Hf Ht Hw. simpl. rewrite Ht, Hf. simpl.
  unfold watchAndAccept, Poll, forge_probe. simpl. rewrite Hw. simpl. by rewrite Ht, Hp.
Qed.

End claims.

(** ** Witnesses: a runner that logs its calls *)

Definition log_runner : ActionRunner (list (string * bool)) :=
  fun ref rev _ _ l => (l ++ [(ref, rev)], inl ResultApplied).

Definition demo_wiring : Wiring (R := list (string * bool)) :=
  mkWiring demo_catalog log_runner (Some (fun _ _ => (false, None))) (Some (fun _ l => (l, inl true)))
    None "/etc/thump/killswitch".

Definition demo_start : State (WO := MemPub Order) (WU := MemPub Outcome) (WD := MemPub Decision)
    (WG := MemPub Governed) (C := LiveWorld (list (string * bool))) :=
  start demo_wiring (mkMemPub [] 0) (mkMemPub [] 0) (mkMemPub [] 0) (mkMemPub [] 0) [].

Definition demo_events : list event :=
  [EvReload (fun _ => inl "armed: true"%string) (fun _ => inl true);
   EvDecision demo_governed 6 7; EvSettle 0 false 8 9 10 11].

Lemma only_granted_actions_run_witness :
  exists st', run demo_wiring demo_start demo_events = Some st' /\
    lw_infra (St_world st') = [("acme-shed-load"%string, false); ("acme-shed-load"%string, true)] /\
    Forall (fun c => c.1 = "acme-shed-load"%string) (lw_infra (St_world st')).
Proof.
  eexists. split; [reflexivity|]. split; [vm_compute; reflexivity|].
  apply (only_granted_actions_run demo_wiring (Forall (fun c => c.1 = "acme-shed-load"%string))
           demo_events (mkMemPub [] 0 : MemPub Order) (mkMemPub [] 0 : MemPub Outcome)
           (mkMemPub [] 0 : MemPub Decision) (mkMemPub [] 0 : MemPub Governed) []).
  - assert (forall o, Granted demo_wiring demo_events o -> Order_ContractRef o = "acme-shed-load"%string) as Hg.
    { intros o (g & n1 & n2 & Hin & Hr). unfold demo_events in Hin.
      repeat (apply elem_of_cons in Hin as [Hin|Hin]; [try discriminate Hin|]);
        [|by apply elem_of_nil in Hin].
      injection Hin as -> -> ->. vm_compute in Hr. by injection Hr as <-. }
    intros ref rev params notes l Hp Hl. apply Forall_app. split; [done|].
    constructor; [|constructor]. destruct Hp; by apply Hg.
  - intros f o l [= <-] _ Hl. exact Hl.
  - constructor.
  - reflexivity.
Defined.

Lemma handle_routes_verdicts_witness :
  let st' := (handle (transport_of demo_wiring) demo_governed 6 7 demo_start).1 in
  on_subject "thump.orders" (St_orders st')
  = on_subject "thump.orders" (St_orders demo_start) ++ [order_of demo_governed demo_candidate demo_contract 6].
Proof.
  intros st'.
  destruct (handle_routes_verdicts (transport_of demo_wiring) demo_governed 6 7 demo_start st' None)
    as [Ha _]; [vm_compute; reflexivity|].
  specialize (Ha ltac:(vm_compute; reflexivity)).
  replace (Render demo_governed (Tr_Catalog (transport_of demo_wiring)) 6)
    with (inl (order_of demo_governed demo_candidate demo_contract 6) : result Order) in Ha
    by (vm_compute; reflexivity).
  destruct Ha as (_ & _ & _ & Ha). exact (proj1 (Ha eq_refl)).
Defined.

Lemma emitted_outcomes_auditable_witness :
  exists st', run demo_wiring demo_start demo_events = Some st' /\
    map Outcome_Result (on_subject "thump.outcomes" (St_outcomes st'))
      = [ResultApplied; ResultPartialNonConverging; ResultApplied] /\
    forall oc, oc ∈ on_subject "thump.outcomes" (St_outcomes st') ->
      exists g n1 n2, EvDecision g n1 n2 ∈ demo_events /\ Outcome_DecisionRef oc = Decision_ID (Governed_Decision g) /\
        (Outcome_Auditable oc = None <-> Decision_ID (Governed_Decision g) <> ""%string).
Proof.
  eexists. split; [reflexivity|]. split; [vm_compute; reflexivity|].
  apply (emitted_outcomes_auditable demo_wiring demo_events (mkMemPub [] 0 : MemPub Order)
           (mkMemPub [] 0 : MemPub Outcome) (mkMemPub [] 0 : MemPub Decision)
           (mkMemPub [] 0 : MemPub Governed) []); [| |reflexivity|reflexivity].
  - intros ref rev params notes c c' res Hr. injection Hr as _ <-. by left.
  - unfold demo_events. repeat constructor; done.
Defined.

Lemma accepted_release_needs_probe_witness :
  let wi := mkWiring demo_catalog log_runner None (Some (fun _ l => (l, inl true))) None "" in
  let o := order_of demo_governed demo_candidate demo_contract 6 in
  let st := spawn demo_start (TaskAccept o) in
  run wi st [EvAccept 0 None 8 8; EvSettle 0 false 9 9 9 9] = None.
Proof.
  intros wi o st.
  apply (accepted_release_needs_probe wi st o (fun _ l => (l, inl true)) []); reflexivity.
Defined.
