(* ===== verification/Actuate.v ===== *)
(** * internal/actuate: the imperative shell

    The mapping from an authored contract to the mutations its runner performs:
    [mechanismFor], [opFor], [bindingFor] and [bind] (binding.go), the
    operations and [Runner.Run] (runner.go), and [firstRunning] (kube.go).  The
    cluster and the forge are the records [Kube] and [Forge] of operations on a
    world [C]; encoding/json is the pair [json_Unmarshal]/[json_Marshal] on
    JSON trees. *)

From S2P Require Import Prelude GoTime GoFloat Api Contract Hiss ThumpExec.
Local Open Scope Z_scope.

(** ** JSON documents: what [map[string]any] holds after decoding *)

Inductive json : Type :=
| JNull
| JBool (b : bool)
| JNum (x : float64)
| JInt (n : Z)
| JStr (s : string)
| JArr (l : list json)
| JObj (m : gmap string json).

Definition ErrUnbindable : error := errors_New "actuate: contract names no executable mechanism".

(** [forge.Release] *)
Record Release : Type := mkRelease {
  Release_Key : string;
  Release_Path : string;
  Release_Content : string;
  Release_Notes : string
}.

(** the closed set of mutations *)
Inductive operation : Type :=
| execOp (namespace selector : string) (command : list string)
| flagVariantOp (namespace configMap dataKey flag variant : string)
| restartOp (namespace deployment : string)
| maintenanceReleaseOp (path flag variant : string)
| scaleOp (namespace deployment : string) (replicas : Z)
| seqOp (ops : list operation).

Record binding : Type := mkBinding { binding_forward : operation; binding_reverse : operation }.

(** ** binding.go *)

Definition unbindable (what : string) : result operation := inr (errorf_w what ErrUnbindable).

Definition mechanismFor (s : Step) (forgeWired : bool) : result operation :=
  if Step_Verb s =s "exec" then
    if (Step_Namespace s =s "") || (Step_Selector s =s "") || Nat.eqb (length (Step_Command s)) 0
    then unbindable "exec needs namespace, selector and command: "
    else inl (execOp (Step_Namespace s) (Step_Selector s) (Step_Command s))
  else if Step_Verb s =s "scale" then
    if (Step_Namespace s =s "") || (Step_Deployment s =s "")
    then unbindable "scale needs namespace, deployment and replicas: "
    else match Step_Replicas s with
         | None => unbindable "scale needs namespace, deployment and replicas: "
         | Some n => inl (scaleOp (Step_Namespace s) (Step_Deployment s) n)
         end
  else if Step_Verb s =s "restart" then
    if (Step_Namespace s =s "") || (Step_Deployment s =s "")
    then unbindable "restart needs namespace and deployment: "
    else inl (restartOp (Step_Namespace s) (Step_Deployment s))
  else if Step_Verb s =s "flagVariant" then
    if (Step_Namespace s =s "") || (Step_ConfigMap s =s "") || (Step_DataKey s =s "")
       || (Step_Flag s =s "") || (Step_Variant s =s "")
    then unbindable "flagVariant needs namespace, configMap, dataKey, flag and variant: "
    else inl (flagVariantOp (Step_Namespace s) (Step_ConfigMap s) (Step_DataKey s) (Step_Flag s) (Step_Variant s))
  else if Step_Verb s =s "maintenanceRelease" then
    if negb forgeWired
    then unbindable "maintenanceRelease needs a GitOps source of record - set FORGE_REPO and FORGE_TOKEN: "
    else if (Step_Path s =s "") || (Step_Flag s =s "") || (Step_Variant s =s "")
    then unbindable "maintenanceRelease needs path, flag, and variant: "
    else inl (maintenanceReleaseOp (Step_Path s) (Step_Flag s) (Step_Variant s))
  else unbindable ("verb " +:+ fmt_q (Step_Verb s) +:+ " has no mechanism: ").

(** the loop of [opFor] from step number [i] on *)
Fixpoint opsFor (i : Z) (steps : list Step) (forgeWired : bool) : result (list operation) :=
  match steps with
  | [] => inl []
  | s :: steps' =>
      match mechanismFor s forgeWired with
      | inr e => inr (errorf_w ("step " +:+ fmt_d i +:+ ": ") e)
      | inl op => match opsFor (Z.succ i) steps' forgeWired with
                  | inr e => inr e
                  | inl ops => inl (op :: ops)
                  end
      end
  end.

Definition opFor (steps : list Step) (forgeWired : bool) : result operation :=
  match steps with
  | [] => unbindable "no steps authored: "
  | [s] => mechanismFor s forgeWired
  | _ => match opsFor 1 steps forgeWired with
         | inr e => inr e
         | inl ops => inl (seqOp ops)
         end
  end.

Definition bindingFor (c : ActionContract) (forgeWired : bool) : result binding :=
  match opFor (Execution_Forward (AC_Execution c)) forgeWired with
  | inr e => inr (errorf_w ("contract " +:+ fmt_q (AC_Name c) +:+ " forward: ") e)
  | inl fwd =>
      match opFor (Execution_Reverse (AC_Execution c)) forgeWired with
      | inr e => inr (errorf_w ("contract " +:+ fmt_q (AC_Name c) +:+ " reverse: ") e)
      | inl rev => inl (mkBinding fwd rev)
      end
  end.

Fixpoint bind_all (cs : list ActionContract) (forgeWired : bool) (out : gmap string binding)
  : result (gmap string binding) :=
  match cs with
  | [] => inl out
  | c :: cs' => match bindingFor c forgeWired with
                | inr e => inr e
                | inl b => bind_all cs' forgeWired (<[AC_Name c := b]> out)
                end
  end.

Definition bind (cat : StaticCatalog) (forgeWired : bool) : result (gmap string binding) :=
  bind_all (Contracts cat) forgeWired ∅.

(** ** runner.go *)

Definition actuateTimeout : Duration := 20 * Second.

Definition releaseKey (ref : string) (reverse : bool) : string :=
  if reverse then ref +:+ ":revert" else ref.

Definition resultOf (op : operation) : Result :=
  (fix go (op : operation) : Result :=
     match op with
     | maintenanceReleaseOp _ _ _ => ResultProposed
     | seqOp ops =>
         (fix last (l : list operation) : Result :=
            match l with
            | [] => ResultApplied
            | [o] => go o
            | _ :: l' => last l'
            end) ops
     | _ => ResultApplied
     end) op.

Section runner.
Context {C : Type}.

(** the apiserver seam; [Patch] takes the document its bytes encode *)
Record Kube : Type := mkKube {
  Kube_Exec : string -> string -> list string -> C -> C * option error;
  Kube_Patch : string -> string -> string -> string -> string -> json -> C -> C * option error;
  Kube_GetConfigMapKey : string -> string -> string -> C -> result string
}.

Record Forge : Type := mkForge {
  Forge_Read : string -> C -> result string;
  Forge_Cut : Release -> C -> C * result string;
  Forge_Withdraw : string -> C -> C * result bool
}.

(** encoding/json on objects, and the formatted clock a restart is stamped with *)
Record Codec : Type := mkCodec {
  json_Unmarshal : string -> result (gmap string json);
  json_Marshal : gmap string json -> result string;
  now_RFC3339 : string
}.

Record Runner : Type := mkRunner {
  Runner_kube : Kube;
  Runner_forge : option Forge;
  Runner_bindings : gmap string binding;
  Runner_timeout : Duration
}.

Record dispatch : Type := mkDispatch {
  dispatch_kube : Kube;
  dispatch_forge : option Forge;
  dispatch_ref : string;
  dispatch_reverse : bool;
  dispatch_notes : string
}.

(** [parsed["flags"].(map[string]any)]: a nil map when absent or not an object *)
Definition flags_of (parsed : gmap string json) : gmap string json :=
  match parsed !! "flags" with Some (JObj flags) => flags | _ => ∅ end.

Definition setDefaultVariant (cd : Codec) (doc flag variant : string) : result string :=
  match json_Unmarshal cd doc with
  | inr e => inr (errorf_w "parse flagd document: " e)
  | inl parsed =>
      match flags_of parsed !! flag with
      | Some (JObj def) =>
          json_Marshal cd
            (<["flags" := JObj (<[flag := JObj (<["defaultVariant" := JStr variant]> def)]> (flags_of parsed))]>
               parsed)
      | _ => inr (errors_New ("flag " +:+ fmt_q flag +:+ " not defined in flagd document"))
      end
  end.

Definition flagVariant_do (cd : Codec) (namespace configMap dataKey flag variant : string) (k : Kube) (c : C)
  : C * option error :=
  let where_ := namespace +:+ "/" +:+ configMap +:+ "[" +:+ dataKey +:+ "]: " in
  match Kube_GetConfigMapKey k namespace configMap dataKey c with
  | inr e => (c, Some (errorf_w ("read " +:+ where_) e))
  | inl current =>
      match setDefaultVariant cd current flag variant with
      | inr e => (c, Some (errorf_w where_ e))
      | inl updated =>
          Kube_Patch k "" "v1" "configmaps" namespace configMap
            (JObj {[ "data" := JObj {[ dataKey := JStr updated ]} ]}) c
      end
  end.

Definition restart_patch (stamp : string) : json :=
  JObj {[ "spec" := JObj {[ "template" := JObj {[ "metadata" := JObj {[ "annotations" :=
    JObj {[ "thump.io/restartedAt" := JStr stamp ]} ]} ]} ]} ]}.

Definition scale_patch (replicas : Z) : json := JObj {[ "spec" := JObj {[ "replicas" := JInt replicas ]} ]}.

Definition maintenanceRelease_do (cd : Codec) (path flag variant : string) (d : dispatch) (c : C)
  : C * option error :=
  match dispatch_forge d with
  | None => (c, Some (errorf_w ("no forge wired for " +:+ path +:+ ": ") ErrUnbindable))
  | Some f =>
      match Forge_Read f path c with
      | inr e => (c, Some (errorf_w ("read " +:+ path +:+ ": ") e))
      | inl current =>
          match setDefaultVariant cd current flag variant with
          | inr e => (c, Some (errorf_w ("read " +:+ path +:+ ": ") e))
          | inl updated =>
              let '(c', res) := Forge_Cut f
                (mkRelease (releaseKey (dispatch_ref d) (dispatch_reverse d)) path updated (dispatch_notes d)) c in
              (c', match res with inl _ => None | inr e => Some e end)
          end
      end
  end.

(** [operation.do], every case *)
Fixpoint do_op (cd : Codec) (op : operation) (d : dispatch) (c : C) : C * option error :=
  match op with
  | execOp ns sel cmd => Kube_Exec (dispatch_kube d) ns sel cmd c
  | flagVariantOp ns cm key flag variant => flagVariant_do cd ns cm key flag variant (dispatch_kube d) c
  | restartOp ns dep =>
      Kube_Patch (dispatch_kube d) "apps" "v1" "deployments" ns dep (restart_patch (now_RFC3339 cd)) c
  | maintenanceReleaseOp path flag variant => maintenanceRelease_do cd path flag variant d c
  | scaleOp ns dep n => Kube_Patch (dispatch_kube d) "apps" "v1" "deployments" ns dep (scale_patch n) c
  | seqOp ops =>
      (fix seq (l : list operation) (c : C) : C * option error :=
         match l with
         | [] => (c, None)
         | o :: l' => match do_op cd o d c with
                      | (c', Some e) => (c', Some e)
                      | (c', None) => seq l' c'
                      end
         end) ops c
  end.

Definition newWithTimeout (k : Kube) (cat : StaticCatalog) (timeout : Duration) (f : option Forge)
  : result Runner :=
  match bind cat (is_some f) with
  | inr e => inr e
  | inl b => inl (mkRunner k f b timeout)
  end.

Definition NewWithKube (k : Kube) (cat : StaticCatalog) (f : option Forge) : result Runner :=
  newWithTimeout k cat actuateTimeout f.

(** [Runner.Run], as the [ActionRunner] thump drives *)
Definition Run (cd : Codec) (r : Runner) : ActionRunner C :=
  fun ref reverse _ notes c =>
    match Runner_bindings r !! ref with
    | None => (c, inr (errors_New ("actuate: ref " +:+ fmt_q ref +:+ " is not bound to an action")))
    | Some b =>
        let op := if reverse then binding_reverse b else binding_forward b in
        let d := mkDispatch (Runner_kube r) (Runner_forge r) ref reverse notes in
        match do_op cd op d c with
        | (c', Some e) => (c', inr (errorf_w ("actuate: " +:+ ref +:+ " (reverse=" +:+ fmt_t reverse +:+ "): ") e))
        | (c', None) => (c', inl (resultOf op))
        end
    end.

End runner.

(** ** kube.go: [firstRunning] over (name, phase, container names) *)

Record Pod : Type := mkPod { Pod_Name : string; Pod_Phase : string; Pod_Containers : list string }.

Fixpoint firstRunning (pods : list Pod) : result (string * string) :=
  match pods with
  | [] => inr (errors_New "no running pod matched selector")
  | p :: pods' =>
      if Pod_Phase p <>s "Running" then firstRunning pods'
      else match Pod_Containers p with
           | [] => firstRunning pods'
           | c :: _ => inl (Pod_Name p, c)
           end
  end.

(** ** Specification: the steps that name a reachable mechanism *)

Inductive Executable (forgeWired : bool) (s : Step) : operation -> Prop :=
| exe_exec :
    Step_Verb s = "exec"%string -> Step_Namespace s <> ""%string -> Step_Selector s <> ""%string ->
    Step_Command s <> [] ->
    Executable forgeWired s (execOp (Step_Namespace s) (Step_Selector s) (Step_Command s))
| exe_scale n :
    Step_Verb s = "scale"%string -> Step_Namespace s <> ""%string -> Step_Deployment s <> ""%string ->
    Step_Replicas s = Some n ->
    Executable forgeWired s (scaleOp (Step_Namespace s) (Step_Deployment s) n)
| exe_restart :
    Step_Verb s = "restart"%string -> Step_Namespace s <> ""%string -> Step_Deployment s <> ""%string ->
    Executable forgeWired s (restartOp (Step_Namespace s) (Step_Deployment s))
| exe_flag :
    Step_Verb s = "flagVariant"%string -> Step_Namespace s <> ""%string -> Step_ConfigMap s <> ""%string ->
    Step_DataKey s <> ""%string -> Step_Flag s <> ""%string -> Step_Variant s <> ""%string ->
    Executable forgeWired s
      (flagVariantOp (Step_Namespace s) (Step_ConfigMap s) (Step_DataKey s) (Step_Flag s) (Step_Variant s))
| exe_release :
    Step_Verb s = "maintenanceRelease"%string -> forgeWired = true -> Step_Path s <> ""%string ->
    Step_Flag s <> ""%string -> Step_Variant s <> ""%string ->
    Executable forgeWired s (maintenanceReleaseOp (Step_Path s) (Step_Flag s) (Step_Variant s)).

Definition executable_steps (forgeWired : bool) (steps : list Step) : Prop :=
  steps <> [] /\ Forall (fun s => exists op, Executable forgeWired s op) steps.

(** ** Lemmas *)

Lemma mechanismFor_inl s fw op : mechanismFor s fw = inl op <-> Executable fw s op.
Proof.
  unfold mechanismFor, unbindable. split.
  - intros H. repeat match goal with
    | H : (if (?a =s ?b) then _ else _) = inl _ |- _ => destruct (a =s b) eqn:?
    end; repeat case_match; simplify_eq; bsplit; try (by constructor).
    apply exe_exec; try done. intros Hn. rewrite Hn in *. done.
  - assert (forall x, x <> ""%string -> (x =s "") = false) as Hne by (intros; by apply String.eqb_neq).
    destruct 1 as [Hv ? ? Hc|n Hv ? ? Hn|Hv|Hv|Hv Hf]; rewrite Hv; simpl; rewrite ?Hne by done; simpl; try done.
    + by destruct (Step_Command s).
    + by rewrite Hn.
    + rewrite Hf. simpl. by rewrite ?Hne by done.
Qed.

Lemma mechanismFor_inr s fw e : mechanismFor s fw = inr e -> errors_Is e ErrUnbindable = true.
Proof. unfold mechanismFor, unbindable. intros H. by repeat case_match; simplify_eq. Qed.

Lemma opsFor_inl i steps fw ops :
  opsFor i steps fw = inl ops <-> Forall2 (Executable fw) steps ops.
Proof.
  revert i ops. induction steps as [|s steps IH]; intros i ops; simpl.
  - split; [intros; simplify_eq; constructor|]. by inversion 1.
  - split.
    + intros H. destruct (mechanismFor s fw) as [op|] eqn:Em; [|done].
      destruct (opsFor _ steps fw) as [ops'|] eqn:Eo; [|done]. simplify_eq.
      constructor; [by apply mechanismFor_inl|by eapply IH].
    + inversion 1 as [|? op ? ops' Hx Ht]; subst. apply mechanismFor_inl in Hx.
      rewrite Hx. rewrite (proj2 (IH (Z.succ i) ops') Ht). done.
Qed.

Lemma opsFor_inr i steps fw e : opsFor i steps fw = inr e -> errors_Is e ErrUnbindable = true.
Proof.
  revert i. induction steps as [|s steps IH]; intros i; simpl; [done|].
  destruct (mechanismFor s fw) eqn:Em; intros H.
  - destruct (opsFor _ steps fw) eqn:Eo; simplify_eq. eauto.
  - simplify_eq. by apply mechanismFor_inr in Em.
Qed.

Lemma Forall2_exists {A B} (R : A -> B -> Prop) (l : list A) :
  (exists k, Forall2 R l k) <-> Forall (fun x => exists y, R x y) l.
Proof.
  split.
  - intros [k Hk]. induction Hk; constructor; eauto.
  - induction 1 as [|x l [y Hy] _ [k Hk]]; [exists []; constructor|exists (y :: k); by constructor].
Qed.

Lemma opFor_ok steps fw : (exists op, opFor steps fw = inl op) <-> executable_steps fw steps.
Proof.
  unfold executable_steps, opFor. destruct steps as [|s [|s' steps]].
  - split; [by intros []|by intros []].
  - rewrite list.Forall_singleton. setoid_rewrite mechanismFor_inl. naive_solver.
  - rewrite <- Forall2_exists. setoid_rewrite <- (opsFor_inl 1). split.
    + intros [op Ho]. destruct (opsFor 1 _ fw) eqn:E; [|done]. split; [done|eauto].
    + intros [_ [ops Ho]]. rewrite Ho. eauto.
Qed.

Lemma opFor_inr steps fw e : opFor steps fw = inr e -> errors_Is e ErrUnbindable = true.
Proof.
  unfold opFor, unbindable. destruct steps as [|s [|s' steps]].
  - intros. by simplify_eq.
  - apply mechanismFor_inr.
  - destruct (opsFor 1 _ fw) eqn:E; intros; simplify_eq. by eapply opsFor_inr.
Qed.

Definition executable_contract (fw : bool) (c : ActionContract) : Prop :=
  executable_steps fw (Execution_Forward (AC_Execution c)) /\
  executable_steps fw (Execution_Reverse (AC_Execution c)).

Lemma bindingFor_ok c fw : (exists b, bindingFor c fw = inl b) <-> executable_contract fw c.
Proof.
  unfold bindingFor, executable_contract. rewrite <- !opFor_ok. split.
  - intros [b Hb]. destruct (opFor _ fw) eqn:?; [|done]. destruct (opFor (Execution_Reverse _) fw) eqn:?; [|done]. eauto.
  - intros [[? ->] [? ->]]. eauto.
Qed.

Lemma bindingFor_inr c fw e : bindingFor c fw = inr e -> errors_Is e ErrUnbindable = true.
Proof.
  unfold bindingFor. intros H. destruct (opFor _ fw) eqn:E1.
  - destruct (opFor (Execution_Reverse _) fw) eqn:E2; simplify_eq. by apply opFor_inr in E2.
  - simplify_eq. by apply opFor_inr in E1.
Qed.

Lemma bind_all_ok cs fw out :
  (exists m, bind_all cs fw out = inl m) <-> Forall (executable_contract fw) cs.
Proof.
  revert out. induction cs as [|c cs IH]; intros out; simpl.
  - split; [by constructor|eauto].
  - rewrite list.Forall_cons, <- bindingFor_ok. destruct (bindingFor c fw) as [b|e].
    + rewrite IH. naive_solver.
    + naive_solver.
Qed.

Lemma bind_all_inr cs fw out e : bind_all cs fw out = inr e -> errors_Is e ErrUnbindable = true.
Proof.
  revert out. induction cs as [|c cs IH]; intros out; simpl; [done|].
  destruct (bindingFor c fw) eqn:E; [apply IH|]. intros; simplify_eq. by apply bindingFor_inr in E.
Qed.

Lemma bind_all_lookup cs fw out m name :
  bind_all cs fw out = inl m ->
  (exists c, c ∈ cs /\ AC_Name c = name) \/ is_Some (out !! name) ->
  exists b, m !! name = Some b /\
    ((exists c, c ∈ cs /\ AC_Name c = name /\ bindingFor c fw = inl b) \/ out !! name = Some b).
Proof.
  revert out. induction cs as [|c cs IH]; intros out; simpl.
  - intros Hm [(c & Hc & _)|[b Hb]]; [by apply elem_of_nil in Hc|]. simplify_eq. eauto.
  - destruct (bindingFor c fw) as [b|] eqn:Eb; [|done]. intros Hm Hn.
    destruct (IH _ Hm) as (b' & Hl & Hw).
    { destruct (decide (AC_Name c = name)) as [<-|Hne]; [right; rewrite lookup_insert_eq; eauto|].
      rewrite lookup_insert_ne by done. destruct Hn as [(c' & [->|Hc']%elem_of_cons & Hc2)|?]; naive_solver. }
    exists b'. split; [done|]. destruct Hw as [(c' & ? & ? & ?)|Hw].
    + left. exists c'. rewrite elem_of_cons. auto.
    + destruct (decide (AC_Name c = name)) as [<-|Hne].
      * rewrite lookup_insert_eq in Hw. simplify_eq. left. exists c. rewrite elem_of_cons. auto.
      * rewrite lookup_insert_ne in Hw by done. auto.
Qed.

Lemma Order_ContractRef_catalogued g cat now o :
  Render g cat now = inl o -> exists c, c ∈ Contracts cat /\ AC_Name c = Order_ContractRef o.
Proof.
  intros (cand & ct & (_ & _ & _ & [Hin Hn]%ByName_Some) & ->)%Render_inl. by exists ct.
Qed.

Lemma resultOf_cases op : resultOf op = ResultApplied \/ resultOf op = ResultProposed.
Proof.
  revert op. fix IH 1. destruct op as [| | | | |ops]; try (by left); [by right|].
  unfold resultOf. induction ops as [|o [|o' ops] IHl]; [by left|exact (IH o)|exact IHl].
Qed.

Lemma Run_accountable {C} (cd : Codec) (r : Runner (C := C)) : runner_accountable (Run cd r).
Proof.
  intros ref rev params notes c c' res. unfold Run.
  destruct (Runner_bindings r !! ref) as [b|]; [|by intros; simplify_eq].
  destruct (do_op cd _ _ c) as [c1 [e|]]; intros; simplify_eq; [done|apply resultOf_cases].
Qed.

Lemma seq_nil {C} cd (d : dispatch (C := C)) c : do_op cd (seqOp []) d c = (c, None).
Proof. done. Qed.

Lemma seq_cons {C} cd o ops (d : dispatch (C := C)) c :
  do_op cd (seqOp (o :: ops)) d c =
  match do_op cd o d c with
  | (c', Some e) => (c', Some e)
  | (c', None) => do_op cd (seqOp ops) d c'
  end.
Proof. done. Qed.

(** a name authored twice: rendering reads the first contract, the runner is
    bound to the last *)
Lemma duplicate_contract_split (c1 c2 : ActionContract) b1 b2 :
  AC_Name c1 = AC_Name c2 -> bindingFor c1 true = inl b1 -> bindingFor c2 true = inl b2 ->
  let cat := NewStaticCatalog [c1; c2] in
  ByName cat (AC_Name c1) = Some c1 /\
  exists m, bind cat true = inl m /\ m !! AC_Name c1 = Some b2.
Proof.
  intros Hn H1 H2. unfold ByName, bind. simpl. rewrite seqb_refl, H1, H2. split; [done|].
  eexists. split; [done|]. by rewrite Hn, lookup_insert_eq.
Qed.

(** ** Claims *)

(** A catalog binds exactly when every contract authors a non-empty forward
    and reverse list of steps that each name a verb of the closed set with all
    of its required targets (and, for a release, with a forge wired); any
    other catalog is refused at load with [ErrUnbindable]. *)
Theorem bind_accepts_executable_catalogs (cat : StaticCatalog) (forgeWired : bool) :
  ((exists m, bind cat forgeWired = inl m) <->
   Forall (executable_contract forgeWired) (Contracts cat)) /\
  (forall e, bind cat forgeWired = inr e -> errors_Is e ErrUnbindable = true).
Proof. split; [apply bind_all_ok|intros e; apply bind_all_inr]. Qed.

(** The runner can carry out everything thump renders from the same catalog:
    an order [Render] produced always finds its binding, in both directions,
    made from a contract of that name; and whatever the runner reports is an
    applied or proposed result or an error with text, so its outcomes stand an
    audit. *)
Theorem rendered_orders_are_bound {C} (k : Kube (C := C)) (cat : StaticCatalog) (f : option Forge)
  (r : Runner) (cd : Codec) (g : Governed) (now : Time) (o : Order) :
  NewWithKube k cat f = inl r -> Render g cat now = inl o ->
  (exists c b, c ∈ Contracts cat /\ AC_Name c = Order_ContractRef o /\
     bindingFor c (is_some f) = inl b /\ Runner_bindings r !! Order_ContractRef o = Some b) /\
  runner_accountable (Run cd r).
Proof.
  intros Hr Ho. split; [|apply Run_accountable].
  apply Order_ContractRef_catalogued in Ho as Hc. unfold NewWithKube, newWithTimeout in Hr.
  destruct (bind cat (is_some f)) as [m|] eqn:Eb; [|done]. simplify_eq. simpl.
  destruct (bind_all_lookup _ _ _ _ _ Eb (or_introl Hc)) as (b & Hl & [(c & ? & ? & ?)|Hl']).
  - by exists c, b.
  - by rewrite lookup_empty in Hl'.
Qed.

(** A flag flip edits one field: when [setDefaultVariant] succeeds the flag was
    defined, its defaultVariant is the requested one in the new document, and
    every other field of that flag, every other flag and every other top-level
    key reads as before. *)
Theorem setDefaultVariant_edits_one_field (cd : Codec) (doc flag variant doc' : string) :
  (forall m s, json_Marshal cd m = inl s -> json_Unmarshal cd s = inl m) ->
  setDefaultVariant cd doc flag variant = inl doc' ->
  exists parsed parsed' def def',
    json_Unmarshal cd doc = inl parsed /\ json_Unmarshal cd doc' = inl parsed' /\
    flags_of parsed !! flag = Some (JObj def) /\ flags_of parsed' !! flag = Some (JObj def') /\
    def' !! "defaultVariant" = Some (JStr variant) /\
    (forall key, key <> "defaultVariant"%string -> def' !! key = def !! key) /\
    (forall fl, fl <> flag -> flags_of parsed' !! fl = flags_of parsed !! fl) /\
    (forall key, key <> "flags"%string -> parsed' !! key = parsed !! key).
Proof.
  unfold setDefaultVariant. intros Hrt Hs. destruct (json_Unmarshal cd doc) as [parsed|] eqn:Eu; [|done].
  destruct (flags_of parsed !! flag) as [[| | | | | |def]|] eqn:Ef; try done.
  apply Hrt in Hs. set (parsed' := <["flags" := _]> parsed) in Hs.
  assert (flags_of parsed' = <[flag:=JObj (<["defaultVariant":=JStr variant]> def)]> (flags_of parsed)) as Hfl.
  { unfold flags_of at 1. subst parsed'. by rewrite lookup_insert_eq. }
  exists parsed, parsed', def, (<["defaultVariant":=JStr variant]> def). rewrite Hfl.
  repeat split; try done.
  - by rewrite lookup_insert_eq.
  - by rewrite lookup_insert_eq.
  - intros. by rewrite lookup_insert_ne.
  - intros. by rewrite lookup_insert_ne.
  - intros. subst parsed'. by rewrite lookup_insert_ne.
Qed.

(** A multi-step remedy runs its steps in order and stops at the first
    failure: when the steps before [o] succeed and [o] fails, the sequence
    reports [o]'s error from the state [o] left and the steps after it never
    run; when every step succeeds the last state is the sequence's. *)
Theorem sequence_stops_at_first_failure {C} (cd : Codec) (d : dispatch (C := C)) pre o post c c1 :
  do_op cd (seqOp pre) d c = (c1, None) ->
  do_op cd (seqOp (pre ++ o :: post)) d c =
  match do_op cd o d c1 with
  | (c2, Some e) => (c2, Some e)
  | (c2, None) => do_op cd (seqOp post) d c2
  end.
Proof.
  revert c. induction pre as [|p pre IH]; intros c Hpre; [by rewrite seq_nil in Hpre; simplify_eq|].
  change ((p :: pre) ++ o :: post) with (p :: (pre ++ o :: post)).
  rewrite seq_cons in Hpre |- *. destruct (do_op cd p d c) as [c' [e|]]; [done|]. by apply IH.
Qed.

(** ** Witnesses: a cluster that records the namespaces it touched *)

Definition log_kube : Kube (C := list string) :=
  mkKube (fun ns _ _ c => (c ++ [ns], None)) (fun _ _ _ ns _ _ c => (c ++ [ns], None))
    (fun _ _ _ _ => inr (errors_New "not found")).

(** a codec for documents with the single flag "f" and its default variant,
    written as that variant *)
Definition flag_doc (v : string) : gmap string json :=
  {[ "flags" := JObj {[ "f" := JObj {[ "defaultVariant" := JStr v ]} ]} ]}.

Definition single (key : string) (m : gmap string json) : option json :=
  match map_to_list m with
  | [(k, x)] => if k =s key then Some x else None
  | _ => None
  end.

Definition flag_codec : Codec :=
  mkCodec (fun s => inl (flag_doc s))
    (fun m => match single "flags" m with
              | Some (JObj fl) =>
                  match single "f" fl with
                  | Some (JObj d) =>
                      match single "defaultVariant" d with
                      | Some (JStr v) => inl v
                      | _ => inr (errors_New "unsupported value")
                      end
                  | _ => inr (errors_New "unsupported value")
                  end
              | _ => inr (errors_New "unsupported value")
              end) "".

Lemma single_Some key m x : single key m = Some x -> m = {[ key := x ]}.
Proof.
  unfold single. destruct (map_to_list m) as [|[k y] [|]] eqn:E; try done.
  destruct (k =s key) eqn:Ek; [|done]. apply String.eqb_eq in Ek as ->. intros; simplify_eq.
  by rewrite <- (list_to_map_to_list m), E.
Qed.

Lemma flag_codec_roundtrip m s :
  json_Marshal flag_codec m = inl s -> json_Unmarshal flag_codec s = inl m.
Proof.
  simpl. destruct (single "flags" m) as [[| | | | | |fl]|] eqn:E1; try done.
  destruct (single "f" fl) as [[| | | | | |d]|] eqn:E2; try done.
  destruct (single "defaultVariant" d) as [[| | | |v| |]|] eqn:E3; try done.
  intros; simplify_eq. apply single_Some in E1, E2, E3. by subst.
Qed.

Lemma rendered_orders_are_bound_witness :
  exists b, bind demo_catalog false = inl b /\
  (exists c b', c ∈ Contracts demo_catalog /\ AC_Name c = "acme-shed-load"%string /\
     bindingFor c false = inl b' /\ b !! "acme-shed-load" = Some b').
Proof.
  eexists. split; [reflexivity|].
  destruct (rendered_orders_are_bound log_kube demo_catalog None
              (mkRunner log_kube None {[ "acme-shed-load" :=
                 mkBinding (scaleOp "acme" "web" 2) (scaleOp "acme" "web" 4) ]} actuateTimeout)
              flag_codec demo_governed 6 (order_of demo_governed demo_candidate demo_contract 6)) as [Hb _];
    [vm_compute; reflexivity|vm_compute; reflexivity|exact Hb].
Defined.

Lemma setDefaultVariant_edits_one_field_witness :
  setDefaultVariant flag_codec "on" "f" "off" = inl "off"%string /\
  exists parsed parsed' def def',
    json_Unmarshal flag_codec "on" = inl parsed /\ json_Unmarshal flag_codec "off" = inl parsed' /\
    flags_of parsed !! "f" = Some (JObj def) /\ flags_of parsed' !! "f" = Some (JObj def') /\
    def' !! "defaultVariant" = Some (JStr "off") /\
    (forall key, key <> "defaultVariant"%string -> def' !! key = def !! key) /\
    (forall fl, fl <> "f"%string -> flags_of parsed' !! fl = flags_of parsed !! fl) /\
    (forall key, key <> "flags"%string -> parsed' !! key = parsed !! key).
Proof.
  split; [vm_compute; reflexivity|].
  apply (setDefaultVariant_edits_one_field flag_codec "on" "f" "off" "off");
    [exact flag_codec_roundtrip | vm_compute; reflexivity].
Defined.

Lemma sequence_stops_at_first_failure_witness :
  let d := mkDispatch log_kube None "acme-shed-load" false "" in
  do_op flag_codec (seqOp ([scaleOp "acme" "web" 2] ++ maintenanceReleaseOp "p" "f" "off"
                             :: [scaleOp "other" "web" 4])) d []
  = (["acme"%string], Some (errorf_w "no forge wired for p: " ErrUnbindable)).
Proof.
  intros d.
  rewrite (sequence_stops_at_first_failure flag_codec d [scaleOp "acme" "web" 2]
             (maintenanceReleaseOp "p" "f" "off") [scaleOp "other" "web" 4] [] ["acme"%string]);
    vm_compute; reflexivity.
Defined.
