(* ===== verification/Configfile.v ===== *)
(** * internal/configfile: two-stage loading

    [Required] collects every key a staged file left unset.  The accessors thread
    the collector through as state; [Required_Err] reports a missing key before
    a parse failure.  [time.ParseDuration] and the YAML decoder are parameters. *)

From S2P Require Import Prelude GoTime GoFloat.
Local Open Scope Z_scope.

Record Required : Type := mkRequired {
  Required_noun : string;
  Required_sentinel : error;
  Required_missing : list string;
  Required_parseErr : option error
}.

Definition Require_ (noun : string) (sentinel : error) : Required := mkRequired noun sentinel [] None.

(** [r.missing = append(r.missing, key)] *)
Definition miss (r : Required) (key : string) : Required :=
  mkRequired (Required_noun r) (Required_sentinel r) (Required_missing r ++ [key]) (Required_parseErr r).

Definition Required_Int (r : Required) (key : string) (p : option Z) : Required * Z :=
  match p with None => (miss r key, 0) | Some v => (r, v) end.

Definition Required_Int64 (r : Required) (key : string) (p : option Z) : Required * Z :=
  match p with None => (miss r key, 0) | Some v => (r, v) end.

Definition Required_Float (r : Required) (key : string) (p : option float64) : Required * float64 :=
  match p with None => (miss r key, f0) | Some v => (r, v) end.

Definition Required_Duration (parse : string -> result Duration) (r : Required) (key : string)
  (p : option string) : Required * Duration :=
  match p with
  | None => (miss r key, 0)
  | Some s =>
      match parse s with
      | inl d => (r, d)
      | inr e =>
          (mkRequired (Required_noun r) (Required_sentinel r) (Required_missing r)
             (match Required_parseErr r with
              | None => Some (errorf_w (Required_noun r +:+ " " +:+ key +:+ ": ") e)
              | Some e0 => Some e0
              end), 0)
      end
  end.

Definition Required_Err (r : Required) : option error :=
  match Required_missing r with
  | [] => Required_parseErr r
  | ms => Some (errorf_wp (Required_sentinel r) (": " +:+ strings_Join ms ", "))
  end.

(** [Stage]: read then decode, each failure named by the file's noun *)
Definition Stage {F} (readFile : string -> result string) (unmarshal : string -> result F)
  (path noun : string) : result F :=
  match readFile path with
  | inr e => inr (errorf_w ("read " +:+ noun +:+ ": ") e)
  | inl raw => match unmarshal raw with
               | inr e => inr (errorf_w ("parse " +:+ noun +:+ ": ") e)
               | inl staged => inl staged
               end
  end.

(** ** Lemmas: a collector only ever accumulates *)

Definition clean (r : Required) : Prop := Required_missing r = [] /\ Required_parseErr r = None.

Lemma Required_Err_None r : Required_Err r = None <-> clean r.
Proof. unfold Required_Err, clean. destruct (Required_missing r); naive_solver. Qed.

Lemma Required_Float_clean r key p :
  clean (Required_Float r key p).1 <-> clean r /\ p = Some (Required_Float r key p).2.
Proof.
  unfold clean, Required_Float. destruct p; simpl; [naive_solver|].
  split; [intros [Hm _]; by apply app_eq_nil in Hm as [_ ?]|by intros [_ ?]].
Qed.

Lemma Required_Duration_clean parse r key p :
  clean (Required_Duration parse r key p).1 <->
  clean r /\ exists s, p = Some s /\ parse s = inl (Required_Duration parse r key p).2.
Proof.
  unfold clean, Required_Duration. destruct p as [s|]; simpl.
  - destruct (parse s) as [d|e] eqn:E; simpl.
    + split; [intros ?; split; [done|eauto]|by intros [? _]].
    + split; [intros [? Hp]; by destruct (Required_parseErr r)|].
      intros [_ (s' & Hs & Hp)]. simplify_eq. congruence.
  - split; [intros [Hm _]; by apply app_eq_nil in Hm as [_ ?]|by intros [_ (? & ? & _)]].
Qed.
