(* ===== verification/ClankScore.v ===== *)
(** * internal/clank: scoring, gating and ranking

    The deterministic half of the Reason beat: [CausalScorerImpl.Score]
    (causal.go), [scoreConfidences] (confidence.go), [ScoringWeights] and its
    loader (weights.go), [CaseBase] (casebase.go), [ReadinessGate.Evaluate]
    (gate.go) and [Ranker.Rank] (rank.go).  [Prior] is the interface the scorer
    reads the case base through. *)

From S2P Require Import Prelude GoTime GoFloat Api Configfile.
From Stdlib Require Import Ascii Sorted.
Local Open Scope Z_scope.

(** ** weights.go *)

Record ScoringWeights : Type := mkWeights {
  W_Temporal : float64;
  W_Topological : float64;
  W_Historical : float64;
  W_HistoricalHalfLife : Duration;
  W_GroundingNone : float64;
  W_GroundingOne : float64;
  W_GroundingMany : float64;
  W_Causal : float64;
  W_RecencyHalfLife : Duration;
  W_HistoricalAloneCap : float64;
  W_CaseBaseBaseline : float64;
  W_NegativeSignalPenalty : float64
}.

Record weightsFile : Type := mkWeightsFile {
  wf_Temporal : option float64;
  wf_Topological : option float64;
  wf_Historical : option float64;
  wf_HistoricalHalfLife : option string;
  wf_GroundingNone : option float64;
  wf_GroundingOne : option float64;
  wf_GroundingMany : option float64;
  wf_Causal : option float64;
  wf_RecencyHalfLife : option string;
  wf_HistoricalAloneCap : option float64;
  wf_CaseBaseBaseline : option float64;
  wf_NegativeSignalPenalty : option float64
}.

Definition ErrIncompleteWeights : error :=
  errors_New "weights file is missing one or more required terms".

Definition LoadWeightsFile (readFile : string -> result string)
  (unmarshal : string -> result weightsFile) (parse : string -> result Duration) (path : string)
  : result ScoringWeights :=
  match Stage readFile unmarshal path "weights file" with
  | inr e => inr e
  | inl wf =>
      let r := Require_ "weights file" ErrIncompleteWeights in
      let '(r, temporal) := Required_Float r "temporal" (wf_Temporal wf) in
      let '(r, topological) := Required_Float r "topological" (wf_Topological wf) in
      let '(r, historical) := Required_Float r "historical" (wf_Historical wf) in
      let '(r, historicalHalfLife) := Required_Duration parse r "historicalHalfLife" (wf_HistoricalHalfLife wf) in
      let '(r, groundingNone) := Required_Float r "groundingNone" (wf_GroundingNone wf) in
      let '(r, groundingOne) := Required_Float r "groundingOne" (wf_GroundingOne wf) in
      let '(r, groundingMany) := Required_Float r "groundingMany" (wf_GroundingMany wf) in
      let '(r, causal) := Required_Float r "causal" (wf_Causal wf) in
      let '(r, recencyHalfLife) := Required_Duration parse r "recencyHalfLife" (wf_RecencyHalfLife wf) in
      let '(r, historicalAloneCap) := Required_Float r "historicalAloneCap" (wf_HistoricalAloneCap wf) in
      let '(r, caseBaseBaseline) := Required_Float r "caseBaseBaseline" (wf_CaseBaseBaseline wf) in
      let '(r, negativeSignalPenalty) := Required_Float r "negativeSignalPenalty" (wf_NegativeSignalPenalty wf) in
      match Required_Err r with
      | Some e => inr e
      | None => inl (mkWeights temporal topological historical historicalHalfLife groundingNone groundingOne
                       groundingMany causal recencyHalfLife historicalAloneCap caseBaseBaseline
                       negativeSignalPenalty)
      end
  end.

(** ** causal.go *)

(** [Prior.Alignment]: [None] is [ok = false] *)
Definition Prior : Type := string -> option float64.

Definition topo_nodes (topo : TopologySnapshot) : list NodeState :=
  TopologySnapshot_Upstream topo ++ TopologySnapshot_Downstream topo.

Definition findNode (topo : TopologySnapshot) (name : string) : NodeState * bool :=
  match find_first (fun n => NodeState_Name n =s name) (topo_nodes topo) with
  | Some n => (n, true)
  | None => (NodeState_zero, false)
  end.

Definition temporalScore (age halflife : Duration) : float64 :=
  Exp2 (fdiv (fneg (of_int age)) (of_int halflife)).

Definition topologicalScore (node : NodeState) (inPath : bool) : float64 :=
  if inPath && (NodeState_State node =s "degraded") then NodeState_TrafficShare node else f0.

Definition freshnessFactor (staleness halflife : Duration) : float64 :=
  if halflife <=? 0 then f1 else Exp2 (fdiv (fneg (of_int staleness)) (of_int halflife)).

Definition signalObserved (topo : TopologySnapshot) (signal : string) : bool :=
  existsb (fun n => NodeState_State n =s signal) (topo_nodes topo).

Definition clampUnit (x : float64) : float64 := fmax f0 (fmin f1 x).

(** defence 3: one penalty per predicted signal that is not observed.  The
    rationale line is appended for every predicted signal. *)
Definition penalise (topo : TopologySnapshot) (w : ScoringWeights) (acc : float64 * list string)
  (sig : string) : float64 * list string :=
  let '(likelihood, rationale) := acc in
  (if signalObserved topo sig then likelihood else fsub likelihood (W_NegativeSignalPenalty w),
   rationale ++ ["defence 3: predicted " +:+ fmt_q sig +:+ " absent -> "
                 +:+ fmt_f 2 (W_NegativeSignalPenalty w)]).

(** the historical term's base rate and whether the case base corroborates it *)
Definition historical_base (prior : option Prior) (fingerprint : string) (w : ScoringWeights)
  : float64 * bool :=
  match prior with
  | Some alignment =>
      match alignment fingerprint with
      | Some rate => (rate, true)
      | None => (W_CaseBaseBaseline w, false)
      end
  | None => (W_CaseBaseBaseline w, false)
  end.

Definition scoreEvent (fingerprint : string) (e : ChangeEvent) (topo : TopologySnapshot)
  (w : ScoringWeights) (prior : option Prior) : CausalScore :=
  let '(node, inPath) := findNode topo (ChangeEvent_Target e) in
  let temporal := temporalScore (ChangeEvent_Age e) (W_RecencyHalfLife w) in
  let topological := topologicalScore node inPath in
  let '(base, corroborated) := historical_base prior fingerprint w in
  let historical := fmul base (freshnessFactor (ChangeEvent_HistoricalStaleness e) (W_HistoricalHalfLife w)) in
  let liveCorroborated := inPath && (NodeState_State node =s "degraded") in
  let likelihood := fadd (fadd (fmul (W_Temporal w) temporal) (fmul (W_Topological w) topological))
                         (fmul (W_Historical w) historical) in
  let priorNote :=
    if corroborated then
      "historical: corroborated case base, observed rate " +:+ fmt_f 2 base +:+ ", staleness "
      +:+ Duration_String (ChangeEvent_HistoricalStaleness e) +:+ " -> " +:+ fmt_f 2 historical
    else
      "historical: case-base prior, staleness " +:+ Duration_String (ChangeEvent_HistoricalStaleness e)
      +:+ " -> " +:+ fmt_f 2 historical in
  let rationale :=
    ["temporal: " +:+ Duration_String (ChangeEvent_Age e) +:+ " old -> " +:+ fmt_f 2 temporal;
     "topological: in-path=" +:+ fmt_t inPath +:+ " -> " +:+ fmt_f 2 topological;
     priorNote] in
  let '(likelihood, rationale) :=
    if liveCorroborated then (likelihood, rationale)
    else (fmin likelihood (W_HistoricalAloneCap w),
          rationale ++ ["defence 1: uncorroborated -> capped at " +:+ fmt_f 2 (W_HistoricalAloneCap w)]) in
  let '(likelihood, rationale) :=
    fold_left (penalise topo w) (ChangeEvent_PredictedSignals e) (likelihood, rationale) in
  let rationale :=
    if inPath then rationale
    else rationale ++ ["target " +:+ fmt_q (ChangeEvent_Target e)
           +:+ " is not in this signal's topology -> scored for audit, excluded from confidence"] in
  mkCausalScore (ChangeEvent_ID e) inPath temporal topological historical liveCorroborated
    (clampUnit likelihood) rationale.

Definition Score (prior : option Prior) (fingerprint : string) (change : ChangeSnapshot)
  (topo : TopologySnapshot) (w : ScoringWeights) : list CausalScore :=
  map (fun e => scoreEvent fingerprint e topo w prior) (ChangeSnapshot_Events change).

(** ** gate.go *)

Definition inTopology (subject : string) (sao : option SAO) : bool :=
  match sao with
  | None => false
  | Some s => existsb (fun n => NodeState_Name n =s subject) (topo_nodes (SAO_Topology s))
  end.

Definition coherentSubject (ref : EvidenceRef) (sao : option SAO) : bool :=
  match sao with
  | None => false
  | Some s =>
      if EvidenceRef_Subject ref =s "" then false
      else (EvidenceRef_Subject ref =s SignalSnapshot_OriginService (SAO_Signal s))
           || inTopology (EvidenceRef_Subject ref) sao
  end.

Definition anyCoherentLive (refs : list EvidenceRef) (sao : option SAO) : bool :=
  existsb (fun ref => EvidenceRef_Live ref && coherentSubject ref sao) refs.

(** [cited[key]] for the map built from a candidate's citations *)
Definition cited (c : Candidate) (key : string) : bool := existsb (String.eqb key) (Candidate_Citations c).

Definition recommendedEvidence (ps : ProposalSet) : list EvidenceRef :=
  if (Set_Recommended ps =s "") && Nat.eqb (length (Set_Proposals ps)) 0 then Set_Evidence ps
  else match candidate_by_id ps (Set_Recommended ps) with
       | None => []
       | Some rec =>
           match Candidate_Citations rec with
           | [] => []
           | _ => List.filter (fun ref => cited rec (EvidenceRef_Key ref)) (Set_Evidence ps)
           end
       end.

(** [ReadinessGate.Evaluate] *)
Definition gate_Evaluate (ps : ProposalSet) (openDupes : list ProposalSet) : GateResult :=
  let budgetOK := true in
  let dedupeOK := Nat.eqb (length openDupes) 0 in
  let evidenceOK := anyCoherentLive (recommendedEvidence ps) (Set_SAOSnapshot ps) in
  let passed := budgetOK && dedupeOK && evidenceOK in
  let reason := if passed then ""%string
                else if negb evidenceOK then "evidence"%string
                else if negb dedupeOK then "dedupe"%string
                else if negb budgetOK then "budget"%string else ""%string in
  mkGateResult budgetOK dedupeOK evidenceOK passed reason.

(** ** confidence.go *)

Definition coherentLiveCitations (cand : Candidate) (evidence : list EvidenceRef) (sao : option SAO) : Z :=
  Z.of_nat (size (list_to_set (map EvidenceRef_Tool
    (List.filter (fun ref => cited cand (EvidenceRef_Key ref) && EvidenceRef_Live ref
                             && coherentSubject ref sao) evidence)) : gset string)).

Record confidenceInputs : Type := mkInputs {
  In_SignalConfidence : float64;
  In_Corroborated : Z;
  In_Alignment : float64;
  In_AlignmentOK : bool;
  In_Likelihood : float64;
  In_LikelihoodOK : bool;
  In_SelfReported : float64
}.

Definition groundingWeight (corroborated : Z) (w : ScoringWeights) : float64 :=
  if 2 <=? corroborated then W_GroundingMany w
  else if corroborated =? 1 then W_GroundingOne w
  else W_GroundingNone w.

Definition groundedConfidence (i : confidenceInputs) (w : ScoringWeights) : float64 :=
  let computed := fmul (In_SignalConfidence i) (groundingWeight (In_Corroborated i) w) in
  let computed := if In_AlignmentOK i
                  then fmul computed (fadd fhalf (fmul fhalf (In_Alignment i))) else computed in
  if In_LikelihoodOK i
  then fmin f1 (fmul computed (fadd f1 (fmul (W_Causal w) (In_Likelihood i)))) else computed.

Definition scoreConfidence (i : confidenceInputs) (w : ScoringWeights) : float64 :=
  fmin (groundedConfidence i w) (In_SelfReported i).

(** the strongest in-topology likelihood, and whether there is one *)
Definition max_likelihood (scores : list CausalScore) : float64 * bool :=
  fold_left (fun acc cs => if CausalScore_InTopology cs
                           then (fmax acc.1 (CausalScore_Likelihood cs), true) else acc)
            scores (f0, false).

Definition grade (i : confidenceInputs) (w : ScoringWeights) (cand : Candidate) : Candidate :=
  let computed := groundedConfidence i w in
  mkCandidate (Candidate_ID cand) (Candidate_ContractRef cand)
    (fmin computed (Candidate_Confidence cand)) computed
    (fgt computed (Candidate_Confidence cand))
    (mkConfidenceTerms (In_SignalConfidence i) (In_Corroborated i) (groundingWeight (In_Corroborated i) w)
       (In_AlignmentOK i) (In_LikelihoodOK i))
    (Candidate_PredictedImpact cand) (Candidate_BlastTier cand) (Candidate_ReversalPath cand)
    (Candidate_GovernanceLevel cand) (Candidate_Rank cand) (Candidate_Citations cand).

Definition inputs_for (set : ProposalSet) (sao : SAO) (prior : option Prior) (fingerprint : string)
  (cand : Candidate) : confidenceInputs :=
  let '(maxLikelihood, likelihoodOK) := max_likelihood (Set_CausalScores set) in
  let '(alignment, alignmentOK) :=
    match prior with
    | Some p => match p fingerprint with Some a => (a, true) | None => (f0, false) end
    | None => (f0, false)
    end in
  mkInputs (SignalSnapshot_Confidence (SAO_Signal sao))
    (coherentLiveCitations cand (Set_Evidence set) (Set_SAOSnapshot set))
    alignment alignmentOK maxLikelihood likelihoodOK (Candidate_Confidence cand).

Definition with_proposals (s : ProposalSet) (cands : list Candidate) : ProposalSet :=
  mkSet (Set_Name s) (Set_RunID s) (Set_SignalRef s) (Set_SLORef s) (Set_SAOSnapshot s) (Set_FailureClass s)
    (Set_CausalScores s) (Set_Hypotheses s) (Set_Evidence s) (Set_ServiceTier s) (Set_Gate s) cands
    (Set_Recommended s) (Set_RankingRationale s) (Set_Status s).

Definition scoreConfidences (set : ProposalSet) (sao : SAO) (prior : option Prior) (fingerprint : string)
  (w : ScoringWeights) : ProposalSet :=
  with_proposals set (map (fun c => grade (inputs_for set sao prior fingerprint c) w c) (Set_Proposals set)).

(** ** casebase.go *)

Record Case : Type := mkCase {
  Case_RunID : string;
  Case_SignalRef : string;
  Case_DecisionRef : string;
  Case_OutcomeRef : string;
  Case_ContractRef : string;
  Case_FailureClass : FailureClass;
  Case_Confidence : float64;
  Case_Mode : Mode;
  Case_Result : Result;
  Case_ObservedAt : Time
}.

Definition maxCases : Z := 10000.
Definition minCorroboration : Z := 2.
Definition ErrUnprovenancedCase : error := errors_New "click: a case that can't be traced is poison".

Record CaseBase : Type := mkCaseBase { CaseBase_MaxCases : Z; CaseBase_cases : list Case }.

Definition NewCaseBase : CaseBase := mkCaseBase 0 [].

Definition case_limit (cb : CaseBase) : Z :=
  if CaseBase_MaxCases cb <=? 0 then maxCases else CaseBase_MaxCases cb.

(** the text of the refusal names the signal; the source's has the whole case after the
    sentinel, and nothing reads it *)
Definition Append (cb : CaseBase) (c : Case) : CaseBase * option error :=
  if (Case_SignalRef c =s "") || (Case_OutcomeRef c =s "") || (Case_DecisionRef c =s "") || (Case_Result c =s "")
  then (cb, Some (errorf_wp ErrUnprovenancedCase (": " +:+ Case_SignalRef c)))
  else if case_limit cb <=? Z.of_nat (length (CaseBase_cases cb))
  then (mkCaseBase (CaseBase_MaxCases cb) (tail (CaseBase_cases cb) ++ [c]), None)
  else (mkCaseBase (CaseBase_MaxCases cb) (CaseBase_cases cb ++ [c]), None).

Definition Cases (cb : CaseBase) (fingerprint : string) : list Case :=
  List.filter (fun c => Case_SignalRef c =s fingerprint) (CaseBase_cases cb).

(** one case's effect on the tally [(votes, successes)] *)
Definition tally (fingerprint : string) (acc : Z * Z) (c : Case) : Z * Z :=
  let '(votes, successes) := acc in
  if (Case_SignalRef c <>s fingerprint) || (Case_Mode c <>s ModeLive) then acc
  else if Case_Result c =s ResultSuccess then (votes + 1, successes + 1)
  else if (Case_Result c =s ResultFailure) || (Case_Result c =s ResultPartialNonConverging)
  then (votes + 1, successes)
  else acc.

Definition Alignment (cb : CaseBase) : Prior :=
  fun fingerprint =>
    let '(votes, successes) := fold_left (tally fingerprint) (CaseBase_cases cb) (0, 0) in
    if votes <? minCorroboration then None
    else Some (fdiv (of_int successes) (of_int votes)).

(** ** rank.go *)

(** the leading decimal digits of a string, in Go's wrapping [int] *)
Fixpoint leading_digits (n : Z) (s : string) : Z :=
  match s with
  | EmptyString => n
  | String ch s' =>
      let v := Z.of_nat (nat_of_ascii ch) in
      if (v <? 48) || (57 <? v) then n else leading_digits (wrap64 (wrap64 (n * 10) + (v - 48))) s'
  end.

Definition timeToEffect (c : Candidate) : Z :=
  match Candidate_PredictedImpact c with
  | None => 0
  | Some p => leading_digits 0 (default ""%string (PredictedImpact_SLOEffects p !! "time_to_effect"))
  end.

(** [slices.SortStableFunc]: the stable ascending order by a key *)
Fixpoint insert_by {A} (key : A -> Z) (x : A) (l : list A) : list A :=
  match l with
  | [] => [x]
  | y :: l' => if key y <? key x then y :: insert_by key x l' else x :: y :: l'
  end.

Fixpoint sort_stable_by {A} (key : A -> Z) (l : list A) : list A :=
  match l with
  | [] => []
  | x :: l' => insert_by key x (sort_stable_by key l')
  end.

Definition set_rank (c : Candidate) (r : Z) : Candidate :=
  mkCandidate (Candidate_ID c) (Candidate_ContractRef c) (Candidate_Confidence c) (Candidate_ComputedConfidence c)
    (Candidate_ConfidenceCeilingBound c) (Candidate_Terms c) (Candidate_PredictedImpact c)
    (Candidate_BlastTier c) (Candidate_ReversalPath c) (Candidate_GovernanceLevel c) r (Candidate_Citations c).

Definition Rank (cands : list Candidate) (velocity : string) : list Candidate * RankingRationale :=
  let '(ranked, why) :=
    if velocity =s "accelerating"
    then (sort_stable_by timeToEffect cands, mkRankingRationale "time_to_effect" velocity)
    else (cands, mkRankingRationale "" "") in
  (imap (fun i c => set_rank c (Z.of_nat i + 1)) ranked, why).

(** ** Specifications *)

(** a live case that says whether the action worked *)
Definition live_vote (fingerprint : string) (c : Case) : bool :=
  (Case_SignalRef c =s fingerprint) && (Case_Mode c =s ModeLive)
  && ((Case_Result c =s ResultSuccess) || (Case_Result c =s ResultFailure)
      || (Case_Result c =s ResultPartialNonConverging)).

Definition live_success (fingerprint : string) (c : Case) : bool :=
  (Case_SignalRef c =s fingerprint) && (Case_Mode c =s ModeLive) && (Case_Result c =s ResultSuccess).

Definition votes (fp : string) (cb : CaseBase) : Z := Z.of_nat (length (List.filter (live_vote fp) (CaseBase_cases cb))).
Definition successes (fp : string) (cb : CaseBase) : Z := Z.of_nat (length (List.filter (live_success fp) (CaseBase_cases cb))).

(** evidence [ref] grounds [cand]: it is cited, live, and about a node the
    snapshot can confirm *)
Definition grounds (cand : Candidate) (sao : option SAO) (ref : EvidenceRef) : Prop :=
  EvidenceRef_Key ref ∈ Candidate_Citations cand /\ EvidenceRef_Live ref = true /\
  EvidenceRef_Subject ref <> ""%string /\
  exists s, sao = Some s /\
    (EvidenceRef_Subject ref = SignalSnapshot_OriginService (SAO_Signal s) \/
     exists n, n ∈ topo_nodes (SAO_Topology s) /\ NodeState_Name n = EvidenceRef_Subject ref).

(** a traceable case *)
Definition provenanced (c : Case) : Prop :=
  Case_SignalRef c <> ""%string /\ Case_OutcomeRef c <> ""%string /\
  Case_DecisionRef c <> ""%string /\ Case_Result c <> ""%string.

Definition unranked (c : Candidate) : Candidate := set_rank c 0.

(** ** Lemmas: floats *)

Lemma clampUnit_nan x : is_nan (clampUnit x) = is_nan x.
Proof. unfold clampUnit. by rewrite fmax_nan, fmin_nan. Qed.

Lemma clampUnit_range x :
  is_nan x = false -> fle f0 (clampUnit x) = true /\ fle (clampUnit x) f1 = true.
Proof.
  intros Hn. unfold clampUnit.
  assert (is_nan (fmin f1 x) = false) as Hm by (by rewrite fmin_nan).
  split; [by apply fmax_ge_l|]. apply fmax_lub; [done|by apply fmin_le_l].
Qed.

Lemma clampUnit_mono x y : fle x y = true -> fle (clampUnit x) (clampUnit y) = true.
Proof.
  intros Hxy.
  assert (is_nan x = false /\ is_nan y = false) as [Hx Hy].
  { destruct x, y; simpl in *; done. }
  unfold clampUnit. apply fmax_lub.
  - apply fmax_ge_l; [done|by rewrite fmin_nan].
  - eapply fle_trans; [|apply fmax_ge_r; [done|by rewrite fmin_nan]].
    apply fmin_glb; [by apply fmin_le_l|].
    eapply fle_trans; [by apply fmin_le_r|done].
Qed.

(** ** Lemmas: scoring *)

Lemma findNode_true topo name n :
  findNode topo name = (n, true) -> n ∈ topo_nodes topo /\ NodeState_Name n = name.
Proof.
  unfold findNode. destruct (find_first _ _) eqn:E; intros; simplify_eq.
  by apply find_first_Some in E as [? ?%String.eqb_eq].
Qed.

Lemma penalise_observed topo w sigs l r :
  (forall sig, sig ∈ sigs -> signalObserved topo sig = true) ->
  (fold_left (penalise topo w) sigs (l, r)).1 = l.
Proof.
  revert r. induction sigs as [|s sigs IH]; intros r Hobs; simpl; [done|].
  rewrite (Hobs s) by left. apply IH. intros. apply Hobs. by right.
Qed.

Lemma scoreEvent_fields fp e topo w prior :
  let s := scoreEvent fp e topo w prior in
  CausalScore_EventID s = ChangeEvent_ID e /\
  CausalScore_InTopology s = (findNode topo (ChangeEvent_Target e)).2 /\
  CausalScore_LiveCorroborated s
    = (findNode topo (ChangeEvent_Target e)).2
      && (NodeState_State (findNode topo (ChangeEvent_Target e)).1 =s "degraded") /\
  exists raw, CausalScore_Likelihood s =
    clampUnit (fold_left (penalise topo w) (ChangeEvent_PredictedSignals e)
                 (if CausalScore_LiveCorroborated s then raw else fmin raw (W_HistoricalAloneCap w), [])).1.
Proof.
  assert (forall topo w sigs l r r', (fold_left (penalise topo w) sigs (l, r)).1
            = (fold_left (penalise topo w) sigs (l, r')).1) as Hirr.
  { clear. intros topo w sigs. induction sigs as [|s sigs IH]; intros l r r'; simpl; [done|]. apply IH. }
  unfold scoreEvent. destruct (findNode topo (ChangeEvent_Target e)) as [node inPath].
  destruct (historical_base prior fp w) as [base corr]. cbn [fst snd].
  destruct (inPath && _) eqn:El; destruct (fold_left _ _ _) as [l r] eqn:Ef; simpl;
    repeat split; try done; eexists; f_equal; erewrite (Hirr _ _ _ _ []), Ef; done.
Qed.

Lemma coherentSubject_iff ref sao :
  coherentSubject ref sao = true <->
  EvidenceRef_Subject ref <> ""%string /\
  exists s, sao = Some s /\
    (EvidenceRef_Subject ref = SignalSnapshot_OriginService (SAO_Signal s) \/
     exists n, n ∈ topo_nodes (SAO_Topology s) /\ NodeState_Name n = EvidenceRef_Subject ref).
Proof.
  unfold coherentSubject, inTopology. destruct sao as [s|]; [|split; [done|by intros (_ & ? & ? & _)]].
  destruct (EvidenceRef_Subject ref =s "") eqn:Es.
  - apply String.eqb_eq in Es. split; [done|]. by intros [? _].
  - apply String.eqb_neq in Es. rewrite orb_true_iff, String.eqb_eq, existsb_elem.
    setoid_rewrite String.eqb_eq. naive_solver.
Qed.

Lemma cited_iff c key : cited c key = true <-> key ∈ Candidate_Citations c.
Proof.
  unfold cited. rewrite existsb_elem. split.
  - by intros (x & Hx & ->%String.eqb_eq).
  - intros. exists key. by rewrite seqb_refl.
Qed.

Lemma grounds_iff cand sao ref :
  cited cand (EvidenceRef_Key ref) && EvidenceRef_Live ref && coherentSubject ref sao = true
  <-> grounds cand sao ref.
Proof. rewrite !andb_true_iff, cited_iff, coherentSubject_iff. unfold grounds. naive_solver. Qed.

Lemma set_size_ge_2 (X : gset string) :
  (2 <= size X)%nat <-> exists x y, x ∈ X /\ y ∈ X /\ x <> y.
Proof.
  split.
  - intros Hs. destruct (set_choose_L X) as [x Hx].
    { intros ->. rewrite size_empty in Hs. lia. }
    destruct (set_choose_L (X ∖ {[x]})) as [y Hy].
    { intros He. assert (X ⊆ {[x]}) as Hsub by (intros z Hz; destruct (decide (z = x)); set_solver).
      apply subseteq_size in Hsub. rewrite size_singleton in Hsub. lia. }
    exists x, y. set_solver.
  - intros (x & y & Hx & Hy & Hne).
    assert ({[x; y]} ⊆ X) as Hsub by set_solver. apply subseteq_size in Hsub.
    rewrite size_union, !size_singleton in Hsub by set_solver. lia.
Qed.

Lemma coherentLiveCitations_ge_2 cand evidence sao :
  2 <= coherentLiveCitations cand evidence sao <->
  exists r1 r2, r1 ∈ evidence /\ r2 ∈ evidence /\ grounds cand sao r1 /\ grounds cand sao r2 /\
    EvidenceRef_Tool r1 <> EvidenceRef_Tool r2.
Proof.
  unfold coherentLiveCitations.
  assert (forall n, 2 <= Z.of_nat n <-> (2 <= n)%nat) as -> by lia.
  rewrite set_size_ge_2. setoid_rewrite elem_of_list_to_set. setoid_rewrite list_elem_of_fmap.
  setoid_rewrite elem_of_filterb. setoid_rewrite grounds_iff. split.
  - intros (x & y & (r1 & -> & ? & ?) & (r2 & -> & ? & ?) & ?). by exists r1, r2.
  - intros (r1 & r2 & ? & ? & ? & ? & ?). exists (EvidenceRef_Tool r1), (EvidenceRef_Tool r2). eauto 10.
Qed.

Lemma anyCoherentLive_filter cand refs sao :
  anyCoherentLive (List.filter (fun ref => cited cand (EvidenceRef_Key ref)) refs) sao = true <->
  exists ref, ref ∈ refs /\ grounds cand sao ref.
Proof.
  unfold anyCoherentLive. rewrite existsb_elem. setoid_rewrite elem_of_filterb.
  setoid_rewrite <- grounds_iff. setoid_rewrite andb_true_iff. setoid_rewrite andb_true_iff. naive_solver.
Qed.

(** ** Lemmas: the case base *)

Lemma tally_counts fp cases v s :
  fold_left (tally fp) cases (v, s) =
  (v + Z.of_nat (length (List.filter (live_vote fp) cases)),
   s + Z.of_nat (length (List.filter (live_success fp) cases))).
Proof.
  revert v s. induction cases as [|c cases IH]; intros v s; cbn [fold_left List.filter length Z.of_nat].
  - by rewrite !Z.add_0_r.
  - unfold tally at 2, live_vote at 1, live_success at 1.
    destruct (Case_SignalRef c =s fp), (Case_Mode c =s ModeLive); simpl; try apply IH.
    destruct (Case_Result c =s ResultSuccess); simpl; [rewrite IH; f_equal; lia|].
    destruct (_ || _); rewrite IH; simpl; f_equal; lia.
Qed.

Lemma case_limit_pos cb : 1 <= case_limit cb.
Proof. unfold case_limit, maxCases. case_match; bsplit; lia. Qed.

(** ** Lemmas: the stable sort *)

Lemma insert_by_perm {A} (key : A -> Z) x l : insert_by key x l ≡ₚ x :: l.
Proof.
  induction l as [|y l IH]; simpl; [done|]. case_match; [|done]. rewrite IH. by apply Permutation_swap.
Qed.

Lemma sort_stable_perm {A} (key : A -> Z) l : sort_stable_by key l ≡ₚ l.
Proof. induction l as [|x l IH]; simpl; [done|]. rewrite insert_by_perm. by rewrite IH. Qed.

Lemma insert_by_sorted {A} (key : A -> Z) x l :
  StronglySorted (fun a b => key a <= key b) l ->
  StronglySorted (fun a b => key a <= key b) (insert_by key x l).
Proof.
  induction 1 as [|y l Hs IH Hall]; simpl; [by repeat constructor|].
  destruct (Z.ltb_spec (key y) (key x)) as [Hlt|Hge].
  - constructor; [done|]. rewrite insert_by_perm. constructor; [lia|done].
  - constructor; [by constructor|]. constructor; [done|].
    eapply Forall_impl; [|exact Hall]. simpl. intros. lia.
Qed.

Lemma sort_stable_sorted {A} (key : A -> Z) l :
  StronglySorted (fun a b => key a <= key b) (sort_stable_by key l).
Proof. induction l; simpl; [constructor|by apply insert_by_sorted]. Qed.

Lemma insert_by_filter {A} (key : A -> Z) k x l :
  List.filter (fun a => key a =? k) (insert_by key x l)
  = List.filter (fun a => key a =? k) (x :: l).
Proof.
  induction l as [|y l IH]; simpl; [done|].
  destruct (Z.ltb_spec (key y) (key x)) as [Hlt|]; [|done]. simpl in *. rewrite IH.
  destruct (Z.eqb_spec (key x) k), (Z.eqb_spec (key y) k); try done. lia.
Qed.

Lemma sort_stable_filter {A} (key : A -> Z) k l :
  List.filter (fun a => key a =? k) (sort_stable_by key l) = List.filter (fun a => key a =? k) l.
Proof.
  induction l as [|x l IH]; simpl; [done|]. rewrite insert_by_filter. simpl. by rewrite IH.
Qed.

Lemma set_rank_set_rank c r r' : set_rank (set_rank c r) r' = set_rank c r'.
Proof. done. Qed.

Lemma unranked_imap l : map unranked (imap (fun i c => set_rank c (Z.of_nat i + 1)) l) = map unranked l.
Proof.
  assert (forall k, map unranked (imap (fun i c => set_rank c (Z.of_nat (k + i) + 1)) l) = map unranked l) as Hk.
  { induction l as [|c l IH]; intros k; simpl; [done|]. f_equal.
    rewrite <- (IH (S k)). f_equal. apply imap_ext. intros. simpl. do 2 f_equal. lia. }
  apply (Hk 0%nat).
Qed.

Lemma timeToEffect_unranked c : timeToEffect (unranked c) = timeToEffect c.
Proof. done. Qed.

#[export] Hint Resolve clampUnit_range clampUnit_mono case_limit_pos : go.

(** ** Claims *)

(** Every change event is scored, and no score escapes its bounds: a
    likelihood that is a number lies in [0, 1]; an event counts as live
    corroborated only when its target is a degraded node of the signal's own
    topology; and one that is not, none of whose predicted signals is missing,
    never exceeds the cap on uncorroborated history. *)
Theorem causal_scores_bounded prior fp change topo w :
  Forall2 (fun e s =>
      let L := CausalScore_Likelihood s in
      CausalScore_EventID s = ChangeEvent_ID e /\
      (is_nan L = false -> fle f0 L = true /\ fle L f1 = true) /\
      (CausalScore_LiveCorroborated s = true ->
         CausalScore_InTopology s = true /\
         exists n, n ∈ topo_nodes topo /\ NodeState_Name n = ChangeEvent_Target e /\
                   NodeState_State n = "degraded"%string) /\
      (CausalScore_LiveCorroborated s = false -> is_nan L = false ->
         (forall sig, sig ∈ ChangeEvent_PredictedSignals e -> signalObserved topo sig = true) ->
         fle L (clampUnit (W_HistoricalAloneCap w)) = true))
    (ChangeSnapshot_Events change) (Score prior fp change topo w).
Proof.
  unfold Score. induction (ChangeSnapshot_Events change) as [|e es IH]; simpl; constructor; [|done].
  destruct (scoreEvent_fields fp e topo w prior) as (Hid & Hin & Hlive & raw & HL).
  set (s := scoreEvent fp e topo w prior) in *. clearbody s. split; [done|]. split; [|split].
  - intros Hn. rewrite HL in Hn |- *. rewrite clampUnit_nan in Hn. by apply clampUnit_range.
  - rewrite Hlive, Hin. destruct (findNode topo _) as [n []] eqn:Ef; [|done]. simpl. intros Hd.
    apply findNode_true in Ef as [? ?]. split; [done|]. exists n. split; [done|]. split; [done|].
    by apply String.eqb_eq.
  - intros Hc Hn Hobs. rewrite HL, Hc in Hn |- *. rewrite penalise_observed in Hn |- * by done.
    rewrite clampUnit_nan, fmin_nan in Hn. apply orb_false_iff in Hn as [? ?].
    apply clampUnit_mono. by apply fmin_le_r.
Qed.

(** C24. The self-report is a ceiling, never a floor: grading changes no
    candidate's identity or citations, its emitted confidence never exceeds the
    model's own figure nor what the evidence supports, the ceiling flag says
    exactly when the self-report bound, a causal bonus never lifts the computed
    figure above 1, and full grounding (two corroborations) takes two pieces of
    live, cited, in-topology evidence from different backends. *)
Theorem confidence_is_a_ceiling set sao prior fp w :
  Forall2 (fun c c' =>
      Candidate_ID c' = Candidate_ID c /\ Candidate_ContractRef c' = Candidate_ContractRef c /\
      Candidate_Citations c' = Candidate_Citations c /\
      (is_nan (Candidate_Confidence c') = false ->
         fle (Candidate_Confidence c') (Candidate_Confidence c) = true /\
         fle (Candidate_Confidence c') (Candidate_ComputedConfidence c') = true) /\
      Candidate_ConfidenceCeilingBound c' = fgt (Candidate_ComputedConfidence c') (Candidate_Confidence c) /\
      (ConfidenceTerms_LikelihoodOK (Candidate_Terms c') = true ->
         is_nan (Candidate_ComputedConfidence c') = false ->
         fle (Candidate_ComputedConfidence c') f1 = true) /\
      (2 <= ConfidenceTerms_Corroborated (Candidate_Terms c') <->
         exists r1 r2, r1 ∈ Set_Evidence set /\ r2 ∈ Set_Evidence set /\
           grounds c (Set_SAOSnapshot set) r1 /\ grounds c (Set_SAOSnapshot set) r2 /\
           EvidenceRef_Tool r1 <> EvidenceRef_Tool r2))
    (Set_Proposals set) (Set_Proposals (scoreConfidences set sao prior fp w)).
Proof.
  unfold scoreConfidences, with_proposals. cbn [Set_Proposals].
  induction (Set_Proposals set) as [|c cs IH]; simpl; constructor; [|done]. clear IH.
  unfold grade. cbn [Candidate_ID Candidate_ContractRef Candidate_Citations Candidate_Confidence
    Candidate_ComputedConfidence Candidate_ConfidenceCeilingBound Candidate_Terms
    ConfidenceTerms_LikelihoodOK ConfidenceTerms_Corroborated].
  repeat (split; [done|]). split; [|split; [done|split]].
  - intros Hn. rewrite fmin_nan in Hn. apply orb_false_iff in Hn as [? ?].
    split; [by apply fmin_le_r|by apply fmin_le_l].
  - unfold groundedConfidence. intros ->. intros Hn. rewrite fmin_nan in Hn.
    apply orb_false_iff in Hn as [? ?]. by apply fmin_le_l.
  - rewrite <- coherentLiveCitations_ge_2. unfold inputs_for.
    destruct (max_likelihood _). by repeat case_match.
Qed.

(** A prior needs two live votes: [Alignment] answers for a fingerprint
    exactly when at least two live cases of that fingerprint settled as
    success, failure or non-convergence, and then answers the fraction that
    succeeded; rehearsals and unsettled results never vote. *)
Theorem Alignment_needs_two_live_votes (cb : CaseBase) (fp : string) :
  Alignment cb fp =
  if votes fp cb <? 2 then None else Some (fdiv (of_int (successes fp cb)) (of_int (votes fp cb))).
Proof. unfold Alignment. by rewrite tally_counts. Qed.

(** The case base is a bounded first-in-first-out window of traceable cases:
    an untraceable case is refused and changes nothing; a traceable one is
    stored last, evicting exactly the oldest when the base is full, so the
    bound is never exceeded. *)
Theorem Append_bounded_fifo (cb : CaseBase) (c : Case) :
  Z.of_nat (length (CaseBase_cases cb)) <= case_limit cb ->
  let '(cb', err) := Append cb c in
  Z.of_nat (length (CaseBase_cases cb')) <= case_limit cb' /\
  (err = None <-> provenanced c) /\
  (err <> None -> cb' = cb /\ exists e, err = Some e /\ errors_Is e ErrUnprovenancedCase = true) /\
  (err = None -> exists evicted,
     length evicted = (if (case_limit cb <=? Z.of_nat (length (CaseBase_cases cb)))%Z then 1 else 0)%nat /\
     evicted ++ CaseBase_cases cb' = CaseBase_cases cb ++ [c]).
Proof.
  intros Hb. unfold Append, provenanced.
  destruct (_ || _) eqn:Ep.
  - split; [done|]. split; [|split; [intros _; split; [done|eauto]|done]].
    rewrite !orb_true_iff, !String.eqb_eq in Ep. split; [done|]. naive_solver.
  - bsplit. pose proof (case_limit_pos cb) as Hp.
    assert (forall l, case_limit (mkCaseBase (CaseBase_MaxCases cb) l) = case_limit cb) as Hl by done.
    destruct (Z.leb_spec (case_limit cb) (Z.of_nat (length (CaseBase_cases cb)))); simpl; rewrite Hl.
    + destruct (CaseBase_cases cb) as [|x cs] eqn:Ec; simpl in *; [lia|].
      rewrite length_app. simpl. split; [lia|]. split; [naive_solver|]. split; [done|].
      intros _. by exists [x].
    + rewrite length_app. simpl. split; [lia|]. split; [naive_solver|]. split; [done|].
      intros _. by exists [].
Qed.

Definition demo_case : Case :=
  mkCase "r" "slo_burn:acme" "dec:1" "out:1" "acme-shed-load" "service_failure" f1 ModeLive ResultSuccess 7.

Lemma Append_bounded_fifo_witness :
  let '(cb', err) := Append (mkCaseBase 2 [demo_case; demo_case]) demo_case in
  Z.of_nat (length (CaseBase_cases cb')) <= case_limit cb' /\
  (err = None <-> provenanced demo_case) /\
  (err <> None -> cb' = mkCaseBase 2 [demo_case; demo_case] /\
     exists e, err = Some e /\ errors_Is e ErrUnprovenancedCase = true) /\
  (err = None -> exists evicted, length evicted = 1%nat /\
     evicted ++ CaseBase_cases cb' = [demo_case; demo_case] ++ [demo_case]).
Proof. apply (Append_bounded_fifo (mkCaseBase 2 [demo_case; demo_case]) demo_case). vm_compute. discriminate. Defined.

(** The readiness gate is a hard conjunction: it passes exactly when no set
    for the fingerprint is open and some evidence grounds the recommendation
    (live, about the affected service or a node of the frozen topology, and
    cited by the recommended candidate; a set with neither candidates nor a
    recommendation is judged on all of its evidence).  A failure is reported
    as the missing evidence first, then the duplicate. *)
Theorem gate_is_conjunction (ps : ProposalSet) (openDupes : list ProposalSet) :
  let g := gate_Evaluate ps openDupes in
  let grounded :=
    if (Set_Recommended ps =s "") && Nat.eqb (length (Set_Proposals ps)) 0 then
      exists ref, ref ∈ Set_Evidence ps /\ EvidenceRef_Live ref = true /\
                  coherentSubject ref (Set_SAOSnapshot ps) = true
    else exists rec ref, candidate_by_id ps (Set_Recommended ps) = Some rec /\
                         ref ∈ Set_Evidence ps /\ grounds rec (Set_SAOSnapshot ps) ref in
  (GateResult_EvidenceOK g = true <-> grounded) /\
  (GateResult_DedupeOK g = true <-> openDupes = []) /\
  (GateResult_Passed g = true <-> openDupes = [] /\ grounded) /\
  GateResult_Reason g =
    (if GateResult_Passed g then "" else if negb (GateResult_EvidenceOK g) then "evidence" else "dedupe")%string.
Proof.
  intros g grounded.
  assert (GateResult_EvidenceOK g = true <-> grounded) as He.
  { subst g grounded. unfold gate_Evaluate, recommendedEvidence. cbn [GateResult_EvidenceOK].
    destruct (_ && Nat.eqb _ _).
    - unfold anyCoherentLive. rewrite existsb_elem. setoid_rewrite andb_true_iff. done.
    - destruct (candidate_by_id ps _) as [rec|]; [|split; [done|by intros (? & ? & ? & _)]].
      destruct (Candidate_Citations rec) as [|k ks] eqn:Ec.
      + split; [done|]. intros (rec' & ref & Hrec & _ & Hg & _). simplify_eq. rewrite Ec in Hg.
        by apply elem_of_nil in Hg.
      + rewrite anyCoherentLive_filter. naive_solver. }
  assert (GateResult_DedupeOK g = true <-> openDupes = []) as Hd.
  { subst g. simpl. by destruct openDupes. }
  split; [done|]. split; [done|].
  assert (GateResult_Passed g = GateResult_DedupeOK g && GateResult_EvidenceOK g) as Hp by done.
  rewrite Hp. split; [rewrite andb_true_iff; naive_solver|].
  subst g. unfold gate_Evaluate. cbn [GateResult_Reason GateResult_EvidenceOK GateResult_DedupeOK].
  by destruct (Nat.eqb (length openDupes) 0), (anyCoherentLive (recommendedEvidence ps) (Set_SAOSnapshot ps)).
Qed.

(** Ranking is a stable, auditable reordering: it keeps exactly the given
    candidates (up to their rank), numbers them from 1 in order, sorts them by
    time to effect with ties in their given order when the signal accelerates,
    and leaves the order alone otherwise, naming the axis it used. *)
Theorem Rank_is_stable_order (cands : list Candidate) (velocity : string) :
  let '(ranked, why) := Rank cands velocity in
  map unranked ranked ≡ₚ map unranked cands /\
  (forall i c, ranked !! i = Some c -> Candidate_Rank c = Z.of_nat i + 1) /\
  (velocity = "accelerating"%string ->
     RankingRationale_DominantAxis why = "time_to_effect"%string /\
     StronglySorted (fun a b => timeToEffect a <= timeToEffect b) (map unranked ranked) /\
     forall k, List.filter (fun c => timeToEffect c =? k) (map unranked ranked)
               = List.filter (fun c => timeToEffect c =? k) (map unranked cands)) /\
  (velocity <> "accelerating"%string ->
     RankingRationale_DominantAxis why = ""%string /\ map unranked ranked = map unranked cands).
Proof.
  unfold Rank.
  assert (forall l i c, imap (fun i c => set_rank c (Z.of_nat i + 1)) l !! i = Some c ->
            Candidate_Rank c = Z.of_nat i + 1) as Hnum.
  { intros l i c. rewrite list_lookup_imap. destruct (l !! i); intros; by simplify_eq/=. }
  assert (forall k l, List.filter (fun c => timeToEffect c =? k) (map unranked l)
            = map unranked (List.filter (fun c => timeToEffect c =? k) l)) as Hfm.
  { intros k l. induction l as [|x l IHl]; simpl; [done|].
    rewrite timeToEffect_unranked, IHl. by destruct (_ =? _). }
  destruct (velocity =s "accelerating") eqn:Ev; bsplit; rewrite unranked_imap.
  - split; [by rewrite sort_stable_perm|]. split; [apply Hnum|]. split; [|done]. intros _.
    split; [done|]. split.
    + pose proof (sort_stable_sorted timeToEffect cands) as Hs.
      induction Hs as [|x l _ IH Hx]; simpl; constructor; [done|].
      apply List.Forall_map. exact Hx.
    + intros k. by rewrite !Hfm, sort_stable_filter.
  - split; [done|]. split; [apply Hnum|]. by split.
Qed.
