(* ===== verification/ClankLedger.v ===== *)
(** * internal/clank: the ledger and the Learn edge

    [MemProposalLog] (ledger.go), [Click.Absorb] (click.go), the two consumer
    handlers of broker.go, and the replay that rebuilds the ledger and the case
    base after a restart (rebuild.go).  Telemetry has [Absorb] with its metrics recorder. *)

From Stdlib Require Import Sorted.
From S2P Require Import Prelude GoTime GoFloat Api ClankScore.
Local Open Scope Z_scope.

(** ** ledger.go *)

Definition ErrNoOpenSet : error := errors_New "click: no open proposal set answers to this outcome".

Definition ledgerRetention : Duration := 24 * Hour.

Record recorded : Type := mkRecorded { recorded_set : ProposalSet; recorded_at : Time }.

Record MemProposalLog : Type := mkLedger {
  Ledger_Retention : Duration;
  Ledger_sets : list recorded
}.

Definition NewMemProposalLog : MemProposalLog := mkLedger 0 [].

Definition isOpen (phase : string) : bool :=
  (phase =s PhaseProposed) || (phase =s PhaseAcknowledge) || (phase =s PhaseActed).

(** [r.set.Status != nil && isOpen(r.set.Status.Phase)] *)
Definition open_set (s : ProposalSet) : bool :=
  match Set_Status s with Some st => isOpen (Status_Phase st) | None => false end.

(** [r.set.Status != nil && !isOpen(r.set.Status.Phase)] *)
Definition closed_set (s : ProposalSet) : bool :=
  match Set_Status s with Some st => negb (isOpen (Status_Phase st)) | None => false end.

(** [Record]; [now] and [at_] are its two clock reads *)
Definition Record_ (ctx : context) (ps : ProposalSet) (now at_ : Time) (l : MemProposalLog)
  : MemProposalLog * option error :=
  match ctx_Err ctx with
  | Some e => (l, Some e)
  | None =>
      let retention := if Ledger_Retention l <=? 0 then ledgerRetention else Ledger_Retention l in
      let cutoff := Add now (- retention) in
      let kept := List.filter (fun r => After (recorded_at r) cutoff || negb (closed_set (recorded_set r)))
                    (Ledger_sets l) in
      (mkLedger (Ledger_Retention l) (kept ++ [mkRecorded ps at_]), None)
  end.

(** [Open]; a matching entry with a nil [Status] is a nil dereference in Go *)
Definition Open (ctx : context) (fingerprint : string) (since : Time) (l : MemProposalLog)
  : result (list ProposalSet) :=
  match ctx_Err ctx with
  | Some e => inr e
  | None =>
      let matching := List.filter (fun r => (Set_SignalRef (recorded_set r) =s fingerprint)
                                            && After (recorded_at r) since) (Ledger_sets l) in
      if existsb (fun r => match Set_Status (recorded_set r) with None => true | Some _ => false end) matching
      then inr (errors_New "panic: nil Status")
      else inl (map recorded_set (List.filter (fun r => open_set (recorded_set r)) matching))
  end.

Definition transition (st : Status) (o : Outcome) : Status :=
  let r := Outcome_Result o in
  if r =s ResultRendered then
    mkStatus PhaseAcknowledge (Status_Reason st) (Status_SupersededBy st) (Status_Outcome st) (Outcome_ExecutedAt o)
  else if r =s ResultApplied then
    mkStatus PhaseActed (Status_Reason st) (Status_SupersededBy st) r (Outcome_ExecutedAt o)
  else if (r =s ResultSuccess) || (r =s ResultFailure) || (r =s ResultPartialNonConverging) then
    mkStatus PhaseClosed (Status_Reason st) (Status_SupersededBy st) r (Outcome_ExecutedAt o)
  else mkStatus PhaseActed (Status_Reason st) (Status_SupersededBy st) r (Outcome_ExecutedAt o).

Definition with_status (s : ProposalSet) (st : Status) : ProposalSet :=
  mkSet (Set_Name s) (Set_RunID s) (Set_SignalRef s) (Set_SLORef s) (Set_SAOSnapshot s) (Set_FailureClass s)
    (Set_CausalScores s) (Set_Hypotheses s) (Set_Evidence s) (Set_ServiceTier s) (Set_Gate s) (Set_Proposals s)
    (Set_Recommended s) (Set_RankingRationale s) (Some st).

(** rewrite the status of one ledger entry *)
Definition on_status (f : Status -> Status) (r : recorded) : recorded :=
  match Set_Status (recorded_set r) with
  | Some st => mkRecorded (with_status (recorded_set r) (f st)) (recorded_at r)
  | None => r
  end.

(** the newest-first scan both [Observe] and [Decline] perform *)
Definition answers (fingerprint : string) (r : recorded) : bool :=
  (Set_SignalRef (recorded_set r) =s fingerprint) && open_set (recorded_set r).

Definition update_newest_open (fingerprint : string) (f : Status -> Status) (l : MemProposalLog)
  : MemProposalLog * result ProposalSet :=
  match update_last (answers fingerprint) (on_status f) (Ledger_sets l) with
  | Some (sets, r) => (mkLedger (Ledger_Retention l) sets, inl (recorded_set r))
  | None => (l, inr (errorf_wp ErrNoOpenSet (": " +:+ fingerprint)))
  end.

Definition Observe (ctx : context) (o : Outcome) (l : MemProposalLog) : MemProposalLog * result ProposalSet :=
  match ctx_Err ctx with
  | Some e => (l, inr e)
  | None => update_newest_open (Outcome_SignalRef o) (fun st => transition st o) l
  end.

Definition declined (at_ : Time) (st : Status) : Status :=
  mkStatus PhaseDeclined (Status_Reason st) (Status_SupersededBy st) (Status_Outcome st) at_.

Definition Decline (ctx : context) (fingerprint : string) (at_ : Time) (l : MemProposalLog)
  : MemProposalLog * result ProposalSet :=
  match ctx_Err ctx with
  | Some e => (l, inr e)
  | None => update_newest_open fingerprint (declined at_) l
  end.

Definition seedAt (ps : ProposalSet) (at_ : Time) (l : MemProposalLog) : MemProposalLog :=
  mkLedger (Ledger_Retention l) (Ledger_sets l ++ [mkRecorded ps at_]).

(** ** click.go *)

Definition ErrUnauditableOutcome : error := errors_New "click: outcome fails its audit invariant".
Definition ErrIncoherentOutcome : error := errors_New "click: outcome mode and result disagree".

Record Click : Type := mkClick { Click_Ledger : MemProposalLog; Click_Cases : CaseBase }.

Definition coherent (o : Outcome) : bool :=
  if Outcome_Mode o =s ModeDryRun then Outcome_Result o =s ResultRendered
  else Outcome_Result o <>s ResultRendered.

(** the last candidate named by [Recommended]: the loop does not stop at the first *)
Definition recommended_confidence (set : ProposalSet) : float64 :=
  fold_left (fun conf cand => if Candidate_ID cand =s Set_Recommended set then Candidate_Confidence cand else conf)
    (Set_Proposals set) f0.

Definition newCase (set : ProposalSet) (o : Outcome) : Case :=
  mkCase (Set_RunID set) (Outcome_SignalRef o) (Outcome_DecisionRef o) (Outcome_ID o) (Outcome_ContractRef o)
    (Set_FailureClass set) (recommended_confidence set) (Outcome_Mode o) (Outcome_Result o) (Outcome_ExecutedAt o).

Definition Absorb (ctx : context) (o : Outcome) (c : Click) : Click * option error :=
  match Outcome_Auditable o with
  | Some e => (c, Some (errorf_ww ErrUnauditableOutcome e))
  | None =>
      if negb (coherent o) then
        (c, Some (errorf_wp ErrIncoherentOutcome
                    (": mode " +:+ fmt_q (Outcome_Mode o) +:+ " claims result " +:+ fmt_q (Outcome_Result o))))
      else
        match Observe ctx o (Click_Ledger c) with
        | (l', inr e) => (mkClick l' (Click_Cases c), Some e)
        | (l', inl set) =>
            let '(cb', err) := Append (Click_Cases c) (newCase set o) in
            (mkClick l' cb', err)
        end
  end.

(** ** broker.go: the two return-edge handlers; every result is an Ack *)

Definition learnHandler (ctx : context) (c : Click) (o : Outcome) : Click * option error :=
  let '(c', _) := Absorb ctx o c in (c', None).

Definition declineHandler (ctx : context) (l : MemProposalLog) (dec : Decision) : MemProposalLog * option error :=
  let '(l', _) := Decline ctx (Decision_SignalRef dec) (Decision_EvaluatedAt dec) l in (l', None).

(** ** rebuild.go *)

Inductive replayPayload : Type :=
| ReplayProposal (ps : ProposalSet)
| ReplayOutcome (o : Outcome)
| ReplayDecline (d : Decision).

Record replayEvent : Type := mkReplayEvent { replay_at : Time; replay_payload : replayPayload }.

Definition replayInto (ctx : context) (ev : replayEvent) (c : Click) : result Click :=
  match replay_payload ev with
  | ReplayProposal ps => inl (mkClick (seedAt ps (replay_at ev) (Click_Ledger c)) (Click_Cases c))
  | ReplayOutcome o =>
      match Observe ctx o (Click_Ledger c) with
      | (l', inr e) => if errors_Is e ErrNoOpenSet then inl (mkClick l' (Click_Cases c)) else inr e
      | (l', inl set) =>
          match Append (Click_Cases c) (newCase set o) with
          | (_, Some e) => inr (errorf_w "rebuild casebase: " e)
          | (cb', None) => inl (mkClick l' cb')
          end
      end
  | ReplayDecline d =>
      match Decline ctx (Decision_SignalRef d) (Decision_EvaluatedAt d) (Click_Ledger c) with
      | (l', inr e) => if errors_Is e ErrNoOpenSet then inl (mkClick l' (Click_Cases c)) else inr e
      | (l', inl _) => inl (mkClick l' (Click_Cases c))
      end
  end.

Fixpoint replay_all (ctx : context) (evs : list replayEvent) (c : Click) : result Click :=
  match evs with
  | [] => inl c
  | ev :: evs' => match replayInto ctx ev c with
                  | inr e => inr (errorf_w "clank: rebuild ledger: replay: " e)
                  | inl c' => replay_all ctx evs' c'
                  end
  end.

(** [rebuildLedger] over the three drained subjects, in stream order of
    [proposals], [outcomes] and [declines].  [sort.Slice] by timestamp is the
    stable order when no two events share one. *)
Definition rebuildLedger (ctx : context) (proposals outcomes declines : list replayEvent)
  (retention : Duration) (cases : CaseBase) : result Click :=
  replay_all ctx (sort_stable_by replay_at (proposals ++ outcomes ++ declines))
    (mkClick (mkLedger retention []) cases).

(** ** The live history: the same events, as the running beat sees them

    A live proposal carries the two clock reads of [Record_]; a set the gate
    refused is recorded too, but never reaches thump.proposals. *)

Inductive live_event : Type :=
| LiveProposal (ps : ProposalSet) (now at_ : Time)
| LiveRefused (ps : ProposalSet) (now at_ : Time)
| LiveOutcome (o : Outcome)
| LiveDecline (d : Decision).

Definition live_step (ctx : context) (c : Click) (ev : live_event) : Click :=
  match ev with
  | LiveProposal ps now at_ | LiveRefused ps now at_ =>
      mkClick (Record_ ctx ps now at_ (Click_Ledger c)).1 (Click_Cases c)
  | LiveOutcome o => (learnHandler ctx c o).1
  | LiveDecline d => mkClick (declineHandler ctx (Click_Ledger c) d).1 (Click_Cases c)
  end.

(** what the streams hold of a live history, with the broker's timestamps *)
Fixpoint streamed (ts : list Time) (evs : list live_event) : list replayEvent :=
  match evs, ts with
  | LiveRefused _ _ _ :: evs', _ :: ts' => streamed ts' evs'
  | LiveProposal ps _ _ :: evs', t :: ts' => mkReplayEvent t (ReplayProposal ps) :: streamed ts' evs'
  | LiveOutcome o :: evs', t :: ts' => mkReplayEvent t (ReplayOutcome o) :: streamed ts' evs'
  | LiveDecline d :: evs', t :: ts' => mkReplayEvent t (ReplayDecline d) :: streamed ts' evs'
  | _, _ => []
  end.

(** ** Lemmas *)

(** what the ledger still answers for: its open sets, oldest first *)
Definition open_view (l : MemProposalLog) : list ProposalSet :=
  List.filter open_set (map recorded_set (Ledger_sets l)).

Definition answers_set (fp : string) (s : ProposalSet) : bool := (Set_SignalRef s =s fp) && open_set s.

Definition on_set_status (f : Status -> Status) (s : ProposalSet) : ProposalSet :=
  match Set_Status s with Some st => with_status s (f st) | None => s end.

Lemma recorded_set_on_status f r : recorded_set (on_status f r) = on_set_status f (recorded_set r).
Proof. unfold on_status, on_set_status. by destruct (Set_Status (recorded_set r)). Qed.

Lemma update_newest_open_Some fp f l l' s :
  update_newest_open fp f l = (l', inl s) ->
  exists pre r post, Ledger_sets l = pre ++ r :: post /\ answers fp r = true /\
    Forall (fun z => answers fp z = false) post /\
    Ledger_sets l' = pre ++ on_status f r :: post /\ s = on_set_status f (recorded_set r).
Proof.
  unfold update_newest_open. destruct (update_last _ _ _) as [[sets r']|] eqn:E; [|done].
  intros [= <- <-]. apply update_last_Some in E as (pre & r & post & ? & ? & ? & ? & ->).
  exists pre, r, post. by rewrite recorded_set_on_status.
Qed.

Lemma update_newest_open_None fp f l l' e :
  update_newest_open fp f l = (l', inr e) ->
  l' = l /\ errors_Is e ErrNoOpenSet = true /\ Forall (fun z => answers fp z = false) (Ledger_sets l).
Proof.
  unfold update_newest_open. destruct (update_last _ _ _) as [[sets r']|] eqn:E; [done|].
  intros [= <- <-]. by apply update_last_None in E.
Qed.

Lemma answers_set_view fp post :
  Forall (fun z => answers fp z = false) post ->
  Forall (fun s => answers_set fp s = false) (List.filter open_set (map recorded_set post)).
Proof.
  induction 1 as [|r post Hr _ IH]; simpl; [constructor|].
  destruct (open_set (recorded_set r)); [by constructor|done].
Qed.

Lemma filter_idem {A} (p : A -> bool) l : List.filter p (List.filter p l) = List.filter p l.
Proof. induction l as [|x l IH]; simpl; [done|]. destruct (p x) eqn:E; simpl; [by rewrite E, IH|done]. Qed.

(** [update_newest_open] sees the ledger only through its open sets *)
Lemma update_newest_open_view fp f l :
  match update_last (answers_set fp) (on_set_status f) (open_view l) with
  | Some (v, s) => exists l', update_newest_open fp f l = (l', inl s) /\ open_view l' = List.filter open_set v
  | None => update_newest_open fp f l = (l, inr (errorf_wp ErrNoOpenSet (": " +:+ fp)))
  end.
Proof.
  destruct (update_newest_open fp f l) as [l' [s|e]] eqn:E.
  - apply update_newest_open_Some in E as (pre & r & post & Hl & Ha & Hpost & Hl' & ->).
    unfold open_view at 1. rewrite Hl, map_app, List.filter_app. simpl.
    assert (open_set (recorded_set r) = true) as Ho by (unfold answers in Ha; by bsplit).
    rewrite Ho. rewrite update_last_app; [|done|by apply answers_set_view].
    exists l'. split; [done|]. unfold open_view. rewrite Hl', map_app, !List.filter_app. simpl.
    by rewrite recorded_set_on_status, !filter_idem.
  - apply update_newest_open_None in E as E'. destruct E' as (-> & _ & Hno).
    apply answers_set_view in Hno. fold (open_view l) in Hno.
    rewrite (proj2 (update_last_None _ _ _) Hno).
    unfold update_newest_open in *. destruct (update_last _ _ (Ledger_sets l)) as [[]|]; by simplify_eq.
Qed.

Lemma update_newest_open_same_view fp f l1 l2 :
  open_view l1 = open_view l2 ->
  (update_newest_open fp f l1).2 = (update_newest_open fp f l2).2 /\
  open_view (update_newest_open fp f l1).1 = open_view (update_newest_open fp f l2).1.
Proof.
  intros Hv. pose proof (update_newest_open_view fp f l1) as H1.
  pose proof (update_newest_open_view fp f l2) as H2. rewrite Hv in H1.
  destruct (update_last _ _ (open_view l2)) as [[v s]|].
  - destruct H1 as (l1' & -> & Hv1), H2 as (l2' & -> & Hv2). simpl. by rewrite Hv1, Hv2.
  - rewrite H1, H2. done.
Qed.

Lemma closed_open_set s : closed_set s = true -> open_set s = false.
Proof. unfold closed_set, open_set. destruct (Set_Status s); [|done]. intros. by bsplit. Qed.

Lemma Record_view ctx ps now at_ l :
  ctx_Err ctx = None ->
  open_view (Record_ ctx ps now at_ l).1 = open_view l ++ (if open_set ps then [ps] else []).
Proof.
  intros Hc. unfold Record_, open_view. rewrite Hc. simpl. rewrite map_app, List.filter_app. f_equal.
  set (cut := Add now _). clearbody cut.
  induction (Ledger_sets l) as [|r rs IH]; simpl; [done|].
  destruct (_ || _) eqn:E; simpl; [by rewrite IH|].
  apply orb_false_iff in E as [_ E]. apply negb_false_iff, closed_open_set in E. by rewrite E.
Qed.

Lemma seedAt_view ps at_ l : open_view (seedAt ps at_ l) = open_view l ++ (if open_set ps then [ps] else []).
Proof. unfold open_view, seedAt. simpl. by rewrite map_app, List.filter_app. Qed.

(** ** Lemmas: replay order *)

Lemma strict_sorted_unique (l l' : list replayEvent) :
  StronglySorted (fun a b => replay_at a < replay_at b) l ->
  StronglySorted (fun a b => replay_at a <= replay_at b) l' ->
  l ≡ₚ l' -> l = l'.
Proof.
  intros Hs. revert l'. induction Hs as [|x l _ IH Hx]; intros l' Hs' Hp.
  - by apply Permutation_nil_l in Hp.
  - destruct l' as [|y l']; [by symmetry in Hp; apply Permutation_nil_cons in Hp|].
    inversion Hs' as [|? ? Hs'' Hy]; subst.
    assert (x = y) as ->.
    { assert (x ∈ y :: l') as [->|Hxl]%elem_of_cons by (rewrite <- Hp; left); [done|].
      assert (y ∈ x :: l) as [->|Hyl]%elem_of_cons by (rewrite Hp; left); [done|].
      rewrite list.Forall_forall in Hx, Hy. specialize (Hx _ Hyl). specialize (Hy _ Hxl). simpl in *. lia. }
    f_equal. apply IH; [done|]. by apply Permutation_cons_inv in Hp.
Qed.

Definition is_proposal (ev : replayEvent) : bool := match replay_payload ev with ReplayProposal _ => true | _ => false end.
Definition is_outcome (ev : replayEvent) : bool := match replay_payload ev with ReplayOutcome _ => true | _ => false end.
Definition is_decline (ev : replayEvent) : bool := match replay_payload ev with ReplayDecline _ => true | _ => false end.

Lemma three_subjects_perm l :
  List.filter is_proposal l ++ List.filter is_outcome l ++ List.filter is_decline l ≡ₚ l.
Proof.
  induction l as [|ev l IH]; simpl; [done|].
  unfold is_proposal at 1, is_outcome at 1, is_decline at 1. destruct (replay_payload ev); simpl.
  - by rewrite IH.
  - rewrite <- Permutation_middle. by rewrite IH.
  - rewrite app_assoc, <- Permutation_middle, <- app_assoc. by rewrite IH.
Qed.

Lemma rebuild_order l :
  StronglySorted (fun a b => replay_at a < replay_at b) l ->
  sort_stable_by replay_at (List.filter is_proposal l ++ List.filter is_outcome l ++ List.filter is_decline l) = l.
Proof.
  intros Hs. symmetry. apply strict_sorted_unique; [done|apply sort_stable_sorted|].
  by rewrite sort_stable_perm, three_subjects_perm.
Qed.

Lemma streamed_sorted ts evs :
  StronglySorted Z.lt ts -> StronglySorted (fun a b => replay_at a < replay_at b) (streamed ts evs).
Proof.
  assert (forall t ts' evs', Forall (Z.lt t) ts' -> Forall (fun b => t < replay_at b) (streamed ts' evs')) as Hlow.
  { intros t ts' evs' Ht. revert evs'. induction Ht as [|t' ts' Hlt _ IH]; intros [|[] evs'];
      simpl; auto; constructor; simpl; auto. }
  intros Hs. revert evs. induction Hs as [|t ts' _ IH Ht]; intros [|[] evs']; simpl; auto; try constructor;
    simpl; auto; by apply Hlow.
Qed.

(** ** Lemmas: live and replayed steps agree on what is open *)

(** an outcome [Absorb] accepts and the case base can trace *)
Definition absorbable (o : Outcome) : Prop :=
  Outcome_Auditable o = None /\ coherent o = true /\ Outcome_ID o <> ""%string /\ Outcome_SignalRef o <> ""%string.

Definition same_view (c1 c2 : Click) : Prop :=
  open_view (Click_Ledger c1) = open_view (Click_Ledger c2) /\ Click_Cases c1 = Click_Cases c2.

Lemma Append_absorbable cb set o : absorbable o -> exists cb', Append cb (newCase set o) = (cb', None).
Proof.
  intros ((Hd & _ & _ & Hr & _)%Outcome_Auditable_None & _ & Hid & Hs). unfold Append. simpl.
  rewrite !(proj2 (String.eqb_neq _ _)) by done. simpl. case_match; eauto.
Qed.

Lemma replay_outcome_agrees c1 c2 o at_ :
  same_view c1 c2 -> absorbable o ->
  exists c2', replayInto Background (mkReplayEvent at_ (ReplayOutcome o)) c2 = inl c2' /\
    same_view (learnHandler Background c1 o).1 c2'.
Proof.
  intros [Hv Hc] Ho. pose proof Ho as (Haud & Hcoh & _). unfold learnHandler, Absorb. rewrite Haud, Hcoh.
  unfold replayInto, Observe. simpl.
  destruct (update_newest_open_same_view (Outcome_SignalRef o) (fun st => transition st o) _ _ Hv) as [Hr Hv'].
  destruct (update_newest_open _ _ (Click_Ledger c1)) as [l1 [s|e]] eqn:E1;
    destruct (update_newest_open _ _ (Click_Ledger c2)) as [l2 r2] eqn:E2; simpl in *; subst r2.
  - destruct (Append_absorbable (Click_Cases c2) s o Ho) as [cb' Ha]. rewrite Hc, Ha. by exists (mkClick l2 cb').
  - apply update_newest_open_None in E2 as (-> & He & _). rewrite He. eexists. split; [done|]. split; simpl; done.
Qed.

Lemma replay_decline_agrees c1 c2 d at_ :
  same_view c1 c2 ->
  exists c2', replayInto Background (mkReplayEvent at_ (ReplayDecline d)) c2 = inl c2' /\
    same_view (mkClick (declineHandler Background (Click_Ledger c1) d).1 (Click_Cases c1)) c2'.
Proof.
  intros [Hv Hc]. unfold declineHandler, replayInto, Decline. simpl.
  destruct (update_newest_open_same_view (Decision_SignalRef d) (declined (Decision_EvaluatedAt d)) _ _ Hv) as [Hr Hv'].
  destruct (update_newest_open _ _ (Click_Ledger c1)) as [l1 r1] eqn:E1;
    destruct (update_newest_open _ _ (Click_Ledger c2)) as [l2 [s|e]] eqn:E2; simpl in *; subst r1.
  - by exists (mkClick l2 (Click_Cases c2)).
  - apply update_newest_open_None in E2 as (-> & He & _). rewrite He. eexists. split; [done|]. by split.
Qed.

(** ** Claims *)

(** An outcome or a decline moves exactly one row: the newest open set of its
    fingerprint takes the new status, every other row is untouched, and with
    none open the ledger is unchanged and [ErrNoOpenSet] is reported.  An
    outcome closes the set exactly when it settles it (success, failure or
    non-convergence); a decline always does. *)
Theorem ledger_moves_newest_open (o : Outcome) (fp : string) (at_ : Time) (l : MemProposalLog) :
  (forall l' r, Observe Background o l = (l', r) ->
     match r with
     | inl s => exists pre x st post, Ledger_sets l = pre ++ x :: post /\ answers (Outcome_SignalRef o) x = true /\
         Forall (fun z => answers (Outcome_SignalRef o) z = false) post /\
         Set_Status (recorded_set x) = Some st /\ s = with_status (recorded_set x) (transition st o) /\
         Ledger_sets l' = pre ++ mkRecorded s (recorded_at x) :: post /\
         (open_set s = false <-> Outcome_Result o = ResultSuccess \/ Outcome_Result o = ResultFailure \/
                                 Outcome_Result o = ResultPartialNonConverging)
     | inr e => l' = l /\ errors_Is e ErrNoOpenSet = true /\
         Forall (fun z => answers (Outcome_SignalRef o) z = false) (Ledger_sets l)
     end) /\
  (forall l' r, Decline Background fp at_ l = (l', r) ->
     match r with
     | inl s => exists pre x post, Ledger_sets l = pre ++ x :: post /\ answers fp x = true /\
         Forall (fun z => answers fp z = false) post /\
         Ledger_sets l' = pre ++ mkRecorded s (recorded_at x) :: post /\ open_set s = false
     | inr e => l' = l /\ errors_Is e ErrNoOpenSet = true /\
         Forall (fun z => answers fp z = false) (Ledger_sets l)
     end).
Proof.
  assert (forall f x fp, answers fp x = true -> exists st, Set_Status (recorded_set x) = Some st /\
     on_status f x = mkRecorded (with_status (recorded_set x) (f st)) (recorded_at x) /\
     on_set_status f (recorded_set x) = with_status (recorded_set x) (f st)) as Hst.
  { intros f x fp' Ha. unfold answers, open_set in Ha. unfold on_status, on_set_status.
    destruct (Set_Status (recorded_set x)) as [st|]; [by exists st|]. bsplit. done. }
  split; intros l' [s|e] Hrun; unfold Observe, Decline in Hrun; simpl in Hrun.
  - apply update_newest_open_Some in Hrun as (pre & x & post & Hl & Ha & Hp & Hl' & Hs).
    destruct (Hst (fun st => transition st o) _ _ Ha) as (st & Hx & Hr & Hs'). rewrite Hs' in Hs.
    exists pre, x, st, post. rewrite Hl', Hr, Hs. repeat (split; [done|]).
    unfold open_set, with_status, transition. simpl.
    repeat match goal with |- context [if ?a =s ?b then _ else _] => destruct (String.eqb_spec a b) as [->|] end;
      [split; [done|by intros [?|[?|?]]]..|].
    destruct (String.eqb_spec (Outcome_Result o) ResultSuccess); [split; auto|].
    destruct (String.eqb_spec (Outcome_Result o) ResultFailure); [split; auto|].
    destruct (String.eqb_spec (Outcome_Result o) ResultPartialNonConverging); [split; auto|].
    simpl. split; [done|]. naive_solver.
  - by apply update_newest_open_None in Hrun.
  - apply update_newest_open_Some in Hrun as (pre & x & post & Hl & Ha & Hp & Hl' & Hs).
    destruct (Hst (declined at_) _ _ Ha) as (st & Hx & Hr & Hs'). rewrite Hs' in Hs.
    exists pre, x, post. rewrite Hl', Hr, Hs. repeat (split; [done|]). done.
  - by apply update_newest_open_None in Hrun.
Qed.

(** Recording prunes only closed, expired rows: a set still open keeps
    answering for its fingerprint however old it is, nothing younger than the
    retention is dropped, and the new set is appended whatever its phase. *)
Theorem Record_never_prunes_open (ps : ProposalSet) (now at_ : Time) (l : MemProposalLog) :
  let retention := if Ledger_Retention l <=? 0 then ledgerRetention else Ledger_Retention l in
  let l' := (Record_ Background ps now at_ l).1 in
  open_view l' = open_view l ++ (if open_set ps then [ps] else []) /\
  (forall r, r ∈ Ledger_sets l' <->
     r = mkRecorded ps at_ \/
     r ∈ Ledger_sets l /\ (now - retention < recorded_at r \/ closed_set (recorded_set r) = false)).
Proof.
  intros retention l'. split; [by apply Record_view|]. intros r. subst l'. unfold Record_. simpl.
  rewrite elem_of_app, list_elem_of_singleton, elem_of_filterb, orb_true_iff, negb_true_iff.
  fold retention. unfold After, Add. rewrite Z.ltb_lt. replace (now + - retention) with (now - retention) by lia.
  naive_solver.
Qed.

(** A restart rebuilds what the beat still has to answer for: replaying the
    three streams of a live history (in the broker's timestamp order) yields
    exactly the open sets and the case base the live process had, whatever the
    live process pruned meanwhile, provided every outcome was one [Absorb]
    accepts and every set that was not published was recorded closed. *)
Theorem replay_restores_open_sets (evs : list live_event) (ts : list Time) (retention : Duration) (cases : CaseBase) :
  length ts = length evs -> StronglySorted Z.lt ts ->
  Forall (fun ev => match ev with
                    | LiveOutcome o => absorbable o
                    | LiveRefused ps _ _ => open_set ps = false
                    | _ => True
                    end) evs ->
  let history := streamed ts evs in
  let live := fold_left (live_step Background) evs (mkClick (mkLedger retention []) cases) in
  exists rebuilt,
    rebuildLedger Background (List.filter is_proposal history) (List.filter is_outcome history)
      (List.filter is_decline history) retention cases = inl rebuilt /\
    open_view (Click_Ledger rebuilt) = open_view (Click_Ledger live) /\
    Click_Cases rebuilt = Click_Cases live.
Proof.
  intros Hlen Hs Hev history live. unfold rebuildLedger. subst history live.
  rewrite rebuild_order by (by apply streamed_sorted). clear Hs.
  assert (forall c1 c2, same_view c1 c2 -> exists c2', replay_all Background (streamed ts evs) c2 = inl c2' /\
            same_view (fold_left (live_step Background) evs c1) c2') as Hgen.
  2: { destruct (Hgen _ _ (conj eq_refl eq_refl :
          same_view (mkClick (mkLedger retention []) cases) _)) as (c' & -> & Hv & Hc). eauto. }
  revert ts Hlen. induction Hev as [|ev evs Hev _ IH]; intros [|t ts] Hlen c1 c2 Hsv;
    try discriminate Hlen; [by exists c2|]. injection Hlen as Hlen.
  destruct ev as [ps now at_|ps now at_|o|d];
    cbn [fold_left live_step streamed replay_all replayInto replay_payload replay_at].
  - apply IH; [done|]. destruct Hsv as [Hv Hc]. split; cbn [Click_Ledger Click_Cases]; [|done].
    by rewrite Record_view, seedAt_view, Hv.
  - apply IH; [done|]. destruct Hsv as [Hv Hc]. split; cbn [Click_Ledger Click_Cases]; [|done].
    by rewrite Record_view, Hev, app_nil_r.
  - destruct (replay_outcome_agrees c1 c2 o t Hsv Hev) as (c2' & Hr & Hsv'). cbn [replayInto replay_payload] in Hr. rewrite Hr. by apply IH.
  - destruct (replay_decline_agrees c1 c2 d t Hsv) as (c2' & Hr & Hsv'). cbn [replayInto replay_payload] in Hr. rewrite Hr. by apply IH.
Qed.

Definition demo_open_set : ProposalSet :=
  mkSet "acme-burn-accel" "slo_burn:acme/1" "slo_burn:acme" "acme-availability" None
    "service_failure" [] [] [] "tier-1" None [] "c1" None (Some (mkStatus PhaseProposed "" "" "" 0)).

Definition demo_outcome : Outcome :=
  mkOutcome "out:1" "dec:1" "slo_burn:acme" "acme-shed-load" ModeLive ResultApplied "" 9 None.

Lemma replay_restores_open_sets_witness :
  let evs := [LiveProposal demo_open_set 5 5; LiveOutcome demo_outcome] in
  exists rebuilt,
    rebuildLedger Background (List.filter is_proposal (streamed [6; 9] evs))
      (List.filter is_outcome (streamed [6; 9] evs)) (List.filter is_decline (streamed [6; 9] evs)) 0 NewCaseBase
      = inl rebuilt /\
    open_view (Click_Ledger rebuilt)
      = open_view (Click_Ledger (fold_left (live_step Background) evs (mkClick (mkLedger 0 []) NewCaseBase))) /\
    Click_Cases rebuilt = Click_Cases (fold_left (live_step Background) evs (mkClick (mkLedger 0 []) NewCaseBase)).
Proof.
  intros evs. apply (replay_restores_open_sets evs [6; 9] 0 NewCaseBase).
  - reflexivity.
  - repeat constructor.
  - repeat constructor; try discriminate; reflexivity.
Defined.

(** Replay does not apply the checks the live edge applies: a live outcome
    whose mode and result disagree is refused by [Absorb] and changes nothing,
    but a rebuild absorbs it into the ledger and the case base. *)
Theorem replay_skips_absorb_checks :
  let bad := mkOutcome "out:1" "dec:1" "slo_burn:acme" "acme-shed-load" ModeLive ResultRendered "" 9 None in
  let start := mkClick (mkLedger 0 [mkRecorded demo_open_set 5]) NewCaseBase in
  (learnHandler Background start bad).1 = start /\
  exists rebuilt, replayInto Background (mkReplayEvent 9 (ReplayOutcome bad)) start = inl rebuilt /\
    length (CaseBase_cases (Click_Cases rebuilt)) = 1%nat /\
    map Set_Status (open_view (Click_Ledger rebuilt)) = [Some (mkStatus PhaseAcknowledge "" "" "" 9)].
Proof. vm_compute. split; [reflexivity|]. eexists. repeat split. Qed.

(** A blocked order is recorded as an act: an outcome saying the kill switch
    refused the order moves its set to the acted phase, so it stays open and
    keeps suppressing new proposals for its fingerprint although nothing ran. *)
Theorem blocked_outcome_marks_acted (o : Outcome) (st : Status) :
  Outcome_Result o = ResultBlocked ->
  Status_Phase (transition st o) = PhaseActed /\ isOpen (Status_Phase (transition st o)) = true /\
  Status_Outcome (transition st o) = ResultBlocked.
Proof. intros Hr. unfold transition. by rewrite Hr. Qed.

Lemma blocked_outcome_marks_acted_witness :
  Status_Phase (transition Status_zero
    (mkOutcome "out:1" "dec:1" "s" "c" ModeLive ResultBlocked "" 9 None)) = PhaseActed.
Proof.
  apply (blocked_outcome_marks_acted (mkOutcome "out:1" "dec:1" "s" "c" ModeLive ResultBlocked "" 9 None)).
  reflexivity.
Defined.
