(* ===== verification/ClankEngine.v ===== *)
(** * internal/clank: the reason loop

    [Engine.Propose] (engine.go) with everything it composes: the model-authored
    inputs (tools.go), [Intake.Assemble] (intake.go), the checkpoint [Store]
    (store.go), the ledger, the scorer, the ranker, the gate and the publishers.
    The language model, the evidence tools and the intake sources act on an
    environment [M] passed through explicitly; JSON decoding of a tool call's
    arguments is a parameter.  Token accounting and the log lines are left out. *)

From S2P Require Import Prelude GoTime GoFloat Api Contract Publish Configfile ClankScore ClankLedger.
From stdpp Require Import sorting.
Local Open Scope Z_scope.

(** ** internal/reason: the conversation vocabulary *)

Record ToolCall : Type := mkToolCall { ToolCall_ID : string; ToolCall_Name : string; ToolCall_Args : string }.

Record ToolResult : Type := mkToolResult {
  ToolResult_CallID : string;
  ToolResult_Digest : string;
  ToolResult_Name : string;
  ToolResult_IsError : bool
}.

Record Message : Type := mkMessage {
  Message_Role : string;
  Message_Content : string;
  Message_ToolCalls : list ToolCall;
  Message_ToolResults : list ToolResult
}.

Record Completion : Type := mkCompletion {
  Completion_Message : Message;
  Completion_ToolCalls : list ToolCall
}.

Record ToolSpec : Type := mkToolSpec {
  ToolSpec_Name : string;
  ToolSpec_Description : string;
  ToolSpec_InputSchema : string
}.

(** ** store.go *)

Record Turn : Type := mkTurn { Turn_RunID : string; Turn_Step : Z; Turn_Msgs : list Message }.

Definition turnKey (runID : string) (step : Z) : string :=
  "transcripts/" +:+ runID +:+ "/" +:+ fmt_d step +:+ ".json".

Definition finishKey (runID : string) : string := "transcripts/" +:+ runID +:+ "/finish.json".

Record MemStore : Type := mkMemStore {
  MemStore_pending : list Turn;
  MemStore_finished : gmap string (option error)
}.

Definition NewMemStore : MemStore := mkMemStore [] ∅.

Definition MemStore_Checkpoint (ctx : context) (t : Turn) (s : MemStore) : MemStore * option error :=
  match ctx_Err ctx with
  | Some e => (s, Some e)
  | None => (mkMemStore (MemStore_pending s ++ [t]) (MemStore_finished s), None)
  end.

Definition MemStore_Pending (ctx : context) (s : MemStore) : result (list Turn) :=
  match ctx_Err ctx with
  | Some e => inr e
  | None => inl (List.filter (fun t => match MemStore_finished s !! Turn_RunID t with
                                       | Some _ => false | None => true end) (MemStore_pending s))
  end.

Definition MemStore_Finish (ctx : context) (runID : string) (runErr : option error) (s : MemStore)
  : MemStore * option error :=
  match ctx_Err ctx with
  | Some e => (s, Some e)
  | None => (mkMemStore (MemStore_pending s) (<[runID := runErr]> (MemStore_finished s)), None)
  end.

(** ** limits.go *)

Record Limits : Type := mkLimits {
  Limits_MaxCases : Z;
  Limits_LedgerRetention : Duration;
  Limits_ChangeLookback : Duration;
  Limits_MaxProposeAttempts : Z;
  Limits_MaxSteps : Z
}.

Record limitsFile : Type := mkLimitsFile {
  lf_MaxCases : option Z;
  lf_LedgerRetention : option string;
  lf_ChangeLookback : option string;
  lf_MaxProposeAttempts : option Z;
  lf_MaxSteps : option Z
}.

Definition ErrIncompleteLimits : error := errors_New "limits file is missing one or more required terms".

Definition LoadLimitsFile (readFile : string -> result string) (unmarshal : string -> result limitsFile)
  (parse : string -> result Duration) (path : string) : result Limits :=
  match Stage readFile unmarshal path "limits file" with
  | inr e => inr e
  | inl lf =>
      let r := Require_ "limits file" ErrIncompleteLimits in
      let '(r, maxCases) := Required_Int r "maxCases" (lf_MaxCases lf) in
      let '(r, ledgerRetention) := Required_Duration parse r "ledgerRetention" (lf_LedgerRetention lf) in
      let '(r, changeLookback) := Required_Duration parse r "changeLookback" (lf_ChangeLookback lf) in
      let '(r, maxProposeAttempts) := Required_Int r "maxProposeAttempts" (lf_MaxProposeAttempts lf) in
      let '(r, maxSteps) := Required_Int r "maxSteps" (lf_MaxSteps lf) in
      match Required_Err r with
      | Some e => inr e
      | None => inl (mkLimits maxCases ledgerRetention changeLookback maxProposeAttempts maxSteps)
      end
  end.

(** ** tools.go: what the model may author *)

Record proposeCandidate : Type := mkProposeCandidate {
  PC_ID : string;
  PC_ContractRef : string;
  PC_Confidence : option float64;
  PC_Citations : list string
}.

Record proposeInput : Type := mkProposeInput {
  PI_FailureClass : FailureClass;
  PI_Hypotheses : list Hypothesis_;
  PI_Proposals : list proposeCandidate
}.

Record insufficientInput : Type := mkInsufficientInput {
  II_Reason : string;
  II_FailureClass : FailureClass
}.

Definition candidates (p : proposeInput) : list Candidate :=
  map (fun c => mkCandidate (PC_ID c) (PC_ContractRef c) (default f1 (PC_Confidence c)) f0 false
                  ConfidenceTerms_zero None "" None None 0 (PC_Citations c)) (PI_Proposals p).

(** [schema] renders a tool's input schema from its Go type *)
Definition ProposeToolSpec (schema : string -> string) : ToolSpec :=
  mkToolSpec "propose"
    "Emit your final answer: the leading failure class, the competing hypotheses, and the candidate actions, each drawn from the action catalog."
    (schema "proposeInput").

Definition InsufficientToolSpec (schema : string -> string) : ToolSpec :=
  mkToolSpec "insufficient"
    "Declare that no catalogued action can be proposed, and say why — name the missing evidence, or the diagnosed failure class no catalogued action applies to."
    (schema "insufficientInput").

(** ** engine.go: pure helpers *)

Definition errClassMismatch : error := errors_New "candidate not applicable to declared failure class".
Definition errUngroundedCitation : error := errors_New "candidate cites evidence the run did not gather".

Record FailureClassDefinition : Type := mkFailureClassDefinition {
  FCD_Class : FailureClass;
  FCD_Description : string
}.

(** [Duration.Round(time.Second)]: to the nearest second, halves away from
    zero, saturating *)
Definition round_second (d : Duration) : Duration :=
  let r := Z.rem (Z.abs d) Second in
  if r + r <? Second then (if d <? 0 then d + r else d - r)
  else if d <? 0 then sat64 (d - Second + r) else sat64 (d + Second - r).

Definition newline : string := String (Ascii.ascii_of_nat 10) EmptyString.

Definition seed_action (c : ActionContract) : string :=
  (if ActionSpec_Description (AC_Action c) =s "" then "- " +:+ AC_Name c
   else "- " +:+ AC_Name c +:+ " — " +:+ ActionSpec_Description (AC_Action c))
  +:+ " (applies to: " +:+ strings_Join (AC_ApplicableFailureClasses c) ", " +:+ ")" +:+ newline.

Definition seedPrompt (sig : Detection) (sao : SAO) (classes : list FailureClassDefinition)
  (actions : list ActionContract) : string :=
  let subject := if Detection_OriginService sig =s "" then Detection_Name sig else Detection_OriginService sig in
  let snap := SAO_Signal sao in
  let pct x := fmt_f 0 (fmul x (of_int 100)) in
  let ask := "; investigate with the read-only tools, then call propose with your hypotheses and a candidate action -- or insufficient if the evidence supports no action." in
  (if SignalSnapshot_Metric snap =s "" then
     "signal on " +:+ subject +:+ " (confidence " +:+ fmt_f 2 (SignalSnapshot_Confidence snap)
     +:+ ", severity " +:+ pct (Severity_DegradationPct (SignalSnapshot_Severity snap)) +:+ "%, blast "
     +:+ pct (BlastRadius_AffectedPct (SignalSnapshot_BlastRadius snap)) +:+ "%)" +:+ ask +:+ newline
   else
     "signal on " +:+ subject +:+ " [" +:+ SignalSnapshot_Metric snap +:+ "] (confidence: "
     +:+ fmt_f 2 (SignalSnapshot_Confidence snap)
     +:+ ", severity: " +:+ pct (Severity_DegradationPct (SignalSnapshot_Severity snap)) +:+ "%, blast: "
     +:+ pct (BlastRadius_AffectedPct (SignalSnapshot_BlastRadius snap)) +:+ "%)" +:+ ask +:+ newline)
  +:+ (match ChangeSnapshot_Events (SAO_Change sao) with
       | [] => ""
       | evs => "recent change events:" +:+ newline
           +:+ strings_Join (map (fun e => "- " +:+ ChangeEvent_Type e +:+ " change on " +:+ ChangeEvent_Target e
                 +:+ " (age " +:+ Duration_String (round_second (ChangeEvent_Age e)) +:+ " seconds)" +:+ newline) evs) ""
       end)
  +:+ (match topo_nodes (SAO_Topology sao) with
       | [] => ""
       | _ => "observed topology:" +:+ newline
           +:+ strings_Join (map (fun n => "- upstream " +:+ NodeState_Name n +:+ ": " +:+ NodeState_State n +:+ newline)
                               (TopologySnapshot_Upstream (SAO_Topology sao))) ""
           +:+ strings_Join (map (fun n => "- downstream " +:+ NodeState_Name n +:+ ": " +:+ NodeState_State n +:+ newline)
                               (TopologySnapshot_Downstream (SAO_Topology sao))) ""
       end)
  +:+ "evidence & confidence rules:" +:+ newline
  +:+ "- to propose an action, cite at least one LIVE telemetry result about the affected service, or a node in its declared topology." +:+ newline
  +:+ "- a citation is the exact key shown as [cite: <key>] in a tool result, repeated verbatim — never a description of the value." +:+ newline
  +:+ "- grounding counts DISTINCT tools, not citations: one live backend cited twice grounds no better than once. Corroborate across a second tool before proposing — a metric plus logs, or a metric plus cluster state." +:+ newline
  +:+ "- state a confidence on every candidate. Confidence is two-sided: over-confidence risks an unsafe action, but under-confidence below the governance floor escalates to a human operator. The emitted number is computed from your citations' grounding; yours acts as a ceiling." +:+ newline
  +:+ (match classes with
       | [] => ""
       | _ => "failure classes — pick the one the EVIDENCE supports, not the one that has a matching action:" +:+ newline
           +:+ strings_Join (map (fun d => "- " +:+ FCD_Class d +:+ ": " +:+ FCD_Description d +:+ newline) classes) ""
       end)
  +:+ (match actions with
       | [] => "no catalogued action applies to this signal; if the evidence supports acting you must still call insufficient."
       | _ => "you may ONLY propose an action from this catalog — use the exact contractRef:" +:+ newline
           +:+ strings_Join (map seed_action actions) ""
           +:+ "if no catalogued action lists your diagnosed failure class, call insufficient and name the class — never reach for the nearest action."
       end).

Definition evidenceKey (tool : string) (n : nat) : string := tool +:+ "-" +:+ fmt_d (Z.of_nat n).

Definition withCallIDs (calls : list ToolCall) (step : Z) : list ToolCall :=
  imap (fun i c => if ToolCall_ID c =s ""
                   then mkToolCall ("call_" +:+ fmt_d step +:+ "_" +:+ fmt_d (Z.of_nat i)) (ToolCall_Name c) (ToolCall_Args c)
                   else c) calls.

Fixpoint enforce_refs (cat : StaticCatalog) (allowed : list ActionContract) (class : FailureClass)
  (cands : list Candidate) : option error :=
  match cands with
  | [] => None
  | cand :: cands' =>
      if existsb (fun c => AC_Name c =s Candidate_ContractRef cand) allowed
      then enforce_refs cat allowed class cands'
      else match ByName cat (Candidate_ContractRef cand) with
           | Some _ => Some (errorf_wp errClassMismatch (": " +:+ fmt_q (Candidate_ContractRef cand)
                               +:+ " does not apply to declared class " +:+ fmt_q class))
           | None => Some (errorf_wp Contract.ErrOutsideCatalog (": " +:+ fmt_q (Candidate_ContractRef cand)))
           end
  end.

Definition enforceCatalog (cat : StaticCatalog) (set : ProposalSet) (sao : SAO) : option error :=
  enforce_refs cat (Applicable cat (Set_FailureClass set) (Set_ServiceTier set) sao)
    (Set_FailureClass set) (Set_Proposals set).

Definition gathered (evidence : list EvidenceRef) (key : string) : bool :=
  existsb (fun ev => (EvidenceRef_Key ev <>s "") && (EvidenceRef_Key ev =s key)) evidence.

Fixpoint enforce_cites (evidence : list EvidenceRef) (cands : list Candidate) : option error :=
  match cands with
  | [] => None
  | cand :: cands' =>
      match Candidate_Citations cand with
      | [] => Some (errorf_wp errUngroundedCitation (": candidate " +:+ fmt_q (Candidate_ID cand) +:+ " carries no citations"))
      | cites =>
          match find_first (fun cite => negb (gathered evidence cite)) cites with
          | Some cite => Some (errorf_wp errUngroundedCitation (": " +:+ fmt_q cite))
          | None => enforce_cites evidence cands'
          end
      end
  end.

Definition enforceCitations (set : ProposalSet) : option error :=
  enforce_cites (Set_Evidence set) (Set_Proposals set).

Definition automaticReversal (steps : list Step) : bool :=
  negb (existsb (fun s => Step_Verb s =s "maintenanceRelease") steps).

Definition PredictedImpact_zero : PredictedImpact := mkPredictedImpact f0 f0 ∅.

Definition enrich (cat : StaticCatalog) (p : Candidate) : Candidate :=
  match ByName cat (Candidate_ContractRef p) with
  | None => p
  | Some c =>
      let pct := SuccessCriteria_SeverityReductionPct (AC_SuccessCriteria c) in
      let impact :=
        if feq pct f0 then Candidate_PredictedImpact p
        else let i := default PredictedImpact_zero (Candidate_PredictedImpact p) in
             Some (mkPredictedImpact pct (PredictedImpact_BlastRadiusDelta i) (PredictedImpact_SLOEffects i)) in
      let '(path, level) :=
        if Reversal_Method (AC_Reversal c) =s ""
        then (Candidate_ReversalPath p, mkGovernanceLevel BandActDisruptive f0)
        else (Some (mkReversalPath (Reversal_Method (AC_Reversal c)) (SuccessCriteria_Metric (AC_SuccessCriteria c))
                      (SuccessCriteria_Target (AC_SuccessCriteria c))
                      (automaticReversal (Execution_Reverse (AC_Execution c)))),
              mkGovernanceLevel BandActReversible f0) in
      mkCandidate (Candidate_ID p) (Candidate_ContractRef p) (Candidate_Confidence p) (Candidate_ComputedConfidence p)
        (Candidate_ConfidenceCeilingBound p) (Candidate_Terms p) impact (AC_BlastTier c) path (Some level)
        (Candidate_Rank p) (Candidate_Citations p)
  end.

Definition enrichFromCatalog (cat : StaticCatalog) (proposals : list Candidate) : list Candidate :=
  map (enrich cat) proposals.

Record causalSummary : Type := mkCausalSummary {
  causal_maxLikelihood : float64;
  causal_inTopology : Z;
  causal_outOfTopology : Z
}.

Definition summarizeCausal (scores : list CausalScore) : causalSummary :=
  fold_left (fun s cs =>
      if CausalScore_InTopology cs
      then mkCausalSummary (fmax (causal_maxLikelihood s) (CausalScore_Likelihood cs)) (causal_inTopology s + 1)
             (causal_outOfTopology s)
      else mkCausalSummary (causal_maxLikelihood s) (causal_inTopology s) (causal_outOfTopology s + 1))
    scores (mkCausalSummary f0 0 0).

(** ** intake.go *)

Definition ErrTopologySource : error := errors_New "intake: topology source".
Definition ErrChangeSoure : error := errors_New "intake: change source".

Definition topologyFromSignal (t : TopologyContext) : TopologySnapshot :=
  let conv := map (fun n => mkNodeState (ObservedNode_Name n) (ObservedNode_State n) 0 f0) in
  mkTopologySnapshot (conv (TopologyContext_Upstream t)) (conv (TopologyContext_Downstream t)).

Section engine.
Context {M S_ WP WJ : Type} `{PublisherLaws WP ProposalSet} `{PublisherLaws WJ ProposalSet}.

Record Tool : Type := mkTool {
  Tool_Spec : ToolSpec;
  Tool_Run : string -> M -> M * result EvidenceRef
}.

Record Store : Type := mkStore {
  Store_Checkpoint : Turn -> S_ -> S_ * option error;
  Store_Finish : string -> option error -> S_ -> S_ * option error
}.

Record Intake : Type := mkIntake {
  Intake_topo : Detection -> M -> M * result TopologySnapshot;
  Intake_change : Detection -> M -> M * result ChangeSnapshot
}.

Definition Assemble (i : Intake) (sig : Detection) (now : Time) (m : M) : M * result SAO :=
  match Intake_topo i sig m with
  | (m1, inr e) => (m1, inr (errorf_ww ErrTopologySource e))
  | (m1, inl topo) =>
      let topo := match topo_nodes topo with
                  | [] => topologyFromSignal (Detection_Topology sig)
                  | _ => topo
                  end in
      match Intake_change i sig m1 with
      | (m2, inr e) => (m2, inr (errorf_ww ErrChangeSoure e))
      | (m2, inl change) =>
          (m2, inl (mkSAO 1 now
             (mkSignalSnapshot (Divergence_Confidence (Detection_Divergence sig))
                (Divergence_Metric (Detection_Divergence sig)) (Impact_Severity (Detection_Impact sig))
                (Impact_BlastRadius (Detection_Impact sig)) (Detection_OriginService sig))
             topo change))
      end
  end.

(** the parts of [Engine] fixed for its lifetime *)
Record Engine : Type := mkEngine {
  Eng_Intake : Intake;
  Eng_Complete : list Message -> list ToolSpec -> M -> M * result Completion;
  Eng_Tools : gmap string Tool;
  Eng_Catalog : StaticCatalog;
  Eng_FailureClasses : list FailureClassDefinition;
  Eng_Store : Store;
  Eng_ScorerPrior : option Prior;
  Eng_Prior : option Prior;
  Eng_DedupeWindow : Duration;
  Eng_HasPub : bool;
  Eng_HasJournal : bool;
  Eng_MaxSteps : Z;
  Eng_Weights : ScoringWeights;
  Eng_schema : string -> string;
  Eng_decode_propose : string -> result proposeInput;
  Eng_decode_insufficient : string -> result insufficientInput
}.

Definition name_le (a b : ToolSpec) : Prop := String.leb (ToolSpec_Name a) (ToolSpec_Name b) = true.
#[local] Instance name_le_dec a b : Decision (name_le a b).
Proof. unfold name_le. apply _. Defined.

(** the offered tools, in name order; the map's iteration order does not show *)
Definition toolSpecs (e : Engine) : list ToolSpec :=
  merge_sort name_le (map (fun kv => Tool_Spec kv.2) (map_to_list (Eng_Tools e))
                      ++ [ProposeToolSpec (Eng_schema e); InsufficientToolSpec (Eng_schema e)]).

(** what the reason loop has established so far *)
Record Draft : Type := mkDraft {
  Dr_FailureClass : FailureClass;
  Dr_Hypotheses : list Hypothesis_;
  Dr_Proposals : list Candidate;
  Dr_Reason : string;
  Dr_Evidence : list EvidenceRef;
  Dr_proposed : bool;
  Dr_declined : bool
}.

Definition Draft_zero : Draft := mkDraft "" [] [] "" [] false false.

Definition add_evidence (d : Draft) (ref : EvidenceRef) : Draft :=
  mkDraft (Dr_FailureClass d) (Dr_Hypotheses d) (Dr_Proposals d) (Dr_Reason d) (Dr_Evidence d ++ [ref])
    (Dr_proposed d) (Dr_declined d).

Definition finished (d : Draft) : bool := Dr_proposed d || Dr_declined d.

(** dispatch one turn's tool calls in order, stopping at a terminal verb *)
Fixpoint dispatch_calls (e : Engine) (calls : list ToolCall) (d : Draft) (results : list ToolResult) (m : M)
  : M * result (Draft * list ToolResult) :=
  match calls with
  | [] => (m, inl (d, results))
  | call :: calls' =>
      if ToolCall_Name call =s "propose" then
        match Eng_decode_propose e (ToolCall_Args call) with
        | inr err => (m, inr (errorf_w "decode propose: " err))
        | inl p => (m, inl (mkDraft (PI_FailureClass p) (PI_Hypotheses p) (candidates p) (Dr_Reason d)
                              (Dr_Evidence d) true (Dr_declined d), results))
        end
      else if ToolCall_Name call =s "insufficient" then
        match Eng_decode_insufficient e (ToolCall_Args call) with
        | inr err => (m, inr (errorf_w "decode insufficient: " err))
        | inl i => (m, inl (mkDraft (II_FailureClass i) (Dr_Hypotheses d) (Dr_Proposals d) (II_Reason i)
                              (Dr_Evidence d) (Dr_proposed d) true, results))
        end
      else
        match Eng_Tools e !! ToolCall_Name call with
        | None =>
            dispatch_calls e calls' d
              (results ++ [mkToolResult (ToolCall_ID call) ("unknown tool " +:+ fmt_q (ToolCall_Name call))
                             (ToolCall_Name call) true]) m
        | Some tool =>
            match Tool_Run tool (ToolCall_Args call) m with
            | (m', inr err) => (m', inr (errorf_w ("tool " +:+ fmt_q (ToolCall_Name call) +:+ ": ") err))
            | (m', inl ref) =>
                let key := if EvidenceRef_Key ref =s ""
                           then evidenceKey (ToolCall_Name call) (length (Dr_Evidence d)) else EvidenceRef_Key ref in
                let ref := mkEvidenceRef (EvidenceRef_Tool ref) (EvidenceRef_Query ref) key (EvidenceRef_Summary ref)
                             (EvidenceRef_Ref ref) (EvidenceRef_Live ref) (EvidenceRef_Subject ref) in
                let content := if key =s "" then EvidenceRef_Summary ref
                               else EvidenceRef_Summary ref +:+ " [cite: " +:+ key +:+ "]" in
                dispatch_calls e calls' (add_evidence d ref)
                  (results ++ [mkToolResult (ToolCall_ID call) content (ToolCall_Name call) false]) m'
            end
        end
  end.

(** one turn: complete, checkpoint, dispatch.  The returned draft is [finished]
    when the loop must stop. *)
Definition turn (e : Engine) (runID : string) (step : Z) (msgs : list Message) (d : Draft) (m : M) (s : S_)
  : M * S_ * result (Draft * list Message) :=
  match Eng_Complete e msgs (toolSpecs e) m with
  | (m1, inr err) => (m1, s, inr (errorf_w ("model complete (step " +:+ fmt_d step +:+ "): ") err))
  | (m1, inl comp) =>
      let calls := withCallIDs (Completion_ToolCalls comp) step in
      let msg := Completion_Message comp in
      let msgs1 := msgs ++ [mkMessage (Message_Role msg) (Message_Content msg) calls (Message_ToolResults msg)] in
      match Store_Checkpoint (Eng_Store e) (mkTurn runID step msgs1) s with
      | (s1, Some err) => (m1, s1, inr (errorf_w ("checkpoint (step " +:+ fmt_d step +:+ "): ") err))
      | (s1, None) =>
          match calls with
          | [] => (m1, s1, inl (mkDraft (Dr_FailureClass d) (Dr_Hypotheses d) (Dr_Proposals d)
                                  "model ended turn without a tool call" (Dr_Evidence d) (Dr_proposed d) true, msgs1))
          | _ =>
              match dispatch_calls e calls d [] m1 with
              | (m2, inr err) => (m2, s1, inr err)
              | (m2, inl (d', results)) =>
                  let msgs2 := match results with
                               | [] => msgs1
                               | _ => msgs1 ++ [mkMessage "tool" "" [] results]
                               end in
                  (m2, s1, inl (d', msgs2))
              end
          end
      end
  end.

(** the reason loop with [fuel] = [MaxSteps - step] turns left *)
Fixpoint reason_loop (e : Engine) (runID : string) (fuel : nat) (step : Z) (msgs : list Message) (d : Draft)
  (m : M) (s : S_) : M * S_ * result Draft :=
  match fuel with
  | O => (m, s, inl d)
  | S fuel' =>
      match turn e runID step msgs d m s with
      | (m1, s1, inr err) => (m1, s1, inr err)
      | (m1, s1, inl (d', msgs')) =>
          if finished d' then (m1, s1, inl d')
          else reason_loop e runID fuel' (step + 1) msgs' d' m1 s1
      end
  end.

Record EngState : Type := mkEngState {
  Es_env : M;
  Es_store : S_;
  Es_ledger : MemProposalLog;
  Es_pub : WP;
  Es_journal : WJ
}.

(** the clock reads of one [Propose], in order *)
Record Clock : Type := mkClock {
  Ck_open : Time;
  Ck_run : Time;
  Ck_assembled : Time;
  Ck_gate : Time;
  Ck_record : Time;
  Ck_recorded : Time
}.

(** [Ledger.Record] then [journal], the terminal step of every recorded run *)
Definition record_run (e : Engine) (ctx : context) (ck : Clock) (set : ProposalSet) (st : EngState)
  : EngState * result ProposalSet :=
  match Record_ ctx set (Ck_record ck) (Ck_recorded ck) (Es_ledger st) with
  | (l', Some err) => (mkEngState (Es_env st) (Es_store st) l' (Es_pub st) (Es_journal st), inr (errorf_w "record: " err))
  | (l', None) =>
      if Eng_HasJournal e then
        match publish "" set (Es_journal st) with
        | (j', Some err) => (mkEngState (Es_env st) (Es_store st) l' (Es_pub st) j', inr (errorf_w "journal: " err))
        | (j', None) => (mkEngState (Es_env st) (Es_store st) l' (Es_pub st) j', inl set)
        end
      else (mkEngState (Es_env st) (Es_store st) l' (Es_pub st) (Es_journal st), inl set)
  end.

(** the set a draft becomes, before scoring *)
Definition draft_set (sig : Detection) (runID : string) (sao : SAO) (d : Draft) (g : option GateResult)
  (phase reason : string) : ProposalSet :=
  mkSet (Detection_Name sig) runID (Detection_Fingerprint sig) (Detection_SLORef sig) (Some sao) (Dr_FailureClass d)
    [] (Dr_Hypotheses d) (Dr_Evidence d) (Detection_ServiceTier sig) g (Dr_Proposals d) "" None
    (Some (mkStatus phase reason "" "" 0)).

(** enrich, score, grade and rank a set that passed both boundaries *)
Definition form_set (e : Engine) (sig : Detection) (sao : SAO) (set : ProposalSet) : ProposalSet :=
  let scores := Score (Eng_ScorerPrior e) (Set_SignalRef set) (SAO_Change sao) (SAO_Topology sao) (Eng_Weights e) in
  let set1 := mkSet (Set_Name set) (Set_RunID set) (Set_SignalRef set) (Set_SLORef set) (Set_SAOSnapshot set)
                (Set_FailureClass set) scores (Set_Hypotheses set) (Set_Evidence set) (Set_ServiceTier set)
                (Set_Gate set) (enrichFromCatalog (Eng_Catalog e) (Set_Proposals set)) (Set_Recommended set)
                (Set_RankingRationale set) (Set_Status set) in
  let set2 := scoreConfidences set1 sao (Eng_Prior e) (Detection_Fingerprint sig) (Eng_Weights e) in
  let '(ranked, why) := Rank (Set_Proposals set2) (BlastRadius_Velocity (Impact_BlastRadius (Detection_Impact sig))) in
  mkSet (Set_Name set2) (Set_RunID set2) (Set_SignalRef set2) (Set_SLORef set2) (Set_SAOSnapshot set2)
    (Set_FailureClass set2) (Set_CausalScores set2) (Set_Hypotheses set2) (Set_Evidence set2) (Set_ServiceTier set2)
    (Set_Gate set2) ranked (match ranked with [] => Set_Recommended set2 | c :: _ => Candidate_ID c end)
    (Some why) (Set_Status set2).

Definition with_gate (set : ProposalSet) (g : GateResult) : ProposalSet :=
  mkSet (Set_Name set) (Set_RunID set) (Set_SignalRef set) (Set_SLORef set) (Set_SAOSnapshot set)
    (Set_FailureClass set) (Set_CausalScores set) (Set_Hypotheses set) (Set_Evidence set) (Set_ServiceTier set)
    (Some g) (Set_Proposals set) (Set_Recommended set) (Set_RankingRationale set)
    (match Set_Status set with
     | None => None
     | Some s => Some (if GateResult_Passed g
                       then mkStatus PhaseProposed (Status_Reason s) (Status_SupersededBy s) (Status_Outcome s) (Status_ObservedAt s)
                       else mkStatus PhaseNoAction (GateResult_Reason g) (Status_SupersededBy s) (Status_Outcome s) (Status_ObservedAt s))
     end).

(** everything after the loop *)
Definition conclude (e : Engine) (ctx : context) (ck : Clock) (sig : Detection) (runID : string) (sao : SAO)
  (d : Draft) (st : EngState) : EngState * result ProposalSet :=
  if negb (finished d) then
    record_run e ctx ck (draft_set sig runID sao d (Some (mkGateResult false false false false "budget"))
                           PhaseBudgetExhausted (Dr_Reason d)) st
  else if negb (Dr_proposed d) then
    record_run e ctx ck (draft_set sig runID sao d None PhaseNoAction (Dr_Reason d)) st
  else
    let set := draft_set sig runID sao d None "" (Dr_Reason d) in
    match enforceCatalog (Eng_Catalog e) set sao with
    | Some err =>
        if negb (errors_Is err errClassMismatch) && negb (errors_Is err Contract.ErrOutsideCatalog) then (st, inr err)
        else record_run e ctx ck (draft_set sig runID sao d None PhaseNoAction (err_text err)) st
    | None =>
        match enforceCitations set with
        | Some err =>
            if negb (errors_Is err errUngroundedCitation) then (st, inr err)
            else record_run e ctx ck (draft_set sig runID sao d None PhaseNoAction (err_text err)) st
        | None =>
            let formed := form_set e sig sao set in
            match Open ctx (Detection_Fingerprint sig) (GoTime.Add (Ck_gate ck) (- Eng_DedupeWindow e)) (Es_ledger st) with
            | inr err => (st, inr (errorf_w "open dupes: " err))
            | inl openDupes =>
                let g := gate_Evaluate formed openDupes in
                let set := with_gate formed g in
                match record_run e ctx ck set st with
                | (st1, inr err) => (st1, inr err)
                | (st1, inl _) =>
                    if GateResult_Passed g && Eng_HasPub e then
                      match publish "thump.proposals" set (Es_pub st1) with
                      | (p', Some err) =>
                          (mkEngState (Es_env st1) (Es_store st1) (Es_ledger st1) p' (Es_journal st1),
                           inr (errorf_w "publish: " err))
                      | (p', None) =>
                          (mkEngState (Es_env st1) (Es_store st1) (Es_ledger st1) p' (Es_journal st1), inl set)
                      end
                    else (st1, inl set)
                end
            end
        end
    end.

(** [Propose].  [drift] is what the other consumers (outcomes, declines, a
    concurrent run) do to the ledger while the loop runs. *)
Definition Propose (e : Engine) (ctx : context) (ck : Clock) (sig : Detection)
  (drift : MemProposalLog -> MemProposalLog) (st : EngState) : EngState * result ProposalSet :=
  match Open ctx (Detection_Fingerprint sig) (GoTime.Add (Ck_open ck) (- Eng_DedupeWindow e)) (Es_ledger st) with
  | inr err => (st, inr (errorf_w "open dupes: " err))
  | inl (_ :: _) => (st, inl Set_zero)
  | inl [] =>
      let runID := Detection_Fingerprint sig +:+ "/" +:+ fmt_d (UnixNano (Ck_run ck)) in
      let '(st', r) :=
        match Assemble (Eng_Intake e) sig (Ck_assembled ck) (Es_env st) with
        | (m1, inr err) =>
            (mkEngState m1 (Es_store st) (drift (Es_ledger st)) (Es_pub st) (Es_journal st), inr (errorf_w "intake: " err))
        | (m1, inl sao) =>
            let actions := ApplicableToTier (Eng_Catalog e) (Detection_ServiceTier sig) sao in
            let msgs := [mkMessage "user" (seedPrompt sig sao (Eng_FailureClasses e) actions) [] []] in
            match reason_loop e runID (Z.to_nat (Eng_MaxSteps e)) 0 msgs Draft_zero m1 (Es_store st) with
            | (m2, s2, inr err) => (mkEngState m2 s2 (drift (Es_ledger st)) (Es_pub st) (Es_journal st), inr err)
            | (m2, s2, inl d) =>
                conclude e ctx ck sig runID sao d
                  (mkEngState m2 s2 (drift (Es_ledger st)) (Es_pub st) (Es_journal st))
            end
        end in
      let runErr := match r with inr err => Some err | inl _ => None end in
      let '(s', _) := Store_Finish (Eng_Store e) runID runErr (Es_store st') in
      (mkEngState (Es_env st') s' (Es_ledger st') (Es_pub st') (Es_journal st'), r)
  end.

End engine.

(** ** Specifications *)

Section spec.
Context {M S_ WP WJ : Type} `{PublisherLaws WP ProposalSet} `{PublisherLaws WJ ProposalSet}.
Abbreviation Eng := (Engine (M := M) (S_ := S_)).
Abbreviation St := (EngState (M := M) (S_ := S_) (WP := WP) (WJ := WJ)).

(** what clank may hand to governance: a gated set about this signal whose every
    candidate is an applicable catalogued action, cites evidence of this very
    run, and carries the catalog's blast tier and band, not the model's *)
Record Ready (e : Eng) (sig : Detection) (sao : SAO) (s : ProposalSet) : Prop := {
  ready_signal : Set_SignalRef s = Detection_Fingerprint sig /\ Set_Name s = Detection_Name sig /\
                 Set_SLORef s = Detection_SLORef sig /\ Set_ServiceTier s = Detection_ServiceTier sig /\
                 Set_SAOSnapshot s = Some sao;
  ready_gate : exists g, Set_Gate s = Some g /\ GateResult_Passed g = true;
  ready_phase : exists st, Set_Status s = Some st /\ Status_Phase st = PhaseProposed;
  ready_catalog : forall c, c ∈ Set_Proposals s ->
    exists ct, ct ∈ Applicable (Eng_Catalog e) (Set_FailureClass s) (Set_ServiceTier s) sao /\
               AC_Name ct = Candidate_ContractRef c;
  ready_cited : forall c, c ∈ Set_Proposals s ->
    Candidate_Citations c <> [] /\
    forall cite, cite ∈ Candidate_Citations c ->
      exists ev, ev ∈ Set_Evidence s /\ EvidenceRef_Key ev = cite /\ cite <> ""%string;
  ready_enriched : forall c ct, c ∈ Set_Proposals s -> ByName (Eng_Catalog e) (Candidate_ContractRef c) = Some ct ->
    Candidate_BlastTier c = AC_BlastTier ct /\
    Candidate_GovernanceLevel c =
      Some (mkGovernanceLevel (if Reversal_Method (AC_Reversal ct) =s "" then BandActDisruptive else BandActReversible) f0);
  ready_recommended : forall c cs, Set_Proposals s = c :: cs -> Set_Recommended s = Candidate_ID c
}.

(** the run's set went to the ledger and, when there is one, to the journal *)
Definition recorded_run (e : Eng) (ctx : context) (ck : Clock) (s : ProposalSet) (st st' : St) : Prop :=
  ctx_Err ctx = None /\
  Es_ledger st' = (Record_ ctx s (Ck_record ck) (Ck_recorded ck) (Es_ledger st)).1 /\
  (Eng_HasJournal e = true -> on_subject "" (Es_journal st') = on_subject "" (Es_journal st) ++ [s]).

(** ** Lemmas *)

Lemma enforce_refs_None cat allowed class cands :
  enforce_refs cat allowed class cands = None ->
  forall c, c ∈ cands -> exists ct, ct ∈ allowed /\ AC_Name ct = Candidate_ContractRef c.
Proof.
  induction cands as [|x cands IH]; simpl; [by intros _ c ?%elem_of_nil|].
  destruct (existsb _ allowed) eqn:E; [|by destruct (ByName cat _)].
  intros Hr c [->|Hc]%elem_of_cons; [|by apply IH].
  apply existsb_elem in E as (ct & ? & ?%String.eqb_eq). eauto.
Qed.

Lemma enforce_refs_Some cat allowed class cands err :
  enforce_refs cat allowed class cands = Some err ->
  errors_Is err errClassMismatch = true \/ errors_Is err Contract.ErrOutsideCatalog = true.
Proof.
  induction cands as [|x cands IH]; simpl; [done|].
  destruct (existsb _ allowed); [done|]. destruct (ByName cat _); intros [= <-]; auto.
Qed.

Lemma enforce_cites_None evidence cands :
  enforce_cites evidence cands = None ->
  forall c, c ∈ cands -> Candidate_Citations c <> [] /\
    forall cite, cite ∈ Candidate_Citations c ->
      exists ev, ev ∈ evidence /\ EvidenceRef_Key ev = cite /\ cite <> ""%string.
Proof.
  induction cands as [|x cands IH]; cbn [enforce_cites]; [by intros _ c ?%elem_of_nil|].
  destruct (Candidate_Citations x) as [|k ks] eqn:Ec; [done|].
  destruct (find_first _ _) eqn:Ef; [done|].
  intros Hr c [->|Hc]%elem_of_cons; [|by apply IH].
  rewrite Ec. split; [done|]. intros cite Hcite. apply find_first_None in Ef.
  rewrite list.Forall_forall in Ef. specialize (Ef _ Hcite). apply negb_false_iff in Ef.
  apply existsb_elem in Ef as (ev & Hev & Hk). bsplit. exists ev. naive_solver.
Qed.

Lemma enforce_cites_Some evidence cands err :
  enforce_cites evidence cands = Some err -> errors_Is err errUngroundedCitation = true.
Proof.
  induction cands as [|x cands IH]; cbn [enforce_cites]; [done|].
  destruct (Candidate_Citations x); [by intros [= <-]|].
  destruct (find_first _ _); [by intros [= <-]|done].
Qed.

Lemma enrich_fields cat p :
  Candidate_ID (enrich cat p) = Candidate_ID p /\ Candidate_ContractRef (enrich cat p) = Candidate_ContractRef p /\
  Candidate_Citations (enrich cat p) = Candidate_Citations p /\
  (forall ct, ByName cat (Candidate_ContractRef p) = Some ct ->
     Candidate_BlastTier (enrich cat p) = AC_BlastTier ct /\
     Candidate_GovernanceLevel (enrich cat p) =
       Some (mkGovernanceLevel (if Reversal_Method (AC_Reversal ct) =s "" then BandActDisruptive else BandActReversible) f0)).
Proof.
  unfold enrich. destruct (ByName cat _) as [ct|]; [|done].
  destruct (Reversal_Method (AC_Reversal ct) =s "") eqn:E; simpl; repeat (split; [done|]);
    intros ct' [= <-]; by rewrite E.
Qed.

(** every candidate of a formed set is an enriched, graded and ranked candidate
    of the draft *)
Lemma form_set_Proposals (e : Eng) sig sao set c :
  c ∈ Set_Proposals (form_set e sig sao set) ->
  exists p i r, p ∈ Set_Proposals set /\ c = set_rank (grade i (Eng_Weights e) (enrich (Eng_Catalog e) p)) r.
Proof.
  unfold form_set. destruct (Rank _ _) as [ranked why] eqn:Er. simpl. unfold Rank in Er.
  intros Hc.
  assert (exists c0 r, c0 ∈ Set_Proposals (scoreConfidences (mkSet (Set_Name set) (Set_RunID set) (Set_SignalRef set)
      (Set_SLORef set) (Set_SAOSnapshot set) (Set_FailureClass set)
      (Score (Eng_ScorerPrior e) (Set_SignalRef set) (SAO_Change sao) (SAO_Topology sao) (Eng_Weights e))
      (Set_Hypotheses set) (Set_Evidence set) (Set_ServiceTier set) (Set_Gate set)
      (enrichFromCatalog (Eng_Catalog e) (Set_Proposals set)) (Set_Recommended set) (Set_RankingRationale set)
      (Set_Status set)) sao (Eng_Prior e) (Detection_Fingerprint sig) (Eng_Weights e)) /\ c = set_rank c0 r)
    as (c0 & r & Hc0 & ->).
  { destruct (_ =s "accelerating"); simplify_eq;
      apply elem_of_lookup_imap in Hc as (i & c0 & -> & Hl%list_elem_of_lookup_2); eauto.
    rewrite sort_stable_perm in Hl. eauto. }
  unfold scoreConfidences in Hc0. simpl in Hc0. unfold enrichFromCatalog in Hc0.
  rewrite list_elem_of_fmap in Hc0. destruct Hc0 as (c1 & -> & Hc1).
  apply list_elem_of_fmap in Hc1 as (p & -> & Hp). eauto.
Qed.

Lemma form_set_fields (e : Eng) sig sao set :
  let s := form_set e sig sao set in
  Set_Name s = Set_Name set /\ Set_SignalRef s = Set_SignalRef set /\ Set_SLORef s = Set_SLORef set /\
  Set_ServiceTier s = Set_ServiceTier set /\ Set_SAOSnapshot s = Set_SAOSnapshot set /\
  Set_FailureClass s = Set_FailureClass set /\ Set_Evidence s = Set_Evidence set /\ Set_Status s = Set_Status set /\
  (forall c cs, Set_Proposals s = c :: cs -> Set_Recommended s = Candidate_ID c).
Proof.
  unfold form_set. destruct (Rank _ _) as [ranked why]. simpl. repeat (split; [done|]).
  intros c cs ->. done.
Qed.

Lemma record_run_spec (e : Eng) ctx ck set (st st' : St) r :
  record_run e ctx ck set st = (st', r) ->
  Es_pub st' = Es_pub st /\ Es_env st' = Es_env st /\ Es_store st' = Es_store st /\
  (Es_ledger st' = (Record_ ctx set (Ck_record ck) (Ck_recorded ck) (Es_ledger st)).1) /\
  (forall s, r = inl s -> s = set /\ recorded_run e ctx ck set st st').
Proof.
  unfold record_run, recorded_run.
  destruct (Record_ _ _ _ _ _) as [l' [err|]] eqn:Er; [by intros [= <- <-]|].
  assert (ctx_Err ctx = None) as Hctx by (unfold Record_ in Er; by destruct (ctx_Err ctx)).
  destruct (Eng_HasJournal e); [|by intros [= <- <-]; repeat (split; [done|]); intros s [= <-]].
  destruct (publish _ _ _) as [j' [err|]] eqn:Ep; intros [= <- <-]; simpl; repeat (split; [done|]); [done|].
  intros s [= <-]. repeat (split; [done|]). intros _. by apply on_subject_ok.
Qed.

Lemma with_gate_ready (e : Eng) sig runID sao d g :
  let set := draft_set sig runID sao d None "" (Dr_Reason d) in
  enforceCatalog (Eng_Catalog e) set sao = None -> enforceCitations set = None ->
  GateResult_Passed g = true -> Ready e sig sao (with_gate (form_set e sig sao set) g).
Proof.
  intros set Hcat Hcite Hg.
  destruct (form_set_fields e sig sao set) as (Hn & Hr & Hslo & Ht & Hsao & Hf & Hev & Hst & Hrec).
  pose proof (enforce_refs_None _ _ _ _ Hcat) as Hrefs.
  pose proof (enforce_cites_None _ _ Hcite) as Hcites.
  pose proof (form_set_Proposals e sig sao set) as Hp.
  set (s := form_set e sig sao set) in *. clearbody s. split.
  - simpl. rewrite Hr, Hn, Hslo, Ht, Hsao. done.
  - by exists g.
  - simpl. rewrite Hst. simpl. rewrite Hg. eexists. done.
  - intros c (p & i & r & Hin & ->)%Hp. simpl. rewrite Hf, Ht. rewrite (proj1 (proj2 (enrich_fields _ p))).
    by apply Hrefs.
  - intros c (p & i & r & Hin & ->)%Hp. simpl. rewrite Hev.
    rewrite (proj1 (proj2 (proj2 (enrich_fields _ p)))). by apply Hcites.
  - intros c ct (p & i & r & Hin & ->)%Hp. simpl. rewrite (proj1 (proj2 (enrich_fields _ p))).
    apply enrich_fields.
  - exact Hrec.
Qed.

(** the set a proposing draft becomes before the gate *)
Definition formed_draft (e : Eng) (sig : Detection) (runID : string) (sao : SAO) (d : Draft) : ProposalSet :=
  form_set e sig sao (draft_set sig runID sao d None "" (Dr_Reason d)).

Lemma conclude_spec (e : Eng) ctx ck sig runID sao d (st st' : St) r :
  conclude e ctx ck sig runID sao d st = (st', r) ->
  (Es_pub st' = Es_pub st /\
   forall s, r = inl s -> recorded_run e ctx ck s st st' /\ (Eng_HasPub e = true -> open_set s = false)) \/
  (exists s res, Ready e sig sao s /\ recorded_run e ctx ck s st st' /\ Eng_HasPub e = true /\
     Open ctx (Detection_Fingerprint sig) (GoTime.Add (Ck_gate ck) (- Eng_DedupeWindow e)) (Es_ledger st) = inl [] /\
     publish "thump.proposals" s (Es_pub st) = (Es_pub st', res) /\
     r = match res with None => inl s | Some err => inr (errorf_w "publish: " err) end /\
     Dr_proposed d = true /\ GateResult_Passed (gate_Evaluate (formed_draft e sig runID sao d) []) = true /\
     s = with_gate (formed_draft e sig runID sao d) (gate_Evaluate (formed_draft e sig runID sao d) [])).
Proof.
  assert (forall g phase reason, isOpen phase = false ->
    record_run e ctx ck (draft_set sig runID sao d g phase reason) st = (st', r) ->
    (Es_pub st' = Es_pub st /\ forall s, r = inl s ->
       recorded_run e ctx ck s st st' /\ (Eng_HasPub e = true -> open_set s = false))) as Hrec.
  { intros g phase reason Hph (Hp & _ & _ & _ & Hs)%record_run_spec. split; [done|].
    intros s [-> Hr]%Hs. split; [done|]. intros _. exact Hph. }
  unfold conclude. cbv zeta. destruct (finished d); cbn [negb]; [|intros Hr; left; eapply Hrec; [|exact Hr]; done].
  destruct (Dr_proposed d) eqn:Eprop; cbn [negb]; [|intros Hr; left; eapply Hrec; [|exact Hr]; done].
  set (set := draft_set sig runID sao d None "" (Dr_Reason d)).
  destruct (enforceCatalog _ set sao) as [err|] eqn:Ecat.
  { intros Hr. left. apply enforce_refs_Some in Ecat as [Hc|Hc]; rewrite Hc, ?andb_false_r in Hr; simpl in Hr;
      (eapply Hrec; [|exact Hr]; done). }
  destruct (enforceCitations set) as [err|] eqn:Ecite.
  { apply enforce_cites_Some in Ecite. rewrite Ecite. simpl. intros Hr. left. eapply Hrec; [|exact Hr]. done. }
  destruct (Open _ _ _ _) as [dupes|err]; [|intros [= <- <-]; left; split; [done|by intros ? [=]]].
  assert (GateResult_Passed (gate_Evaluate (form_set e sig sao set) dupes) = true -> dupes = []) as Hdup
    by (by destruct dupes).
  change (form_set e sig sao set) with (formed_draft e sig runID sao d) in *. set (g := gate_Evaluate (formed_draft e sig runID sao d) dupes) in *.
  destruct (record_run e ctx ck (with_gate (formed_draft e sig runID sao d) g) st) as [st1 r1] eqn:Er.
  apply record_run_spec in Er as (Hpub & Henv & Hsto & Hled & Hs).
  destruct r1 as [s1|err]; [|intros [= <- <-]; left; split; [done|by intros ? [=]]].
  destruct (Hs _ eq_refl) as [-> Hrun].
  destruct (GateResult_Passed g) eqn:Eg; cbn [andb].
  - destruct (Eng_HasPub e) eqn:Ehp; [|intros Hr; simplify_eq; left; split; [done|intros s ?; simplify_eq; split; [done|congruence]]].
    destruct (publish _ _ _) as [p' res] eqn:Ep. intros Hr. right.
    exists (with_gate (formed_draft e sig runID sao d) g), res. rewrite Hpub in Ep.
    pose proof (Hdup eq_refl) as ->. fold g.
    split; [by apply with_gate_ready|]. destruct res; simplify_eq/=; repeat split; try done; apply Hrun.
  - clearbody g. intros Hr. simplify_eq. left. split; [done|]. intros s ?. simplify_eq. split; [done|]. intros _.
    unfold open_set, with_gate. simpl. rewrite Eg.
    destruct (form_set_fields e sig sao set) as (_ & _ & _ & _ & _ & _ & _ & Hst & _). unfold formed_draft. fold set. rewrite Hst. done.
Qed.

End spec.

(** ** What a run asked and what it was told *)

Section conversations.
Context {M S_ : Type}.
Abbreviation Eng := (Engine (M := M) (S_ := S_)).

(** a reference as it is filed: under its own key, or else its tool's and its position *)
Definition keyed (name : string) (position : nat) (ref : EvidenceRef) : EvidenceRef :=
  mkEvidenceRef (EvidenceRef_Tool ref) (EvidenceRef_Query ref)
    (if EvidenceRef_Key ref =s "" then evidenceKey name position else EvidenceRef_Key ref)
    (EvidenceRef_Summary ref) (EvidenceRef_Ref ref) (EvidenceRef_Live ref) (EvidenceRef_Subject ref).

(** the environment goes from [m] to [m'] by completions of the model and by tools it called
    for; [asked] are the calls of its last completion, [refs] what the tools answered *)
Inductive conversation (e : Eng) (m : M) : list EvidenceRef -> list ToolCall -> M -> Prop :=
| conversation_starts : conversation e m [] [] m
| conversation_asks refs asked m1 msgs comp step m2 :
    conversation e m refs asked m1 -> Eng_Complete e msgs (toolSpecs e) m1 = (m2, inl comp) ->
    conversation e m refs (withCallIDs (Completion_ToolCalls comp) step) m2
| conversation_answers refs asked m1 call tool ref m2 :
    conversation e m refs asked m1 -> call ∈ asked -> Eng_Tools e !! ToolCall_Name call = Some tool ->
    Tool_Run tool (ToolCall_Args call) m1 = (m2, inl ref) ->
    conversation e m (refs ++ [keyed (ToolCall_Name call) (length refs) ref]) asked m2.

(** the draft holds the arguments of a propose call among [asked] *)
Definition proposed_by (e : Eng) (asked : list ToolCall) (d : Draft) : Prop :=
  exists call p, call ∈ asked /\ ToolCall_Name call = "propose"%string /\ Eng_decode_propose e (ToolCall_Args call) = inl p /\
    Dr_FailureClass d = PI_FailureClass p /\ Dr_Hypotheses d = PI_Hypotheses p /\ Dr_Proposals d = candidates p.

Lemma dispatch_conversation (e : Eng) m asked calls d res m1 m2 d' res' :
  conversation e m (Dr_Evidence d) asked m1 -> calls ⊆ asked -> Dr_proposed d = false ->
  dispatch_calls e calls d res m1 = (m2, inl (d', res')) ->
  conversation e m (Dr_Evidence d') asked m2 /\ (Dr_proposed d' = true -> proposed_by e asked d').
Proof.
  revert d res m1. induction calls as [|call calls IH]; intros d res m1 Hc Hin Hp; cbn [dispatch_calls].
  { intros [= <- <- <-]. split; [done|congruence]. }
  assert (call ∈ asked) as Hcall by (apply Hin; by left). assert (calls ⊆ asked) as Hrest by (intros x Hx; apply Hin; by right). clear Hin.
  destruct (ToolCall_Name call =s "propose") eqn:En.
  { apply String.eqb_eq in En. destruct (Eng_decode_propose e _) as [p|err] eqn:Ed; [|done]. intros [= <- <- <-].
    split; [done|]. intros _. by exists call, p. }
  destruct (_ =s "insufficient").
  { destruct (Eng_decode_insufficient e _); [|done]. intros [= <- <- <-]. cbn [Dr_Evidence Dr_proposed]. split; [done|congruence]. }
  destruct (Eng_Tools e !! _) as [tool|] eqn:Et; [|by apply IH].
  destruct (Tool_Run _ _ _) as [m1' [ref|err]] eqn:Er; [|done]. apply IH; [|done|done].
  exact (conversation_answers e m _ asked m1 call tool ref m1' Hc Hcall Et Er).
Qed.

Lemma turn_conversation (e : Eng) m runID step msgs asked d m1 s m2 s2 d' msgs' :
  conversation e m (Dr_Evidence d) asked m1 -> Dr_proposed d = false -> turn e runID step msgs d m1 s = (m2, s2, inl (d', msgs')) ->
  exists asked', conversation e m (Dr_Evidence d') asked' m2 /\ (Dr_proposed d' = true -> proposed_by e asked' d').
Proof.
  intros Hc Hp. unfold turn. destruct (Eng_Complete _ _ _ _) as [m1' [comp|err]] eqn:Ec; [|done].
  apply (conversation_asks e m _ _ _ _ _ step _ Hc) in Ec.
  destruct (Store_Checkpoint _ _ _) as [s1 [err|]]; [done|].
  destruct (withCallIDs _ _) as [|c cs] eqn:Ew.
  { intros [= <- _ <- _]. eexists. split; [exact Ec|]. simpl. congruence. }
  destruct (dispatch_calls _ _ _ _ _) as [m2' [[d1 res]|err]] eqn:Ed; [|done]. intros [= <- <- <- _].
  eapply dispatch_conversation in Ed; [|exact Ec|done|done]. eauto.
Qed.

Lemma loop_conversation (e : Eng) m runID fuel step msgs asked d m1 s m2 s2 d' :
  conversation e m (Dr_Evidence d) asked m1 -> Dr_proposed d = false -> reason_loop e runID fuel step msgs d m1 s = (m2, s2, inl d') ->
  exists asked', conversation e m (Dr_Evidence d') asked' m2 /\ (Dr_proposed d' = true -> proposed_by e asked' d').
Proof.
  revert step msgs asked d m1 s. induction fuel as [|fuel IH]; intros step msgs asked d m1 s Hc Hp; cbn [reason_loop].
  { intros [= <- _ <-]. exists asked. split; [done|congruence]. }
  destruct (turn _ _ _ _ _ _ _) as [[m1' s1] [[d1 msgs1]|err]] eqn:Et; [|done].
  eapply turn_conversation in Et as (asked1 & Hc1 & Hp1); [|exact Hc|done].
  destruct (finished d1) eqn:Ef; [intros [= <- _ <-]; eauto|]. apply IH with (asked := asked1); [done|].
  unfold finished in Ef. by apply orb_false_iff in Ef as [-> _].
Qed.

End conversations.

(** *** What a run publishes *)

(** what the model decides of a candidate *)
Definition said (c : Candidate) : string * string * list string := (Candidate_ID c, Candidate_ContractRef c, Candidate_Citations c).

(** a live reference of the set, about the affected service or a node of the frozen topology,
    and cited by the candidate it recommends *)
Definition grounded_set (sao : SAO) (s : ProposalSet) : Prop :=
  exists ref, ref ∈ Set_Evidence s /\ EvidenceRef_Live ref = true /\ EvidenceRef_Subject ref <> ""%string /\
    (EvidenceRef_Subject ref = SignalSnapshot_OriginService (SAO_Signal sao) \/
     exists n, n ∈ topo_nodes (SAO_Topology sao) /\ NodeState_Name n = EvidenceRef_Subject ref) /\
    forall c cs, Set_Proposals s = c :: cs -> EvidenceRef_Key ref ∈ Candidate_Citations c.

Section formed.
Context {M S_ : Type} (e : Engine (M := M) (S_ := S_)).

Lemma form_set_said sig sao set : map said (Set_Proposals (form_set e sig sao set)) ≡ₚ map said (Set_Proposals set).
Proof.
  unfold form_set. destruct (Rank _ _) as [ranked why] eqn:Er. simpl. unfold Rank in Er.
  set (graded := Set_Proposals (scoreConfidences _ _ _ _ _)) in Er.
  assert (map said graded = map said (Set_Proposals set)) as Hg.
  { unfold graded, scoreConfidences, enrichFromCatalog. simpl. rewrite !map_map. apply map_ext. intros c. unfold said. simpl.
    destruct (enrich_fields (Eng_Catalog e) c) as (-> & -> & -> & _). done. }
  assert (forall l, map said (imap (fun i c => set_rank c (Z.of_nat i + 1)) l) = map said l) as Hi.
  { intros l. assert (forall k, map said (imap (fun i c => set_rank c (Z.of_nat (k + i) + 1)) l) = map said l) as Hk; [|exact (Hk 0%nat)].
    induction l as [|c l IH]; intros k; [done|]. simpl. f_equal. rewrite <- (IH (S k)). f_equal. apply imap_ext. intros i x _. simpl. by rewrite Nat.add_succ_r. }
  destruct (_ =s "accelerating"); injection Er as <- _; rewrite Hi, <- Hg; [|done]. by rewrite sort_stable_perm.
Qed.

Lemma gate_grounded sig runID sao d g :
  GateResult_Passed (gate_Evaluate (formed_draft e sig runID sao d) []) = true -> grounded_set sao (with_gate (formed_draft e sig runID sao d) g).
Proof.
  intros Hg. apply (gate_is_conjunction (formed_draft e sig runID sao d) []) in Hg as [_ Hg].
  destruct (form_set_fields e sig sao (draft_set sig runID sao d None "" (Dr_Reason d))) as (_ & _ & _ & _ & Hsao & _ & _ & _ & Hrec).
  fold (formed_draft e sig runID sao d) in Hsao, Hrec. unfold grounded_set, with_gate. cbn [Set_Evidence Set_Proposals].
  set (f := formed_draft e sig runID sao d) in *. cbn in Hsao. rewrite Hsao in Hg.
  destruct (_ && Nat.eqb _ _) eqn:Eb.
  - apply andb_true_iff in Eb as [_ El%Nat.eqb_eq%nil_length_inv]. destruct Hg as (ref & Hin & Hl & (Hs & s & [= <-] & Hn)%coherentSubject_iff).
    exists ref. repeat (split; [done|]). by rewrite El.
  - destruct Hg as (rec & ref & Hr & Hin & Hk & Hl & Hs & s & [= <-] & Hn). exists ref. repeat (split; [done|]). intros c cs Hp.
    unfold candidate_by_id in Hr. rewrite (Hrec _ _ Hp), Hp in Hr. cbn in Hr. rewrite seqb_refl in Hr. by injection Hr as <-.
Qed.

End formed.

(** ** Claims *)

Section claims.
Context {M S_ WP WJ : Type} `{PublisherLaws WP ProposalSet} `{PublisherLaws WJ ProposalSet}.
Abbreviation Eng := (Engine (M := M) (S_ := S_)).
Abbreviation St := (EngState (M := M) (S_ := S_) (WP := WP) (WJ := WJ)).

(** what the ledger has open for a detection when its run starts *)
Definition already_open (e : Eng) (ctx : context) (ck : Clock) (sig : Detection) (st : St) : result (list ProposalSet) :=
  Open ctx (Detection_Fingerprint sig) (GoTime.Add (Ck_open ck) (- Eng_DedupeWindow e)) (Es_ledger st).

(** the shape of a run: it is suppressed, it fails before concluding, or it
    concludes from the ledger as it then stands *)
Lemma Propose_cases (e : Eng) ctx ck sig drift (st st' : St) r :
  Propose e ctx ck sig drift st = (st', r) ->
  (st' = st /\ ((exists o os, already_open e ctx ck sig st = inl (o :: os)) /\ r = inl Set_zero \/ exists err, r = inr err)) \/
  (Es_pub st' = Es_pub st /\ Es_ledger st' = drift (Es_ledger st) /\ exists err, r = inr err) \/
  (exists runID sao d st0 st1, conclude e ctx ck sig runID sao d st0 = (st1, r) /\
     Es_ledger st0 = drift (Es_ledger st) /\ Es_pub st0 = Es_pub st /\ Es_journal st0 = Es_journal st /\
     Es_ledger st' = Es_ledger st1 /\ Es_pub st' = Es_pub st1 /\ Es_journal st' = Es_journal st1 /\
     Es_env st' = Es_env st1 /\ already_open e ctx ck sig st = inl [] /\
     exists m1 asked, Assemble (Eng_Intake e) sig (Ck_assembled ck) (Es_env st) = (m1, inl sao) /\
       conversation e m1 (Dr_Evidence d) asked (Es_env st0) /\ (Dr_proposed d = true -> proposed_by e asked d)).
Proof.
  unfold Propose, already_open. destruct (Open _ _ _ _) as [[|o os]|err]; [|intros [= <- <-]; left; split; [done|left; eauto]|intros [= <- <-]; left; eauto].
  destruct (Assemble _ _ _ _) as [m1 [sao|err]] eqn:Ea.
  2: { destruct (Store_Finish _ _ _ _). intros [= <- <-]. right. left. simpl. eauto. }
  destruct (reason_loop _ _ _ _ _ _ _ _) as [[m2 s2] [d|err]] eqn:El.
  2: { destruct (Store_Finish _ _ _ _). intros [= <- <-]. right. left. simpl. eauto. }
  apply (loop_conversation e m1 _ _ _ _ []) in El as (asked & Hconv & Hprop); [|constructor|done].
  set (st0 := mkEngState m2 s2 _ _ _).
  destruct (conclude _ _ _ _ _ _ _ st0) as [st1 r1] eqn:Ec.
  destruct (Store_Finish _ _ _ _). intros [= <- <-]. right. right.
  eexists _, sao, d, st0, st1. split; [exact Ec|]. repeat (split; [done|]). by exists m1, asked.
Qed.

Lemma conclude_env (e : Eng) ctx ck sig runID sao d (st : St) :
  Es_env (conclude e ctx ck sig runID sao d st).1 = Es_env st.
Proof.
  assert (forall set sb rb, record_run e ctx ck set st = (sb, rb) -> Es_env sb = Es_env st) as Hrr
    by (by intros set sb rb (_ & ? & _)%record_run_spec).
  assert (forall set, Es_env (record_run e ctx ck set st).1 = Es_env st) as Hrr1.
  { intros set. destruct (record_run e ctx ck set st) eqn:Er. by eapply Hrr. }
  unfold conclude. repeat case_match; simplify_eq/=; eauto.
Qed.


(** C22. Every run that returns a set accounts for it. Either the ledger had an open set for
    the fingerprint within the dedupe window, and then nothing at all happened and the empty
    set is returned; or it had none, and the returned set was recorded in the ledger and,
    when one is configured, the journal, and with a publisher wired it is left open exactly
    when it was published; without one nothing is published. *)
Theorem every_run_is_accounted_for (e : Eng) ctx ck sig drift (st st' : St) s :
  Propose e ctx ck sig drift st = (st', inl s) ->
  let opened := Open ctx (Detection_Fingerprint sig) (GoTime.Add (Ck_open ck) (- Eng_DedupeWindow e)) (Es_ledger st) in
  ((exists o os, opened = inl (o :: os)) /\ st' = st /\ s = Set_zero) \/
  (opened = inl [] /\ ctx_Err ctx = None /\
   Es_ledger st' = (Record_ ctx s (Ck_record ck) (Ck_recorded ck) (drift (Es_ledger st))).1 /\
   (Eng_HasJournal e = true -> on_subject "" (Es_journal st') = on_subject "" (Es_journal st) ++ [s]) /\
   (if Eng_HasPub e && open_set s
    then on_subject "thump.proposals" (Es_pub st') = on_subject "thump.proposals" (Es_pub st) ++ [s]
    else Es_pub st' = Es_pub st)).
Proof.
  cbv zeta. intros [[-> [[Ho Hr]|[err Hr]]]|[(_ & _ & err & Hr)|
    (runID & sao & d & st0 & st1 & Hc & Hl & Hp & Hj & -> & -> & -> & _ & Ho & _)]]%Propose_cases; simplify_eq; [by left|].
  right. split; [exact Ho|]. apply conclude_spec in Hc as [[-> Hs]|(s' & res & Hready & Hrun & Hpub & _ & Hps & Hr & _)].
  - destruct (Hs _ eq_refl) as [(Hctx & Hled & Hjou) Hcl]. rewrite <- Hl, <- Hp, <- Hj. repeat (split; [done|]).
    destruct (Eng_HasPub e); [|done]. by rewrite Hcl.
  - destruct res as [err|]; [done|]. injection Hr as <-. rewrite Hpub.
    destruct Hrun as (Hctx & Hled & Hjou). rewrite <- Hl, <- Hp, <- Hj. repeat (split; [done|]).
    assert (open_set s = true) as ->.
    { destruct (ready_phase _ _ _ _ Hready) as (stt & Hst & Hph). unfold open_set. by rewrite Hst, Hph. }
    by apply on_subject_ok.
Qed.

(** *** The cost of a run *)

Section cost.
Context (e : Eng) (cost : M -> nat).
Hypothesis model_cost : forall msgs specs m, (cost (Eng_Complete e msgs specs m).1 <= cost m + 1)%nat.
Hypothesis tool_cost : forall name tool args m,
  Eng_Tools e !! name = Some tool -> (cost (Tool_Run tool args m).1 <= cost m)%nat.

Lemma dispatch_cost calls d res m : (cost (dispatch_calls e calls d res m).1 <= cost m)%nat.
Proof.
  revert d res m. induction calls as [|c calls IH]; intros d res m; simpl; [done|].
  destruct (_ =s "propose"); [by destruct (Eng_decode_propose e _)|].
  destruct (_ =s "insufficient"); [by destruct (Eng_decode_insufficient e _)|].
  pose proof (fun t => tool_cost (ToolCall_Name c) t (ToolCall_Args c) m) as Ht.
  destruct (Eng_Tools e !! _) as [tool|]; [|apply IH]. specialize (Ht _ eq_refl).
  destruct (Tool_Run _ _ _) as [m' [ref|err]]; simpl in *; [|lia]. etransitivity; [apply IH|done].
Qed.

Lemma turn_cost runID step msgs d m s : (cost (turn e runID step msgs d m s).1.1 <= cost m + 1)%nat.
Proof.
  unfold turn. pose proof (model_cost msgs (toolSpecs e) m) as Hm.
  destruct (Eng_Complete _ _ _ _) as [m1 [comp|err]]; simpl in *; [|lia].
  destruct (Store_Checkpoint _ _ _) as [s1 [err|]]; simpl; [lia|].
  destruct (withCallIDs _ _) as [|c cs]; cbn [fst snd]; [lia|].
  pose proof (dispatch_cost (c :: cs) d [] m1) as Hd.
  destruct (dispatch_calls e (c :: cs) d [] m1) as [m2 [[d' res]|err]]; cbn [fst snd] in *; lia.
Qed.

Lemma loop_cost runID fuel step msgs d m s :
  (cost (reason_loop e runID fuel step msgs d m s).1.1 <= cost m + fuel)%nat.
Proof.
  revert step msgs d m s. induction fuel as [|fuel IH]; intros step msgs d m s; simpl; [lia|].
  pose proof (turn_cost runID step msgs d m s) as Ht.
  destruct (turn _ _ _ _ _ _ _) as [[m1 s1] [[d' msgs']|err]]; simpl in *; [|lia].
  destruct (finished d'); simpl; [lia|]. specialize (IH (step + 1) msgs' d' m1 s1). lia.
Qed.

End cost.

(** C23. The reason loop is bounded: for any measure of the environment that one
    model call raises by at most one and that tools and intake do not raise
    (the number of completions asked for, say), a run raises it by at most
    MaxSteps; a suppressed redelivery does not touch the environment at all. *)
Theorem reason_loop_bounded (e : Eng) ctx ck sig drift (st st' : St) r (cost : M -> nat) :
  (forall msgs specs m, (cost (Eng_Complete e msgs specs m).1 <= cost m + 1)%nat) ->
  (forall name tool args m, Eng_Tools e !! name = Some tool -> (cost (Tool_Run tool args m).1 <= cost m)%nat) ->
  (forall m, (cost (Intake_topo (Eng_Intake e) sig m).1 <= cost m)%nat) ->
  (forall m, (cost (Intake_change (Eng_Intake e) sig m).1 <= cost m)%nat) ->
  Propose e ctx ck sig drift st = (st', r) ->
  (cost (Es_env st') <= cost (Es_env st) + Z.to_nat (Eng_MaxSteps e))%nat /\
  ((exists o os, Open ctx (Detection_Fingerprint sig) (GoTime.Add (Ck_open ck) (- Eng_DedupeWindow e)) (Es_ledger st)
                 = inl (o :: os)) -> st' = st /\ r = inl Set_zero).
Proof.
  intros Hmodel Htools Htopo Hchange. unfold Propose.
  destruct (Open _ _ _ _) as [[|o os]|err];
    [|intros [= <- <-]; split; [lia|done]|intros [= <- <-]; split; [lia|by intros (? & ? & ?)]].
  intros Hrun. split; [|by intros (? & ? & ?)]. revert Hrun.
  destruct (Assemble _ _ _ _) as [m1 ra] eqn:Ea.
  assert (cost m1 <= cost (Es_env st))%nat as Hm1.
  { unfold Assemble in Ea. specialize (Htopo (Es_env st)).
    destruct (Intake_topo _ _ _) as [mt [topo|err]]; simpl in *; [|by simplify_eq].
    specialize (Hchange mt). destruct (Intake_change _ _ _) as [mc [change|err]]; simpl in *; simplify_eq; lia. }
  destruct ra as [sao|err]; [|destruct (Store_Finish _ _ _ _); intros [= <- <-]; simpl; lia].
  match goal with |- context [reason_loop e ?a ?b ?c ?d ?f ?g ?h] =>
    pose proof (loop_cost e cost Hmodel Htools a b c d f g h) as Hloop;
    destruct (reason_loop e a b c d f g h) as [[m2 s2] [dr|err]] end;
    simpl in Hloop; [|destruct (Store_Finish _ _ _ _); intros [= <- <-]; simpl; lia].
  set (st0 := mkEngState m2 s2 _ _ _).
  pose proof (conclude_env e ctx ck sig (Detection_Fingerprint sig +:+ "/" +:+ fmt_d (UnixNano (Ck_run ck))) sao dr st0)
    as Hcon.
  destruct (conclude _ _ _ _ _ _ _ st0) as [st1 r1]. simpl in Hcon.
  destruct (Store_Finish _ _ _ _). intros [= <- <-]. simpl. rewrite Hcon. simpl. lia.
Qed.

(** A run that records its set and then fails is not retried: the set stays
    open in the ledger, so the redelivered detection is taken for a duplicate
    and acknowledged without publishing anything.  (The journal or the publish
    failing after [Record] is exactly this case.) *)
Theorem failed_run_suppresses_its_retry (e : Eng) ctx ck ck2 sig drift drift2 (st st1 : St) err s :
  Propose e ctx ck sig drift st = (st1, inr err) ->
  ctx_Err ctx = None ->
  mkRecorded s (Ck_recorded ck) ∈ Ledger_sets (Es_ledger st1) ->
  Set_SignalRef s = Detection_Fingerprint sig -> open_set s = true ->
  (forall row, row ∈ Ledger_sets (Es_ledger st1) -> Set_Status (recorded_set row) <> None) ->
  Ck_open ck2 - Eng_DedupeWindow e < Ck_recorded ck ->
  Propose e ctx ck2 sig drift2 st1 = (st1, inl Set_zero).
Proof.
  intros _ Hctx Hrow Hsig Ho Hall Hw. unfold Propose, Open. rewrite Hctx.
  set (since := GoTime.Add _ _).
  assert (After (Ck_recorded ck) since = true) as Haf by (unfold since, After, GoTime.Add; apply Z.ltb_lt; lia).
  destruct (existsb _ _) eqn:Ex.
  { apply existsb_elem in Ex as (row & Hrow' & Hn). apply elem_of_filterb in Hrow' as [Hin _].
    specialize (Hall _ Hin). by destruct (Set_Status (recorded_set row)). }
  assert (s ∈ map recorded_set (List.filter (fun r => open_set (recorded_set r))
      (List.filter (fun r => (Set_SignalRef (recorded_set r) =s Detection_Fingerprint sig)
                             && After (recorded_at r) since) (Ledger_sets (Es_ledger st1))))) as Hin.
  { apply list_elem_of_fmap. exists (mkRecorded s (Ck_recorded ck)). split; [done|].
    rewrite !elem_of_filterb. simpl. rewrite Hsig, seqb_refl, Haf, Ho. done. }
  destruct (map recorded_set _) as [|o os]; [by apply elem_of_nil in Hin|done].
Qed.

End claims.

(** ** Witnesses: a scripted model that reads one metric and then proposes *)

Definition demo_tool : Tool (M := nat) :=
  mkTool (mkToolSpec "metrics" "read one metric" "")
    (fun _ n => (n, inl (mkEvidenceRef "metrics" "up" "" "error ratio 0.4" "prom:1" true "acme"))).

Definition scripted (msgs : list Message) (specs : list ToolSpec) (n : nat) : nat * result Completion :=
  (Datatypes.S n, inl (mkCompletion (mkMessage "assistant" "" [] [])
     [mkToolCall "" (match n with O => "metrics" | _ => "propose" end) ""])).

Definition demo_action : ActionContract :=
  mkActionContract "acme-shed-load" ["service_failure"%string] ["tier-1"%string] BlastLow []
    (mkActionSpec "shed load" ∅) (mkReversal "restore" "page the owner" false false)
    (mkExecution [mkStep "scale" "acme" "" [] "web" (Some 2) "" "" "" "" ""]
                 [mkStep "scale" "acme" "" [] "web" (Some 4) "" "" "" "" ""])
    (mkSuccessCriteria "acme-errors" "< 0.01" Minute [] "" f0).

Definition demo_weights : ScoringWeights :=
  mkWeights fhalf fhalf f0 Hour fhalf fhalf f1 fhalf Hour fhalf fhalf fhalf.

Definition demo_engine (hasPub : bool) : Engine (M := nat) (S_ := MemStore) :=
  mkEngine (mkIntake (fun _ n => (n, inl (mkTopologySnapshot [] []))) (fun _ n => (n, inl (mkChangeSnapshot []))))
    scripted {[ "metrics" := demo_tool ]} (NewStaticCatalog [demo_action]) []
    (mkStore (MemStore_Checkpoint Background) (MemStore_Finish Background)) None None (10 * Minute)
    hasPub true 6 demo_weights (fun _ => ""%string)
    (fun _ => inl (mkProposeInput "service_failure" [] [mkProposeCandidate "c1" "acme-shed-load" None ["metrics-0"%string]]))
    (fun _ => inr (errors_New "unexpected end of JSON input")).

Definition demo_detection : Detection :=
  mkDetection "acme-burn" "slo_burn:acme" "acme" "tier-1" "slo_burn"
    (mkDivergence "errors" f1 f0 f1 "") (mkTopologyContext [] []) TrafficContext_zero
    (mkImpact Severity_zero BlastRadius_zero) "" "acme-availability" 5.

Definition demo_engine_state (fails : nat)
  : EngState (M := nat) (S_ := MemStore) (WP := MemPub ProposalSet) (WJ := MemPub ProposalSet) :=
  mkEngState 0%nat NewMemStore NewMemProposalLog (mkMemPub [] fails) (mkMemPub [] 0).

Definition demo_clock : Clock := mkClock 6 6 6 7 7 7.

Definition demo_run (fails : nat) :=
  Propose (demo_engine true) Background demo_clock demo_detection id (demo_engine_state fails).


Lemma every_run_is_accounted_for_witness :
  exists s, (demo_run 0).2 = inl s /\ open_set s = true /\
  let opened := Open Background "slo_burn:acme" (GoTime.Add 6 (- (10 * Minute))) NewMemProposalLog in
  (((exists o os, opened = inl (o :: os)) /\ (demo_run 0).1 = demo_engine_state 0 /\ s = Set_zero) \/
   (opened = inl [] /\ ctx_Err Background = None /\
    Es_ledger (demo_run 0).1 = (Record_ Background s 7 7 NewMemProposalLog).1 /\
    (true = true -> on_subject "" (Es_journal (demo_run 0).1) = on_subject "" (mkMemPub [] 0 : MemPub ProposalSet) ++ [s]) /\
    (if true && open_set s
     then on_subject "thump.proposals" (Es_pub (demo_run 0).1)
          = on_subject "thump.proposals" (mkMemPub [] 0 : MemPub ProposalSet) ++ [s]
     else Es_pub (demo_run 0).1 = mkMemPub [] 0))).
Proof.
  destruct (demo_run 0).2 as [s|err] eqn:E; [|vm_compute in E; discriminate E].
  exists s. split; [reflexivity|]. split; [vm_compute in E; injection E as <-; vm_compute; reflexivity|].
  apply (every_run_is_accounted_for (demo_engine true) Background demo_clock demo_detection id
           (demo_engine_state 0) (demo_run 0).1 s).
  rewrite <- E. unfold demo_run. by destruct (Propose _ _ _ _ _ _).
Defined.

Lemma reason_loop_bounded_witness :
  Es_env (demo_run 0).1 = 2%nat /\ (Es_env (demo_run 0).1 <= 0 + Z.to_nat 6)%nat.
Proof.
  split; [vm_compute; reflexivity|].
  apply (reason_loop_bounded (demo_engine true) Background demo_clock demo_detection id
           (demo_engine_state 0) (demo_run 0).1 (demo_run 0).2 id).
  - intros. simpl. unfold id. lia.
  - intros name tool args m Ht. unfold demo_engine in Ht. simpl in Ht.
    apply lookup_singleton_Some in Ht as [_ <-]. simpl. lia.
  - intros. simpl. lia.
  - intros. simpl. lia.
  - unfold demo_run. by destruct (Propose _ _ _ _ _ _).
Defined.

Lemma failed_run_suppresses_its_retry_witness :
  on_subject "thump.proposals" (Es_pub (demo_run 1).1) = [] /\
  Propose (demo_engine true) Background (mkClock 9 9 9 9 9 9) demo_detection id (demo_run 1).1
  = ((demo_run 1).1, inl Set_zero).
Proof.
  split; [vm_compute; reflexivity|].
  destruct (demo_run 1) as [st1 r1] eqn:E.
  destruct r1 as [s|err]; [vm_compute in E; discriminate E|].
  destruct (Ledger_sets (Es_ledger st1)) as [|[s at_] rows] eqn:El;
    [vm_compute in E; injection E as <- _; vm_compute in El; discriminate El|].
  apply (failed_run_suppresses_its_retry (demo_engine true) Background demo_clock (mkClock 9 9 9 9 9 9)
           demo_detection id id (demo_engine_state 1) st1 err s);
    [exact E|reflexivity|..]; simpl; rewrite ?El; vm_compute in E; injection E as <- _; vm_compute in El;
    injection El as <- <- <-.
  - left.
  - reflexivity.
  - reflexivity.
  - intros row [->|Hr]%elem_of_cons; [discriminate|by apply elem_of_nil in Hr].
  - vm_compute. reflexivity.
Defined.
