(* ===== verification/Rattle.v ===== *)
(** * internal/rattle: the Detect beat

    The detectors (detector.go, envelope.go, correlation.go), the debouncer
    (debounce.go), the signal contract (signalcontract.go), the enrichment steps
    (enrich.go, signal.go), the traffic ratio (traffic.go), the loaders (watch.go,
    query.go), [Reconciler.Reconcile] (reconcile.go) and the poll loop with the
    reconciler it runs (rattle.go).  The telemetry backends are functions on an
    environment [E]; the clock is read from it too. *)

From S2P Require Import Prelude GoTime GoFloat Api Configfile Publish.
Local Open Scope Z_scope.

(** ** detector.go *)

Record Sample : Type := mkSample { Sample_T : Time; Sample_BurnRate : float64 }.

Record Dependency : Type := mkDependency { Dependency_Name : string; Dependency_Role : string }.

Record SLO : Type := mkSLO {
  SLO_ID : string;
  SLO_Object : string;
  SLO_Tier : string;
  SLO_Objective : float64;
  SLO_ContractRef : string;
  SLO_Dependencies : list Dependency
}.

(** the [Watched] interface, of which [SLO] is the only implementation *)
Definition AffectedObject (s : SLO) : string := SLO_Object s.
Definition DeclaredTier (s : SLO) : string := SLO_Tier s.
Definition Contract_ (s : SLO) : string := SLO_ContractRef s.
Definition Kind (s : SLO) : string := "slo_burn".
Definition SLOID (s : SLO) : string := SLO_ID s.

Definition fingerprint (env : SLO) : string := Kind env +:+ ":" +:+ AffectedObject env.

Definition burnRates (w : list Sample) : list float64 := map Sample_BurnRate w.

Fixpoint diffs (xs : list float64) : list float64 :=
  match xs with
  | x :: ((y :: _) as xs') => fsub y x :: diffs xs'
  | _ => []
  end.

Definition mean (xs : list float64) : float64 :=
  match xs with
  | [] => f0
  | _ => fdiv (fold_left fadd xs f0) (of_int (Z.of_nat (length xs)))
  end.

Record AccelerationDetector : Type := mkAccel { Accel_Threshold : float64 }.

Definition Accel_Detect (d : AccelerationDetector) (window : list Sample) : bool * float64 :=
  if Nat.ltb (length window) 3 then (false, f0)
  else
    let d1 := diffs (burnRates window) in
    let d2 := diffs d1 in
    let accel := mean d2 in
    (fgt (mean d1) f0 && fgt accel (Accel_Threshold d), accel).

(** [MinSamples] as a count: a negative one is a slice-bounds panic in Go *)
Record SustainedBurnDetector : Type := mkSustained { Sus_Threshold : float64; Sus_MinSamples : nat }.

Definition Sus_Detect (d : SustainedBurnDetector) (window : list Sample) : bool * float64 :=
  if Nat.ltb (length window) (Sus_MinSamples d) || Nat.eqb (Sus_MinSamples d) 0 then (false, f0)
  else
    let tail := skipn (length window - Sus_MinSamples d) window in
    if existsb (fun s => flt (Sample_BurnRate s) (Sus_Threshold d)) tail then (false, f0)
    else (true, match list.last tail with Some s => Sample_BurnRate s | None => f0 end).

(** ** envelope.go *)

Record EnvelopeDetector : Type := mkEnvelope { Envelope_K : float64 }.

Definition stddev (xs : list float64) (m : float64) : float64 :=
  match xs with
  | [] => f0
  | _ => fsqrt (fdiv (fold_left (fun sumSq x => fadd sumSq (fmul (fsub x m) (fsub x m))) xs f0)
                     (of_int (Z.of_nat (length xs))))
  end.

Definition Envelope_Fires (d : EnvelopeDetector) (baseline live : list Sample) : bool :=
  if Nat.ltb (length baseline) 2 then false
  else
    let bMean := mean (burnRates baseline) in
    let bStdDev := stddev (burnRates baseline) bMean in
    let lMean := mean (burnRates live) in
    fgt lMean (fadd bMean (fmul (Envelope_K d) bStdDev)).

(** ** correlation.go *)

Record CorrelationDetector : Type := mkCorrelation { Correlation_MinSignals : Z }.

Abbreviation MultiSignalWindow := (gmap string (list Sample)).

Definition worsening (series : list Sample) : bool := fgt (mean (diffs (burnRates series))) f0.

Definition Correlation_Fires (d : CorrelationDetector) (w : MultiSignalWindow) : bool :=
  Correlation_MinSignals d <=?
  Z.of_nat (length (List.filter (fun kv : string * list Sample => worsening kv.2) (map_to_list w))).

(** ** debounce.go *)

Record Debouncer : Type := mkDebouncer { Debouncer_Hold : Duration; Debouncer_last : gmap string Time }.

Definition NewDebouncer (hold : Duration) : Debouncer := mkDebouncer hold ∅.

Definition Allow (d : Debouncer) (fp : string) (now : Time) : Debouncer * bool :=
  let restamp := (mkDebouncer (Debouncer_Hold d) (<[fp := now]> (Debouncer_last d)), true) in
  match Debouncer_last d !! fp with
  | Some last => if Sub now last <? Debouncer_Hold d then (d, false) else restamp
  | None => restamp
  end.

(** ** signalcontract.go *)

Record ExclusionWindow : Type := mkExclusionWindow { Ex_Start : Time; Ex_End : Time; Ex_Reason : string }.

Record SignalContract : Type := mkSignalContract {
  SC_FreshnessBound : Duration;
  SC_MinObservationWindow : Z;
  SC_ConfidenceFloor : float64;
  SC_ExclusionWindows : list ExclusionWindow
}.

Definition excluded (c : SignalContract) (at_ : Time) : bool :=
  existsb (fun ex => negb (Before at_ (Ex_Start ex)) && Before at_ (Ex_End ex)) (SC_ExclusionWindows c).

Definition Attenuated (c : SignalContract) (base : float64) (at_ : Time) : float64 :=
  let attenuated := if excluded c at_ then fdiv base f2 else base in
  if flt attenuated (SC_ConfidenceFloor c) then SC_ConfidenceFloor c else attenuated.

Definition Fresh (c : SignalContract) (window : list Sample) (now : Time) : bool :=
  match list.last window with
  | None => false
  | Some newest => Sub now (Sample_T newest) <=? SC_FreshnessBound c
  end.

(** ** enrich.go and signal.go *)

Definition trajectory (rates : list float64) : string :=
  let d := mean (diffs rates) in
  if fgt d f0 then "accelerating" else if flt d f0 then "recovering" else "stable".

Definition SignalFor (env : SLO) (detectorType : string) (accel : float64) (traj : string) (now : Time)
  (contract : option SignalContract) : Detection :=
  mkDetection (AffectedObject env +:+ "-burn-accel") (fingerprint env) (AffectedObject env) (DeclaredTier env)
    detectorType
    (mkDivergence "" accel f0 (match contract with Some c => Attenuated c f1 now | None => f0 end) traj)
    (mkTopologyContext [] []) TrafficContext_zero (mkImpact Severity_zero BlastRadius_zero)
    (Contract_ env) (SLOID env) now.

Definition with_impact (d : Detection) (i : Impact) : Detection :=
  mkDetection (Detection_Name d) (Detection_Fingerprint d) (Detection_OriginService d) (Detection_ServiceTier d)
    (Detection_DetectorType d) (Detection_Divergence d) (Detection_Topology d) (Detection_Traffic d) i
    (Detection_ContractRef d) (Detection_SLORef d) (Detection_DetectedAt d).

Definition with_traffic (d : Detection) (t : TrafficContext) : Detection :=
  mkDetection (Detection_Name d) (Detection_Fingerprint d) (Detection_OriginService d) (Detection_ServiceTier d)
    (Detection_DetectorType d) (Detection_Divergence d) (Detection_Topology d) t (Detection_Impact d)
    (Detection_ContractRef d) (Detection_SLORef d) (Detection_DetectedAt d).

Definition with_topology (d : Detection) (t : TopologyContext) : Detection :=
  mkDetection (Detection_Name d) (Detection_Fingerprint d) (Detection_OriginService d) (Detection_ServiceTier d)
    (Detection_DetectorType d) (Detection_Divergence d) t (Detection_Traffic d) (Detection_Impact d)
    (Detection_ContractRef d) (Detection_SLORef d) (Detection_DetectedAt d).

Definition EnrichSeverity (d : Detection) (burnWindow : list Sample) (slo : SLO) : Detection :=
  let rates := burnRates burnWindow in
  let pct := match list.last rates with
             | Some r => fmin (fmul r (fsub f1 (SLO_Objective slo))) f1
             | None => Severity_DegradationPct (Impact_Severity (Detection_Impact d))
             end in
  with_impact d (mkImpact (mkSeverity pct (trajectory rates)) (Impact_BlastRadius (Detection_Impact d))).

Record TrafficSample : Type := mkTrafficSample { TrafficSample_T : Time; TrafficSample_AffectedPct : float64 }.

Definition EnrichTraffic (d : Detection) (traffic : list TrafficSample) : Detection :=
  let rates := map TrafficSample_AffectedPct traffic in
  match list.last rates with
  | None => d (* never called on an empty slice *)
  | Some latest =>
      with_impact (with_traffic d (mkTrafficContext latest f0 ""))
        (mkImpact (Impact_Severity (Detection_Impact d)) (mkBlastRadius latest (trajectory rates) 0))
  end.

(** ** traffic.go: the ratio [TrafficSamples] reports, [None] for a quiet
    absence of either series *)
Definition affected_pct (affected total : option float64) : option float64 :=
  match affected, total with
  | Some a, Some t => Some (if fgt t f0 then fmin (fdiv a t) f1 else f0)
  | _, _ => None
  end.

Record TrafficQueries : Type := mkTrafficQueries { TQ_Affected : string; TQ_Total : string }.

Section reconcile.
Context {E : Type}.

(** [HubbleTrafficSource.TrafficSamples], over [instant] *)
Definition TrafficSamples (instant : string -> E -> E * result (option float64))
  (queries : gmap string TrafficQueries) (now : E -> Time) (slo : SLO) (e : E)
  : E * result (list TrafficSample) :=
  match queries !! SLO_ID slo with
  | None => (e, inl [])
  | Some q =>
      match instant (TQ_Affected q) e with
      | (e1, inr err) => (e1, inr (errorf_w ("hubble affected query for " +:+ SLO_ID slo +:+ ": ") err))
      | (e1, inl affected) =>
          match instant (TQ_Total q) e1 with
          | (e2, inr err) => (e2, inr (errorf_w ("hubble total query for " +:+ SLO_ID slo +:+ ": ") err))
          | (e2, inl total) =>
              match affected_pct affected total with
              | None => (e2, inl [])
              | Some pct => (e2, inl [mkTrafficSample (now e2) pct])
              end
          end
      end
  end.

(** [EnrichTopology]: a dependency whose state cannot be read is skipped *)
Fixpoint observe_deps (src : Dependency -> E -> E * result string) (deps : list Dependency) (e : E)
  : E * list ObservedNode :=
  match deps with
  | [] => (e, [])
  | dep :: deps' =>
      match src dep e with
      | (e1, inr _) => observe_deps src deps' e1
      | (e1, inl state) =>
          let '(e2, nodes) := observe_deps src deps' e1 in
          (e2, mkObservedNode (Dependency_Name dep) state :: nodes)
      end
  end.

Definition EnrichTopology (src : Dependency -> E -> E * result string) (d : Detection) (slo : SLO) (e : E)
  : E * Detection :=
  let '(e1, nodes) := observe_deps src (SLO_Dependencies slo) e in
  (e1, with_topology d (mkTopologyContext (TopologyContext_Upstream (Detection_Topology d) ++ nodes)
                          (TopologyContext_Downstream (Detection_Topology d)))).

(** ** reconcile.go *)

Record Reconciler : Type := mkReconciler {
  Rc_SLOs : list SLO;
  Rc_Source : SLO -> E -> E * result (list Sample);
  Rc_Detector : AccelerationDetector;
  Rc_Correlation : option (CorrelationDetector * (SLO -> E -> E * result MultiSignalWindow));
  Rc_Envelope : option (EnvelopeDetector * (SLO -> E -> E * result (list Sample)));
  Rc_Sustained : option SustainedBurnDetector;
  Rc_Contract : option SignalContract;
  Rc_TopologySource : option (Dependency -> E -> E * result string);
  Rc_TrafficSource : option (SLO -> E -> E * result (list TrafficSample));
  Rc_Now : E -> Time
}.

(** the detectors in order: [None] when none fires *)
Definition detect (r : Reconciler) (slo : SLO) (window : list Sample) (e : E)
  : E * result (option (string * float64)) :=
  let '(fired, accel) := Accel_Detect (Rc_Detector r) window in
  if fired then (e, inl (Some ("burn_rate_acceleration"%string, accel)))
  else
    let sustained := match Rc_Sustained r with Some s => Sus_Detect s window | None => (false, f0) end in
    if sustained.1 then (e, inl (Some ("sustained_burn"%string, sustained.2)))
    else
      let '(e1, corr) :=
        match Rc_Correlation r with
        | None => (e, inl false)
        | Some (cd, src) =>
            match src slo e with
            | (e1, inr err) => (e1, inr (errorf_w ("multi-signals for " +:+ SLO_ID slo +:+ ": ") err))
            | (e1, inl ms) => (e1, inl (Correlation_Fires cd ms))
            end
        end in
      match corr with
      | inr err => (e1, inr err)
      | inl true => (e1, inl (Some ("multi_signal_correlation"%string, f0)))
      | inl false =>
          match Rc_Envelope r with
          | None => (e1, inl None)
          | Some (ed, src) =>
              match src slo e1 with
              | (e2, inr err) => (e2, inr (errorf_w ("baseline samples for " +:+ SLO_ID slo +:+ ": ") err))
              | (e2, inl baseline) =>
                  (e2, inl (if Envelope_Fires ed baseline window
                            then Some ("historical_envelope_breach"%string, f0) else None))
              end
          end
      end.

(** debounce, assemble and enrich one fired detection.  [Rc_*] sources that are
    nil skip their step. *)
Definition emit (r : Reconciler) (slo : SLO) (window : list Sample) (kind : string) (accel : float64)
  (now : Time) (e : E) : E * result Detection :=
  let d := SignalFor slo kind accel (trajectory (burnRates window)) now (Rc_Contract r) in
  let d := EnrichSeverity d window slo in
  let '(e1, d) := match Rc_TopologySource r with
                  | Some src => EnrichTopology src d slo e
                  | None => (e, d)
                  end in
  match Rc_TrafficSource r with
  | None => (e1, inl d)
  | Some src =>
      match src slo e1 with
      | (e2, inr err) => (e2, inr (errorf_w ("traffic samples for " +:+ SLO_ID slo +:+ ": ") err))
      | (e2, inl []) => (e2, inl d)
      | (e2, inl traffic) => (e2, inl (EnrichTraffic d traffic))
      end
  end.

(** one SLO of the pass *)
Definition reconcile_one (r : Reconciler) (slo : SLO) (deb : option Debouncer) (e : E)
  : E * option Debouncer * result (option Detection) :=
  match Rc_Source r slo e with
  | (e1, inr err) => (e1, deb, inr (errorf_w ("burn samples for " +:+ SLO_ID slo +:+ ": ") err))
  | (e1, inl window) =>
      let now := Rc_Now r e1 in
      if match Rc_Contract r with Some c => negb (Fresh c window now) | None => false end
      then (e1, deb, inl None)
      else
        match detect r slo window e1 with
        | (e2, inr err) => (e2, deb, inr err)
        | (e2, inl None) => (e2, deb, inl None)
        | (e2, inl (Some (kind, accel))) =>
            let '(deb', allowed) := match deb with
                                    | None => (None, true)
                                    | Some d => let '(d', a) := Allow d (fingerprint slo) now in (Some d', a)
                                    end in
            if allowed then
              match emit r slo window kind accel now e2 with
              | (e3, inr err) => (e3, deb', inr err)
              | (e3, inl d) => (e3, deb', inl (Some d))
              end
            else (e2, deb', inl None)
        end
  end.

Fixpoint reconcile_all (r : Reconciler) (slos : list SLO) (out : list Detection) (deb : option Debouncer) (e : E)
  : E * option Debouncer * result (list Detection) :=
  match slos with
  | [] => (e, deb, inl out)
  | slo :: slos' =>
      match reconcile_one r slo deb e with
      | (e1, deb1, inr err) => (e1, deb1, inr err)
      | (e1, deb1, inl None) => reconcile_all r slos' out deb1 e1
      | (e1, deb1, inl (Some d)) => reconcile_all r slos' (out ++ [d]) deb1 e1
      end
  end.

Definition Reconcile (r : Reconciler) (deb : option Debouncer) (e : E)
  : E * option Debouncer * result (list Detection) :=
  reconcile_all r (Rc_SLOs r) [] deb e.

(** ** rattle.go: the reconciler the process runs, and its loop *)

Record QueryConfig : Type := mkQueryConfig {
  QC_Step : Duration;
  QC_Window : Duration;
  QC_PollInterval : Duration;
  QC_ReconcileTimeout : Duration;
  QC_SustainedMinSamples : Z;
  QC_Debounce : Duration;
  QC_FreshnessBound : Duration
}.

(** [newReconciler]; the reconciler and the debouncer it starts with.  [src] is
    the Prometheus source built over [query]. *)
Definition newReconciler (src : SLO -> E -> E * result (list Sample)) (slos : list SLO)
  (topo : option (Dependency -> E -> E * result string))
  (traffic : option (SLO -> E -> E * result (list TrafficSample))) (now : E -> Time) (query : QueryConfig)
  : Reconciler * option Debouncer :=
  (mkReconciler slos src (mkAccel fhalf) None None
     (Some (mkSustained f1 (Z.to_nat (QC_SustainedMinSamples query))))
     (Some (mkSignalContract (QC_FreshnessBound query) 0 fhalf []))
     topo traffic now,
   Some (NewDebouncer (QC_Debounce query))).

Section loop.
Context {W : Type} `{Publisher W Detection}.

(** a failed publish is logged and the next detection tried *)
Definition publish_all (hasPub : bool) (ds : list Detection) (w : W) : W :=
  if hasPub then fold_left (fun w d => (publish "thump.detections" d w).1) ds w else w.

(** [n] ticks of [runLoop]: an error of the pass is logged and the tick skipped *)
Fixpoint runLoop (hasPub : bool) (r : Reconciler) (n : nat) (deb : option Debouncer) (e : E) (w : W)
  : E * option Debouncer * W :=
  match n with
  | O => (e, deb, w)
  | S n' =>
      match Reconcile r deb e with
      | (e', deb', inr _) => runLoop hasPub r n' deb' e' w
      | (e', deb', inl ds) => runLoop hasPub r n' deb' e' (publish_all hasPub ds w)
      end
  end.

End loop.

End reconcile.

(** ** watch.go and query.go: the loaders *)

Definition LoadWatch (readFile : string -> result string) (unmarshal : string -> result (list SLO)) (path : string)
  : result (list SLO) :=
  match readFile path with
  | inr e => inr (errorf_w ("read watch file " +:+ path +:+ ": ") e)
  | inl raw =>
      match unmarshal raw with
      | inr e => inr (errorf_w "parse watch file: " e)
      | inl [] => inr (errors_New ("watch file " +:+ path +:+ " declares zero SLOs"))
      | inl slos => inl slos
      end
  end.

Record queryConfigFile : Type := mkQueryConfigFile {
  qf_Step : option string;
  qf_Window : option string;
  qf_PollInterval : option string;
  qf_ReconcileTimeout : option string;
  qf_SustainedMinSamples : option Z;
  qf_Debounce : option string;
  qf_FreshnessBound : option string
}.

Definition ErrIncompleteQueryConfig : error :=
  errors_New "query config file is missing one or more required terms".

Definition LoadQueryConfig (readFile : string -> result string) (unmarshal : string -> result queryConfigFile)
  (parse : string -> result Duration) (path : string) : result QueryConfig :=
  match Stage readFile unmarshal path "query config file" with
  | inr e => inr e
  | inl qf =>
      let r := Require_ "query config file" ErrIncompleteQueryConfig in
      let '(r, step) := Required_Duration parse r "step" (qf_Step qf) in
      let '(r, window) := Required_Duration parse r "window" (qf_Window qf) in
      let '(r, pollInterval) := Required_Duration parse r "pollInterval" (qf_PollInterval qf) in
      let '(r, reconcileTimeout) := Required_Duration parse r "reconcileTimeout" (qf_ReconcileTimeout qf) in
      let '(r, sustainedMinSamples) := Required_Int r "sustainedMinSamples" (qf_SustainedMinSamples qf) in
      let '(r, debounce) := Required_Duration parse r "debounce" (qf_Debounce qf) in
      let '(r, freshnessBound) := Required_Duration parse r "freshnessBound" (qf_FreshnessBound qf) in
      match Required_Err r with
      | Some e => inr e
      | None => inl (mkQueryConfig step window pollInterval reconcileTimeout sustainedMinSamples debounce freshnessBound)
      end
  end.

(** ** The debouncer *)

(** [Allow] called in sequence: the verdicts, in order. *)
Fixpoint allows (d : Debouncer) (calls : list (string * Time)) : list bool :=
  match calls with
  | [] => []
  | (fp, now) :: calls' => let '(d', ok) := Allow d fp now in ok :: allows d' calls'
  end.

(** the calls that were allowed *)
Definition allowed_of (calls : list (string * Time)) (oks : list bool) : list (string * Time) :=
  map fst (List.filter snd (zip calls oks)).

(** [now] is clear of every permitted signal of [fp]: none is less than [hold] old *)
Definition clear_of (hold : Duration) (fp : string) (now : Time) (permitted : list (string * Time)) : Prop :=
  forall t, (fp, t) ∈ permitted -> hold <= now - t.

(** the debouncer after the permitted signals [permitted]: it holds the latest of
    each fingerprint, and every earlier one is at least as old *)
Definition Stamped (d : Debouncer) (permitted : list (string * Time)) : Prop :=
  forall fp,
    match Debouncer_last d !! fp with
    | Some last => (fp, last) ∈ permitted /\ forall t, (fp, t) ∈ permitted -> t <= last
    | None => forall t, (fp, t) ∉ permitted
    end.

Definition HoldOk (d : Debouncer) : Prop := 0 <= Debouncer_Hold d <= int64_max.

Lemma Stamped_new hold : Stamped (NewDebouncer hold) [].
Proof. intros fp. cbn. rewrite lookup_empty. intros t Ht. set_solver. Qed.

Lemma Allow_hold d fp now d' ok : Allow d fp now = (d', ok) -> Debouncer_Hold d' = Debouncer_Hold d.
Proof. unfold Allow. repeat case_match; intros; simplify_eq; done. Qed.

(** one call decides against the permitted signals and records its own *)
Lemma Allow_spec d fp now d' ok permitted :
  HoldOk d -> Stamped d permitted -> Allow d fp now = (d', ok) ->
  (ok = true <-> clear_of (Debouncer_Hold d) fp now permitted) /\
  Stamped d' (permitted ++ if ok then [(fp, now)] else []).
Proof.
  intros Hh Hst HA. pose proof (Hst fp) as Hfp.
  assert (Hrestamp : clear_of (Debouncer_Hold d) fp now permitted ->
    Stamped (mkDebouncer (Debouncer_Hold d) (<[fp := now]> (Debouncer_last d))) (permitted ++ [(fp, now)])).
  { intros Hc fp'. cbn. destruct (decide (fp' = fp)) as [-> | Hne].
    - rewrite lookup_insert_eq. split; [set_solver |].
      intros t [Ht | Ht]%elem_of_app; [pose proof (Hc t Ht); unfold HoldOk in Hh; lia |].
      apply list_elem_of_singleton in Ht. simplify_eq; lia.
    - rewrite lookup_insert_ne by done. specialize (Hst fp').
      destruct (Debouncer_last d !! fp').
      + destruct Hst as [Hin Hle]. split; [set_solver |].
        intros t' [Ht | Ht]%elem_of_app; [auto | apply list_elem_of_singleton in Ht; simplify_eq].
      + intros t' [Ht | Ht]%elem_of_app; [exact (Hst _ Ht) | apply list_elem_of_singleton in Ht; simplify_eq]. }
  unfold Allow in HA. destruct (Debouncer_last d !! fp) as [last |].
  - destruct Hfp as [Hin Hle]. unfold Sub in HA.
    pose proof (sat64_lt_nonneg (now - last) (Debouncer_Hold d) Hh) as Hs.
    destruct (Z.ltb_spec (sat64 (now - last)) (Debouncer_Hold d)); simplify_eq.
    + rewrite app_nil_r. split; [| done]. split; [done |]. intros Hc. specialize (Hc _ Hin). lia.
    + assert (Hc : clear_of (Debouncer_Hold d) fp now permitted)
        by (intros t Ht; specialize (Hle _ Ht); lia).
      split; [by split | auto].
  - simplify_eq. assert (Hc : clear_of (Debouncer_Hold d) fp now permitted)
      by (intros t Ht; destruct (Hfp _ Ht)).
    split; [by split | auto].
Qed.

Lemma allows_length d calls : length (allows d calls) = length calls.
Proof.
  revert d; induction calls as [| [fp now] calls IH]; intros d; cbn; [done |].
  destruct (Allow d fp now); cbn. by rewrite IH.
Qed.

(** The debouncer against its reference: in any sequence of calls, whatever
    their fingerprints and times, a call is allowed exactly when every earlier
    allowed call of the same fingerprint lies at least the hold interval before it.
    So two permitted signals of one fingerprint are never closer than the hold,
    suppressed calls do not extend it, and nothing else is ever suppressed. *)
Theorem debounce_exact (hold : Duration) (calls : list (string * Time)) (i : nat) (fp : string) (now : Time) :
  0 <= hold <= int64_max -> calls !! i = Some (fp, now) ->
  let oks := allows (NewDebouncer hold) calls in
  oks !! i = Some true <-> clear_of hold fp now (allowed_of (take i calls) (take i oks)).
Proof.
  intros Hh Hi. cbn zeta.
  assert (Hgen : forall d permitted, HoldOk d -> Stamped d permitted ->
    (allows d calls !! i = Some true <->
     clear_of (Debouncer_Hold d) fp now (permitted ++ allowed_of (take i calls) (take i (allows d calls))))).
  { revert i Hi. induction calls as [| [fp0 t0] calls IH]; intros i Hi d permitted Hd Hst; [done |].
    cbn [allows]. destruct (Allow d fp0 t0) as [d' ok] eqn:HA.
    pose proof (Allow_hold _ _ _ _ _ HA) as Heq.
    destruct (Allow_spec _ _ _ _ _ _ Hd Hst HA) as [Hiff Hst'].
    destruct i as [| i]; cbn in Hi.
    - simplify_eq. cbn. unfold allowed_of; cbn. rewrite app_nil_r.
      rewrite <- Hiff. split; congruence.
    - cbn [lookup list_lookup take]. unfold HoldOk in Hd.
      rewrite (IH i Hi d' _ ltac:(unfold HoldOk; lia) Hst'), Heq, <- app_assoc.
      unfold allowed_of. cbn. destruct ok; cbn; done. }
  apply (Hgen (NewDebouncer hold) [] Hh (Stamped_new hold)).
Qed.

Lemma debounce_exact_witness :
  let calls := [("a", 0); ("a", 5); ("b", 6); ("a", 10)]%string in
  allows (NewDebouncer 10) calls = [true; false; true; true] /\
  clear_of 10 "a" 10 (allowed_of (take 3 calls) [true; false; true]).
Proof.
  cbn zeta. split; [reflexivity |].
  apply (proj1 (debounce_exact 10 [("a", 0); ("a", 5); ("b", 6); ("a", 10)]%string 3 "a" 10
           ltac:(vm_compute; split; congruence) eq_refl)).
  reflexivity.
Defined.

(** ** One pass *)

Section passes.
Context {E : Type}.
Implicit Types (r : @Reconciler E) (slo : SLO) (d : Detection).

(** which detector is reported, by the precedence of the pass: the acceleration
    of the window, else its sustained level, else the correlated signals, else the
    historical envelope *)
Inductive FiredBy r slo (window : list Sample) : string -> float64 -> Prop :=
| by_acceleration :
    (Accel_Detect (Rc_Detector r) window).1 = true ->
    FiredBy r slo window "burn_rate_acceleration" (Accel_Detect (Rc_Detector r) window).2
| by_sustained s :
    (Accel_Detect (Rc_Detector r) window).1 = false -> Rc_Sustained r = Some s ->
    (Sus_Detect s window).1 = true ->
    FiredBy r slo window "sustained_burn" (Sus_Detect s window).2
| by_correlation cd src e e' ms :
    (Accel_Detect (Rc_Detector r) window).1 = false ->
    (forall s, Rc_Sustained r = Some s -> (Sus_Detect s window).1 = false) ->
    Rc_Correlation r = Some (cd, src) -> src slo e = (e', inl ms) -> Correlation_Fires cd ms = true ->
    FiredBy r slo window "multi_signal_correlation" f0
| by_envelope ed src e e' baseline :
    (Accel_Detect (Rc_Detector r) window).1 = false ->
    (forall s, Rc_Sustained r = Some s -> (Sus_Detect s window).1 = false) ->
    Rc_Envelope r = Some (ed, src) -> src slo e = (e', inl baseline) -> Envelope_Fires ed baseline window = true ->
    FiredBy r slo window "historical_envelope_breach" f0.

(** what a detection claims is what the pass measured: a window its source
    returned, fresh at the detection time, on which the reported detector fired *)
Definition Backed r slo d : Prop :=
  exists e e1 window,
    Rc_Source r slo e = (e1, inl window) /\
    (forall c, Rc_Contract r = Some c -> Fresh c window (Detection_DetectedAt d) = true) /\
    FiredBy r slo window (Detection_DetectorType d) (Divergence_Observed (Detection_Divergence d)) /\
    Detection_Fingerprint d = fingerprint slo /\ Detection_OriginService d = SLO_Object slo /\
    Detection_SLORef d = SLO_ID slo /\ Detection_ContractRef d = SLO_ContractRef slo /\
    (forall c, Rc_Contract r = Some c ->
       flt (Divergence_Confidence (Detection_Divergence d)) (SC_ConfidenceFloor c) = false) /\
    flt f1 (Severity_DegradationPct (Impact_Severity (Detection_Impact d))) = false.

Lemma detect_fired r slo window e e' kind accel :
  detect r slo window e = (e', inl (Some (kind, accel))) -> FiredBy r slo window kind accel.
Proof.
  unfold detect. destruct (Accel_Detect (Rc_Detector r) window) as [[] a] eqn:HA.
  { intros; simplify_eq. replace accel with (Accel_Detect (Rc_Detector r) window).2 by (by rewrite HA).
    constructor. by rewrite HA. }
  destruct (match Rc_Sustained r with Some s => Sus_Detect s window | None => (false, f0) end)
    as [[] l] eqn:HS; cbn.
  { intros; simplify_eq. destruct (Rc_Sustained r) as [s |] eqn:Hs; [| done].
    replace accel with (Sus_Detect s window).2 by (by rewrite HS).
    apply (by_sustained _ _ _ s); rewrite ?HA, ?HS; done. }
  assert (Hns : forall s, Rc_Sustained r = Some s -> (Sus_Detect s window).1 = false).
  { intros s Hs. rewrite Hs in HS. by rewrite HS. }
  assert (Hna : (Accel_Detect (Rc_Detector r) window).1 = false) by (by rewrite HA).
  assert (Henv : forall e1, match Rc_Envelope r with
      | None => (e1, inl None)
      | Some (ed, src) =>
          match src slo e1 with
          | (e2, inr err) => (e2, inr (errorf_w ("baseline samples for " +:+ SLO_ID slo +:+ ": ") err))
          | (e2, inl baseline) =>
              (e2, inl (if Envelope_Fires ed baseline window
                        then Some ("historical_envelope_breach"%string, f0) else None))
          end
      end = (e', inl (Some (kind, accel))) -> FiredBy r slo window kind accel).
  { intros e1. destruct (Rc_Envelope r) as [[ed esrc] |] eqn:HE; [| done].
    destruct (esrc slo e1) as [e2 [b | err]] eqn:Hb; [| done].
    destruct (Envelope_Fires ed b window) eqn:Hf; intros; simplify_eq. by eapply by_envelope. }
  destruct (Rc_Correlation r) as [[cd csrc] |] eqn:HC; [| apply Henv].
  destruct (csrc slo e) as [e1 [ms | err]] eqn:Hms; [| done].
  destruct (Correlation_Fires cd ms) eqn:Hf; [| apply Henv].
  intros; simplify_eq. by eapply by_correlation.
Qed.

(** the parts of a detection the later enrichment steps leave alone *)
Definition same_claim d d' : Prop :=
  Detection_Fingerprint d' = Detection_Fingerprint d /\ Detection_OriginService d' = Detection_OriginService d /\
  Detection_SLORef d' = Detection_SLORef d /\ Detection_ContractRef d' = Detection_ContractRef d /\
  Detection_DetectorType d' = Detection_DetectorType d /\ Detection_Divergence d' = Detection_Divergence d /\
  Detection_DetectedAt d' = Detection_DetectedAt d /\
  Impact_Severity (Detection_Impact d') = Impact_Severity (Detection_Impact d).

Lemma EnrichTopology_same src d slo (e e' : E) d' : EnrichTopology src d slo e = (e', d') -> same_claim d d'.
Proof. unfold EnrichTopology. destruct (observe_deps src (SLO_Dependencies slo) e). intros; by simplify_eq. Qed.

Lemma EnrichTraffic_same d ts : same_claim d (EnrichTraffic d ts).
Proof. unfold EnrichTraffic. by destruct (list.last _). Qed.

Lemma emit_same r slo window kind accel now e e' d :
  emit r slo window kind accel now e = (e', inl d) ->
  same_claim (EnrichSeverity (SignalFor slo kind accel (trajectory (burnRates window)) now (Rc_Contract r)) window slo) d.
Proof.
  unfold emit. set (d0 := EnrichSeverity _ _ _). clearbody d0.
  destruct (match Rc_TopologySource r with Some _ => _ | None => _ end) as [e1 d1] eqn:HT.
  assert (H01 : same_claim d0 d1).
  { destruct (Rc_TopologySource r); [by eapply EnrichTopology_same | by simplify_eq]. }
  destruct (Rc_TrafficSource r) as [src |]; [| intros; by simplify_eq].
  destruct (src slo e1) as [e2 [[| t ts] | err]]; intros; simplify_eq; [done |].
  pose proof (EnrichTraffic_same d1 (t :: ts)) as H12. unfold same_claim in *.
  destruct_and!. repeat split; congruence.
Qed.

Lemma Attenuated_floor c base t : flt (Attenuated c base t) (SC_ConfidenceFloor c) = false.
Proof. unfold Attenuated. case_match; [apply flt_irrefl | done]. Qed.

Lemma fmin_cap x : flt f1 (fmin x f1) = false.
Proof.
  destruct (is_nan x) eqn:Hx.
  - destruct x; try discriminate. reflexivity.
  - apply fle_flt_false. apply fmin_le_r; [done | reflexivity].
Qed.

Lemma EnrichSeverity_capped d window slo :
  flt f1 (Severity_DegradationPct (Impact_Severity (Detection_Impact d))) = false ->
  flt f1 (Severity_DegradationPct (Impact_Severity (Detection_Impact (EnrichSeverity d window slo)))) = false.
Proof. intros Hd. unfold EnrichSeverity. cbn. destruct (list.last _); [apply fmin_cap | done]. Qed.

Lemma reconcile_one_backed r slo deb e e' deb' d :
  reconcile_one r slo deb e = (e', deb', inl (Some d)) -> Backed r slo d.
Proof.
  unfold reconcile_one. destruct (Rc_Source r slo e) as [e1 [window | err]] eqn:Hsrc; [| done].
  destruct (match Rc_Contract r with Some _ => _ | None => _ end) eqn:Hfr; [done |].
  destruct (detect r slo window e1) as [e2 [[[kind accel] |] | err]] eqn:Hdet; try done.
  destruct (match deb with None => _ | Some _ => _ end) as [deb1 []]; [| done].
  destruct (emit _ _ _ _ _ _ _) as [e3 [d' | err]] eqn:Hem; [| done]. intros; simplify_eq.
  destruct (emit_same _ _ _ _ _ _ _ _ _ Hem) as (Hf & Ho & Hr & Hc & Hk & Hd & Ht & Hs).
  apply detect_fired in Hdet. exists e, e1, window.
  rewrite Hf, Ho, Hr, Hc, Hk, Hd, Ht, Hs.
  split; [done |]. split; [| split; [exact Hdet |]].
  { intros c Hcc. cbn. rewrite Hcc in Hfr. by destruct (Fresh c window (Rc_Now r e1)). }
  repeat (split; [done |]). split.
  - intros c Hcc. cbn. rewrite Hcc. apply Attenuated_floor.
  - by apply EnrichSeverity_capped.
Qed.

(** Every detection a pass reports is backed by what the pass measured: the
    detections come from watched SLOs, at most one each and in watch order, and
    each names a window its source returned, fresh at the detection time, on which
    the reported detector fired (no detector of higher precedence of the window
    having fired), with the confidence at or above the contract's floor and the
    degradation never above one. *)
Theorem Reconcile_backed r deb e e' deb' ds :
  Reconcile r deb e = (e', deb', inl ds) ->
  exists slos, slos `sublist_of` Rc_SLOs r /\ Forall2 (Backed r) slos ds.
Proof.
  unfold Reconcile.
  assert (Hgen : forall slos out0 outs deb e,
    Forall2 (Backed r) outs out0 -> reconcile_all r slos out0 deb e = (e', deb', inl ds) ->
    exists slos', slos' `sublist_of` slos /\ Forall2 (Backed r) (outs ++ slos') ds).
  { clear e deb. induction slos as [| slo slos IH]; intros out0 outs deb e Ho; cbn [reconcile_all].
    - intros; simplify_eq. exists []. by rewrite app_nil_r.
    - destruct (reconcile_one r slo deb e) as [[e1 deb1] [[d |] | err]] eqn:H1; [| | done]; intros H2.
      + destruct (IH (out0 ++ [d]) (outs ++ [slo]) deb1 e1) as (slos' & Hsub & HF); [| done |].
        { apply Forall2_app; [done |]. repeat constructor. by eapply reconcile_one_backed. }
        exists (slo :: slos'). split; [by constructor |]. by rewrite <- app_assoc in HF.
      + destruct (IH out0 outs deb1 e1 Ho H2) as (slos' & Hsub & HF).
        exists slos'. split; [by constructor | done]. }
  intros HR. apply (Hgen _ [] [] _ _ ltac:(constructor) HR).
Qed.

(** ** Across passes *)

(** the detections the poll loop hands to its publisher: those of each pass that
    succeeded, in order *)
Fixpoint passes (r : Reconciler) (n : nat) (deb : option Debouncer) (e : E) : list Detection :=
  match n with
  | O => []
  | S n' =>
      match Reconcile r deb e with
      | (e', deb', inl ds) => ds ++ passes r n' deb' e'
      | (e', deb', inr _) => passes r n' deb' e'
      end
  end.

Lemma passes_backed r n : forall deb e d, d ∈ passes r n deb e -> exists slo, slo ∈ Rc_SLOs r /\ Backed r slo d.
Proof.
  induction n as [| n IH]; intros deb e d; cbn [passes]; [by intros ?%elem_of_nil |].
  destruct (Reconcile r deb e) as [[e' deb'] [ds | err]] eqn:HR; [| by apply IH].
  intros [Hin | Hin]%elem_of_app; [| by eapply IH]. destruct (Reconcile_backed r deb e e' deb' ds HR) as (slos & Hsub & HF).
  apply list_elem_of_lookup in Hin as [i Hi]. destruct (Forall2_lookup_r _ _ _ _ _ HF Hi) as (slo & Hs & Hb).
  exists slo. split; [| done]. eapply elem_of_sublist; [by eapply list_elem_of_lookup_2 | exact Hsub].
Qed.

(** the permitted signals recorded by [d] include the detections [ds] *)
Definition Covers (hold : Duration) (od : option Debouncer) (ds : list Detection) : Prop :=
  exists deb permitted, od = Some deb /\ Debouncer_Hold deb = hold /\ Stamped deb permitted /\
    Forall (fun x => (Detection_Fingerprint x, Detection_DetectedAt x) ∈ permitted) ds.

(** every later detection of a fingerprint is at least [hold] after the earlier *)
Definition Spaced (hold : Duration) : list Detection -> Prop :=
  ForallOrdPairs (fun d d' => Detection_Fingerprint d = Detection_Fingerprint d' ->
                              hold <= Detection_DetectedAt d' - Detection_DetectedAt d).

Lemma Spaced_snoc hold ds x :
  Spaced hold ds ->
  Forall (fun y => Detection_Fingerprint y = Detection_Fingerprint x ->
                   hold <= Detection_DetectedAt x - Detection_DetectedAt y) ds ->
  Spaced hold (ds ++ [x]).
Proof.
  unfold Spaced. induction 1 as [| y ds Hy Hds IH]; cbn; intros HF; [repeat constructor |].
  apply list.Forall_cons in HF as [Hyx HF]. constructor; [| by apply IH].
  apply Forall_app. split; [done |]. by repeat constructor.
Qed.

Lemma reconcile_one_spaced hold r slo deb e e' deb' res seen :
  0 <= hold <= int64_max -> Covers hold deb seen -> reconcile_one r slo deb e = (e', deb', res) ->
  Covers hold deb' seen /\
  forall d, res = inl (Some d) ->
    Covers hold deb' (seen ++ [d]) /\
    Forall (fun y => Detection_Fingerprint y = Detection_Fingerprint d ->
                     hold <= Detection_DetectedAt d - Detection_DetectedAt y) seen.
Proof.
  intros Hh Hcov. unfold reconcile_one.
  destruct (Rc_Source r slo e) as [e1 [window | err]]; [| intros; by simplify_eq].
  case_match; [intros; by simplify_eq |].
  destruct (detect r slo window e1) as [e2 [[[kind accel] |] | err]]; try (intros; by simplify_eq).
  destruct Hcov as (d0 & permitted & -> & Hhold & Hst & HF).
  destruct (Allow d0 (fingerprint slo) (Rc_Now r e1)) as [d1 ok] eqn:HA.
  destruct (Allow_spec _ _ _ _ _ permitted ltac:(unfold HoldOk; by rewrite Hhold) Hst HA) as [Hiff Hst'].
  pose proof (Allow_hold _ _ _ _ _ HA) as Hhold'. rewrite Hhold in *.
  assert (Hkeep : Covers hold (Some d1) seen).
  { eexists d1, _. split; [done |]. split; [done |]. split; [exact Hst' |].
    eapply list.Forall_impl; [exact HF |]. cbn. set_solver. }
  destruct ok; [| intros; by simplify_eq].
  destruct (emit _ _ _ _ _ _ _) as [e3 [x | err]] eqn:Hem; intros; simplify_eq; [| by split].
  destruct (emit_same _ _ _ _ _ _ _ _ _ Hem) as (Hfp & _ & _ & _ & _ & _ & Hat & _).
  split; [done |]. intros d ?; simplify_eq. split.
  - eexists d1, _. split; [done |]. split; [done |]. split; [exact Hst' |].
    apply Forall_app. split; [eapply list.Forall_impl; [exact HF |]; cbn; set_solver |].
    repeat constructor. rewrite Hfp, Hat. cbn. set_solver.
  - eapply list.Forall_impl; [exact HF |]. cbn. intros y Hy Heq. rewrite Heq, Hfp in Hy.
    rewrite Hat. cbn. by apply (proj1 Hiff eq_refl).
Qed.

Lemma reconcile_all_spaced hold r slos out deb e e' deb' res seen :
  0 <= hold <= int64_max -> Covers hold deb (seen ++ out) -> Spaced hold (seen ++ out) ->
  reconcile_all r slos out deb e = (e', deb', res) ->
  Covers hold deb' seen /\
  forall ds, res = inl ds -> Covers hold deb' (seen ++ ds) /\ Spaced hold (seen ++ ds).
Proof.
  intros Hh. revert out deb e.
  induction slos as [| slo slos IH]; intros out deb e Hc Hs; cbn [reconcile_all].
  { intros; simplify_eq. split; [| intros; by simplify_eq].
    destruct Hc as (d & p & ? & ? & ? & [??]%Forall_app). by exists d, p. }
  destruct (reconcile_one r slo deb e) as [[e1 deb1] res1] eqn:H1.
  destruct (reconcile_one_spaced _ _ _ _ _ _ _ _ _ Hh Hc H1) as [Hc1 Hnew].
  destruct res1 as [[d |] | err].
  - destruct (Hnew d eq_refl) as [Hc2 HF]. apply IH; rewrite app_assoc; [done | by apply Spaced_snoc].
  - by apply IH.
  - intros; simplify_eq. split; [| done].
    destruct Hc1 as (d & p & ? & ? & ? & [??]%Forall_app). by exists d, p.
Qed.

Lemma passes_spaced (hold : Duration) r (n : nat) (e : E) :
  0 <= hold <= int64_max -> Spaced hold (passes r n (Some (NewDebouncer hold)) e).
Proof.
  intros Hh.
  assert (Hgen : forall n seen deb e, Covers hold deb seen -> Spaced hold seen ->
    Spaced hold (seen ++ passes r n deb e)).
  { clear n e. induction n as [| n IH]; intros seen deb e Hc Hs; cbn [passes]; [by rewrite app_nil_r |].
    destruct (Reconcile r deb e) as [[e' deb'] res] eqn:HR.
    destruct (reconcile_all_spaced hold r (Rc_SLOs r) [] deb e e' deb' res seen Hh) as [Hc' Hds];
      [by rewrite app_nil_r | by rewrite app_nil_r | done |].
    destruct res as [ds | err]; [| by apply IH].
    destruct (Hds ds eq_refl). rewrite app_assoc. by apply IH. }
  apply (Hgen n [] _ e); [| constructor].
  exists (NewDebouncer hold), []. split; [done |]. split; [done |]. split; [apply Stamped_new | constructor].
Qed.

Lemma Spaced_sublist hold ds ds' : ds `sublist_of` ds' -> Spaced hold ds' -> Spaced hold ds.
Proof.
  unfold Spaced. induction 1 as [| d ds ds' Hs IH | d ds ds' Hs IH]; intros HF; [constructor | |].
  - inversion HF as [| ? ? Hd HF']; subst. constructor; [| by apply IH].
    rewrite List.Forall_forall in *. intros x Hx. apply Hd. apply list_elem_of_In. eapply elem_of_sublist; [by apply list_elem_of_In | exact Hs].
  - inversion HF; subst. by apply IH.
Qed.

Section published.
Context {W : Type} `{PublisherLaws W Detection}.

Lemma publish_all_sublist hasPub ds (w : W) :
  exists ds', ds' `sublist_of` ds /\
    on_subject "thump.detections" (publish_all hasPub ds w) = on_subject "thump.detections" w ++ ds'.
Proof.
  unfold publish_all. destruct hasPub; [| exists []; rewrite app_nil_r; split; [apply sublist_nil_l | done]].
  revert w. induction ds as [| d ds IH]; intros w; cbn [fold_left];
    [exists []; by rewrite app_nil_r |].
  destruct (publish "thump.detections" d w) as [w' r'] eqn:Hp. cbn [fst].
  destruct (IH w') as (ds' & Hs & ->).
  destruct (on_subject_any _ _ _ _ _ Hp) as [-> | ->].
  - exists ds'. split; [by constructor | done].
  - exists (d :: ds'). split; [by constructor | by rewrite <- app_assoc].
Qed.

Lemma runLoop_sublist hasPub r n deb e (w : W) :
  exists ds, ds `sublist_of` passes r n deb e /\
    on_subject "thump.detections" (runLoop hasPub r n deb e w).2 = on_subject "thump.detections" w ++ ds.
Proof.
  revert deb e w. induction n as [| n IH]; intros deb e w; cbn [runLoop passes];
    [exists []; by rewrite app_nil_r |].
  destruct (Reconcile r deb e) as [[e' deb'] [ds | err]]; [| apply IH].
  destruct (publish_all_sublist hasPub ds w) as (ds1 & Hs1 & Hp).
  destruct (IH deb' e' (publish_all hasPub ds w)) as (ds2 & Hs2 & ->).
  exists (ds1 ++ ds2). split; [by apply sublist_app |]. by rewrite Hp, app_assoc.
Qed.

(** C28. Over any number of ticks of the poll loop, whatever the sources answer, the
    clock reads, errors abort passes and publishes fail, two published detections
    of one fingerprint are at least the configured debounce interval apart. *)
Theorem detections_are_spaced (src : SLO -> E -> E * result (list Sample)) (slos : list SLO)
  topo traffic now (query : QueryConfig) (hasPub : bool) (n : nat) (e : E) (w : W) :
  0 <= QC_Debounce query <= int64_max -> on_subject "thump.detections" w = [] ->
  let '(r, deb) := newReconciler src slos topo traffic now query in
  Spaced (QC_Debounce query) (on_subject "thump.detections" (runLoop hasPub r n deb e w).2).
Proof.
  intros Hh Hw. unfold newReconciler. set (r := mkReconciler _ _ _ _ _ _ _ _ _ _).
  destruct (runLoop_sublist hasPub r n (Some (NewDebouncer (QC_Debounce query))) e w) as (ds & Hs & ->).
  rewrite Hw. cbn [app]. eapply Spaced_sublist; [exact Hs |]. by apply passes_spaced.
Qed.

End published.

End passes.

(** ** The sustained-burn detector *)

(** The sustained-burn detector fires exactly when the window is long enough,
    the sample count is not zero, and no rate among the trailing [MinSamples]
    falls below the threshold; on rates and a threshold that are numbers that is
    every trailing rate at or above it.  The level reported is the newest rate. *)
Theorem Sus_Detect_iff (d : SustainedBurnDetector) (older tail : list Sample) (newest : Sample) :
  length (tail ++ [newest]) = Sus_MinSamples d ->
  Forall (fun s => is_nan (Sample_BurnRate s) = false) (tail ++ [newest]) -> is_nan (Sus_Threshold d) = false ->
  ((Sus_Detect d (older ++ tail ++ [newest])).1 = true <->
   Forall (fun s => fle (Sus_Threshold d) (Sample_BurnRate s) = true) (tail ++ [newest])) /\
  ((Sus_Detect d (older ++ tail ++ [newest])).1 = true ->
   (Sus_Detect d (older ++ tail ++ [newest])).2 = Sample_BurnRate newest).
Proof.
  intros Hlen Hnum Hth. set (w := tail ++ [newest]) in *.
  assert (Hpos : Sus_MinSamples d <> 0%nat) by (unfold w in Hlen; rewrite length_app in Hlen; cbn in Hlen; lia).
  assert (Htail : skipn (length (older ++ w) - Sus_MinSamples d) (older ++ w) = w).
  { rewrite <- Hlen, length_app, Nat.add_sub. by rewrite skipn_app, skipn_all, Nat.sub_diag. }
  unfold Sus_Detect. rewrite (proj2 (Nat.ltb_ge _ _)) by (rewrite length_app; lia).
  rewrite (proj2 (Nat.eqb_neq _ _) Hpos). cbn [orb]. cbv zeta. rewrite Htail.
  assert (Hex : existsb (fun s => flt (Sample_BurnRate s) (Sus_Threshold d)) w = false <->
                Forall (fun s => fle (Sus_Threshold d) (Sample_BurnRate s) = true) w).
  { clear Hlen Htail Hpos. clearbody w. induction w as [| s w IH]; cbn; [by split |].
    apply list.Forall_cons in Hnum as [Hs Hw]. rewrite orb_false_iff, list.Forall_cons, IH by done.
    rewrite flt_false_iff, Hs, Hth. intuition congruence. }
  rewrite <- Hex. destruct (existsb _ w); cbn; [by split |].
  split; [by split |]. intros _. unfold w. by rewrite last_snoc.
Qed.

(** a rate that is not a number is not below any threshold, so it counts as
    sustained *)
Lemma NaN_window_sustains (d : SustainedBurnDetector) (w : list Sample) :
  length w = Sus_MinSamples d -> w <> [] -> Forall (fun s => Sample_BurnRate s = S754_nan) w ->
  Sus_Detect d w = (true, S754_nan).
Proof.
  intros Hlen Hne HF. unfold Sus_Detect. rewrite <- Hlen, Nat.ltb_irrefl, Nat.sub_diag.
  rewrite (proj2 (Nat.eqb_neq _ _)) by (by destruct w). cbn [orb]. cbv zeta. change (skipn 0 w) with w.
  replace (existsb _ w) with false.
  - destruct (list.last w) eqn:Hl; [| by apply last_None in Hl].
    apply last_Some_elem_of in Hl. rewrite list.Forall_forall in HF. apply HF in Hl. cbn in Hl. by rewrite Hl.
  - symmetry. apply not_true_is_false. rewrite existsb_exists. intros (s & Hin & Hlt).
    rewrite list.Forall_forall in HF. rewrite (HF s) in Hlt; [| by apply list_elem_of_In]. done.
Qed.

(** ** Concrete passes *)

Module demo.

Definition checkout : SLO := mkSLO "checkout-latency" "checkout" "tier-1" (flit 999 1000) "checkout-contract" [].
Definition cart : SLO := mkSLO "cart-latency" "cart" "tier-2" (flit 99 100) "cart-contract" [].

Definition burning : list Sample :=
  [mkSample 0 f1; mkSample 60 f2; mkSample 120 (of_int 4); mkSample 180 (of_int 8)].

(** the environment is the clock; [cart]'s source answers on even ticks only *)
Definition src (s : SLO) (e : Z) : Z * result (list Sample) :=
  if String.eqb (SLO_ID s) "checkout-latency" then (e + 1, inl burning)
  else (e + 1, if Z.even e then inl [] else inr (errors_New "timeout")).

Definition r : @Reconciler Z :=
  mkReconciler [checkout; cart] src (mkAccel fhalf) None None (Some (mkSustained f1 3))
    None None None (fun e => 180 + e * 10).

Definition alone : @Reconciler Z :=
  mkReconciler [checkout] src (mkAccel fhalf) None None (Some (mkSustained f1 3))
    (Some (mkSignalContract 1000 0 fhalf [])) None None (fun e => 180 + e * 10).

End demo.

(** a pass whose first SLO fires and whose second SLO's source fails reports
    nothing, and has still stamped the debouncer: the next pass suppresses the
    detection nobody saw.  (A detection whose publish fails is lost the same way.) *)
Lemma failed_pass_silences_detection :
  passes demo.r 2 (Some (NewDebouncer 1000)) 0 = [] /\
  map Detection_DetectorType (passes demo.r 1 (Some (NewDebouncer 1000)) 1) = ["burn_rate_acceleration"%string].
Proof. split; vm_compute; reflexivity. Qed.

Lemma Reconcile_backed_witness :
  exists e deb ds slos,
    Reconcile demo.alone (Some (NewDebouncer 1000)) 0 = (e, deb, inl ds) /\ length ds = 1%nat /\
    Forall2 (Backed demo.alone) slos ds.
Proof.
  destruct (Reconcile demo.alone (Some (NewDebouncer 1000)) 0) as [[e deb] [ds | err]] eqn:HR;
    [| vm_compute in HR; discriminate].
  destruct (Reconcile_backed _ _ _ _ _ _ HR) as (slos & _ & HF).
  exists e, deb, ds, slos. split; [reflexivity |]. split; [| exact HF].
  vm_compute in HR. injection HR as <- <- <-. reflexivity.
Defined.

Definition demo_query : QueryConfig := mkQueryConfig Minute (15 * Minute) Minute (30 * Second) 3 25 1000.

Lemma detections_are_spaced_witness :
  let '(r, deb) := newReconciler demo.src [demo.checkout] None None (fun e => 180 + e * 10) demo_query in
  let w := (runLoop true r 8 deb 0 (mkMemPub [] 1)).2 in
  length (on_subject "thump.detections" w) = 2%nat /\ Spaced 25 (on_subject "thump.detections" w).
Proof.
  split; [vm_compute; reflexivity |].
  apply (detections_are_spaced demo.src [demo.checkout] None None (fun e => 180 + e * 10) demo_query true 8 0
           (mkMemPub [] 1)); [vm_compute; split; congruence | reflexivity].
Defined.

Lemma Sus_Detect_iff_witness :
  (Sus_Detect (mkSustained f1 2) (demo.burning ++ [mkSample 240 f2] ++ [mkSample 300 f1])).1 = true.
Proof.
  apply (proj1 (Sus_Detect_iff (mkSustained f1 2) demo.burning [mkSample 240 f2] (mkSample 300 f1)
           eq_refl ltac:(repeat constructor) eq_refl)).
  repeat constructor.
Defined.
