(* ===== verification/Broker.v ===== *)
(** * internal/broker: subjects, the two doors, replays

    The stream's subjects and durable consumers (broker.go), the subscriber that
    settles every delivery through one of two doors (subscriber.go), and the
    replay of a subject's history (drain.go); with them the readiness surface
    (internal/health) that internal/beat's hooks drive and the exit code of a
    beat (internal/beat/consumer.go).

    The JetStream server is the interface [JetStream] with the laws
    [JetStreamLaws]: it shows the messages of one subject ([view]), what has been
    published elsewhere ([published]), and changes them as its documentation says.
    A call that fails may have taken effect.  A delivery and its handling are
    separate events, because the server may give a message up (its AckWait
    expires) and deliver it again while a handler still runs. *)

From S2P Require Import Prelude GoTime.
Local Open Scope Z_scope.

(** ** broker.go *)

Definition StreamName : string := "THUMP".
Definition maxDeliver : Z := 6.

Definition Subjects : list string :=
  ["thump.detections"; "thump.proposals"; "thump.decisions"; "thump.outcomes"; "thump.declines"; "thump.approvals"].

Definition DurableFor (subject : string) : string :=
  if subject =s "thump.detections" then "clank"
  else if subject =s "thump.proposals" then "hiss"
  else if subject =s "thump.decisions" then "thump"
  else if subject =s "thump.outcomes" then "click"
  else if subject =s "thump.declines" then "clank-declines"
  else if subject =s "thump.approvals" then "his-approvals"
  else "".

(** the fields of [jetstream.ConsumerConfig] and [StreamConfig] the code sets *)
Record ConsumerConfig : Type := mkConsumerConfig {
  Cons_Durable : string;
  Cons_FilterSubject : string;
  Cons_AckWait : Duration;
  Cons_MaxDeliver : Z
}.

Record StreamConfig : Type := mkStreamConfig {
  Str_Name : string;
  Str_Subjects : list string;
  Str_MaxAge : Duration
}.

Definition consumer_for (subj : string) : ConsumerConfig :=
  mkConsumerConfig (DurableFor subj) subj (30 * Second) maxDeliver.

Section topology.
Context {J : Type}.
Context (CreateOrUpdateStream : StreamConfig -> J -> J * option error)
        (CreateOrUpdateConsumer : string -> ConsumerConfig -> J -> J * option error).

Fixpoint ensure_consumers (subjs : list string) (j : J) : J * option error :=
  match subjs with
  | [] => (j, None)
  | subj :: rest =>
      match CreateOrUpdateConsumer StreamName (consumer_for subj) j with
      | (j', Some e) => (j', Some (errorf_w ("broker: ensure consumer " +:+ subj +:+ ": ") e))
      | (j', None) => ensure_consumers rest j'
      end
  end.

Definition EnsureTopology (j : J) : J * option error :=
  match CreateOrUpdateStream (mkStreamConfig StreamName ["thump.>"] (48 * Hour)) j with
  | (j', Some e) => (j', Some (errorf_w "broker: ensure stream: " e))
  | (j', None) => ensure_consumers Subjects j'
  end.

End topology.

(** ** subscriber.go *)

Definition defaultBackoff : list Duration := [Second; 5 * Second; 15 * Second].

(** [backoffFor]; [numDelivered] is the server's counter *)
Definition backoffFor (Backoff : list Duration) (numDelivered : Z) : Duration :=
  let schedule := match Backoff with [] => defaultBackoff | _ => Backoff end in
  let idx := Z.max (numDelivered - 1) 0 in
  let idx := if Z.of_nat (length schedule) <=? idx then Z.of_nat (length schedule) - 1 else idx in
  nth (Z.to_nat idx) schedule 0.

(** ** The server *)

Inductive mstate : Type := Waiting | InFlight | Acked | Termed.

Record MsgView : Type := mkMsgView { mv_data : string; mv_delivered : Z; mv_state : mstate }.

Definition set_state (s : mstate) (v : MsgView) : MsgView := mkMsgView (mv_data v) (mv_delivered v) s.

Definition settled (v : MsgView) : bool :=
  match mv_state v with Acked | Termed => true | _ => false end.

(** what each disposition does to a message *)
Definition on_ack (v : MsgView) : MsgView := if settled v then v else set_state Acked v.
Definition on_term (v : MsgView) : MsgView := if settled v then v else set_state Termed v.
Definition let_go (v : MsgView) : MsgView :=
  match mv_state v with InFlight => set_state Waiting v | _ => v end.

Definition deliverable (v : MsgView) : bool :=
  match mv_state v with Waiting => mv_delivered v <? maxDeliver | _ => false end.

Definition on_deliver (v : MsgView) : MsgView := mkMsgView (mv_data v) (mv_delivered v + 1) InFlight.

Class JetStream (J : Type) : Type := {
  js_Publish : string -> string -> J -> J * option error;
  msg_Ack : nat -> J -> J * option error;
  msg_NakWithDelay : nat -> Duration -> J -> J * option error;
  msg_TermWithReason : nat -> string -> J -> J * option error;
  (** the server hands message [i] to the consumer *)
  js_deliver : nat -> J -> J;
  (** the AckWait of message [i] runs out *)
  js_expire : nat -> J -> J;
  view : J -> gmap nat MsgView;
  published : J -> list (string * string)
}.

Section server.
Context {J : Type} `{JetStream J}.

(** [op i] did [f] to message [i], or failed, perhaps after doing it *)
Definition disposes (f : MsgView -> MsgView) (i : nat) (j j' : J) (r : option error) : Prop :=
  published j' = published j /\
  (view j' = alter f i (view j) \/ (is_Some r /\ view j' = view j)).

End server.

Class JetStreamLaws (J : Type) `{JetStream J} : Prop := {
  publish_view : forall subj data j j' r, js_Publish subj data j = (j', r) ->
    view j' = view j /\
    (published j' = published j ++ [(subj, data)] \/ (is_Some r /\ published j' = published j));
  ack_law : forall i j j' r, msg_Ack i j = (j', r) -> disposes on_ack i j j' r;
  nak_law : forall i d j j' r, msg_NakWithDelay i d j = (j', r) -> disposes let_go i j j' r;
  term_law : forall i s j j' r, msg_TermWithReason i s j = (j', r) -> disposes on_term i j j' r;
  deliver_law : forall i j,
    published (js_deliver i j) = published j /\
    view (js_deliver i j) = alter (fun v => if deliverable v then on_deliver v else v) i (view j);
  expire_law : forall i j,
    published (js_expire i j) = published j /\ view (js_expire i j) = alter let_go i (view j)
}.

(** ** The subscriber *)

Section subscriber.
Context {J W T : Type} `{JetStream J}.
Context (decode : string -> result T) (h : T -> W -> W * option error) (subject : string) (Backoff : list Duration).

(** how a delivery ended, as the code logs it; a dead-letter publish that failed
    is only logged *)
Inductive Door : Type :=
| Accepted
| Poison (dlqErr : option error)
| Exhausted (dlqErr : option error)
| Redelivering (delay : Duration).

(** the callback of [Run] on a delivery of message [i] with data [data];
    [md] is its [Metadata], if that could be read *)
Definition callback (i : nat) (data : string) (md : option Z) (w : W) (j : J) : W * J * Door :=
  match decode data with
  | inr e =>
      let '(j1, dlqErr) := js_Publish (subject +:+ ".dlq") data j in
      let '(j2, _) := msg_TermWithReason i "undecodable" j1 in
      (w, j2, Poison dlqErr)
  | inl obj =>
      match h obj w with
      | (w', Some e) =>
          let delivered := default 0 md in
          if match md with Some n => maxDeliver <=? n | None => false end then
            let '(j1, dlqErr) := js_Publish (subject +:+ ".dlq") data j in
            let '(j2, _) := msg_TermWithReason i "retry budget exhausted" j1 in
            (w', j2, Exhausted dlqErr)
          else
            let delay := backoffFor Backoff delivered in
            let '(j1, _) := msg_NakWithDelay i delay j in
            (w', j1, Redelivering delay)
      | (w', None) => let '(j1, _) := msg_Ack i j in (w', j1, Accepted)
      end
  end.

(** a delivery the consumer holds: the message, its data, its delivery count *)
Record Held : Type := mkHeld { held_msg : nat; held_data : string; held_count : Z }.

Record Sub : Type := mkSub {
  sub_w : W;
  sub_j : J;
  sub_held : list Held;
  sub_log : list (Held * Door)
}.

Inductive event : Type :=
| EvDeliver (i : nat)
| EvHandle (k : nat) (md_ok : bool)  (* the k-th held delivery is handled; its metadata is readable or not *)
| EvExpire (i : nat)
| EvCrash.

Definition sub_step (s : Sub) (ev : event) : Sub :=
  match ev with
  | EvDeliver i =>
      match view (sub_j s) !! i with
      | Some v =>
          if deliverable v
          then mkSub (sub_w s) (js_deliver i (sub_j s))
                 (sub_held s ++ [mkHeld i (mv_data v) (mv_delivered v + 1)]) (sub_log s)
          else s
      | None => s
      end
  | EvHandle k md_ok =>
      match sub_held s !! k with
      | Some d =>
          let md := if md_ok then Some (held_count d) else None in
          let '(w', j', door) := callback (held_msg d) (held_data d) md (sub_w s) (sub_j s) in
          mkSub w' j' (delete k (sub_held s)) (sub_log s ++ [(d, door)])
      | None => s
      end
  | EvExpire i => mkSub (sub_w s) (js_expire i (sub_j s)) (sub_held s) (sub_log s)
  | EvCrash => mkSub (sub_w s) (sub_j s) [] (sub_log s)
  end.

Definition sub_run (s : Sub) (evs : list event) : Sub := fold_left sub_step evs s.

(** a stream whose messages nobody has seen yet *)
Definition fresh (s : Sub) : Prop :=
  sub_held s = [] /\ sub_log s = [] /\ published (sub_j s) = [] /\
  forall i v, view (sub_j s) !! i = Some v -> mv_delivered v = 0 /\ mv_state v = Waiting.

End subscriber.

(** ** drain.go *)

Section drain.
Context {T : Type}.
Context (decode : string -> result T).

(** [wire.Unmarshal] and [msg.Metadata] on one message: its timestamp, unless
    the metadata cannot be read, and its data *)
Definition drain_message (m : option Time * string) : list (Time * T) :=
  match decode m.2, m.1 with
  | inl v, Some at_ => [(at_, v)]
  | _, _ => []
  end.

(** how one [FetchNoWait(256)] ends: a batch of the next messages, no batch, or
    a batch that breaks off after [k] messages *)
Inductive Fetch : Type :=
| Fetched
| FetchFailed (e : error)
| BatchFailed (k : nat) (e : error).

(** [DrainSubject]: what [fold] is called with, in order, and the error.  [fetch]
    gives the outcomes of the successive fetches, success where it ends; [fuel]
    bounds the batches. *)
Fixpoint drain_loop (fuel : nat) (prefix : string) (msgs : list (option Time * string)) (fetch : list Fetch)
  : list (Time * T) * option error :=
  match fuel with
  | O => ([], None)
  | S fuel' =>
      match head fetch with
      | Some (FetchFailed e) => ([], Some (errorf_w (prefix +:+ ": fetch: ") e))
      | Some (BatchFailed k e) =>
          (flat_map drain_message (take (Nat.min k 256) msgs), Some (errorf_w (prefix +:+ ": batch: ") e))
      | _ =>
          let got := flat_map drain_message (take 256 msgs) in
          match got with
          | [] => ([], None) (* n == 0: caught up *)
          | _ => let '(rest, err) := drain_loop fuel' prefix (drop 256 msgs) (tail fetch) in (got ++ rest, err)
          end
      end
  end.

Definition DrainSubject (prefix : string) (msgs : list (option Time * string)) (fetch : list Fetch)
  : list (Time * T) * option error :=
  drain_loop (S (length msgs)) prefix msgs fetch.

End drain.

(** ** internal/health and the hooks of internal/beat *)

Record Health : Type := mkHealth { hl_ready : bool; hl_reason : option string }.

Definition SetReady (h : Health) (ready : bool) : Health :=
  mkHealth ready (if ready then None else hl_reason h).

Definition NotReady (h : Health) (reason : string) : Health := mkHealth false (Some reason).

(** status code and body *)
Definition Readyz (h : Health) : Z * string :=
  if negb (hl_ready h) then (503, default "" (hl_reason h)) else (200, "").

Definition Livez (h : Health) : Z := 200.

Inductive conn_event : Type := Disconnected (e : error) | Reconnected | ConnClosed.

(** [BrokerHooks]: the state is the readiness surface and whether the run was
    cancelled by [onClosed] *)
Definition BrokerHooks (ev : conn_event) (s : Health * bool) : Health * bool :=
  match ev with
  | Disconnected _ => (NotReady s.1 "broker unreachable", s.2)
  | Reconnected => (SetReady s.1 true, s.2)
  | ConnClosed => (NotReady s.1 "broker connection closed", true)
  end.

(** [AwaitConsumers]; [lookup] finds a durable consumer by name *)
Fixpoint AwaitConsumers (lookup : string -> option error) (h : Health) (subjects : list string) : Health * option error :=
  match subjects with
  | [] => (SetReady h true, None)
  | subj :: rest =>
      match lookup (DurableFor subj) with
      | Some e => (h, Some (errorf_w ("beat: bind consumer " +:+ subj +:+ ": ") e))
      | None => AwaitConsumers lookup h rest
      end
  end.

Definition ErrBrokerClosed : error := errors_New "broker connection closed".

(** [ExitOnError]: [cause] is [context.Cause(ctx)], [ctxErr] is [ctx.Err()] *)
Definition ExitOnError (cause ctxErr err : option error) : Z :=
  if match cause with Some c => errors_Is c ErrBrokerClosed | None => false end then 1
  else match err, ctxErr with
       | Some _, None => 1
       | _, _ => 0
       end.

(** ** Lemmas: the subscriber *)

Section subscriber_lemmas.
Context {J W T : Type} `{JetStreamLaws J}.
Context (decode : string -> result T) (h : T -> W -> W * option error) (subject : string) (Backoff : list Duration).

Abbreviation callback' := (callback decode h subject Backoff).
Abbreviation step' := (sub_step decode h subject Backoff).
Abbreviation run' := (sub_run decode h subject Backoff).

(** what is true of the world and the object when a delivery of [data], counted
    [n], ends with [door] *)
Definition door_ok (data : string) (n : Z) (door : Door) : Prop :=
  match door with
  | Accepted => exists obj w w', decode data = inl obj /\ h obj w = (w', None)
  | Poison _ => exists e, decode data = inr e
  | Exhausted _ => maxDeliver <= n /\ exists obj w w' e, decode data = inl obj /\ h obj w = (w', Some e)
  | Redelivering _ => exists obj w w' e, decode data = inl obj /\ h obj w = (w', Some e)
  end.

(** what a door does to its message *)
Definition door_effect (door : Door) : MsgView -> MsgView :=
  match door with
  | Accepted => on_ack
  | Poison _ | Exhausted _ => on_term
  | Redelivering _ => let_go
  end.

Definition dlq_of (data : string) (door : Door) (pub pub' : list (string * string)) : Prop :=
  match door with
  | Poison e | Exhausted e =>
      pub' = pub ++ [(subject +:+ ".dlq", data)] \/ (is_Some e /\ pub' = pub)
  | _ => pub' = pub
  end.

Lemma disposes_view f i (j j' : J) r : disposes f i j j' r ->
  published j' = published j /\ (view j' = alter f i (view j) \/ view j' = view j).
Proof. intros [Hp [Hv | [_ Hv]]]; auto. Qed.

Lemma callback_spec i data (n : Z) (md_ok : bool) w j w' j' door :
  callback' i data (if md_ok then Some n else None) w j = (w', j', door) ->
  door_ok data n door /\ dlq_of data door (published j) (published j') /\
  (view j' = alter (door_effect door) i (view j) \/ view j' = view j).
Proof.
  unfold callback. intros Hc. destruct (decode data) as [obj | e] eqn:Ed.
  - destruct (h obj w) as [w1 [e |]] eqn:Eh.
    + set (ex := match (if md_ok then Some n else None) with Some n => maxDeliver <=? n | None => false end) in Hc.
      destruct ex eqn:Ex.
      * destruct (js_Publish _ data j) as [j1 dlqErr] eqn:Ep. destruct (msg_TermWithReason i _ j1) as [j2 r] eqn:Et.
        simplify_eq. apply publish_view in Ep as [Hv1 Hp1]. apply term_law, disposes_view in Et as [Hp2 Hv2].
        rewrite Hp2, <- Hv1. split; [| split; [exact Hp1 | exact Hv2]]. split; [| by eauto 10].
        destruct md_ok; [by apply Z.leb_le in Ex | done].
      * destruct (msg_NakWithDelay i _ j) as [j1 r] eqn:En. simplify_eq. apply nak_law, disposes_view in En as [Hp Hv].
        split; [cbn; eauto 10 | by split].
    + destruct (msg_Ack i j) as [j1 r] eqn:Ea. simplify_eq. apply ack_law, disposes_view in Ea as [Hp Hv].
      split; [cbn; eauto 10 | by split].
  - destruct (js_Publish _ data j) as [j1 dlqErr] eqn:Ep. destruct (msg_TermWithReason i _ j1) as [j2 r] eqn:Et.
    simplify_eq. apply publish_view in Ep as [Hv1 Hp1]. apply term_law, disposes_view in Et as [Hp2 Hv2].
    rewrite Hp2, <- Hv1. split; [cbn; eauto | by split].
Qed.

(** how many entries concern message [i] *)
Definition count_of (i : nat) (l : list Held) : nat := length (List.filter (fun d => Nat.eqb (held_msg d) i) l).

Lemma count_of_app i l l' : count_of i (l ++ l') = (count_of i l + count_of i l')%nat.
Proof. unfold count_of. by rewrite List.filter_app, length_app. Qed.

Lemma count_of_delete i l k d : l !! k = Some d -> count_of i l = (count_of i (delete k l) + count_of i [d])%nat.
Proof.
  intros Hl. rewrite <- (take_drop_middle l k d Hl) at 1. rewrite delete_take_drop.
  rewrite !count_of_app. change (d :: drop (S k) l) with ([d] ++ drop (S k) l). rewrite count_of_app. lia.
Qed.

(** the message a held delivery belongs to, as the server has it *)
Definition held_ok (j : J) (d : Held) : Prop :=
  exists v, view j !! held_msg d = Some v /\ mv_data v = held_data d /\ held_count d <= mv_delivered v.

(** why message [i] is in its state *)
Definition accounted (log : list (Held * Door)) (pub : list (string * string)) (i : nat) (v : MsgView) : Prop :=
  match mv_state v with
  | Acked => exists d, (d, Accepted) ∈ log /\ held_msg d = i /\ held_data d = mv_data v
  | Termed => exists d door, (d, door) ∈ log /\ held_msg d = i /\ held_data d = mv_data v /\
      match door with
      | Poison e | Exhausted e => e = None -> (subject +:+ ".dlq", mv_data v) ∈ pub
      | _ => False
      end
  | _ => True
  end.

(** the deliveries that were dead-lettered, and those whose publish succeeded *)
Definition dead_lettered (log : list (Held * Door)) : list Held :=
  omap (fun p => match p.2 with Poison _ | Exhausted _ => Some p.1 | _ => None end) log.
Definition surely_dead_lettered (log : list (Held * Door)) : list Held :=
  omap (fun p => match p.2 with Poison None | Exhausted None => Some p.1 | _ => None end) log.

(** what is published is the data of dead-lettered deliveries, once each and in order, and no
    delivery is missing whose publish succeeded *)
Definition only_dead_letters (log : list (Held * Door)) (pub : list (string * string)) : Prop :=
  exists ds, pub = map (fun d => (subject +:+ ".dlq", held_data d)) ds /\
    ds `sublist_of` dead_lettered log /\ surely_dead_lettered log `sublist_of` ds.

Lemma only_dead_letters_snoc log pub pub' d door :
  only_dead_letters log pub -> dlq_of (held_data d) door pub pub' -> only_dead_letters (log ++ [(d, door)]) pub'.
Proof.
  intros (ds & -> & Hall & Hsure) Hq.
  assert (forall last, surely_dead_lettered [(d, door)] `sublist_of` last -> last `sublist_of` dead_lettered [(d, door)] ->
    pub' = map (fun d => (subject +:+ ".dlq", held_data d)) (ds ++ last) -> only_dead_letters (log ++ [(d, door)]) pub') as Hgo.
  { intros last Hs Hd ->. exists (ds ++ last). unfold dead_lettered, surely_dead_lettered in *. rewrite !omap_app.
    split; [done |]. split; by apply sublist_app. }
  destruct door as [| e | e | del]; cbn in Hq.
  1, 4: by apply (Hgo []); rewrite ?app_nil_r.
  all: destruct Hq as [Hq | [[x ->] Hq]]; [apply (Hgo [d]) | apply (Hgo [])]; rewrite ?map_app, ?app_nil_r; try done;
    try apply sublist_nil_l; by destruct e; try apply sublist_nil_l.
Qed.

Record sub_inv (s : Sub (J := J) (W := W)) : Prop := {
  inv_held : Forall (held_ok (sub_j s)) (sub_held s);
  inv_log : Forall (fun p => door_ok (held_data p.1) (held_count p.1) p.2) (sub_log s);
  inv_views : forall i v, view (sub_j s) !! i = Some v ->
    mv_delivered v <= maxDeliver /\
    Z.of_nat (count_of i (sub_held s) + count_of i (map fst (sub_log s))) <= mv_delivered v /\
    accounted (sub_log s) (published (sub_j s)) i v;
  inv_published : only_dead_letters (sub_log s) (published (sub_j s))
}.

Lemma accounted_mono log log' pub pub' i v :
  accounted log pub i v -> (forall x, x ∈ log -> x ∈ log') -> (forall x, x ∈ pub -> x ∈ pub') -> accounted log' pub' i v.
Proof.
  intros Ha Hl Hp. unfold accounted in *. destruct (mv_state v); [done | done | naive_solver |].
  destruct Ha as (d & door & Hin & Hi & Hd & Hdoor). exists d, door. repeat split; [by apply Hl | done | done |].
  destruct door; naive_solver.
Qed.

(** a server step that moves one message between unsettled states *)
Lemma held_ok_alter j j' f i d :
  (forall v, mv_data (f v) = mv_data v /\ mv_delivered v <= mv_delivered (f v)) ->
  view j' = alter f i (view j) \/ view j' = view j -> held_ok j d -> held_ok j' d.
Proof.
  intros Hf [Hv | Hv] (v & Hl & Hd & Hn); unfold held_ok; rewrite Hv; [| by eauto].
  destruct (decide (i = held_msg d)) as [-> | Hne].
  - rewrite lookup_alter_eq, Hl. cbn. exists (f v). destruct (Hf v) as [-> ?]. repeat split; [done | lia].
  - rewrite lookup_alter_ne by done. eauto.
Qed.

Lemma door_effect_keeps door v : mv_data (door_effect door v) = mv_data v /\ mv_delivered (door_effect door v) = mv_delivered v.
Proof.
  destruct door; cbn; unfold on_ack, on_term, let_go, set_state; repeat case_match; done.
Qed.

(** the invariant for one message after a step that changed it as [f] did *)
Lemma views_alter (j j' : J) f i (Q Q' : nat -> MsgView -> Prop) :
  (view j' = alter f i (view j) \/ view j' = view j) ->
  (forall i' v, view j !! i' = Some v -> Q i' v) ->
  (forall i' v, Q i' v -> Q' i' v) -> (forall v, Q i v -> Q' i (f v)) ->
  forall i' v, view j' !! i' = Some v -> Q' i' v.
Proof.
  intros [Hv | Hv] HQ Hsame Hf i' v; rewrite Hv; [| eauto].
  destruct (decide (i = i')) as [<- | Hne].
  - rewrite lookup_alter_eq. destruct (view j !! i) as [v0 |] eqn:El; [| done]. intros [= <-]. eauto.
  - rewrite lookup_alter_ne by done. eauto.
Qed.

Lemma step_deliver s i : sub_inv s -> sub_inv (step' s (EvDeliver i)).
Proof.
  intros [Hh Hl Hv Hp]. cbn. destruct (view (sub_j s) !! i) as [v |] eqn:Ei; [| done].
  destruct (deliverable v) eqn:Ed; [| done]. destruct (deliver_law i (sub_j s)) as [Hpub Hview].
  set (f := fun v => if deliverable v then on_deliver v else v) in *.
  assert (forall v, mv_data (f v) = mv_data v /\ mv_delivered v <= mv_delivered (f v)) as Hf
    by (intros v0; unfold f; destruct (deliverable v0); cbn; split; [done | lia | done | lia]).
  split; cbn [sub_held sub_j sub_log].
  - apply Forall_app. split.
    + eapply Forall_impl; [| exact Hh]. intros d Hd. eapply held_ok_alter; [exact Hf | left; exact Hview | exact Hd].
    + constructor; [| constructor]. exists (on_deliver v). cbn. rewrite Hview, lookup_alter_eq, Ei. cbn. unfold f.
      rewrite Ed. split; [done |]. split; [done | lia].
  - done.
  - rewrite Hpub. intros i' v' Hl'. rewrite Hview in Hl'. rewrite count_of_app. unfold count_of at 2. cbn [List.filter held_msg].
    destruct (decide (i = i')) as [<- | Hne].
    + rewrite lookup_alter_eq, Ei in Hl'. injection Hl' as <-. unfold f. rewrite Ed. cbn [mv_delivered on_deliver].
      rewrite Nat.eqb_refl. destruct (Hv i v Ei) as (H1 & H2 & _). cbn [length].
      unfold deliverable in Ed. destruct (mv_state v) eqn:Es; try done. apply Z.ltb_lt in Ed.
      split; [lia |]. split; [lia |]. done.
    + rewrite lookup_alter_ne in Hl' by done. rewrite (proj2 (Nat.eqb_neq i i') Hne). cbn [length]. rewrite Nat.add_0_r.
      by apply Hv.
  - by rewrite Hpub.
Qed.

Lemma step_expire s i : sub_inv s -> sub_inv (step' s (EvExpire i)).
Proof.
  intros [Hh Hl Hv Hp]. cbn. destruct (expire_law i (sub_j s)) as [Hpub Hview]. split; cbn [sub_held sub_j sub_log].
  - eapply Forall_impl; [| exact Hh]. intros d Hd. eapply held_ok_alter; [| left; exact Hview | exact Hd].
    intros v. destruct (door_effect_keeps (Redelivering 0) v) as [H1 H2]. cbn in *. split; [exact H1 | lia].
  - done.
  - rewrite Hpub. eapply views_alter; [left; exact Hview | exact Hv | done |]. intros v (H1 & H2 & H3).
    destruct (door_effect_keeps (Redelivering 0) v) as [E1 E2]. cbn in E1, E2. rewrite E2. split; [done |]. split; [done |].
    unfold accounted, let_go in *. destruct (mv_state v) eqn:Es; cbn; rewrite ?Es; done.
  - by rewrite Hpub.
Qed.

Lemma step_crash s : sub_inv s -> sub_inv (step' s EvCrash).
Proof.
  intros [Hh Hl Hv Hp]. split; cbn [sub_step sub_held sub_j sub_log]; [constructor | done | | done].
  intros i v Hi. destruct (Hv i v Hi) as (H1 & H2 & H3). split; [done |].
  split; [change (count_of i []) with 0%nat; lia | done].
Qed.

Lemma dlq_of_sub data door pub pub' x : dlq_of data door pub pub' -> x ∈ pub -> x ∈ pub'.
Proof. intros Hd Hx. destruct door; cbn in Hd; rewrite ?Hd; try done; destruct Hd as [-> | [_ ->]]; try done; apply elem_of_app; by left. Qed.

(** the account of message [i] after its delivery [d] ended with [door] *)
Lemma accounted_effect log pub pub' i v d door :
  accounted log pub i v -> held_msg d = i -> held_data d = mv_data v -> dlq_of (mv_data v) door pub pub' ->
  accounted (log ++ [(d, door)]) pub' i (door_effect door v).
Proof.
  intros Ha Hi Hd Hq.
  assert (accounted (log ++ [(d, door)]) pub' i v) as Hsame.
  { eapply accounted_mono; [exact Ha | intros x Hx; apply elem_of_app; by left | intros x; by eapply dlq_of_sub]. }
  assert ((d, door) ∈ log ++ [(d, door)]) as Hin by (apply elem_of_app; right; by left).
  destruct (settled v) eqn:Es.
  { assert (door_effect door v = v) as ->; [| done].
    unfold settled in Es. destruct door; cbn; unfold on_ack, on_term, let_go, settled; destruct (mv_state v) eqn:E; done. }
  destruct door as [| e | e | del]; cbn [door_effect].
  - unfold on_ack. rewrite Es. unfold accounted. cbn. exists d. by repeat split.
  - unfold on_term. rewrite Es. unfold accounted. cbn. exists d, (Poison e). repeat split; try done. intros ->.
    destruct Hq as [-> | [[? ?] _]]; [apply elem_of_app; right; by left | done].
  - unfold on_term. rewrite Es. unfold accounted. cbn. exists d, (Exhausted e). repeat split; try done. intros ->.
    destruct Hq as [-> | [[? ?] _]]; [apply elem_of_app; right; by left | done].
  - unfold let_go. destruct (mv_state v) eqn:E; [done | done | |]; by unfold settled in Es; rewrite E in Es.
Qed.

Lemma step_handle s k md_ok : sub_inv s -> sub_inv (step' s (EvHandle k md_ok)).
Proof.
  intros [Hh Hl Hv Hp]. cbn. destruct (sub_held s !! k) as [d |] eqn:Ek; [| by split].
  destruct (callback' _ _ _ _ _) as [[w' j'] door] eqn:Ec. apply callback_spec in Ec as (Hdoor & Hq & Hview).
  assert (held_ok (sub_j s) d) as (v0 & Hl0 & Hd0 & Hn0)
    by (rewrite list.Forall_forall in Hh; apply Hh; by eapply list_elem_of_lookup_2).
  split; cbn [sub_held sub_j sub_log].
  - apply list.Forall_forall. intros d' Hd'%elem_of_delete_nth. rewrite list.Forall_forall in Hh.
    eapply held_ok_alter; [| exact Hview | by apply Hh]. intros v. destruct (door_effect_keeps door v) as [-> ->]. split; [done | lia].
  - apply Forall_app. split; [done |]. by constructor.
  - rewrite map_app. cbn [map fst]. pose proof (fun i => count_of_delete i _ _ _ Ek) as Hcount.
    eapply (views_alter _ _ _ _ (fun i v => mv_delivered v <= maxDeliver /\
      Z.of_nat (count_of i (sub_held s) + count_of i (map fst (sub_log s))) <= mv_delivered v /\
      accounted (sub_log s) (published (sub_j s)) i v /\ (i = held_msg d -> mv_data v = held_data d))).
    + exact Hview.
    + intros i v Hi. destruct (Hv i v Hi) as (H1 & H2 & H3). repeat split; try done. intros ->. congruence.
    + intros i v (H1 & H2 & H3 & _). split; [done |]. split.
      * rewrite count_of_app. specialize (Hcount i). lia.
      * eapply accounted_mono; [exact H3 | intros x Hx; apply elem_of_app; by left | intros x; by eapply dlq_of_sub].
    + intros v (H1 & H2 & H3 & H4). destruct (door_effect_keeps door v) as [_ ->]. split; [done |]. split.
      * rewrite count_of_app. specialize (Hcount (held_msg d)). lia.
      * eapply accounted_effect; try done; [by rewrite H4 |]. by rewrite H4.
  - by eapply only_dead_letters_snoc.
Qed.

Lemma step_inv s ev : sub_inv s -> sub_inv (step' s ev).
Proof. destruct ev; [apply step_deliver | apply step_handle | apply step_expire | apply step_crash]. Qed.

Lemma sub_run_inv s evs : sub_inv s -> sub_inv (run' s evs).
Proof. revert s. induction evs as [| ev evs IH]; intros s Hs; [done |]. cbn. apply IH. by apply step_inv. Qed.

Lemma fresh_inv s : fresh s -> sub_inv s.
Proof.
  intros (Hh & Hl & Hp & Hv). split; rewrite ?Hh, ?Hl, ?Hp; [constructor | constructor | | by exists []].
  intros i v Hi. destruct (Hv i v Hi) as [H1 H2]. rewrite H1. split; [done |]. split; [done |]. unfold accounted. by rewrite H2.
Qed.

End subscriber_lemmas.

(** ** Lemmas: replays *)

Section drain_lemmas.
Context {T : Type}.
Context (decode : string -> result T).

(** every batch holds a message that decodes *)
Definition no_poison_batch (msgs : list (option Time * string)) : Prop :=
  forall k, drop (256 * k) msgs <> [] -> flat_map (drain_message decode) (take 256 (drop (256 * k) msgs)) <> [].

Lemma no_poison_batch_drop msgs : no_poison_batch msgs -> no_poison_batch (drop 256 msgs).
Proof.
  intros Hm k. specialize (Hm (S k)). rewrite drop_drop. by replace (256 + 256 * k)%nat with (256 * S k)%nat by lia.
Qed.

Lemma drain_loop_all fuel prefix msgs :
  (length msgs < fuel)%nat -> no_poison_batch msgs ->
  drain_loop decode fuel prefix msgs [] = (flat_map (drain_message decode) msgs, None).
Proof.
  revert msgs. induction fuel as [| fuel IH]; intros msgs Hf Hm; [lia |]. cbn [drain_loop head].
  destruct (decide (msgs = [])) as [-> | Hne]; [done |].
  destruct (flat_map (drain_message decode) (take 256 msgs)) as [| x l] eqn:Eg.
  { exfalso. apply (Hm 0%nat); [by rewrite Nat.mul_0_r, drop_0 | by rewrite Nat.mul_0_r, drop_0]. }
  change (tail (@nil Fetch)) with (@nil Fetch). rewrite IH; [| | by apply no_poison_batch_drop].
  - rewrite <- Eg, <- flat_map_app, take_drop. done.
  - rewrite length_drop. destruct msgs; [done |]. cbn [length] in *. lia.
Qed.

(** whatever the fetches do, what is folded is a prefix of the history *)
Lemma drain_loop_prefix fuel prefix msgs fetch :
  exists n, (drain_loop decode fuel prefix msgs fetch).1 = flat_map (drain_message decode) (take n msgs).
Proof.
  revert msgs fetch. induction fuel as [| fuel IH]; intros msgs fetch; [by exists 0%nat |].
  assert (exists n, (let got := flat_map (drain_message decode) (take 256 msgs) in
    match got with
    | [] => ([], None)
    | _ => let '(rest, err) := drain_loop decode fuel prefix (drop 256 msgs) (tail fetch) in (got ++ rest, err)
    end).1 = flat_map (drain_message decode) (take n msgs)) as Hgo.
  { cbv zeta. destruct (IH (drop 256 msgs) (tail fetch)) as [n Hn].
    destruct (flat_map (drain_message decode) (take 256 msgs)) as [| x l] eqn:Eg; [by exists 0%nat |].
    destruct (drain_loop decode fuel prefix (drop 256 msgs) (tail fetch)) as [rest err]. cbn [fst] in *. subst rest.
    exists (256 + n)%nat. rewrite <- Eg, <- flat_map_app. f_equal. by rewrite take_take_drop. }
  cbn [drain_loop]. destruct (head fetch) as [[| e | k e] |]; [exact Hgo | by exists 0%nat | | exact Hgo].
  exists (Nat.min k 256). done.
Qed.

End drain_lemmas.

(** ** An in-memory server: if [faulty], its calls fail as [mj_faults] says *)

Record MemJS (faulty : bool) : Type := mkMemJS {
  mj_view : gmap nat MsgView;
  mj_published : list (string * string);
  mj_faults : list bool
}.
Arguments mkMemJS {faulty}.
Arguments mj_view {faulty}.
Arguments mj_published {faulty}.
Arguments mj_faults {faulty}.

Definition ErrTimeout : error := errors_New "nats: timeout".

Definition mj_call {faulty} (ok : MemJS faulty -> MemJS faulty) (j : MemJS faulty) : MemJS faulty * option error :=
  let j1 := mkMemJS (mj_view j) (mj_published j) (tail (mj_faults j)) in
  if faulty && default false (head (mj_faults j)) then (j1, Some ErrTimeout) else (ok j1, None).

Definition mj_alter {faulty} (f : MsgView -> MsgView) (i : nat) (j : MemJS faulty) : MemJS faulty :=
  mkMemJS (alter f i (mj_view j)) (mj_published j) (mj_faults j).

#[export] Instance MemJS_JetStream faulty : JetStream (MemJS faulty) := {|
  js_Publish subj data :=
    mj_call (fun j => mkMemJS (mj_view j) (mj_published j ++ [(subj, data)]) (mj_faults j));
  msg_Ack i := mj_call (mj_alter on_ack i);
  msg_NakWithDelay i d := mj_call (mj_alter let_go i);
  msg_TermWithReason i s := mj_call (mj_alter on_term i);
  js_deliver i := mj_alter (fun v => if deliverable v then on_deliver v else v) i;
  js_expire i := mj_alter let_go i;
  view := mj_view (faulty := faulty);
  published := mj_published (faulty := faulty)
|}.

Lemma mj_call_disposes {faulty} f i (j j' : MemJS faulty) r : mj_call (mj_alter f i) j = (j', r) -> disposes f i j j' r.
Proof.
  unfold mj_call, disposes. destruct (_ && _); intros [= <- <-]; cbn; (split; [done |]); [right | left]; [by split | done].
Qed.

#[export] Instance MemJS_JetStreamLaws faulty : JetStreamLaws (MemJS faulty).
Proof.
  split; try (intros; by eapply mj_call_disposes); try done.
  intros subj data j j' r. cbn. unfold mj_call. destruct (_ && _); intros [= <- <-]; cbn; (split; [done |]); [right | left];
    [by split | done].
Qed.

(** ** Claims *)

Section claims.
Context {J W T : Type} `{JetStreamLaws J}.
Context (decode : string -> result T) (h : T -> W -> W * option error) (subject : string) (Backoff : list Duration).
Abbreviation run' := (sub_run decode h subject Backoff).


(** one undisturbed attempt at message [i]: it is delivered and handled *)
Definition attempt (i : nat) (s : Sub (J := J) (W := W)) : Sub :=
  run' s [EvDeliver i; EvHandle (length (sub_held s)) true].

Lemma attempt_settled i s v : view (sub_j s) !! i = Some v -> deliverable v = false -> attempt i s = s.
Proof.
  intros Hv Hs. unfold attempt. cbn [sub_run fold_left sub_step]. rewrite Hv, Hs.
  by rewrite (proj2 (lookup_ge_None _ _) (le_n (length (sub_held s)))).
Qed.

(** the calls to the server succeed *)
Definition reliable : Prop :=
  (forall subj data (j : J), (js_Publish subj data j).2 = None) /\ (forall i (j : J), (msg_Ack i j).2 = None) /\
  (forall i d (j : J), (msg_NakWithDelay i d j).2 = None) /\ (forall i r (j : J), (msg_TermWithReason i r j).2 = None).

Lemma disposes_reliable f i (j j' : J) r : disposes f i j j' r -> r = None ->
  published j' = published j /\ view j' = alter f i (view j).
Proof. intros [Hp [Hv | [[? ->] _]]] E; [by split | done]. Qed.

(** a callback on message [i], in flight and counted [n], of a reliable server *)
Lemma callback_reliable i (v : MsgView) (n : Z) w (j : J) w' j' door :
  reliable -> view j !! i = Some v -> mv_state v = InFlight -> n = mv_delivered v ->
  callback decode h subject Backoff i (mv_data v) (Some n) w j = (w', j', door) ->
  exists v', view j' !! i = Some v' /\ mv_data v' = mv_data v /\
    (mv_state v' = Acked \/
     (mv_state v' = Termed /\ (subject +:+ ".dlq", mv_data v) ∈ published j') \/
     (mv_state v' = Waiting /\ mv_delivered v' = mv_delivered v /\ mv_delivered v < maxDeliver)).
Proof.
  intros (HP & HA & HN & HT) Hv Hs -> Hc. unfold callback in Hc.
  assert (settled v = false) as Hset by (unfold settled; by rewrite Hs).
  assert (forall subj data j1 r1 reason j2 r2,
    js_Publish subj data j = (j1, r1) -> msg_TermWithReason i reason j1 = (j2, r2) ->
    view j2 !! i = Some (set_state Termed v) /\ (subj, data) ∈ published j2) as Hterm.
  { intros subj data j1 r1 reason j2 r2 Ep Et.
    pose proof (HP subj data j) as R1. rewrite Ep in R1. pose proof (HT i reason j1) as R2. rewrite Et in R2. cbn in R1, R2. subst.
    apply publish_view in Ep as [Hv1 [Hp1 | [[? ?] _]]]; [| done]. apply term_law in Et.
    destruct (disposes_reliable _ _ _ _ _ Et eq_refl) as [-> ->]. rewrite Hv1, lookup_alter_eq, Hv, Hp1. cbn.
    unfold on_term. rewrite Hset. cbn. split; [done |]. apply elem_of_app. right. by left. }
  destruct (decode (mv_data v)) as [obj | e]; [destruct (h obj w) as [w1 [e |]] |].
  - destruct (maxDeliver <=? mv_delivered v) eqn:Ex; cbn in Hc.
    + destruct (js_Publish _ _ j) as [j1 r1] eqn:Ep. destruct (msg_TermWithReason i _ j1) as [j2 r2] eqn:Et. simplify_eq.
      destruct (Hterm _ _ _ _ _ _ _ Ep Et) as [-> Hin]. eexists. split; [done |]. split; [done |]. right. left. by split.
    + destruct (msg_NakWithDelay i _ j) as [j1 r1] eqn:En. simplify_eq.
      match type of En with msg_NakWithDelay _ ?d _ = _ => pose proof (HN i d j) as R end. rewrite En in R. cbn in R.
      apply nak_law in En. destruct (disposes_reliable _ _ _ _ _ En R) as [_ Hvj].
      exists (let_go v). rewrite Hvj, lookup_alter_eq, Hv. cbn. unfold let_go. rewrite Hs.
      apply Z.leb_gt in Ex. cbn. auto 10.
  - destruct (msg_Ack i j) as [j1 r1] eqn:Ea. simplify_eq. pose proof (HA i j) as R. rewrite Ea in R. cbn in R. apply ack_law in Ea.
    destruct (disposes_reliable _ _ _ _ _ Ea R) as [_ Hvj]. exists (on_ack v). rewrite Hvj, lookup_alter_eq, Hv.
    cbn. unfold on_ack. rewrite Hset. cbn. auto.
  - destruct (js_Publish _ _ j) as [j1 r1] eqn:Ep. destruct (msg_TermWithReason i _ j1) as [j2 r2] eqn:Et. simplify_eq.
    destruct (Hterm _ _ _ _ _ _ _ Ep Et) as [-> Hin]. eexists. split; [done |]. split; [done |]. right. left. by split.
Qed.

Lemma attempt_step i s v :
  reliable -> view (sub_j s) !! i = Some v -> mv_state v = Waiting -> mv_delivered v < maxDeliver ->
  exists v', view (sub_j (attempt i s)) !! i = Some v' /\ mv_data v' = mv_data v /\
    (mv_state v' = Acked \/
     (mv_state v' = Termed /\ (subject +:+ ".dlq", mv_data v) ∈ published (sub_j (attempt i s))) \/
     (mv_state v' = Waiting /\ mv_delivered v' = mv_delivered v + 1 /\ mv_delivered v + 1 < maxDeliver)).
Proof.
  intros HR Hv Hw Hd.
  assert (deliverable v = true) as Hdel by (unfold deliverable; rewrite Hw; by apply Z.ltb_lt).
  destruct (deliver_law i (sub_j s)) as [_ Hview].
  unfold attempt. cbn [sub_run fold_left]. unfold sub_step at 2 4. rewrite Hv, Hdel. cbn [sub_step sub_held sub_j sub_w sub_log].
  rewrite lookup_app_r, Nat.sub_diag by done. cbn [lookup list_lookup held_msg held_data held_count].
  destruct (callback _ _ _ _ _ _ _ _ _) as [[w' j'] door] eqn:Ec. cbn [sub_j].
  apply (callback_reliable i (on_deliver v)) in Ec; [exact Ec | done | | done | done].
  rewrite Hview, lookup_alter_eq, Hv. cbn. by rewrite Hdel.
Qed.

Lemma attempts_settled i s v n :
  view (sub_j s) !! i = Some v -> settled v = true -> Nat.iter n (attempt i) s = s.
Proof.
  intros Hv Hs. induction n as [| n IH]; [done |]. rewrite Nat.iter_succ, IH. eapply attempt_settled; [exact Hv |].
  unfold settled, deliverable in *. by destruct (mv_state v).
Qed.

(** C18. Every message is settled in the end, whatever the handler does: when the
    calls to the server succeed, a message waiting with [n] deliveries of its budget
    left is acked or terminated after [n] undisturbed attempts, and if it is
    terminated its data is on the dead letter queue. *)
Theorem messages_settle_within_budget (n : nat) (s : Sub (J := J) (W := W)) i v :
  reliable -> view (sub_j s) !! i = Some v -> mv_state v = Waiting -> (1 <= n)%nat ->
  mv_delivered v = maxDeliver - Z.of_nat n ->
  exists v', view (sub_j (Nat.iter n (attempt i) s)) !! i = Some v' /\ mv_data v' = mv_data v /\
    (mv_state v' = Acked \/
     mv_state v' = Termed /\ (subject +:+ ".dlq", mv_data v) ∈ published (sub_j (Nat.iter n (attempt i) s))).
Proof.
  intros HR. revert s v. induction n as [| n IH]; intros s v Hv Hw Hn Hd; [lia |]. rewrite Nat.iter_succ_r.
  destruct (attempt_step i s v HR Hv Hw ltac:(lia)) as (v' & Hv' & Hdata & Hcases).
  destruct Hcases as [Ha | [[Ht Hin] | (Hw' & Hd' & Hlt)]].
  - rewrite (attempts_settled i _ v') by (done || unfold settled; by rewrite Ha). eauto 10.
  - rewrite (attempts_settled i _ v') by (done || unfold settled; by rewrite Ht). eauto 10.
  - rewrite <- Hdata. eapply IH; [exact Hv' | exact Hw' | lia | lia].
Qed.

(** A crash on the last delivery strands a message: once a message waits with
    its budget used up and no delivery of it is held, nothing the subscriber or the
    server does settles it, hands it to the handler or dead-letters it. *)
Theorem crash_on_last_delivery_strands (s : Sub (J := J) (W := W)) (evs : list event) i v :
  view (sub_j s) !! i = Some v -> mv_state v = Waiting -> maxDeliver <= mv_delivered v -> count_of i (sub_held s) = 0%nat ->
  view (sub_j (run' s evs)) !! i = Some v /\
  count_of i (map fst (sub_log (run' s evs))) = count_of i (map fst (sub_log s)).
Proof.
  intros Hv Hw Hd. revert s Hv. induction evs as [| ev evs IH]; intros s Hv Hc; [done |]. cbn [sub_run fold_left].
  assert (view (sub_j (sub_step decode h subject Backoff s ev)) !! i = Some v /\
          count_of i (sub_held (sub_step decode h subject Backoff s ev)) = 0%nat /\
          count_of i (map fst (sub_log (sub_step decode h subject Backoff s ev))) = count_of i (map fst (sub_log s)))
    as (Hv' & Hc' & Hl'); [| rewrite <- Hl'; by apply IH].
  destruct ev as [i' | k md_ok | i' |]; cbn [sub_step].
  - destruct (view (sub_j s) !! i') as [v' |] eqn:Ei; [| done]. destruct (deliverable v') eqn:Ed; [| done]. cbn [sub_j sub_held sub_log].
    assert (i' <> i) as Hne.
    { intros ->. rewrite Hv in Ei. injection Ei as <-. unfold deliverable in Ed. rewrite Hw in Ed. apply Z.ltb_lt in Ed. lia. }
    destruct (deliver_law i' (sub_j s)) as [_ ->]. rewrite lookup_alter_ne by done. split; [done |]. split; [| done].
    rewrite count_of_app, Hc. unfold count_of. cbn. by rewrite (proj2 (Nat.eqb_neq i' i) Hne).
  - destruct (sub_held s !! k) as [d |] eqn:Ek; [| done].
    destruct (callback _ _ _ _ _ _ _ _ _) as [[w' j'] door] eqn:Ec. apply callback_spec in Ec as (_ & _ & Hview).
    pose proof (count_of_delete i _ _ _ Ek) as Hcd. cbn [sub_j sub_held sub_log].
    assert (count_of i [d] = 0%nat) as H1 by lia.
    assert (held_msg d <> i) as Hne by (intros E; unfold count_of in H1; cbn in H1; rewrite E, Nat.eqb_refl in H1; done).
    split; [destruct Hview as [-> | ->]; [by rewrite lookup_alter_ne | done] |]. split; [lia |].
    rewrite map_app, count_of_app. cbn [map fst]. lia.
  - destruct (expire_law i' (sub_j s)) as [_ Hview]. cbn [sub_j sub_held sub_log]. split; [| done]. rewrite Hview.
    destruct (decide (i' = i)) as [-> | Hne]; [| by rewrite lookup_alter_ne]. rewrite lookup_alter_eq, Hv. cbn.
    unfold let_go. by rewrite Hw.
  - cbn. done.
Qed.

(** A replay is the history: what [DrainSubject] folds is, for any failures of
    the fetches, the decodable messages of a prefix of the subject in order; it is
    all of them when the fetches succeed and every batch of 256 holds a message that
    decodes, and nothing after 256 undecodable messages in a row at a batch's
    start. *)
Theorem replays_are_histories (prefix : string) (msgs : list (option Time * string)) (fetch : list Fetch) :
  (exists n, (DrainSubject decode prefix msgs fetch).1 = flat_map (drain_message decode) (take n msgs)) /\
  (no_poison_batch decode msgs -> DrainSubject decode prefix msgs [] = (flat_map (drain_message decode) msgs, None)) /\
  (flat_map (drain_message decode) (take 256 msgs) = [] -> DrainSubject decode prefix msgs [] = ([], None)).
Proof.
  split; [apply drain_loop_prefix |]. split; [intros Hm; apply drain_loop_all; [lia | done] |].
  intros Hp. unfold DrainSubject. cbn [drain_loop head]. by rewrite Hp.
Qed.

End claims.

(** the durable of a subject is its own *)
Lemma durables_distinct : NoDup (map DurableFor Subjects) /\ Forall (fun d => d <> "") (map DurableFor Subjects).
Proof. split; [apply (bool_decide_unpack _); vm_compute; exact I | repeat constructor; discriminate]. Qed.

(** ** Concrete runs *)

(** objects are texts; an exclamation mark does not decode; the handler counts its
    calls and rejects the text bad *)
Definition demo_decode (data : string) : result string :=
  if data =s "!" then inr (errors_New "invalid character") else inl data.
Definition demo_handler (obj : string) (w : nat) : nat * option error :=
  (S w, if obj =s "bad" then Some (errors_New "handler failed") else None).

Definition waiting (data : string) : MsgView := mkMsgView data 0 Waiting.

Definition demo_sub (b : bool) (faults : list bool) : Sub (J := MemJS b) (W := nat) :=
  mkSub 0%nat (mkMemJS {[ 0%nat := waiting "ok"; 1%nat := waiting "bad"; 2%nat := waiting "!" ]} [] faults) [] [].

Definition demo_sub_run (b : bool) := sub_run (J := MemJS b) demo_decode demo_handler "thump.proposals" [].

Definition demo_attempts (i n : nat) : list event := concat (repeat [EvDeliver i; EvHandle 0 true] n).

Lemma demo_sub_fresh b faults : fresh (demo_sub b faults).
Proof.
  split; [reflexivity |]. split; [reflexivity |]. split; [reflexivity |]. intros i v Hv.
  unfold demo_sub in Hv. cbn [view sub_j MemJS_JetStream mj_view] in Hv.
  apply lookup_insert_Some in Hv as [[_ <-] | [_ Hv]]; [done |].
  apply lookup_insert_Some in Hv as [[_ <-] | [_ Hv]]; [done |].
  by apply lookup_singleton_Some in Hv as [_ <-].
Qed.


Lemma mem_reliable : reliable (J := MemJS false).
Proof. by repeat split. Defined.

Lemma messages_settle_within_budget_witness :
  let s := Nat.iter 6 (attempt (J := MemJS false) demo_decode demo_handler "thump.proposals" [] 1) (demo_sub false []) in
  exists v', view (sub_j s) !! 1%nat = Some v' /\ mv_data v' = "bad"%string /\
    (mv_state v' = Acked \/ mv_state v' = Termed /\ ("thump.proposals.dlq", "bad")%string ∈ published (sub_j s)).
Proof.
  intros s.
  apply (messages_settle_within_budget (J := MemJS false) demo_decode demo_handler "thump.proposals" [] 6 (demo_sub false []) 1 (waiting "bad")
           mem_reliable); [reflexivity | reflexivity | lia | reflexivity].
Defined.

(** the process dies while it handles the sixth delivery *)
Definition crashed_sub : Sub (J := MemJS true) (W := nat) :=
  demo_sub_run true (demo_sub true []) (demo_attempts 1 5 ++ [EvDeliver 1; EvCrash; EvExpire 1]).

Lemma crash_on_last_delivery_strands_witness :
  let v := mkMsgView "bad" 6 Waiting in
  let s := demo_sub_run true crashed_sub (demo_attempts 1 3 ++ [EvExpire 1; EvCrash]) in
  view (sub_j s) !! 1%nat = Some v /\ count_of 1 (map fst (sub_log s)) = 5%nat /\ published (sub_j s) = [].
Proof.
  intros v s.
  destruct (crash_on_last_delivery_strands (J := MemJS true) demo_decode demo_handler "thump.proposals" [] crashed_sub
              (demo_attempts 1 3 ++ [EvExpire 1; EvCrash]) 1 v) as [H1 H2]; [reflexivity | reflexivity | vm_compute; discriminate | reflexivity |].
  split; [exact H1 |]. split; [exact H2 | reflexivity].
Defined.

(** an exhausted message whose dead-letter publish fails is terminated all the same *)
Example failed_dead_letter_loses_message :
  let s := demo_sub_run true (demo_sub true (repeat false 5 ++ [true])) (demo_attempts 1 6) in
  view (sub_j s) !! 1%nat = Some (mkMsgView "bad" 6 Termed) /\ published (sub_j s) = [].
Proof. vm_compute. split; reflexivity. Qed.

(** 256 undecodable messages end a replay before the good one that follows *)
Example poison_batch_ends_replay :
  DrainSubject demo_decode "hiss: rebuild holds" (repeat (Some 0, "!"%string) 256 ++ [(Some 1, "ok"%string)]) [] = ([], None) /\
  flat_map (drain_message demo_decode) (repeat (Some 0, "!"%string) 256 ++ [(Some 1, "ok"%string)]) = [(1, "ok"%string)].
Proof. vm_compute. split; reflexivity. Qed.

Lemma replays_are_histories_witness :
  let msgs := [(Some 0, "!"%string); (Some 1, "ok"%string)] in
  DrainSubject demo_decode "hiss: rebuild holds" msgs [] = ([(1, "ok"%string)], None).
Proof.
  intros msgs. rewrite (proj1 (proj2 (replays_are_histories demo_decode "hiss: rebuild holds" msgs []))); [reflexivity |].
  intros [| k] Hk; [vm_compute; discriminate |]. exfalso. apply Hk. unfold msgs. apply drop_ge. cbn [length]. lia.
Defined.
