(* ===== verification/ApprovalRequests.v ===== *)
(** * internal/hiss: the ApprovalRequest controller

    [ApprovalRequestController] (approvalrequest_controller.go): [Create],
    [sweep], [reconcile], [reconcileObj] and [markProcessed], over a Kubernetes
    API server given by the interface [Cluster], and the beat it closes the loop
    for: a hold creates a request, a person patches it, the informer delivers it,
    the ack it publishes releases the hold.

    [Cluster] is the namespaced resource client together with what the server
    promises ([ClusterLaws]): the stored objects, and every version of an object
    it ever stored ([versions]), since an informer may hand over an old one.  Its
    [cl_Update] is a patch by a person under the chart's admission policies
    (admissionpolicy-approvalrequest.yaml): only spec.decision can change, to the
    empty string or to approve, and the approved-by annotation becomes the name
    of the authenticated caller.  An operation that fails may have been performed,
    which also covers the timeout every call is bounded by. *)

From S2P Require Import Prelude GoTime GoFloat Api Ledger Publish Hiss HissTransport.
From S2P Require Broker.
Local Open Scope Z_scope.

(** ** Objects *)

Definition approvalRequestKind : string := "ApprovalRequest".
Definition approvedByAnnotation : string := "thump.dev/approved-by".
Definition DefaultApprovalRequestRetention : Duration := 24 * Hour.

(** an [unstructured.Unstructured], with its spec and its status as
    [fromUnstructuredField] decodes them: an absent field is the zero value *)
Record Unstructured : Type := mkUnstructured {
  u_name : string;
  u_namespace : string;
  u_annotations : gmap string string;
  u_spec : result ApprovalRequestSpec;
  u_status : result ApprovalRequestStatus
}.

Definition annotation (u : Unstructured) (key : string) : string := default "" (u_annotations u !! key).

Definition ApprovalRequestStatus_zero : ApprovalRequestStatus := mkARStatus "" 0.

Definition with_status (st : ApprovalRequestStatus) (u : Unstructured) : Unstructured :=
  mkUnstructured (u_name u) (u_namespace u) (u_annotations u) (u_spec u) (inl st).

Definition decide_spec (d : string) (s : ApprovalRequestSpec) : ApprovalRequestSpec :=
  mkARSpec (ARSpec_SignalRef s) (ARSpec_Action s) (ARSpec_Band s) (ARSpec_Reasons s) d.

(** what the admission policies make of a patch by [user] *)
Definition patched (user d : string) (u : Unstructured) : Unstructured :=
  mkUnstructured (u_name u) (u_namespace u) (<[approvedByAnnotation := user]> (u_annotations u))
    (match u_spec u with inl s => inl (decide_spec d s) | inr e => inr e end) (u_status u).

Definition admissible (d : string) : bool := (d =s "") || (d =s "approve").

(** ** The API server *)

Class Cluster (K : Type) : Type := {
  cl_Create : Unstructured -> K -> K * option error;
  cl_Delete : string -> K -> K * option error;
  cl_PatchStatus : string -> ApprovalRequestStatus -> K -> K * option error;
  cl_Update : string -> string -> string -> K -> K * option error;
  IsAlreadyExists : error -> bool;
  IsNotFound : error -> bool;
  objects : K -> gmap string Unstructured;
  versions : K -> list Unstructured
}.

Section cluster.
Context {K : Type} `{Cluster K}.

Definition same_objects (k k' : K) : Prop := objects k' = objects k /\ versions k' = versions k.

Definition stored (u : Unstructured) (k k' : K) : Prop :=
  objects k' = <[u_name u := u]> (objects k) /\ versions k' = versions k ++ [u].

(** the born-undecided policy *)
Definition undecided (u : Unstructured) : Prop := forall s, u_spec u = inl s -> ARSpec_Decision s = "".

End cluster.

Class ClusterLaws (K : Type) `{Cluster K} : Prop := {
  create_ok : forall u k k', cl_Create u k = (k', None) ->
    objects k !! u_name u = None /\ undecided u /\ stored u k k';
  create_err : forall u k k' e, cl_Create u k = (k', Some e) ->
    same_objects k k' \/
    (IsAlreadyExists e = false /\ objects k !! u_name u = None /\ undecided u /\ stored u k k');
  create_exists : forall u k k' e, cl_Create u k = (k', Some e) -> IsAlreadyExists e = true ->
    is_Some (objects k !! u_name u);
  delete_ok : forall n k k', cl_Delete n k = (k', None) ->
    objects k' = delete n (objects k) /\ versions k' = versions k;
  delete_err : forall n k k' e, cl_Delete n k = (k', Some e) ->
    same_objects k k' \/ (objects k' = delete n (objects k) /\ versions k' = versions k);
  status_ok : forall n st k k', cl_PatchStatus n st k = (k', None) ->
    exists u, objects k !! n = Some u /\ stored (with_status st u) k k';
  status_err : forall n st k k' e, cl_PatchStatus n st k = (k', Some e) ->
    same_objects k k' \/ exists u, objects k !! n = Some u /\ stored (with_status st u) k k';
  update_ok : forall user n d k k', cl_Update user n d k = (k', None) ->
    admissible d = true /\ user <> "" /\ exists u, objects k !! n = Some u /\ stored (patched user d u) k k';
  update_err : forall user n d k k' e, cl_Update user n d k = (k', Some e) ->
    same_objects k k' \/
    (admissible d = true /\ user <> "" /\ exists u, objects k !! n = Some u /\ stored (patched user d u) k k')
}.

(** ** The controller *)

Section controller.
Context {A K : Type} `{Publisher A Approval} `{Cluster K}.

(** the hex digits of the SHA-256 of a string *)
Context (sha256_hex : string -> string).

Record ApprovalRequestController : Type := mkController {
  Ctl_Namespace : string;
  Ctl_Retention : Duration
}.

Definition approvalRequestName (signalRef : string) : string :=
  "ar-" +:+ String.substring 0 16 (sha256_hex signalRef).

(** [Create].  Encoding a spec of strings as JSON cannot fail. *)
Definition Create (c : ApprovalRequestController) (held : Governed) (k : K) : K * option error :=
  let spec := newApprovalRequestSpec held in
  let obj := mkUnstructured (approvalRequestName (ARSpec_SignalRef spec)) (Ctl_Namespace c) ∅ (inl spec)
               (inl ApprovalRequestStatus_zero) in
  match cl_Create obj k with
  | (k', Some e) =>
      if negb (IsAlreadyExists e)
      then (k', Some (errorf_w ("hiss: create approvalrequest for " +:+ ARSpec_SignalRef spec +:+ ": ") e))
      else (k', None)
  | (k', None) => (k', None)
  end.

Definition retention (c : ApprovalRequestController) : Duration :=
  if Ctl_Retention c <=? 0 then DefaultApprovalRequestRetention else Ctl_Retention c.

Definition sweep (c : ApprovalRequestController) (u : Unstructured) (now : Time) (k : K) : K * result bool :=
  match u_status u with
  | inr e => (k, inr (errorf_w "decode status: " e))
  | inl status =>
      if (ARStatus_Phase status <>s "Processed") || IsZero (ARStatus_DecidedAt status) then (k, inl false)
      else if Sub now (ARStatus_DecidedAt status) <? retention c then (k, inl false)
      else
        match cl_Delete (u_name u) k with
        | (k', Some e) =>
            if negb (IsNotFound e) then (k', inr (errorf_w ("delete " +:+ u_name u +:+ ": ") e))
            else (k', inl true)
        | (k', None) => (k', inl true)
        end
  end.

(** [now().UTC().Format(time.RFC3339)], read back: whole seconds *)
Definition rfc3339 (t : Time) : Time := t - t mod Second.

Definition markProcessed (name : string) (now : Time) (k : K) : K * option error :=
  match cl_PatchStatus name (mkARStatus "Processed" (rfc3339 now)) k with
  | (k', Some e) => (k', Some (errorf_w ("patch " +:+ name +:+ " status: ") e))
  | (k', None) => (k', None)
  end.

(** [reconcile]; [now] and [now'] are its two clock reads *)
Definition reconcile (u : Unstructured) (now now' : Time) (ak : A * K) : (A * K) * option error :=
  let '(a, k) := ak in
  match u_spec u with
  | inr e => (ak, Some (errorf_w "decode spec: " e))
  | inl spec =>
      match u_status u with
      | inr e => (ak, Some (errorf_w "decode status: " e))
      | inl status =>
          if (ARStatus_Phase status =s "Processed") || (ARSpec_Decision spec =s "") then (ak, None)
          else
            let approvedBy := annotation u approvedByAnnotation in
            if approvedBy =s "" then (ak, None)
            else
              match translateDecision spec approvedBy now with
              | inr e => (ak, Some e)
              | inl None => (ak, None)
              | inl (Some ack) =>
                  match publish "thump.approvals" ack a with
                  | (a', Some e) =>
                      ((a', k), Some (errorf_w ("publish approval for " +:+ ARSpec_SignalRef spec +:+ ": ") e))
                  | (a', None) =>
                      let '(k', err) := markProcessed (u_name u) now' k in ((a', k'), err)
                  end
              end
      end
  end.

(** [reconcileObj]: one informer event; the errors are logged *)
Definition reconcileObj (c : ApprovalRequestController) (u : Unstructured) (now now' : Time) (ak : A * K) : A * K :=
  match sweep c u now ak.2 with
  | (k', inr _) => (ak.1, k')
  | (k', inl true) => (ak.1, k')
  | (k', inl false) => (reconcile u now now' (ak.1, k')).1
  end.

(** one call to the API server: [Timeout] of the controller, or the default *)
Definition approvalRequestTimeout : Duration := 10 * Second.

Definition bound (Timeout : Duration) : Duration := if Timeout <=? 0 then approvalRequestTimeout else Timeout.

(** [NewApprovalRequestController]: the in-cluster configuration, the dynamic client and the
    file with the pod's own namespace are the answers of client-go and the disk *)
Definition NewApprovalRequestController (InClusterConfig NewForConfig : option error) (namespace : result string) (Retention : Duration)
  : result ApprovalRequestController :=
  match InClusterConfig with
  | Some err => inr (errorf_w "hiss: in-cluster config: " err)
  | None =>
      match NewForConfig with
      | Some err => inr (errorf_w "hiss: dynamic client: " err)
      | None =>
          match namespace with
          | inr err => inr (errorf_w "hiss: read own namespace: " err)
          | inl ns => inl (mkController ns Retention)
          end
      end
  end.

(** what an informer tells its handlers; a deletion has none *)
Inductive informer_event : Type :=
| Added (u : Unstructured)
| Updated (old u : Unstructured)
| Deleted (u : Unstructured).

Definition on_event (c : ApprovalRequestController) (ev : informer_event) (now now' : Time) (ak : A * K) : A * K :=
  match ev with
  | Added u | Updated _ u => reconcileObj c u now now' ak
  | Deleted _ => ak
  end.

(** [Run] until its context ends: the events delivered, each with the clock reads of its
    handling; [AddEventHandler] is the registration's error *)
Definition Run (AddEventHandler : option error) (c : ApprovalRequestController) (evs : list (informer_event * Time * Time)) (ak : A * K)
  : (A * K) * option error :=
  match AddEventHandler with
  | Some err => (ak, Some (errorf_w "hiss: register approvalrequest handler: " err))
  | None => (fold_left (fun ak e => on_event c e.1.1 e.1.2 e.2 ak) evs ak, None)
  end.

End controller.

Arguments reconcile : simpl never.
Arguments sweep : simpl never.

(** ** The world hiss publishes into: two subjects and a cluster *)

Record Env (D A K : Type) : Type := mkEnv { env_decisions : D; env_approvals : A; env_cluster : K }.
Arguments mkEnv {D A K}.
Arguments env_decisions {D A K}.
Arguments env_approvals {D A K}.
Arguments env_cluster {D A K}.

#[export] Instance Env_Publisher D A K `{Publisher D Governed} : Publisher (Env D A K) Governed := {|
  publish subj g w :=
    let '(d, e) := publish subj g (env_decisions w) in (mkEnv d (env_approvals w) (env_cluster w), e);
  delivered w := delivered (env_decisions w)
|}.

#[export] Instance Env_PublisherLaws D A K `{PublisherLaws D Governed} : PublisherLaws (Env D A K) Governed.
Proof.
  split; intros subj g w w'; cbn; destruct (publish subj g (env_decisions w)) as [d r] eqn:Ep; intros; simplify_eq;
    cbn; [by eapply publish_ok | by eapply publish_err].
Qed.

(** ** The beat with its approval requests *)

Section system.
Context {D A K : Type} `{PublisherLaws D Governed} `{PublisherLaws A Approval} `{ClusterLaws K}.
Context (sha256_hex : string -> string) (ctl : ApprovalRequestController) (pol : Policy).

(** the transport hiss runs with: its approvals port is this controller *)
Definition ar_config : TransportConfig (Env D A K) :=
  mkTransportConfig pol
    (Some (fun g w => let '(k, e) := Create sha256_hex ctl g (env_cluster w) in
                      (mkEnv (env_decisions w) (env_approvals w) k, e))).

Inductive ar_event : Type :=
| ArProposal (ps : ProposalSet) (now : Time)
| ArPatch (user name decision : string)     (* a person patches a request *)
| ArForeignCreate (u : Unstructured)        (* somebody else creates one *)
| ArForeignDelete (name : string)
| ArInformer (i : nat) (now now' : Time)    (* the informer delivers the i-th stored version *)
| ArForeignAck (a : Approval)               (* an ack published by somebody else *)
| ArAck (i : nat) (now1 now2 : Time)        (* the i-th ack of the subject is delivered, again perhaps *)
| ArRestart.

Abbreviation State := (TransportState (Env D A K)).

Definition on_cluster (f : K -> K) (st : State) : State :=
  let w := Tr_world st in
  mkTransportState (Tr_Holds st) (Tr_Log st) (mkEnv (env_decisions w) (env_approvals w) (f (env_cluster w))).

Definition on_acks (f : A * K -> A * K) (st : State) : State :=
  let w := Tr_world st in
  let '(a, k) := f (env_approvals w, env_cluster w) in
  mkTransportState (Tr_Holds st) (Tr_Log st) (mkEnv (env_decisions w) a k).

Definition acks (st : State) : list Approval := on_subject "thump.approvals" (env_approvals (Tr_world st)).
Definition cluster_of (st : State) : K := env_cluster (Tr_world st).

Definition ar_step (st : State) (ev : ar_event) : State :=
  match ev with
  | ArProposal ps now => (handle ar_config ps now st).1
  | ArPatch user name d => on_cluster (fun k => (cl_Update user name d k).1) st
  | ArForeignCreate u => on_cluster (fun k => (cl_Create u k).1) st
  | ArForeignDelete n => on_cluster (fun k => (cl_Delete n k).1) st
  | ArInformer i now now' =>
      match versions (cluster_of st) !! i with
      | Some u => on_acks (reconcileObj ctl u now now') st
      | None => st
      end
  | ArForeignAck a => on_acks (fun ak => ((publish "thump.approvals" a ak.1).1, ak.2)) st
  | ArAck i now1 now2 =>
      match acks st !! i with
      | Some a => (approveHandler ar_config a now1 now2 st).1
      | None => st
      end
  | ArRestart => buildTransport (Tr_world st)
  end.

Definition ar_run (st : State) (evs : list ar_event) : State := fold_left ar_step evs st.

(** an object the informer adds or updates, once it has stored it, is one event of the beat *)
Lemma Run_informer st i u now now' ev : versions (cluster_of st) !! i = Some u -> ev = Added u \/ (exists old, ev = Updated old u) ->
  on_acks (fun ak => (Run None ctl [(ev, now, now')] ak).1) st = ar_step st (ArInformer i now now').
Proof. intros Hi Hev. cbn. rewrite Hi. by destruct Hev as [-> | [old ->]]. Qed.

(** an unreachable API server fails the message while its handler still owns it *)
Lemma default_bound_under_AckWait subj : bound 0 < Broker.Cons_AckWait (Broker.consumer_for subj).
Proof. reflexivity. Qed.

(** [Requested evs name req]: the content of the request object [name], its
    decision apart, is a hold of hiss or what somebody else created *)
Definition Requested (evs : list ar_event) (name : string) (req : ApprovalRequestSpec) : Prop :=
  (exists u s, ArForeignCreate u ∈ evs /\ u_name u = name /\ u_spec u = inl s /\ req = decide_spec (ARSpec_Decision req) s) \/
  (exists held, Judged ar_config held /\ awaits held = true /\
     name = approvalRequestName sha256_hex (Decision_SignalRef (Governed_Decision held)) /\
     req = decide_spec (ARSpec_Decision req) (newApprovalRequestSpec held)).

(** [Attributed evs a]: an authenticated person approved the request [a] answers *)
Definition Attributed (evs : list ar_event) (a : Approval) : Prop :=
  exists user name req,
    ArPatch user name "approve" ∈ evs /\ user <> "" /\ Approval_Approver a = user /\
    Requested evs name req /\ Approval_SignalRef a = ARSpec_SignalRef req.

Definition stamped (evs : list ar_event) (u : Unstructured) : Prop :=
  forall s, u_spec u = inl s ->
    Requested evs (u_name u) s /\
    (ARSpec_Decision s = "" \/
     (ARSpec_Decision s = "approve" /\
      exists user, ArPatch user (u_name u) "approve" ∈ evs /\ user <> "" /\ annotation u approvedByAnnotation = user)).

Record cluster_inv (evs : list ar_event) (k : K) : Prop := {
  inv_versions : Forall (stamped evs) (versions k);
  inv_objects : forall n u, objects k !! n = Some u -> u_name u = n /\ u ∈ versions k
}.

Definition Acknowledged (evs : list ar_event) (a : Approval) : Prop :=
  Attributed evs a \/ ArForeignAck a ∈ evs.

Record ar_inv (evs : list ar_event) (st : State) : Prop := {
  inv_cluster : cluster_inv evs (cluster_of st);
  inv_acks : Forall (Acknowledged evs) (acks st);
  inv_hiss : exists hevs, hiss_inv ar_config hevs st /\
               forall a n1 n2, EvAck a n1 n2 ∈ hevs -> a ∈ acks st
}.

(** ** Lemmas on the cluster *)

Lemma decide_spec_twice d d' s : decide_spec d (decide_spec d' s) = decide_spec d s.
Proof. reflexivity. Qed.

Lemma decide_spec_id s : decide_spec (ARSpec_Decision s) s = s.
Proof. by destruct s. Qed.

Lemma Requested_mono evs ev name req : Requested evs name req -> Requested (evs ++ [ev]) name req.
Proof.
  intros [(u & s & Hin & Hrest) | Hh]; [left | by right].
  exists u, s. split; [apply elem_of_app; by left | exact Hrest].
Qed.

Lemma Requested_decide evs name s d : Requested evs name s -> Requested evs name (decide_spec d s).
Proof.
  intros [(u & s0 & Hin & Hn & Hs & He) | (held & Hj & Ha & Hn & He)]; [left | right].
  - exists u, s0. repeat split; try done. cbn. by rewrite He.
  - exists held. repeat split; try done. cbn. by rewrite He.
Qed.

Lemma stamped_mono evs ev u : stamped evs u -> stamped (evs ++ [ev]) u.
Proof.
  intros Hs s Hus. destruct (Hs s Hus) as [Hr Hd]. split; [by apply Requested_mono |].
  destruct Hd as [Hd | (Hd & user & Hin & Hrest)]; [by left | right]. split; [done |].
  exists user. split; [apply elem_of_app; by left | done].
Qed.

Lemma cluster_inv_mono evs ev k : cluster_inv evs k -> cluster_inv (evs ++ [ev]) k.
Proof. intros [Hv Ho]. split; [| exact Ho]. eapply Forall_impl; [| exact Hv]. intros. by apply stamped_mono. Qed.

Lemma cluster_inv_same evs k k' : same_objects k k' -> cluster_inv evs k -> cluster_inv evs k'.
Proof. intros [Ho Hv] [Iv Io]. split; [by rewrite Hv | rewrite Ho, Hv; exact Io]. Qed.

Lemma cluster_inv_stored evs u k k' : stored u k k' -> stamped evs u -> cluster_inv evs k -> cluster_inv evs k'.
Proof.
  intros [Ho Hv] Hs [Iv Io]. split; [rewrite Hv; apply Forall_app; auto |].
  intros n u'. rewrite Ho, Hv, elem_of_app. destruct (decide (n = u_name u)) as [-> | Hn].
  - rewrite lookup_insert_eq. intros [= <-]. split; [done |]. right. by left.
  - rewrite lookup_insert_ne by done. intros [? ?]%Io. auto.
Qed.

Lemma cluster_inv_deleted evs n k k' :
  objects k' = delete n (objects k) -> versions k' = versions k -> cluster_inv evs k -> cluster_inv evs k'.
Proof.
  intros Ho Hv [Iv Io]. split; [by rewrite Hv |]. intros n' u. rewrite Ho, Hv.
  intros [_ Hl]%lookup_delete_Some. by apply Io.
Qed.

Lemma cluster_inv_Create evs u k : (undecided u -> stamped evs u) -> cluster_inv evs k -> cluster_inv evs (cl_Create u k).1.
Proof.
  intros Hs HI. destruct (cl_Create u k) as [k' [e |]] eqn:E; cbn.
  - apply create_err in E as [Hsm | (_ & _ & Hu & Hst)]; [by eapply cluster_inv_same | eapply cluster_inv_stored; eauto].
  - apply create_ok in E as (_ & Hu & Hst). eapply cluster_inv_stored; eauto.
Qed.

Lemma cluster_inv_Delete evs n k : cluster_inv evs k -> cluster_inv evs (cl_Delete n k).1.
Proof.
  intros HI. destruct (cl_Delete n k) as [k' [e |]] eqn:E; cbn.
  - apply delete_err in E as [Hsm | [Ho Hv]]; [by eapply cluster_inv_same | by eapply cluster_inv_deleted].
  - apply delete_ok in E as [Ho Hv]. by eapply cluster_inv_deleted.
Qed.

Lemma cluster_inv_known evs k n u : cluster_inv evs k -> objects k !! n = Some u -> stamped evs u /\ u_name u = n.
Proof.
  intros [Iv Io] [Hn Hu]%Io. split; [| done]. rewrite list.Forall_forall in Iv. by apply Iv.
Qed.

Lemma cluster_inv_PatchStatus evs n st k : cluster_inv evs k -> cluster_inv evs (cl_PatchStatus n st k).1.
Proof.
  intros HI. assert (forall u k', objects k !! n = Some u -> stored (with_status st u) k k' -> cluster_inv evs k') as Hst.
  { intros u k' Hl Hs. destruct (cluster_inv_known _ _ _ _ HI Hl) as [Hu _].
    eapply cluster_inv_stored; [exact Hs | | exact HI]. exact Hu. }
  destruct (cl_PatchStatus n st k) as [k' [e |]] eqn:E; cbn.
  - apply status_err in E as [Hsm | (u & Hl & Hs)]; [by eapply cluster_inv_same | by eapply Hst].
  - apply status_ok in E as (u & Hl & Hs). by eapply Hst.
Qed.

Lemma patched_stamped evs user d n u :
  admissible d = true -> user <> "" -> u_name u = n -> stamped evs u -> stamped (evs ++ [ArPatch user n d]) (patched user d u).
Proof.
  intros Hd Hu <- Hs s Hus. cbn in Hus. destruct (u_spec u) as [s0 | e] eqn:Es; [| done]. injection Hus as <-.
  destruct (Hs s0 Es) as [Hr _]. split; [by apply Requested_decide, Requested_mono |]. cbn.
  unfold admissible in Hd. apply orb_true_iff in Hd as [->%String.eqb_eq | ->%String.eqb_eq]; [by left | right].
  split; [done |]. exists user. split; [apply elem_of_app; right; by left |]. split; [done |].
  unfold annotation. cbn. by rewrite lookup_insert_eq.
Qed.

Lemma cluster_inv_Update evs user n d k :
  cluster_inv evs k -> cluster_inv (evs ++ [ArPatch user n d]) (cl_Update user n d k).1.
Proof.
  intros HI. assert (forall u k', objects k !! n = Some u -> admissible d = true -> user <> "" ->
      stored (patched user d u) k k' -> cluster_inv (evs ++ [ArPatch user n d]) k') as Hst.
  { intros u k' Hl Hd Hu Hs. destruct (cluster_inv_known _ _ _ _ HI Hl) as [Hsu Hn].
    eapply cluster_inv_stored; [exact Hs | by apply patched_stamped | by apply cluster_inv_mono]. }
  destruct (cl_Update user n d k) as [k' [e |]] eqn:E; cbn.
  - apply update_err in E as [Hsm | (Hd & Hu & u & Hl & Hs)]; [| by eapply Hst].
    eapply cluster_inv_same; [exact Hsm | by apply cluster_inv_mono].
  - apply update_ok in E as (Hd & Hu & u & Hl & Hs). by eapply Hst.
Qed.

(** ** Lemmas on the controller *)

(** what [Create] does to the cluster is one creation *)
Lemma Create_cluster held k :
  (Create sha256_hex ctl held k).1 =
  (cl_Create (mkUnstructured (approvalRequestName sha256_hex (Decision_SignalRef (Governed_Decision held)))
                (Ctl_Namespace ctl) ∅ (inl (newApprovalRequestSpec held)) (inl ApprovalRequestStatus_zero)) k).1.
Proof. unfold Create. cbn. destruct (cl_Create _ k) as [k' [e |]]; [by destruct (IsAlreadyExists e) | done]. Qed.

(** a request whose name is taken: [Create] reports success and changes nothing *)
Lemma Create_present held k k' r u :
  objects k !! approvalRequestName sha256_hex (Decision_SignalRef (Governed_Decision held)) = Some u ->
  Create sha256_hex ctl held k = (k', r) -> same_objects k k'.
Proof.
  intros Hl Hc. assert (k' = (Create sha256_hex ctl held k).1) as -> by (by rewrite Hc). rewrite Create_cluster.
  destruct (cl_Create _ k) as [k'' [e |]] eqn:E; cbn.
  - apply create_err in E as [Hs | (_ & Hno & _)]; [done | cbn in Hno; congruence].
  - apply create_ok in E as (Hno & _). cbn in Hno. congruence.
Qed.

Lemma sweep_cluster evs u now k : cluster_inv evs k -> cluster_inv evs (sweep ctl u now k).1.
Proof.
  intros HI. unfold sweep. destruct (u_status u) as [s | e]; [| done]. case_match; [done |]. case_match; [done |].
  pose proof (cluster_inv_Delete evs (u_name u) k HI) as HD. destruct (cl_Delete (u_name u) k) as [k' [e |]]; [| done].
  by destruct (IsNotFound e).
Qed.

Lemma markProcessed_cluster evs n now k : cluster_inv evs k -> cluster_inv evs (markProcessed n now k).1.
Proof.
  intros HI. unfold markProcessed. pose proof (cluster_inv_PatchStatus evs n (mkARStatus "Processed" (rfc3339 now)) k HI).
  by destruct (cl_PatchStatus _ _ _) as [k' [e |]].
Qed.

(** the ack [reconcile] publishes for this version of a request, if any *)
Definition ack_for (u : Unstructured) (now : Time) : option Approval :=
  match u_spec u, u_status u with
  | inl spec, inl status =>
      if (ARStatus_Phase status <>s "Processed") && (ARSpec_Decision spec =s "approve")
           && (annotation u approvedByAnnotation <>s "")
      then Some (mkApproval (ARSpec_SignalRef spec) (annotation u approvedByAnnotation) now "")
      else None
  | _, _ => None
  end.

(** [reconcile] publishes exactly [ack_for], and marks the request when that
    succeeded *)
Lemma reconcile_ack u now now' (ak : A * K) :
  (reconcile u now now' ak).1 =
  match ack_for u now with
  | None => ak
  | Some ack =>
      match publish "thump.approvals" ack ak.1 with
      | (a', Some _) => (a', ak.2)
      | (a', None) => (a', (markProcessed (u_name u) now' ak.2).1)
      end
  end.
Proof.
  unfold reconcile, ack_for, translateDecision. destruct ak as [a k]. destruct (u_spec u) as [s | e]; [| done].
  destruct (u_status u) as [t | e]; [| done].
  destruct (ARStatus_Phase t =s "Processed") eqn:Ep; [done |]. cbn.
  destruct (ARSpec_Decision s =s "") eqn:Ed; [by apply String.eqb_eq in Ed as -> |]. cbn.
  destruct (annotation u approvedByAnnotation =s "") eqn:Ea; [by rewrite andb_false_r |].
  rewrite andb_true_r. destruct (ARSpec_Decision s =s "approve"); [| done].
  destruct (publish _ _ a) as [a' [e |]]; [done |]. by destruct (markProcessed _ _ _).
Qed.

Lemma ack_for_attributed evs u now ack : stamped evs u -> ack_for u now = Some ack -> Attributed evs ack.
Proof.
  intros Hs. unfold ack_for. destruct (u_spec u) as [s |] eqn:Es; [| done]. destruct (u_status u) as [t |]; [| done].
  case_match eqn:Eg; [| done]. intros [= <-]. bsplit. destruct (Hs s Es) as [Hr [Hd | (Hd & user & Hin & Hu & Ha)]]; [congruence |].
  exists user, (u_name u), s. by repeat split.
Qed.

Lemma reconcileObj_inv evs u now now' (ak : A * K) :
  stamped evs u -> cluster_inv evs ak.2 -> Forall (Acknowledged evs) (on_subject "thump.approvals" ak.1) ->
  let ak' := reconcileObj ctl u now now' ak in
  cluster_inv evs ak'.2 /\ Forall (Acknowledged evs) (on_subject "thump.approvals" ak'.1) /\
  forall a, a ∈ on_subject "thump.approvals" ak.1 -> a ∈ on_subject "thump.approvals" ak'.1.
Proof.
  intros Hs Hk Ha. unfold reconcileObj. pose proof (sweep_cluster evs u now ak.2 Hk) as Hk'.
  destruct (sweep ctl u now ak.2) as [k' [[|] | e]]; cbn in *; [done | | done]. rewrite reconcile_ack.
  destruct (ack_for u now) as [ack |] eqn:Eack; [| done]. cbn [fst snd].
  destruct (publish "thump.approvals" ack ak.1) as [a' r] eqn:Ep.
  assert (Forall (Acknowledged evs) (on_subject "thump.approvals" a') /\
          forall a, a ∈ on_subject "thump.approvals" ak.1 -> a ∈ on_subject "thump.approvals" a') as [Hf Hsub].
  { destruct (on_subject_any _ _ _ _ _ Ep) as [-> | ->]; [done |]. split; [apply Forall_app; split; [done |] |].
    - constructor; [left; by eapply ack_for_attributed | constructor].
    - intros a Hin. apply elem_of_app. by left. }
  destruct r as [e |]; cbn; [done |]. split; [by apply markProcessed_cluster | done].
Qed.

(** ** Lemmas on the beat *)

Lemma ar_config_quiet : approvals_quiet ar_config.
Proof.
  intros create g w w' e [= <-]. destruct (Create _ _ _ _) as [k r]. intros [= <- <-]. done.
Qed.

(** a publish of hiss leaves the acks and the cluster alone *)
Lemma publish_elsewhere subj g (w w' : Env D A K) r :
  publish subj g w = (w', r) -> env_approvals w' = env_approvals w /\ env_cluster w' = env_cluster w.
Proof. cbn. destruct (publish subj g (env_decisions w)). by intros [= <- <-]. Qed.

Lemma handle_elsewhere ps now st :
  env_approvals (Tr_world (handle ar_config ps now st).1) = env_approvals (Tr_world st) /\
  (cluster_of (handle ar_config ps now st).1 = cluster_of st \/
   let held := mkGoverned (Evaluate ps pol now) ps in
   awaits held = true /\
   cluster_of (handle ar_config ps now st).1 = (Create sha256_hex ctl held (cluster_of st)).1).
Proof.
  assert (forall h log (w : Env D A K) g,
    env_approvals (Tr_world (let '(w', perr) := publish "thump.decisions" g w in (mkTransportState h log w', perr)).1)
      = env_approvals w /\
    cluster_of (let '(w', perr) := publish "thump.decisions" g w in (mkTransportState h log w', perr)).1
      = env_cluster w) as Hp.
  { intros h log w g. destruct (publish "thump.decisions" g w) as [w' r] eqn:E. by apply publish_elsewhere in E. }
  unfold handle. cbn [Tr_Policy Tr_Approvals ar_config].
  destruct (AwaitsApproval (Decision_Verdict (Evaluate ps pol now))) eqn:Ea.
  2: { cbn [Tr_world]. edestruct Hp as [-> Hc]. split; [done |]. left. exact Hc. }
  destruct (Tr_Holds st) as [h |].
  2: { cbn [Tr_world]. edestruct Hp as [-> Hc]. split; [done |]. left. exact Hc. }
  change (cluster_of st) with (env_cluster (Tr_world st)). cbn [Tr_world].
  destruct (Create sha256_hex ctl _ (env_cluster (Tr_world st))) as [k [e |]] eqn:Ec; cbn beta iota.
  - split; [done |]. right. split; [exact Ea |]. done.
  - cbn [Tr_world Tr_Holds Tr_Log]. edestruct Hp as [-> Hc]. split; [done |]. right. split; [exact Ea |]. exact Hc.
Qed.

Lemma approveHandler_elsewhere a n1 n2 st :
  env_approvals (Tr_world (approveHandler ar_config a n1 n2 st).1) = env_approvals (Tr_world st) /\
  cluster_of (approveHandler ar_config a n1 n2 st).1 = cluster_of st.
Proof.
  unfold approveHandler, Holds_Take. destruct (Tr_Holds st) as [h |]; [| done].
  destruct (h !! Approval_SignalRef a) as [held |]; [| done]. destruct (Decision_Auditable _); [done |].
  cbn [Tr_world]. destruct (publish "thump.decisions" _ (Tr_world st)) as [w' [e |]] eqn:E;
    by apply publish_elsewhere in E.
Qed.

Lemma Acknowledged_mono evs ev l : Forall (Acknowledged evs) l -> Forall (Acknowledged (evs ++ [ev])) l.
Proof.
  intros Hf. eapply Forall_impl; [| exact Hf]. intros a [(user & n & req & Hin & Hu & Ha & Hr & Hs) | Hin].
  - left. exists user, n, req. repeat split; try done; [apply elem_of_app; by left | by apply Requested_mono].
  - right. apply elem_of_app. by left.
Qed.

(** a step that leaves the decisions and the holds of hiss alone *)
Lemma ar_inv_around evs (st st' : State) hevs :
  hiss_inv ar_config hevs st -> (forall a n1 n2, EvAck a n1 n2 ∈ hevs -> a ∈ acks st) ->
  Tr_Holds st' = Tr_Holds st -> env_decisions (Tr_world st') = env_decisions (Tr_world st) ->
  cluster_inv evs (cluster_of st') -> Forall (Acknowledged evs) (acks st') ->
  (forall a, a ∈ acks st -> a ∈ acks st') -> ar_inv evs st'.
Proof.
  intros [Hs Hh] Hin Eh Ed Hk Ha Hsub. split; [done | done |]. exists hevs. split; [| eauto]. split.
  - unfold on_subject in *. cbn in *. by rewrite Ed.
  - rewrite Eh. exact Hh.
Qed.

Lemma handle_ar_inv evs ps now st : ar_inv evs st -> ar_inv (evs ++ [ArProposal ps now]) (handle ar_config ps now st).1.
Proof.
  intros [Hk Ha (hevs & Hi & Hin)]. destruct (handle_elsewhere ps now st) as [Ea Hc]. split.
  - destruct Hc as [-> | [Haw ->]]; [by apply cluster_inv_mono |]. rewrite Create_cluster.
    apply cluster_inv_Create; [| by apply cluster_inv_mono]. intros _ s [= <-]. split; [| by left]. right.
    exists (mkGoverned (Evaluate ps pol now) ps). repeat split; try done. by exists now.
  - unfold acks. rewrite Ea. by apply Acknowledged_mono.
  - exists hevs. split; [by apply handle_inv; [apply ar_config_quiet |] |]. unfold acks. rewrite Ea. exact Hin.
Qed.

Lemma ack_ar_inv evs i n1 n2 st a :
  acks st !! i = Some a -> ar_inv evs st -> ar_inv (evs ++ [ArAck i n1 n2]) (approveHandler ar_config a n1 n2 st).1.
Proof.
  intros Hl [Hk Ha (hevs & [Hs Hh] & Hin)]. destruct (approveHandler_elsewhere a n1 n2 st) as [Ea Ec]. split.
  - rewrite Ec. by apply cluster_inv_mono.
  - unfold acks. rewrite Ea. by apply Acknowledged_mono.
  - exists (hevs ++ [EvAck a n1 n2]). split.
    + apply approveHandler_inv; [apply elem_of_app; right; by left |]. split; [| exact Hh].
      eapply Forall_impl; [| exact Hs]. intros. by apply Issued_mono.
    + unfold acks. rewrite Ea. intros a' m1 m2 [H' | H']%elem_of_app; [by eapply Hin |].
      apply list_elem_of_singleton in H' as [= -> -> ->]. by eapply list_elem_of_lookup_2.
Qed.

Lemma ar_step_inv evs st ev : ar_inv evs st -> ar_inv (evs ++ [ev]) (ar_step st ev).
Proof.
  intros HI. destruct HI as [Hk Ha (hevs & Hi & Hin)] eqn:E. clear E.
  assert (ar_inv (evs ++ [ev]) st) as Hsame.
  { eapply ar_inv_around; eauto; [by apply cluster_inv_mono | by apply Acknowledged_mono]. }
  destruct ev as [ps now | user n d | u | n | i now now' | a | i n1 n2 |]; cbn [ar_step].
  - by apply handle_ar_inv.
  - eapply ar_inv_around; eauto; [by apply cluster_inv_Update | by apply Acknowledged_mono].
  - eapply ar_inv_around; eauto; [| by apply Acknowledged_mono].
    apply cluster_inv_Create; [| by apply cluster_inv_mono]. intros Hu s Hs. split; [| left; by apply Hu]. left.
    exists u, s. repeat split; [apply elem_of_app; right; by left | done |]. by rewrite decide_spec_id.
  - eapply ar_inv_around; eauto; [| by apply Acknowledged_mono]. by apply cluster_inv_Delete, cluster_inv_mono.
  - destruct (versions (cluster_of st) !! i) as [u |] eqn:El; [| done].
    destruct Hsame as [Hk1 Ha1 _].
    assert (stamped (evs ++ [ArInformer i now now']) u) as Hu.
    { destruct Hk1 as [Hv _]. rewrite list.Forall_forall in Hv. apply Hv. by eapply list_elem_of_lookup_2. }
    destruct (reconcileObj_inv _ u now now' (env_approvals (Tr_world st), cluster_of st) Hu Hk1 Ha1) as (Hk2 & Ha2 & Hsub).
    unfold on_acks. unfold cluster_of in *. cbn [fst snd] in *.
    destruct (reconcileObj ctl u now now' _) as [a' k']. eapply ar_inv_around; eauto.
  - unfold on_acks. cbn [fst snd]. destruct (publish "thump.approvals" a (env_approvals (Tr_world st))) as [a' r] eqn:Ep.
    destruct Hsame as [Hk1 Ha1 _]. cbn [fst].
    destruct (on_subject_any _ _ _ _ _ Ep) as [Eq | Eq]; (eapply ar_inv_around; [exact Hi | exact Hin | done | done | done | |]);
      unfold acks; cbn; rewrite Eq; try done.
    + apply Forall_app. split; [exact Ha1 |]. constructor; [| constructor]. right. apply elem_of_app. right. by left.
    + intros a0 Hin0. apply elem_of_app. by left.
  - destruct (acks st !! i) as [a |] eqn:El; [| done]. by apply ack_ar_inv.
  - split; [apply Hsame | apply Hsame |]. exists hevs. split; [| exact Hin]. destruct Hi as [Hs Hh].
    split; [done |]. intros h [= <-]. by eapply rebuildHolds_wf.
Qed.

Lemma ar_run_inv w evs :
  delivered (env_decisions w) = [] -> on_subject "thump.approvals" (env_approvals w) = [] ->
  objects (env_cluster w) = ∅ -> versions (env_cluster w) = [] ->
  ar_inv evs (ar_run (buildTransport w) evs).
Proof.
  intros Hd Ha Ho Hv. induction evs as [| ev evs IH] using rev_ind.
  - split; [split | |].
    + unfold cluster_of. cbn. rewrite Hv. constructor.
    + unfold cluster_of. cbn. rewrite Ho. intros n u. by rewrite lookup_empty.
    + unfold acks. cbn. rewrite Ha. constructor.
    + exists []. split; [| intros a n1 n2 Hin; by apply not_elem_of_nil in Hin].
      exact (run_inv ar_config w [] ar_config_quiet Hd).
  - unfold ar_run. rewrite fold_left_app. cbn. by apply ar_step_inv.
Qed.

End system.

(** ** An in-memory API server whose calls fail as [mc_faults] says *)

Record MemCluster : Type := mkMemCluster {
  mc_objects : gmap string Unstructured;
  mc_versions : list Unstructured;
  mc_faults : list bool
}.

Definition ErrAlreadyExists : error := errors_New "already exists".
Definition ErrNotFound : error := errors_New "not found".
Definition ErrDenied : error := errors_New "denied".
Definition ErrUnavailable : error := errors_New "server unavailable".

Definition mc_call (k : MemCluster) (f : MemCluster -> MemCluster * option error) : MemCluster * option error :=
  let k1 := mkMemCluster (mc_objects k) (mc_versions k) (tail (mc_faults k)) in
  if default false (head (mc_faults k)) then (k1, Some ErrUnavailable) else f k1.

Definition mc_store (u : Unstructured) (k : MemCluster) : MemCluster :=
  mkMemCluster (<[u_name u := u]> (mc_objects k)) (mc_versions k ++ [u]) (mc_faults k).

Definition is_undecided (u : Unstructured) : bool :=
  match u_spec u with inl s => ARSpec_Decision s =s "" | inr _ => true end.

Definition mc_modify (n : string) (allowed : bool) (f : Unstructured -> Unstructured) (k : MemCluster)
  : MemCluster * option error :=
  mc_call k (fun k =>
    match mc_objects k !! n with
    | None => (k, Some ErrNotFound)
    | Some u => if allowed then (mc_store (f u) k, None) else (k, Some ErrDenied)
    end).

#[export] Instance MemCluster_Cluster : Cluster MemCluster := {|
  cl_Create u k := mc_call k (fun k =>
    match mc_objects k !! u_name u with
    | Some _ => (k, Some ErrAlreadyExists)
    | None => if is_undecided u then (mc_store u k, None) else (k, Some ErrDenied)
    end);
  cl_Delete n k := mc_call k (fun k =>
    match mc_objects k !! n with
    | None => (k, Some ErrNotFound)
    | Some _ => (mkMemCluster (delete n (mc_objects k)) (mc_versions k) (mc_faults k), None)
    end);
  cl_PatchStatus n st := mc_modify n true (with_status st);
  cl_Update user n d := mc_modify n (admissible d && (user <>s "")) (patched user d);
  IsAlreadyExists e := errors_Is e ErrAlreadyExists;
  IsNotFound e := errors_Is e ErrNotFound;
  objects := mc_objects;
  versions := mc_versions
|}.

Lemma is_undecided_spec u : is_undecided u = true -> undecided u.
Proof. unfold is_undecided. intros Hu s Hs. rewrite Hs in Hu. by apply String.eqb_eq. Qed.

Lemma mc_call_ok k f k' : mc_call k f = (k', None) ->
  f (mkMemCluster (mc_objects k) (mc_versions k) (tail (mc_faults k))) = (k', None).
Proof. unfold mc_call. by destruct (default _ _). Qed.

Lemma mc_call_err k f k' e : mc_call k f = (k', Some e) ->
  (e = ErrUnavailable /\ k' = mkMemCluster (mc_objects k) (mc_versions k) (tail (mc_faults k))) \/
  f (mkMemCluster (mc_objects k) (mc_versions k) (tail (mc_faults k))) = (k', Some e).
Proof. unfold mc_call. destruct (default _ _); [|by right]. intros [= <- <-]. by left. Qed.

Lemma mc_modify_ok n b f k k' : mc_modify n b f k = (k', None) ->
  b = true /\ exists u, mc_objects k !! n = Some u /\ stored (f u) k k'.
Proof.
  intros Hc%mc_call_ok. cbn in Hc. destruct (mc_objects k !! n) as [u |]; [| done]. destruct b; [| done].
  injection Hc as <-. split; [done |]. by exists u.
Qed.

Lemma mc_modify_err n b f k k' e : mc_modify n b f k = (k', Some e) -> same_objects k k'.
Proof.
  intros [[_ ->] | Hc]%mc_call_err; [done |]. cbn in Hc. destruct (mc_objects k !! n); [| by simplify_eq].
  destruct b; by simplify_eq.
Qed.

#[export] Instance MemCluster_ClusterLaws : ClusterLaws MemCluster.
Proof.
  split.
  - intros u k k' Hc%mc_call_ok. cbn in Hc. destruct (mc_objects k !! u_name u) eqn:El; [done |].
    destruct (is_undecided u) eqn:Eu; [| done]. injection Hc as <-. split; [exact El |].
    split; [by apply is_undecided_spec | done].
  - intros u k k' e [[-> ->] | Hc]%mc_call_err; [by left |]. cbn in Hc. left.
    destruct (mc_objects k !! u_name u); [by simplify_eq |]. destruct (is_undecided u); by simplify_eq.
  - intros u k k' e [[-> ->] | Hc]%mc_call_err; [done |]. cbn in *. intros He.
    destruct (mc_objects k !! u_name u) eqn:El; [by eexists |]. by destruct (is_undecided u); simplify_eq.
  - intros n k k' Hc%mc_call_ok. cbn in Hc. destruct (mc_objects k !! n); [| done]. by injection Hc as <-.
  - intros n k k' e [[-> ->] | Hc]%mc_call_err; [by left |]. cbn in Hc. left.
    destruct (mc_objects k !! n); by simplify_eq.
  - intros n st k k' [_ Hc]%mc_modify_ok. exact Hc.
  - intros n st k k' e Hc%mc_modify_err. by left.
  - intros user n d k k' [Hb Hc]%mc_modify_ok. apply andb_true_iff in Hb as [Hd Hu].
    split; [done |]. split; [| exact Hc]. intros ->. done.
  - intros user n d k k' e Hc%mc_modify_err. by left.
Qed.

(** ** Claims *)

Section claims.
Context {D A K : Type} `{PublisherLaws D Governed} `{PublisherLaws A Approval} `{ClusterLaws K}.
Implicit Types (w : Env D A K) (k : K).

(** C17. Every approval a person gave is attributed, end to end: over any run of the
    beat and its approval requests (sets, patches, foreign creations, deletions and
    acks, informer events of any stored version in any order, redelivered acks and
    restarts, with any call failing), an approval on thump.decisions is a verdict
    [Evaluate] permitted, or the re-issue of a decision that awaited approval by an
    ack of its fingerprint; and that ack was published by somebody else, or its
    approver is an authenticated user who set to approve a request object for that
    fingerprint, whose content is a hold of hiss or what a foreign creation wrote. *)
Theorem approvals_are_attributed (sha256_hex : string -> string) ctl pol w evs g :
  delivered (env_decisions w) = [] -> on_subject "thump.approvals" (env_approvals w) = [] ->
  objects (env_cluster w) = ∅ -> versions (env_cluster w) = [] ->
  g ∈ on_subject "thump.decisions" (Tr_world (ar_run sha256_hex ctl pol (buildTransport w) evs)) ->
  Decision_Verdict (Governed_Decision g) = VerdictApproved ->
  (exists now rec, Governed_Decision g = Evaluate (Governed_Set g) pol now /\ Permitted (Governed_Set g) pol now rec) \/
  (exists held a n1 n2 now,
     g = reissue (ar_config (D := D) (A := A) (K := K) sha256_hex ctl pol) held a n1 n2 /\
     Governed_Decision held = Evaluate (Governed_Set g) pol now /\
     AwaitsApproval (Decision_Verdict (Governed_Decision held)) = true /\
     Approval_SignalRef a = Decision_SignalRef (Governed_Decision g) /\
     (Attributed (D := D) (A := A) (K := K) sha256_hex ctl pol evs a \/ ArForeignAck a ∈ evs)).
Proof.
  intros Hd Ha Ho Hv Hin Hg.
  destruct (ar_run_inv sha256_hex ctl pol w evs Hd Ha Ho Hv) as [_ Hacks (hevs & [Hs _] & Hsub)].
  rewrite list.Forall_forall in Hs. rewrite list.Forall_forall in Hacks.
  destruct (Hs _ Hin) as [g [now Hj] | held a n1 n2 [now Hj] Haw Hack Hfp].
  - left. cbn in Hj. rewrite Hj in Hg.
    destruct (Evaluate_Ruling (Governed_Set g) pol now) as [| | | rec HP]; try sclash. eauto.
  - right. exists held, a, n1, n2, now. repeat split; try done. apply Hacks. by eapply Hsub.
Qed.

(** one resync of the request [name]: the informer delivers the stored object *)
Definition resync ctl (name : string) (ak : A * K) (t : Time * Time) : A * K :=
  match objects ak.2 !! name with
  | Some u => reconcileObj ctl u t.1 t.2 ak
  | None => ak
  end.

Definition processed_at (d : Time) (name : string) (u : Unstructured) : Prop :=
  u_name u = name /\ u_status u = inl (mkARStatus "Processed" d).

Lemma sweep_young ctl u name d now k :
  processed_at d name u -> Sub now d < retention ctl -> sweep ctl u now k = (k, inl false).
Proof.
  intros [_ Hs] Hy. unfold sweep. rewrite Hs. cbn. destruct (IsZero d); [done |].
  by rewrite (proj2 (Z.ltb_lt _ _) Hy).
Qed.

Lemma ack_for_processed u name d now : processed_at d name u -> ack_for u now = None.
Proof. intros [_ Hs]. unfold ack_for. rewrite Hs. by destruct (u_spec u). Qed.

(** a processed request is delivered without an effect, or deleted *)
Lemma resync_processed ctl name d u ak t :
  objects ak.2 !! name = Some u -> processed_at d name u ->
  (resync ctl name ak t).1 = ak.1 /\
  (objects (resync ctl name ak t).2 !! name = Some u \/
   retention ctl <= Sub t.1 d /\ objects (resync ctl name ak t).2 !! name = None) .
Proof.
  intros Hl Hp. unfold resync. rewrite Hl. unfold reconcileObj.
  destruct (Z.lt_ge_cases (Sub t.1 d) (retention ctl)) as [Hy | Hold].
  { rewrite (sweep_young _ _ _ _ _ _ Hp Hy), reconcile_ack, (ack_for_processed _ _ _ _ Hp). split; [done | by left]. }
  destruct (sweep ctl u t.1 ak.2) as [k' r] eqn:Es.
  assert (objects k' !! name = Some u \/ objects k' !! name = None) as Hk.
  { destruct Hp as [Hn Hst]. unfold sweep in Es. rewrite Hst in Es. cbn in Es.
    destruct (IsZero d); [simplify_eq; by left |]. destruct (Sub t.1 d <? retention ctl); [simplify_eq; by left |].
    rewrite Hn in Es. destruct (cl_Delete name ak.2) as [k1 [e |]] eqn:Ec; [apply delete_err in Ec | apply delete_ok in Ec].
    - assert (k' = k1) as -> by (by destruct (IsNotFound e); simplify_eq/=).
      destruct Ec as [[-> _] | [-> _]]; [by left | right; apply lookup_delete_eq].
    - simplify_eq. destruct Ec as [-> _]. right. apply lookup_delete_eq. }
  destruct r as [[|] | e]; cbn [fst snd].
  - split; [done |]. destruct Hk; auto.
  - rewrite reconcile_ack, (ack_for_processed _ _ _ _ Hp). split; [done |]. destruct Hk; auto.
  - split; [done |]. destruct Hk; auto.
Qed.

Lemma resyncs_processed ctl name d u ticks ak :
  objects ak.2 !! name = Some u -> processed_at d name u ->
  (fold_left (resync ctl name) ticks ak).1 = ak.1 /\
  (objects (fold_left (resync ctl name) ticks ak).2 !! name = Some u \/
   (exists t, t ∈ ticks /\ retention ctl <= Sub t.1 d) /\ objects (fold_left (resync ctl name) ticks ak).2 !! name = None).
Proof.
  intros Hl Hp. induction ticks as [| t ticks IH] using rev_ind; [split; [done | by left] |].
  rewrite fold_left_app. cbn [fold_left]. set (ak1 := fold_left (resync ctl name) ticks ak) in *.
  destruct IH as [E [Hu | [(t' & Hin & Ht) Hnone]]].
  - destruct (resync_processed ctl name d u ak1 t Hu Hp) as [E1 [Hk | [Ho Hk]]];
      (split; [congruence |]); [by left | right].
    split; [| done]. exists t. split; [apply elem_of_app; right; by left | exact Ho].
  - assert (resync ctl name ak1 t = ak1) as -> by (unfold resync; by rewrite Hnone).
    split; [done |]. right. split; [| done]. exists t'. split; [apply elem_of_app; by left | done].
Qed.

(** A decided request is acked once and then rests: the delivery of an approved,
    stamped request that is not processed publishes exactly its ack, and when the
    status patch succeeds, no later resync publishes anything, and the request stays
    as it is until a resync comes [Retention] after it was marked; such a resync,
    when its deletion succeeds, removes it. *)
Theorem decided_request_acked_once ctl name u ack now now' (a a1 : A) k k1 ticks :
  objects k !! name = Some u -> u_name u = name -> ack_for u now = Some ack ->
  publish "thump.approvals" ack a = (a1, None) ->
  cl_PatchStatus name (mkARStatus "Processed" (rfc3339 now')) k = (k1, None) ->
  let ak1 := resync ctl name (a, k) (now, now') in
  let ak2 := fold_left (resync ctl name) ticks ak1 in
  on_subject "thump.approvals" ak1.1 = on_subject "thump.approvals" a ++ [ack] /\
  ak2.1 = ak1.1 /\
  (Forall (fun t => Sub t.1 (rfc3339 now') < retention ctl) ticks ->
     objects ak2.2 !! name = Some (with_status (mkARStatus "Processed" (rfc3339 now')) u)) /\
  (forall t k3, objects ak2.2 !! name <> None -> rfc3339 now' <> 0 -> retention ctl <= Sub t.1 (rfc3339 now') ->
     cl_Delete name ak2.2 = (k3, None) -> objects (resync ctl name ak2 t).2 !! name = None).
Proof.
  intros Hl Hn Hack Hp Hst ak1 ak2.
  assert (ak1 = (a1, k1)) as E1.
  { subst ak1. unfold resync. cbn [fst snd]. rewrite Hl. unfold reconcileObj. cbn [fst snd].
    assert (sweep ctl u now k = (k, inl false)) as ->.
    { unfold sweep. revert Hack. unfold ack_for. destruct (u_spec u); [| done]. destruct (u_status u) as [s |]; [| done].
      destruct (ARStatus_Phase s <>s "Processed"); [done |]. done. }
    cbn [fst snd]. rewrite reconcile_ack, Hack. cbn [fst snd]. rewrite Hp. unfold markProcessed. by rewrite Hn, Hst. }
  destruct (status_ok _ _ _ _ Hst) as (u0 & Hl0 & [Hob _]). rewrite Hl in Hl0. injection Hl0 as <-.
  set (u1 := with_status (mkARStatus "Processed" (rfc3339 now')) u) in *.
  assert (objects ak1.2 !! name = Some u1) as Hu1.
  { rewrite E1. cbn. rewrite Hob. change (u_name u1) with (u_name u). rewrite Hn. apply lookup_insert_eq. }
  assert (processed_at (rfc3339 now') name u1) as Hpr by done.
  destruct (resyncs_processed ctl name _ u1 ticks ak1 Hu1 Hpr) as [E2 Hob2]. fold ak2 in E2, Hob2.
  split; [rewrite E1; by apply on_subject_ok |]. split; [exact E2 |]. split.
  - intros Hyoung. destruct Hob2 as [Ho | [(t & Hin & Ht) _]]; [done |].
    rewrite list.Forall_forall in Hyoung. specialize (Hyoung _ Hin). cbn in Hyoung. lia.
  - intros t k3 Hsome Hz Hold Hdel. destruct Hob2 as [Ho | [_ Ho]]; [| done].
    unfold resync. rewrite Ho. unfold reconcileObj, sweep. destruct Hpr as [Hn1 ->]. cbn.
    rewrite (proj2 (Z.eqb_neq _ _) Hz : IsZero (rfc3339 now') = false). rewrite (proj2 (Z.ltb_ge _ _) Hold).
    change (u_name u1) with (u_name u). rewrite Hn, Hdel. cbn. apply delete_ok in Hdel as [-> _]. apply lookup_delete_eq.
Qed.

(** A fingerprint held again within the retention of its processed request
    cannot be approved through one: [Create] reports success without making a
    request, and when a person then approves the object that bears its name, the
    delivery of the patched object publishes nothing. *)
Theorem second_hold_has_no_request (sha256_hex : string -> string) ctl held (k k1 k2 : K) u d r user now now' (a : A) :
  let name := approvalRequestName sha256_hex (Decision_SignalRef (Governed_Decision held)) in
  objects k !! name = Some u -> processed_at d name u ->
  Create sha256_hex ctl held k = (k1, r) ->
  cl_Update user name "approve" k1 = (k2, None) -> Sub now d < retention ctl ->
  objects k1 = objects k /\
  exists u2, objects k2 !! name = Some u2 /\ reconcileObj ctl u2 now now' (a, k2) = (a, k2).
Proof.
  intros name Hl [Hn Hs] Hc Hu Hy. destruct (Create_present _ _ _ _ _ _ _ Hl Hc) as [Ho _]. split; [done |].
  destruct (update_ok _ _ _ _ _ Hu) as (_ & _ & u0 & Hl0 & [Hob _]). rewrite Ho, Hl in Hl0. injection Hl0 as <-.
  exists (patched user "approve" u). split; [rewrite Hob; cbn; rewrite Hn; apply lookup_insert_eq |].
  assert (processed_at d name (patched user "approve" u)) as Hp by done.
  unfold reconcileObj. cbn [fst snd]. rewrite (sweep_young _ _ _ _ _ _ Hp Hy). by rewrite reconcile_ack, (ack_for_processed _ _ _ _ Hp).
Qed.

End claims.

(** ** Concrete runs *)

Definition demo_ctl : ApprovalRequestController := mkController "thump" 0.

(** any function names the objects; this one keeps the fingerprint readable *)
Definition demo_hash (s : string) : string := s.

Definition demo_env : Env (MemPub Governed) (MemPub Approval) MemCluster :=
  mkEnv (mkMemPub [] 0) (mkMemPub [] 0) (mkMemCluster ∅ [] []).

Definition demo_name : string := approvalRequestName demo_hash "slo_burn:acme".

Definition demo_run : list ar_event -> TransportState (Env (MemPub Governed) (MemPub Approval) MemCluster) :=
  ar_run demo_hash demo_ctl demo_policy (buildTransport demo_env).

(** a second set on the same fingerprint, with another action *)
Definition other_candidate : Candidate :=
  mkCandidate "c2" "acme-restart" (flit 1 2) (flit 1 2) false ConfidenceTerms_zero None BlastLow
    (Some (mkReversalPath "restore" "m" "t" true)) (Some (mkGovernanceLevel BandActReversible f0))
    1 ["k"%string].

Definition other_set : ProposalSet :=
  mkSet "acme-burn-accel-2" "slo_burn:acme/1" "slo_burn:acme" "acme-availability" None
    "service_failure" [] [] [] "tier-1" (Some (mkGateResult true true true true ""))
    [other_candidate] "c2" None (Some Status_zero).

Definition demo_ar_events : list ar_event :=
  [ArProposal weak_set 5; ArPatch "alice" demo_name "approve"; ArInformer 1 (Hour + 1) Hour; ArAck 0 8 8].

Definition demo_reissued : Governed :=
  reissue (ar_config demo_hash demo_ctl demo_policy : TransportConfig (Env (MemPub Governed) (MemPub Approval) MemCluster))
    (mkGoverned (Evaluate weak_set demo_policy 5) weak_set)
    (mkApproval "slo_burn:acme" "alice" (Hour + 1) "") 8 8.

Lemma approvals_are_attributed_witness :
  Decision_Approver (Governed_Decision demo_reissued) = "alice"%string /\
  ((exists now rec, Governed_Decision demo_reissued = Evaluate (Governed_Set demo_reissued) demo_policy now /\
      Permitted (Governed_Set demo_reissued) demo_policy now rec) \/
   (exists held a n1 n2 now,
     demo_reissued = reissue (ar_config (D := MemPub Governed) (A := MemPub Approval) (K := MemCluster)
                                demo_hash demo_ctl demo_policy) held a n1 n2 /\
     Governed_Decision held = Evaluate (Governed_Set demo_reissued) demo_policy now /\
     AwaitsApproval (Decision_Verdict (Governed_Decision held)) = true /\
     Approval_SignalRef a = Decision_SignalRef (Governed_Decision demo_reissued) /\
     (Attributed (D := MemPub Governed) (A := MemPub Approval) (K := MemCluster)
        demo_hash demo_ctl demo_policy demo_ar_events a \/ ArForeignAck a ∈ demo_ar_events))).
Proof.
  split; [reflexivity |].
  apply (approvals_are_attributed demo_hash demo_ctl demo_policy demo_env demo_ar_events demo_reissued);
    try reflexivity.
  apply list_elem_of_In. vm_compute. right. left. reflexivity.
Defined.

Definition approved_object : Unstructured :=
  patched "alice" "approve"
    (mkUnstructured demo_name "thump" ∅
       (inl (newApprovalRequestSpec (mkGoverned (Evaluate weak_set demo_policy 5) weak_set)))
       (inl ApprovalRequestStatus_zero)).

Lemma decided_request_acked_once_witness :
  let k := mkMemCluster {[ demo_name := approved_object ]} [approved_object] [] in
  let ak1 := resync demo_ctl demo_name (mkMemPub [] 0 : MemPub Approval, k) (Hour, Hour) in
  let ak2 := fold_left (resync demo_ctl demo_name) [(2 * Hour, 0); (3 * Hour, 0)] ak1 in
  on_subject "thump.approvals" ak2.1 = [mkApproval "slo_burn:acme" "alice" Hour ""] /\
  objects ak2.2 !! demo_name <> None /\
  objects (resync demo_ctl demo_name ak2 (25 * Hour, 0)).2 !! demo_name = None.
Proof.
  intros k ak1 ak2.
  set (k1 := (cl_PatchStatus demo_name (mkARStatus "Processed" (rfc3339 Hour)) k).1).
  set (k3 := (cl_Delete demo_name ak2.2).1).
  destruct (decided_request_acked_once demo_ctl demo_name approved_object
               (mkApproval "slo_burn:acme" "alice" Hour "") Hour Hour (mkMemPub [] 0)
               (mkMemPub [("thump.approvals"%string, mkApproval "slo_burn:acme" "alice" Hour "")] 0) k k1
               [(2 * Hour, 0); (3 * Hour, 0)]) as (H1 & H2 & H3 & H4); try reflexivity.
  assert (objects ak2.2 !! demo_name <> None) as Hsome.
  { assert (Forall (fun t : Time * Time => Sub t.1 (rfc3339 Hour) < retention demo_ctl) [(2 * Hour, 0); (3 * Hour, 0)]) as Hy
      by (repeat constructor; vm_compute; reflexivity).
    specialize (H3 Hy). intros Hn. assert (Some (with_status (mkARStatus "Processed" (rfc3339 Hour)) approved_object) = None)
      by exact (eq_trans (eq_sym H3) Hn). discriminate. }
  split; [| split; [exact Hsome |]].
  - transitivity (on_subject "thump.approvals" ak1.1); [by f_equal | exact H1].
  - apply (H4 (25 * Hour, 0) k3); [exact Hsome | vm_compute; discriminate | vm_compute; discriminate | reflexivity].
Defined.

Definition processed_object : Unstructured := with_status (mkARStatus "Processed" Hour) approved_object.

Lemma second_hold_has_no_request_witness :
  let k := mkMemCluster {[ demo_name := processed_object ]} [processed_object] [] in
  let held := mkGoverned (Evaluate other_set demo_policy 9) other_set in
  let k1 := (Create demo_hash demo_ctl held k).1 in
  let k2 := (cl_Update "bob" demo_name "approve" k1).1 in
  (Create demo_hash demo_ctl held k).2 = None /\
  exists u2, objects k2 !! demo_name = Some u2 /\
    reconcileObj demo_ctl u2 (2 * Hour) 0 (mkMemPub [] 0 : MemPub Approval, k2) = (mkMemPub [] 0, k2).
Proof.
  intros k held k1 k2. split; [reflexivity |].
  destruct (second_hold_has_no_request demo_hash demo_ctl held k k1 k2 processed_object Hour None "bob"
              (2 * Hour) 0 (mkMemPub [] 0 : MemPub Approval)) as [_ Hex]; [vm_compute; repeat split ..| exact Hex].
Defined.

(** two holds on one fingerprint before anybody looks: the request object shows the
    first action, its approval runs the second *)
Example approval_releases_unseen_action :
  let evs := [ArProposal weak_set 5; ArProposal other_set 6; ArPatch "alice" demo_name "approve";
              ArInformer 1 Hour Hour; ArAck 0 8 8] in
  let st := demo_run evs in
  option_map (fun u => match u_spec u with inl s => ARSpec_Action s | inr _ => "" end)
    (objects (cluster_of st) !! demo_name) = Some "acme-shed-load"%string /\
  map (fun g => (Decision_Verdict (Governed_Decision g), ContractRefFor (Governed_Set g) (Decision_CandidateRef (Governed_Decision g)),
                 Decision_Approver (Governed_Decision g)))
    (drop 2 (on_subject "thump.decisions" (Tr_world st))) = [(VerdictApproved, "acme-restart"%string, "alice"%string)].
Proof. vm_compute. split; reflexivity. Qed.

(** the status patch fails once: at the next resync the old approval is acked again,
    and releases a hold that came in between and that nobody approved *)
Example old_approval_releases_new_hold :
  let w := mkEnv (mkMemPub [] 0) (mkMemPub [] 0) (mkMemCluster ∅ [] [false; false; true]) in
  let st := ar_run demo_hash demo_ctl demo_policy (buildTransport w)
              [ArProposal weak_set 5; ArPatch "alice" demo_name "approve"; ArInformer 1 Hour Hour; ArAck 0 8 8;
               ArProposal other_set 9; ArInformer 1 (2 * Hour) (2 * Hour); ArAck 1 10 10] in
  map (fun g => (Decision_Verdict (Governed_Decision g), ContractRefFor (Governed_Set g) (Decision_CandidateRef (Governed_Decision g)),
                 Decision_Approver (Governed_Decision g)))
    (drop 3 (on_subject "thump.decisions" (Tr_world st))) = [(VerdictApproved, "acme-restart"%string, "alice"%string)].
Proof. vm_compute. reflexivity. Qed.
