(* ===== verification/Decimal.v ===== *)
(** * Decimal numerals and their order

    What the components rely on about printed integers: [strconv.ParseInt], its
    round trip with [%d] and [%0wd], and that zero-padded numerals of one width
    sort by value. *)

From Stdlib Require Import Ascii.
From S2P Require Import Prelude GoTime.
Local Open Scope Z_scope.

(** ** strconv.ParseInt(s, 10, 64) and strings.Cut / strings.CutSuffix *)

Definition digit (c : ascii) : option Z :=
  let n := Z.of_N (N_of_ascii c) in
  if (48 <=? n) && (n <=? 57) then Some (n - 48) else None.

Fixpoint digits_val (acc : Z) (s : string) : option Z :=
  match s with
  | EmptyString => Some acc
  | String c s' => match digit c with Some d => digits_val (acc * 10 + d) s' | None => None end
  end.

(** an optional sign and at least one digit, with no bound on the value *)
Definition parse_int (s : string) : option Z :=
  match s with
  | EmptyString => None
  | String c s' =>
      if Ascii.eqb c "-" then if s' =s "" then None else Z.opp <$> digits_val 0 s'
      else if Ascii.eqb c "+" then if s' =s "" then None else digits_val 0 s'
      else digits_val 0 s
  end.

Definition in_int64 (z : Z) : bool := (int64_min <=? z) && (z <=? int64_max).

Definition ParseInt (s : string) : option Z :=
  match parse_int s with
  | Some z => if in_int64 z then Some z else None
  | None => None
  end.

(** [strings.Cut] at the one-byte separator [sep] *)
Fixpoint strings_Cut (s : string) (sep : ascii) : option (string * string) :=
  match s with
  | EmptyString => None
  | String c s' =>
      if Ascii.eqb c sep then Some (EmptyString, s')
      else match strings_Cut s' sep with
           | Some (a, b) => Some (String c a, b)
           | None => None
           end
  end.

Definition strings_CutSuffix (s suffix : string) : option string :=
  let n := (String.length s - String.length suffix)%nat in
  if (String.length suffix <=? String.length s)%nat && (String.substring n (String.length suffix) s =s suffix)
  then Some (String.substring 0 n s) else None.

(** [sort.Strings] compares byte by byte *)
Definition str_lt (a b : string) : Prop := String.compare a b = Lt.

(** ** Digits of a printed number *)

Definition all_digits (s : string) : Prop := forall acc, exists v, digits_val acc s = Some v.

Lemma digit_pretty n : (n < 10)%N -> digit (pretty_N_char n) = Some (Z.of_N n).
Proof.
  intros H. destruct n as [| p]; [done |].
  do 4 (destruct p as [p | p |]; try done; try lia).
Qed.

(** [k] digits are put in front of the accumulator string, and they spell [x] *)
Lemma pretty_N_go_digits (x : N) :
  exists k : nat,
    (forall s, String.length (pretty_N_go x s) = (k + String.length s)%nat) /\
    (forall acc s, digits_val acc (pretty_N_go x s) = digits_val (acc * 10 ^ Z.of_nat k + Z.of_N x) s) /\
    Z.of_N x < 10 ^ Z.of_nat k /\ (0 < Z.of_N x -> 10 ^ (Z.of_nat k - 1) <= Z.of_N x).
Proof.
  induction (N.lt_wf_0 x) as [x _ IH].
  destruct (decide (x = 0)%N) as [-> | Hx].
  - exists 0%nat. split; [done |]. split; [| split; [done | lia]].
    intros acc s. rewrite pretty_N_go_0. f_equal. change (Z.of_nat 0) with 0. rewrite Z.pow_0_r. lia.
  - destruct (IH (x `div` 10)%N ltac:(by apply N.div_lt; lia)) as (k & Hlen & Hval & Hub & Hlb).
    assert (Hd : Z.of_N x = 10 * Z.of_N (x `div` 10) + Z.of_N (x `mod` 10)).
    { pose proof (N.div_mod x 10 ltac:(done)). lia. }
    assert (Hm : (x `mod` 10 < 10)%N) by (by apply N.mod_lt).
    assert (Hp : 10 ^ Z.of_nat (S k) = 10 * 10 ^ Z.of_nat k) by (rewrite Nat2Z.inj_succ, Z.pow_succ_r; lia).
    exists (S k). split; [| split; [| split]].
    + intros s. rewrite pretty_N_go_step by lia. rewrite Hlen. cbn. lia.
    + intros acc s. rewrite pretty_N_go_step by lia. rewrite Hval. cbn [digits_val].
      rewrite digit_pretty by done. f_equal. lia.
    + lia.
    + intros _. replace (Z.of_nat (S k) - 1) with (Z.of_nat k) by lia.
      destruct (decide (x `div` 10 = 0)%N) as [He | He].
      * destruct k; [cbn; lia |]. exfalso.
        (* a zero quotient contributes no digit *)
        specialize (Hlen EmptyString). rewrite He, pretty_N_go_0 in Hlen. cbn in Hlen. lia.
      * specialize (Hlb ltac:(lia)).
        destruct k; [cbn in Hub; lia |].
        replace (Z.of_nat (S k)) with (Z.succ (Z.of_nat (S k) - 1)) by lia.
        rewrite Z.pow_succ_r by lia. pose proof (N2Z.is_nonneg (x `mod` 10)) as Hn.
        rewrite Hd. apply Z.le_trans with (10 * Z.of_N (x `div` 10)); [| clear - Hn; lia].
        apply Z.mul_le_mono_nonneg_l; [done | exact Hlb].
Qed.

Lemma pretty_N_digits (x : N) :
  exists k : nat,
    String.length (pretty x) = k /\ (1 <= k)%nat /\
    (forall acc s, digits_val acc (pretty x +:+ s) = digits_val (acc * 10 ^ Z.of_nat k + Z.of_N x) s) /\
    Z.of_N x < 10 ^ Z.of_nat k /\ (0 < Z.of_N x -> 10 ^ (Z.of_nat k - 1) <= Z.of_N x).
Proof.
  assert (Happ : forall (y : N) t s, pretty_N_go y t +:+ s = pretty_N_go y (t +:+ s)).
  { intros y. induction (N.lt_wf_0 y) as [y _ IH]. intros t s.
    destruct (decide (y = 0)%N) as [-> | Hy]; [by rewrite !pretty_N_go_0 |].
    rewrite !(pretty_N_go_step y) by lia. by rewrite IH by (apply N.div_lt; lia). }
  unfold pretty, pretty_N. case_decide as H0.
  - subst x. exists 1%nat. split; [done |]. split; [lia |]. split; [| by split].
    intros acc s. change ("0" +:+ s) with (String "0" s). cbn [digits_val].
    change (digit "0") with (Some 0). done.
  - destruct (pretty_N_go_digits x) as (k & Hlen & Hval & Hub & Hlb).
    exists k. split; [rewrite Hlen; cbn; lia |]. split; [destruct k; [cbn in Hub; lia | lia] |].
    split; [| by split]. intros acc s. by rewrite Happ, Hval.
Qed.

Lemma string_app_cons c (a b : string) : String c a +:+ b = String c (a +:+ b).
Proof. done. Qed.

Lemma digits_val_app a b acc :
  digits_val acc (a +:+ b) = match digits_val acc a with Some v => digits_val v b | None => None end.
Proof.
  revert acc. induction a as [| c a IH]; intros acc; [done |]. rewrite string_app_cons. cbn [digits_val].
  destruct (digit c); [apply IH | done].
Qed.

Lemma string_app_nil_r s : s +:+ "" = s.
Proof. induction s as [| c s IH]; [done |]. by rewrite string_app_cons, IH. Qed.

Lemma string_app_assoc (a b c : string) : (a +:+ b) +:+ c = a +:+ (b +:+ c).
Proof. induction a as [| x a IH]; [done |]. by rewrite !string_app_cons, IH. Qed.

Lemma string_length_app (a b : string) : String.length (a +:+ b) = (String.length a + String.length b)%nat.
Proof. induction a as [| x a IH]; [done |]. rewrite string_app_cons. cbn. by rewrite IH. Qed.

(** the sign of a printed number *)
Lemma fmt_d_nonneg z : 0 <= z -> fmt_d z = pretty (Z.to_N z).
Proof. intros Hz. unfold fmt_d, pretty, pretty_Z. destruct z; [done | done | lia]. Qed.

Lemma fmt_d_neg z : z < 0 -> fmt_d z = String "-" (pretty (Z.to_N (- z))).
Proof. intros Hz. unfold fmt_d, pretty, pretty_Z. destruct z; [lia | lia | done]. Qed.

(** a digit is neither sign nor separator *)
Lemma pretty_N_head (x : N) : exists c s, pretty x = String c s /\ is_Some (digit c).
Proof.
  destruct (pretty_N_digits x) as (k & Hlen & Hk & Hval & _).
  destruct (pretty x) as [| c s]; [cbn in Hlen; lia |]. exists c, s. split; [done |].
  specialize (Hval 0 ""%string). rewrite string_app_nil_r in Hval. cbn [digits_val] in Hval.
  by destruct (digit c).
Qed.

Lemma digit_not_sign c : is_Some (digit c) -> Ascii.eqb c "-" = false /\ Ascii.eqb c "+" = false.
Proof.
  intros Hd. split; apply Ascii.eqb_neq; intros ->; destruct Hd; discriminate.
Qed.

Lemma parse_int_digits s v :
  (exists c s', s = String c s' /\ is_Some (digit c)) -> digits_val 0 s = Some v -> parse_int s = Some v.
Proof.
  intros (c & s' & -> & Hd) Hv. destruct (digit_not_sign c Hd) as [H1 H2].
  cbn [parse_int]. by rewrite H1, H2.
Qed.

Lemma digits_val_pretty (x : N) acc :
  exists k : nat, digits_val acc (pretty x) = Some (acc * 10 ^ Z.of_nat k + Z.of_N x).
Proof.
  destruct (pretty_N_digits x) as (k & _ & _ & Hval & _).
  exists k. specialize (Hval acc ""%string). by rewrite string_app_nil_r in Hval.
Qed.

(** parsing what was printed *)
Lemma parse_int_fmt_d z : parse_int (fmt_d z) = Some z.
Proof.
  destruct (decide (0 <= z)) as [Hz | Hz].
  - rewrite fmt_d_nonneg by done. apply parse_int_digits; [apply pretty_N_head |].
    destruct (digits_val_pretty (Z.to_N z) 0) as (k & ->). f_equal. lia.
  - rewrite fmt_d_neg by lia. cbn [parse_int].
    destruct (pretty_N_head (Z.to_N (- z))) as (c & s & He & Hd).
    change (Ascii.eqb "-" "-") with true. cbv iota.
    destruct (digits_val_pretty (Z.to_N (- z)) 0) as (k & Hv).
    rewrite Hv. rewrite He. cbn. f_equal. lia.
Qed.

Lemma in_int64_spec z : in_int64 z = true <-> int64_min <= z <= int64_max.
Proof. unfold in_int64. lia. Qed.

Lemma ParseInt_fmt_d z : int64_min <= z <= int64_max -> ParseInt (fmt_d z) = Some z.
Proof. intros Hz. unfold ParseInt. rewrite parse_int_fmt_d. by rewrite (proj2 (in_int64_spec z) Hz). Qed.

(** ** Zero padding *)

Lemma zeros_val n acc s : digits_val acc (string_repeat "0" n +:+ s) = digits_val (acc * 10 ^ Z.of_nat n) s.
Proof.
  revert acc. induction n as [| n IH]; intros acc; [by rewrite Z.pow_0_r, Z.mul_1_r |].
  change (string_repeat "0" (S n) +:+ s) with (String "0" (string_repeat "0" n +:+ s)).
  change (digits_val acc (String "0" (string_repeat "0" n +:+ s)))
    with (digits_val (acc * 10 + 0) (string_repeat "0" n +:+ s)).
  rewrite IH. f_equal.
  rewrite Nat2Z.inj_succ, Z.pow_succ_r by lia. lia.
Qed.

Lemma zero_pad_val w z acc :
  0 <= z -> exists k : nat, digits_val acc (zero_pad w (fmt_d z)) = Some (acc * 10 ^ Z.of_nat k + z).
Proof.
  intros Hz. unfold zero_pad. rewrite fmt_d_nonneg by done. rewrite zeros_val.
  destruct (digits_val_pretty (Z.to_N z) (acc * 10 ^ Z.of_nat (w - String.length (pretty (Z.to_N z))))) as (k & ->).
  exists (w - String.length (pretty (Z.to_N z)) + k)%nat.
  rewrite Nat2Z.inj_add, Z.pow_add_r by lia. f_equal. lia.
Qed.

Lemma zero_pad_head w z : 0 <= z -> exists c s, zero_pad w (fmt_d z) = String c s /\ is_Some (digit c).
Proof.
  intros Hz. unfold zero_pad. rewrite fmt_d_nonneg by done.
  destruct (w - _)%nat as [| n]; cbn; [apply pretty_N_head |]. exists "0"%char. eexists. split; [done |].
  by exists 0.
Qed.

Lemma parse_int_zero_pad w z : 0 <= z -> parse_int (zero_pad w (fmt_d z)) = Some z.
Proof.
  intros Hz. apply parse_int_digits; [by apply zero_pad_head |].
  destruct (zero_pad_val w z 0 Hz) as (k & ->). f_equal.
Qed.

Lemma string_repeat_length c n : String.length (string_repeat (String c "") n) = n.
Proof. induction n as [| n IH]; [done |]. cbn [string_repeat]. rewrite string_length_app, IH. done. Qed.

(** a number of at most [w] digits is padded to exactly [w] *)
Lemma zero_pad_length w z : 0 <= z < 10 ^ Z.of_nat w -> (1 <= w)%nat -> String.length (zero_pad w (fmt_d z)) = w.
Proof.
  intros [Hz Hub] Hw. unfold zero_pad. rewrite string_length_app, string_repeat_length.
  rewrite fmt_d_nonneg by done. destruct (decide (z = 0)) as [-> | Hnz]; [change (String.length (pretty (Z.to_N 0))) with 1%nat; lia |].
  destruct (pretty_N_digits (Z.to_N z)) as (k & -> & Hk & _ & _ & Hlb).
  rewrite Z2N.id in Hlb by done. specialize (Hlb ltac:(lia)).
  assert (Z.of_nat k - 1 < Z.of_nat w); [| lia].
  apply (Z.pow_lt_mono_r_iff 10); lia.
Qed.

(** ** Numerals of one width sort by value *)

Lemma digit_range c d : digit c = Some d -> 0 <= d <= 9 /\ Z.of_N (N_of_ascii c) = d + 48.
Proof. unfold digit. case_match; [| done]. intros. simplify_eq. lia. Qed.

Lemma digits_val_bound s acc v :
  digits_val acc s = Some v ->
  acc * 10 ^ Z.of_nat (String.length s) <= v < (acc + 1) * 10 ^ Z.of_nat (String.length s).
Proof.
  revert acc. induction s as [| c s IH]; intros acc.
  - intros [= <-]. cbn. lia.
  - cbn [digits_val]. destruct (digit c) as [d |] eqn:Hd; [| done]. intros Hv%IH.
    apply digit_range in Hd as [Hd _].
    cbn [String.length]. rewrite Nat2Z.inj_succ, Z.pow_succ_r by lia. nia.
Qed.

(** equally long numerals, whatever follows them, compare as their values *)
Lemma digits_compare a b x y acc s t :
  digits_val acc a = Some x -> digits_val acc b = Some y -> String.length a = String.length b ->
  x < y -> str_lt (a +:+ s) (b +:+ t).
Proof.
  unfold str_lt. revert b acc.
  induction a as [| c a IH]; intros [| c' b] acc Ha Hb Hlen Hlt; try discriminate.
  { cbn in Ha, Hb. simplify_eq. lia. }
  rewrite !string_app_cons. cbn [String.compare]. cbn [digits_val] in Ha, Hb.
  destruct (digit c) as [d |] eqn:Hd; [| done]. destruct (digit c') as [d' |] eqn:Hd'; [| done].
  apply digit_range in Hd as [Hd Hn]. apply digit_range in Hd' as [Hd' Hn'].
  unfold Ascii.compare. injection Hlen as Hlen.
  destruct (N.compare_spec (N_of_ascii c) (N_of_ascii c')) as [He | He | He]; [| done |].
  - assert (d' = d) as -> by lia. by eapply IH.
  - exfalso. apply digits_val_bound in Ha, Hb. rewrite Hlen in Ha.
    assert (acc * 10 + d' + 1 <= acc * 10 + d) by lia.
    assert (0 < 10 ^ Z.of_nat (String.length b)) by (apply Z.pow_pos_nonneg; lia). nia.
Qed.

(** zero-padded numbers sort numerically *)
Lemma zero_pad_lt w x y s t :
  (1 <= w)%nat -> 0 <= x < y -> y < 10 ^ Z.of_nat w ->
  str_lt (zero_pad w (fmt_d x) +:+ s) (zero_pad w (fmt_d y) +:+ t).
Proof.
  intros Hw Hx Hy.
  destruct (zero_pad_val w x 0 ltac:(lia)) as (k & Hvx). destruct (zero_pad_val w y 0 ltac:(lia)) as (k' & Hvy).
  eapply digits_compare; [exact Hvx | exact Hvy | rewrite !zero_pad_length by lia; done | lia].
Qed.

(** ** Cut *)

Lemma strings_Cut_app a b sep :
  (forall c, c ∈ String.list_ascii_of_string a -> Ascii.eqb c sep = false) ->
  strings_Cut (a +:+ String sep b) sep = Some (a, b).
Proof.
  induction a as [| c a IH]; intros Ha.
  - change ("" +:+ String sep b) with (String sep b). cbn. by rewrite Ascii.eqb_refl.
  - rewrite string_app_cons. cbn [strings_Cut]. rewrite (Ha c) by (cbn; set_solver).
    rewrite IH; [done |]. intros c' Hc'. apply Ha. cbn. set_solver.
Qed.

Lemma digits_no_sep s acc v :
  digits_val acc s = Some v -> forall c, c ∈ String.list_ascii_of_string s -> is_Some (digit c).
Proof.
  revert acc. induction s as [| c s IH]; intros acc; cbn; [set_solver |].
  destruct (digit c) eqn:Hd; [| done]. intros Hv c' [-> | Hc']%elem_of_cons; [done | by eapply IH].
Qed.

Lemma substring_app_l a b : String.substring 0 (String.length a) (a +:+ b) = a.
Proof. induction a as [| c a IH]; [by destruct b |]. rewrite string_app_cons. cbn. by rewrite IH. Qed.

Lemma substring_app_r a b : String.substring (String.length a) (String.length b) (a +:+ b) = b.
Proof.
  induction a as [| c a IH]; [| rewrite string_app_cons; cbn; exact IH].
  change ("" +:+ b) with b. rewrite <- (string_app_nil_r b) at 2. apply substring_app_l.
Qed.

Lemma strings_CutSuffix_app s suf : strings_CutSuffix (s +:+ suf) suf = Some s.
Proof.
  unfold strings_CutSuffix. rewrite string_length_app, Nat.add_sub.
  rewrite (proj2 (Nat.leb_le _ _)) by lia. rewrite substring_app_r, substring_app_l.
  by rewrite String.eqb_refl.
Qed.
