(* ===== verification/Strings.v ===== *)
(** * Go's string functions

    The searches and splits of packages [strings] and [bytes] the components use;
    a string is its bytes. *)

From Stdlib Require Import Ascii.
From S2P Require Import Prelude GoTime Decimal.
Local Open Scope Z_scope.

Definition strings_CutPrefix (s prefix : string) : option string :=
  if String.prefix prefix s then Some (String.substring (String.length prefix) (String.length s - String.length prefix) s) else None.

(** [bytes.SplitSeq]: [skip] bytes of a separator are still to be dropped and [acc]
    is the piece read so far, in reverse *)
Fixpoint split_seq (sep : string) (skip : nat) (acc : list ascii) (s : string) : list string :=
  match s with
  | EmptyString => [String.string_of_list_ascii (reverse acc)]
  | String c s' =>
      match skip with
      | S k => split_seq sep k acc s'
      | O => if String.prefix sep s
             then String.string_of_list_ascii (reverse acc) :: split_seq sep (String.length sep - 1) [] s'
             else split_seq sep 0 (c :: acc) s'
      end
  end.

Definition bytes_Split (s sep : string) : list string := split_seq sep 0 [] s.

Definition newline : string := String "010"%char EmptyString.

(** [errors.Join] *)
Definition errors_Join (errs : list error) : option error :=
  match errs with
  | [] => None
  | _ => Some (mkError (String.concat newline (map err_text errs)) (flat_map err_chain errs))
  end.

(** [strings.Contains] *)
Fixpoint strings_Contains (s sub : string) : bool :=
  String.prefix sub s || match s with String _ s' => strings_Contains s' sub | EmptyString => false end.

(** [strings.LastIndex] of a one-byte separator, as the parts around it *)
Fixpoint cut_last (s : string) (sep : ascii) : option (string * string) :=
  match s with
  | EmptyString => None
  | String c s' =>
      match cut_last s' sep with
      | Some (a, b) => Some (String c a, b)
      | None => if Ascii.eqb c sep then Some (EmptyString, s') else None
      end
  end.

(** [strings.TrimSuffix] *)
Definition strings_TrimSuffix (s suffix : string) : string :=
  match strings_CutSuffix s suffix with Some p => p | None => s end.

(** ** Lemmas *)

Lemma prefix_app p s : String.prefix p (p +:+ s) = true.
Proof. apply String.prefix_correct, substring_app_l. Qed.

Lemma strings_CutPrefix_app p s : strings_CutPrefix (p +:+ s) p = Some s.
Proof.
  unfold strings_CutPrefix. rewrite prefix_app, string_length_app.
  replace (String.length p + String.length s - String.length p)%nat with (String.length s) by lia. by rewrite substring_app_r.
Qed.

Fixpoint no_char (c : ascii) (s : string) : bool :=
  match s with EmptyString => true | String d s' => negb (Ascii.eqb d c) && no_char c s' end.

Lemma cut_last_none s sep : no_char sep s = true -> cut_last s sep = None.
Proof.
  induction s as [| c s IH]; [done |]. cbn. rewrite andb_true_iff, negb_true_iff. intros [Hc Hs]. by rewrite (IH Hs), Hc.
Qed.

Lemma cut_last_app a b sep : no_char sep b = true -> cut_last (a +:+ String sep b) sep = Some (a, b).
Proof.
  intros Hb. induction a as [| c a IH].
  - change ("" +:+ ?x) with x. cbn [cut_last]. by rewrite (cut_last_none _ _ Hb), Ascii.eqb_refl.
  - rewrite string_app_cons. cbn [cut_last]. by rewrite IH.
Qed.

(** splitting at a byte: the pieces of newline-terminated lines *)
Lemma split_seq_char (c : ascii) (l : string) acc rest :
  no_char c l = true ->
  split_seq (String c "") 0 acc (l +:+ String c rest) = String.string_of_list_ascii (reverse acc ++ String.list_ascii_of_string l) :: split_seq (String c "") 0 [] rest.
Proof.
  revert acc. induction l as [| d l IH]; intros acc Hl.
  - change ("" +:+ ?x) with x. cbn [split_seq String.prefix]. destruct (Ascii.ascii_dec c c); [| done]. 
    destruct rest; cbn [String.prefix]; by rewrite app_nil_r.
  - cbn [no_char] in Hl. apply andb_true_iff in Hl as [Hd Hl]. apply negb_true_iff, Ascii.eqb_neq in Hd.
    rewrite string_app_cons. cbn [split_seq String.prefix]. destruct (Ascii.ascii_dec c d) as [E | _]; [by subst |].
    rewrite (IH (d :: acc) Hl). f_equal. rewrite reverse_cons, <- app_assoc. done.
Qed.

Lemma split_seq_end (c : ascii) (l : string) acc :
  no_char c l = true -> split_seq (String c "") 0 acc l = [String.string_of_list_ascii (reverse acc ++ String.list_ascii_of_string l)].
Proof.
  revert acc. induction l as [| d l IH]; intros acc Hl; [cbn; by rewrite app_nil_r |].
  cbn [no_char] in Hl. apply andb_true_iff in Hl as [Hd Hl]. apply negb_true_iff, Ascii.eqb_neq in Hd.
  cbn [split_seq String.prefix]. destruct (Ascii.ascii_dec c d) as [E | _]; [by subst |].
  rewrite (IH (d :: acc) Hl), reverse_cons, <- app_assoc. done.
Qed.

(** numbers hold only digits and a sign *)
Lemma digits_no_char (c : ascii) (s : string) : digit c = None -> forall acc v, digits_val acc s = Some v -> no_char c s = true.
Proof.
  intros Hc. induction s as [| d s IH]; intros acc v; [done |]. cbn [digits_val no_char]. destruct (digit d) eqn:Ed; [| done].
  intros Hv. rewrite (IH _ _ Hv), andb_true_r. apply negb_true_iff, Ascii.eqb_neq. intros ->. congruence.
Qed.

Lemma fmt_d_no_char (c : ascii) z : digit c = None -> Ascii.eqb "-" c = false -> no_char c (fmt_d z) = true.
Proof.
  intros Hc Hm. destruct (decide (0 <= z)) as [Hz | Hz]; [rewrite fmt_d_nonneg by done | rewrite fmt_d_neg by lia; cbn [no_char]; rewrite Hm];
    match goal with |- context [pretty ?n] => destruct (digits_val_pretty n 0) as [k E] end; by apply (digits_no_char c _ Hc) in E.
Qed.

Lemma parse_int_no_char (c : ascii) s z :
  digit c = None -> Ascii.eqb "-" c = false -> Ascii.eqb "+" c = false -> parse_int s = Some z -> no_char c s = true.
Proof.
  intros Hc Hm Hp. destruct s as [| d s]; [done |]. cbn [parse_int no_char]. destruct (Ascii.eqb_spec d "-") as [-> |].
  - rewrite Hm. destruct (s =s ""); [done |]. destruct (digits_val 0 s) eqn:E; [| done]. intros _. by apply (digits_no_char c _ Hc) in E.
  - destruct (Ascii.eqb_spec d "+") as [-> |].
    + rewrite Hp. destruct (s =s ""); [done |]. intros E. by apply (digits_no_char c _ Hc) in E.
    + intros E. by apply (digits_no_char c _ Hc) in E.
Qed.

Lemma ParseInt_no_char (c : ascii) s z :
  digit c = None -> Ascii.eqb "-" c = false -> Ascii.eqb "+" c = false -> ParseInt s = Some z -> no_char c s = true.
Proof.
  intros Hc Hm Hp. unfold ParseInt. destruct (parse_int s) eqn:E; [| done]. intros _. by apply (parse_int_no_char c _ _ Hc Hm Hp) in E.
Qed.

Lemma no_char_app (c : ascii) a b : no_char c (a +:+ b) = no_char c a && no_char c b.
Proof. induction a as [| d a IH]; [done |]. rewrite string_app_cons. cbn [no_char]. by rewrite IH, andb_assoc. Qed.

Lemma prefix_split p s : String.prefix p s = true -> exists r, s = p +:+ r.
Proof.
  revert s. induction p as [| c p IH]; intros s; [by exists s |]. destruct s as [| d s]; [done |]. cbn [String.prefix].
  destruct (Ascii.ascii_dec c d) as [-> |]; [| done]. intros [r ->]%IH. by exists r.
Qed.

(** what is cut off is a suffix *)
Lemma substring_split n s : (n <= String.length s)%nat -> s = String.substring 0 n s +:+ String.substring n (String.length s - n) s.
Proof.
  revert n. induction s as [| c s IH]; intros n Hn; [by destruct n |]. destruct n as [| n].
  - cbn [String.substring String.length Nat.sub]. change ("" +:+ ?x) with x. f_equal. specialize (IH 0%nat ltac:(lia)).
    rewrite Nat.sub_0_r in IH. rewrite IH at 1. by destruct s.
  - cbn [String.length] in *. cbn [String.substring Nat.sub]. rewrite string_app_cons. f_equal. apply IH. lia.
Qed.

Lemma CutSuffix_split s suf p : strings_CutSuffix s suf = Some p -> s = p +:+ suf.
Proof.
  unfold strings_CutSuffix. destruct (_ && _) eqn:E; [| done]. intros [= <-].
  apply andb_true_iff in E as [Hl%Nat.leb_le Hs%String.eqb_eq]. pose proof (substring_split (String.length s - String.length suf) s ltac:(lia)) as H.
  replace (String.length s - (String.length s - String.length suf))%nat with (String.length suf) in H by lia. by rewrite Hs in H.
Qed.
