(* ===== verification/GoParse.v ===== *)
(** * Go's [strconv.ParseFloat] and [time.ParseDuration]

    [readFloat], [special] and [underscoreOK] of the standard library, and the
    correctly rounded conversion of the decimal or hexadecimal value they read.
    Strings are bytes. *)

From Stdlib Require Import Ascii.
From S2P Require Import Prelude GoTime GoFloat Decimal.
Local Open Scope Z_scope.

(** [c | 0x20] *)
Definition lower (c : ascii) : ascii := ascii_of_N (N.lor (N_of_ascii c) 32).

Fixpoint lower_all (s : string) : string :=
  match s with EmptyString => EmptyString | String c s' => String (lower c) (lower_all s') end.

Definition hex_letter (c : ascii) : option Z :=
  let n := Z.of_N (N_of_ascii (lower c)) in
  if (97 <=? n) && (n <=? 102) then Some (n - 87) else None.

(** the digit [c] stands for in base 10 or 16 *)
Definition mant_digit (hex : bool) (c : ascii) : option Z :=
  match digit c with
  | Some d => Some d
  | None => if hex then hex_letter c else None
  end.

(** the mantissa read so far: its value, the digits after the leading zeros, the
    position of the point, and what was seen *)
Record Scan : Type := mkScan {
  sc_mant : Z;
  sc_nd : Z;
  sc_dp : Z;
  sc_dot : bool;
  sc_digits : bool;
  sc_us : bool
}.

Definition Scan_zero : Scan := mkScan 0 0 0 false false false.

Fixpoint scan_mant (hex : bool) (s : string) (a : Scan) : Scan * string :=
  match s with
  | EmptyString => (a, s)
  | String c s' =>
      if Ascii.eqb c "_" then scan_mant hex s' (mkScan (sc_mant a) (sc_nd a) (sc_dp a) (sc_dot a) (sc_digits a) true)
      else if Ascii.eqb c "." then
        if sc_dot a then (a, s)
        else scan_mant hex s' (mkScan (sc_mant a) (sc_nd a) (sc_nd a) true (sc_digits a) (sc_us a))
      else match mant_digit hex c with
           | Some d =>
               if Ascii.eqb c "0" && (sc_nd a =? 0)
               then scan_mant hex s' (mkScan (sc_mant a) (sc_nd a) (sc_dp a - 1) (sc_dot a) true (sc_us a))
               else scan_mant hex s' (mkScan (sc_mant a * (if hex then 16 else 10) + d) (sc_nd a + 1) (sc_dp a)
                                        (sc_dot a) true (sc_us a))
           | None => (a, s)
           end
  end.

(** the digits of an exponent, which saturate; the flag is whether a [_] was seen *)
Fixpoint scan_exp (s : string) (e : Z) (us : bool) : Z * bool * string :=
  match s with
  | EmptyString => (e, us, s)
  | String c s' =>
      if Ascii.eqb c "_" then scan_exp s' e true
      else match digit c with
           | Some d => scan_exp s' (if e <? 10000 then e * 10 + d else e) us
           | None => (e, us, s)
           end
  end.

Fixpoint underscore_loop (hex : bool) (saw : ascii) (s : string) : bool :=
  match s with
  | EmptyString => negb (Ascii.eqb saw "_")
  | String c s' =>
      match mant_digit hex c with
      | Some _ => underscore_loop hex "0" s'
      | None =>
          if Ascii.eqb c "_" then if Ascii.eqb saw "0" then underscore_loop hex "_" s' else false
          else if Ascii.eqb saw "_" then false else underscore_loop hex "!" s'
      end
  end.

Definition cut_sign (s : string) : bool * string :=
  match s with
  | String c s' => if Ascii.eqb c "+" then (false, s') else if Ascii.eqb c "-" then (true, s') else (false, s)
  | EmptyString => (false, s)
  end.

(** an unsigned numeral; [base prefix] is 0b, 0o or 0x *)
Definition underscoreOK (s : string) : bool :=
  match (cut_sign s).2 with
  | String "0" (String p s') =>
      if Ascii.eqb (lower p) "x" then underscore_loop true "0" s'
      else if Ascii.eqb (lower p) "b" || Ascii.eqb (lower p) "o" then underscore_loop false "0" s'
      else underscore_loop false "^" (cut_sign s).2
  | u => underscore_loop false "^" u
  end.

(** [readFloat]: sign, mantissa, exponent (of 10, or of 2 in hexadecimal) and base,
    when all of [s] is a number *)
Definition readFloat (s : string) : option (bool * Z * Z * bool) :=
  let '(neg, u) := cut_sign s in
  let '(hex, body) := match u with
                      | String "0" (String x (String c t)) =>
                          if Ascii.eqb (lower x) "x" then (true, String c t) else (false, u)
                      | _ => (false, u)
                      end in
  let '(a, rest) := scan_mant hex body Scan_zero in
  if negb (sc_digits a) then None
  else
    let dp := if sc_dot a then sc_dp a else sc_nd a in
    let scale := if hex then 4 else 1 in
    let fin (e : Z) (us : bool) :=
      if us && negb (underscoreOK s) then None
      else Some (neg, sc_mant a, (dp - sc_nd a) * scale + e, hex) in
    match rest with
    | EmptyString => if hex then None else fin 0 (sc_us a)
    | String c rest' =>
        if Ascii.eqb (lower c) (if hex then "p" else "e") then
          let '(eneg, ds) := cut_sign rest' in
          match ds with
          | String d _ =>
              match digit d with
              | Some _ =>
                  let '(e, us, rest'') := scan_exp ds 0 (sc_us a) in
                  if rest'' =s "" then fin (if eneg then - e else e) us else None
              | None => None
              end
          | EmptyString => None
          end
        else None
    end.

(** [±mant * 10^e] and [±mant * 2^e], correctly rounded *)
Definition of_decimal (neg : bool) (mant e : Z) : float64 :=
  match mant with
  | Zpos m =>
      if 0 <=? e then binary_normalize 53 1024 (if neg then - (mant * 10 ^ e) else mant * 10 ^ e) 0 neg
      else fdiv (S754_finite neg m 0) (S754_finite false (Z.to_pos (10 ^ (- e))) 0)
  | _ => S754_zero neg
  end.

Definition of_hex (neg : bool) (mant e : Z) : float64 :=
  binary_normalize 53 1024 (if neg then - mant else mant) e neg.

(** infinities and NaN, in any case of letters *)
Definition special (s : string) : option float64 :=
  let '(neg, u) := cut_sign s in
  let u := lower_all u in
  if (u =s "inf") || (u =s "infinity") then Some (S754_infinity neg)
  else if lower_all s =s "nan" then Some S754_nan else None.

Definition ErrSyntax : error := errors_New "invalid syntax".
Definition ErrRange : error := errors_New "value out of range".

Definition NumError (s : string) (e : error) : error := errorf_w ("strconv.ParseFloat: parsing " +:+ fmt_q s +:+ ": ") e.

Definition is_inf (x : float64) : bool := match x with S754_infinity _ => true | _ => false end.

(** [strconv.ParseFloat(s, 64)] *)
Definition ParseFloat (s : string) : result float64 :=
  match special s with
  | Some x => inl x
  | None =>
      match readFloat s with
      | None => inr (NumError s ErrSyntax)
      | Some (neg, mant, e, hex) =>
          let x := if hex then of_hex neg mant e else of_decimal neg mant e in
          if is_inf x then inr (NumError s ErrRange) else inl x
      end
  end.

(** ** [time.ParseDuration] *)

(** [leadingInt]: [None] is an overflow; the flag is whether a digit was read *)
Fixpoint leadingInt (s : string) (x : Z) (pre : bool) : option (Z * bool * string) :=
  match s with
  | String c s' =>
      match digit c with
      | Some d =>
          if 2 ^ 63 / 10 <? x then None
          else if 2 ^ 63 <? x * 10 + d then None
          else leadingInt s' (x * 10 + d) true
      | None => Some (x, pre, s)
      end
  | EmptyString => Some (x, pre, s)
  end.

(** [leadingFraction]: digits past an overflow are dropped *)
Fixpoint leadingFraction (s : string) (x : Z) (scale : float64) (overflow post : bool) : Z * float64 * bool * string :=
  match s with
  | String c s' =>
      match digit c with
      | Some d =>
          if overflow || ((2 ^ 63 - 1) / 10 <? x) || (2 ^ 63 <? x * 10 + d)
          then leadingFraction s' x scale true true
          else leadingFraction s' (x * 10 + d) (fmul scale (of_int 10)) false true
      | None => (x, scale, post, s)
      end
  | EmptyString => (x, scale, post, s)
  end.

(** the unit: everything up to the next digit or point *)
Fixpoint cut_unit (s : string) : string * string :=
  match s with
  | String c s' =>
      if Ascii.eqb c "." || match digit c with Some _ => true | None => false end then (""%string, s)
      else let '(u, rest) := cut_unit s' in (String c u, rest)
  | EmptyString => (""%string, s)
  end.

Definition unitMap (u : string) : option Z :=
  if u =s "ns" then Some Nanosecond
  else if u =s "us" then Some Microsecond
  else if u =s micro +:+ "s" then Some Microsecond
  else if u =s String "206"%char (String "188"%char "s") then Some Microsecond
  else if u =s "ms" then Some Millisecond
  else if u =s "s" then Some Second
  else if u =s "m" then Some Minute
  else if u =s "h" then Some Hour
  else None.

(** one [<number><unit>] of [s]: its nanoseconds and the rest *)
Definition duration_term (orig s : string) : Z * string + error :=
  let invalid := errors_New ("time: invalid duration " +:+ fmt_q orig) in
  match leadingInt s 0 false with
  | None => inr invalid
  | Some (v, pre, s1) =>
      let '(f, scale, post, s2) :=
        match s1 with
        | String c s' => if Ascii.eqb c "." then leadingFraction s' 0 f1 false false else (0, f1, false, s1)
        | EmptyString => (0, f1, false, s1)
        end in
      if negb pre && negb post then inr invalid
      else
        let '(u, rest) := cut_unit s2 in
        if u =s "" then inr (errors_New ("time: missing unit in duration " +:+ fmt_q orig))
        else match unitMap u with
             | None => inr (errors_New ("time: unknown unit " +:+ fmt_q u +:+ " in duration " +:+ fmt_q orig))
             | Some unit =>
                 if 2 ^ 63 / unit <? v then inr invalid
                 else
                   let v := v * unit in
                   let v := if 0 <? f then v + trunc (fmul (of_int f) (fdiv (of_int unit) scale)) else v in
                   if 2 ^ 63 <? v then inr invalid else inl (v, rest)
             end
  end.

(** the loop over the terms; every term consumes a byte, so [fuel] bytes are enough *)
Fixpoint duration_terms (fuel : nat) (orig s : string) (d : Z) : Z + error :=
  let invalid := errors_New ("time: invalid duration " +:+ fmt_q orig) in
  match fuel with
  | O => inr invalid
  | S fuel =>
      if s =s "" then inl d
      else match duration_term orig s with
           | inr e => inr e
           | inl (v, rest) =>
               let d := (d + v) mod 2 ^ 64 in
               if 2 ^ 63 <? d then inr invalid else duration_terms fuel orig rest d
           end
  end.

Definition ParseDuration (orig : string) : result Duration :=
  let '(neg, s) := cut_sign orig in
  let invalid := errors_New ("time: invalid duration " +:+ fmt_q orig) in
  if s =s "0" then inl 0
  else if s =s "" then inr invalid
  else match duration_terms (S (String.length s)) orig s 0 with
       | inr e => inr e
       | inl d => if neg then inl (- d) else if 2 ^ 63 - 1 <? d then inr invalid else inl d
       end.

(** ** Lemmas: natural numbers *)

Lemma digit_chars c d : digit c = Some d ->
  Ascii.eqb c "_" = false /\ Ascii.eqb c "." = false /\ lower c = c /\ (Ascii.eqb c "0" = true -> d = 0) /\
  Ascii.eqb c "+" = false /\ Ascii.eqb c "-" = false /\ Ascii.eqb c "i" = false /\ Ascii.eqb c "n" = false /\
  Ascii.eqb c "x" = false.
Proof. destruct c as [[] [] [] [] [] [] [] []]; vm_compute; intros H; try discriminate H; injection H as <-; repeat split; discriminate. Qed.

Lemma scan_digits s acc v nd dp sd us :
  digits_val acc s = Some v -> (nd = 0 -> acc = 0) -> 0 <= nd ->
  exists nd' dp', scan_mant false s (mkScan acc nd dp false sd us) = (mkScan v nd' dp' false (sd || negb (s =s "")) us, ""%string).
Proof.
  revert acc nd dp sd. induction s as [| c s IH]; intros acc nd dp sd Hv Hz Hnd.
  { injection Hv as <-. exists nd, dp. cbn. by rewrite orb_false_r. }
  cbn [digits_val] in Hv. destruct (digit c) as [d |] eqn:Ed; [| done]. pose proof (digit_chars c d Ed) as (H1 & H2 & _ & H0 & _).
  cbn [scan_mant]. rewrite H1, H2. cbn [sc_nd sc_dp sc_mant sc_dot sc_us]. unfold mant_digit. rewrite Ed.
  destruct (Ascii.eqb c "0" && (nd =? 0)) eqn:E.
  - apply andb_true_iff in E as [E1 E2]. apply Z.eqb_eq in E2. specialize (H0 E1). rewrite (Hz E2), H0 in Hv. rewrite (Hz E2).
    destruct (IH 0 nd (dp - 1) true Hv) as (nd' & dp' & E'); [done | done |]. exists nd', dp'. rewrite E'. cbn. by rewrite orb_true_r.
  - destruct (IH (acc * 10 + d) (nd + 1) dp true Hv) as (nd' & dp' & E'); [lia | lia |]. exists nd', dp'. rewrite E'. cbn. by rewrite orb_true_r.
Qed.

(** a string of digits is the nearest [float64] of its value *)
Lemma ParseFloat_digits s v :
  digits_val 0 s = Some v -> s <> ""%string -> is_inf (of_int v) = false -> ParseFloat s = inl (of_int v).
Proof.
  intros Hv Hne Hf. destruct s as [| c s]; [done |]. pose proof Hv as Hv'. cbn [digits_val] in Hv'.
  destruct (digit c) as [d |] eqn:Ed; [| done]. pose proof (digit_chars c d Ed) as (_ & _ & Hl & _ & Hp & Hm & Hi & Hn & _).
  assert (cut_sign (String c s) = (false, String c s)) as Hcut by (cbn; by rewrite Hp, Hm).
  assert (special (String c s) = None) as Hsp.
  { unfold special. rewrite Hcut. cbn [lower_all]. rewrite Hl. cbn [String.eqb]. rewrite Hi, Hn. done. }
  unfold ParseFloat. rewrite Hsp. unfold readFloat. rewrite Hcut.
  destruct (scan_digits (String c s) 0 v 0 0 false false Hv ltac:(done) ltac:(done)) as (nd & dp & E).
  assert ((match String c s with
           | String "0" (String x (String c0 t)) => if Ascii.eqb (lower x) "x" then (true, String c0 t) else (false, String c s)
           | _ => (false, String c s) end) = (false, String c s)) as ->.
  { destruct s as [| x [| y t]]; try (by destruct c as [[] [] [] [] [] [] [] []]).
    cbn [digits_val] in Hv'. destruct (digit x) as [dx |] eqn:Ex; [| done].
    pose proof (digit_chars x dx Ex) as (_ & _ & Hlx & _ & _ & _ & _ & _ & Hx). rewrite Hlx, Hx.
    by destruct c as [[] [] [] [] [] [] [] []]. }
  change Scan_zero with (mkScan 0 0 0 false false false). rewrite E. cbn [sc_digits sc_dot sc_nd sc_us sc_mant andb orb negb String.eqb].
  replace (nd - nd) with 0 by lia. change (0 * 1 + 0) with 0.
  assert (of_decimal false v 0 = of_int v) as ->.
  { unfold of_decimal, of_int. destruct v as [| p | p]; [done | cbn [Z.leb Z.compare]; by rewrite Z.mul_1_r |].
    pose proof (digits_val_bound _ _ _ Hv). lia. }
  by rewrite Hf.
Qed.

(** ** Values of numerals *)

Example ParseFloat_point : ParseFloat "12.5" = inl (flit 25 2). Proof. vm_compute. reflexivity. Qed.
Example ParseFloat_tenth : ParseFloat "0.1" = inl (of_bits 0x3FB999999999999A). Proof. vm_compute. reflexivity. Qed.
Example ParseFloat_exp : ParseFloat "1e-3" = inl (of_bits 0x3F50624DD2F1A9FC). Proof. vm_compute. reflexivity. Qed.
Example ParseFloat_hex : ParseFloat "0x1.8p1" = inl (of_int 3). Proof. vm_compute. reflexivity. Qed.
Example ParseFloat_us : ParseFloat "1_23.50_0_0e+1_2" = inl (of_int 123500000000000). Proof. vm_compute. reflexivity. Qed.
Example ParseFloat_two_points : ParseFloat "1.2.3" = inr (NumError "1.2.3" ErrSyntax). Proof. reflexivity. Qed.
Example ParseFloat_dot : ParseFloat "." = inr (NumError "." ErrSyntax). Proof. reflexivity. Qed.
Example ParseFloat_inf : ParseFloat "+Inf" = inl (S754_infinity false). Proof. reflexivity. Qed.
Example ParseFloat_range : ParseFloat "1e309" = inr (NumError "1e309" ErrRange). Proof. vm_compute. reflexivity. Qed.
Example ParseFloat_tiny : ParseFloat "4.9406564584124654e-324" = inl (S754_finite false 1 (-1074)). Proof. vm_compute. reflexivity. Qed.
Example ParseFloat_leading : ParseFloat "00.050" = inl (flit 1 20). Proof. vm_compute. reflexivity. Qed.

Example ParseDuration_minutes : ParseDuration "15m" = inl (15 * Minute). Proof. vm_compute. reflexivity. Qed.
Example ParseDuration_mixed : ParseDuration "-1h2.5s" = inl (- (Hour + 2500 * Millisecond)). Proof. vm_compute. reflexivity. Qed.
Example ParseDuration_no_unit : ParseDuration "15" = inr (errors_New ("time: missing unit in duration " +:+ fmt_q "15")).
Proof. vm_compute. reflexivity. Qed.
Example ParseDuration_min : ParseDuration "-9223372036854775808ns" = inl int64_min. Proof. vm_compute. reflexivity. Qed.
