(* ===== verification/Wal.v ===== *)
(** * internal/publish: the write-ahead log

    Segment names and offsets, [Append], sealing, orphan recovery, [SealIfStale],
    [Drain], [Close] (wal.go), listing and shipping (shipper.go), and the two
    publishers built on it.

    The world [World] is this log's directory, the object store it ships to, the
    clock and the faults to come.  A file is its synced bytes and its unsynced
    tail: a process death keeps both, a power loss keeps the synced bytes and
    some prefix of the tail.  Directory operations (create, rename, remove) take
    effect at once.  Every system call consumes one entry of [w_faults] ([None],
    or an exhausted list, is success), so a run covers every failure point; a
    failing write or upload may have been partially done.  A crash in the middle
    of an operation is a fault at that point followed by a crash event, since
    an operation does nothing more to the directory after a failed call. *)

From Stdlib Require Import Ascii.
From stdpp Require Import sorting.
From S2P Require Import Prelude Effects GoTime Decimal Publish.
Local Open Scope Z_scope.

(** ** Segment names *)

Definition activeSegmentName : string := "active.jsonl".
Definition segmentExt : string := ".jsonl".

(** [%020d] prints a non-negative offset padded to twenty digits *)
Definition segmentName (baseOffset : Z) (sealedAt : Time) : string :=
  zero_pad 20 (fmt_d baseOffset) +:+ "-" +:+ fmt_d (UnixNano sealedAt) +:+ segmentExt.

(** the UTC time [time.Unix(0, nanos)] *)
Definition time_of_nanos (nanos : Z) : Time := nanos + unixToInternal * Second.

Definition parseSegmentName (name : string) : option (Z * Time) :=
  match strings_CutSuffix name segmentExt with
  | None => None
  | Some trimmed =>
      match strings_Cut trimmed "-" with
      | None => None
      | Some (offsetPart, nanosPart) =>
          match ParseInt offsetPart with
          | None => None
          | Some offset =>
              match ParseInt nanosPart with
              | None => None
              | Some nanos => Some (offset, time_of_nanos nanos)
              end
          end
      end
  end.

Definition is_segment (name : string) : bool :=
  match parseSegmentName name with Some _ => true | None => false end.

(** ** Bytes and lines *)

Abbreviation bytes := (list ascii).

Definition newline : ascii := ascii_of_nat 10.

(** [bytes.LastIndexByte(raw, '\n') + 1], as a count of bytes to keep *)
Fixpoint complete_len (raw : bytes) : nat :=
  match raw with
  | [] => 0
  | c :: raw' =>
      match complete_len raw' with
      | O => if Ascii.eqb c newline then 1 else 0
      | S n => S (S n)
      end
  end.

(** [raw[:bytes.LastIndexByte(raw, '\n')+1]] *)
Definition complete (raw : bytes) : bytes := take (complete_len raw) raw.

(** ** The world *)

Record File : Type := mkFile { f_synced : bytes; f_tail : bytes }.

Definition content (f : File) : bytes := f_synced f ++ f_tail f.

Record fault : Type := mkFault { fault_err : error; fault_done : nat }.

Record World : Type := mkWorld {
  w_dir : option (gmap string File);
  w_sink : list (string * bytes);
  w_now : Time;
  w_ticks : list Z;
  w_faults : list (option fault)
}.

(** the process's [WAL]: its configuration, its active handle ([Some true] open,
    [Some false] closed but not forgotten, [None] nil), and [Close]'s once.  The
    sync loop's goroutine is the [EvSync] event below. *)
Record WAL : Type := mkWAL {
  WAL_Dir : string;
  WAL_Beat : string;
  WAL_Subject : string;
  WAL_MaxBytes : Z;
  WAL_MaxAge : Duration;
  WAL_active : option bool;
  WAL_size : Z;
  WAL_openedAt : Time;
  WAL_baseOffset : Z;
  WAL_closed : option (option error)
}.

Definition newWAL (dir beat subject : string) (maxBytes : Z) (maxAge : Duration) : WAL :=
  mkWAL dir beat subject maxBytes maxAge None 0 0 0 None.

(** [filepath.Join] of clean, non-empty elements *)
Definition beatDir (p : WAL) : string := WAL_Dir p +:+ "/" +:+ WAL_Beat p +:+ "/" +:+ WAL_Subject p.

Definition defaultMaxBytes : Z := 64 * 1024 * 1024.
Definition defaultMaxAge : Duration := 10 * Minute.

Definition St : Type := WAL * World.

(** ** The file operations *)

Abbreviation IO := (Effects.IO St).

Local Open Scope io_scope.

Definition set_dir (w : World) (d : option (gmap string File)) : World :=
  mkWorld d (w_sink w) (w_now w) (w_ticks w) (w_faults w).

Definition set_active (p : WAL) (h : option bool) : WAL :=
  mkWAL (WAL_Dir p) (WAL_Beat p) (WAL_Subject p) (WAL_MaxBytes p) (WAL_MaxAge p) h (WAL_size p) (WAL_openedAt p) (WAL_baseOffset p) (WAL_closed p).

Definition files (w : World) : gmap string File := default ∅ (w_dir w).

(** one system call: [ok] when it succeeds, [partial n] when it fails having
    done [n] units of its work *)
Definition syscall {A} (ok : World -> World * A) (partial : nat -> World -> World) : IO A :=
  fun '(p, w) =>
    let rest := mkWorld (w_dir w) (w_sink w) (w_now w) (w_ticks w) (tail (w_faults w)) in
    match head (w_faults w) with
    | Some (Some f) => ((p, partial (fault_done f) rest), inr (fault_err f))
    | _ => let '(w', x) := ok rest in ((p, w'), inl x)
    end.

Definition unchanged (n : nat) (w : World) : World := w.

(** [time.Now()]: the clock moves on by the next entry of [w_ticks] *)
Definition time_Now : IO Time :=
  fun '(p, w) =>
    let now := w_now w + default 1 (head (w_ticks w)) in
    ((p, mkWorld (w_dir w) (w_sink w) now (tail (w_ticks w)) (w_faults w)), inl now).

Definition get_wal : IO WAL := fun '(p, w) => ((p, w), inl p).
Definition put_wal (f : WAL -> WAL) : IO unit := fun '(p, w) => ((f p, w), inl tt).
Definition get_files : IO (gmap string File) := fun '(p, w) => ((p, w), inl (files w)).

Definition os_MkdirAll : IO unit := syscall (fun w => (set_dir w (Some (files w)), tt)) unchanged.

(** [fs.ReadDir]: the names; only called on a directory that exists *)
Definition os_ReadDir : IO (list string) :=
  syscall (fun w => (w, map fst (map_to_list (files w)))) unchanged.

(** [os.Stat]: [false] is [os.ErrNotExist] *)
Definition os_Stat (name : string) : IO bool :=
  syscall (fun w => (w, match files w !! name with Some _ => true | None => false end)) unchanged.

(** [os.ReadFile] of a file that exists *)
Definition os_ReadFile (name : string) : IO bytes :=
  syscall (fun w => (w, match files w !! name with Some f => content f | None => [] end)) unchanged.

(** [os.OpenFile(name, O_CREATE|O_WRONLY|O_TRUNC)] *)
Definition os_Create (name : string) : IO unit :=
  syscall (fun w => (set_dir w (Some (<[name := mkFile [] []]> (files w))), tt)) unchanged.

Definition append_to (name : string) (b : bytes) (w : World) : World :=
  match files w !! name with
  | Some f => set_dir w (Some (<[name := mkFile (f_synced f) (f_tail f ++ b)]> (files w)))
  | None => w
  end.

Definition file_Write (name : string) (b : bytes) : IO unit :=
  syscall (fun w => (append_to name b w, tt)) (fun n w => append_to name (take n b) w).

Definition sync_file (name : string) (w : World) : World :=
  match files w !! name with
  | Some f => set_dir w (Some (<[name := mkFile (content f) []]> (files w)))
  | None => w
  end.

Definition file_Sync (name : string) : IO unit := syscall (fun w => (sync_file name w, tt)) unchanged.
Definition file_Close : IO unit := syscall (fun w => (w, tt)) unchanged.

Definition os_Rename (a b : string) : IO unit :=
  syscall (fun w => (match files w !! a with
                     | Some f => set_dir w (Some (<[b := f]> (delete a (files w))))
                     | None => w
                     end, tt)) unchanged.

Definition os_Remove (name : string) : IO unit :=
  syscall (fun w => (set_dir w (Some (delete name (files w))), tt)) unchanged.

(** ** wal.go *)

Definition ErrClosedFile : error := errors_New "file already closed".

(** the active handle, a write or sync on a closed file being an error *)
Definition on_handle (m : IO unit) : IO unit :=
  p <~ get_wal ;;
  match WAL_active p with
  | Some true => m
  | _ => fun s => (s, inr ErrClosedFile)
  end.

Definition maxAge (p : WAL) : Duration := if WAL_MaxAge p <=? 0 then defaultMaxAge else WAL_MaxAge p.
Definition maxBytes (p : WAL) : Z := if WAL_MaxBytes p <=? 0 then defaultMaxBytes else WAL_MaxBytes p.

Definition openFreshActive (path : string) : IO unit :=
  wrapping "wal: open active segment: " (os_Create path) ;;~
  now <~ time_Now ;;
  put_wal (fun p => mkWAL (WAL_Dir p) (WAL_Beat p) (WAL_Subject p) (WAL_MaxBytes p) (WAL_MaxAge p) (Some true) 0 now (WAL_baseOffset p) (WAL_closed p)).

Definition seal : IO unit :=
  wrapping "wal: seal: sync: " (on_handle (file_Sync activeSegmentName)) ;;~
  wrapping "wal: seal: close: "
    (put_wal (fun p => set_active p (Some false)) ;;~ file_Close) ;;~
  now <~ time_Now ;;
  p <~ get_wal ;;
  wrapping "wal: seal: rename: " (os_Rename activeSegmentName (segmentName (WAL_baseOffset p) now)) ;;~
  put_wal (fun p => mkWAL (WAL_Dir p) (WAL_Beat p) (WAL_Subject p) (WAL_MaxBytes p) (WAL_MaxAge p) None (WAL_size p) (WAL_openedAt p)
                      (WAL_baseOffset p + 1) (WAL_closed p)) ;;~
  openFreshActive activeSegmentName.

(** the three error paths also close the file; a handle the process forgets *)
Definition recoverOrphan (base : Z) : IO unit :=
  raw <~ wrapping "wal: read orphaned active segment: " (os_ReadFile activeSegmentName) ;;
  now <~ time_Now ;;
  let sealed := segmentName base now in
  wrapping "wal: create revovered segment: " (os_Create sealed) ;;~
  wrapping "wal: write recovered segment: " (file_Write sealed (complete raw)) ;;~
  wrapping "wal: sync recovered segment: " (file_Sync sealed) ;;~
  wrapping "wal: close recovered segment: " file_Close ;;~
  os_Remove activeSegmentName.

Definition nextBaseOffset : IO Z :=
  names <~ wrapping "wal: next base offset: " os_ReadDir ;;
  ret (Z.of_nat (length (List.filter is_segment names))).

Definition ensureActive : IO unit :=
  p <~ get_wal ;;
  match WAL_active p with
  | Some _ => ret tt
  | None =>
      wrapping ("wal: mkdir " +:+ beatDir p +:+ ": ") os_MkdirAll ;;~
      base <~ wrapping "wal: next base offset: " nextBaseOffset ;;
      exists_ <~ wrapping ("wal: stat " +:+ beatDir p +:+ "/" +:+ activeSegmentName +:+ ": ") (os_Stat activeSegmentName) ;;
      base' <~ (if exists_ : bool then recoverOrphan base ;;~ ret (base + 1) else ret base) ;;
      put_wal (fun p => mkWAL (WAL_Dir p) (WAL_Beat p) (WAL_Subject p) (WAL_MaxBytes p) (WAL_MaxAge p) (WAL_active p) (WAL_size p)
                          (WAL_openedAt p) base' (WAL_closed p)) ;;~
      openFreshActive activeSegmentName
  end.

(** [Append] of an already encoded line; [time.Since(t)] is [Sub (Now) t] *)
Definition append_line (line : bytes) : IO unit :=
  ensureActive ;;~
  now <~ time_Now ;;
  p <~ get_wal ;;
  (if maxAge p <=? Sub now (WAL_openedAt p) then seal else ret tt) ;;~
  wrapping "wal: write: " (on_handle (file_Write activeSegmentName line)) ;;~
  put_wal (fun p => mkWAL (WAL_Dir p) (WAL_Beat p) (WAL_Subject p) (WAL_MaxBytes p) (WAL_MaxAge p) (WAL_active p)
                      (WAL_size p + Z.of_nat (length line)) (WAL_openedAt p) (WAL_baseOffset p) (WAL_closed p)) ;;~
  p <~ get_wal ;;
  (if maxBytes p <=? WAL_size p then seal else ret tt).

Definition SealIfStale : IO unit :=
  p <~ get_wal ;;
  match WAL_active p with
  | None => ret tt
  | Some _ =>
      if WAL_size p =? 0 then ret tt
      else
        now <~ time_Now ;;
        if Sub now (WAL_openedAt p) <? maxAge p then ret tt
        else wrapping "wal: seal if stale: " seal
  end.

Definition Close : IO unit :=
  p <~ get_wal ;;
  match WAL_closed p with
  | Some None => ret tt
  | Some (Some e) => fun s => (s, inr e)
  | None =>
      put_wal (fun p => set_active p None) ;;~
      (fun s =>
         let '(s', r) :=
           match WAL_active p with
           | None => (s, inl tt)
           | Some true => (wrapping "wal: close: sync: " (file_Sync activeSegmentName) ;;~ file_Close) s
           | Some false => (s, inr (errorf_w "wal: close: sync: " ErrClosedFile))
           end in
         let err := match r with inl _ => None | inr e => Some e end in
         ((mkWAL (WAL_Dir s'.1) (WAL_Beat s'.1) (WAL_Subject s'.1) (WAL_MaxBytes s'.1) (WAL_MaxAge s'.1) (WAL_active s'.1) (WAL_size s'.1)
             (WAL_openedAt s'.1) (WAL_baseOffset s'.1) (Some err), s'.2), r))
  end.

(** the ticker of [runSyncLoop] *)
Definition defaultSyncInterval : Duration := 5 * Second.

Definition sync_interval (SyncInterval : Duration) : Duration := if SyncInterval <=? 0 then defaultSyncInterval else SyncInterval.

(** one tick of it: the error is dropped *)
Definition sync_tick : IO unit :=
  p <~ get_wal ;;
  match WAL_active p with
  | Some true => file_Sync activeSegmentName
  | _ => ret tt
  end.

(** ** shipper.go *)

Definition str_le (a b : string) : Prop := String.leb a b = true.
#[local] Instance str_le_dec a b : Decision (str_le a b).
Proof. unfold str_le. apply _. Defined.

Definition SealedSegments : IO (list string) :=
  fun '(p, w) =>
    match w_dir w with
    | None => ((p, w), inl []) (* [os.ErrNotExist]: nothing was ever written *)
    | Some _ =>
        (names <~ wrapping "wal: sealed segments: " os_ReadDir ;;
         ret (merge_sort str_le (List.filter is_segment names))) (p, w)
    end.

(** [sink.Put]: a failing upload may have landed *)
Definition sink_Put (key : string) (b : bytes) : IO unit :=
  syscall (fun w => (mkWorld (w_dir w) (w_sink w ++ [(key, b)]) (w_now w) (w_ticks w) (w_faults w), tt))
    (fun n w => match n with
                | O => w
                | S _ => mkWorld (w_dir w) (w_sink w ++ [(key, b)]) (w_now w) (w_ticks w) (w_faults w)
                end).

Definition shipOne (name : string) : IO unit :=
  p <~ get_wal ;;
  let path := beatDir p +:+ "/" +:+ name in
  raw <~ wrapping ("wal: ship: open " +:+ path +:+ ": ") (os_ReadFile name) ;;
  let key := WAL_Beat p +:+ "/" +:+ WAL_Subject p +:+ "/" +:+ name in
  wrapping ("wal: ship: put " +:+ key +:+ ": ") (sink_Put key raw) ;;~
  wrapping ("wal: ship: remove " +:+ path +:+ ": ") (os_Remove name).

Fixpoint ship_all (segments : list string) : IO unit :=
  match segments with
  | [] => ret tt
  | s :: segments' => shipOne s ;;~ ship_all segments'
  end.

Definition Ship : IO unit := segments <~ SealedSegments ;; ship_all segments.

(** one tick of [RunShipper] *)
Definition ship_tick : IO unit :=
  fun s => let '(s1, _) := SealIfStale s in Ship s1.

Definition Drain : IO unit :=
  (p <~ get_wal ;;
   match WAL_active p with
   | Some _ => if 0 <? WAL_size p then wrapping "wal: drain: seal: " seal else ret tt
   | None => ret tt
   end) ;;~
  wrapping "wal: drain: ship: " Ship ;;~
  Close.

(** ** The publishers *)

Section publishers.
Context {W T : Type} `{Publisher W T}.

(** [encodeLine]; [marshal] is [json.Marshal] *)
Definition encodeLine (marshal : T -> result bytes) (obj : T) : result bytes :=
  match marshal obj with
  | inr e => inr (errorf_w "wal: encode line: " e)
  | inl line => inl (line ++ [newline])
  end.

(** [Append].  The encoding happens between the age check and the write and
    touches nothing, so an unencodable object is the same error path. *)
Definition Append (marshal : T -> result bytes) (ctx : context) (obj : T) : IO unit :=
  match ctx_Err ctx with
  | Some e => fun s => (s, inr e)
  | None =>
      match encodeLine marshal obj with
      | inl line => append_line line
      | inr e =>
          ensureActive ;;~
          now <~ time_Now ;;
          p <~ get_wal ;;
          (if maxAge p <=? Sub now (WAL_openedAt p) then seal else ret tt) ;;~
          (fun s => (s, inr e))
      end
  end.

(** [WALPublisher.Publish]: journal, then deliver *)
Definition WALPublisher_Publish (marshal : T -> result bytes) (ctx : context) (subject : string) (obj : T)
  (sw : St * W) : (St * W) * option error :=
  match Append marshal ctx obj sw.1 with
  | (s', inr e) => ((s', sw.2), Some (errorf_w "wal publisher: append: " e))
  | (s', inl _) =>
      match publish subject obj sw.2 with
      | (w', Some e) => ((s', w'), Some (errorf_w "wal publisher: next: " e))
      | (w', None) => ((s', w'), None)
      end
  end.

(** [JournalPublisher.Publish] *)
Definition JournalPublisher_Publish (marshal : T -> result bytes) (ctx : context) (obj : T) (s : St)
  : St * option error :=
  match Append marshal ctx obj s with
  | (s', inr e) => (s', Some (errorf_w "journal publisher: append: " e))
  | (s', inl _) => (s', None)
  end.

End publishers.

(** ** The run of a process and its log *)

Section run.
Context {W T : Type} `{Publisher W T}.
Context (marshal : T -> result bytes).

(** what can happen to a log between two calls: [EvRestart] is the death of the
    process (the files keep what was written), [EvPowerLoss cut] also loses all
    but the first [cut name] unsynced bytes of each file *)
Inductive event : Type :=
| EvPublish (subject : string) (obj : T)
| EvJournal (obj : T)
| EvSync
| EvShip
| EvDrain
| EvClose
| EvRestart
| EvPowerLoss (cut : string -> nat).

Definition restart (p : WAL) : WAL :=
  newWAL (WAL_Dir p) (WAL_Beat p) (WAL_Subject p) (WAL_MaxBytes p) (WAL_MaxAge p).

Definition survive (cut : string -> nat) (name : string) (f : File) : File :=
  mkFile (f_synced f ++ take (cut name) (f_tail f)) [].

Definition power_loss (cut : string -> nat) (w : World) : World :=
  set_dir w (option_map (map_imap (fun name f => Some (survive cut name f))) (w_dir w)).

(** the objects acknowledged by the event, and the new state *)
Definition run_event (sw : St * W) (ev : event) : (St * W) * list T :=
  match ev with
  | EvPublish subject obj =>
      match WALPublisher_Publish marshal Background subject obj sw with
      | (sw', None) => (sw', [obj])
      | (sw', Some _) => (sw', [])
      end
  | EvJournal obj =>
      match JournalPublisher_Publish marshal Background obj sw.1 with
      | (s', None) => ((s', sw.2), [obj])
      | (s', Some _) => ((s', sw.2), [])
      end
  | EvSync => (((sync_tick sw.1).1, sw.2), [])
  | EvShip => (((ship_tick sw.1).1, sw.2), [])
  | EvDrain => (((Drain sw.1).1, sw.2), [])
  | EvClose => (((Close sw.1).1, sw.2), [])
  | EvRestart => (((restart sw.1.1, sw.1.2), sw.2), [])
  | EvPowerLoss cut => (((restart sw.1.1, power_loss cut sw.1.2), sw.2), [])
  end.

Fixpoint run (sw : St * W) (evs : list event) : (St * W) * list T :=
  match evs with
  | [] => (sw, [])
  | ev :: evs' =>
      let '(sw1, acked) := run_event sw ev in
      let '(sw2, acked') := run sw1 evs' in
      (sw2, acked ++ acked')
  end.

End run.

(** ** Specifications *)

(** the newline-terminated lines of a file *)
Fixpoint lines_from (cur : bytes) (c : bytes) : list bytes :=
  match c with
  | [] => []
  | x :: c' => if Ascii.eqb x newline then cur :: lines_from [] c' else lines_from (cur ++ [x]) c'
  end.

Definition lines (c : bytes) : list bytes := lines_from [] c.

(** [l] is a complete line of some file of the log or of some shipped segment *)
Definition Stored (w : World) (l : bytes) : Prop :=
  (exists n f, files w !! n = Some f /\ l ∈ lines (content f)) \/
  (exists k b, (k, b) ∈ w_sink w /\ l ∈ lines b).

(** the same, counting synced bytes only *)
Definition Durable (w : World) (l : bytes) : Prop :=
  (exists n f, files w !! n = Some f /\ l ∈ lines (f_synced f)) \/
  (exists k b, (k, b) ∈ w_sink w /\ l ∈ lines b).

Definition keeps (w w' : World) : Prop :=
  (forall l, Stored w l -> Stored w' l) /\ (forall l, Durable w l -> Durable w' l).

(** the range of times whose [UnixNano] is exact *)
Definition in_range (t : Time) : Prop := int64_min <= t - unixToInternal * Second <= int64_max.

(** no write or upload fails half done *)
Definition clean (w : World) : Prop :=
  Forall (fun o => match o with Some f => fault_done f = 0%nat | None => True end) (w_faults w).

(** every clock reading is later than the one before *)
Definition ticking (w : World) : Prop := Forall (fun d => 0 < d) (w_ticks w).

(** a file written by whole lines *)
Definition closed (c : bytes) : Prop := complete c = c.

(** the log's invariant; [C] says whether writes are all or nothing *)
Record Inv (C : Prop) (s : St) : Prop := {
  inv_names : forall n f, files s.2 !! n = Some f ->
    n = activeSegmentName \/ exists b t, 0 <= b /\ n = segmentName b t /\ in_range t /\ t <= w_now s.2;
  inv_active : WAL_active s.1 = Some true ->
    exists f, files s.2 !! activeSegmentName = Some f /\ (C -> closed (content f));
  inv_base : 0 <= WAL_baseOffset s.1;
  inv_clean : C -> clean s.2;
  inv_ticking : ticking s.2;
  inv_now : int64_min <= w_now s.2 - unixToInternal * Second
}.

(** ** Lemmas: names *)

Lemma time_of_nanos_UnixNano t : in_range t -> time_of_nanos (UnixNano t) = t.
Proof. intros Ht. unfold time_of_nanos, UnixNano. rewrite wrap64_id by exact Ht. lia. Qed.

Lemma segment_trimmed b t :
  strings_CutSuffix (segmentName b t) segmentExt = Some (zero_pad 20 (fmt_d b) +:+ String "-" (fmt_d (UnixNano t))).
Proof.
  unfold segmentName. change ("-" +:+ fmt_d (UnixNano t) +:+ segmentExt)
    with (String "-" (fmt_d (UnixNano t)) +:+ segmentExt).
  rewrite <- string_app_assoc. apply strings_CutSuffix_app.
Qed.

Lemma segment_cut b t :
  0 <= b -> strings_Cut (zero_pad 20 (fmt_d b) +:+ String "-" (fmt_d (UnixNano t))) "-"
  = Some (zero_pad 20 (fmt_d b), fmt_d (UnixNano t)).
Proof.
  intros Hb. apply strings_Cut_app. intros c Hc.
  destruct (zero_pad_val 20 b 0 Hb) as (k & Hv).
  by destruct (digit_not_sign c (digits_no_sep _ _ _ Hv c Hc)).
Qed.

(** whatever the offset's size, the time of a segment name can be read back *)
Lemma segmentName_time_inj b b' t t' :
  0 <= b -> 0 <= b' -> in_range t -> in_range t' -> segmentName b t = segmentName b' t' -> t = t'.
Proof.
  intros Hb Hb' Ht Ht' He. pose proof (segment_trimmed b t) as H1. rewrite He, segment_trimmed in H1.
  injection H1 as H1. pose proof (segment_cut b t Hb) as H2. rewrite <- H1, (segment_cut b' t' Hb') in H2.
  injection H2 as _ H2. apply (f_equal parse_int) in H2. rewrite !parse_int_fmt_d in H2.
  injection H2 as H2. rewrite <- (time_of_nanos_UnixNano t Ht), <- (time_of_nanos_UnixNano t' Ht'). by rewrite H2.
Qed.

Lemma active_not_segment : is_segment activeSegmentName = false.
Proof. reflexivity. Qed.

Lemma segmentName_not_active b t : 0 <= b -> segmentName b t <> activeSegmentName.
Proof.
  intros Hb He. pose proof (segment_trimmed b t) as H1. rewrite He in H1.
  change (strings_CutSuffix activeSegmentName segmentExt) with (Some "active"%string) in H1.
  injection H1 as H1. pose proof (segment_cut b t Hb) as H2. rewrite <- H1 in H2. done.
Qed.

(** ** Lemmas: lines *)

Lemma lines_from_app_elem cur c d l : l ∈ lines_from cur c -> l ∈ lines_from cur (c ++ d).
Proof.
  revert cur. induction c as [| x c IH]; intros cur; cbn; [set_solver |].
  case_match; [| apply IH]. intros [-> | Hl]%elem_of_cons; [left | right; by apply IH].
Qed.

Lemma lines_app_elem c d l : l ∈ lines c -> l ∈ lines (c ++ d).
Proof. apply lines_from_app_elem. Qed.

Lemma complete_len_le c : (complete_len c <= length c)%nat.
Proof. induction c as [| x c IH]; cbn; [lia |]. destruct (complete_len c); [destruct (Ascii.eqb x newline); lia | lia]. Qed.

(** nothing after the last newline is a line *)
Lemma lines_from_complete cur c : lines_from cur (take (complete_len c) c) = lines_from cur c.
Proof.
  revert cur. induction c as [| x c IH]; intros cur; [done |]. cbn [complete_len].
  destruct (complete_len c) as [| n] eqn:Hn.
  - assert (Hz : forall cur, lines_from cur c = []) by (intros cur'; rewrite <- IH; done).
    destruct (Ascii.eqb x newline) eqn:Hx; cbn [take lines_from]; rewrite ?Hx, Hz; done.
  - cbn [take lines_from]. case_match; [f_equal; apply (IH []) | apply IH].
Qed.

Lemma lines_complete c : lines (complete c) = lines c.
Proof. apply lines_from_complete. Qed.

Lemma closed_nil : closed [].
Proof. done. Qed.

Lemma complete_len_line c l : complete_len (c ++ l ++ [newline]) = length (c ++ l ++ [newline]).
Proof.
  induction c as [| x c IH]; cbn [app complete_len].
  - induction l as [| y l IHl]; [done |]. cbn [app complete_len length]. rewrite IHl.
    rewrite length_app. cbn. by rewrite Nat.add_1_r.
  - rewrite IH. cbn [length]. rewrite !length_app. cbn. by rewrite !Nat.add_1_r, Nat.add_succ_r.
Qed.

Lemma closed_snoc_line c l : closed (c ++ l ++ [newline]).
Proof. unfold closed, complete. rewrite complete_len_line. apply firstn_all. Qed.

Lemma lines_from_payload cur l :
  Forall (fun x => Ascii.eqb x newline = false) l -> lines_from cur (l ++ [newline]) = [cur ++ l].
Proof.
  intros Hl. revert cur. induction Hl as [| x l Hx _ IH]; intros cur; cbn.
  - by rewrite app_nil_r.
  - rewrite Hx, IH. by rewrite <- app_assoc.
Qed.

(** a line appended to whole lines is a line *)
Lemma lines_append c l :
  closed c -> Forall (fun x => Ascii.eqb x newline = false) l -> lines (c ++ l ++ [newline]) = lines c ++ [l].
Proof.
  intros Hc Hl. unfold lines. assert (Hgen : forall cur, (c = [] -> cur = []) -> closed c ->
    lines_from cur (c ++ l ++ [newline]) = lines_from cur c ++ [l]).
  { clear Hc. induction c as [| x c IH]; intros cur Hcur Hc; cbn [app lines_from].
    - rewrite lines_from_payload by done. by rewrite (Hcur eq_refl).
    - assert (Hlen : complete_len (x :: c) = length (x :: c)).
      { apply (f_equal length) in Hc. unfold complete in Hc. rewrite length_take in Hc.
        pose proof (complete_len_le (x :: c)). lia. }
      cbn [complete_len] in Hlen. destruct (complete_len c) as [| n] eqn:Hn.
      + destruct (Ascii.eqb x newline) eqn:Hx; [| done]. destruct c; [| done]. cbn [app lines_from].
        rewrite lines_from_payload by done. done.
      + assert (closed c). { unfold closed, complete. rewrite Hn. apply firstn_all2. cbn in Hlen. lia. }
        destruct (Ascii.eqb x newline); [cbn; f_equal |]; apply IH; try done; by intros ->. }
  by apply Hgen.
Qed.

(** ** Lemmas: what each file operation keeps *)

Lemma keeps_refl w : keeps w w.
Proof. done. Qed.

Lemma keeps_trans w1 w2 w3 : keeps w1 w2 -> keeps w2 w3 -> keeps w1 w3.
Proof. intros [H1 H2] [H3 H4]. split; auto. Qed.

(** every file keeps a superset of its lines, at the same name or another, and the
    sink grows *)
Lemma keeps_intro w w' :
  (forall n f, files w !! n = Some f ->
     (exists n' f', files w' !! n' = Some f' /\ (forall l, l ∈ lines (content f) -> l ∈ lines (content f')) /\
                    (forall l, l ∈ lines (f_synced f) -> l ∈ lines (f_synced f'))) \/
     (exists k b, (k, b) ∈ w_sink w' /\ forall l, l ∈ lines (content f) -> l ∈ lines b)) ->
  (forall k b, (k, b) ∈ w_sink w -> (k, b) ∈ w_sink w') ->
  keeps w w'.
Proof.
  intros Hf Hs. split; intros l [(n & f & Hn & Hl) | (k & b & Hk & Hl)]; try (right; eauto; fail);
    destruct (Hf n f Hn) as [(n' & f' & Hn' & Hc & Hd) | (k & b & Hk & Hc)].
  - left. eauto.
  - right. eauto.
  - left. eauto.
  - right. exists k, b. split; [done |]. apply Hc. by apply lines_app_elem.
Qed.

Lemma keeps_same w w' : files w' = files w -> w_sink w' = w_sink w -> keeps w w'.
Proof.
  intros Hf Hs. apply keeps_intro; [| by rewrite Hs].
  intros n f Hn. left. exists n, f. by rewrite Hf.
Qed.

Lemma keeps_insert w n f f0 w' :
  files w' = <[n := f]> (files w) -> w_sink w' = w_sink w -> files w !! n = f0 ->
  (forall g, f0 = Some g -> (forall l, l ∈ lines (content g) -> l ∈ lines (content f)) /\
                            (forall l, l ∈ lines (f_synced g) -> l ∈ lines (f_synced f))) ->
  keeps w w'.
Proof.
  intros Hf Hs Hn Hg. apply keeps_intro; [| by rewrite Hs].
  intros m g Hm. left. destruct (decide (m = n)) as [-> | Hne].
  - exists n, f. rewrite Hf, lookup_insert_eq. split; [done |]. apply Hg. congruence.
  - exists m, g. by rewrite Hf, lookup_insert_ne.
Qed.

Lemma files_set_dir w d : files (set_dir w (Some d)) = d.
Proof. done. Qed.

(** ** The clock only moves on *)

Class Mono {A} (m : IO A) : Prop :=
  mono : forall s s' r, ticking s.2 -> m s = (s', r) -> ticking s'.2 /\ w_now s.2 <= w_now s'.2.

#[local] Instance Mono_ret {A} (x : A) : Mono (ret x).
Proof. intros s s' r Ht [= <- <-]. done. Qed.

#[local] Instance Mono_fail {A} e : Mono (fun s => (s, inr e) : St * result A).
Proof. intros s s' r Ht [= <- <-]. done. Qed.

#[local] Instance Mono_bind {A B} (m : IO A) (k : A -> IO B) :
  Mono m -> (forall x, Mono (k x)) -> Mono (bind m k).
Proof.
  intros Hm Hk s s' r Ht. unfold bind. destruct (m s) as [s1 [x | e]] eqn:E; intros.
  - destruct (Hm _ _ _ Ht E) as [Ht1 Hn1]. destruct (Hk x _ _ _ Ht1 ltac:(eassumption)). split; [done | lia].
  - simplify_eq. by eapply Hm.
Qed.

#[local] Instance Mono_wrapping {A} pre (m : IO A) : Mono m -> Mono (wrapping pre m).
Proof.
  intros Hm s s' r Ht. unfold wrapping. destruct (m s) as [s1 [x | e]] eqn:E; intros; simplify_eq; by eapply Hm.
Qed.

#[local] Instance Mono_if {A} (b : bool) (m m' : IO A) : Mono m -> Mono m' -> Mono (if b then m else m').
Proof. by destruct b. Qed.

#[local] Instance Mono_handle {A} (h : option bool) (m m' : IO A) :
  Mono m -> Mono m' -> Mono (match h with Some true => m | _ => m' end).
Proof. by destruct h as [[] |]. Qed.

#[local] Instance Mono_option {A B} (h : option B) (m : B -> IO A) (m' : IO A) :
  (forall x, Mono (m x)) -> Mono m' -> Mono (match h with Some x => m x | None => m' end).
Proof. by destruct h. Qed.

#[local] Instance Mono_get_wal : Mono get_wal.
Proof. intros [p w] s' r Ht [= <- <-]. done. Qed.

#[local] Instance Mono_put_wal f : Mono (put_wal f).
Proof. intros [p w] s' r Ht [= <- <-]. done. Qed.

#[local] Instance Mono_time_Now : Mono time_Now.
Proof.
  intros [p w] s' r Ht [= <- <-]. cbn in *. unfold ticking in *. cbn in *.
  destruct (w_ticks w) as [| d ds]; cbn; [split; [done | lia] |].
  apply list.Forall_cons in Ht as [Hd Hds]. split; [done | cbn in Hd; lia].
Qed.

(** the operations that leave the clock alone *)
Definition still {A} (ok : World -> World * A) (partial : nat -> World -> World) : Prop :=
  (forall w, w_now (ok w).1 = w_now w /\ w_ticks (ok w).1 = w_ticks w) /\
  (forall n w, w_now (partial n w) = w_now w /\ w_ticks (partial n w) = w_ticks w).

Lemma Mono_syscall {A} (ok : World -> World * A) partial : still ok partial -> Mono (syscall ok partial).
Proof.
  intros [Hok Hp] [p w] s' r Ht. unfold syscall. set (rest := mkWorld _ _ _ _ _).
  assert (Hgo : forall w', w_now w' = w_now rest /\ w_ticks w' = w_ticks rest ->
                  ticking w' /\ w_now w <= w_now w').
  { intros w' [Hn Hti]. unfold ticking. rewrite Hn, Hti. split; [exact Ht | cbn; lia]. }
  assert (Hdone : forall w' x, ok rest = (w', x) -> ticking w' /\ w_now w <= w_now w').
  { intros w' x E. apply Hgo. specialize (Hok rest). by rewrite E in Hok. }
  destruct (head (w_faults w)) as [[f |] |].
  - intros [= <- <-]. apply Hgo, Hp.
  - destruct (ok rest) as [w' x] eqn:E. intros [= <- <-]. by eapply Hdone.
  - destruct (ok rest) as [w' x] eqn:E. intros [= <- <-]. by eapply Hdone.
Qed.

Ltac still := apply Mono_syscall; split; intros; unfold append_to, sync_file, unchanged; cbn; repeat case_match; done.

#[local] Instance Mono_MkdirAll : Mono os_MkdirAll. Proof. still. Qed.
#[local] Instance Mono_ReadDir : Mono os_ReadDir. Proof. still. Qed.
#[local] Instance Mono_Stat n : Mono (os_Stat n). Proof. still. Qed.
#[local] Instance Mono_ReadFile n : Mono (os_ReadFile n). Proof. still. Qed.
#[local] Instance Mono_Create n : Mono (os_Create n). Proof. still. Qed.
#[local] Instance Mono_Write n b : Mono (file_Write n b). Proof. still. Qed.
#[local] Instance Mono_Sync n : Mono (file_Sync n). Proof. still. Qed.
#[local] Instance Mono_FClose : Mono file_Close. Proof. still. Qed.
#[local] Instance Mono_Rename a b : Mono (os_Rename a b). Proof. still. Qed.
#[local] Instance Mono_Remove n : Mono (os_Remove n). Proof. still. Qed.
#[local] Instance Mono_Put k b : Mono (sink_Put k b). Proof. still. Qed.

#[local] Instance Mono_on_handle m : Mono m -> Mono (on_handle m).
Proof. intros Hm. unfold on_handle. apply Mono_bind; [apply _ |]. intros p. repeat case_match; apply _. Qed.

#[local] Instance Mono_openFreshActive n : Mono (openFreshActive n).
Proof. unfold openFreshActive. apply _. Qed.

#[local] Instance Mono_seal : Mono seal.
Proof. unfold seal. apply _. Qed.

#[local] Instance Mono_recoverOrphan b : Mono (recoverOrphan b).
Proof. unfold recoverOrphan. apply _. Qed.

#[local] Instance Mono_nextBaseOffset : Mono nextBaseOffset.
Proof. unfold nextBaseOffset. apply _. Qed.

#[local] Instance Mono_ensureActive : Mono ensureActive.
Proof. unfold ensureActive. apply Mono_bind; [apply _ |]. intros p. destruct (WAL_active p); apply _. Qed.

#[local] Instance Mono_append_line l : Mono (append_line l).
Proof. unfold append_line. apply _. Qed.

#[local] Instance Mono_ship_all l : Mono (ship_all l).
Proof. induction l; cbn [ship_all]; unfold shipOne; apply _. Qed.

#[local] Instance Mono_SealedSegments : Mono SealedSegments.
Proof.
  intros [p w] s' r Ht. unfold SealedSegments. destruct (w_dir w); [| by intros [= <- <-]].
  intros E. by apply (mono (m := _) _ _ _ Ht E).
Qed.

#[local] Instance Mono_Ship : Mono Ship.
Proof. unfold Ship. apply _. Qed.

#[local] Instance Mono_SealIfStale : Mono SealIfStale.
Proof. unfold SealIfStale. apply _. Qed.

#[local] Instance Mono_sync_tick : Mono sync_tick.
Proof. unfold sync_tick. apply _. Qed.

#[local] Instance Mono_Close : Mono Close.
Proof.
  intros [p w] s' r Ht. unfold Close, bind, get_wal, put_wal. change (ticking (set_active p None, w).2) in Ht.
  destruct (WAL_closed p) as [[e |] |]; [by intros [= <- <-] | by intros [= <- <-] |].
  destruct (WAL_active p) as [[] |]; [| by intros [= <- <-]..].
  destruct (wrapping "wal: close: sync: " (file_Sync activeSegmentName) (set_active p None, w)) as [s1 r1] eqn:E1.
  destruct (mono (m := wrapping "wal: close: sync: " (file_Sync activeSegmentName)) _ _ _ Ht E1) as [Ht1 Hn1].
  destruct r1 as [x | e]; [| by intros [= <- <-]].
  destruct (file_Close s1) as [s2 r2] eqn:E2. destruct (mono (m := file_Close) _ _ _ Ht1 E2) as [Ht2 Hn2].
  intros [= <- <-]. split; [done | cbn in *; lia].
Qed.

#[local] Instance Mono_Drain : Mono Drain.
Proof. unfold Drain. apply _. Qed.

(** ** A program logic for the operations

    [hoare C P m Q]: from a state of the invariant that satisfies [P], provided
    the clock stays in range, [m] re-establishes the invariant and keeps every
    line whatever faults occur, and [Q] holds of its result when it succeeds. *)

Definition hoare (C : Prop) {A} (P : St -> Prop) (m : IO A) (Q : A -> St -> Prop) : Prop :=
  forall s s' r, Inv C s -> P s -> w_now s'.2 - unixToInternal * Second <= int64_max -> m s = (s', r) ->
    Inv C s' /\ keeps s.2 s'.2 /\ forall x, r = inl x -> Q x s'.

Section logic.
Context (C : Prop).

Lemma hoare_ret {A} (x : A) (P : St -> Prop) : hoare C P (ret x) (fun y s => y = x /\ P s).
Proof. intros s s' r HI HP _ [= <- <-]. split; [done |]. split; [apply keeps_refl |]. intros y [= ->]. done. Qed.

Lemma hoare_bind {A B} (P : St -> Prop) (m : IO A) (Q : A -> St -> Prop) (k : A -> IO B) (R : B -> St -> Prop)
  `{!Mono m} `{!forall x, Mono (k x)} :
  hoare C P m Q -> (forall x, hoare C (Q x) (k x) R) -> hoare C P (bind m k) R.
Proof.
  intros Hm Hk s s' r HI HP Hr. unfold bind. destruct (m s) as [s1 [x | e]] eqn:E; intros E2; simplify_eq.
  - destruct (mono _ _ _ (inv_ticking _ _ HI) E) as [Ht1 _].
    destruct (mono (m := k x) _ _ _ Ht1 E2) as [_ Hle].
    assert (Hr1 : w_now s1.2 - unixToInternal * Second <= int64_max) by lia.
    destruct (Hm _ _ _ HI HP Hr1 E) as (HI1 & Hk1 & HQ).
    destruct (Hk x _ _ _ HI1 (HQ x eq_refl) Hr E2) as (HI2 & Hk2 & HR).
    split; [done |]. split; [by eapply keeps_trans | done].
  - destruct (Hm _ _ _ HI HP Hr E) as (HI1 & Hk1 & _). split; [done |]. by split.
Qed.

Lemma hoare_wrapping {A} (P : St -> Prop) pre (m : IO A) Q : hoare C P m Q -> hoare C P (wrapping pre m) Q.
Proof.
  intros Hm s s' r HI HP Hr. unfold wrapping. destruct (m s) as [s1 [x | e]] eqn:E; intros [= <- <-];
    destruct (Hm _ _ _ HI HP Hr E) as (HI1 & Hk1 & HQ); split; [done | split; [done |] | done | by split].
  intros y [= <-]. by apply HQ.
Qed.

Lemma hoare_fail {A} (P : St -> Prop) e (Q : A -> St -> Prop) : hoare C P (fun s => (s, inr e)) Q.
Proof. intros s s' r HI HP _ [= <- <-]. split; [done |]. by split; [apply keeps_refl |]. Qed.

Lemma hoare_pre {A} (P P' : St -> Prop) (m : IO A) Q :
  (forall s, Inv C s -> P s -> P' s) -> hoare C P' m Q -> hoare C P m Q.
Proof. intros HP Hm s s' r HI Hs. apply Hm; auto. Qed.

Lemma hoare_post {A} (P : St -> Prop) (m : IO A) (Q Q' : A -> St -> Prop) :
  (forall x s, Inv C s -> Q x s -> Q' x s) -> hoare C P m Q -> hoare C P m Q'.
Proof.
  intros HQ Hm s s' r HI HP Hr E. destruct (Hm _ _ _ HI HP Hr E) as (HI1 & Hk1 & H1).
  split; [done |]. split; [done |]. intros x Hx. apply HQ; auto.
Qed.

Lemma hoare_if {A} (P : St -> Prop) (b : bool) (m m' : IO A) Q :
  hoare C P m Q -> hoare C P m' Q -> hoare C P (if b then m else m') Q.
Proof. by destruct b. Qed.

(** the state a successful call leads to, described by the state before it *)
Definition after {A} (P : St -> Prop) (ok : World -> World * A) (x : A) (s : St) : Prop :=
  exists w0, Inv C (s.1, w0) /\ P (s.1, w0) /\ s.2 = (ok w0).1 /\ x = (ok w0).2.

(** assertions the faults to come do not matter to *)
Definition stable (P : St -> Prop) : Prop :=
  forall p w fs, P (p, w) -> P (p, mkWorld (w_dir w) (w_sink w) (w_now w) (w_ticks w) fs).

Lemma hoare_syscall {A} (P : St -> Prop) (ok : World -> World * A) partial :
  (forall p w, Inv C (p, w) -> P (p, w) ->
     (Inv C (p, (ok w).1) /\ keeps w (ok w).1) /\
     (forall n, (C -> n = 0%nat) -> Inv C (p, partial n w) /\ keeps w (partial n w))) ->
  stable P -> hoare C P (syscall ok partial) (after P ok).
Proof.
  intros H HP [p w] s' r HI Hs Hr. unfold syscall.
  set (rest := mkWorld _ _ _ _ (tail (w_faults w))).
  assert (HIr : Inv C (p, rest)).
  { destruct HI as [H1 H2 H3 H4 H5 H6]. split; try done. intros HC. specialize (H4 HC). unfold clean in *. cbn in *.
    destruct (w_faults w); [done |]. by apply list.Forall_cons in H4 as [_ H4]. }
  assert (Hkr : keeps w rest) by (by apply keeps_same).
  destruct (H p rest HIr (HP _ _ _ Hs)) as ((Hok1 & Hok2) & Hpart).
  assert (Hok3 : after P ok (ok rest).2 (p, (ok rest).1)) by (exists rest; split; [done |]; split; [by apply HP | done]).
  destruct (head (w_faults w)) as [[f |] |] eqn:Hf.
  - intros [= <- <-]. destruct (Hpart (fault_done f)) as [Hp1 Hp2].
    { intros HC. pose proof (inv_clean _ _ HI HC) as Hcl. unfold clean in Hcl. cbn in Hcl.
      destruct (w_faults w) as [| o os]; [done |]. cbn in Hf. injection Hf as ->.
      by apply list.Forall_cons in Hcl as [Hcl _]. }
    split; [done |]. split; [by eapply keeps_trans | done].
  - destruct (ok rest) as [w' x] eqn:E. intros [= <- <-]. cbn in *.
    split; [done |]. split; [by eapply keeps_trans |]. intros y [= <-]. done.
  - destruct (ok rest) as [w' x] eqn:E. intros [= <- <-]. cbn in *.
    split; [done |]. split; [by eapply keeps_trans |]. intros y [= <-]. done.
Qed.

Lemma hoare_get_wal (P : St -> Prop) : hoare C P get_wal (fun p s => P s /\ p = s.1).
Proof. intros [p w] s' r HI HP _ [= <- <-]. split; [done |]. split; [apply keeps_refl |]. by intros x [= <-]. Qed.

Lemma hoare_put_wal (P : St -> Prop) f (Q : unit -> St -> Prop) :
  (forall p w, Inv C (p, w) -> P (p, w) -> Inv C (f p, w) /\ Q tt (f p, w)) -> hoare C P (put_wal f) Q.
Proof.
  intros H [p w] s' r HI HP _ [= <- <-]. destruct (H p w HI HP). split; [done |].
  split; [apply keeps_refl |]. by intros [] _.
Qed.

(** no file carries the name of a segment sealed at [t] *)
Definition Fresh (t : Time) (s : St) : Prop :=
  in_range t /\ t <= w_now s.2 /\ forall b, 0 <= b -> files s.2 !! segmentName b t = None.

Lemma hoare_time_Now (P : St -> Prop) :
  (forall p w now ticks, P (p, w) -> P (p, mkWorld (w_dir w) (w_sink w) now ticks (w_faults w))) ->
  hoare C P time_Now (fun t s => P s /\ Fresh t s).
Proof.
  intros HP [p w] s' r HI Hs Hr. unfold time_Now. intros [= <- <-]. cbn in Hr.
  set (t := w_now w + default 1 (head (w_ticks w))) in *.
  assert (Ht : w_now w < t /\ Forall (fun d => 0 < d) (tail (w_ticks w))).
  { pose proof (inv_ticking _ _ HI) as Hti. unfold ticking in Hti. cbn in Hti. unfold t.
    destruct (w_ticks w) as [| d ds]; cbn; [split; [lia | done] |].
    apply list.Forall_cons in Hti as [Hd Hds]. split; [lia | done]. }
  destruct Ht as [Ht Hti]. destruct HI as [H1 H2 H3 H4 H5 H6]. cbn in *.
  assert (Hin : in_range t) by (unfold in_range; lia).
  split; [split; try done; cbn; [| lia] |].
  { intros n f Hn. destruct (H1 n f Hn) as [-> | (b & t' & Hb & -> & Ht')]; [by left | right].
    exists b, t'. split; [done |]. split; [done |]. destruct Ht'. split; [done | lia]. }
  split; [by apply keeps_same |]. intros y [= <-]. split; [by apply HP |].
  split; [done |]. split; [cbn; lia |]. intros b Hb. cbn.
  destruct (files w !! segmentName b t) as [f |] eqn:Hf; [| done]. exfalso.
  destruct (H1 _ f Hf) as [He | (b' & t' & Hb' & He & Ht' & Hle)]; [by eapply segmentName_not_active |].
  pose proof (segmentName_time_inj b b' t t' Hb Hb' Hin Ht' He). lia.
Qed.

Lemma Inv_set_dir p w d :
  Inv C (p, w) ->
  (forall n f, d !! n = Some f ->
     n = activeSegmentName \/ exists b t, 0 <= b /\ n = segmentName b t /\ in_range t /\ t <= w_now w) ->
  (WAL_active p = Some true -> exists f, d !! activeSegmentName = Some f /\ (C -> closed (content f))) ->
  Inv C (p, set_dir w (Some d)).
Proof. intros [H1 H2 H3 H4 H5 H6] Hn Ha. by split. Qed.

(** syncing a file loses nothing and makes all of it durable *)
Lemma keeps_sync name w : keeps w (sync_file name w).
Proof.
  unfold sync_file. destruct (files w !! name) as [f |] eqn:Hf; [| apply keeps_refl].
  eapply keeps_insert; [apply files_set_dir | done | exact Hf |]. intros g [= <-]. cbn. unfold content. cbn.
  rewrite app_nil_r. split; [done |]. intros l. apply lines_app_elem.
Qed.

Lemma keeps_append name b w : keeps w (append_to name b w).
Proof.
  unfold append_to. destruct (files w !! name) as [f |] eqn:Hf; [| apply keeps_refl].
  eapply keeps_insert; [apply files_set_dir | done | exact Hf |]. intros g [= <-]. cbn. unfold content. cbn.
  split; [| done]. intros l. rewrite app_assoc. apply lines_app_elem.
Qed.

Lemma Inv_sync name p w : Inv C (p, w) -> Inv C (p, sync_file name w).
Proof.
  intros HI. unfold sync_file. destruct (files w !! name) as [f |] eqn:Hf; [| done].
  apply Inv_set_dir; [done | |].
  - intros n g. rewrite lookup_insert_Some. intros [[-> _] | [_ Hg]]; by eapply (inv_names _ _ HI).
  - intros Ha. destruct (inv_active _ _ HI Ha) as (g & Hg & Hc). cbn in Hg.
    destruct (decide (name = activeSegmentName)) as [-> | Hne].
    + rewrite lookup_insert_eq. eexists. split; [done |]. rewrite Hf in Hg. simplify_eq.
      unfold content at 1. cbn. by rewrite app_nil_r.
    + exists g. by rewrite lookup_insert_ne.
Qed.

Lemma hoare_Sync (P : St -> Prop) name :
  stable P -> hoare C P (file_Sync name) (after P (fun w => (sync_file name w, tt))).
Proof.
  apply hoare_syscall. intros p w HI HP. split; [split; [by apply Inv_sync | apply keeps_sync] |].
  intros n _. split; [done | apply keeps_refl].
Qed.

Lemma hoare_quiet {A} (P : St -> Prop) (x : World -> A) :
  stable P -> hoare C P (syscall (fun w => (w, x w)) unchanged) (fun y s => P s /\ y = x s.2).
Proof.
  intros HP. eapply hoare_post; [| apply (hoare_syscall P); [| exact HP]].
  - intros y [p w] _ (w0 & _ & HP0 & Hw & ->). cbn in *. by subst w0.
  - intros p w HI Hs. split; [split; [done | apply keeps_refl] |]. intros n _. split; [done | apply keeps_refl].
Qed.

Lemma hoare_Create (P : St -> Prop) name :
  (forall p w, Inv C (p, w) -> P (p, w) ->
     files w !! name = None /\ WAL_active p <> Some true /\
     (name = activeSegmentName \/ exists b t, 0 <= b /\ name = segmentName b t /\ in_range t /\ t <= w_now w)) ->
  stable P ->
  hoare C P (os_Create name) (after P (fun w => (set_dir w (Some (<[name := mkFile [] []]> (files w))), tt))).
Proof.
  intros HR. apply hoare_syscall. intros p w HI Hs.
  destruct (HR p w HI Hs) as (Hnone & Hact & Hname). split.
  - split.
    + apply Inv_set_dir; [done | | done].
      intros n f. rewrite lookup_insert_Some. intros [[<- _] | [_ Hf]]; [done | by eapply (inv_names _ _ HI)].
    + eapply keeps_insert; [apply files_set_dir | done | exact Hnone | done].
  - intros n _. split; [done | apply keeps_refl].
Qed.

(** a whole segment changes its name *)
Lemma hoare_Rename (P : St -> Prop) b t :
  (forall p w, Inv C (p, w) -> P (p, w) ->
     WAL_active p <> Some true /\ 0 <= b /\ Fresh t (p, w)) ->
  stable P ->
  hoare C P (os_Rename activeSegmentName (segmentName b t))
    (after P (fun w => (match files w !! activeSegmentName with
                        | Some f => set_dir w (Some (<[segmentName b t := f]> (delete activeSegmentName (files w))))
                        | None => w
                        end, tt))).
Proof.
  intros HR. apply hoare_syscall. intros p w HI Hs. destruct (HR p w HI Hs) as (Hact & Hb & Hin & Hle & Hfree).
  cbn in Hfree. split; [| intros n _; split; [done | apply keeps_refl]].
  cbn [fst]. destruct (files w !! activeSegmentName) as [f |] eqn:Hf; [| split; [done | apply keeps_refl]].
  assert (Hne : segmentName b t <> activeSegmentName) by (by apply segmentName_not_active).
  split.
  - apply Inv_set_dir; [done | | done]. intros n g. rewrite lookup_insert_Some, lookup_delete_Some.
    intros [[<- _] | [_ [_ Hg]]]; [right; by exists b, t | by eapply (inv_names _ _ HI)].
  - apply keeps_intro; [| done]. intros n g Hg. left. rewrite files_set_dir.
    destruct (decide (n = activeSegmentName)) as [-> | Hna].
    + exists (segmentName b t), g. rewrite lookup_insert_eq. simplify_eq. done.
    + exists n, g. split; [| done]. rewrite lookup_insert_ne; [by rewrite lookup_delete_ne |].
      intros <-. rewrite Hfree in Hg by done. done.
Qed.

(** a file is removed once another file, or the store, holds its lines *)
Lemma hoare_Remove (P : St -> Prop) name :
  (forall p w, Inv C (p, w) -> P (p, w) ->
     (name = activeSegmentName -> WAL_active p <> Some true) /\
     (forall f, files w !! name = Some f ->
        (exists n' f', n' <> name /\ files w !! n' = Some f' /\
           (forall l, l ∈ lines (content f) -> l ∈ lines (f_synced f'))) \/
        (exists k b, (k, b) ∈ w_sink w /\ forall l, l ∈ lines (content f) -> l ∈ lines b))) ->
  stable P ->
  hoare C P (os_Remove name) (after P (fun w => (set_dir w (Some (delete name (files w))), tt))).
Proof.
  intros HR. apply hoare_syscall. intros p w HI Hs. destruct (HR p w HI Hs) as [Hact Hcov].
  split; [split | intros n _; split; [done | apply keeps_refl]].
  - apply Inv_set_dir; [done | |].
    + intros n f. rewrite lookup_delete_Some. intros [_ Hf]. by eapply (inv_names _ _ HI).
    + intros Ha. destruct (inv_active _ _ HI Ha) as (f & Hf & Hc). exists f. split; [| done].
      rewrite lookup_delete_ne; [done |]. intros He. by apply Hact.
  - cbn [fst]. apply keeps_intro; [| done]. intros n f Hf. destruct (decide (n = name)) as [-> | Hne].
    + destruct (Hcov f Hf) as [(n' & f' & Hn' & Hf' & Hl) | (k & b & Hk & Hl)]; [left | right; eauto].
      exists n', f'. rewrite files_set_dir, lookup_delete_ne by done. split; [done |].
      split; intros l Hin; [apply lines_app_elem; auto | apply Hl; by apply lines_app_elem].
    + left. exists n, f. by rewrite files_set_dir, lookup_delete_ne.
Qed.

(** bytes are added to the end of a file *)
Lemma hoare_Write (P : St -> Prop) name b :
  (forall p w, Inv C (p, w) -> P (p, w) ->
     name = activeSegmentName -> C -> exists l, b = l ++ [newline]) ->
  stable P ->
  hoare C P (file_Write name b) (after P (fun w => (append_to name b w, tt))).
Proof.
  intros HR. apply hoare_syscall. intros p w HI Hs.
  assert (Hinv : forall b', (name = activeSegmentName -> C -> b' = [] \/ exists l, b' = l ++ [newline]) ->
            Inv C (p, append_to name b' w)).
  { intros b' Hb'. unfold append_to. destruct (files w !! name) as [f |] eqn:Hf; [| done].
    apply Inv_set_dir; [done | |].
    - intros n g. rewrite lookup_insert_Some. intros [[-> _] | [_ Hg]]; by eapply (inv_names _ _ HI).
    - intros Ha. destruct (inv_active _ _ HI Ha) as (g & Hg & Hc). cbn in Hg.
      destruct (decide (name = activeSegmentName)) as [-> | Hne]; [| exists g; by rewrite lookup_insert_ne].
      rewrite lookup_insert_eq. eexists. split; [done |]. rewrite Hf in Hg. simplify_eq. intros HC.
      unfold content. cbn. rewrite app_assoc. destruct (Hb' eq_refl HC) as [-> | [l ->]].
      + rewrite app_nil_r. by apply Hc.
      + apply closed_snoc_line. }
  split; [split; [apply Hinv; intros Hn HC; right; by eapply HR | apply keeps_append] |].
  intros n Hn. split; [| apply keeps_append]. apply Hinv. intros _ HC. left. by rewrite (Hn HC).
Qed.

(** what is stored stays stored through any specified operation *)
Lemma hoare_stored {A} (P : St -> Prop) (m : IO A) Q l :
  hoare C P m Q -> hoare C (fun s => P s /\ Stored s.2 l) m (fun x s => Q x s /\ Stored s.2 l).
Proof.
  intros Hm s s' r HI [HP Hl] Hr E. destruct (Hm _ _ _ HI HP Hr E) as (HI' & Hk & HQ).
  split; [done |]. split; [done |]. intros x Hx. split; [by apply HQ | by apply Hk].
Qed.

#[local] Hint Extern 0 (stable _) => by intros ? ? ? : core.

Ltac hbind Q := eapply (hoare_bind _ _ Q); [apply _ | intros ?; apply _ | |].

Definition any (s : St) : Prop := True.
Definition open_handle (s : St) : Prop := WAL_active s.1 = Some true.
Definition no_active_file (s : St) : Prop := files s.2 !! activeSegmentName = None.

Lemma stable_any : stable any.
Proof. done. Qed.

Lemma stable_and (P Q : St -> Prop) : stable P -> stable Q -> stable (fun s => P s /\ Q s).
Proof. intros HP HQ p w fs []. split; auto. Qed.

Lemma hoare_on_handle (P : St -> Prop) (m : IO unit) Q `{!Mono m} :
  hoare C (fun s => P s /\ open_handle s) m Q -> hoare C P (on_handle m) Q.
Proof.
  intros Hm. unfold on_handle.
  eapply hoare_bind; [apply _ | intros p; apply _ | apply hoare_get_wal |]. intros p.
  destruct (WAL_active p) as [[] |] eqn:Ha; [| apply hoare_fail..].
  eapply hoare_pre; [| exact Hm]. intros s _ [Hs ->]. by split.
Qed.

Lemma hoare_openFreshActive (P : St -> Prop) :
  (forall s, Inv C s -> P s -> WAL_active s.1 <> Some true /\ no_active_file s) -> stable P ->
  hoare C P (openFreshActive activeSegmentName) (fun _ s => open_handle s).
Proof.
  intros HP Hst. unfold openFreshActive.
  hbind (fun (_ : unit) (s : St) => files s.2 !! activeSegmentName = Some (mkFile [] [])).
  { apply hoare_wrapping. eapply hoare_post; [| apply (hoare_Create P); [| exact Hst]].
    - intros [] [p w] _ (w0 & _ & _ & Hw & _). cbn in Hw. subst w. cbn. by rewrite lookup_insert_eq.
    - intros p w HI Hs. destruct (HP _ HI Hs) as [Ha Hn]. split; [exact Hn |]. split; [done | by left]. }
  intros []. hbind (fun (t : Time) (s : St) => files s.2 !! activeSegmentName = Some (mkFile [] []) /\ Fresh t s).
  { apply hoare_time_Now. done. }
  intros now. apply hoare_put_wal. intros p w [H1 H2 H3 H4 H5 H6] [Hf _]. cbn in Hf. split; [| done].
  split; try done. intros _. exists (mkFile [] []). split; [done | by intros _].
Qed.

(** sealing ends with a fresh active segment open *)
Lemma hoare_seal : hoare C any seal (fun _ s => open_handle s).
Proof.
  unfold seal. hbind (fun (_ : unit) (s : St) => any s).
  { apply hoare_wrapping, hoare_on_handle; [apply _ |].
    eapply hoare_post; [| apply (hoare_Sync (fun s : St => any s /\ open_handle s)); by intros p w fs]. done. }
  intros []. hbind (fun (_ : unit) (s : St) => WAL_active s.1 = Some false).
  { apply hoare_wrapping. hbind (fun (_ : unit) (s : St) => WAL_active s.1 = Some false).
    - apply hoare_put_wal. intros p w [H1 H2 H3 H4 H5 H6] _. split; [by split | done].
    - intros []. eapply hoare_post; [| apply (hoare_quiet (fun s : St => WAL_active s.1 = Some false)); done]. by intros ? ? _ []. }
  intros []. hbind (fun (t : Time) (s : St) => WAL_active s.1 = Some false /\ Fresh t s).
  { apply hoare_time_Now. done. }
  intros now. hbind (fun (p : WAL) (s : St) => (WAL_active s.1 = Some false /\ Fresh now s) /\ p = s.1).
  { apply hoare_get_wal. }
  intros p0. hbind (fun (_ : unit) (s : St) => WAL_active s.1 = Some false /\ no_active_file s).
  { apply hoare_wrapping. eapply hoare_post; [| apply (hoare_Rename (fun s : St => (WAL_active s.1 = Some false /\ Fresh now s) /\ p0 = s.1))].
    - intros [] [p w] _ (w0 & HI0 & [[Ha (_ & _ & Hfree)] Hp] & Hw & _). cbn in *. split; [done |]. subst w.
      unfold no_active_file. cbn. destruct (files w0 !! activeSegmentName) as [f |] eqn:Hf; [| done].
      cbn. rewrite lookup_insert_ne; [by rewrite lookup_delete_eq |].
      apply segmentName_not_active. subst p0. apply (inv_base _ _ HI0).
    - intros p w HI [[Ha Hfr] ->]. cbn in Ha. cbn. split; [congruence |]. split; [apply (inv_base _ _ HI) | done].
    - done. }
  intros []. hbind (fun (_ : unit) (s : St) => WAL_active s.1 = None /\ no_active_file s).
  { apply hoare_put_wal. intros p w [H1 H2 H3 H4 H5 H6] [Ha Hn]. cbn in *. split; [| done].
    split; try done. cbn. lia. }
  intros []. apply hoare_openFreshActive; [| done]. intros s _ [Ha Hn]. split; [congruence | done].
Qed.

(** recovery moves the orphan's whole lines to a synced segment, then removes it *)
Lemma hoare_recoverOrphan base :
  0 <= base ->
  hoare C (fun s : St => WAL_active s.1 = None) (recoverOrphan base)
    (fun _ s => WAL_active s.1 = None /\ no_active_file s).
Proof.
  intros Hb. unfold recoverOrphan.
  set (raw_is := fun (raw : bytes) (s : St) => WAL_active s.1 = None /\
    forall f, files s.2 !! activeSegmentName = Some f -> raw = content f).
  hbind raw_is.
  { apply hoare_wrapping. eapply hoare_post; [| apply (hoare_quiet (fun s : St => WAL_active s.1 = None)); done].
    intros raw s _ [Ha ->]. split; [done |]. intros f Hf. by rewrite Hf. }
  intros raw. hbind (fun (t : Time) (s : St) => raw_is raw s /\ Fresh t s).
  { apply hoare_time_Now. done. }
  intros now. cbv zeta. set (name := segmentName base now).
  assert (Hna : name <> activeSegmentName) by (by apply segmentName_not_active).
  hbind (fun (_ : unit) (s : St) => raw_is raw s /\ files s.2 !! name = Some (mkFile [] [])).
  { apply hoare_wrapping. eapply hoare_post; [| apply (hoare_Create (fun s : St => raw_is raw s /\ Fresh now s))].
    - intros [] [p w] _ (w0 & _ & [[Ha Hraw] _] & Hw & _). cbn in *. subst w. split; [split; [done |] |].
      + intros f. cbn. rewrite lookup_insert_ne by done. apply Hraw.
      + cbn. by rewrite lookup_insert_eq.
    - intros p w HI [[Ha _] (Hin & Hle & Hfree)]. cbn in *. split; [by apply Hfree |]. split; [congruence |].
      right. by exists base, now.
    - done. }
  intros []. hbind (fun (_ : unit) (s : St) => raw_is raw s /\ exists f, files s.2 !! name = Some f /\ content f = complete raw).
  { apply hoare_wrapping.
    eapply hoare_post; [| apply (hoare_Write (fun s : St => raw_is raw s /\ files s.2 !! name = Some (mkFile [] [])))]; try done.
    intros [] [p w] _ (w0 & _ & [[Ha Hraw] Hf] & Hw & _). cbn in *. unfold append_to in Hw. rewrite Hf in Hw.
    subst w. cbn. split; [split; [done |] |].
    - intros f. cbn. rewrite lookup_insert_ne by done. apply Hraw.
    - eexists. by rewrite lookup_insert_eq. }
  intros []. hbind (fun (_ : unit) (s : St) => raw_is raw s /\ exists f, files s.2 !! name = Some f /\ f_synced f = complete raw).
  { apply hoare_wrapping.
    eapply hoare_post; [| apply (hoare_Sync (fun s : St => raw_is raw s /\ exists f, files s.2 !! name = Some f /\ content f = complete raw))]; [| done].
    intros [] [p w] _ (w0 & _ & [[Ha Hraw] (f & Hf & Hc)] & Hw & _). cbn in *. unfold sync_file in Hw. rewrite Hf in Hw.
    subst w. cbn. split; [split; [done |] |].
    - intros g. cbn. rewrite lookup_insert_ne by done. apply Hraw.
    - eexists. by rewrite lookup_insert_eq. }
  intros []. hbind (fun (_ : unit) (s : St) => raw_is raw s /\ exists f, files s.2 !! name = Some f /\ f_synced f = complete raw).
  { apply hoare_wrapping. eapply hoare_post; [| apply hoare_quiet; done]. by intros ? ? _ []. }
  intros []. eapply hoare_post; [| apply (hoare_Remove (fun s : St => raw_is raw s /\ exists f, files s.2 !! name = Some f /\ f_synced f = complete raw))]; [| | done].
  - intros [] [p w] _ (w0 & _ & [[Ha Hraw] _] & Hw & _). cbn in *. subst w. split; [done |].
    unfold no_active_file. cbn. by rewrite lookup_delete_eq.
  - intros p w HI [[Ha Hraw] (f & Hf & Hs)]. cbn in *. split; [congruence |]. intros g Hg. left.
    exists name, f. split; [done |]. split; [done |]. intros l. rewrite Hs, lines_complete. by rewrite (Hraw g Hg).
Qed.

Lemma hoare_ensureActive : hoare C any ensureActive (fun _ _ => True).
Proof.
  unfold ensureActive. hbind (fun (p : WAL) (s : St) => any s /\ p = s.1).
  { apply hoare_get_wal. }
  intros p0. destruct (WAL_active p0) as [h |] eqn:Ha0.
  { eapply hoare_post; [| apply hoare_ret]. done. }
  set (P := fun s : St => WAL_active s.1 = None).
  hbind (fun (_ : unit) (s : St) => P s).
  { apply hoare_wrapping. eapply hoare_post; [| apply (hoare_syscall (fun s : St => any s /\ p0 = s.1)); [| done]].
    - intros [] [p w] _ (w0 & _ & [_ Hp] & _). cbn in *. unfold P. cbn. by subst p.
    - intros p w HI [_ Hp]. cbn. split; [| intros n _; split; [done | apply keeps_refl]].
      split; [by destruct HI as [H1 H2 H3 H4 H5 H6]; split | by apply keeps_same]. }
  intros []. hbind (fun (base : Z) (s : St) => P s /\ 0 <= base).
  { apply hoare_wrapping. unfold nextBaseOffset. hbind (fun (_ : list string) (s : St) => P s).
    - apply hoare_wrapping. eapply hoare_post; [| apply (hoare_quiet P); done]. by intros ? ? _ [].
    - intros names. eapply hoare_post; [| apply hoare_ret]. intros z s _ [-> Hs]. split; [exact Hs | lia]. }
  intros base. hbind (fun (x : bool) (s : St) => (P s /\ 0 <= base) /\ (x = false -> no_active_file s)).
  { apply hoare_wrapping. eapply hoare_post; [| apply (hoare_quiet (fun s : St => P s /\ 0 <= base)); done].
    intros x s _ [Hs ->]. split; [done |]. unfold no_active_file. by destruct (files s.2 !! _). }
  intros x. hbind (fun (b : Z) (s : St) => (P s /\ no_active_file s) /\ 0 <= b).
  { destruct x.
    - eapply hoare_pre with (P' := fun s : St => P s /\ 0 <= base); [by intros s _ [] |].
      intros s s' r HI [HP Hb]. revert s s' r HI HP. change (hoare C P (recoverOrphan base ;;~ ret (base + 1))
        (fun b s => (P s /\ no_active_file s) /\ 0 <= b)).
      hbind (fun (_ : unit) (s : St) => P s /\ no_active_file s); [by apply hoare_recoverOrphan |].
      intros []. eapply hoare_post; [| apply hoare_ret]. intros z s _ [-> Hs]. split; [exact Hs | lia].
    - eapply hoare_post; [| apply hoare_ret]. intros z s _ [-> [[HP Hb] Hn]]. split; [split; [done | by apply Hn] | done]. }
  intros b. hbind (fun (_ : unit) (s : St) => P s /\ no_active_file s).
  { apply hoare_put_wal. intros p w [H1 H2 H3 H4 H5 H6] [[HP Hn] Hb]. unfold P in *. cbn in *.
    split; [by split | done]. }
  intros []. eapply hoare_post; [| apply hoare_openFreshActive; [| done]]; [done |].
  intros s _ [Ha Hn]. unfold P in Ha. split; [congruence | done].
Qed.

Lemma hoare_maybe_seal (P : St -> Prop) (b : bool) : hoare C P (if b then seal else ret tt) (fun _ s => True).
Proof.
  apply hoare_if.
  - eapply hoare_pre; [| eapply hoare_post; [| apply hoare_seal]]; done.
  - eapply hoare_post; [| apply hoare_ret]. done.
Qed.

(** an acknowledged line of whole bytes is stored *)
Lemma hoare_append_line l :
  Forall (fun x => Ascii.eqb x newline = false) l ->
  hoare C any (append_line (l ++ [newline])) (fun _ s => C -> Stored s.2 l).
Proof.
  intros Hl. unfold append_line. hbind (fun (_ : unit) (s : St) => any s).
  { eapply hoare_post; [| apply hoare_ensureActive]. done. }
  intros []. hbind (fun (t : Time) (s : St) => any s /\ Fresh t s).
  { by apply hoare_time_Now. }
  intros now. hbind (fun (p : WAL) (s : St) => (any s /\ Fresh now s) /\ p = s.1).
  { apply hoare_get_wal. }
  intros p0. hbind (fun (_ : unit) (s : St) => True).
  { apply hoare_maybe_seal. }
  intros []. hbind (fun (_ : unit) (s : St) => C -> Stored s.2 l).
  { apply hoare_wrapping, hoare_on_handle; [apply _ |].
    eapply hoare_post; [| apply (hoare_Write (fun s => True /\ open_handle s)); [| done]].
    - intros [] [p w] _ (w0 & HI0 & [_ Ha] & Hw & _) HC. cbn in *.
      destruct (inv_active _ _ HI0 Ha) as (f & Hf & Hcl). cbn in Hf.
      unfold append_to in Hw. rewrite Hf in Hw. subst w. left. cbn.
      exists activeSegmentName. eexists. rewrite lookup_insert_eq. split; [done |].
      unfold content. cbn. rewrite app_assoc. change (f_synced f ++ f_tail f) with (content f).
      rewrite lines_append by (try apply Hcl; done). set_solver.
    - intros p w _ _ _ _. by exists l. }
  intros []. hbind (fun (_ : unit) (s : St) => C -> Stored s.2 l).
  { apply hoare_put_wal. intros p w [H1 H2 H3 H4 H5 H6] Hs. split; [by split | done]. }
  intros []. hbind (fun (p : WAL) (s : St) => (C -> Stored s.2 l) /\ p = s.1).
  { apply hoare_get_wal. }
  intros p1. intros s s' r HI [Hs _] Hr E.
  destruct (hoare_maybe_seal any _ _ _ _ HI I Hr E) as (HI' & Hk & _).
  split; [done |]. split; [done |]. intros x _ HC. apply Hk. auto.
Qed.

Lemma hoare_SealIfStale : hoare C any SealIfStale (fun _ _ => True).
Proof.
  unfold SealIfStale. hbind (fun (p : WAL) (s : St) => any s /\ p = s.1).
  { apply hoare_get_wal. }
  intros p0. destruct (WAL_active p0); [| eapply hoare_post; [| apply hoare_ret]; done].
  apply hoare_if; [eapply hoare_post; [| apply hoare_ret]; done |].
  hbind (fun (t : Time) (s : St) => any s).
  { eapply hoare_post; [| eapply hoare_pre; [| apply (hoare_time_Now any)]]; done. }
  intros now. apply hoare_if; [eapply hoare_post; [| apply hoare_ret]; done |].
  apply hoare_wrapping. eapply hoare_post; [| apply hoare_seal]. done.
Qed.

Lemma hoare_sync_tick : hoare C any sync_tick (fun _ _ => True).
Proof.
  unfold sync_tick. hbind (fun (p : WAL) (s : St) => any s /\ p = s.1).
  { apply hoare_get_wal. }
  intros p0. destruct (WAL_active p0) as [[] |]; try (eapply hoare_post; [| apply hoare_ret]; done).
  eapply hoare_post; [| apply (hoare_Sync (fun s => any s /\ p0 = s.1)); done]. done.
Qed.

Lemma Inv_set_closed p w e :
  Inv C (p, w) ->
  Inv C (mkWAL (WAL_Dir p) (WAL_Beat p) (WAL_Subject p) (WAL_MaxBytes p) (WAL_MaxAge p) (WAL_active p) (WAL_size p)
           (WAL_openedAt p) (WAL_baseOffset p) e, w).
Proof. by intros [H1 H2 H3 H4 H5 H6]. Qed.

Lemma hoare_Close : hoare C any Close (fun _ _ => True).
Proof.
  unfold Close. set (m := wrapping "wal: close: sync: " (file_Sync activeSegmentName);;~ file_Close).
  intros s s' r HI _ Hr. unfold bind, get_wal. destruct s as [p w].
  destruct (WAL_closed p) as [[e |] |].
  { intros [= <- <-]. split; [done |]. by split; [apply keeps_refl |]. }
  { intros [= <- <-]. split; [done |]. by split; [apply keeps_refl |]. }
  unfold put_wal. set (p1 := set_active p None).
  assert (HI1 : Inv C (p1, w)) by (by destruct HI as [H1 H2 H3 H4 H5 H6]; split).
  destruct (WAL_active p) as [[] |].
  - destruct (m (p1, w)) as [[p2 w2] r2] eqn:E. intros [= <- <-]. change (w_now (p2, w2).2 - unixToInternal * Second <= int64_max) in Hr.
    assert (Hm : hoare C any m (fun _ _ => True)).
    { unfold m. hbind (fun (_ : unit) (s : St) => any s).
      - apply hoare_wrapping. eapply hoare_post; [| apply (hoare_Sync any); done]. done.
      - intros []. eapply hoare_post; [| apply (hoare_quiet any); done]. done. }
    destruct (Hm _ _ _ HI1 I Hr E) as (HI2 & Hk & _). split; [by apply (Inv_set_closed p2) |]. by split.
  - intros [= <- <-]. split; [by apply (Inv_set_closed p1) |]. by split; [apply keeps_refl |].
  - intros [= <- <-]. split; [by apply (Inv_set_closed p1) |]. by split; [apply keeps_refl |].
Qed.

(** ** Shipping *)

Lemma hoare_Put (P : St -> Prop) k b :
  stable P ->
  hoare C P (sink_Put k b)
    (after P (fun w => (mkWorld (w_dir w) (w_sink w ++ [(k, b)]) (w_now w) (w_ticks w) (w_faults w), tt))).
Proof.
  apply hoare_syscall. intros p w HI _.
  assert (Hgo : Inv C (p, mkWorld (w_dir w) (w_sink w ++ [(k, b)]) (w_now w) (w_ticks w) (w_faults w)) /\
                keeps w (mkWorld (w_dir w) (w_sink w ++ [(k, b)]) (w_now w) (w_ticks w) (w_faults w))).
  { split; [by destruct HI as [H1 H2 H3 H4 H5 H6]; split |].
    apply keeps_intro; [| cbn; set_solver]. intros n f Hf. left. by exists n, f. }
  split; [exact Hgo |]. intros [| n] _; [split; [done | apply keeps_refl] | exact Hgo].
Qed.

(** a segment is removed only once the store has all of it *)
Lemma hoare_shipOne name : name <> activeSegmentName -> hoare C any (shipOne name) (fun _ _ => True).
Proof.
  intros Hna. unfold shipOne. hbind (fun (p : WAL) (s : St) => any s /\ p = s.1).
  { apply hoare_get_wal. }
  intros p0. cbv zeta.
  set (raw_is := fun (raw : bytes) (s : St) => forall f, files s.2 !! name = Some f -> raw = content f).
  hbind raw_is.
  { apply hoare_wrapping. eapply hoare_post; [| apply (hoare_quiet (fun s => any s /\ p0 = s.1)); done].
    intros raw s _ [_ ->] f Hf. by rewrite Hf. }
  intros raw. set (key := WAL_Beat p0 +:+ _).
  hbind (fun (_ : unit) (s : St) => raw_is raw s /\ (key, raw) ∈ w_sink s.2).
  { apply hoare_wrapping. eapply hoare_post; [| apply (hoare_Put (raw_is raw)); done].
    intros [] [p w] _ (w0 & _ & Hraw & Hw & _). cbn in *. subst w. split; [exact Hraw |]. cbn. set_solver. }
  intros []. apply hoare_wrapping.
  eapply hoare_post; [| apply (hoare_Remove (fun s => raw_is raw s /\ (key, raw) ∈ w_sink s.2)); [| done]]; [done |].
  intros p w _ [Hraw Hk]. split; [done |]. intros f Hf. right. exists key, raw. split; [done |].
  intros l. by rewrite (Hraw f Hf).
Qed.

Lemma hoare_ship_all segments :
  Forall (fun n => n <> activeSegmentName) segments -> hoare C any (ship_all segments) (fun _ _ => True).
Proof.
  induction 1 as [| n segments Hn _ IH]; cbn [ship_all]; [eapply hoare_post; [| apply hoare_ret]; done |].
  hbind (fun (_ : unit) (s : St) => any s).
  - eapply hoare_post; [| by apply hoare_shipOne]. done.
  - intros []. exact IH.
Qed.

Lemma hoare_SealedSegments :
  hoare C any SealedSegments (fun segments _ => Forall (fun n => n <> activeSegmentName) segments).
Proof.
  intros [p w] s' r HI _ Hr. unfold SealedSegments. destruct (w_dir w) eqn:Hd.
  - revert s' r Hr. fold (files w).
    assert (Hm : hoare C any
      (names <~ wrapping "wal: sealed segments: " os_ReadDir;;
       ret (merge_sort str_le (List.filter is_segment names)))
      (fun segments _ => Forall (fun n => n <> activeSegmentName) segments)).
    { hbind (fun (_ : list string) (s : St) => any s).
      - apply hoare_wrapping. eapply hoare_post; [| apply (hoare_quiet any); done]. done.
      - intros names. eapply hoare_post; [| apply (hoare_ret _ any)]. intros l s _ [-> _].
        apply list.Forall_forall. intros n Hn. rewrite merge_sort_Permutation in Hn.
        apply elem_of_filterb in Hn as [_ Hseg]. intros ->. by rewrite active_not_segment in Hseg. }
    intros s' r Hr. by apply (Hm _ _ _ HI I).
  - intros [= <- <-]. split; [done |]. split; [apply keeps_refl |]. intros x [= <-]. done.
Qed.

Lemma hoare_Ship : hoare C any Ship (fun _ _ => True).
Proof.
  unfold Ship. hbind (fun segments (s : St) => any s /\ Forall (fun n => n <> activeSegmentName) segments).
  { eapply hoare_post; [| apply hoare_SealedSegments]. by split. }
  intros segments s s' r HI [_ HF]. by apply hoare_ship_all.
Qed.

Lemma hoare_ship_tick s s' r :
  Inv C s -> w_now s'.2 - unixToInternal * Second <= int64_max -> ship_tick s = (s', r) ->
  Inv C s' /\ keeps s.2 s'.2.
Proof.
  intros HI Hr. unfold ship_tick. destruct (SealIfStale s) as [s1 r1] eqn:E1. intros E2.
  destruct (mono (m := SealIfStale) _ _ _ (inv_ticking _ _ HI) E1) as [Ht1 _].
  destruct (mono (m := Ship) _ _ _ Ht1 E2) as [_ Hle].
  assert (Hr1 : w_now s1.2 - unixToInternal * Second <= int64_max) by lia.
  destruct (hoare_SealIfStale _ _ _ HI I Hr1 E1) as (HI1 & Hk1 & _).
  destruct (hoare_Ship _ _ _ HI1 I Hr E2) as (HI2 & Hk2 & _).
  split; [done | by eapply keeps_trans].
Qed.

Lemma hoare_Drain : hoare C any Drain (fun _ _ => True).
Proof.
  unfold Drain. hbind (fun (_ : unit) (s : St) => any s).
  { hbind (fun (p : WAL) (s : St) => any s /\ p = s.1); [apply hoare_get_wal |].
    intros p0. destruct (WAL_active p0); [| eapply hoare_post; [| apply hoare_ret]; done].
    apply hoare_if; [| eapply hoare_post; [| apply hoare_ret]; done].
    apply hoare_wrapping. eapply hoare_pre; [| eapply hoare_post; [| apply hoare_seal]]; done. }
  intros []. hbind (fun (_ : unit) (s : St) => any s).
  { apply hoare_wrapping. eapply hoare_post; [| apply hoare_Ship]. done. }
  intros []. apply hoare_Close.
Qed.

End logic.

(** ** Lemmas: runs *)

Section runs.
Context {W T : Type} `{PublisherLaws W T}.
Context (marshal : T -> result bytes).
Hypothesis marshal_one_line :
  forall obj line, marshal obj = inl line -> Forall (fun x => Ascii.eqb x newline = false) line.

#[local] Instance Mono_Append ctx obj : Mono (Append marshal ctx obj).
Proof.
  unfold Append. destruct (ctx_Err ctx); [apply _ |]. destruct (encodeLine marshal obj); apply _.
Qed.

(** the object [obj] is in the journal *)
Definition Journaled (w : World) (obj : T) : Prop := exists line, marshal obj = inl line /\ Stored w line.

Lemma hoare_Append C obj : hoare C any (Append marshal Background obj) (fun _ s => C -> Journaled s.2 obj).
Proof.
  unfold Append, encodeLine. cbn [ctx_Err Background]. destruct (marshal obj) as [line | e] eqn:Hm.
  - eapply hoare_post; [| apply hoare_append_line; by eapply marshal_one_line].
    intros [] s _ Hs HC. exists line. auto.
  - eapply (hoare_bind _ _ _ (fun _ s => any s)); [apply _ | intros ?; apply _ | |].
    { eapply hoare_post; [| apply hoare_ensureActive]. done. }
    intros []. eapply (hoare_bind _ _ _ (fun t s => any s)); [apply _ | intros ?; apply _ | |].
    { eapply hoare_post; [| apply (hoare_time_Now _ any)]; done. }
    intros now. eapply (hoare_bind _ _ _ (fun p s => any s)); [apply _ | intros ?; apply _ | |].
    { eapply hoare_post; [| apply (hoare_get_wal _ any)]. done. }
    intros p. eapply (hoare_bind _ _ _ (fun _ s => any s)); [apply _ | intros ?; apply _ | |].
    { eapply hoare_post; [| apply hoare_maybe_seal]. done. }
    intros []. apply hoare_fail.
Qed.

Abbreviation ev := (event (T := T)).
Abbreviation SW := (St * W)%type.

Lemma run_event_mono (sw : SW) (e : ev) sw' acked :
  ticking sw.1.2 -> run_event marshal sw e = (sw', acked) -> ticking sw'.1.2 /\ w_now sw.1.2 <= w_now sw'.1.2.
Proof.
  intros Ht. destruct e; cbn [run_event].
  - unfold WALPublisher_Publish. destruct (Append marshal Background obj sw.1) as [s1 [x | err]] eqn:E.
    + destruct (publish subject obj sw.2) as [w' [err |]]; intros [= <- <-]; by apply (mono _ _ _ Ht E).
    + intros [= <- <-]. by apply (mono _ _ _ Ht E).
  - unfold JournalPublisher_Publish. destruct (Append marshal Background obj sw.1) as [s1 [x | err]] eqn:E;
      intros [= <- <-]; by apply (mono _ _ _ Ht E).
  - intros [= <- <-]. destruct (sync_tick sw.1) as [s1 r] eqn:E. by apply (mono _ _ _ Ht E).
  - intros [= <- <-]. unfold ship_tick. destruct (SealIfStale sw.1) as [s1 r] eqn:E. cbn [fst].
    destruct (mono _ _ _ Ht E) as [Ht1 Hn1]. destruct (Ship s1) as [s2 r2] eqn:E2.
    destruct (mono _ _ _ Ht1 E2). split; [done | cbn; lia].
  - intros [= <- <-]. destruct (Drain sw.1) as [s1 r] eqn:E. by apply (mono _ _ _ Ht E).
  - intros [= <- <-]. destruct (Close sw.1) as [s1 r] eqn:E. by apply (mono _ _ _ Ht E).
  - intros [= <- <-]. done.
  - intros [= <- <-]. done.
Qed.

Lemma run_mono (sw : SW) (evs : list ev) sw' acked :
  ticking sw.1.2 -> run marshal sw evs = (sw', acked) -> ticking sw'.1.2 /\ w_now sw.1.2 <= w_now sw'.1.2.
Proof.
  revert sw acked. induction evs as [| e evs IH]; intros sw acked Ht; cbn [run]; [by intros [= <- <-] |].
  destruct (run_event marshal sw e) as [sw1 a1] eqn:E1. destruct (run marshal sw1 evs) as [sw2 a2] eqn:E2.
  intros [= <- <-]. destruct (run_event_mono _ _ _ _ Ht E1) as [Ht1 Hn1].
  destruct (IH _ _ Ht1 E2). split; [done | lia].
Qed.

Lemma Inv_restart C p w : Inv C (p, w) -> Inv C (restart p, w).
Proof. intros [H1 H2 H3 H4 H5 H6]. by split. Qed.

Lemma files_power_loss cut w n :
  files (power_loss cut w) !! n = survive cut n <$> files w !! n.
Proof.
  unfold power_loss, files. cbn. destruct (w_dir w) as [d |]; cbn; [| by rewrite lookup_empty].
  rewrite map_lookup_imap. by destruct (d !! n).
Qed.

Lemma power_loss_durable cut w l : Durable w l -> Durable (power_loss cut w) l.
Proof.
  intros [(n & f & Hf & Hl) | Hs]; [left | by right].
  exists n, (survive cut n f). rewrite files_power_loss, Hf. split; [done |]. by apply lines_app_elem.
Qed.

Lemma Inv_power_loss C cut p w : Inv C (p, w) -> Inv C (restart p, power_loss cut w).
Proof.
  intros [H1 H2 H3 H4 H5 H6]. split; try done. cbn [fst snd] in *. intros n f. rewrite files_power_loss.
  destruct (files w !! n) as [g |] eqn:Hg; [| done]. intros _. by apply (H1 n g).
Qed.

(** what one event does to the journal and to the stream *)
Definition is_power_loss (e : ev) : bool := match e with EvPowerLoss _ => true | _ => false end.

Lemma Journaled_keeps w w' obj : keeps w w' -> Journaled w obj -> Journaled w' obj.
Proof. intros [Hk _] (line & Hm & Hs). exists line. auto. Qed.

Lemma run_event_spec C (sw : SW) (e : ev) sw' acked :
  Inv C sw.1 -> w_now sw'.1.2 - unixToInternal * Second <= int64_max -> run_event marshal sw e = (sw', acked) ->
  Inv C sw'.1 /\ (forall l, Durable sw.1.2 l -> Durable sw'.1.2 l) /\
  (is_power_loss e = false -> keeps sw.1.2 sw'.1.2) /\
  (C -> forall obj, obj ∈ acked -> Journaled sw'.1.2 obj) /\
  (C -> forall subj obj, (subj, obj) ∈ delivered sw'.2 -> (subj, obj) ∈ delivered sw.2 \/ Journaled sw'.1.2 obj).
Proof.
  intros HI Hr. destruct sw as [s w]. destruct e; cbn [run_event].
  - unfold WALPublisher_Publish. cbn [fst snd].
    destruct (Append marshal Background obj s) as [s1 r] eqn:E. intros Hrun.
    assert (Hr1 : w_now s1.2 - unixToInternal * Second <= int64_max).
    { destruct r as [x | err]; [destruct (publish subject obj w) as [w' [err |]] |]; by simplify_eq. }
    destruct (hoare_Append C obj _ _ _ HI I Hr1 E) as (HI1 & Hk & HQ).
    destruct r as [[] | err].
    + specialize (HQ tt eq_refl). destruct (publish subject obj w) as [w' r'] eqn:Ep.
      assert (Hdel : forall subj o, (subj, o) ∈ delivered w' -> (subj, o) ∈ delivered w \/ o = obj).
      { intros subj o. destruct (publish_at_most_once _ _ _ _ _ Ep) as [-> | ->]; [by left |].
        intros [Hin | Hin]%elem_of_app; [by left | right]. apply list_elem_of_singleton in Hin. by simplify_eq. }
      destruct r' as [err |]; simplify_eq; cbn [fst snd]; (split; [done |]; split; [apply Hk |]; split; [done |]; split).
      * intros _ o Ho. set_solver.
      * intros HC subj o Ho. destruct (Hdel _ _ Ho) as [| ->]; [by left | right; auto].
      * intros HC o Ho. apply list_elem_of_singleton in Ho as ->. auto.
      * intros HC subj o Ho. destruct (Hdel _ _ Ho) as [| ->]; [by left | right; auto].
    + simplify_eq; cbn [fst snd]. split; [done |]. split; [apply Hk |]. split; [done |]. split; [set_solver |]. by left.
  - unfold JournalPublisher_Publish. cbn [fst snd].
    destruct (Append marshal Background obj s) as [s1 r] eqn:E. intros Hrun.
    assert (Hr1 : w_now s1.2 - unixToInternal * Second <= int64_max) by (destruct r; by simplify_eq).
    destruct (hoare_Append C obj _ _ _ HI I Hr1 E) as (HI1 & Hk & HQ).
    destruct r as [[] | err]; simplify_eq; cbn [fst snd]; (split; [done |]; split; [apply Hk |]; split; [done |]; split; [| by left]).
    + intros HC o Ho. apply list_elem_of_singleton in Ho as ->. by apply (HQ tt eq_refl).
    + set_solver.
  - cbn [fst snd]. destruct (sync_tick s) as [s1 r] eqn:E. intros; simplify_eq. cbn [fst snd] in *.
    destruct (hoare_sync_tick C _ _ _ HI I Hr E) as (HI1 & Hk & _). split; [done |]. split; [apply Hk |].
    split; [done |]. split; [set_solver | by left].
  - cbn [fst snd]. destruct (ship_tick s) as [s1 r] eqn:E. intros; simplify_eq. cbn [fst snd] in *.
    destruct (hoare_ship_tick C _ _ _ HI Hr E) as (HI1 & Hk). split; [done |]. split; [apply Hk |].
    split; [done |]. split; [set_solver | by left].
  - cbn [fst snd]. destruct (Drain s) as [s1 r] eqn:E. intros; simplify_eq. cbn [fst snd] in *.
    destruct (hoare_Drain C _ _ _ HI I Hr E) as (HI1 & Hk & _). split; [done |]. split; [apply Hk |].
    split; [done |]. split; [set_solver | by left].
  - cbn [fst snd]. destruct (Close s) as [s1 r] eqn:E. intros; simplify_eq. cbn [fst snd] in *.
    destruct (hoare_Close C _ _ _ HI I Hr E) as (HI1 & Hk & _). split; [done |]. split; [apply Hk |].
    split; [done |]. split; [set_solver | by left].
  - intros; simplify_eq. destruct s as [p w']. cbn [fst snd] in *. split; [by apply Inv_restart |].
    split; [done |]. split; [intros _; apply keeps_refl |]. split; [set_solver | by left].
  - intros; simplify_eq. destruct s as [p w']. cbn [fst snd] in *. split; [by apply Inv_power_loss |].
    split; [intros l; apply power_loss_durable |]. split; [done |]. split; [set_solver | by left].
Qed.

Lemma run_spec C (sw : SW) (evs : list ev) sw' acked :
  Inv C sw.1 -> w_now sw'.1.2 - unixToInternal * Second <= int64_max -> run marshal sw evs = (sw', acked) ->
  Inv C sw'.1 /\ (forall l, Durable sw.1.2 l -> Durable sw'.1.2 l) /\
  (forallb (fun e => negb (is_power_loss e)) evs = true ->
   keeps sw.1.2 sw'.1.2 /\
   (C -> forall obj, obj ∈ acked -> Journaled sw'.1.2 obj) /\
   (C -> forall subj obj, (subj, obj) ∈ delivered sw'.2 -> (subj, obj) ∈ delivered sw.2 \/ Journaled sw'.1.2 obj)).
Proof.
  revert sw acked. induction evs as [| e evs IH]; intros sw acked HI Hr; cbn [run].
  { intros [= <- <-]. split; [done |]. split; [done |]. intros _. split; [by apply keeps_refl |].
    split; [set_solver | by left]. }
  destruct (run_event marshal sw e) as [sw1 a1] eqn:E1. destruct (run marshal sw1 evs) as [sw2 a2] eqn:E2.
  intros [= <- <-]. destruct (run_event_mono _ _ _ _ (inv_ticking _ _ HI) E1) as [Ht1 _].
  destruct (run_mono _ _ _ _ Ht1 E2) as [_ Hle].
  assert (Hr1 : w_now sw1.1.2 - unixToInternal * Second <= int64_max)
    by (eapply Z.le_trans; [apply Z.sub_le_mono_r; exact Hle | exact Hr]).
  destruct (run_event_spec C _ _ _ _ HI Hr1 E1) as (HI1 & Hd1 & Hk1 & Ha1 & Hp1).
  destruct (IH _ _ HI1 Hr E2) as (HI2 & Hd2 & H2). split; [done |]. split; [auto |].
  cbn [forallb]. rewrite andb_true_iff, negb_true_iff. intros [He Hes].
  destruct (H2 Hes) as (Hk2 & Ha2 & Hp2). split; [eapply keeps_trans; eauto |]. split.
  - intros HC obj [Ho | Ho]%elem_of_app; [| auto]. eapply Journaled_keeps; eauto.
  - intros HC subj obj Ho. destruct (Hp2 HC _ _ Ho) as [Ho' |]; [| by right].
    destruct (Hp1 HC _ _ Ho') as [| Hj]; [by left | right]. by eapply Journaled_keeps.
Qed.

End runs.

(** ** Claims *)

(** a log that was never written to *)
Definition fresh_start (dir beat subject : string) (maxBytes : Z) (maxAge : Duration) (now : Time) (ticks : list Z)
  (faults : list (option fault)) : St :=
  (newWAL dir beat subject maxBytes maxAge, mkWorld None [] now ticks faults).

Lemma Inv_fresh_start C dir beat subject mb ma now ticks faults :
  Forall (fun d => 0 < d) ticks -> int64_min <= now - unixToInternal * Second ->
  (C -> clean (mkWorld None [] now ticks faults)) ->
  Inv C (fresh_start dir beat subject mb ma now ticks faults).
Proof. intros Ht Hn Hc. by split. Qed.

(** A segment's name tells what it is: the offset and the instant it was sealed
    at are read back from it, the active segment is never taken for a sealed one,
    and for any two segments of increasing offsets the names sort in that order,
    whatever the times. *)
Theorem segment_names (b b' : Z) (t t' : Time) :
  0 <= b < b' -> b' <= int64_max -> in_range t -> in_range t' ->
  parseSegmentName (segmentName b t) = Some (b, t) /\ is_segment activeSegmentName = false /\
  str_lt (segmentName b t) (segmentName b' t').
Proof.
  intros Hb Hmax Ht Ht'. split; [| split; [reflexivity |]].
  - unfold parseSegmentName. rewrite segment_trimmed, segment_cut by lia.
    unfold ParseInt at 1. rewrite parse_int_zero_pad by lia.
    rewrite (proj2 (in_int64_spec b)) by (unfold int64_min; lia).
    rewrite ParseInt_fmt_d by apply wrap64_range. by rewrite time_of_nanos_UnixNano.
  - apply zero_pad_lt; [lia | done |]. unfold int64_max in Hmax. lia.
Qed.

Lemma segment_names_witness :
  parseSegmentName (segmentName 7 (unixToInternal * Second + 42)) = Some (7, unixToInternal * Second + 42) /\
  str_lt (segmentName 7 (unixToInternal * Second + 42)) (segmentName 10 (unixToInternal * Second)).
Proof.
  destruct (segment_names 7 10 (unixToInternal * Second + 42) (unixToInternal * Second)
    ltac:(vm_compute; split; congruence) ltac:(vm_compute; congruence)
    ltac:(vm_compute; split; congruence) ltac:(vm_compute; split; congruence)) as (H1 & _ & H2).
  by split.
Defined.

(** C26. The record exists before the fact travels, and is not lost: over any run of
    publishes, journal writes, syncs, ships, drains, closes and process deaths, with
    any system call failing at any point (a write or an upload being all or nothing)
    and a clock that moves forward, every object whose publish was acknowledged and
    every object the next publisher delivered is a whole line of the active segment,
    of a sealed one, or of a segment in the store. *)
Theorem delivered_is_journaled {W T} `{PublisherLaws W T} (marshal : T -> result bytes)
  dir beat subject mb ma now ticks faults (w : W) (evs : list (event (T := T))) s' w' acked :
  (forall obj line, marshal obj = inl line -> Forall (fun x => Ascii.eqb x newline = false) line) ->
  Forall (fun d => 0 < d) ticks -> int64_min <= now - unixToInternal * Second ->
  Forall (fun o => match o with Some f => fault_done f = 0%nat | None => True end) faults ->
  forallb (fun e => negb (is_power_loss e)) evs = true ->
  run marshal (fresh_start dir beat subject mb ma now ticks faults, w) evs = ((s', w'), acked) ->
  w_now s'.2 - unixToInternal * Second <= int64_max ->
  (forall obj, obj ∈ acked -> Journaled marshal s'.2 obj) /\
  (forall subj obj, (subj, obj) ∈ delivered w' -> (subj, obj) ∈ delivered w \/ Journaled marshal s'.2 obj).
Proof.
  intros Hm Ht Hn Hcl Hpl Hrun Hr.
  assert (HI : Inv True (fresh_start dir beat subject mb ma now ticks faults, w).1) by (by apply Inv_fresh_start).
  destruct (run_spec marshal Hm True _ _ (s', w') _ HI Hr Hrun) as (_ & _ & Hall).
  destruct (Hall Hpl) as (_ & Ha & Hd). split; [exact (Ha I) | exact (Hd I)].
Qed.

(** C27. What was synced is never lost: over any run with process deaths and power
    losses, torn writes and uploads, and failures anywhere, a line whose bytes were
    synced (or shipped) at some point is found in the directory or the store ever
    after; and a sync tick that succeeds on an open segment makes every line of that
    segment so. *)
Theorem synced_lines_survive {W T} `{PublisherLaws W T} (marshal : T -> result bytes)
  dir beat subject mb ma now ticks faults (w : W) (evs1 evs2 : list (event (T := T))) sw1 sw2 acked1 acked2 :
  (forall obj line, marshal obj = inl line -> Forall (fun x => Ascii.eqb x newline = false) line) ->
  Forall (fun d => 0 < d) ticks -> int64_min <= now - unixToInternal * Second ->
  run marshal (fresh_start dir beat subject mb ma now ticks faults, w) evs1 = (sw1, acked1) ->
  run marshal sw1 evs2 = (sw2, acked2) ->
  w_now sw2.1.2 - unixToInternal * Second <= int64_max ->
  (forall l, Durable sw1.1.2 l -> Durable sw2.1.2 l) /\
  (forall s' f l, sync_tick sw1.1 = (s', inl tt) -> WAL_active sw1.1.1 = Some true ->
     files sw1.1.2 !! activeSegmentName = Some f -> l ∈ lines (content f) -> Durable s'.2 l).
Proof.
  intros Hm Ht Hn H1 H2 Hr.
  assert (HI0 : Inv False (fresh_start dir beat subject mb ma now ticks faults, w).1) by (by apply Inv_fresh_start).
  destruct (run_mono marshal _ _ _ _ (inv_ticking _ _ HI0) H1) as [Ht1 _].
  destruct (run_mono marshal _ _ _ _ Ht1 H2) as [_ Hle].
  assert (Hr1 : w_now sw1.1.2 - unixToInternal * Second <= int64_max)
    by (eapply Z.le_trans; [apply Z.sub_le_mono_r; exact Hle | exact Hr]).
  destruct (run_spec marshal Hm False _ _ _ _ HI0 Hr1 H1) as (HI1 & _ & _).
  destruct (run_spec marshal Hm False _ _ _ _ HI1 Hr H2) as (_ & Hd & _).
  split; [exact Hd |]. intros s' f l Hs Ha Hf Hl. destruct sw1 as [[p w1] wd]. cbn in *.
  unfold sync_tick, bind, get_wal in Hs. rewrite Ha in Hs. unfold file_Sync, syscall in Hs.
  destruct (head (w_faults w1)) as [[flt |] |]; simplify_eq; cbn; left; exists activeSegmentName;
    unfold sync_file; cbn; change (default ∅ (w_dir w1)) with (files w1); unfold files at 1; cbn;
    change (default ∅ (w_dir w1)) with (files w1); rewrite Hf; eexists; cbn; rewrite lookup_insert_eq; done.
Qed.

(** ** Findings *)

(** a rename that fails while sealing leaves the handle closed but not forgotten, and
    from then on every append of this process fails, however healthy the disk is *)
Lemma closed_handle_wedges (s : St) (line : bytes) :
  WAL_active s.1 = Some false ->
  exists s' e, append_line line s = (s', inr e) /\ WAL_active s'.1 = Some false.
Proof.
  intros Ha. destruct s as [p w]. cbn in Ha.
  unfold append_line, ensureActive, bind at 1, get_wal at 1. unfold bind at 1. rewrite Ha.
  unfold ret at 1. unfold bind at 1. unfold time_Now. unfold bind at 1. unfold get_wal at 1.
  set (w1 := mkWorld _ _ _ _ _). unfold bind at 1.
  destruct (maxAge p <=? Sub _ (WAL_openedAt p)).
  - unfold seal, bind at 1, wrapping, on_handle, bind at 1, get_wal at 1. rewrite Ha. eauto.
  - unfold ret at 1, bind at 1, wrapping, on_handle, bind at 1, get_wal at 1. rewrite Ha. eauto.
Qed.

(** *** Concrete logs *)

Definition of_text (s : string) : bytes := String.list_ascii_of_string s.
Definition to_text (b : bytes) : string := String.string_of_list_ascii b.

(** objects are texts without newlines *)
Definition demo_marshal (obj : string) : result bytes :=
  if existsb (fun c => Ascii.eqb c newline) (of_text obj) then inr (errors_New "newline") else inl (of_text obj).

Lemma demo_marshal_one_line obj line :
  demo_marshal obj = inl line -> Forall (fun x => Ascii.eqb x newline = false) line.
Proof.
  unfold demo_marshal. destruct (existsb _ (of_text obj)) eqn:E; [done |]. intros [= <-].
  apply list.Forall_forall. intros x Hx. apply not_true_iff_false. intros Ht.
  apply not_true_iff_false in E. apply E. apply existsb_exists. exists x. split; [by apply list_elem_of_In | done].
Qed.

Definition demo_now : Time := unixToInternal * Second.

Definition demo_log (maxBytes : Z) (faults : list (option fault)) : St :=
  fresh_start "wal" "hiss" "thump.decisions" maxBytes 0 demo_now [] faults.

Definition failing (n : nat) (partial : nat) : list (option fault) :=
  repeat None n ++ [Some (mkFault (errors_New "no space left on device") partial)].

(** the directory, readable *)
Definition listing (w : World) : list (string * string) :=
  map (fun kv => (kv.1, to_text (content kv.2))) (map_to_list (files w)).

Definition demo_events : list (event (T := string)) :=
  [EvPublish "thump.decisions" "a"; EvRestart; EvPublish "thump.decisions" "b"; EvShip; EvPublish "thump.decisions" "c";
   EvDrain].

Lemma delivered_is_journaled_witness :
  let '(s, w, acked) := run demo_marshal (demo_log 2 (failing 20 0), mkMemPub [] 0) demo_events in
  acked = ["a"; "c"]%string /\ forall obj, obj ∈ acked -> Journaled demo_marshal s.2 obj.
Proof.
  destruct (run demo_marshal (demo_log 2 (failing 20 0), mkMemPub [] 0) demo_events) as [[s w] acked] eqn:E.
  assert (Ha : acked = ["a"; "c"]%string /\ w_now s.2 - unixToInternal * Second <= int64_max).
  { vm_compute in E. injection E as <- <- <-. vm_compute. split; [reflexivity | congruence]. }
  split; [apply Ha |].
  apply (delivered_is_journaled demo_marshal "wal" "hiss" "thump.decisions" 2 0 demo_now [] (failing 20 0)
           (mkMemPub [] 0) demo_events s w acked demo_marshal_one_line); try exact E; try apply Ha.
  - constructor.
  - vm_compute. congruence.
  - repeat constructor.
  - reflexivity.
Defined.

Lemma synced_lines_survive_witness :
  let '(sw1, _) := run demo_marshal (demo_log 0 [], mkMemPub [] 0)
                     [EvPublish "thump.decisions" "a"; EvSync; EvPublish "thump.decisions" "b"] in
  let '(sw2, _) := run demo_marshal sw1 [EvPowerLoss (fun _ => 1%nat); EvPublish "thump.decisions" "c"] in
  Durable sw2.1.2 (of_text "a").
Proof.
  destruct (run demo_marshal (demo_log 0 [], mkMemPub [] 0)
              [EvPublish "thump.decisions" "a"; EvSync; EvPublish "thump.decisions" "b"]%string) as [sw1 a1] eqn:E1.
  destruct (run demo_marshal sw1 [EvPowerLoss (fun _ => 1%nat); EvPublish "thump.decisions" "c"]%string)
    as [sw2 a2] eqn:E2.
  assert (H1 : Durable sw1.1.2 (of_text "a")).
  { vm_compute in E1. injection E1 as <- <-. left. exists activeSegmentName. eexists. split; [reflexivity |].
    vm_compute. left. }
  assert (Hr : w_now sw2.1.2 - unixToInternal * Second <= int64_max).
  { vm_compute in E1. injection E1 as <- <-. vm_compute in E2. injection E2 as <- <-. vm_compute. congruence. }
  apply (proj1 (synced_lines_survive demo_marshal "wal" "hiss" "thump.decisions" 0 0 demo_now [] [] (mkMemPub [] 0)
           _ _ sw1 sw2 a1 a2 demo_marshal_one_line ltac:(constructor) ltac:(vm_compute; congruence) E1 E2 Hr)).
  exact H1.
Defined.

(** a sealing failure after the write: the append reports an error although its line
    is in the journal, nothing is delivered, and the retry journals it again *)
Example failed_seal_journals_undelivered :
  let '(s, w, acked) := run demo_marshal (demo_log 2 (failing 5 0), mkMemPub [] 0)
                          [EvPublish "thump.decisions" "a"; EvPublish "thump.decisions" "a"] in
  acked = ["a"%string] /\ length (delivered w) = 1%nat /\
  flat_map (fun f => map to_text (lines (content f.2))) (map_to_list (files s.2)) = ["a"; "a"]%string.
Proof. vm_compute. repeat split. Qed.

(** the rename of a seal fails once: every later publish of the process fails *)
Example failed_rename_stops_the_beat :
  let '(s, w, acked) := run demo_marshal (demo_log 2 (failing 7 0), mkMemPub [] 0)
                          [EvPublish "thump.decisions" "a"; EvPublish "thump.decisions" "b";
                           EvShip; EvPublish "thump.decisions" "c"] in
  acked = [] /\ WAL_active s.1 = Some false.
Proof. vm_compute. split; reflexivity. Qed.

(** a write that fails half done leaves its bytes; the next line is glued to them and
    is not a line of the journal, although its publish is acknowledged *)
Example torn_write_corrupts_next :
  let '(s, w, acked) := run demo_marshal (demo_log 0 (failing 4 1), mkMemPub [] 0)
                          [EvPublish "thump.decisions" "one"; EvPublish "thump.decisions" "two"] in
  acked = ["two"%string] /\
  flat_map (fun f => map to_text (lines (content f.2))) (map_to_list (files s.2)) = ["otwo"%string].
Proof. vm_compute. split; reflexivity. Qed.

(** offsets restart from the number of segments still on disk: with segments 5 and 6
    unshipped, the next one is numbered 2 and is listed before them *)
Definition leftover_world : World :=
  mkWorld (Some {[ segmentName 5 demo_now := mkFile (of_text "five") [newline];
                   segmentName 6 (demo_now + 1) := mkFile (of_text "six") [newline] ]})
    [] (demo_now + 1) [] [].

Example restart_renumbers_segments :
  let s := (newWAL "wal" "hiss" "thump.decisions" 2 0, leftover_world) in
  let s' := (append_line (of_text "a" ++ [newline]) s).1 in
  map (fun n => option_map fst (parseSegmentName n)) (match (SealedSegments s').2 with inl l => l | inr _ => [] end)
  = [Some 2; Some 5; Some 6].
Proof. vm_compute. reflexivity. Qed.
