(* ===== verification/Inbox.v ===== *)
(** * internal/beat and internal/publish: the directory transports

    [DrainDir] and [Disposition] (beat/drain.go), the [Tick] of hiss, thump and
    clank and of clank's two return edges (hiss/transport.go, thump/transport.go,
    clank/transport.go, clank/click.go, clank/decline.go), and the offline
    publisher [DirPublisher] (publish/publish.go).

    An inbox is its files and what has been filed in its subdirectories, both by
    base name; a path [dir/name] is represented by [name].  Every system call
    consumes one entry of [in_faults] ([None] or an exhausted list is success), so
    a pass covers every failure point.  YAML decoding is a parameter. *)

From Stdlib Require Import Ascii.
From stdpp Require Import sorting.
From S2P Require Import Prelude Effects GoTime Decimal GoFloat Api Ledger Contract Publish Hiss HissTransport ThumpExec ThumpTransport ClankLedger.
Local Open Scope Z_scope.
Local Open Scope io_scope.

Abbreviation IO := Effects.IO.

Record Inbox : Type := mkInbox {
  in_files : gmap string string;
  in_filed : gmap (string * string) string;
  in_faults : list (option error)
}.

Definition ErrNotExist : error := errors_New "file does not exist".

(** one system call *)
Definition sys {A} (f : Inbox -> Inbox * result A) : IO Inbox A :=
  fun ib =>
    let ib1 := mkInbox (in_files ib) (in_filed ib) (tail (in_faults ib)) in
    match head (in_faults ib) with
    | Some (Some e) => (ib1, inr e)
    | _ => f ib1
    end.

Definition yaml_ext : string := ".yaml".

Definition is_yaml (name : string) : bool :=
  match strings_CutSuffix name yaml_ext with Some _ => true | None => false end.

Definition name_le (a b : string) : Prop := String.leb a b = true.
#[export] Instance name_le_dec a b : base.Decision (name_le a b).
Proof. unfold name_le. apply _. Defined.

(** [filepath.Glob(dir/*.yaml)]: the matches in lexical order *)
Definition Glob : IO Inbox (list string) :=
  sys (fun ib => (ib, inl (merge_sort name_le (List.filter is_yaml (map fst (map_to_list (in_files ib))))))).

Definition ReadFile (name : string) : IO Inbox string :=
  sys (fun ib => (ib, match in_files ib !! name with Some raw => inl raw | None => inr ErrNotExist end)).

Definition Rename (name sub : string) : IO Inbox unit :=
  sys (fun ib =>
    match in_files ib !! name with
    | Some raw => (mkInbox (delete name (in_files ib)) (<[(sub, name) := raw]> (in_filed ib)) (in_faults ib), inl tt)
    | None => (ib, inr ErrNotExist)
    end).

Definition Disposition (name sub : string) : IO Inbox unit :=
  sys (fun ib => (ib, inl tt)) (* os.MkdirAll *) ;;~
  Rename name sub.

(** ** DrainDir *)

Section drain.
Context {B T : Type}.
Context (decode : string -> result T) (dir prefix : string) (handle : string -> T -> IO (B * Inbox) unit).

Definition path (name : string) : string := dir +:+ "/" +:+ name.

Definition drain_one (name : string) : IO (B * Inbox) unit :=
  raw <~ wrapping (prefix +:+ ": read " +:+ path name +:+ ": ") (on_snd (ReadFile name)) ;;
  match decode raw with
  | inr _ =>
      wrapping (prefix +:+ ": quarantine " +:+ path name +:+ ": ") (on_snd (Disposition name "quarantine"))
  | inl v => handle name v
  end.

Fixpoint drain_files (matches : list string) : IO (B * Inbox) unit :=
  match matches with
  | [] => ret tt
  | name :: rest => drain_one name ;;~ drain_files rest
  end.

Definition DrainDir : IO (B * Inbox) unit :=
  matches <~ wrapping (prefix +:+ ": list inbox: ") (on_snd Glob) ;;
  drain_files matches.

End drain.

(** ** The ticks *)

Definition with_ctx {S} (ctx : context) (m : IO S unit) : IO S unit :=
  match ctx_Err ctx with Some e => fail e | None => m end.

(** hiss/transport.go.  [now] is the clock read for a file. *)
Definition hiss_Tick {W} `{Publisher W Governed} (cfg : TransportConfig W) (decode : string -> result ProposalSet)
  (dir : string) (ctx : context) (now : string -> Time) : IO (TransportState W * Inbox) unit :=
  with_ctx ctx
    (DrainDir decode dir "hiss" (fun name ps =>
       wrapping ("hiss: handle " +:+ path dir name +:+ ": ") (on_fst (HissTransport.handle cfg ps (now name))) ;;~
       wrapping ("hiss: archive " +:+ path dir name +:+ ": ") (on_snd (Disposition name "processed")))).

(** thump/transport.go *)
Definition thump_Tick {WO WU WD WG C} `{Publisher WO Order} `{Publisher WU Outcome} `{Publisher WD Decision}
  `{Publisher WG Governed} (tr : Transport (C := C)) (decode : string -> result Governed) (dir : string) (ctx : context)
  (now1 now2 : string -> Time)
  : IO (ThumpTransport.State (WO := WO) (WU := WU) (WD := WD) (WG := WG) (C := C) * Inbox) unit :=
  with_ctx ctx
    (DrainDir decode dir "thump" (fun name g =>
       err <~ Effects.attempt (on_fst (ThumpTransport.handle tr g (now1 name) (now2 name))) ;;
       match err with
       | Some e =>
           if errors_Is e ErrRenderFailed then
             wrapping ("thump: quarantine " +:+ path dir name +:+ ": ") (on_snd (Disposition name "quarantine"))
           else fail (errorf_w ("thump: handle " +:+ path dir name +:+ ": ") e)
       | None =>
           let disp := if Decision_Verdict (Governed_Decision g) <>s VerdictApproved then "skipped"%string else "processed"%string in
           wrapping ("thump: archive " +:+ path dir name +:+ ": ") (on_snd (Disposition name disp))
       end)).

(** clank/click.go: [ReturnEdge.Tick] *)
Definition ReturnEdge_Tick (decode : string -> result Outcome) (dir : string) (ctx : context) : IO (Click * Inbox) unit :=
  with_ctx ctx
    (DrainDir decode dir "click" (fun name o =>
       err <~ Effects.attempt (on_fst (Absorb ctx o)) ;;
       match err with
       | None => wrapping ("click: archive " +:+ path dir name +:+ ": ") (on_snd (Disposition name "processed"))
       | Some e =>
           if errors_Is e ErrNoOpenSet then
             wrapping ("click: unmatch " +:+ path dir name +:+ ": ") (on_snd (Disposition name "unmatched"))
           else wrapping ("click: quarantine " +:+ path dir name +:+ ": ") (on_snd (Disposition name "quarantine"))
       end)).

(** clank/decline.go: [DeclineEdge.Tick] *)
Definition DeclineEdge_Tick (decode : string -> result Decision) (dir : string) (ctx : context)
  : IO (MemProposalLog * Inbox) unit :=
  with_ctx ctx
    (DrainDir decode dir "decline" (fun name dec =>
       err <~ Effects.attempt (on_fst (fun l =>
                let '(l', r) := Decline ctx (Decision_SignalRef dec) (Decision_EvaluatedAt dec) l in
                (l', match r with inl _ => None | inr e => Some e end))) ;;
       match err with
       | None => wrapping ("decline: archive " +:+ path dir name +:+ ": ") (on_snd (Disposition name "processed"))
       | Some e =>
           if errors_Is e ErrNoOpenSet then
             wrapping ("decline: unmatch " +:+ path dir name +:+ ": ") (on_snd (Disposition name "unmatched"))
           else wrapping ("decline: quarantine " +:+ path dir name +:+ ": ") (on_snd (Disposition name "quarantine"))
       end)).

(** ** clank/transport.go *)

Definition maxProposeAttempts : Z := 5.

Section clank_tick.
Context {B : Type}.
(** [Engine.Propose] on the engine's state *)
Context (Propose : Detection -> IO B ProposalSet).
Context (decode : string -> result Detection) (dir : string) (MaxProposeAttempts : Z).

Definition maxAttempts : Z := if MaxProposeAttempts <=? 0 then maxProposeAttempts else MaxProposeAttempts.

Abbreviation TState := (B * gmap string Z * Inbox)%type.

Definition attempts_of (name : string) (attempts : gmap string Z) : Z := default 0 (attempts !! name).

Definition set_attempts (f : gmap string Z -> gmap string Z) : IO TState unit :=
  fun '(b, attempts, ib) => ((b, f attempts, ib), inl tt).

Definition get_attempts : IO TState (gmap string Z) := fun '(b, attempts, ib) => ((b, attempts, ib), inl attempts).

Definition propose (det : Detection) : IO TState (option error) :=
  fun '(b, attempts, ib) =>
    let '(b', r) := Propose det b in
    ((b', attempts, ib), inl (match r with inl _ => None | inr e => Some e end)).

Definition tick_file (name : string) (det : Detection) : IO TState unit :=
  err <~ propose det ;;
  match err with
  | Some e =>
      set_attempts (fun att => <[name := attempts_of name att + 1]> att) ;;~
      attempts <~ get_attempts ;;
      if maxAttempts <=? attempts_of name attempts then
        set_attempts (delete name) ;;~
        wrapping ("clank: stall " +:+ path dir name +:+ ": ") (on_snd (Disposition name "stalled"))
      else ret tt
  | None =>
      set_attempts (delete name) ;;~
      wrapping ("clank: archive " +:+ path dir name +:+ ": ") (on_snd (Disposition name "processed"))
  end.

Definition clank_Tick (ctx : context) : IO TState unit :=
  with_ctx ctx (DrainDir decode dir "clank" tick_file).

End clank_tick.

(** ** publish/publish.go: [DirPublisher] *)

(** an outbox: its published files and the temporary ones left behind *)
Record OutDir : Type := mkOutDir {
  out_files : gmap string string;
  out_tmp : list string;
  out_faults : list (option error)
}.

Definition out_sys {A} (f : OutDir -> OutDir * result A) : IO OutDir A :=
  fun d =>
    let d1 := mkOutDir (out_files d) (out_tmp d) (tail (out_faults d)) in
    match head (out_faults d) with
    | Some (Some e) => (d1, inr e)
    | _ => f d1
    end.

Definition has_slash (name : string) : bool := existsb (Ascii.eqb "/"%char) (String.list_ascii_of_string name).

(** [os.Rename(tmp, dir/name)]: a name with a slash points into a directory that
    does not exist, and the temporary file stays *)
Definition out_Rename (name data : string) : IO OutDir unit :=
  fun d => match out_sys (fun d => if has_slash name then (d, inr ErrNotExist)
                                   else (mkOutDir (<[name := data]> (out_files d)) (out_tmp d) (out_faults d), inl tt)) d with
           | (d', inr e) => (mkOutDir (out_files d') (out_tmp d' ++ [data]) (out_faults d'), inr e)
           | ok => ok
           end.

(** [writeAtomic]: a temporary file that cannot be written or closed is removed *)
Definition writeAtomic (name data : string) : IO OutDir unit :=
  out_sys (fun d => (d, inl tt)) (* os.CreateTemp *) ;;~
  out_sys (fun d => (d, inl tt)) (* tmp.Write *) ;;~
  out_sys (fun d => (d, inl tt)) (* tmp.Close *) ;;~
  out_Rename name data.

(** [DirPublisher.Publish]; [now] is the clock read for the fallback key *)
Definition DirPublisher_Publish {T} (Dir : string) (Name : option (T -> string)) (marshal : T -> result string)
  (now : Time) (subject : string) (obj : T) : IO OutDir unit :=
  wrapping ("dir publisher: mkdir " +:+ Dir +:+ ": ") (out_sys (fun d => (d, inl tt))) ;;~
  match marshal obj with
  | inr e => fail (errorf_w ("dir publisher: marshal " +:+ subject +:+ ": ") e)
  | inl out =>
      let key := subject +:+ "-" +:+ fmt_d (UnixNano now) in
      let key := match Name with
                 | Some n => if n obj =s "" then key else n obj
                 | None => key
                 end in
      writeAtomic (key +:+ yaml_ext) out
  end.

(** ** Lemmas: no file is lost *)

(** the file [name] with content [raw] is in the inbox, or left it for a
    subdirectory *)
Definition kept (name raw : string) (ib : Inbox) : Prop :=
  in_files ib !! name = Some raw \/
  (in_files ib !! name = None /\ exists sub, in_filed ib !! (sub, name) = Some raw).

Definition on_inbox {B} (P : Inbox -> Prop) (s : B * Inbox) : Prop := P s.2.

Lemma keeps_sys {A} (P : Inbox -> Prop) (f : Inbox -> Inbox * result A) :
  (forall ib faults, P ib -> P (mkInbox (in_files ib) (in_filed ib) faults)) ->
  (forall ib, P ib -> P (f ib).1) -> keeps P (sys f).
Proof.
  intros Hf H ib Hib. unfold sys. specialize (Hf ib (tail (in_faults ib)) Hib).
  destruct (head (in_faults ib)) as [[e |] |]; [done | by apply H | by apply H].
Qed.

Lemma kept_faults name raw ib faults : kept name raw ib -> kept name raw (mkInbox (in_files ib) (in_filed ib) faults).
Proof. done. Qed.

Lemma keeps_pure {A} name raw (r : Inbox -> result A) : keeps (kept name raw) (sys (fun ib => (ib, r ib))).
Proof. apply keeps_sys; [apply kept_faults | done]. Qed.

Lemma keeps_Glob name raw : keeps (kept name raw) Glob.
Proof. apply keeps_pure. Qed.

Lemma keeps_ReadFile name raw n : keeps (kept name raw) (ReadFile n).
Proof. exact (keeps_pure name raw _). Qed.

Lemma keeps_Disposition name raw n sub : keeps (kept name raw) (Disposition n sub).
Proof.
  apply keeps_bind; [apply keeps_pure |]. intros _. apply keeps_sys; [apply kept_faults |]. intros ib Hk.
  destruct (in_files ib !! n) as [raw' |] eqn:En; [| done]. unfold kept in *. cbn.
  destruct (decide (n = name)) as [-> | Hne].
  - destruct Hk as [Hk | [Hk _]]; [| congruence]. rewrite Hk in En. injection En as <-. right. rewrite lookup_delete_eq.
    split; [done |]. exists sub. apply lookup_insert_eq.
  - rewrite lookup_delete_ne by done. destruct Hk as [Hk | [Hk (sub' & Hs)]]; [by left | right]. split; [done |]. exists sub'.
    rewrite lookup_insert_ne by congruence. done.
Qed.

Lemma keeps_on_snd {B A} (P : Inbox -> Prop) (m : IO Inbox A) : keeps P m -> keeps (on_inbox (B := B) P) (on_snd m).
Proof. intros Hm [b ib] Hs. unfold on_snd. specialize (Hm ib Hs). by destruct (m ib). Qed.

Lemma keeps_on_fst {B} (P : Inbox -> Prop) (f : B -> B * option error) : keeps (on_inbox P) (on_fst f).
Proof. intros [b ib] Hs. unfold on_fst. by destruct (f b). Qed.

Lemma keeps_with_ctx {S} (P : S -> Prop) ctx (m : IO S unit) : keeps P m -> keeps P (with_ctx ctx m).
Proof. intros Hm. unfold with_ctx. destruct (ctx_Err ctx); [apply keeps_fail | done]. Qed.

#[export] Hint Resolve keeps_Glob keeps_ReadFile keeps_Disposition keeps_on_snd keeps_on_fst keeps_with_ctx : go.

Section drain_lemmas.
Context {B T : Type}.
Context (decode : string -> result T) (dir prefix : string) (handle : string -> T -> IO (B * Inbox) unit).

Lemma keeps_DrainDir name raw :
  (forall n v, keeps (on_inbox (kept name raw)) (handle n v)) ->
  keeps (on_inbox (kept name raw)) (DrainDir decode dir prefix handle).
Proof.
  intros Hh. unfold DrainDir. apply keeps_bind; [apply keeps_wrapping; auto with go |]. intros l.
  induction l as [| n l IH]; [apply keeps_ret |]. cbn.
  apply keeps_bind; [| done]. apply keeps_bind; [auto with go |]. intros raw'. destruct (decode raw'); [done | auto with go].
Qed.

End drain_lemmas.

(** a pass of [m] loses no file *)
Definition loses_nothing {B} (m : IO (B * Inbox) unit) : Prop :=
  forall name raw, keeps (on_inbox (kept name raw)) m.

Lemma keeps_propose {B} (P : Inbox -> Prop) (Propose : Detection -> IO B ProposalSet) det :
  keeps (on_inbox P) (propose Propose det).
Proof. intros [[b att] ib] Hs. unfold propose. by destruct (Propose det b). Qed.

Lemma keeps_set_attempts {B} (P : Inbox -> Prop) f : keeps (on_inbox P) (set_attempts (B := B) f).
Proof. by intros [[b att] ib] Hs. Qed.

Lemma keeps_get_attempts {B} (P : Inbox -> Prop) : keeps (on_inbox P) (get_attempts (B := B)).
Proof. by intros [[b att] ib] Hs. Qed.

#[export] Hint Resolve keeps_propose keeps_set_attempts keeps_get_attempts : go.

(** ** Lemmas: passes without a fault *)

Definition quiet (ib : Inbox) : Prop := in_faults ib = [].

Lemma sys_quiet {A} (f : Inbox -> Inbox * result A) ib : quiet ib -> sys f ib = f ib.
Proof. intros Hq. unfold sys. rewrite Hq. destruct ib as [fs fd flt]. unfold quiet in Hq. cbn in *. by subst flt. Qed.

Definition file_away (name sub raw : string) (ib : Inbox) : Inbox :=
  mkInbox (delete name (in_files ib)) (<[(sub, name) := raw]> (in_filed ib)) (in_faults ib).

Lemma Disposition_quiet name sub raw ib :
  quiet ib -> in_files ib !! name = Some raw -> Disposition name sub ib = (file_away name sub raw ib, inl tt).
Proof.
  intros Hq Hl. unfold Disposition, bind. rewrite sys_quiet by done. unfold Rename. rewrite sys_quiet by done. by rewrite Hl.
Qed.

Lemma ReadFile_quiet name raw ib : quiet ib -> in_files ib !! name = Some raw -> ReadFile name ib = (ib, inl raw).
Proof. intros Hq Hl. unfold ReadFile. rewrite sys_quiet by done. by rewrite Hl. Qed.

(** the matches of a pass over [files] *)
Definition matches_of (files : gmap string string) : list string :=
  merge_sort name_le (List.filter is_yaml (map fst (map_to_list files))).

Lemma Glob_quiet ib : quiet ib -> Glob ib = (ib, inl (matches_of (in_files ib))).
Proof. intros Hq. unfold Glob. by rewrite sys_quiet. Qed.

Lemma elem_of_matches files name : name ∈ matches_of files <-> is_yaml name = true /\ is_Some (files !! name).
Proof.
  unfold matches_of. rewrite merge_sort_Permutation, elem_of_filterb. split.
  - intros [Hin Hy]. split; [done |]. apply list_elem_of_fmap in Hin as (kv & -> & Hin). destruct kv as [n raw].
    apply elem_of_map_to_list in Hin. by exists raw.
  - intros [Hy [raw Hl]]. split; [| done]. apply list_elem_of_fmap. exists (name, raw). split; [done |].
    by apply elem_of_map_to_list.
Qed.

Lemma matches_NoDup files : NoDup (matches_of files).
Proof.
  unfold matches_of. rewrite merge_sort_Permutation. apply NoDup_ListNoDup, NoDup_filter, NoDup_ListNoDup.
  exact (fin_maps.NoDup_fst_map_to_list files).
Qed.

Lemma bind_eq {S A B'} (m : IO S A) (k : A -> IO S B') s s' x : m s = (s', inl x) -> bind m k s = k x s'.
Proof. intros E. unfold bind. by rewrite E. Qed.

(** ** Lemmas: the retries of clank's transport *)

Section clank_lemmas.
Context {B : Type}.
Context (Propose : Detection -> IO B ProposalSet) (decode : string -> result Detection) (dir : string) (MaxProposeAttempts : Z).

Abbreviation TState := (B * gmap string Z * Inbox)%type.
Abbreviation tick_file' := (tick_file Propose dir MaxProposeAttempts).
Abbreviation tick' := (clank_Tick Propose decode dir MaxProposeAttempts Background).
Abbreviation drain' := (drain_files decode dir "clank" tick_file').

Definition st_files (s : TState) : gmap string string := in_files s.2.
Definition st_attempts (s : TState) : gmap string Z := s.1.2.

(** what a fault-free pass over the file [name] leaves of it *)
Definition progressed (name raw : string) (s s' : TState) : Prop :=
  st_files s' !! name = None \/
  (st_files s' !! name = Some raw /\ attempts_of name (st_attempts s') = attempts_of name (st_attempts s) + 1 /\
   attempts_of name (st_attempts s') < maxAttempts MaxProposeAttempts).

(** a fault-free step that touches only the file [name] *)
Definition only (name : string) (s s' : TState) : Prop :=
  quiet s'.2 /\ forall n, n <> name -> st_files s' !! n = st_files s !! n /\ st_attempts s' !! n = st_attempts s !! n.

Lemma filed_away_only b att att' b' ib name sub raw :
  quiet ib -> (forall n, n <> name -> att' !! n = att !! n) ->
  only name (b, att, ib) (b', att', file_away name sub raw ib) /\
  progressed name raw (b, att, ib) (b', att', file_away name sub raw ib).
Proof.
  intros Hq Ha. split; [split; [done |] |].
  - intros n Hn. unfold st_files, st_attempts. cbn. rewrite lookup_delete_ne by done. auto.
  - left. unfold st_files. cbn. apply lookup_delete_eq.
Qed.

Lemma drain_one_progress name raw (s : TState) :
  quiet s.2 -> st_files s !! name = Some raw ->
  exists s', drain_one decode dir "clank" tick_file' name s = (s', inl tt) /\ only name s s' /\ progressed name raw s s'.
Proof.
  destruct s as [[b att] ib]. cbn [snd]. unfold st_files. cbn [snd]. intros Hq Hl.
  unfold drain_one. unfold bind at 1, wrapping at 1, on_snd at 1. rewrite (ReadFile_quiet _ _ _ Hq Hl).
  destruct (decode raw) as [det | e].
  2: { unfold wrapping, on_snd. rewrite (Disposition_quiet _ _ _ _ Hq Hl). eexists. split; [done |]. by apply filed_away_only. }
  unfold tick_file. unfold bind at 1, propose. destruct (Propose det b) as [b' [ps | e]].
  - unfold bind, set_attempts, wrapping, on_snd. cbv beta iota. rewrite (Disposition_quiet _ _ _ _ Hq Hl). eexists. split; [done |].
    apply filed_away_only; [done |]. intros n Hn. by rewrite lookup_delete_ne.
  - unfold bind, set_attempts, get_attempts. cbv beta iota. unfold attempts_of at 1. rewrite lookup_insert_eq. unfold default, from_option, id.
    destruct (maxAttempts MaxProposeAttempts <=? attempts_of name att + 1) eqn:Em.
    + unfold wrapping, on_snd. cbv beta iota. rewrite (Disposition_quiet _ _ _ _ Hq Hl). eexists. split; [done |].
      apply filed_away_only; [done |]. intros n Hn. by rewrite lookup_delete_ne, lookup_insert_ne.
    + apply Z.leb_gt in Em. eexists. split; [done |]. split; [split; [done |] |].
      * intros n Hn. unfold st_files, st_attempts. cbn. by rewrite lookup_insert_ne.
      * right. unfold st_files, st_attempts. cbn. split; [done |]. 
        assert (attempts_of name (<[name := attempts_of name att + 1]> att) = attempts_of name att + 1) as ->
          by (unfold attempts_of at 1; by rewrite lookup_insert_eq). auto.
Qed.

Lemma drain_progress l (s : TState) :
  NoDup l -> quiet s.2 -> (forall n, n ∈ l -> is_Some (st_files s !! n)) ->
  exists s', drain' l s = (s', inl tt) /\ quiet s'.2 /\
    (forall n, n ∉ l -> st_files s' !! n = st_files s !! n /\ st_attempts s' !! n = st_attempts s !! n) /\
    (forall n raw, n ∈ l -> st_files s !! n = Some raw -> progressed n raw s s').
Proof.
  revert s. induction l as [| name l IH]; intros s Hnd Hq Hl.
  { exists s. repeat split; try done. intros n raw Hn. by apply not_elem_of_nil in Hn. }
  apply list.NoDup_cons in Hnd as [Hni Hnd]. destruct (Hl name ltac:(by left)) as [raw Hraw].
  destruct (drain_one_progress name raw s Hq Hraw) as (s1 & E1 & [Hq1 Hother1] & Hp1).
  destruct (IH s1 Hnd Hq1) as (s2 & E2 & Hq2 & Hother2 & Hp2).
  { intros n Hn. rewrite (proj1 (Hother1 n ltac:(intros ->; done))). apply Hl. by right. }
  exists s2. split; [cbn; rewrite (bind_eq _ _ _ _ _ E1); exact E2 |]. split; [done |]. split.
  - intros n [Hne Hnl]%not_elem_of_cons. rewrite (proj1 (Hother2 n Hnl)), (proj2 (Hother2 n Hnl)). by apply Hother1.
  - intros n raw' [-> | Hn]%elem_of_cons Hraw'.
    + rewrite Hraw in Hraw'. injection Hraw' as <-. unfold progressed, attempts_of in *.
      rewrite (proj1 (Hother2 name Hni)), (proj2 (Hother2 name Hni)). exact Hp1.
    + assert (n <> name) as Hne by (intros ->; done). destruct (Hother1 n Hne) as [Hf1 Ha1].
      specialize (Hp2 n raw' Hn ltac:(by rewrite Hf1)). unfold progressed, attempts_of in *. by rewrite Ha1 in Hp2.
Qed.

Lemma tick_progress (s : TState) :
  quiet s.2 ->
  exists s', tick' s = (s', inl tt) /\ quiet s'.2 /\
    forall n, is_yaml n = true ->
      match st_files s !! n with
      | None => st_files s' !! n = None
      | Some raw => progressed n raw s s'
      end.
Proof.
  intros Hq. destruct (drain_progress (matches_of (st_files s)) s (matches_NoDup _) Hq) as (s' & E & Hq' & Ho & Hp).
  { intros n Hn. by apply elem_of_matches in Hn as [_ ?]. }
  exists s'. split; [| split; [done |]].
  - unfold clank_Tick, with_ctx, DrainDir. cbn [ctx_Err Background]. destruct s as [ba ib]. cbn [snd] in *.
    erewrite bind_eq; [exact E |]. unfold wrapping, on_snd. by rewrite (Glob_quiet ib Hq).
  - intros n Hy. destruct (st_files s !! n) as [raw |] eqn:El.
    + apply Hp; [| done]. apply elem_of_matches. split; [done | by eexists].
    + rewrite (proj1 (Ho n ltac:(intros [_ [? ?]]%elem_of_matches; congruence))). done.
Qed.

(** [n] fault-free ticks *)
Lemma ticks_progress (k : nat) (s : TState) name raw :
  quiet s.2 -> is_yaml name = true -> st_files s !! name = Some raw ->
  let s' := Nat.iter k (fun s => (tick' s).1) s in
  quiet s'.2 /\
  (st_files s' !! name = None \/
   (st_files s' !! name = Some raw /\ attempts_of name (st_attempts s') = attempts_of name (st_attempts s) + Z.of_nat k /\
    (k <> 0%nat -> attempts_of name (st_attempts s') < maxAttempts MaxProposeAttempts))).
Proof.
  intros Hq Hy Hl. induction k as [| k [IHq IH]]; [cbn; split; [done |]; right; split; [done |]; split; [lia | done] |].
  rewrite Nat.iter_succ. destruct (tick_progress _ IHq) as (s' & E & Hq' & Hp). rewrite E. cbn [fst]. split; [done |].
  specialize (Hp name Hy). destruct IH as [IH | (IH & Hn & _)]; rewrite IH in Hp; [by left |].
  destruct Hp as [Hp | (Hp & Ha & Hm)]; [by left | right]. split; [done |]. split; [lia | done].
Qed.

End clank_lemmas.

Lemma clank_Tick_keeps {B} (Propose : Detection -> IO B ProposalSet) decode dir M ctx :
  loses_nothing (clank_Tick Propose decode dir M ctx).
Proof.
  intros name raw. apply keeps_with_ctx, keeps_DrainDir. intros n v.
  apply keeps_bind; [auto with go |]. intros [e |]; [| auto with go].
  apply keeps_bind; [auto with go |]. intros _. apply keeps_bind; [auto with go |]. intros att.
  destruct (_ <=? _); auto with go.
Qed.

(** ** Lemmas: a fault-free pass of hiss *)

Section hiss_lemmas.
Context {W : Type} `{PublisherLaws W Governed}.
Context (cfg : TransportConfig W) (decode : string -> result ProposalSet) (dir : string) (now : string -> Time).

(** what the broker's handler makes of the sets in the files [l], in order *)
Fixpoint handle_files (files : gmap string string) (l : list string) (st : TransportState W) : TransportState W * bool :=
  match l with
  | [] => (st, true)
  | name :: rest =>
      match files !! name with
      | Some raw =>
          match decode raw with
          | inl ps =>
              let '(st', err) := HissTransport.handle cfg ps (now name) st in
              match err with
              | None => handle_files files rest st'
              | Some _ => (st', false)
              end
          | inr _ => handle_files files rest st
          end
      | None => (st, true)
      end
  end.

(** the inbox once the files [l] are filed *)
Definition filed_as (name : string) (raw : string) : string * string :=
  (match decode raw with inl _ => "processed"%string | inr _ => "quarantine"%string end, name).

Lemma drain_hiss l (files : gmap string string) st ib :
  NoDup l -> quiet ib -> (forall n, n ∈ l -> is_Some (files !! n) /\ in_files ib !! n = files !! n) ->
  (handle_files files l st).2 = true ->
  exists ib',
    drain_files decode dir "hiss" (fun name ps =>
       wrapping ("hiss: handle " +:+ path dir name +:+ ": ") (on_fst (HissTransport.handle cfg ps (now name))) ;;~
       wrapping ("hiss: archive " +:+ path dir name +:+ ": ") (on_snd (Disposition name "processed"))) l (st, ib)
    = (((handle_files files l st).1, ib'), inl tt) /\
    (forall n, n ∈ l -> in_files ib' !! n = None /\
       exists raw, files !! n = Some raw /\ in_filed ib' !! filed_as n raw = Some raw) /\
    (forall n, n ∉ l -> in_files ib' !! n = in_files ib !! n /\ forall sub, in_filed ib' !! (sub, n) = in_filed ib !! (sub, n)).
Proof.
  revert st ib. induction l as [| name l IH]; intros st ib Hnd Hq Hl Hok.
  { exists ib. split; [done |]. split; [intros n Hn; by apply not_elem_of_nil in Hn | by split]. }
  apply list.NoDup_cons in Hnd as [Hni Hnd]. destruct (Hl name ltac:(by left)) as [[raw Hraw] Hib]. rewrite Hraw in Hib.
  cbn [drain_files handle_files] in *. rewrite Hraw in *.
  set (sub := (filed_as name raw).1).
  assert (forall n, n ∈ l -> is_Some (files !! n) /\ in_files (file_away name sub raw ib) !! n = files !! n) as Hl'.
  { intros n Hn. destruct (Hl n ltac:(by right)) as [Hs Hf]. split; [exact Hs |]. cbn. rewrite lookup_delete_ne; [exact Hf |]. by intros ->. }
  assert (forall st', (handle_files files l st').2 = true ->
    exists ib', drain_files decode dir "hiss" (fun name ps =>
       wrapping ("hiss: handle " +:+ path dir name +:+ ": ") (on_fst (HissTransport.handle cfg ps (now name))) ;;~
       wrapping ("hiss: archive " +:+ path dir name +:+ ": ") (on_snd (Disposition name "processed"))) l (st', file_away name sub raw ib)
      = (((handle_files files l st').1, ib'), inl tt) /\
    (forall n, n ∈ name :: l -> in_files ib' !! n = None /\
       exists raw, files !! n = Some raw /\ in_filed ib' !! filed_as n raw = Some raw) /\
    (forall n, n ∉ name :: l -> in_files ib' !! n = in_files ib !! n /\
       forall sub, in_filed ib' !! (sub, n) = in_filed ib !! (sub, n))) as Hrest.
  { intros st' Hok'. destruct (IH st' _ Hnd (Hq : quiet (file_away name sub raw ib)) Hl' Hok') as (ib' & E & Hin & Hout).
    exists ib'. split; [exact E |]. split.
    - intros n [-> | Hn]%elem_of_cons; [| by apply Hin]. destruct (Hout name Hni) as [Ho1 Ho2]. rewrite Ho1. cbn.
      rewrite lookup_delete_eq. split; [done |]. exists raw. split; [done |]. unfold filed_as. rewrite Ho2. cbn.
      change (match decode raw with inl _ => "processed"%string | inr _ => "quarantine"%string end) with sub.
      apply lookup_insert_eq.
    - intros n [Hne Hn]%not_elem_of_cons. destruct (Hout n Hn) as [Ho1 Ho2]. rewrite Ho1. cbn. rewrite lookup_delete_ne by done.
      split; [done |]. intros sub'. rewrite Ho2. cbn. rewrite lookup_insert_ne; [done | congruence]. }
  unfold drain_one. unfold bind at 1, bind at 1, wrapping at 1, on_snd at 1. rewrite (ReadFile_quiet _ _ _ Hq Hib).
  unfold sub, filed_as in Hrest. cbn [fst] in Hrest. destruct (decode raw) as [ps | e].
  - unfold bind at 1, wrapping at 1, on_fst at 1. destruct (HissTransport.handle cfg ps (now name) st) as [st' [e |]]; [done |].
    unfold wrapping at 1, on_snd at 1. rewrite (Disposition_quiet _ _ _ _ Hq Hib). by apply Hrest.
  - unfold wrapping at 1, on_snd at 1. rewrite (Disposition_quiet _ _ _ _ Hq Hib). by apply Hrest.
Qed.

End hiss_lemmas.

(** ** Claims *)

(** C16. No pass over an inbox loses a file, whatever fails: after a [Tick] of any
    beat, each file that was in the inbox is still there with its content, or has
    left it and is filed in a subdirectory with that content. *)
Theorem ticks_lose_nothing {W WO WU WD WG C B} `{Publisher W Governed} `{Publisher WO Order} `{Publisher WU Outcome}
  `{Publisher WD Decision} `{Publisher WG Governed} dir ctx :
  (forall (cfg : TransportConfig W) decode now, loses_nothing (hiss_Tick cfg decode dir ctx now)) /\
  (forall (tr : Transport (C := C)) decode now1 now2,
     loses_nothing (thump_Tick (WO := WO) (WU := WU) (WD := WD) (WG := WG) tr decode dir ctx now1 now2)) /\
  (forall decode, loses_nothing (ReturnEdge_Tick decode dir ctx)) /\
  (forall decode, loses_nothing (DeclineEdge_Tick decode dir ctx)) /\
  (forall (Propose : Detection -> IO B ProposalSet) decode M, loses_nothing (clank_Tick Propose decode dir M ctx)).
Proof.
  split; [| split; [| split; [| split]]]; [.. | intros; apply clank_Tick_keeps];
    intros; intros name raw; apply keeps_with_ctx, keeps_DrainDir; intros n v.
  - auto 10 with go.
  - apply keeps_bind; [auto with go |]. intros [e |]; [| auto with go]. destruct (errors_Is e ErrRenderFailed); auto with go.
  - apply keeps_bind; [auto with go |]. intros [e |]; [| auto with go]. destruct (errors_Is e ErrNoOpenSet); auto with go.
  - apply keeps_bind; [auto with go |]. intros [e |]; [| auto with go]. destruct (errors_Is e ErrNoOpenSet); auto with go.
Qed.

(** Every detection leaves the inbox in the end, even if its reasoning always
    fails: after [maxAttempts] passes of clank's transport in which no system call
    fails, no YAML file that was in the inbox is left, and each is filed; and no such
    pass returns an error. *)
Theorem detections_leave_the_inbox {B} (Propose : Detection -> IO B ProposalSet) decode dir M (s : B * gmap string Z * Inbox)
  name raw :
  quiet s.2 -> is_yaml name = true -> st_files s !! name = Some raw -> 0 <= attempts_of name (st_attempts s) ->
  let tick := clank_Tick Propose decode dir M Background in
  let s' := Nat.iter (Z.to_nat (maxAttempts M)) (fun s => (tick s).1) s in
  (tick s).2 = inl tt /\ st_files s' !! name = None /\ exists sub, in_filed s'.2 !! (sub, name) = Some raw.
Proof.
  intros Hq Hy Hl H0 tick s'. split.
  { destruct (tick_progress Propose decode dir M s Hq) as (s1 & E & _). unfold tick. by rewrite E. }
  assert (0 < maxAttempts M) as Hpos by (unfold maxAttempts, maxProposeAttempts; destruct (M <=? 0) eqn:E; [lia | by apply Z.leb_gt in E]).
  destruct (ticks_progress Propose decode dir M (Z.to_nat (maxAttempts M)) s name raw Hq Hy Hl) as [_ Hcases]. fold tick s' in Hcases.
  assert (st_files s' !! name = None) as Hgone.
  { destruct Hcases as [? | (_ & Ha & Hm)]; [done |]. specialize (Hm ltac:(lia)). lia. }
  split; [done |].
  assert (kept name raw s'.2) as [Hk | [_ Hk]]; [| unfold st_files in Hgone; congruence | exact Hk].
  unfold s'. generalize (Z.to_nat (maxAttempts M)) as k. intros k. induction k as [| k IH]; [by left |]. rewrite Nat.iter_succ.
  assert (loses_nothing tick) as Hs by apply clank_Tick_keeps.
  apply (Hs name raw). exact IH.
Qed.

(** The offline transport of hiss is its broker handler run over the inbox: in a
    pass without a fault, if the handler accepts every set, hiss ends in the state
    that handling the decodable files one by one in name order leads to, every YAML
    file leaves the inbox, the decodable ones are filed processed and the others
    quarantined, and nothing else is touched. *)
Theorem hiss_pass_is_handle {W} `{PublisherLaws W Governed} (cfg : TransportConfig W) decode dir now st ib :
  quiet ib -> (handle_files cfg decode now (in_files ib) (matches_of (in_files ib)) st).2 = true ->
  exists ib',
    hiss_Tick cfg decode dir Background now (st, ib)
      = (((handle_files cfg decode now (in_files ib) (matches_of (in_files ib)) st).1, ib'), inl tt) /\
    (forall n raw, is_yaml n = true -> in_files ib !! n = Some raw ->
       in_files ib' !! n = None /\
       in_filed ib' !! (match decode raw with inl _ => "processed" | inr _ => "quarantine" end, n)%string = Some raw) /\
    (forall n, is_yaml n = false -> in_files ib' !! n = in_files ib !! n).
Proof.
  intros Hq Hok.
  destruct (drain_hiss cfg decode dir now (matches_of (in_files ib)) (in_files ib) st ib (matches_NoDup _) Hq) as (ib' & E & Hin & Hout).
  { intros n [_ ?]%elem_of_matches. by split. }
  { exact Hok. }
  exists ib'. split; [| split].
  - unfold hiss_Tick, with_ctx, DrainDir. cbn [ctx_Err Background]. erewrite bind_eq; [exact E |].
    unfold wrapping, on_snd. by rewrite (Glob_quiet ib Hq).
  - intros n raw Hy Hl. destruct (Hin n) as [Hn (raw' & Hr & Hf)]; [apply elem_of_matches; by rewrite Hl |].
    rewrite Hl in Hr. injection Hr as <-. by split.
  - intros n Hy. apply (Hout n). intros [Hy' _]%elem_of_matches. congruence.
Qed.

(** ** Concrete passes *)

(** a detection is its fingerprint; the reasoner fails on every one *)
Definition demo_detection (raw : string) : result Detection :=
  if raw =s "!" then inr (errors_New "yaml: did not find expected node content")
  else inl (mkDetection raw raw "" "" "" (mkDivergence "" f0 f0 f0 "") (mkTopologyContext [] [] ) TrafficContext_zero
              (mkImpact Severity_zero BlastRadius_zero) "" "" 0).

Definition demo_Propose (det : Detection) : IO unit ProposalSet := fail (errors_New "model: overloaded").

Definition demo_inbox : Inbox := mkInbox {[ "a.yaml"%string := "burn"%string; "b.yaml"%string := "!"%string ]} ∅ [].

(** the first pass quarantines what does not decode and keeps the failing detection *)
Example demo_first_pass :
  let s := (clank_Tick demo_Propose demo_detection "inbox" 3 Background (tt, ∅, demo_inbox)).1 in
  map_to_list (in_files s.2) = [("a.yaml", "burn")]%string /\
  map_to_list (in_filed s.2) = [("quarantine", "b.yaml", "!")]%string /\ map_to_list s.1.2 = [("a.yaml"%string, 1)].
Proof. vm_compute. auto. Qed.

Lemma detections_leave_the_inbox_witness :
  let s := (tt, ∅, demo_inbox) in
  let tick := clank_Tick demo_Propose demo_detection "inbox" 3 Background in
  let s' := Nat.iter (Z.to_nat (maxAttempts 3)) (fun s => (tick s).1) s in
  (tick s).2 = inl tt /\ st_files s' !! "a.yaml"%string = None /\
  exists sub, in_filed s'.2 !! (sub, "a.yaml"%string) = Some "burn"%string.
Proof.
  exact (detections_leave_the_inbox demo_Propose demo_detection "inbox" 3 (tt, ∅, demo_inbox) "a.yaml" "burn"
           eq_refl eq_refl eq_refl (Z.le_refl 0)).
Defined.

(** the sets of the demo: any text but ! is the weak set *)
Definition demo_set_of (raw : string) : result ProposalSet :=
  if raw =s "!" then inr (errors_New "yaml: did not find expected node content") else inl weak_set.

Lemma hiss_pass_is_handle_witness :
  exists ib',
    hiss_Tick demo_cfg demo_set_of "inbox" Background (fun _ => 5) (buildTransport empty_stream, demo_inbox)
      = (((handle_files demo_cfg demo_set_of (fun _ => 5) (in_files demo_inbox) (matches_of (in_files demo_inbox))
             (buildTransport empty_stream)).1, ib'), inl tt) /\
    (forall n raw, is_yaml n = true -> in_files demo_inbox !! n = Some raw ->
       in_files ib' !! n = None /\
       in_filed ib' !! (match demo_set_of raw with inl _ => "processed" | inr _ => "quarantine" end, n)%string = Some raw) /\
    (forall n, is_yaml n = false -> in_files ib' !! n = in_files demo_inbox !! n).
Proof.
  apply (hiss_pass_is_handle demo_cfg demo_set_of "inbox" (fun _ => 5) (buildTransport empty_stream) demo_inbox);
    vm_compute; reflexivity.
Defined.

(** [Disposition] renames over an earlier file of the same name: the second set
    filed under one name replaces the first in the archive *)
Example refiled_name_overwrites :
  let ib := mkInbox {[ "a.yaml"%string := "new"%string ]} {[ ("processed", "a.yaml")%string := "old"%string ]} [] in
  in_filed (Disposition "a.yaml" "processed" ib).1 = {[ ("processed", "a.yaml")%string := "new"%string ]}.
Proof. vm_compute. reflexivity. Qed.

(** a name with a slash is never published, and its temporary file stays *)
Example slash_name_never_published :
  let '(d, r) := DirPublisher_Publish "out" (Some (fun x : string => x)) inl 0 "clank.proposals" "slo_burn:a/b" (mkOutDir ∅ [] []) in
  r = inr ErrNotExist /\ out_files d = ∅ /\ out_tmp d = ["slo_burn:a/b"%string].
Proof. vm_compute. auto. Qed.
