(* ===== verification/Clank.v ===== *)
(** * internal/clank: the running beat

    The composition of broker.go and wiring.go: one ledger and one case base shared by the
    engine, which answers detections, and by the two return edges, which absorb outcomes and
    declines while the engine reasons, with the replay that starts a process.  [step] is one
    thing that happens to the beat and [reach] a history of such; the theorems say what the
    ledger and the case base hold after any history. *)

From Stdlib Require Import Sorted.
From stdpp Require Import sorting.
From S2P Require Import Prelude GoTime GoFloat Api Contract ClankScore ClankLedger Publish ClankEngine Inbox.
Local Open Scope Z_scope.

(** what comes back to clank: an outcome on thump.outcomes, a decline on thump.declines *)
Inductive returned : Type :=
| RetOutcome (o : Outcome)
| RetDecline (d : Decision).

(** the two handlers [runBroker] subscribes beside the engine's *)
Definition absorb_return (c : Click) (r : returned) : Click :=
  match r with
  | RetOutcome o => (learnHandler Background c o).1
  | RetDecline d => mkClick (declineHandler Background (Click_Ledger c) d).1 (Click_Cases c)
  end.

Definition drift (rs : list returned) (c : Click) : Click := fold_left absorb_return rs c.

(** [cases := NewCaseBase(); cases.MaxCases = limits.MaxCases] *)
Definition sized_cases (l : Limits) : CaseBase := mkCaseBase (Limits_MaxCases l) [].

(** [buildLedger], with the case base it fills *)
Definition buildLedger (l : Limits) (proposals outcomes declines : list replayEvent) : result Click :=
  rebuildLedger Background proposals outcomes declines (Limits_LedgerRetention l) (sized_cases l).

(** wiring.go: [proposalFilename] *)
Definition proposalFilename (ps : ProposalSet) : string :=
  if Set_SignalRef ps <>s "" then Set_SignalRef ps else Set_Name ps.

Section beat.
Context {M S_ WP WJ : Type} `{PublisherLaws WP ProposalSet} `{PublisherLaws WJ ProposalSet}.
Abbreviation Eng := (Engine (M := M) (S_ := S_)).

(** what [Main] loaded and built before it takes a branch *)
Record Parts : Type := mkParts {
  Pt_Intake : Intake (M := M);
  Pt_Complete : list Message -> list ToolSpec -> M -> M * result Completion;
  Pt_Tools : gmap string (Tool (M := M));
  Pt_Catalog : StaticCatalog;
  Pt_FailureClasses : list FailureClassDefinition;
  Pt_Store : Store (S_ := S_);
  Pt_DedupeWindow : Duration;
  Pt_Weights : ScoringWeights;
  Pt_Limits : Limits;
  Pt_schema : string -> string;
  Pt_decode_propose : string -> result proposeInput;
  Pt_decode_insufficient : string -> result insufficientInput
}.

(** the engine over a case base: the scorer and the confidence both read it *)
Definition newEngine (p : Parts) (cases : CaseBase) (hasJournal : bool) : Eng :=
  mkEngine (Pt_Intake p) (Pt_Complete p) (Pt_Tools p) (Pt_Catalog p) (Pt_FailureClasses p) (Pt_Store p)
    (Some (Alignment cases)) (Some (Alignment cases)) (Pt_DedupeWindow p) true hasJournal (Limits_MaxSteps (Pt_Limits p))
    (Pt_Weights p) (Pt_schema p) (Pt_decode_propose p) (Pt_decode_insufficient p).

(** with the journal of [runBroker], and without one as [Main] calls [newLoop] *)
Definition newBrokerEngine (p : Parts) (cases : CaseBase) : Eng := newEngine p cases true.
Definition newLoop (p : Parts) (cases : CaseBase) : Eng := newEngine p cases false.

Record Beat : Type := mkBeat {
  B_env : M;
  B_store : S_;
  B_click : Click;
  B_pub : WP;
  B_journal : WJ
}.

(** [Propose] on the shared state.  [during] is what came back while it ran: the ledger is
    read again at the gate and the case base when the set is scored, both after it.  A run
    the ledger suppresses has no such interval, and what came back follows it.  What comes
    back in the last moments of a run, between its scoring and its record, is not told apart:
    it is taken to come before the scoring or after the run. *)
Definition propose (mk : CaseBase -> Eng) (sig : Detection) (ck : Clock) (during : list returned) (b : Beat) : Beat * result ProposalSet :=
  let click := drift during (B_click b) in
  let e := mk (Click_Cases click) in
  let st := mkEngState (B_env b) (B_store b) (Click_Ledger (B_click b)) (B_pub b) (B_journal b) in
  match Open Background (Detection_Fingerprint sig) (GoTime.Add (Ck_open ck) (- Eng_DedupeWindow e)) (Click_Ledger (B_click b)) with
  | inl [] =>
      let '(st', r) := Propose e Background ck sig (fun l => Click_Ledger (drift during (mkClick l (Click_Cases (B_click b))))) st in
      (mkBeat (Es_env st') (Es_store st') (mkClick (Es_ledger st') (Click_Cases click)) (Es_pub st') (Es_journal st'), r)
  | _ =>
      let '(st', r) := Propose e Background ck sig id st in
      (mkBeat (Es_env st') (Es_store st') (drift during (mkClick (Es_ledger st') (Click_Cases (B_click b)))) (Es_pub st') (Es_journal st'), r)
  end.

(** the three subscriptions of [runBroker]; an error of the first asks for redelivery *)
Definition on_detection (p : Parts) (sig : Detection) (ck : Clock) (during : list returned) (b : Beat) : Beat * option error :=
  let '(b', r) := propose (newBrokerEngine p) sig ck during b in
  (b', match r with inl _ => None | inr err => Some err end).

Definition on_return (r : returned) (b : Beat) : Beat :=
  mkBeat (B_env b) (B_store b) (absorb_return (B_click b) r) (B_pub b) (B_journal b).

(** a new process over the same streams, store and world *)
Definition restarted (c : Click) (b : Beat) : Beat := mkBeat (B_env b) (B_store b) c (B_pub b) (B_journal b).

Inductive event : Type :=
| EvDetection (sig : Detection) (ck : Clock) (during : list returned) (err : option error)
| EvReturn (r : returned)
| EvRestart (proposals outcomes declines : list replayEvent).

(** the proposals a restart drains are sets of the stream clank alone publishes *)
Definition of_stream (b : Beat) (proposals : list replayEvent) : Prop :=
  forall ev, ev ∈ proposals -> exists ps, replay_payload ev = ReplayProposal ps /\ ps ∈ on_subject "thump.proposals" (B_pub b).

Definition is_return (ev : replayEvent) : Prop :=
  match replay_payload ev with ReplayProposal _ => False | _ => True end.

(** One thing that happens.  A process whose replay fails exits before it subscribes, so
    only a replay that succeeded is a step. *)
Inductive step (p : Parts) (b : Beat) : event -> Beat -> Prop :=
| step_detection sig ck during b' err :
    on_detection p sig ck during b = (b', err) -> step p b (EvDetection sig ck during err) b'
| step_return r : step p b (EvReturn r) (on_return r b)
| step_restart proposals outcomes declines c :
    of_stream b proposals -> Forall is_return outcomes -> Forall is_return declines ->
    buildLedger (Pt_Limits p) proposals outcomes declines = inl c ->
    step p b (EvRestart proposals outcomes declines) (restarted c b).

Inductive reach (p : Parts) (b0 : Beat) : list event -> Beat -> Prop :=
| reach_start : reach p b0 [] b0
| reach_step evs b ev b' : reach p b0 evs b -> step p b ev b' -> reach p b0 (evs ++ [ev]) b'.

(** the process started over empty streams *)
Definition fresh (p : Parts) (m : M) (s : S_) (pub : WP) (journal : WJ) : Beat :=
  mkBeat m s (mkClick (mkLedger (Limits_LedgerRetention (Pt_Limits p)) []) (sized_cases (Pt_Limits p))) pub journal.

(** ** The offline branch of [Main] *)

(** one cycle of the directory poll: the forward transport, then both return edges, whose
    errors are logged; [ck] are the clock reads of a detection file *)
Definition cycle (p : Parts) (ck : Detection -> Clock) (dirs : string * string * string) (decode : string -> result Detection)
  (decode_outcome : string -> result Outcome) (decode_decline : string -> result Decision) (ctx : context)
  (st : Beat * gmap string Z * Inbox * Inbox * Inbox) : (Beat * gmap string Z * Inbox * Inbox * Inbox) * option error :=
  let '(b, attempts, inbox, outcomes, declines) := st in
  let '(b1, attempts1, inbox1, r) :=
    clank_Tick (fun det b => propose (newLoop p) det (ck det) [] b) decode dirs.1.1 (Limits_MaxProposeAttempts (Pt_Limits p)) ctx
      (b, attempts, inbox) in
  let '(click2, outcomes2, _) := ReturnEdge_Tick decode_outcome dirs.1.2 ctx (B_click b1, outcomes) in
  let '(ledger3, declines3, _) := DeclineEdge_Tick decode_decline dirs.2 ctx (Click_Ledger click2, declines) in
  ((mkBeat (B_env b1) (B_store b1) (mkClick ledger3 (Click_Cases click2)) (B_pub b1) (B_journal b1), attempts1, inbox1, outcomes2, declines3),
   match r with inl _ => None | inr err => Some err end).

End beat.

(** ** What one event does to the ledger and the case base *)

(** the one row an outcome or a decline can change *)
Lemma absorb_return_ledger c r :
  Click_Ledger (absorb_return c r) = Click_Ledger c \/
  exists fp f, Click_Ledger (absorb_return c r) = (update_newest_open fp f (Click_Ledger c)).1.
Proof.
  destruct r as [o | d]; simpl.
  - unfold learnHandler, Absorb. destruct (Outcome_Auditable o); [by left |]. destruct (coherent o); [| by left]. simpl. unfold Observe. simpl.
    right. eexists _, _. destruct (update_newest_open _ _ _) as [l' [s | e]] eqn:E; [| by rewrite E]. destruct (Append _ _). by rewrite E.
  - right. unfold declineHandler, Decline. simpl. eexists _, _. by destruct (update_newest_open _ _ _) as [l' r] eqn:E; rewrite E.
Qed.

Lemma Append_elem cb x cb' e c : Append cb x = (cb', e) -> c ∈ CaseBase_cases cb' -> c ∈ CaseBase_cases cb \/ c = x.
Proof.
  unfold Append. destruct (_ || _); [intros [= <- _]; by left |]. destruct (_ <=? _); intros [= <- _]; simpl; rewrite elem_of_app, list_elem_of_singleton.
  - intros [Hin | ->]; [left | by right]. destruct (CaseBase_cases cb); [done | by right].
  - tauto.
Qed.

(** a case is new only as the case of an outcome the handler accepts and a set it answers *)
Lemma absorb_return_cases c r x : x ∈ CaseBase_cases (Click_Cases (absorb_return c r)) ->
  x ∈ CaseBase_cases (Click_Cases c) \/
  exists o row, r = RetOutcome o /\ Outcome_Auditable o = None /\ coherent o = true /\ row ∈ Ledger_sets (Click_Ledger c) /\
    answers (Outcome_SignalRef o) row = true /\ x = newCase (recorded_set row) o.
Proof.
  destruct r as [o | d]; simpl; [| by left]. unfold learnHandler, Absorb. destruct (Outcome_Auditable o) eqn:Ea; [by left |].
  destruct (coherent o) eqn:Ec; [| by left]. simpl. unfold Observe. simpl.
  destruct (update_newest_open _ _ _) as [l' [s | e]] eqn:E; [| by left]. destruct (Append _ _) as [cb' err] eqn:Ea'. simpl.
  intros [Hin | ->]%(Append_elem _ _ _ _ _ Ea'); [by left |]. right.
  apply update_newest_open_Some in E as (pre & row & post & Hl & Hans & _ & _ & ->). exists o, row. repeat (split; [done |]).
  split; [rewrite Hl, elem_of_app; right; by left |]. split; [done |].
  unfold on_set_status. by destruct (Set_Status (recorded_set row)).
Qed.

(** a row as an update leaves it: it answers for the same incident since the same time, and
    is open only if it was *)
Definition later_row (r r' : recorded) : Prop :=
  recorded_at r' = recorded_at r /\ Set_SignalRef (recorded_set r') = Set_SignalRef (recorded_set r) /\
  (open_set (recorded_set r') = true -> open_set (recorded_set r) = true).

Lemma later_rows_refl rows : Forall2 later_row rows rows.
Proof. induction rows; by constructor. Qed.

Lemma update_later fp f l : Forall2 later_row (Ledger_sets l) (Ledger_sets (update_newest_open fp f l).1).
Proof.
  destruct (update_newest_open fp f l) as [l' [s | e]] eqn:E; simpl.
  - apply update_newest_open_Some in E as (pre & row & post & Hl & Hans & _ & Hl' & _). rewrite Hl, Hl'.
    apply Forall2_app; [apply later_rows_refl | constructor; [| apply later_rows_refl]].
    unfold later_row, answers in *. bsplit. unfold on_status. destruct (Set_Status (recorded_set row)); by repeat split.
  - apply update_newest_open_None in E as (-> & _). apply later_rows_refl.
Qed.

Section effects.
Context {M S_ WP WJ : Type} `{PublisherLaws WP ProposalSet} `{PublisherLaws WJ ProposalSet}.
Abbreviation Eng := (Engine (M := M) (S_ := S_)).
Abbreviation St := (EngState (M := M) (S_ := S_) (WP := WP) (WJ := WJ)).
Abbreviation Beat := (Beat (M := M) (S_ := S_) (WP := WP) (WJ := WJ)).
Abbreviation Parts := (Parts (M := M) (S_ := S_)).

Lemma record_run_effect (e : Eng) ck set (st st' : St) r : record_run e Background ck set st = (st', r) ->
  Es_ledger st' = (Record_ Background set (Ck_record ck) (Ck_recorded ck) (Es_ledger st)).1 /\ Es_pub st' = Es_pub st /\
  (r = inl set \/ exists err, r = inr err).
Proof.
  unfold record_run. destruct (Record_ _ _ _ _ _) as [l' [err |]]; [by intros [= <- <-]; eauto |].
  destruct (Eng_HasJournal e); [| by intros [= <- <-]; eauto]. destruct (publish _ _ _) as [j' [err |]]; intros [= <- <-]; eauto.
Qed.

(** what a concluded run leaves: no row; or a row that is closed and was not announced; or an
    open row for a ready set, with no open set before it, announced unless an error is returned *)
Definition left_by (e : Eng) (ck : Clock) (sig : Detection) (st st' : St) (r : result ProposalSet) : Prop :=
  (Es_ledger st' = Es_ledger st /\ Es_pub st' = Es_pub st /\ exists err, r = inr err) \/
  exists s, Es_ledger st' = (Record_ Background s (Ck_record ck) (Ck_recorded ck) (Es_ledger st)).1 /\
    Set_SignalRef s = Detection_Fingerprint sig /\ (r = inl s \/ exists err, r = inr err) /\
    ((open_set s = false /\ Es_pub st' = Es_pub st) \/
     (open_set s = true /\ (exists sao, Ready e sig sao s) /\
      Open Background (Detection_Fingerprint sig) (GoTime.Add (Ck_gate ck) (- Eng_DedupeWindow e)) (Es_ledger st) = inl [] /\
      (on_subject "thump.proposals" (Es_pub st') = on_subject "thump.proposals" (Es_pub st) ++ [s] \/
       on_subject "thump.proposals" (Es_pub st') = on_subject "thump.proposals" (Es_pub st) /\ exists err, r = inr err))).

Lemma closed_effect (e : Eng) ck sig runID sao d g phase reason (st st' : St) r : isOpen phase = false ->
  record_run e Background ck (draft_set sig runID sao d g phase reason) st = (st', r) -> left_by e ck sig st st' r.
Proof.
  intros Hph (Hl & Hp & Hr)%record_run_effect. right. eexists. split; [exact Hl |]. split; [done |]. split; [exact Hr |]. by left.
Qed.

Lemma gated_effect (e : Eng) ck sig runID sao d dupes (st st1 st' : St) r r1 :
  let set := form_set e sig sao (draft_set sig runID sao d None "" (Dr_Reason d)) in
  let g := gate_Evaluate set dupes in
  enforceCatalog (Eng_Catalog e) (draft_set sig runID sao d None "" (Dr_Reason d)) sao = None ->
  enforceCitations (draft_set sig runID sao d None "" (Dr_Reason d)) = None ->
  Open Background (Detection_Fingerprint sig) (GoTime.Add (Ck_gate ck) (- Eng_DedupeWindow e)) (Es_ledger st) = inl dupes ->
  record_run e Background ck (with_gate set g) st = (st1, r1) -> Es_ledger st' = Es_ledger st1 ->
  (Es_pub st' = Es_pub st1 /\ r = r1 /\ (GateResult_Passed g = false \/ exists err, r1 = inr err)) \/
  (GateResult_Passed g = true /\ exists res, publish "thump.proposals" (with_gate set g) (Es_pub st1) = (Es_pub st', res) /\
     match res with None => r = inl (with_gate set g) | Some _ => exists err, r = inr err end) ->
  left_by e ck sig st st' r.
Proof.
  intros set g Hcat Hcite Hopen (Hl & Hp & Hr1)%record_run_effect Hl' Hend.
  destruct (form_set_fields e sig sao (draft_set sig runID sao d None "" (Dr_Reason d))) as (_ & Hsig & _ & _ & _ & _ & _ & Hst & _).
  assert (forall g, open_set (with_gate set g) = GateResult_Passed g) as Hos.
  { intros g'. unfold open_set, with_gate. cbn [Set_Status]. unfold set. rewrite Hst. by destruct g' as [? ? ? [] ?]. }
  assert (GateResult_Passed g = true -> dupes = []) as Hdup by (unfold g; by destruct dupes).
  right. exists (with_gate set g). rewrite Hos. split; [congruence |]. split; [exact Hsig |].
  destruct Hend as [(Hpub & -> & Hno) | (Hg & res & Hpub & Hr)].
  - split; [exact Hr1 |]. destruct (GateResult_Passed g) eqn:Eg; [| left; split; congruence]. destruct Hno as [[=] | Herr]. right.
    split; [done |]. split; [eexists; by apply with_gate_ready |]. rewrite Hopen, Hdup by done. split; [done |]. right. by rewrite Hpub, Hp.
  - split; [by destruct res; auto |]. right. split; [done |]. split; [eexists; by apply with_gate_ready |]. rewrite Hopen, Hdup by done. split; [done |].
    rewrite <- Hp. destruct res; [| left; by apply on_subject_ok]. apply on_subject_any in Hpub as [-> | ->]; auto.
Qed.

Lemma conclude_effect (e : Eng) ck sig runID sao d (st st' : St) r :
  Eng_HasPub e = true -> conclude e Background ck sig runID sao d st = (st', r) -> left_by e ck sig st st' r.
Proof.
  intros Hpub. unfold conclude. cbv zeta. destruct (finished d); cbn [negb]; [| by apply closed_effect].
  destruct (Dr_proposed d); cbn [negb]; [| by apply closed_effect].
  destruct (enforceCatalog _ _ sao) as [err |] eqn:Ecat; [destruct (_ && _); [intros [= <- <-]; left; eauto | by apply closed_effect] |].
  destruct (enforceCitations _) as [err |] eqn:Ecite; [destruct (negb _); [intros [= <- <-]; left; eauto | by apply closed_effect] |].
  destruct (Open _ _ _ _) as [dupes | err] eqn:Eo; [| intros [= <- <-]; left; eauto].
  destruct (record_run e _ _ _ st) as [st1 r1] eqn:Er.
  pose proof (gated_effect e ck sig runID sao d dupes st st1 st' r r1 Ecat Ecite Eo Er) as Hend. rewrite Hpub in *.
  pose proof (record_run_effect _ _ _ _ _ _ Er) as (_ & _ & Hr1).
  destruct r1 as [s1 | err]; [| intros [= <- <-]; apply Hend; [done |]; left; eauto]. destruct Hr1 as [[= ->] | [? [=]]].
  destruct (GateResult_Passed _) eqn:Eg; cbn [andb].
  - destruct (publish _ _ _) as [p' res] eqn:Ep. intros Hrun. apply Hend; [by destruct res; injection Hrun as <- <- |]. right. split; [done |].
    exists res. destruct res; injection Hrun as <- <-; split; eauto.
  - intros [= <- <-]. apply Hend; [done |]. by left; auto.
Qed.

Lemma Propose_suppressed (e : Eng) ck sig during (st : St) :
  Open Background (Detection_Fingerprint sig) (GoTime.Add (Ck_open ck) (- Eng_DedupeWindow e)) (Es_ledger st) <> inl [] ->
  (Propose e Background ck sig during st).1 = st.
Proof. unfold Propose. by destruct (Open _ _ _ _) as [[| o os] | err]. Qed.

Lemma Propose_effect (e : Eng) ck sig during (st st' : St) r : Eng_HasPub e = true ->
  Open Background (Detection_Fingerprint sig) (GoTime.Add (Ck_open ck) (- Eng_DedupeWindow e)) (Es_ledger st) = inl [] ->
  Propose e Background ck sig during st = (st', r) ->
  exists st0 st1, left_by e ck sig st0 st1 r /\ Es_ledger st0 = during (Es_ledger st) /\ Es_pub st0 = Es_pub st /\
    Es_ledger st1 = Es_ledger st' /\ Es_pub st1 = Es_pub st'.
Proof.
  intros Hpub Ho. unfold Propose. rewrite Ho.
  assert (forall (st1 : St) err, Es_ledger st1 = during (Es_ledger st) -> Es_pub st1 = Es_pub st ->
    exists st0 st2, left_by e ck sig st0 st2 (inr err) /\ Es_ledger st0 = during (Es_ledger st) /\ Es_pub st0 = Es_pub st /\
      Es_ledger st2 = Es_ledger st1 /\ Es_pub st2 = Es_pub st1) as Hfail.
  { intros st1 err Hl Hp. exists st1, st1. split; [left; eauto | done]. }
  destruct (Assemble _ _ _ _) as [m1 [sao | err]]; [| destruct (Store_Finish _ _ _ _) as [s' e']; intros [= <- <-]; by apply Hfail].
  destruct (reason_loop _ _ _ _ _ _ _ _) as [[m2 s2] [d | err]]; [| destruct (Store_Finish _ _ _ _) as [s' e']; intros [= <- <-]; by apply Hfail].
  set (st0 := mkEngState m2 s2 _ _ _). destruct (conclude _ _ _ _ _ _ _ st0) as [st1 r1] eqn:Ec.
  destruct (Store_Finish _ _ _ _) as [s' e']. intros [= <- <-]. exists st0, st1. split; [by eapply conclude_effect | done].
Qed.

Lemma click_eta c : mkClick (Click_Ledger c) (Click_Cases c) = c.
Proof. by destruct c. Qed.

Lemma drift_ledger rs : forall c c', Click_Ledger c = Click_Ledger c' -> Click_Ledger (drift rs c) = Click_Ledger (drift rs c').
Proof.
  induction rs as [| r rs IH]; intros c c' Hl; [done |]. unfold drift. cbn [fold_left]. apply IH. destruct r as [o | d]; simpl.
  - unfold learnHandler, Absorb. destruct (Outcome_Auditable o); [done |]. destruct (coherent o); [| done]. simpl. rewrite Hl.
    destruct (Observe _ _ _) as [l' [s | e]]; [| done]. by destruct (Append (Click_Cases c) _), (Append (Click_Cases c') _).
  - by rewrite Hl.
Qed.

(** [left_by], seen on the shared state *)
Definition beat_left (e : Eng) (ck : Clock) (sig : Detection) (click : Click) (b b' : Beat) (r : result ProposalSet) : Prop :=
  Click_Cases (B_click b') = Click_Cases click /\
  ((Click_Ledger (B_click b') = Click_Ledger click /\ B_pub b' = B_pub b) \/
   exists s, Click_Ledger (B_click b') = (Record_ Background s (Ck_record ck) (Ck_recorded ck) (Click_Ledger click)).1 /\
     Set_SignalRef s = Detection_Fingerprint sig /\
     ((open_set s = false /\ B_pub b' = B_pub b) \/
      (open_set s = true /\ (exists sao, Ready e sig sao s) /\
       Open Background (Detection_Fingerprint sig) (GoTime.Add (Ck_gate ck) (- Eng_DedupeWindow e)) (Click_Ledger click) = inl [] /\
       (on_subject "thump.proposals" (B_pub b') = on_subject "thump.proposals" (B_pub b) ++ [s] \/
        on_subject "thump.proposals" (B_pub b') = on_subject "thump.proposals" (B_pub b) /\ exists err, r = inr err)))).

Lemma propose_effect (mk : CaseBase -> Eng) sig ck during (b b' : Beat) r :
  (forall cases, Eng_HasPub (mk cases) = true) -> propose mk sig ck during b = (b', r) ->
  beat_left (mk (Click_Cases (drift during (B_click b)))) ck sig (drift during (B_click b)) b b' r.
Proof.
  intros Hpub. unfold propose, beat_left. set (click := drift during (B_click b)). set (e := mk (Click_Cases click)). set (st := mkEngState _ _ _ _ _).
  destruct (Open _ _ _ _) as [[| o os] | err] eqn:Eo.
  2,3: (assert ((Propose e Background ck sig id st).1 = st) as Hst by (apply Propose_suppressed; simpl; by rewrite Eo);
    destruct (Propose _ _ _ _ _ _) as [st' r']; simpl in Hst; subst st'; intros [= <- <-]; simpl; rewrite click_eta; fold click; split; [done | by left]).
  destruct (Propose _ _ _ _ _ _) as [st' r'] eqn:Ep. intros [= <- <-]. simpl. split; [done |].
  apply Propose_effect in Ep as (st0 & st1 & Hleft & Hl0 & Hp0 & Hl1 & Hp1); [| apply Hpub | exact Eo].
  assert (Es_ledger st0 = Click_Ledger click) as Hl0' by (rewrite Hl0; by apply drift_ledger).
  unfold left_by in Hleft. rewrite Hl0', Hl1, Hp1, Hp0 in Hleft. simpl in Hleft.
  destruct Hleft as [(-> & -> & _) | (s & Hl & Hsig & _ & Hend)]; [by left | right; by exists s].
Qed.

End effects.

(** ** What the ledger and the case base may hold *)

Section holds.
(** [F] are the sets the beat may answer for, [L] the outcomes it may learn from *)
Context (F : ProposalSet -> Prop) (L : Outcome -> Prop).
Hypothesis F_status : forall s st, F s -> F (with_status s st).

Definition click_ok (c : Click) : Prop :=
  (forall row, row ∈ Ledger_sets (Click_Ledger c) -> open_set (recorded_set row) = true -> F (recorded_set row)) /\
  (forall x, x ∈ CaseBase_cases (Click_Cases c) ->
     exists s o, F s /\ L o /\ Set_SignalRef s = Outcome_SignalRef o /\ x = newCase s o).

Lemma F_on_status f s : F s -> F (on_set_status f s).
Proof. unfold on_set_status. destruct (Set_Status s); auto. Qed.

Lemma update_rows fp f l row : row ∈ Ledger_sets (update_newest_open fp f l).1 ->
  row ∈ Ledger_sets l \/ exists row0, row0 ∈ Ledger_sets l /\ answers fp row0 = true /\ row = on_status f row0.
Proof.
  destruct (update_newest_open fp f l) as [l' [s | e]] eqn:E; simpl.
  - apply update_newest_open_Some in E as (pre & row0 & post & -> & Hans & _ & -> & _). rewrite !elem_of_app, !elem_of_cons.
    intros [Hin | [-> | Hin]]; [left; by left | right; exists row0; rewrite elem_of_app, elem_of_cons; auto | left; right; by right].
  - apply update_newest_open_None in E as (-> & _). by left.
Qed.

Lemma update_ok fp f c : click_ok c -> click_ok (mkClick (update_newest_open fp f (Click_Ledger c)).1 (Click_Cases c)).
Proof.
  intros [Hrows Hcases]. split; [| exact Hcases]. simpl. intros row [Hin | (row0 & Hin & Hans & ->)]%update_rows Ho; [by apply Hrows |].
  rewrite recorded_set_on_status. apply F_on_status, Hrows; [done |]. unfold answers in Hans. by bsplit.
Qed.

Lemma record_ok ps now at_ c : (open_set ps = true -> F ps) -> click_ok c ->
  click_ok (mkClick (Record_ Background ps now at_ (Click_Ledger c)).1 (Click_Cases c)).
Proof.
  intros Hps [Hrows Hcases]. split; [| exact Hcases]. simpl. intros row. rewrite elem_of_app, list_elem_of_singleton.
  intros [[Hin _]%elem_of_filterb | ->]; [by apply Hrows | done].
Qed.

Lemma learn_ok c row o l' cb' err : click_ok c -> row ∈ Ledger_sets (Click_Ledger c) -> answers (Outcome_SignalRef o) row = true -> L o ->
  click_ok (mkClick l' (Click_Cases c)) -> Append (Click_Cases c) (newCase (recorded_set row) o) = (cb', err) -> click_ok (mkClick l' cb').
Proof.
  intros [Hrows Hcases] Hin Hans Ho [Hrows' _] Ha. split; [exact Hrows' |]. simpl. intros x [Hx | ->]%(Append_elem _ _ _ _ _ Ha); [by apply Hcases |].
  unfold answers in Hans. bsplit. exists (recorded_set row), o. repeat split; try done. by apply Hrows.
Qed.

Lemma return_ok c r : (forall o, r = RetOutcome o -> Outcome_Auditable o = None -> coherent o = true -> L o) ->
  click_ok c -> click_ok (absorb_return c r).
Proof.
  intros HL Hok. destruct (absorb_return_ledger c r) as [Hl | (fp & f & Hl)].
  - split; [rewrite Hl; apply Hok |]. intros x [Hx | (o & row & -> & Ha & Hc & Hin & Hans & ->)]%absorb_return_cases; [by apply Hok |].
    unfold answers in Hans. bsplit. exists (recorded_set row), o. repeat split; auto. by apply Hok.
  - split; [rewrite Hl; apply (update_ok fp f c Hok) |]. intros x [Hx | (o & row & -> & Ha & Hc & Hin & Hans & ->)]%absorb_return_cases; [by apply Hok |].
    unfold answers in Hans. bsplit. exists (recorded_set row), o. repeat split; auto. by apply Hok.
Qed.

Lemma drift_ok rs c : (forall o, RetOutcome o ∈ rs -> Outcome_Auditable o = None -> coherent o = true -> L o) ->
  click_ok c -> click_ok (drift rs c).
Proof.
  revert c. induction rs as [| r rs IH]; intros c HL Hok; [done |]. unfold drift. cbn [fold_left]. apply IH.
  - intros o Ho. apply HL. by right.
  - apply return_ok; [| done]. intros o ->. apply HL. by left.
Qed.

Lemma replay_ok ev c c' : replayInto Background ev c = inl c' ->
  (forall ps, replay_payload ev = ReplayProposal ps -> F ps) -> (forall o, replay_payload ev = ReplayOutcome o -> L o) ->
  click_ok c -> click_ok c'.
Proof.
  unfold replayInto. intros Hr HF HL Hok. destruct (replay_payload ev) as [ps | o | d].
  - injection Hr as <-. split; [| apply Hok]. simpl. intros row. rewrite elem_of_app, list_elem_of_singleton.
    intros [Hin | ->]; [by apply Hok | intros _; by apply HF].
  - unfold Observe in Hr. simpl in Hr. pose proof (update_ok (Outcome_SignalRef o) (fun st => transition st o) c Hok) as Hup.
    destruct (update_newest_open _ _ _) as [l' [s | e]] eqn:E; simpl in Hup; [| destruct (errors_Is _ _); [by injection Hr as <- | done]].
    destruct (Append _ _) as [cb' [err |]] eqn:Ea; [done |]. injection Hr as <-.
    apply update_newest_open_Some in E as (pre & row & post & Hl & Hans & _ & _ & ->).
    assert (newCase (on_set_status (fun st => transition st o) (recorded_set row)) o = newCase (recorded_set row) o) as Hc
      by (unfold on_set_status; by destruct (Set_Status (recorded_set row))).
    rewrite Hc in Ea. apply (learn_ok c row o l' cb' None Hok); [rewrite Hl, elem_of_app; right; by left | done | by apply HL | exact Hup | exact Ea].
  - unfold Decline in Hr. simpl in Hr. pose proof (update_ok (Decision_SignalRef d) (declined (Decision_EvaluatedAt d)) c Hok) as Hup.
    destruct (update_newest_open _ _ _) as [l' [s | e]]; simpl in Hup; [by injection Hr as <- |].
    destruct (errors_Is _ _); [by injection Hr as <- | done].
Qed.

Lemma replay_all_ok evs : forall c c', replay_all Background evs c = inl c' ->
  (forall ev, ev ∈ evs -> (forall ps, replay_payload ev = ReplayProposal ps -> F ps) /\ (forall o, replay_payload ev = ReplayOutcome o -> L o)) ->
  click_ok c -> click_ok c'.
Proof.
  induction evs as [| ev evs IH]; intros c c'; cbn [replay_all]; [by intros [= <-] |].
  destruct (replayInto _ ev c) as [c1 | e] eqn:E; [| done]. intros Hr Hev Hok. eapply IH; [exact Hr | intros ev' Hin; apply Hev; by right |].
  destruct (Hev ev ltac:(by left)) as [HF HL]. by eapply replay_ok.
Qed.

End holds.

(** ** Histories *)

Section histories.
Context {M S_ WP WJ : Type} `{PublisherLaws WP ProposalSet} `{PublisherLaws WJ ProposalSet}.
Abbreviation Beat := (Beat (M := M) (S_ := S_) (WP := WP) (WJ := WJ)).
Context (p : Parts (M := M) (S_ := S_)).

(** a set this beat's engine formed for a detection it was handed, whatever became of its status *)
Definition Formed (evs : list event) (s : ProposalSet) : Prop :=
  exists sig ck during err sao s0 st, EvDetection sig ck during err ∈ evs /\
    Ready (newBrokerEngine p NewCaseBase) sig sao s0 /\ s = with_status s0 st.

Definition came_back (r : returned) (ev : event) : Prop :=
  match ev with
  | EvDetection _ _ during _ => r ∈ during
  | EvReturn r' => r = r'
  | EvRestart _ _ _ => False
  end.

(** an outcome that was delivered and passed the edge's checks, or one a restart read from
    the stream *)
Definition Answered (evs : list event) (o : Outcome) : Prop :=
  (exists ev, ev ∈ evs /\ came_back (RetOutcome o) ev /\ Outcome_Auditable o = None /\ coherent o = true) \/
  (exists ps os ds ev, EvRestart ps os ds ∈ evs /\ ev ∈ os ++ ds /\ replay_payload ev = ReplayOutcome o).

Lemma Formed_status evs s st : Formed evs s -> Formed evs (with_status s st).
Proof. intros (sig & ck & during & err & sao & s0 & st0 & Hin & Hr & ->). exists sig, ck, during, err, sao, s0, st. done. Qed.

Lemma Formed_mono evs evs' s : Formed evs s -> Formed (evs ++ evs') s.
Proof. intros (sig & ck & during & err & sao & s0 & st & Hin & Hr). exists sig, ck, during, err, sao, s0, st. rewrite elem_of_app. tauto. Qed.

Lemma Answered_mono evs evs' o : Answered evs o -> Answered (evs ++ evs') o.
Proof.
  intros [(ev & Hin & Hr) | (ps & os & ds & ev & Hin & Hr)]; [left; exists ev | right; exists ps, os, ds, ev]; rewrite elem_of_app; tauto.
Qed.

Lemma click_ok_mono (F F' : ProposalSet -> Prop) (L L' : Outcome -> Prop) c :
  (forall s, F s -> F' s) -> (forall o, L o -> L' o) -> click_ok F L c -> click_ok F' L' c.
Proof. intros HF HL [Hrows Hcases]. split; [auto |]. intros x (s & o & ? & ? & ?)%Hcases. exists s, o. auto. Qed.

Lemma ready_formed evs sig ck during err cases sao s :
  Ready (newBrokerEngine p cases) sig sao s -> Formed (evs ++ [EvDetection sig ck during err]) s.
Proof.
  intros Hr. destruct (ready_phase _ _ _ _ Hr) as (st & Hst & _). exists sig, ck, during, err, sao, s, st.
  split; [rewrite elem_of_app; right; by left |]. split; [by destruct Hr |]. destruct s. simpl in Hst. by subst.
Qed.

Definition beat_ok (evs : list event) (b : Beat) : Prop :=
  click_ok (Formed evs) (Answered evs) (B_click b) /\
  forall s, s ∈ on_subject "thump.proposals" (B_pub b) -> Formed evs s.

Lemma detection_ok evs sig ck during err (b b' : Beat) :
  on_detection p sig ck during b = (b', err) -> beat_ok evs b -> beat_ok (evs ++ [EvDetection sig ck during err]) b'.
Proof.
  unfold on_detection. destruct (propose _ _ _ _ _) as [b1 r] eqn:Ep. intros [= <- _] [Hok Hstream].
  set (evs' := evs ++ _). apply propose_effect in Ep as [Hcases Hled]; [| done].
  assert (click_ok (Formed evs') (Answered evs') (drift during (B_click b))) as Hd.
  { apply drift_ok; [intros s st; apply Formed_status | |].
    - intros o Hin Ha Hc. left. exists (EvDetection sig ck during err). split; [unfold evs'; rewrite elem_of_app; right; by left | done].
    - eapply click_ok_mono; [intros s; apply Formed_mono | intros o; apply Answered_mono | done]. }
  destruct Hled as [[Hl Hp] | (s & Hl & Hsig & Hend)].
  - split; [by rewrite <- (click_eta (B_click b1)), Hl, Hcases, click_eta |]. rewrite Hp. intros s Hin. apply Formed_mono. by apply Hstream.
  - assert (open_set s = true -> Formed evs' s) as Hs.
    { destruct Hend as [[-> _] | (_ & (sao & Hr) & _)]; [done |]. intros _. by eapply ready_formed. }
    split; [rewrite <- (click_eta (B_click b1)), Hl, Hcases; apply record_ok; [exact Hs | done] |].
    intros s' Hin. destruct Hend as [[_ Hp] | (Ho & _ & _ & [Hp | [Hp _]])]; rewrite Hp in Hin.
    + apply Formed_mono. by apply Hstream.
    + rewrite elem_of_app, list_elem_of_singleton in Hin. destruct Hin as [Hin | ->]; [apply Formed_mono; by apply Hstream | by apply Hs].
    + apply Formed_mono. by apply Hstream.
Qed.

Lemma step_ok evs (b b' : Beat) ev : beat_ok evs b -> step p b ev b' -> beat_ok (evs ++ [ev]) b'.
Proof.
  intros Hok Hstep. destruct Hstep as [sig ck during b' err Hd | r | ps os ds c Hps Hos Hds Hc].
  - by eapply detection_ok.
  - destruct Hok as [Hok Hstream]. split; [| intros s Hin; apply Formed_mono; by apply Hstream]. simpl. apply return_ok.
    + intros s st. apply Formed_status.
    + intros o -> Ha Hc. left. exists (EvReturn (RetOutcome o)). split; [rewrite elem_of_app; right; by left | done].
    + eapply click_ok_mono; [intros s; apply Formed_mono | intros o; apply Answered_mono | done].
  - destruct Hok as [Hok Hstream]. split; [| intros s Hin; apply Formed_mono; by apply Hstream]. simpl.
    unfold buildLedger, rebuildLedger in Hc. eapply (replay_all_ok _ _ (Formed_status _)); [exact Hc | | by split; [intros ? ?%elem_of_nil | intros ? ?%elem_of_nil]].
    intros ev Hin. rewrite sort_stable_perm, !elem_of_app in Hin. rewrite list.Forall_forall in Hos, Hds. split.
    + intros ps' Hp. apply Formed_mono. destruct Hin as [Hin | [Hin | Hin]].
      * destruct (Hps _ Hin) as (ps0 & Hp0 & Hs). rewrite Hp0 in Hp. injection Hp as <-. by apply Hstream.
      * specialize (Hos _ Hin). unfold is_return in Hos. by rewrite Hp in Hos.
      * specialize (Hds _ Hin). unfold is_return in Hds. by rewrite Hp in Hds.
    + intros o Ho. right. exists ps, os, ds, ev. rewrite !elem_of_app. split; [right; by left |]. split; [| done].
      destruct Hin as [Hin | Hin]; [| done]. destruct (Hps _ Hin) as (ps0 & Hp0 & _). by rewrite Hp0 in Ho.
Qed.

Lemma reach_ok evs (b0 b : Beat) : beat_ok [] b0 -> reach p b0 evs b -> beat_ok evs b.
Proof. intros Hok. induction 1; [done |]. by eapply step_ok. Qed.

Lemma fresh_ok m s (pub : WP) (journal : WJ) : on_subject "thump.proposals" pub = [] -> beat_ok [] (fresh p m s pub journal).
Proof. intros Hp. split; [split; intros ? ?%elem_of_nil; done |]. simpl. rewrite Hp. by intros ? ?%elem_of_nil. Qed.

(** C10. What clank learns was earned: after any history of the beat, with deliveries in any
    order, failed runs and restarts in between, every case its confidence is scored from is
    the case of an outcome that came back and passed the edge's checks (or that a restart read
    off the stream) for a set that the beat's own engine formed for a detection it was handed,
    that passed the gate, and that is about the same incident. *)
Theorem cases_are_earned m s (pub : WP) (journal : WJ) evs (b : Beat) c :
  on_subject "thump.proposals" pub = [] -> reach p (fresh p m s pub journal) evs b -> c ∈ CaseBase_cases (Click_Cases (B_click b)) ->
  exists sig ck during err sao s0 o, EvDetection sig ck during err ∈ evs /\ Ready (newBrokerEngine p NewCaseBase) sig sao s0 /\
    Answered evs o /\ Outcome_SignalRef o = Detection_Fingerprint sig /\ c = newCase s0 o.
Proof.
  intros Hp Hr Hin. destruct (reach_ok _ _ _ (fresh_ok m s pub journal Hp) Hr) as [[_ Hcases] _].
  destruct (Hcases _ Hin) as (s1 & o & (sig & ck & during & err & sao & s0 & st & Hev & Hready & ->) & Ho & Hsig & ->).
  exists sig, ck, during, err, sao, s0, o. repeat (split; [done |]).
  destruct (ready_signal _ _ _ _ Hready) as [Hs _]. rewrite <- Hsig. split; [exact Hs | done].
Qed.

(** ** One open proposal per incident *)

(** two open rows of one incident are at least [W] apart *)
Definition apart (W : Duration) (a b : recorded) : Prop :=
  Set_SignalRef (recorded_set a) = Set_SignalRef (recorded_set b) -> open_set (recorded_set a) = true ->
  open_set (recorded_set b) = true -> recorded_at a + W <= recorded_at b.

Definition spaced (b : Beat) : Prop := StronglySorted (apart (Pt_DedupeWindow p)) (Ledger_sets (Click_Ledger (B_click b))).

(** the gate reads the clock before the row is recorded *)
Definition clock_runs (ev : event) : Prop :=
  match ev with
  | EvDetection _ ck _ _ => Ck_gate ck <= Ck_recorded ck
  | EvReturn _ => True
  | EvRestart _ _ _ => False
  end.

Lemma apart_later W a b a' b' : later_row a a' -> later_row b b' -> apart W a b -> apart W a' b'.
Proof. unfold later_row, apart. intros (Ha & Hsa & Hoa) (Hb & Hsb & Hob) Hab. rewrite Ha, Hb, Hsa, Hsb. auto. Qed.

Lemma spaced_later W rows rows' : Forall2 later_row rows rows' -> StronglySorted (apart W) rows -> StronglySorted (apart W) rows'.
Proof.
  induction 1 as [| r r' rows rows' Hr Hrows IH]; intros Hs; [constructor |]. apply StronglySorted_inv in Hs as [Hs Hall].
  constructor; [by apply IH |]. clear IH Hs. induction Hrows as [| q q' rows rows' Hq _ IH]; [constructor |].
  apply Forall_cons_iff in Hall as [Hrq Hall]. constructor; [by eapply apart_later | by apply IH].
Qed.

Lemma spaced_return W c r : StronglySorted (apart W) (Ledger_sets (Click_Ledger c)) ->
  StronglySorted (apart W) (Ledger_sets (Click_Ledger (absorb_return c r))).
Proof. destruct (absorb_return_ledger c r) as [-> | (fp & f & ->)]; [done |]. apply spaced_later, update_later. Qed.

Lemma spaced_drift W rs : forall c, StronglySorted (apart W) (Ledger_sets (Click_Ledger c)) ->
  StronglySorted (apart W) (Ledger_sets (Click_Ledger (drift rs c))).
Proof. induction rs as [| r rs IH]; intros c Hs; [done |]. apply IH, spaced_return, Hs. Qed.

(** no open row of the incident is younger than [since] *)
Lemma Open_none fp since l : Open Background fp since l = inl [] ->
  forall row, row ∈ Ledger_sets l -> Set_SignalRef (recorded_set row) = fp -> open_set (recorded_set row) = true -> recorded_at row <= since.
Proof.
  unfold Open. simpl. intros Ho row Hin Hsig Hopen. destruct (existsb _ _); [done |]. injection Ho as Ho.
  destruct (After (recorded_at row) since) eqn:Ea; [| by apply Z.ltb_ge in Ea]. exfalso.
  assert (recorded_set row ∈ map recorded_set (List.filter (fun r => open_set (recorded_set r))
    (List.filter (fun r => (Set_SignalRef (recorded_set r) =s fp) && After (recorded_at r) since) (Ledger_sets l)))) as Hrow.
  { apply list_elem_of_fmap. exists row. split; [done |]. rewrite !elem_of_filterb, Hsig, seqb_refl, Ea. done. }
  rewrite Ho in Hrow. by apply elem_of_nil in Hrow.
Qed.

Lemma spaced_step (b b' : Beat) ev : clock_runs ev -> step p b ev b' -> spaced b -> spaced b'.
Proof.
  unfold spaced. intros Hclock Hstep Hs. destruct Hstep as [sig ck during b' err Hd | r |]; [| by apply spaced_return | done].
  unfold on_detection in Hd. destruct (propose _ _ _ _ _) as [b1 r] eqn:Ep. injection Hd as <- _. simpl in Hclock.
  apply propose_effect in Ep as [_ [[-> _] | (s & -> & Hsig & Hend)]]; [by apply spaced_drift | | done].
  set (W := Pt_DedupeWindow p) in *. set (click := drift during (B_click b)) in *.
  assert (StronglySorted (apart W) (Ledger_sets (Click_Ledger click))) as Hd by by apply spaced_drift.
  simpl. apply StronglySorted_app_2; [| by apply StronglySorted_filterb | repeat constructor].
  intros row new [Hin _]%elem_of_filterb ->%list_elem_of_singleton Heq Hrow Hnew. simpl in *.
  destruct Hend as [[Hc _] | (_ & _ & Hopen & _)]; [congruence |].
  pose proof (Open_none _ _ _ Hopen row Hin ltac:(congruence) Hrow) as Hle. unfold GoTime.Add in Hle. simpl in Hle. fold W in Hle. lia.
Qed.

(** C3. An incident has one proposal at a time: between restarts, whatever is delivered in
    whatever order, and with outcomes and declines coming back while the engine reasons, two
    sets of one fingerprint that are both still open in the ledger were recorded at least a
    dedupe window apart. *)
Theorem one_open_proposal (b0 b : Beat) evs i j r1 r2 :
  spaced b0 -> reach p b0 evs b -> Forall clock_runs evs ->
  (i < j)%nat -> Ledger_sets (Click_Ledger (B_click b)) !! i = Some r1 -> Ledger_sets (Click_Ledger (B_click b)) !! j = Some r2 ->
  Set_SignalRef (recorded_set r1) = Set_SignalRef (recorded_set r2) ->
  open_set (recorded_set r1) = true -> open_set (recorded_set r2) = true ->
  recorded_at r1 + Pt_DedupeWindow p <= recorded_at r2.
Proof.
  intros Hs Hr Hclock Hij Hi Hj. assert (spaced b) as Hb.
  { clear Hi Hj Hij. revert Hclock. induction Hr as [| evs b ev b' Hr IH Hstep]; [done |]. intros [Hclock Hev]%list.Forall_app.
    apply Forall_cons_iff in Hev as [Hev _]. eapply spaced_step; [exact Hev | exact Hstep | by apply IH]. }
  unfold spaced in Hb. rewrite <- (take_drop_middle _ _ _ Hi) in Hb. apply StronglySorted_app_1_r, StronglySorted_inv in Hb as [_ Hall].
  rewrite list.Forall_forall in Hall. apply Hall. apply list_elem_of_lookup. exists (j - S i)%nat. rewrite lookup_drop.
  by replace (S i + (j - S i))%nat with j by lia.
Qed.

(** ** A restart *)

Definition live_of (r : returned) : live_event := match r with RetOutcome o => LiveOutcome o | RetDecline d => LiveDecline d end.

Definition proposals_of (hist : list live_event) : list ProposalSet :=
  omap (fun ev => match ev with LiveProposal ps _ _ => Some ps | _ => None end) hist.

Definition returned_of (hist : list live_event) : list returned :=
  omap (fun ev => match ev with LiveOutcome o => Some (RetOutcome o) | LiveDecline d => Some (RetDecline d) | _ => None end) hist.

Definition returns_of (evs : list event) : list returned :=
  flat_map (fun ev => match ev with EvDetection _ _ during _ => during | EvReturn r => [r] | EvRestart _ _ _ => [] end) evs.

Definition accepted (r : returned) : Prop := match r with RetOutcome o => absorbable o | RetDecline _ => True end.

(** no run failed, and what came back is what thump publishes *)
Definition clean (ev : event) : Prop :=
  match ev with
  | EvDetection _ _ during err => err = None /\ Forall accepted during
  | EvReturn r => accepted r
  | EvRestart _ _ _ => False
  end.

(** what [replay_restores_open_sets] asks of a live event *)
Definition replayable (ev : live_event) : Prop :=
  match ev with LiveOutcome o => absorbable o | LiveRefused ps _ _ => open_set ps = false | _ => True end.

Lemma drift_live rs : forall c, drift rs c = fold_left (live_step Background) (map live_of rs) c.
Proof. induction rs as [| r rs IH]; intros c; [done |]. unfold drift. cbn [fold_left map]. rewrite <- IH. by destruct r. Qed.

Lemma live_of_facts rs : Forall accepted rs ->
  Forall replayable (map live_of rs) /\ proposals_of (map live_of rs) = [] /\ returned_of (map live_of rs) = rs.
Proof.
  induction 1 as [| r rs Hr _ (IH1 & IH2 & IH3)]; [done |]. split; [constructor; [by destruct r | done] |].
  unfold proposals_of, returned_of in *. cbn [omap list_omap map] in *. rewrite IH2, IH3. by destruct r.
Qed.

(** the part of the live history one clean event adds *)
Lemma clean_step (b b' : Beat) ev : clean ev -> step p b ev b' ->
  exists hist, B_click b' = fold_left (live_step Background) hist (B_click b) /\ Forall replayable hist /\ returned_of hist = returns_of [ev] /\
    on_subject "thump.proposals" (B_pub b') = on_subject "thump.proposals" (B_pub b) ++ proposals_of hist.
Proof.
  intros Hclean Hstep. destruct Hstep as [sig ck during b' err Hd | r |]; [| | done].
  - destruct Hclean as [-> Hacc]. destruct (live_of_facts _ Hacc) as (Hrep & Hprop & Hret). unfold on_detection in Hd.
    destruct (propose _ _ _ _ _) as [b1 r] eqn:Ep. injection Hd as <- Hr. assert (exists s, r = inl s) as [s0 ->] by (destruct r; [eauto | done]).
    apply propose_effect in Ep as [Hcases Hled]; [| done]. unfold returns_of. simpl. rewrite app_nil_r.
    destruct Hled as [[Hl Hp] | (s & Hl & Hsig & Hend)].
    + exists (map live_of during). rewrite Hp, Hprop, app_nil_r, <- drift_live, <- (click_eta (B_click b1)), Hl, Hcases, click_eta. done.
    + rewrite <- (click_eta (B_click b1)), Hl, Hcases, drift_live.
      destruct Hend as [[Hc Hp] | (_ & _ & _ & [Hp | [_ [? [=]]]])].
      * exists (map live_of during ++ [LiveRefused s (Ck_record ck) (Ck_recorded ck)]). rewrite fold_left_app. split; [done |].
        unfold returned_of, proposals_of in *. rewrite !omap_app, Hret, Hprop, Hp. simpl. rewrite !app_nil_r.
        split; [apply list.Forall_app; split; [done | by repeat constructor] | done].
      * exists (map live_of during ++ [LiveProposal s (Ck_record ck) (Ck_recorded ck)]). rewrite fold_left_app. split; [done |].
        unfold returned_of, proposals_of in *. rewrite !omap_app, Hret, Hprop, Hp. simpl. rewrite !app_nil_r.
        split; [apply list.Forall_app; split; [done | by repeat constructor] | done].
  - exists [live_of r]. destruct (live_of_facts [r] ltac:(by constructor)) as (Hrep & Hprop & Hret). simpl in *.
    rewrite Hprop, app_nil_r. split; [by destruct r | done].
Qed.

(** C4. A restart resumes the beat.  Take a process that began with an empty ledger and
    nothing of its own on thump.proposals and has not restarted since; let no run of it have
    failed, and let every outcome that came back, between runs or during one, be one [Absorb]
    accepts: auditable, of a mode and a result that agree, naming itself and its signal (what
    [Absorb] refuses a replay still applies: [replay_skips_absorb_checks]).  Then what it
    proposed, in order, and what came back, in order, make one history; and when the broker
    stamped that history with strictly increasing timestamps, draining the three streams
    rebuilds, without an error, the open sets and the case base the process had. *)
Theorem restart_resumes_the_beat m s (pub : WP) (journal : WJ) evs (b : Beat) :
  on_subject "thump.proposals" pub = [] -> reach p (fresh p m s pub journal) evs b -> Forall clean evs ->
  exists hist, proposals_of hist = on_subject "thump.proposals" (B_pub b) /\ returned_of hist = returns_of evs /\
    forall ts, length ts = length hist -> StronglySorted Z.lt ts ->
      exists c, buildLedger (Pt_Limits p) (List.filter is_proposal (streamed ts hist)) (List.filter is_outcome (streamed ts hist))
                  (List.filter is_decline (streamed ts hist)) = inl c /\
        open_view (Click_Ledger c) = open_view (Click_Ledger (B_click b)) /\ Click_Cases c = Click_Cases (B_click b).
Proof.
  intros Hp Hr Hclean.
  assert (exists hist, B_click b = fold_left (live_step Background) hist (B_click (fresh p m s pub journal)) /\ Forall replayable hist /\
    returned_of hist = returns_of evs /\ on_subject "thump.proposals" (B_pub b) = proposals_of hist) as (hist & Hb & Hrep & Hret & Hprop).
  { revert Hclean. induction Hr as [| evs b ev b' Hr IH Hstep]; [intros _; exists []; simpl; by rewrite Hp |].
    intros [Hclean Hev]%list.Forall_app. destruct (IH Hclean) as (hist & Hb & Hrep & Hret & Hprop).
    apply Forall_cons_iff in Hev as [Hev _]. destruct (clean_step _ _ _ Hev Hstep) as (l & Hb' & Hrep' & Hret' & Hprop').
    exists (hist ++ l). rewrite fold_left_app, <- Hb. split; [done |]. split; [by apply list.Forall_app |].
    unfold returned_of, proposals_of, returns_of in *. rewrite !omap_app, flat_map_app, Hret, Hret', Hprop', Hprop. done. }
  exists hist. split; [done |]. split; [done |]. intros ts Hlen Hsort. rewrite Hb.
  by apply replay_restores_open_sets.
Qed.

End histories.

(** ** Witnesses: the scripted model of the engine, run twice ten minutes apart *)

Definition alternating (msgs : list Message) (specs : list ToolSpec) (n : nat) : nat * result Completion :=
  (Datatypes.S n, (scripted msgs specs (if Nat.even n then O else 1%nat)).2).

Definition demo_parts : Parts (M := nat) (S_ := MemStore) :=
  let e := demo_engine true in
  mkParts (Eng_Intake e) alternating (Eng_Tools e) (Eng_Catalog e) [] (Eng_Store e) (10 * Minute) demo_weights
    (mkLimits 100 (24 * Hour) Hour 5 6) (Eng_schema e) (Eng_decode_propose e) (Eng_decode_insufficient e).

Definition demo_start : Beat (M := nat) (S_ := MemStore) (WP := MemPub ProposalSet) (WJ := MemPub ProposalSet) :=
  fresh demo_parts 0%nat NewMemStore (mkMemPub [] 0) (mkMemPub [] 0).

Definition demo_late : Clock := let t := 7 + 10 * Minute in mkClock t t t t t t.

Definition demo_blocked : Outcome := mkOutcome "out:1" "dec:1" "slo_burn:acme" "acme-shed-load" ModeLive ResultBlocked "" 9 None.

Definition demo_first := on_detection demo_parts ClankEngine.demo_detection demo_clock [] demo_start.
Definition demo_second := on_detection demo_parts ClankEngine.demo_detection demo_late [] demo_first.1.
Definition demo_returned := on_return (RetOutcome demo_blocked) demo_first.1.

Definition demo_answered : list event := [EvDetection ClankEngine.demo_detection demo_clock [] None; EvReturn (RetOutcome demo_blocked)].

Definition demo_repeated : list event := [EvDetection ClankEngine.demo_detection demo_clock [] None; EvDetection ClankEngine.demo_detection demo_late [] None].

Lemma demo_first_reached : reach demo_parts demo_start [EvDetection ClankEngine.demo_detection demo_clock [] None] demo_first.1.
Proof. eapply (reach_step _ _ [] _ _ _ (reach_start _ _)), step_detection. vm_compute. reflexivity. Defined.

Lemma demo_second_reached : reach demo_parts demo_start
  demo_repeated demo_second.1.
Proof. eapply (reach_step _ _ [_] _ _ _ demo_first_reached), step_detection. vm_compute. reflexivity. Defined.

Lemma demo_returned_reached : reach demo_parts demo_start
  demo_answered demo_returned.
Proof. exact (reach_step _ _ [_] _ _ _ demo_first_reached (step_return _ _ _)). Defined.

Lemma cases_are_earned_witness :
  exists c sig ck during err sao s0 o,
    CaseBase_cases (Click_Cases (B_click demo_returned)) = [c] /\
    EvDetection sig ck during err ∈ demo_answered /\
    Ready (newBrokerEngine demo_parts NewCaseBase) sig sao s0 /\
    Answered demo_answered o /\
    Outcome_SignalRef o = Detection_Fingerprint sig /\ c = newCase s0 o.
Proof.
  destruct (CaseBase_cases (Click_Cases (B_click demo_returned))) as [| c [| c' cs]] eqn:E; [vm_compute in E; discriminate E | | vm_compute in E; discriminate E].
  exists c. pose proof (cases_are_earned demo_parts 0%nat NewMemStore (mkMemPub [] 0 : MemPub ProposalSet) (mkMemPub [] 0 : MemPub ProposalSet) demo_answered demo_returned c) as H.
  specialize (H ltac:(vm_compute; reflexivity) demo_returned_reached). rewrite E in H. destruct (H ltac:(left)) as (sig & ck & during & err & sao & s0 & o & H').
  exists sig, ck, during, err, sao, s0, o. exact (conj eq_refl H').
Defined.

Lemma one_open_proposal_witness :
  exists r1 r2, Ledger_sets (Click_Ledger (B_click demo_second.1)) = [r1; r2] /\
    open_set (recorded_set r1) = true /\ open_set (recorded_set r2) = true /\
    recorded_at r1 + 10 * Minute <= recorded_at r2.
Proof.
  pose proof (one_open_proposal demo_parts demo_start demo_second.1 demo_repeated 0 1) as H.
  destruct (Ledger_sets (Click_Ledger (B_click demo_second.1))) as [| r1 [| r2 [| r3 rs]]] eqn:E; try (vm_compute in E; discriminate E).
  exists r1, r2. split; [reflexivity |]. specialize (H r1 r2 ltac:(constructor) demo_second_reached).
  assert (open_set (recorded_set r1) = true /\ open_set (recorded_set r2) = true /\
    Set_SignalRef (recorded_set r1) = Set_SignalRef (recorded_set r2)) as (Ho1 & Ho2 & Hs)
    by (vm_compute in E; injection E as <- <-; vm_compute; done).
  split; [exact Ho1 |]. split; [exact Ho2 |]. refine (H _ _ eq_refl eq_refl Hs Ho1 Ho2); [| lia].
  repeat constructor; vm_compute; discriminate.
Defined.

Lemma restart_resumes_the_beat_witness :
  open_view (Click_Ledger (B_click demo_first.1)) <> [] /\
  exists hist, proposals_of hist = on_subject "thump.proposals" (B_pub demo_first.1) /\ returned_of hist = [] /\
    forall ts, length ts = length hist -> StronglySorted Z.lt ts ->
      exists c, buildLedger (Pt_Limits demo_parts) (List.filter is_proposal (streamed ts hist)) (List.filter is_outcome (streamed ts hist))
                  (List.filter is_decline (streamed ts hist)) = inl c /\
        open_view (Click_Ledger c) = open_view (Click_Ledger (B_click demo_first.1)) /\ Click_Cases c = Click_Cases (B_click demo_first.1).
Proof.
  split; [vm_compute; discriminate |].
  pose proof (restart_resumes_the_beat demo_parts 0%nat NewMemStore (mkMemPub [] 0 : MemPub ProposalSet) (mkMemPub [] 0 : MemPub ProposalSet) [EvDetection ClankEngine.demo_detection demo_clock [] None] demo_first.1) as H.
  apply (H ltac:(vm_compute; reflexivity) demo_first_reached). repeat constructor.
Defined.
