(* ===== verification/Archive.v ===== *)
(** * internal/sealbox, objectstore, unseal and corpus.Walk: the sealed archive

    What a shipped segment goes through: [Key.Seal] and [Key.Open] (sealbox.go),
    [EncryptingSink.Put] and [UnsealSegment] (objectstore.go), the walk over a bucket
    ([Walk], [getSegment], [DecodeEach] of corpus/corpus.go) and the reader of
    [Summarize] and [printSegment] (unseal.go).

    AES-GCM is the standard library's: the class [AEAD] names its two operations and
    [AEADLaws] their documented behaviour; the nonce read from [crypto/rand], the
    bucket and JSON decoding are parameters. *)

From Stdlib Require Import Ascii.
From S2P Require Import Prelude GoTime GoFloat Decimal Strings Api.
Local Open Scope Z_scope.

(** ** sealbox.go *)

Definition NonceSize : nat := 12.

Class AEAD (K : Type) : Type := {
  (** [aes.NewCipher] and [cipher.NewGCM] *)
  new_cipher : K -> option error;
  new_gcm : K -> option error;
  gcm_Seal : K -> string -> string -> string;
  gcm_Open : K -> string -> string -> result string
}.

Class AEADLaws (K : Type) `{AEAD K} : Prop := {
  open_seal : forall k nonce plain, gcm_Open k nonce (gcm_Seal k nonce plain) = inl plain
}.

Section sealbox.
Context {K : Type} `{AEAD K}.

Definition newGCM (k : K) : option error :=
  match new_cipher k with
  | Some err => Some (errorf_w "sealbox: new cipher: " err)
  | None => match new_gcm k with Some err => Some (errorf_w "sealbox: new gcm: " err) | None => None end
  end.

(** [rnd] is what [rand.Read] gives for a nonce *)
Definition Key_Seal (k : K) (rnd : result string) (plaintext : string) : result string :=
  match newGCM k with
  | Some err => inr err
  | None =>
      match rnd with
      | inr err => inr (errorf_w "sealbox: seal: " err)
      | inl nonce => inl (nonce +:+ gcm_Seal k nonce plaintext)
      end
  end.

Definition Key_Open (k : K) (sealed : string) : result string :=
  match newGCM k with
  | Some err => inr err
  | None =>
      if (String.length sealed <? NonceSize)%nat then inr (errors_New "sealbox: open: sealed input shorter than a nonce")
      else
        let nonce := String.substring 0 NonceSize sealed in
        let ciphertext := String.substring NonceSize (String.length sealed - NonceSize) sealed in
        match gcm_Open k nonce ciphertext with
        | inr err => inr (errorf_w "sealbox: open: " err)
        | inl plaintext => inl plaintext
        end
  end.

(** ** objectstore.go *)

(** [EncryptingSink.Put] over the sink [Inner] *)
Definition EncryptingSink_Put {W} (k : K) (Inner : string -> string -> W -> W * option error) (key : string)
  (r : result string) (rnd : result string) (w : W) : W * option error :=
  match r with
  | inr err => (w, Some (errorf_w ("encrypting sink: read " +:+ key +:+ ": ") err))
  | inl b =>
      match Key_Seal k rnd b with
      | inr err => (w, Some (errorf_w ("encrypting sink: seal " +:+ key +:+ ": ") err))
      | inl sealed => Inner key sealed w
      end
  end.

Definition nonempty (line : string) : bool := negb (line =s "").

Definition UnsealSegment (k : K) (r : result string) : result (list string) :=
  match r with
  | inr err => inr (errorf_w "unseal segment: read: " err)
  | inl sealed =>
      match Key_Open k sealed with
      | inr err => inr (errorf_w "unseal segment: open (wrong seal key, or not a sealed segment): " err)
      | inl plain => inl (List.filter nonempty (bytes_Split (strings_TrimSuffix plain newline) newline))
      end
  end.

(** ** corpus.go *)

(** [GetObject] and [ReadAll] of its body *)
Record Bucket : Type := mkBucket {
  Bucket_Get : string -> option error;
  Bucket_Body : string -> result string
}.

Definition getSegment (k : K) (b : Bucket) (objKey : string) : result (list string) :=
  match Bucket_Get b objKey with
  | Some err => inr (errorf_w ("corpus: get " +:+ objKey +:+ ": ") err)
  | None =>
      match UnsealSegment k (Bucket_Body b objKey) with
      | inr err => inr (errorf_w ("corpus: unseal " +:+ objKey +:+ ": ") err)
      | inl lines => inl lines
      end
  end.

(** the segment keys and lines so far, and the counts of objects and failures *)
Record WalkState : Type := mkWalkState {
  Walk_keys : list string;
  Walk_lines : list string;
  Walk_total : Z;
  Walk_failed : Z
}.

Definition walk_object (k : K) (b : Bucket) (w : WalkState) (objKey : string) : WalkState :=
  match getSegment k b objKey with
  | inr _ => mkWalkState (Walk_keys w) (Walk_lines w) (Walk_total w + 1) (Walk_failed w + 1)
  | inl segLines => mkWalkState (Walk_keys w ++ [objKey]) (Walk_lines w ++ segLines) (Walk_total w + 1) (Walk_failed w)
  end.

(** the pages the paginator returns, in order; one that fails ends the walk *)
Fixpoint walk_pages (k : K) (b : Bucket) (prefix : string) (pages : list (result (list string))) (w : WalkState) : result WalkState :=
  match pages with
  | [] => inl w
  | inr err :: _ => inr (errorf_w ("corpus: list " +:+ prefix +:+ ": ") err)
  | inl contents :: rest => walk_pages k b prefix rest (fold_left (walk_object k b) contents w)
  end.

Definition Walk (k : K) (b : Bucket) (prefix : string) (pages : list (result (list string))) : result (list string * list string) :=
  match walk_pages k b prefix pages (mkWalkState [] [] 0 0) with
  | inr err => inr err
  | inl w =>
      if (0 <? Walk_total w) && (Walk_failed w =? Walk_total w)
      then inr (errors_New ("corpus: every segment under " +:+ prefix +:+ " failed to read (" +:+ fmt_d (Walk_total w) +:+ " segments)"))
      else inl (Walk_keys w, Walk_lines w)
  end.

(** ** unseal.go *)

Definition candidate_line (set : ProposalSet) (c : Candidate) : string :=
  "  " +:+ (if Candidate_ID c =s Set_Recommended set then "*" else " ") +:+ " rank=" +:+ fmt_d (Candidate_Rank c) +:+ " "
  +:+ Candidate_ContractRef c +:+ " confidence=" +:+ fmt_f 3 (Candidate_Confidence c) +:+ " blast=" +:+ Candidate_BlastTier c
  +:+ " citations=" +:+ fmt_d (Z.of_nat (length (Candidate_Citations c))) +:+ newline.

Definition causal_line (cs : CausalScore) : string :=
  "     " +:+ CausalScore_EventID cs +:+ " inTopology=" +:+ fmt_t (CausalScore_InTopology cs) +:+ " likelihood=" +:+ fmt_f 3 (CausalScore_Likelihood cs)
  +:+ " temporal=" +:+ fmt_f 3 (CausalScore_Temporal cs) +:+ " topological=" +:+ fmt_f 3 (CausalScore_Topological cs)
  +:+ " historical=" +:+ fmt_f 3 (CausalScore_Historical cs) +:+ newline.

(** [decode] is [json.Unmarshal] into a [proposal.Set] *)
Definition Summarize (decode : string -> result ProposalSet) (line : string) : string :=
  match decode line with
  | inr _ => line +:+ newline
  | inl set =>
      if Set_SignalRef set =s "" then line +:+ newline
      else
        newline +:+ "-- " +:+ Set_SignalRef set +:+ "  class=" +:+ Set_FailureClass set +:+ " tier=" +:+ Set_ServiceTier set +:+ newline
        +:+ (match Set_Gate set with
             | Some g => "   gate: passed=" +:+ fmt_t (GateResult_Passed g) +:+ " reason=" +:+ fmt_q (GateResult_Reason g) +:+ newline
             | None => ""
             end)
        +:+ (match Set_Status set with
             | Some s => "   status: " +:+ Status_Phase s +:+ " " +:+ Status_Reason s +:+ newline
             | None => ""
             end)
        +:+ strings_Join (map (candidate_line set) (Set_Proposals set)) ""
        +:+ "   causal: " +:+ fmt_d (Z.of_nat (length (Set_CausalScores set))) +:+ " scores" +:+ newline
        +:+ strings_Join (map causal_line (Set_CausalScores set)) ""
  end.

(** [printSegment]: what it prints, or its error; [f] is the opened file *)
Definition printSegment (k : K) (decode : string -> result ProposalSet) (path : string) (f : result (result string)) (raw : bool) : result string :=
  match f with
  | inr err => inr (errorf_w "open segment: " err)
  | inl r =>
      match UnsealSegment k r with
      | inr err => inr (errorf_w (path +:+ ": ") err)
      | inl lines =>
          inl ("== " +:+ path +:+ " (" +:+ fmt_d (Z.of_nat (length lines)) +:+ " objects)" +:+ newline
               +:+ strings_Join (map (fun line => if raw then line +:+ newline else Summarize decode line) lines) "")
      end
  end.

End sealbox.

(** [DecodeEach] *)
Fixpoint DecodeEach {T} (decode : string -> result T) (lines : list string) : result (list T) :=
  match lines with
  | [] => inl []
  | line :: rest =>
      match decode line with
      | inr err => inr (errorf_w "corpus: decode: " err)
      | inl v => match DecodeEach decode rest with
                 | inr err => inr err
                 | inl vs => inl (v :: vs)
                 end
      end
  end.

(** ** Specifications *)

(** the content of a segment that holds [ls]: each line ended by a newline *)
Fixpoint segment_of (ls : list string) : string :=
  match ls with [] => "" | l :: ls' => l +:+ newline +:+ segment_of ls' end.

(** a line the WAL writes: not empty, without a newline *)
Definition journal_line (l : string) : Prop := l <> ""%string /\ no_char "010" l = true.

(** ** Lemmas *)

Lemma segment_last (ls : list string) (l : string) :
  segment_of (ls ++ [l]) = segment_of ls +:+ l +:+ newline.
Proof.
  induction ls as [| l' ls IH]; [done |]. cbn [app segment_of]. rewrite IH, !string_app_assoc. done.
Qed.

Lemma split_lines (ls : list string) (l : string) :
  Forall journal_line ls -> journal_line l -> bytes_Split (segment_of ls +:+ l) newline = ls ++ [l].
Proof.
  unfold bytes_Split, newline. intros Hls [_ Hl]. induction ls as [| l' ls IH].
  - change (segment_of [] +:+ l) with l. rewrite split_seq_end by done. cbn [reverse rev_append app].
    by rewrite String.string_of_list_ascii_of_string.
  - apply Forall_cons_iff in Hls as [[_ Hl'] Hls]. cbn [segment_of]. rewrite !string_app_assoc.
    change (newline +:+ (segment_of ls +:+ l)) with (String "010" (segment_of ls +:+ l)). rewrite split_seq_char by done. cbn [reverse rev_append app].
    by rewrite String.string_of_list_ascii_of_string, (IH Hls).
Qed.

Lemma trim_segment (ls : list string) (l : string) :
  strings_TrimSuffix (segment_of (ls ++ [l])) newline = segment_of ls +:+ l.
Proof. rewrite segment_last, <- string_app_assoc. unfold strings_TrimSuffix. by rewrite strings_CutSuffix_app. Qed.

Lemma filter_journal (ls : list string) : Forall journal_line ls -> List.filter nonempty ls = ls.
Proof.
  induction 1 as [| l ls [Hl _] _ IH]; [done |]. cbn. unfold nonempty at 1. destruct (String.eqb_spec l ""); [done |]. cbn. by rewrite IH.
Qed.

Section seal_lemmas.
Context {K : Type} `{AEADLaws K}.

Lemma Open_Seal (k : K) nonce plain sealed :
  String.length nonce = NonceSize -> Key_Seal k (inl nonce) plain = inl sealed -> Key_Open k sealed = inl plain.
Proof.
  intros Hn. unfold Key_Seal, Key_Open. destruct (newGCM k); [done |]. intros [= <-].
  rewrite string_length_app, Hn. replace (NonceSize + _ <? NonceSize)%nat with false by (symmetry; apply Nat.ltb_ge; lia).
  rewrite <- Hn, substring_app_l.
  replace (String.length nonce + String.length (gcm_Seal k nonce plain) - String.length nonce)%nat with (String.length (gcm_Seal k nonce plain)) by lia.
  by rewrite substring_app_r, open_seal.
Qed.

Lemma UnsealSegment_of (k : K) nonce ls sealed :
  String.length nonce = NonceSize -> Forall journal_line ls -> Key_Seal k (inl nonce) (segment_of ls) = inl sealed ->
  UnsealSegment k (inl sealed) = inl ls.
Proof.
  intros Hn Hls Hs. unfold UnsealSegment. rewrite (Open_Seal k nonce _ sealed Hn Hs). f_equal.
  destruct ls as [| l ls] using rev_ind; [done |]. apply Forall_app in Hls as [Hls Hl]. apply Forall_cons_iff in Hl as [Hl _].
  rewrite trim_segment, split_lines by done. apply filter_journal. apply Forall_app. split; [done |]. constructor; [exact Hl | constructor].
Qed.

End seal_lemmas.

(** ** Claims *)

(** what [EncryptingSink] handed to the bucket for a segment of the journal lines [ls], under
    the full-size [nonce], is what the bucket answers at [key] *)
Definition shipped_at {K} `{AEAD K} (k : K) (b : Bucket) (key nonce : string) (ls : list string) : Prop :=
  String.length nonce = NonceSize /\ Forall journal_line ls /\ Bucket_Get b key = None /\
  exists sealed, EncryptingSink_Put k (fun _ s w => (w ++ [s], None)) key (inl (segment_of ls)) (inl nonce) [] = ([sealed], None) /\
    Bucket_Body b key = inl sealed.

(** the segments among a bucket's objects: those that read back, with their lines *)
Definition segments_of (objs : list (string * option (string * list string))) : list (string * list string) :=
  omap (fun o => match o.2 with Some (_, ls) => Some (o.1, ls) | None => None end) objs.

Section walk_lemmas.
Context {K : Type} `{AEADLaws K} (k : K) (b : Bucket) (prefix : string).

Lemma getSegment_shipped key nonce ls : shipped_at k b key nonce ls -> getSegment k b key = inl ls.
Proof.
  intros (Hn & Hls & Hg & sealed & Hput & Hbody). unfold getSegment. rewrite Hg, Hbody. unfold EncryptingSink_Put in Hput.
  destruct (Key_Seal k (inl nonce) (segment_of ls)) as [sl |] eqn:Es; [| done]. cbn in Hput. injection Hput as ->.
  by rewrite (UnsealSegment_of k nonce ls sealed Hn Hls Es).
Qed.

Lemma walk_pages_fold pages rest w :
  walk_pages k b prefix (map inl pages ++ rest) w = walk_pages k b prefix rest (fold_left (walk_object k b) (concat pages) w).
Proof. revert w. induction pages as [| page pages IH]; intros w; [done |]. cbn. by rewrite IH, fold_left_app. Qed.

Lemma walk_objects objs w :
  (forall key nonce ls, (key, Some (nonce, ls)) ∈ objs -> shipped_at k b key nonce ls) ->
  (forall key, (key, None) ∈ objs -> exists err, getSegment k b key = inr err) ->
  fold_left (walk_object k b) (map fst objs) w =
    mkWalkState (Walk_keys w ++ map fst (segments_of objs)) (Walk_lines w ++ flat_map snd (segments_of objs))
      (Walk_total w + Z.of_nat (length objs)) (Walk_failed w + (Z.of_nat (length objs) - Z.of_nat (length (segments_of objs)))).
Proof.
  revert w. induction objs as [| [key o] objs IH]; intros w Hs Hu; [cbn; rewrite !app_nil_r, !Z.add_0_r; by destruct w |].
  cbn [map fold_left fst]. rewrite IH by (intros; first [eapply Hs | eapply Hu]; by right). unfold walk_object.
  destruct o as [[nonce ls] |].
  - rewrite (getSegment_shipped key nonce ls) by (apply Hs; left). unfold segments_of.
    cbn [omap list_omap fst snd map flat_map Walk_keys Walk_lines Walk_total Walk_failed length]. rewrite <- !app_assoc. cbn [app]. f_equal; lia.
  - destruct (Hu key ltac:(left)) as [err ->]. unfold segments_of.
    cbn [omap list_omap fst snd Walk_keys Walk_lines Walk_total Walk_failed length]. f_equal; lia.
Qed.

End walk_lemmas.

(** C29. Shipped segments read back: what [EncryptingSink] hands to the bucket for a segment
    of journal lines, under a full-size nonce, is unsealed with the same key into exactly
    those lines, in order. So a walk over a bucket, however its listing is cut into pages,
    returns the key and the lines of every such segment, in listing order; objects that cannot
    be fetched or unsealed are left out, and only a bucket where every object is one is an
    error; and a page that cannot be listed is an error whatever was read before it. *)
Theorem sealed_segments_read_back {K} `{AEADLaws K} (k : K) (b : Bucket) (prefix : string)
  (objs : list (string * option (string * list string))) (pages : list (list string)) :
  (forall key nonce ls, (key, Some (nonce, ls)) ∈ objs -> shipped_at k b key nonce ls) ->
  (forall key, (key, None) ∈ objs -> exists err, getSegment k b key = inr err) ->
  concat pages = map fst objs ->
  (if bool_decide (objs <> [] /\ segments_of objs = []) then exists err, Walk k b prefix (map inl pages) = inr err
   else Walk k b prefix (map inl pages) = inl (map fst (segments_of objs), flat_map snd (segments_of objs))) /\
  (forall err rest, Walk k b prefix (map inl pages ++ inr err :: rest) = inr (errorf_w ("corpus: list " +:+ prefix +:+ ": ") err)).
Proof.
  intros Hs Hu Hp. unfold Walk. split; [| intros err rest; by rewrite walk_pages_fold].
  rewrite <- (app_nil_r (map inl pages)), walk_pages_fold, Hp, (walk_objects k b objs) by done. cbn [walk_pages Walk_total Walk_failed Walk_keys Walk_lines app].
  assert (length (segments_of objs) <= length objs)%nat as Hle by (clear; unfold segments_of; induction objs as [| [key [[nonce ls] |]] objs IH]; cbn; lia).
  case_bool_decide as Hd.
  - destruct Hd as [Hne ->]. destruct objs; [done |]. rewrite (proj2 (andb_true_iff _ _)); [eauto |]. cbn [length]. split; [apply Z.ltb_lt | apply Z.eqb_eq]; lia.
  - replace (_ && _) with false; [done |]. symmetry. apply andb_false_iff.
    destruct objs as [| o objs]; [by left | right]. destruct (segments_of (o :: objs)) eqn:E; [by destruct Hd |]. apply Z.eqb_neq. cbn [length]. lia.
Qed.

(** the identity cipher under the empty key, for the witness *)
#[local] Instance demo_AEAD : AEAD unit := {|
  new_cipher := fun _ => None; new_gcm := fun _ => None; gcm_Seal := fun _ _ p => p; gcm_Open := fun _ _ c => inl c |}.
#[local] Instance demo_AEADLaws : AEADLaws unit.
Proof. by split. Qed.

Definition demo_bucket : Bucket :=
  mkBucket (fun key => if key =s "clank/b" then Some (errors_New "no such key") else None) (fun key => inl ("0123456789ab" +:+ segment_of ["{1}"; "{2}"])%string).

Lemma sealed_segments_read_back_witness :
  Walk tt demo_bucket "clank/" [inl ["clank/a"; "clank/b"]; inl ["clank/c"]] = inl (["clank/a"; "clank/c"], ["{1}"; "{2}"; "{1}"; "{2}"])%string.
Proof.
  apply (sealed_segments_read_back tt demo_bucket "clank/"
    [("clank/a", Some ("0123456789ab", ["{1}"; "{2}"])); ("clank/b", None); ("clank/c", Some ("0123456789ab", ["{1}"; "{2}"]))]%string
    [["clank/a"; "clank/b"]; ["clank/c"]]%string); [| | reflexivity].
  - intros key nonce ls Hin.
    repeat (apply elem_of_cons in Hin as [E | Hin]; [first [discriminate E | injection E as -> -> ->; split; [reflexivity |]; split; [repeat constructor; discriminate |];
      split; [reflexivity |]; eexists; split; reflexivity] |]). by apply not_elem_of_nil in Hin.
  - intros key Hin. repeat (apply elem_of_cons in Hin as [E | Hin]; [first [discriminate E | injection E as ->; eexists; reflexivity] |]). by apply not_elem_of_nil in Hin.
Defined.
