(* ===== verification/Poll.v ===== *)
(** * internal/poll: the offline loop

    [pollFixed], [pollBackoff] and [nextDelay] (poll.go) as folds over what the
    [select] of the loop receives: the timer, after which the tick runs and
    returns, or the end of the context.  Durations are [int64] nanoseconds and
    wrap; the draw of [rand.N] is an input. *)

From S2P Require Import Prelude GoTime.
Local Open Scope Z_scope.

Record BackoffConfig : Type := mkBackoffConfig {
  Backoff_Base : Duration;
  Backoff_Cap : Duration;
  Backoff_JitterDivisor : Z
}.

Record PollConfig : Type := mkPollConfig {
  Config_Interval : Duration;
  Config_Backoff : option BackoffConfig;
  Config_Timeout : Duration
}.

Definition DefaultConfig : PollConfig := mkPollConfig (5 * Second) None (20 * Second).

Definition nextDelay (cfg : BackoffConfig) (cur : Duration) (tickOK : bool) : Duration :=
  if tickOK then Backoff_Base cfg else Z.min (wrap64 (cur * 2)) (Backoff_Cap cfg).

(** [rand.N(n)] for the draw [r]: a number below [n], or a panic *)
Definition rand_N (n r : Z) : option Z := if n <=? 0 then None else Some (r mod n).

(** what the loop's [select] receives; [err] is what the tick then returns and [r]
    the draw it makes if it needs one *)
Inductive event : Type :=
| TimerFired (err : option error) (r : Z)
| CtxDone.

Inductive status : Type :=
| Waiting (delay : Duration)
| ShutDown
| Panicked.

(** one turn of the loop of [pollBackoff] *)
Definition backoff_turn (cfg : BackoffConfig) (delay : Duration) (ev : event) : status :=
  match ev with
  | CtxDone => ShutDown
  | TimerFired err r =>
      let failed := match err with Some _ => true | None => false end in
      let delay := nextDelay cfg delay (negb failed) in
      if failed && (0 <? Backoff_JitterDivisor cfg) then
        match rand_N (Z.quot delay (Backoff_JitterDivisor cfg)) r with
        | Some jitter => Waiting (wrap64 (delay + jitter))
        | None => Panicked
        end
      else Waiting delay
  end.

Definition turn_of (cfg : BackoffConfig) (st : status) (ev : event) : status :=
  match st with Waiting delay => backoff_turn cfg delay ev | _ => st end.

Definition pollBackoff (cfg : BackoffConfig) (evs : list event) : status :=
  fold_left (turn_of cfg) evs (Waiting (Backoff_Base cfg)).

(** the ticks of [pollFixed]: a failed one is only logged *)
Definition pollFixed (interval : Duration) (evs : list event) : status :=
  fold_left (fun st ev => match st, ev with
                          | Waiting _, CtxDone => ShutDown
                          | _, _ => st
                          end) evs (Waiting interval).

Definition Loop (cfg : PollConfig) (evs : list event) : status :=
  match Config_Backoff cfg with
  | None => pollFixed (Config_Interval cfg) evs
  | Some b => pollBackoff b evs
  end.

(** clank's offline loop *)
Definition clank_backoff : BackoffConfig := mkBackoffConfig (5 * Second) (5 * Minute) 4.

(** ** Specifications *)

(** a schedule whose arithmetic stays in range and whose jitter is never empty *)
Record sane (cfg : BackoffConfig) : Prop := {
  sane_divisor : 0 < Backoff_JitterDivisor cfg <= Backoff_Base cfg;
  sane_cap : Backoff_Base cfg <= Backoff_Cap cfg;
  sane_range : 4 * Backoff_Cap cfg <= int64_max
}.

(** the failed ticks since the last one that succeeded *)
Definition streak (evs : list event) : nat :=
  fold_left (fun n ev => match ev with TimerFired (Some _) _ => S n | _ => O end) evs O.

Definition stopped (evs : list event) : bool :=
  existsb (fun ev => match ev with CtxDone => true | _ => false end) evs.

(** ** Lemmas *)

Lemma fold_left_snoc {A B} (f : A -> B -> A) l x a : fold_left f (l ++ [x]) a = f (fold_left f l a) x.
Proof. by rewrite fold_left_app. Qed.

Lemma failed_turn cfg d e r n :
  sane cfg -> Z.min (Backoff_Base cfg * 2 ^ n) (Backoff_Cap cfg) <= d <= Backoff_Cap cfg + Z.quot (Backoff_Cap cfg) (Backoff_JitterDivisor cfg) ->
  0 <= n ->
  exists d', backoff_turn cfg d (TimerFired (Some e) r) = Waiting d' /\
    Z.min (Backoff_Base cfg * 2 ^ (n + 1)) (Backoff_Cap cfg) <= d' <= Backoff_Cap cfg + Z.quot (Backoff_Cap cfg) (Backoff_JitterDivisor cfg).
Proof.
  intros [[HJ HJB] HC HR] Hd Hn. destruct cfg as [base cap j]. cbn [Backoff_Base Backoff_Cap Backoff_JitterDivisor] in *.
  rewrite Z.quot_div_nonneg in * by lia.
  assert (0 <= cap / j <= cap) as Hq by (split; [apply Z.div_pos; lia | apply Z.div_le_upper_bound; nia]).
  assert (2 ^ (n + 1) = 2 * 2 ^ n) as Hpow by (rewrite Z.pow_add_r by lia; lia).
  assert (1 <= 2 ^ n) as Hp1 by (pose proof (Z.pow_pos_nonneg 2 n); lia).
  assert (base <= base * 2 ^ n) as Hbn by nia.
  unfold backoff_turn, nextDelay. cbn [negb Backoff_Base Backoff_Cap Backoff_JitterDivisor].
  unfold int64_max in *. rewrite (wrap64_id (d * 2)) by (unfold int64_min, int64_max; lia).
  set (d1 := Z.min (d * 2) cap).
  assert (Z.min (base * 2 ^ (n + 1)) cap <= d1 <= cap) as Hd1 by (unfold d1; rewrite Hpow; replace (base * (2 * 2 ^ n)) with (2 * (base * 2 ^ n)) by lia; lia).
  assert (base <= d1) as Hb by (unfold d1; lia).
  assert (1 <= d1 / j <= cap / j) as Hj by (split; [apply Z.div_le_lower_bound; lia | apply Z.div_le_mono; lia]).
  replace (true && (0 <? j)) with true by lia. rewrite Z.quot_div_nonneg by lia. unfold rand_N.
  replace (d1 / j <=? 0) with false by lia.
  pose proof (Z.mod_pos_bound r (d1 / j) ltac:(lia)). rewrite wrap64_id by (unfold int64_min, int64_max; lia).
  eexists. split; [done |]. lia.
Qed.

(** ** Claims *)

(** The backoff of a failing loop is bounded on both sides: unless the context
    ended, the loop is waiting (it never panics), exactly [Base] when the last tick
    succeeded, and after [k] failures in a row at least the doubled-and-capped
    [min (Base * 2^k) Cap] and at most [Cap] plus its jitter share. *)
Theorem backoff_is_bounded (cfg : BackoffConfig) (evs : list event) :
  sane cfg ->
  (stopped evs = true -> pollBackoff cfg evs = ShutDown) /\
  (stopped evs = false ->
   exists d, pollBackoff cfg evs = Waiting d /\
     Z.min (Backoff_Base cfg * 2 ^ Z.of_nat (streak evs)) (Backoff_Cap cfg) <= d
       <= Backoff_Cap cfg + Z.quot (Backoff_Cap cfg) (Backoff_JitterDivisor cfg) /\
     (streak evs = O -> d = Backoff_Base cfg)).
Proof.
  intros Hs. pose proof Hs as [[HJ HJB] HC HR].
  assert (0 <= Z.quot (Backoff_Cap cfg) (Backoff_JitterDivisor cfg)) as Hq by (apply Z.quot_pos; lia).
  induction evs as [| ev evs IH] using rev_ind.
  { split; [done |]. intros _. eexists. split; [done |]. cbn. split; [lia | done]. }
  unfold pollBackoff, streak, stopped in *. rewrite !fold_left_snoc, existsb_app. destruct IH as [IHs IHw].
  destruct (existsb _ evs) eqn:Es.
  { rewrite (IHs eq_refl). by split. }
  destruct (IHw eq_refl) as (d & -> & Hd & _). cbn [turn_of orb existsb].
  destruct ev as [[e |] r |]; [| | by split].
  - split; [done |]. intros _. destruct (failed_turn cfg d e r _ Hs Hd ltac:(lia)) as (d' & -> & Hd').
    eexists. split; [done |]. rewrite Nat2Z.inj_succ. unfold Z.succ. split; [exact Hd' | done].
  - split; [done |]. intros _. eexists. split; [done |]. cbn. split; [lia | done].
Qed.

Lemma clank_backoff_sane : sane clank_backoff.
Proof. split; vm_compute; repeat split; done. Qed.

Lemma backoff_is_bounded_witness :
  let evs := [TimerFired (Some (errors_New "tick")) 7; TimerFired (Some (errors_New "tick")) 9] in
  exists d, pollBackoff clank_backoff evs = Waiting d /\ 20 * Second <= d <= 375 * Second.
Proof.
  destruct (proj2 (backoff_is_bounded clank_backoff
    [TimerFired (Some (errors_New "tick")) 7; TimerFired (Some (errors_New "tick")) 9] clank_backoff_sane) eq_refl)
    as (d & E & Hd & _).
  exists d. split; [exact E | exact Hd].
Defined.

(** the jitter is a share of the grown delay added after the cap, so a wait can
    exceed the cap *)
Example wait_above_cap :
  backoff_turn clank_backoff (5 * Minute) (TimerFired (Some (errors_New "tick")) (74 * Second)) = Waiting (374 * Second).
Proof. reflexivity. Qed.

(** a delay smaller than the divisor leaves [rand.N] nothing to draw from *)
Example small_base_panics :
  pollBackoff (mkBackoffConfig 1 Second 4) [TimerFired (Some (errors_New "tick")) 0] = Panicked.
Proof. reflexivity. Qed.
