(* ===== verification/Converge.v ===== *)
(** * internal/converge: did the action work?

    [InstantQuery] (httpx/instantquery.go), [parseTarget] (target.go), [Prober]
    (prober.go) and [LoadQueries] (queries.go).  The HTTP client is a parameter
    that reads the world [C]; a JSON value is represented by what decoding makes of
    it.  [Prober] is a [ConvergenceProbe], so it plugs into thump's [Watch]. *)

From Stdlib Require Import Ascii.
From S2P Require Import Prelude GoTime GoFloat Decimal GoParse Api Contract Publish Ledger ThumpExec.
Local Open Scope Z_scope.

(** ** encoding/json on the values of a sample *)

Inductive json : Type :=
| JMissing
| JNull
| JStr (s : string)
| JNum (lit : string)
| JOther.

(** [json.Unmarshal(raw, &s)] for a string that was empty *)
Definition Unmarshal_string (j : json) : option string :=
  match j with JStr s => Some s | JNull => Some ""%string | _ => None end.

(** [json.Unmarshal(raw, &f)] for a float that was zero *)
Definition Unmarshal_float (j : json) : option float64 :=
  match j with
  | JNum lit => match ParseFloat lit with inl f => Some f | inr _ => None end
  | JNull => Some f0
  | _ => None
  end.

(** ** httpx/instantquery.go *)

Record Sample : Type := mkSample {
  Sample_Metric : gmap string string;
  Sample_Value : json * json
}.

Abbreviation InstantResult := (list Sample) (only parsing).

Record Response : Type := mkResponse {
  Resp_StatusCode : Z;
  Resp_Status : string;
  (** what [json.NewDecoder(resp.Body).Decode] makes of the body *)
  Resp_Body : result InstantResult
}.

(** [url.Parse] and [http.NewRequestWithContext] of the base URL, and [client.Do] *)
Record Client (C : Type) : Type := mkClient {
  Client_Build : string -> option error;
  Client_Do : string -> string -> C -> result Response
}.
Arguments mkClient {C}.
Arguments Client_Build {C}.
Arguments Client_Do {C}.

Definition ErrBuildInstantQuery : error := errors_New "build instant query request".
Definition ErrDecodeInstantResult : error := errors_New "decode instant query result".

Definition StatusError (status : string) : error := errors_New ("instant query: status " +:+ status).

Definition StatusOK : Z := 200.

Definition InstantQuery {C} (client : Client C) (baseURL query : string) (c : C) : result InstantResult :=
  let u := baseURL +:+ "/api/v1/query" in
  match Client_Build client u with
  | Some err => inr (errorf_ww ErrBuildInstantQuery err)
  | None =>
      match Client_Do client u query c with
      | inr err => inr err
      | inl resp =>
          if negb (Resp_StatusCode resp =? StatusOK) then inr (StatusError (Resp_Status resp))
          else match Resp_Body resp with
               | inr err => inr (errorf_ww ErrDecodeInstantResult err)
               | inl result => inl result
               end
      end
  end.

(** ** target.go *)

(** the class [\s] of RE2 *)
Definition re_space (c : ascii) : bool :=
  existsb (Ascii.eqb c) [" "%char; "009"%char; "010"%char; "012"%char; "013"%char].

(** the class [[\d.]] *)
Definition re_number (c : ascii) : bool :=
  Ascii.eqb c "." || match digit c with Some _ => true | None => false end.

Fixpoint span (p : ascii -> bool) (s : string) : string * string :=
  match s with
  | String c s' => if p c then let '(a, b) := span p s' in (String c a, b) else (""%string, s)
  | EmptyString => (""%string, s)
  end.

(** [\s*([\d.]+)] at the head of [s] *)
Definition re_operand (s : string) : option string :=
  let num := (span re_number (span re_space s).2).1 in
  if num =s "" then None else Some num.

(** [(<|==)\s*([\d.]+)] at the head of [s] *)
Definition re_here (s : string) : option (string * string) :=
  match s with
  | String c s' =>
      if Ascii.eqb c "<" then (fun n => ("<"%string, n)) <$> re_operand s'
      else match s' with
           | String c' s'' =>
               if Ascii.eqb c "=" && Ascii.eqb c' "=" then (fun n => ("=="%string, n)) <$> re_operand s'' else None
           | EmptyString => None
           end
  | EmptyString => None
  end.

(** [comparisonRe.FindStringSubmatch]: the leftmost match *)
Fixpoint comparisonRe (s : string) : option (string * string) :=
  match re_here s with
  | Some m => Some m
  | None => match s with String _ s' => comparisonRe s' | EmptyString => None end
  end.

Definition parseTarget (target : string) : result (string * float64) :=
  if target =s "HEALTH_OK" then inl ("=="%string, f0)
  else match comparisonRe target with
       | None => inr (errors_New ("converge: cannot parse target " +:+ fmt_q target))
       | Some (op, num) =>
           match ParseFloat num with
           | inr err => inr (errorf_w ("converge: cannot parse target " +:+ fmt_q target +:+ ": ") err)
           | inl f => inl (op, f)
           end
       end.

(** ** prober.go *)

Record Prober (C : Type) : Type := mkProber {
  Prober_BaseURL : string;
  Prober_Client : Client C;
  Prober_Queries : gmap string string
}.
Arguments mkProber {C}.
Arguments Prober_BaseURL {C}.
Arguments Prober_Client {C}.
Arguments Prober_Queries {C}.

Definition compare (op : string) (value threshold : float64) : bool :=
  if op =s "<" then flt value threshold
  else if op =s "==" then feq value threshold
  else false.

Section prober.
Context {C : Type} (p : Prober C).

(** [Prober.query]: [None] is [(0, false)] *)
Definition query (q : string) (c : C) : option float64 :=
  match InstantQuery (Prober_Client p) (Prober_BaseURL p) q c with
  | inr _ => None
  | inl [] => None
  | inl (s :: _) =>
      match Unmarshal_string (snd (Sample_Value s)) with
      | None => None
      | Some v =>
          match ParseFloat v with
          | inr _ => None
          | inl f => if is_nan f || is_inf f then None else Some f
          end
      end
  end.

Definition Converged (metric target : string) (c : C) : bool :=
  match parseTarget target with
  | inr _ => false
  | inl (op, threshold) =>
      match Prober_Queries p !! metric with
      | None => false
      | Some q =>
          match query q c with
          | None => false
          | Some value => compare op value threshold
          end
      end
  end.

Definition Severity (q : string) (c : C) : option float64 :=
  match Prober_Queries p !! q with
  | None => None
  | Some promql => query promql c
  end.

Definition probe_of : ConvergenceProbe C := mkConvergenceProbe Converged Severity.

End prober.

(** ** queries.go *)

Definition LoadQueries (path : string) (ReadFile : string -> result string)
  (Unmarshal : string -> result (list (string * string))) : result (gmap string string) :=
  match ReadFile path with
  | inr err => inr (errorf_w ("converge: read queries file " +:+ path +:+ ": ") err)
  | inl raw =>
      match Unmarshal raw with
      | inr err => inr (errorf_w "converge: parse queries: " err)
      | inl qs => inl (fold_left (fun out q => <[q.1 := q.2]> out) qs ∅)
      end
  end.

(** ** Specifications *)

(** the backend answered the query with a finite number *)
Definition Measured {C} (p : Prober C) (q : string) (c : C) (value : float64) : Prop :=
  exists resp s rest v,
    Client_Build (Prober_Client p) (Prober_BaseURL p +:+ "/api/v1/query") = None /\
    Client_Do (Prober_Client p) (Prober_BaseURL p +:+ "/api/v1/query") q c = inl resp /\
    Resp_StatusCode resp = 200 /\ Resp_Body resp = inl (s :: rest) /\
    Unmarshal_string (snd (Sample_Value s)) = Some v /\ ParseFloat v = inl value /\
    is_nan value = false /\ is_inf value = false.

(** the metric was measured and its value meets the target *)
Definition Meets {C} (p : Prober C) (metric target : string) (c : C) : Prop :=
  exists op threshold q value,
    parseTarget target = inl (op, threshold) /\ Prober_Queries p !! metric = Some q /\ Measured p q c value /\
    ((op = "<"%string /\ flt value threshold = true) \/ (op = "=="%string /\ feq value threshold = true)).

Fixpoint all_chars (p : ascii -> bool) (s : string) : bool :=
  match s with EmptyString => true | String c s' => p c && all_chars p s' end.

(** no comparison starts in [s] *)
Fixpoint quiet_prefix (s : string) : bool :=
  match s with
  | EmptyString => true
  | String c s' => negb (Ascii.eqb c "<") && negb (Ascii.eqb c "=") && quiet_prefix s'
  end.

Definition head_is (p : ascii -> bool) (s : string) : bool :=
  match s with String c _ => p c | EmptyString => false end.

(** ** Lemmas *)

Lemma query_measured {C} (p : Prober C) q c value : query p q c = Some value <-> Measured p q c value.
Proof.
  unfold query, InstantQuery, Measured, StatusOK. split.
  - intros E. repeat case_match; simplify_eq; cbn in *.
    match goal with H : negb _ = false |- _ => apply negb_false_iff, Z.eqb_eq in H end. match goal with H : (_ || _)%bool = false |- _ => apply orb_false_iff in H as [Hn Hi] end.
    eauto 20.
  - intros (resp & s & rest & v & -> & -> & -> & -> & Ev & Ef & Hn & Hi). cbn [Z.eqb Pos.eqb negb]. by rewrite Ev, Ef, Hn, Hi.
Qed.

Lemma parseTarget_op target op threshold : parseTarget target = inl (op, threshold) -> op = "<"%string \/ op = "=="%string.
Proof.
  unfold parseTarget. destruct (target =s "HEALTH_OK"); [intros; simplify_eq; auto |].
  destruct (comparisonRe target) as [[op' num] |] eqn:E; [| done]. destruct (ParseFloat num); [| done]. intros. simplify_eq.
  revert E. induction target as [| ch target IH]; [done |]. cbn [comparisonRe].
  destruct (re_here (String ch target)) as [m |] eqn:Eh; [| done]. intros. simplify_eq. unfold re_here in Eh.
  repeat case_match; simplify_eq; try done;
    match goal with H : _ <$> _ = Some _ |- _ => apply fmap_Some in H as (? & _ & ?) end; simplify_eq; auto.
Qed.

Lemma Converged_meets {C} (p : Prober C) metric target c : Converged p metric target c = true <-> Meets p metric target c.
Proof.
  unfold Converged, Meets. split.
  - intros E. destruct (parseTarget target) as [[op thr] | ] eqn:Et; [| done].
    destruct (Prober_Queries p !! metric) as [q |]; [| done]. destruct (query p q c) as [v |] eqn:Eq; [| done].
    apply query_measured in Eq. exists op, thr, q, v. split; [done |]. split; [done |]. split; [done |].
    destruct (parseTarget_op _ _ _ Et) as [-> | ->]; auto.
  - intros (op & thr & q & v & -> & -> & Hm & Hc). apply query_measured in Hm. rewrite Hm.
    by destruct Hc as [[-> Hc] | [-> Hc]].
Qed.

Lemma comparisonRe_skip pre s : quiet_prefix pre = true -> comparisonRe (pre +:+ s) = comparisonRe s.
Proof.
  induction pre as [| c pre IH]; [done |]. cbn [quiet_prefix]. rewrite !andb_true_iff, !negb_true_iff. intros [[H1 H2] H3].
  rewrite string_app_cons. cbn [comparisonRe re_here]. rewrite H1, H2. cbn [andb].
  destruct (pre +:+ s) eqn:E; rewrite <- (IH H3), ?E; done.
Qed.

Lemma span_app p a s : all_chars p a = true -> head_is p s = false -> span p (a +:+ s) = (a, s).
Proof.
  intros Ha Hs. induction a as [| c a IH].
  - change ("" +:+ s) with s. by destruct s as [| c s]; [| cbn in *; rewrite Hs].
  - apply andb_true_iff in Ha as [Hc Ha]. rewrite string_app_cons. cbn [span]. by rewrite Hc, (IH Ha).
Qed.

Lemma digits_number s acc v : digits_val acc s = Some v -> all_chars re_number s = true.
Proof.
  revert acc. induction s as [| c s IH]; intros acc Hv; [done |]. cbn [digits_val all_chars] in *. unfold re_number at 1.
  destruct (digit c); [| done]. rewrite (IH _ Hv). by rewrite orb_true_r.
Qed.

Lemma number_not_space c : re_number c = true -> re_space c = false.
Proof. by destruct c as [[] [] [] [] [] [] [] []]; vm_compute. Qed.

Lemma re_operand_reads sp num unit :
  all_chars re_space sp = true -> all_chars re_number num = true -> num <> ""%string -> head_is re_number unit = false ->
  re_operand (sp +:+ num +:+ unit) = Some num.
Proof.
  intros Hsp Hnum Hne Hu. unfold re_operand. rewrite (span_app re_space) by
    (done || (destruct num as [| c num]; [done |]; cbn in *; apply andb_true_iff in Hnum as [Hc _]; by apply number_not_space)).
  cbn [snd]. rewrite (span_app re_number) by done. cbn [fst]. destruct (String.eqb_spec num ""); done.
Qed.

(** ** Claims *)

(** A target as the catalog writes it is read as it is meant: prose without a
    comparison, then [<] or [==], spaces, a natural number and a unit give that
    operator and that number. *)
Theorem authored_targets_are_read (pre op sp num unit : string) (v : Z) :
  quiet_prefix pre = true -> op = "<"%string \/ op = "=="%string -> all_chars re_space sp = true ->
  digits_val 0 num = Some v -> num <> ""%string -> head_is re_number unit = false -> is_inf (of_int v) = false ->
  parseTarget (pre +:+ op +:+ sp +:+ num +:+ unit) = inl (op, of_int v).
Proof.
  intros Hpre Hop Hsp Hv Hne Hu Hf.
  assert (comparisonRe (pre +:+ op +:+ sp +:+ num +:+ unit) = Some (op, num)) as E.
  { rewrite comparisonRe_skip by done. pose proof (re_operand_reads sp num unit Hsp (digits_number _ _ _ Hv) Hne Hu) as Ho.
    set (u := sp +:+ num +:+ unit) in *. destruct Hop as [-> | ->].
    - change ("<" +:+ u) with (String "<" u). cbn [comparisonRe re_here]. by rewrite Ho.
    - change ("==" +:+ u) with (String "=" (String "=" u)). cbn [comparisonRe re_here]. by rewrite Ho. }
  unfold parseTarget. destruct (String.eqb_spec (pre +:+ op +:+ sp +:+ num +:+ unit) "HEALTH_OK") as [Eq | _].
  { rewrite Eq in E. by vm_compute in E. }
  by rewrite E, (ParseFloat_digits num v Hv Hne Hf).
Qed.

Lemma authored_targets_are_read_witness : parseTarget "p99 < 250ms" = inl ("<"%string, of_int 250).
Proof.
  exact (authored_targets_are_read "p99 " "<" " " "250" "ms" 250 eq_refl (or_introl eq_refl) eq_refl eq_refl
           ltac:(discriminate) eq_refl ltac:(vm_compute; reflexivity)).
Defined.

(** C13. An executed action is left standing only on a measurement: when the window
    has elapsed, thump's watch says converged exactly when the backend answered the
    metric's query with a finite number that meets the target; otherwise the undo is
    fired, unless the contract holds on a miss, and the severity it reports is a
    finite measurement too. *)
Theorem actions_stand_on_a_measurement {C} (p : Prober C) (o : Order) (now : Time) (c : C) :
  let s := Watch (PrometheusConverger (probe_of p)) false o now c in
  let met := Meets p (SuccessCriteria_Metric (Order_Success o)) (SuccessCriteria_Target (Order_Success o)) c in
  (Settlement_Converged s = true <-> met) /\
  (Plan_HoldOnMiss (Order_Reversal o) = false -> ~ met ->
     Settlement_Fire s = true /\ Settlement_Undo s = Some (reversalOf o now)) /\
  (Settlement_Fire s = false -> Settlement_Held s = false -> met) /\
  (forall v, Settlement_Severity s = Some v -> exists name q, Prober_Queries p !! name = Some q /\ Measured p q c v).
Proof.
  set (m := SuccessCriteria_Metric (Order_Success o)). set (t := SuccessCriteria_Target (Order_Success o)). intros s met.
  assert (Converged p m t c = true <-> met) as Hmet by apply Converged_meets.
  assert (Converged p m t c = false <-> ~ met) as Hnot by (rewrite <- Hmet; by destruct (Converged p m t c)).
  split; [| split; [| split]].
  - rewrite <- Hmet. unfold s. rewrite (proj1 (Watch_Converged _ o now c)). done.
  - intros Hh Hn%Hnot. unfold s, Watch, PrometheusConverger. cbn [Probe_Converged probe_of]. fold m t.
    by rewrite Hn, Hh.
  - rewrite <- Hmet. unfold s, Watch, PrometheusConverger. cbn [Probe_Converged probe_of]. fold m t.
    destruct (Converged p m t c), (Plan_HoldOnMiss (Order_Reversal o)), (Plan_RestoreOnSuccess (Order_Reversal o)); done.
  - intros v Hv. unfold s in Hv. rewrite (proj2 (Watch_Converged _ o now c)) in Hv. unfold PrometheusConverger in Hv.
    cbn [snd Probe_Severity probe_of] in Hv. case_match; [done |]. rename Hv into Hs.
    set (name := if Order_SLORef o =s "" then _ else _) in Hs.
    unfold Severity in Hs. destruct (Prober_Queries p !! name) as [q |] eqn:Eq; [| done].
    exists name, q. split; [done | by apply query_measured].
Qed.

(** ** Targets that are read as something else *)

(** an exponent is cut off *)
Example exponent_is_cut_off : parseTarget "error ratio < 1e-3" = inl ("<"%string, of_int 1).
Proof. vm_compute. reflexivity. Qed.

(** an inequality is read as an equality *)
Example inequality_is_equality : parseTarget "replicas !== 0" = inl ("=="%string, f0).
Proof. vm_compute. reflexivity. Qed.

(** the unit is dropped: one second and one millisecond are the same threshold *)
Example units_are_dropped : parseTarget "p99 < 1s" = parseTarget "p99 < 1ms".
Proof. reflexivity. Qed.
