(* ===== verification/Subjects.v ===== *)
(** * internal/subjects: from cluster coordinates to a topology node

    [SubjectIndex.For], [SubjectIndex.Selectors], [SubjectRule.matches],
    [constraints] and [labelsCover] (subjects.go).  A Go map is a [gmap]; where the
    code ranges over one, the result does not depend on the order. *)

From stdpp Require Import sorting.
From S2P Require Import Prelude GoTime Decimal.
Local Open Scope Z_scope.

Record Coordinates : Type := mkCoordinates {
  Co_Namespace : string;
  Co_Kind : string;
  Co_Name : string;
  Co_Labels : gmap string string
}.

Record SubjectRule : Type := mkSubjectRule {
  Rule_Subject : string;
  Rule_Plane : string;
  Rule_Coordinates : Coordinates
}.

Abbreviation SubjectIndex := (list SubjectRule) (only parsing).

(** a missing key reads as the empty string *)
Definition label (m : gmap string string) (k : string) : string := default "" (m !! k).

Definition labelsCover (want query : gmap string string) : bool :=
  forallb (fun kv => label query kv.1 =s kv.2) (map_to_list want).

Definition matches (rule : SubjectRule) (c : Coordinates) : bool :=
  let r := Rule_Coordinates rule in
  if negb (Co_Namespace r =s "") && negb (Co_Namespace r =s Co_Namespace c) then false
  else if negb (Co_Kind r =s "") && negb (Co_Kind r =s Co_Kind c) then false
  else if negb (Co_Name r =s "") && negb (Co_Name r =s Co_Name c) then false
  else labelsCover (Co_Labels r) (Co_Labels c).

Definition constraints (rule : SubjectRule) : Z :=
  let r := Rule_Coordinates rule in
  fold_left (fun n field => if field =s "" then n else n + 1) [Co_Namespace r; Co_Kind r; Co_Name r]
    (Z.of_nat (size (Co_Labels r))).

(** the loop of [For]: subject, specificity, ambiguous *)
Definition for_step (c : Coordinates) (a : string * Z * bool) (rule : SubjectRule) : string * Z * bool :=
  let '(subject, specificity, ambiguous) := a in
  if negb (matches rule c) then a
  else
    let n := constraints rule in
    if specificity <? n then (Rule_Subject rule, n, false)
    else if (n =? specificity) && negb (Rule_Subject rule =s subject) then (subject, specificity, true)
    else a.

Definition For (x : SubjectIndex) (c : Coordinates) : string :=
  let '(subject, _, ambiguous) := fold_left (for_step c) x (""%string, -1, false) in
  if ambiguous then ""%string else subject.

(** [sort.Strings] *)
Definition sort_Strings (l : list string) : list string := merge_sort String.le l.

(** [slices.Compact]: consecutive duplicates become one *)
Fixpoint slices_Compact (l : list string) : list string :=
  match l with
  | a :: l' =>
      match l' with
      | b :: _ => if a =s b then slices_Compact l' else a :: slices_Compact l'
      | [] => [a]
      end
  | [] => []
  end.

Definition selector_line (rule : SubjectRule) : string :=
  let r := Rule_Coordinates rule in
  let keys := sort_Strings (map fst (map_to_list (Co_Labels r))) in
  let pairs := (if Co_Namespace r =s "" then [] else ["namespace=" +:+ Co_Namespace r])
               ++ map (fun k => k +:+ "=" +:+ label (Co_Labels r) k) keys in
  Rule_Subject rule +:+ ": " +:+ strings_Join pairs ", ".

Definition advertised (plane : string) (rule : SubjectRule) : bool :=
  negb ((size (Co_Labels (Rule_Coordinates rule)) =? 0)%nat
        || (negb (Rule_Plane rule =s "") && negb (Rule_Plane rule =s plane))).

Definition Selectors (x : SubjectIndex) (plane : string) : list string :=
  slices_Compact (sort_Strings (map selector_line (List.filter (advertised plane) x))).

(** ** Specifications *)

(** an empty field constrains nothing; a field or label that is declared must agree *)
Definition satisfies (c : Coordinates) (rule : SubjectRule) : Prop :=
  let r := Rule_Coordinates rule in
  (Co_Namespace r = ""%string \/ Co_Namespace r = Co_Namespace c) /\
  (Co_Kind r = ""%string \/ Co_Kind r = Co_Kind c) /\
  (Co_Name r = ""%string \/ Co_Name r = Co_Name c) /\
  (forall k v, Co_Labels r !! k = Some v -> label (Co_Labels c) k = v).

(** [r] is among the most specific rules of [x] that [c] satisfies *)
Definition best (x : list SubjectRule) (c : Coordinates) (r : SubjectRule) : Prop :=
  r ∈ x /\ satisfies c r /\ forall r', r' ∈ x -> satisfies c r' -> constraints r' <= constraints r.

(** the subject the best rules agree on *)
Definition claimed (x : list SubjectRule) (c : Coordinates) (subject : string) : Prop :=
  (exists r, best x c r) /\ forall r, best x c r -> Rule_Subject r = subject.

(** ** Lemmas *)

Lemma field_ok (a b : string) : (negb (a =s "") && negb (a =s b))%bool = false <-> a = ""%string \/ a = b.
Proof. destruct (String.eqb_spec a ""), (String.eqb_spec a b); cbn; naive_solver. Qed.

Lemma labelsCover_iff want query : labelsCover want query = true <-> forall k v, want !! k = Some v -> label query k = v.
Proof.
  unfold labelsCover. rewrite forallb_forall. split.
  - intros H k v Hl. apply elem_of_map_to_list, list_elem_of_In in Hl. specialize (H _ Hl). by apply String.eqb_eq in H.
  - intros H [k v] Hin%list_elem_of_In%elem_of_map_to_list. apply String.eqb_eq. by apply H.
Qed.

Lemma matches_iff rule c : matches rule c = true <-> satisfies c rule.
Proof.
  unfold matches, satisfies. rewrite <- !field_ok, <- labelsCover_iff.
  repeat case_match; naive_solver congruence.
Qed.

Lemma constraints_nonneg rule : 0 <= constraints rule.
Proof. unfold constraints. cbn. repeat case_match; lia. Qed.

(** what the loop has found among the rules [x] *)
Definition found (x : list SubjectRule) (c : Coordinates) (a : string * Z * bool) : Prop :=
  let '(subject, specificity, ambiguous) := a in
  (specificity = -1 /\ subject = ""%string /\ ambiguous = false /\ forall r, r ∈ x -> ~ satisfies c r) \/
  ((exists r, best x c r /\ Rule_Subject r = subject /\ constraints r = specificity) /\
   (ambiguous = true <-> exists r, best x c r /\ Rule_Subject r <> subject)).

Lemma best_constraints x c r r' : best x c r -> best x c r' -> constraints r = constraints r'.
Proof. intros (? & ? & H1) (? & ? & H2). apply Z.le_antisymm; auto. Qed.

Lemma best_snoc_old x c rule r :
  best x c r -> (satisfies c rule -> constraints rule <= constraints r) -> best (x ++ [rule]) c r.
Proof.
  intros (Hin & Hs & Hmax) Hr. split; [set_solver |]. split; [done |]. intros r' [Hin' | ->%list_elem_of_singleton]%elem_of_app; auto.
Qed.

Lemma best_snoc_inv x c rule r :
  best (x ++ [rule]) c r -> best x c r \/ (r = rule /\ satisfies c rule /\ forall r', r' ∈ x -> satisfies c r' -> constraints r' <= constraints rule).
Proof.
  intros (Hin & Hs & Hmax). apply elem_of_app in Hin as [Hin | ->%list_elem_of_singleton].
  - left. split; [done |]. split; [done |]. intros r' Hr'. apply Hmax. set_solver.
  - right. split; [done |]. split; [done |]. intros r' Hr'. apply Hmax. set_solver.
Qed.

Lemma for_step_found x c a rule : found x c a -> found (x ++ [rule]) c (for_step c a rule).
Proof.
  destruct a as [[subject spec] amb]. unfold for_step. destruct (matches rule c) eqn:Em; cbn [negb].
  2: { assert (~ satisfies c rule) as Hn by (rewrite <- matches_iff; congruence). intros [(-> & -> & -> & H) | [(r & Hb & Hs & Hc) Ha]].
       - left. repeat split; try done. intros r [Hr | ->%list_elem_of_singleton]%elem_of_app; auto.
       - right. split; [exists r; split; [by apply best_snoc_old | done] |]. rewrite Ha. split; intros (r' & Hb' & Hne).
         + exists r'. split; [by apply best_snoc_old | done].
         + apply best_snoc_inv in Hb' as [Hb' | (-> & ? & _)]; [eauto | done]. }
  apply matches_iff in Em. pose proof (constraints_nonneg rule) as H0.
  intros [(-> & -> & -> & H) | [(r & Hb & Hs & Hc) Ha]].
  - replace (-1 <? constraints rule) with true by lia.
    assert (best (x ++ [rule]) c rule) as Hb.
    { split; [set_solver |]. split; [done |]. intros r' [Hr' | ->%list_elem_of_singleton]%elem_of_app Hs'; [by destruct (H r') | lia]. }
    right. split; [by exists rule |]. split; [done |]. intros (r' & Hb' & Hne).
    apply best_snoc_inv in Hb' as [(Hin & Hs' & _) | (-> & _)]; [by destruct (H r') | done].
  - destruct (spec <? constraints rule) eqn:E1.
    { apply Z.ltb_lt in E1. right. assert (best (x ++ [rule]) c rule) as Hbr.
      { split; [set_solver |]. split; [done |]. intros r' [Hr' | ->%list_elem_of_singleton]%elem_of_app Hs'; [| lia].
        destruct Hb as (_ & _ & Hmax). specialize (Hmax r' Hr' Hs'). lia. }
      split; [by exists rule |]. split; [done |]. intros (r' & Hb' & Hne). pose proof (best_constraints _ _ _ _ Hbr Hb').
      apply best_snoc_inv in Hb' as [Hb' | (-> & _)]; [| done]. pose proof (best_constraints _ _ _ _ Hb Hb'). lia. }
    apply Z.ltb_ge in E1. assert (best (x ++ [rule]) c r) as Hbr by (apply best_snoc_old; [done | lia]).
    assert (forall r', best x c r' -> best (x ++ [rule]) c r') as Hold.
    { intros r' Hb'. apply best_snoc_old; [done |]. rewrite <- (best_constraints _ _ _ _ Hb Hb'). lia. }
    destruct ((constraints rule =? spec) && negb (Rule_Subject rule =s subject)) eqn:E2.
    + apply andb_true_iff in E2 as [E2%Z.eqb_eq E3%negb_true_iff%String.eqb_neq]. right. split; [by exists r |]. split; [| done].
      intros _. exists rule. split; [| done]. split; [set_solver |]. split; [done |].
      intros r' Hr' Hs'. destruct Hbr as (_ & _ & Hmax). specialize (Hmax r' Hr' Hs'). lia.
    + right. split; [by exists r |]. rewrite Ha. split; intros (r' & Hb' & Hne); [by exists r'; auto |].
      apply best_snoc_inv in Hb' as [Hb' | (-> & Hsr & Hmax)]; [by exists r' |].
      assert (constraints r <= constraints rule) by (destruct Hb as (? & ? & _); auto).
      apply andb_false_iff in E2 as [E2 | E2].
      * apply Z.eqb_neq in E2. lia.
      * apply negb_false_iff, String.eqb_eq in E2. done.
Qed.

Lemma for_found x c : found x c (fold_left (for_step c) x (""%string, -1, false)).
Proof.
  induction x as [| rule x IH] using rev_ind; [left; set_solver |]. rewrite fold_left_app. by apply for_step_found.
Qed.

Lemma elem_of_Compact l a : a ∈ slices_Compact l <-> a ∈ l.
Proof.
  induction l as [| b l IH]; [done |]. cbn [slices_Compact]. destruct l as [| d l]; [done |].
  destruct (String.eqb_spec b d) as [-> | Hne]; set_solver.
Qed.

Lemma Compact_strict l : StronglySorted String.le l -> StronglySorted (fun a b => String.le a b /\ a <> b) (slices_Compact l).
Proof.
  induction l as [| a l IH]; intros Hs; [constructor |]. cbn [slices_Compact]. destruct l as [| b l]; [repeat constructor |].
  apply StronglySorted_inv in Hs as [Hs Ha]. specialize (IH Hs). destruct (String.eqb_spec a b) as [| Hne]; [done |].
  constructor; [done |]. apply list.Forall_forall. intros d Hd. apply (elem_of_Compact (b :: l)) in Hd. rewrite list.Forall_forall in Ha. split; [exact (Ha d Hd) |].
  intros <-. apply Hne. apply elem_of_cons in Hd as [| Hd]; [done |].
  apply StronglySorted_inv in Hs as [_ Hb]. rewrite list.Forall_forall in Hb. specialize (Hb a Hd). specialize (Ha b ltac:(by left)).
  by apply (anti_symm String.le).
Qed.

(** the advertised lines are those of the addressable rules, in strictly increasing
    order *)
Lemma Selectors_lines x plane :
  (forall l, l ∈ Selectors x plane <-> exists rule, rule ∈ x /\ advertised plane rule = true /\ selector_line rule = l) /\
  StronglySorted (fun a b => String.le a b /\ a <> b) (Selectors x plane).
Proof.
  unfold Selectors, sort_Strings. split.
  - intros l. rewrite elem_of_Compact, merge_sort_Permutation, list_elem_of_fmap. split.
    + intros (rule & -> & [? ?]%elem_of_filterb). eauto.
    + intros (rule & ? & ? & <-). exists rule. split; [done |]. by apply elem_of_filterb.
  - apply Compact_strict, (StronglySorted_merge_sort String.le).
Qed.

Lemma For_claimed x c subject : subject <> ""%string -> For x c = subject -> claimed x c subject.
Proof.
  intros Hne. unfold For, claimed. pose proof (for_found x c) as Hf.
  destruct (fold_left (for_step c) x _) as [[s n] amb]. destruct Hf as [(-> & -> & -> & H) | [(r & Hb & Hs & Hc) Ha]]; [congruence |].
  destruct amb; [congruence |]. intros <-. split; [by exists r |]. intros r' Hb'.
  destruct (decide (Rule_Subject r' = s)) as [| Hne']; [done |]. enough (false = true) by done. apply Ha. by exists r'.
Qed.

(** ** Claims *)

(** Coordinates resolve to a subject exactly when the most specific rules they
    satisfy agree on it: [For] returns the non-empty [subject] if and only if some
    rule matches and every matching rule that constrains the most names [subject];
    otherwise it returns the empty string. *)
Theorem For_is_most_specific (x : list SubjectRule) (c : Coordinates) (subject : string) :
  subject <> ""%string -> For x c = subject <-> claimed x c subject.
Proof.
  intros Hne. split; [by apply For_claimed |]. intros [[r Hb] Hall]. unfold For. pose proof (for_found x c) as Hf.
  destruct (fold_left (for_step c) x _) as [[s n] amb]. destruct Hf as [(-> & -> & -> & H) | [(r0 & Hb0 & Hs & Hc) Ha]].
  { destruct Hb as (Hin & Hsat & _). by destruct (H r Hin). }
  rewrite (Hall r0 Hb0) in Hs. destruct amb; [| done]. destruct (proj1 Ha eq_refl) as (r' & Hb' & Hne'). by rewrite (Hall r' Hb') in Hne'.
Qed.
