(* ===== verification/Topology.v ===== *)
(** * internal/whir and internal/clank/topology: the dependency graph

    The authored catalog ([Load], [Catalog.Edges]), the live state of a dependency
    ([Resolver.State]) and the observed service graph ([GraphSource.queryEdges]) of
    whir; clank's [WhirTopology] and [ObservedTopology] (clank/topology.go), its
    change sources' [fanOutChange] and the wiring of [buildIntake] (clank.go).

    The backend is read through [InstantQuery]; YAML decoding is a parameter.
    [Sprintf] is modelled for the verbs a query template can hold, without flags. *)

From Stdlib Require Import Ascii.
From stdpp Require Import sorting.
From S2P Require Import Prelude GoTime GoFloat Decimal Strings GoParse Api Contract Ledger Publish ThumpExec ClankScore ClankLedger ClankEngine Converge Subjects.
Local Open Scope Z_scope.

Definition StateHealthy : string := "healthy".
Definition StateDegraded : string := "degraded".
Definition StateUnknown : string := "unknown".

(** ** whir.go *)

Record Entity : Type := mkEntity {
  Entity_Name : string;
  Entity_DependsOn : list string
}.

Record Catalog : Type := mkCatalog { Catalog_Entities : list Entity }.

Definition Catalog_Edges (c : Catalog) (name : string) : list string :=
  match find_first (fun e => Entity_Name e =s name) (Catalog_Entities c) with
  | Some e => Entity_DependsOn e
  | None => []
  end.

(** [ref[strings.LastIndex(ref, "/")+1:]] *)
Fixpoint bare_name (ref : string) : string :=
  match ref with
  | EmptyString => ref
  | String c s' =>
      match strings_Cut s' "/" with
      | Some _ => bare_name s'
      | None => if Ascii.eqb c "/" then s' else ref
      end
  end.

Section catalog_file.
(** [yaml.Unmarshal] of one document: its [metadata.name] and [spec.dependsOn] *)
Context (Unmarshal : string -> result (string * list string)).

Fixpoint load_docs (docs : list string) (cat : list Entity) : result Catalog :=
  match docs with
  | [] => inl (mkCatalog cat)
  | doc :: rest =>
      match Unmarshal doc with
      | inr err => inr (errorf_w "parse catalog doc: " err)
      | inl (name, deps) =>
          if name =s "" then load_docs rest cat
          else load_docs rest (cat ++ [mkEntity name (map bare_name deps)])
      end
  end.

Definition newline_dashes : string := String "010"%char "---".

Definition Load (raw : string) : result Catalog := load_docs (bytes_Split raw newline_dashes) [].

Definition LoadCatalogFile (path : string) (ReadFile : string -> result string) : result Catalog :=
  match ReadFile path with
  | inr err => inr (errorf_w ("read catalog file " +:+ path +:+ ": ") err)
  | inl raw => Load raw
  end.

End catalog_file.

(** ** resolve.go *)

Record Resolver (C : Type) : Type := mkResolver {
  Resolver_BaseURL : string;
  Resolver_Client : Client C;
  Resolver_Queries : gmap string string
}.
Arguments mkResolver {C}.
Arguments Resolver_BaseURL {C}.
Arguments Resolver_Client {C}.
Arguments Resolver_Queries {C}.

Definition Resolver_State {C} (r : Resolver C) (dependency : string) (c : C) : string :=
  match Resolver_Queries r !! dependency with
  | None => StateUnknown
  | Some query =>
      match InstantQuery (Resolver_Client r) (Resolver_BaseURL r) query c with
      | inr _ => StateUnknown
      | inl [] => StateUnknown
      | inl (s :: _) =>
          match Unmarshal_string (snd (Sample_Value s)) with
          | None => StateUnknown
          | Some v =>
              match ParseFloat v with
              | inr _ => StateUnknown
              | inl f => if fgt f f0 then StateHealthy else StateDegraded
              end
          end
      end
  end.

Definition LoadStateQueries (path : string) (ReadFile : string -> result string)
  (Unmarshal : string -> result (list (string * string))) : result (gmap string string) :=
  match ReadFile path with
  | inr err => inr (errorf_w ("read state queries file " +:+ path +:+ ": ") err)
  | inl raw =>
      match Unmarshal raw with
      | inr err => inr (errorf_w "parse state queries: " err)
      | inl qs => inl (fold_left (fun out q => <[q.1 := q.2]> out) qs ∅)
      end
  end.

(** ** fmt.Sprintf of string operands *)

Definition verb (v : ascii) (args : list string) : string * list string :=
  if Ascii.eqb v "%" then ("%"%string, args)
  else match args with
       | [] => ("%!" +:+ String v "(MISSING)", [])
       | a :: rest =>
           (if Ascii.eqb v "s" || Ascii.eqb v "v" then a
            else if Ascii.eqb v "q" then fmt_q a
            else "%!" +:+ String v "(string=" +:+ a +:+ ")", rest)
       end.

(** operands no verb consumed *)
Definition extra (args : list string) : string :=
  match args with
  | [] => ""
  | _ => "%!(EXTRA " +:+ strings_Join (map (fun a => "string=" +:+ a) args) ", " +:+ ")"
  end.

Fixpoint Sprintf (format : string) (args : list string) : string :=
  match format with
  | EmptyString => extra args
  | String c rest =>
      if Ascii.eqb c "%" then
        match rest with
        | EmptyString => "%!(NOVERB)" +:+ extra args
        | String v rest' => (verb v args).1 +:+ Sprintf rest' (verb v args).2
        end
      else String c (Sprintf rest args)
  end.

(** ** graph.go *)

Record Edge : Type := mkEdge {
  Edge_Client : string;
  Edge_Server : string;
  Edge_Share : float64;
  Edge_FailRate : float64;
  Edge_State : string
}.

Record GraphQueries : Type := mkGraphQueries {
  Q_Requests : string;
  Q_Failed : string;
  Q_InboundRequests : string;
  Q_InboundFailed : string;
  Q_FailedThreshold : float64
}.

Definition GraphQueries_zero : GraphQueries := mkGraphQueries "" "" "" "" f0.

Record GraphSource (C : Type) : Type := mkGraphSource {
  Graph_BaseURL : string;
  Graph_Client : Client C;
  Graph_Window : Duration;
  Graph_Queries : GraphQueries
}.
Arguments mkGraphSource {C}.
Arguments Graph_BaseURL {C}.
Arguments Graph_Client {C}.
Arguments Graph_Window {C}.
Arguments Graph_Queries {C}.

Definition parseRawFloat (raw : json) : float64 :=
  let number := default f0 (Unmarshal_float raw) in
  match Unmarshal_string raw with
  | Some s => match ParseFloat s with inl f => f | inr _ => number end
  | None => number
  end.

(** [reqMap], [totalReq] and [others] after the loop over the request series *)
Definition req_step (otherLabel : string) (a : gmap string float64 * float64 * list string) (res : Sample)
  : gmap string float64 * float64 * list string :=
  let '(reqMap, totalReq, others) := a in
  let other := label (Sample_Metric res) otherLabel in
  if other =s "" then a
  else
    let val := parseRawFloat (snd (Sample_Value res)) in
    if fle val f0 then a
    else (<[other := val]> reqMap, fadd totalReq val, others ++ [other]).

Definition fail_step (otherLabel : string) (failMap : gmap string float64) (res : Sample) : gmap string float64 :=
  let other := label (Sample_Metric res) otherLabel in
  if other =s "" then failMap else <[other := parseRawFloat (snd (Sample_Value res))]> failMap.

Definition default_threshold : float64 := flit 5 100.

Section graph.
Context {C : Type} (g : GraphSource C).

Definition windowStr : string :=
  Duration_String (if Graph_Window g <=? 0 then 5 * Minute else Graph_Window g).

Definition graph_query (template name : string) (c : C) : result (list Sample) :=
  InstantQuery (Graph_Client g) (Graph_BaseURL g) (Sprintf template [name; windowStr]) c.

Definition threshold_of : float64 :=
  if fle (Q_FailedThreshold (Graph_Queries g)) f0 then default_threshold else Q_FailedThreshold (Graph_Queries g).

(** the edge of one pair; [newEdge] names its two ends *)
Definition edge_of (reqMap failMap : gmap string float64) (totalReq : float64) (newEdge : string -> string * string)
  (other : string) : Edge :=
  let req := default f0 (reqMap !! other) in
  let fail := default f0 (failMap !! other) in
  let failRate := if fgt req f0 then fdiv fail req else f0 in
  mkEdge (newEdge other).1 (newEdge other).2 (fdiv req totalReq) failRate
    (if fle threshold_of failRate then StateDegraded else StateHealthy).

(** [queryEdges]; its error is always nil *)
Definition queryEdges (reqTemplate failTemplate name otherLabel : string) (newEdge : string -> string * string) (c : C)
  : list Edge :=
  if reqTemplate =s "" then []
  else
    match graph_query reqTemplate name c with
    | inr _ => []
    | inl [] => []
    | inl reqs =>
        let '(reqMap, totalReq, others) := fold_left (req_step otherLabel) reqs (∅, f0, []) in
        if fle totalReq f0 then []
        else
          let failMap :=
            if failTemplate =s "" then ∅
            else match graph_query failTemplate name c with
                 | inr _ => ∅
                 | inl fails => fold_left (fail_step otherLabel) fails ∅
                 end in
          map (edge_of reqMap failMap totalReq newEdge) (sort_Strings others)
    end.

Definition Graph_Edges (name : string) (c : C) : list Edge :=
  queryEdges (Q_Requests (Graph_Queries g)) (Q_Failed (Graph_Queries g)) name "server" (fun other => (name, other)) c.

Definition Graph_Inbound (name : string) (c : C) : list Edge :=
  queryEdges (Q_InboundRequests (Graph_Queries g)) (Q_InboundFailed (Graph_Queries g)) name "client" (fun other => (other, name)) c.

End graph.

(** [Unmarshal] reads the file's [queries] block, [UnmarshalDirect] the whole file *)
Definition LoadGraphQueries (path : string) (ReadFile : string -> result string)
  (Unmarshal UnmarshalDirect : string -> result GraphQueries) : result GraphQueries :=
  match ReadFile path with
  | inr err => inr (errorf_w ("read graph queries file " +:+ path +:+ ": ") err)
  | inl raw =>
      match Unmarshal raw with
      | inr err => inr (errorf_w ("parse graph queries " +:+ path +:+ ": ") err)
      | inl q =>
          if negb (Q_Requests q =s "") || negb (Q_Failed q =s "") then inl q
          else match UnmarshalDirect raw with
               | inr err => inr (errorf_w ("parse graph queries " +:+ path +:+ ": ") err)
               | inl direct => inl direct
               end
      end
  end.

(** ** clank/topology.go *)

Record WhirTopology (C : Type) : Type := mkWhirTopology {
  Whir_Catalog : Catalog;
  Whir_Resolver : option (Resolver C)
}.
Arguments mkWhirTopology {C}.
Arguments Whir_Catalog {C}.
Arguments Whir_Resolver {C}.

Record ObservedTopology (C : Type) : Type := mkObservedTopology {
  Obs_Graph : option (GraphSource C);
  Obs_Fallback : WhirTopology C
}.
Arguments mkObservedTopology {C}.
Arguments Obs_Graph {C}.
Arguments Obs_Fallback {C}.

Section clank_topology.
Context {C : Type}.

Definition resolveState (resolver : option (Resolver C)) (dependency : string) (c : C) : string :=
  match resolver with
  | None => StateUnknown
  | Some r => Resolver_State r dependency c
  end.

Definition catalogUpstream (cat : Catalog) (resolver : option (Resolver C)) (origin : string) (c : C) : list NodeState :=
  map (fun dep => mkNodeState dep (resolveState resolver dep c) 0 f0) (Catalog_Edges cat origin).

Definition catalogDownstream (cat : Catalog) (resolver : option (Resolver C)) (origin : string) (c : C) : list NodeState :=
  map (fun e => mkNodeState (Entity_Name e) (resolveState resolver (Entity_Name e) c) 0 f0)
    (List.filter (fun e => negb (Entity_Name e =s origin) && slices_Contains (Entity_DependsOn e) origin) (Catalog_Entities cat)).

Definition observedNodeStates (edges : list Edge) (name : Edge -> string) : list NodeState :=
  map (fun e => mkNodeState (name e) (Edge_State e) 0 (Edge_Share e)) edges.

Definition WhirTopology_Topology (w : WhirTopology C) (sig : Detection) (c : C) : TopologySnapshot :=
  mkTopologySnapshot (catalogUpstream (Whir_Catalog w) (Whir_Resolver w) (Detection_OriginService sig) c) [].

Definition ObservedTopology_Topology (o : ObservedTopology C) (sig : Detection) (c : C) : TopologySnapshot :=
  let origin := Detection_OriginService sig in
  let cat := Whir_Catalog (Obs_Fallback o) in
  let resolver := Whir_Resolver (Obs_Fallback o) in
  let observed (edges : GraphSource C -> string -> C -> list Edge) (name : Edge -> string) :=
    match Obs_Graph o with
    | Some g => observedNodeStates (edges g origin c) name
    | None => []
    end in
  let upstream := match observed Graph_Edges Edge_Server with [] => catalogUpstream cat resolver origin c | up => up end in
  let downstream := match observed Graph_Inbound Edge_Client with [] => catalogDownstream cat resolver origin c | down => down end in
  mkTopologySnapshot upstream downstream.

End clank_topology.

(** ** clank.go: the change sources and the intake *)

Definition ChangeSource (C : Type) : Type := Detection -> C -> result ChangeSnapshot.

(** the snapshots of every source, in order; one that fails fails the whole *)
Definition fanOutChange {C} (f : list (ChangeSource C)) (sig : Detection) (c : C) : result ChangeSnapshot :=
  fold_left (fun out src =>
    match out with
    | inr err => inr err
    | inl o => match src sig c with
               | inr err => inr err
               | inl snap => inl (mkChangeSnapshot (ChangeSnapshot_Events o ++ ChangeSnapshot_Events snap))
               end
    end) f (inl (mkChangeSnapshot [])).

(** the configuration [buildIntake] reads, and what its files decode to *)
Record IntakeConfig (C : Type) : Type := mkIntakeConfig {
  Cfg_PromURL : string;
  Cfg_WhirCatalog : string;
  Cfg_WhirStateQueries : string;
  Cfg_WhirGraphQueries : string;
  Cfg_WhirGraphWindow : Duration;
  Cfg_ArgoEnabled : bool;
  Cfg_Client : Client C;
  Cfg_LoadCatalogFile : string -> result Catalog;
  Cfg_LoadStateQueries : string -> result (gmap string string);
  Cfg_LoadGraphQueries : string -> result GraphQueries
}.
Arguments Cfg_PromURL {C}. Arguments Cfg_WhirCatalog {C}. Arguments Cfg_WhirStateQueries {C}.
Arguments Cfg_WhirGraphQueries {C}. Arguments Cfg_WhirGraphWindow {C}. Arguments Cfg_ArgoEnabled {C}.
Arguments Cfg_Client {C}. Arguments Cfg_LoadCatalogFile {C}. Arguments Cfg_LoadStateQueries {C}.
Arguments Cfg_LoadGraphQueries {C}.

Definition noopTopology {C} (_ : Detection) (_ : C) : TopologySnapshot := mkTopologySnapshot [] [].

(** the topology source [buildIntake] wires *)
Definition build_topology {C} (cfg : IntakeConfig C) : result (Detection -> C -> TopologySnapshot) :=
  if (Cfg_WhirCatalog cfg =s "") || (Cfg_WhirStateQueries cfg =s "") then inl noopTopology
  else
    match Cfg_LoadCatalogFile cfg (Cfg_WhirCatalog cfg) with
    | inr err => inr (errorf_w "load whir catalog: " err)
    | inl cat =>
        match Cfg_LoadStateQueries cfg (Cfg_WhirStateQueries cfg) with
        | inr err => inr (errorf_w "load whir state queries: " err)
        | inl queries =>
            let whirTopo := mkWhirTopology cat (Some (mkResolver (Cfg_PromURL cfg) (Cfg_Client cfg) queries)) in
            if negb (Cfg_WhirGraphQueries cfg =s "") then
              match Cfg_LoadGraphQueries cfg (Cfg_WhirGraphQueries cfg) with
              | inr err => inr (errorf_w "load whir graph queries: " err)
              | inl gq => inl (ObservedTopology_Topology (mkObservedTopology
                            (Some (mkGraphSource (Cfg_PromURL cfg) (Cfg_Client cfg) (Cfg_WhirGraphWindow cfg) gq)) whirTopo))
              end
            else inl (WhirTopology_Topology whirTopo)
        end
    end.

(** [kube] and [argo] are the change sources over the in-cluster clients, nil without
    them; [subjects] is the number of authored rules *)
Definition build_change {C} (cfg : IntakeConfig C) (kube argo : option (ChangeSource C)) (subjects : list SubjectRule)
  : list (ChangeSource C) :=
  let authored := (0 <? length subjects)%nat in
  (match kube with Some src => if authored then [src] else [] | None => [] end) ++
  (match argo with Some src => if Cfg_ArgoEnabled cfg && authored then [src] else [] | None => [] end).

(** [buildIntake]: the sources read the world and leave it as it is *)
Definition buildIntake {C} (cfg : IntakeConfig C) (kube argo : option (ChangeSource C)) (subjects : list SubjectRule)
  : result (Intake (M := C)) :=
  match build_topology cfg with
  | inr err => inr err
  | inl topo => inl (mkIntake (fun sig c => (c, inl (topo sig c)))
                              (fun sig c => (c, fanOutChange (build_change cfg kube argo subjects) sig c)))
  end.

(** ** Specifications *)

(** the request series a pass keeps: named on the other side, and not at or below zero *)
Definition kept_series (otherLabel : string) (reqs : list Sample) : list (string * float64) :=
  omap (fun s => let other := label (Sample_Metric s) otherLabel in
                 let val := parseRawFloat (snd (Sample_Value s)) in
                 if (other =s "") || fle val f0 then None else Some (other, val)) reqs.

Definition sum_of (l : list float64) : float64 := fold_left fadd l f0.

(** the last value a series named [k] has in [l], or zero *)
Definition last_value (k : string) (l : list (string * float64)) : float64 :=
  fold_left (fun acc kv => if kv.1 =s k then kv.2 else acc) l f0.

Definition named_series (otherLabel : string) (ss : list Sample) : list (string * float64) :=
  map (fun s => (label (Sample_Metric s) otherLabel, parseRawFloat (snd (Sample_Value s)))) ss.

(** the failures of a pass: none when there is no template or no answer *)
Definition fails_of {C} (g : GraphSource C) (failTemplate name : string) (c : C) : list Sample :=
  if failTemplate =s "" then []
  else match graph_query g failTemplate name c with inr _ => [] | inl fails => fails end.

(** the edge to [other] with [req] requests of [total] and [fail] failures *)
Definition ratio_edge {C} (g : GraphSource C) (newEdge : string -> string * string) (other : string)
  (req total fail : float64) (e : Edge) : Prop :=
  Edge_Client e = (newEdge other).1 /\ Edge_Server e = (newEdge other).2 /\ Edge_Share e = fdiv req total /\
  Edge_FailRate e = (if fgt req f0 then fdiv fail req else f0) /\
  (Edge_State e = StateDegraded <-> fle (threshold_of g) (Edge_FailRate e) = true) /\
  (Edge_State e = StateDegraded \/ Edge_State e = StateHealthy).

(** ** Lemmas *)

Lemma req_fold otherLabel reqs : fold_left (req_step otherLabel) reqs (∅, f0, []) =
  (fold_left (fun m kv => <[kv.1 := kv.2]> m) (kept_series otherLabel reqs) ∅,
   sum_of (map snd (kept_series otherLabel reqs)), map fst (kept_series otherLabel reqs)).
Proof.
  unfold kept_series, sum_of. induction reqs as [| s reqs IH] using rev_ind; [done |].
  rewrite fold_left_app, IH, omap_app. unfold req_step at 1. cbn [fold_left omap list_omap].
  destruct (label (Sample_Metric s) otherLabel =s ""); cbn [orb]; [by rewrite app_nil_r |].
  destruct (fle _ f0); [by rewrite app_nil_r |]. by rewrite !map_app, !fold_left_app.
Qed.

Lemma fold_insert_lookup (l : list (string * float64)) (k : string) :
  default f0 (fold_left (fun m kv => <[kv.1 := kv.2]> m) l (∅ : gmap string float64) !! k) = last_value k l.
Proof.
  unfold last_value. induction l as [| [k' v] l IH] using rev_ind; [done |]. rewrite !fold_left_app. cbn [fold_left fst snd].
  destruct (String.eqb_spec k' k) as [-> | Hne]; [by rewrite lookup_insert_eq | by rewrite lookup_insert_ne].
Qed.

Lemma fail_fold otherLabel fails k : k <> ""%string ->
  default f0 (fold_left (fail_step otherLabel) fails (∅ : gmap string float64) !! k) = last_value k (named_series otherLabel fails).
Proof.
  intros Hk. unfold last_value, named_series. induction fails as [| s l IH] using rev_ind; [done |].
  rewrite map_app, !fold_left_app. cbn [fold_left map fst snd]. unfold fail_step at 1.
  destruct (String.eqb_spec (label (Sample_Metric s) otherLabel) "") as [E | _].
  - rewrite E. destruct (String.eqb_spec "" k); [congruence |]. exact IH.
  - destruct (String.eqb_spec (label (Sample_Metric s) otherLabel) k) as [-> | Hne];
      [by rewrite lookup_insert_eq | by rewrite lookup_insert_ne].
Qed.

Lemma last_value_unique k v (l : list (string * float64)) : NoDup (map fst l) -> (k, v) ∈ l -> last_value k l = v.
Proof.
  unfold last_value. induction l as [| [k' v'] l IH] using rev_ind; [set_solver |]. rewrite map_app, fold_left_app. cbn [map fold_left fst snd].
  intros (Hl & Hni & _)%list.NoDup_app [Hin | Heq%list_elem_of_singleton]%elem_of_app.
  - destruct (String.eqb_spec k' k) as [-> | _]; [| by apply IH].
    destruct (Hni k); [| set_solver]. apply list_elem_of_fmap. by exists (k, v).
  - injection Heq as -> ->. by rewrite seqb_refl.
Qed.

Lemma kept_named otherLabel reqs k v : (k, v) ∈ kept_series otherLabel reqs -> k <> ""%string.
Proof.
  unfold kept_series. rewrite list_elem_of_omap. intros (s & _ & E). cbn in E.
  destruct (String.eqb_spec (label (Sample_Metric s) otherLabel) ""); cbn in E; [done |]. case_match; [done |]. congruence.
Qed.

Lemma edge_of_ratio {C} (g : GraphSource C) reqMap failMap total newEdge other :
  ratio_edge g newEdge other (default f0 (reqMap !! other)) total (default f0 (failMap !! other))
    (edge_of g reqMap failMap total newEdge other).
Proof.
  unfold ratio_edge, edge_of. cbn [Edge_Client Edge_Server Edge_Share Edge_FailRate Edge_State].
  repeat (split; [done |]). destruct (fle _ _); split; auto; split; done || discriminate.
Qed.

Lemma fails_fold {C} (g : GraphSource C) failTemplate name otherLabel c k : k <> ""%string ->
  default f0 ((if failTemplate =s "" then ∅
               else match graph_query g failTemplate name c with
                    | inr _ => ∅
                    | inl fails => fold_left (fail_step otherLabel) fails ∅
                    end : gmap string float64) !! k)
  = last_value k (named_series otherLabel (fails_of g failTemplate name c)).
Proof.
  intros Hk. unfold fails_of. destruct (failTemplate =s ""); [done |]. destruct (graph_query g failTemplate name c); [| done].
  by apply fail_fold.
Qed.

Lemma queryEdges_nonempty {C} (g : GraphSource C) reqT failT name otherLabel newEdge c reqs :
  reqT <> ""%string -> graph_query g reqT name c = inl reqs ->
  let kept := kept_series otherLabel reqs in
  queryEdges g reqT failT name otherLabel newEdge c =
    if fle (sum_of (map snd kept)) f0 then []
    else map (edge_of g (fold_left (fun m kv => <[kv.1 := kv.2]> m) kept ∅)
                (if failT =s "" then ∅
                 else match graph_query g failT name c with
                      | inr _ => ∅
                      | inl fails => fold_left (fail_step otherLabel) fails ∅
                      end)
                (sum_of (map snd kept)) newEdge)
           (sort_Strings (map fst kept)).
Proof.
  intros Hne Hq kept. unfold queryEdges. destruct (String.eqb_spec reqT ""); [done |]. rewrite Hq.
  destruct reqs as [| s reqs]; [done |]. by rewrite req_fold.
Qed.

(** what a node of [ObservedTopology]'s snapshot is: an observed edge of the origin; or, on a
    side of the origin where the graph observed no edge, a node of the catalog with its live
    state and no traffic share *)
Definition observed_node {C} (o : ObservedTopology C) (origin : string) (c : C) (n : NodeState) : Prop :=
  exists g e, Obs_Graph o = Some g /\ NodeState_State n = Edge_State e /\ NodeState_TrafficShare n = Edge_Share e /\
    ((e ∈ Graph_Edges g origin c /\ NodeState_Name n = Edge_Server e) \/
     (e ∈ Graph_Inbound g origin c /\ NodeState_Name n = Edge_Client e)).

Definition authored_node {C} (o : ObservedTopology C) (origin : string) (c : C) (n : NodeState) : Prop :=
  let cat := Whir_Catalog (Obs_Fallback o) in
  NodeState_State n = resolveState (Whir_Resolver (Obs_Fallback o)) (NodeState_Name n) c /\ NodeState_TrafficShare n = f0 /\
  ((NodeState_Name n ∈ Catalog_Edges cat origin /\ forall g, Obs_Graph o = Some g -> Graph_Edges g origin c = []) \/
   ((exists d, d ∈ Catalog_Entities cat /\ Entity_Name d = NodeState_Name n /\ Entity_Name d <> origin /\ origin ∈ Entity_DependsOn d) /\
    forall g, Obs_Graph o = Some g -> Graph_Inbound g origin c = [])).

Lemma nonempty_or {A} (l : list A) (d : list A) x : x ∈ match l with [] => d | y :: l' => y :: l' end -> x ∈ l \/ l = [] /\ x ∈ d.
Proof. destruct l; auto. Qed.

(** a graph that observed no node on a side observed no edge there *)
Lemma unobserved {C} (graph : option (GraphSource C)) (edges : GraphSource C -> list Edge) name :
  match graph with Some g => observedNodeStates (edges g) name | None => [] end = [] -> forall g, graph = Some g -> edges g = [].
Proof. intros He g ->. unfold observedNodeStates in He. by apply map_eq_nil in He. Qed.

Lemma snapshot_nodes {C} (o : ObservedTopology C) sig c n :
  n ∈ topo_nodes (ObservedTopology_Topology o sig c) ->
  observed_node o (Detection_OriginService sig) c n \/ authored_node o (Detection_OriginService sig) c n.
Proof.
  unfold topo_nodes, ObservedTopology_Topology, observed_node, authored_node. cbn [TopologySnapshot_Upstream TopologySnapshot_Downstream].
  intros [Hn%nonempty_or | Hn%nonempty_or]%elem_of_app; destruct Hn as [Hn | [He Hn]].
  1,3: left; destruct (Obs_Graph o) as [g |]; [| by apply not_elem_of_nil in Hn];
       apply list_elem_of_fmap in Hn as (e & -> & He); exists g, e; cbn; auto 8.
  - right. apply list_elem_of_fmap in Hn as (d & -> & Hd). do 2 (split; [done |]). left. split; [exact Hd |].
    exact (unobserved (Obs_Graph o) (fun g => Graph_Edges g (Detection_OriginService sig) c) _ He).
  - right. apply list_elem_of_fmap in Hn as (d & -> & [Hd [Hne Hc]%andb_true_iff]%elem_of_filterb). do 2 (split; [done |]). right. split.
    + exists d. do 2 (split; [done |]). split; [by apply negb_true_iff, String.eqb_neq in Hne | by apply slices_Contains_iff].
    + exact (unobserved (Obs_Graph o) (fun g => Graph_Inbound g (Detection_OriginService sig) c) _ He).
Qed.

(** ** Claims *)

(** The observed service graph is the ratios of its series: when the request query
    answers and the kept series name distinct services with a positive total, the edges
    are exactly one per kept series, each with its share of the total, its failure
    ratio, and degraded exactly when that ratio reaches the threshold; when the query
    fails or nothing is kept there are no edges. *)
Theorem observed_edges_are_ratios {C} (g : GraphSource C) (reqT failT name otherLabel : string)
  (newEdge : string -> string * string) (c : C) :
  reqT <> ""%string ->
  match graph_query g reqT name c with
  | inr _ => queryEdges g reqT failT name otherLabel newEdge c = []
  | inl reqs =>
      let kept := kept_series otherLabel reqs in
      let total := sum_of (map snd kept) in
      let edges := queryEdges g reqT failT name otherLabel newEdge c in
      (fle total f0 = true -> edges = []) /\
      (fle total f0 = false -> NoDup (map fst kept) ->
       length edges = length kept /\
       (forall other req, (other, req) ∈ kept ->
          exists e, e ∈ edges /\
            ratio_edge g newEdge other req total (last_value other (named_series otherLabel (fails_of g failT name c))) e) /\
       (forall e, e ∈ edges -> exists other req, (other, req) ∈ kept /\
            ratio_edge g newEdge other req total (last_value other (named_series otherLabel (fails_of g failT name c))) e))
  end.
Proof.
  intros Hne. destruct (graph_query g reqT name c) as [reqs | err] eqn:Eq.
  2: { unfold queryEdges. destruct (String.eqb_spec reqT ""); [done |]. by rewrite Eq. }
  cbv zeta. rewrite (queryEdges_nonempty g reqT failT name otherLabel newEdge c reqs Hne Eq).
  set (kept := kept_series otherLabel reqs). set (total := sum_of (map snd kept)).
  set (failMap := if failT =s "" then ∅ else _).
  split; intros Ht; rewrite Ht; [done |]. intros Hnd.
  assert (forall other req, (other, req) ∈ kept ->
    ratio_edge g newEdge other req total (last_value other (named_series otherLabel (fails_of g failT name c)))
      (edge_of g (fold_left (fun m kv => <[kv.1 := kv.2]> m) kept ∅) failMap total newEdge other)) as Hedge.
  { intros other req Hin. pose proof (edge_of_ratio g (fold_left (fun m kv => <[kv.1 := kv.2]> m) kept ∅) failMap total newEdge other) as Hr.
    rewrite fold_insert_lookup, (last_value_unique _ _ _ Hnd Hin) in Hr. unfold failMap in Hr.
    by rewrite fails_fold in Hr by (eapply kept_named; exact Hin). }
  split; [| split].
  - rewrite map_length. unfold sort_Strings. by rewrite merge_sort_Permutation, map_length.
  - intros other req Hin. eexists. split; [| by apply Hedge]. apply list_elem_of_fmap. exists other. split; [done |].
    unfold sort_Strings. rewrite merge_sort_Permutation. apply list_elem_of_fmap. by exists (other, req).
  - intros e (other & -> & Ho)%list_elem_of_fmap. unfold sort_Strings in Ho. rewrite merge_sort_Permutation in Ho.
    apply list_elem_of_fmap in Ho as ([o req] & -> & Hin). exists o, req. split; [done | by apply Hedge].
Qed.

(** C19. A change event is corroborated by something that was looked up: if scoring
    against the assembled topology marks an event live-corroborated, its target is
    degraded on an observed edge of the burning service, and then its topological score
    is that edge's traffic share; or it is a dependency or a dependent of the service in the
    catalog, the graph observed no edge on that side, the resolver reports it degraded, and
    its topological score is zero. *)
Theorem corroboration_is_looked_up {C} (o : ObservedTopology C) (sig : Detection) (c : C) (fingerprint : string)
  (e : ChangeEvent) (w : ScoringWeights) (prior : option Prior) :
  let s := scoreEvent fingerprint e (ObservedTopology_Topology o sig c) w prior in
  CausalScore_LiveCorroborated s = true ->
  exists n, NodeState_Name n = ChangeEvent_Target e /\ NodeState_State n = StateDegraded /\
    CausalScore_Topological s = NodeState_TrafficShare n /\
    (observed_node o (Detection_OriginService sig) c n \/ authored_node o (Detection_OriginService sig) c n).
Proof.
  intros s. set (topo := ObservedTopology_Topology o sig c) in *. destruct (findNode topo (ChangeEvent_Target e)) as [node inPath] eqn:Ef.
  assert (CausalScore_LiveCorroborated s = inPath && (NodeState_State node =s "degraded") /\
          CausalScore_Topological s = topologicalScore node inPath) as [-> ->].
  { unfold s, scoreEvent. rewrite Ef. destruct (historical_base prior fingerprint w) as [base corroborated]. cbv zeta.
    destruct (inPath && (NodeState_State node =s "degraded")); destruct (fold_left _ _ _); done. }
  intros Hl. pose proof Hl as [-> Hd%String.eqb_eq]%andb_true_iff.
  apply findNode_true in Ef as [Hin Hname]. exists node. split; [done |]. split; [done |]. split.
  - unfold topologicalScore. by rewrite Hl.
  - by apply snapshot_nodes.
Qed.

(** ** A concrete graph *)

Definition demo_sample (server v : string) : Sample := mkSample {[ "server"%string := server ]} (JNum "1700000000", JStr v).

(** a backend that answers the request query with two callees, one of them failing *)
Definition demo_client : Client unit :=
  mkClient (fun _ => None)
    (fun _ q _ => inl (mkResponse 200 "200 OK"
       (inl (if q =s "requests{front 5m0s}" then [demo_sample "cart" "3"; demo_sample "ads" "1"]
             else if q =s "failed{front 5m0s}" then [demo_sample "cart" "1.5"]
             else [demo_sample "x" "NaN"])))).

Definition demo_graph : GraphSource unit :=
  mkGraphSource "http://prom" demo_client 0 (mkGraphQueries "requests{%s %s}" "failed{%s %s}" "" "" f0).

Example demo_edges :
  Graph_Edges demo_graph "front" tt =
    [mkEdge "front" "ads" (flit 1 4) f0 StateHealthy; mkEdge "front" "cart" (flit 3 4) fhalf StateDegraded].
Proof. vm_compute. reflexivity. Qed.

Lemma observed_edges_are_ratios_witness :
  exists e, e ∈ Graph_Edges demo_graph "front" tt /\ Edge_Server e = "cart"%string /\ Edge_State e = StateDegraded.
Proof.
  pose proof (observed_edges_are_ratios demo_graph "requests{%s %s}" "failed{%s %s}" "front" "server" (fun other => ("front"%string, other)) tt
                ltac:(discriminate)) as H.
  assert (graph_query demo_graph "requests{%s %s}" "front" tt = inl [demo_sample "cart" "3"; demo_sample "ads" "1"]) as E
    by (vm_compute; reflexivity).
  rewrite E in H. destruct H as [_ H].
  destruct (H ltac:(vm_compute; reflexivity)) as (_ & H1 & _); [vm_compute; repeat constructor; set_solver |].
  destruct (H1 "cart"%string (of_int 3)) as (e & He & _ & Hs & _ & Hr & [_ Hst] & _); [vm_compute; left |].
  exists e. split; [exact He |]. split; [exact Hs |]. apply Hst. rewrite Hr. vm_compute. reflexivity.
Defined.

Definition demo_whir : WhirTopology unit :=
  mkWhirTopology (mkCatalog [mkEntity "front" ["cart"%string]]) (Some (mkResolver "http://prom" demo_client {[ "cart"%string := "up"%string ]})).

(** a dependency whose state query returns NaN is degraded, not unknown; the edges of
    the graph next to a NaN series lose their shares *)
Example NaN_reading_is_degraded : Resolver_State (mkResolver "http://prom" demo_client {[ "cart"%string := "up"%string ]}) "cart" tt = StateDegraded.
Proof. vm_compute. reflexivity. Qed.

Definition demo_event : ChangeEvent := mkChangeEvent "r1" "deploy" "cart" Minute f0 [] [] Minute.

Lemma corroboration_is_looked_up_witness :
  let o := mkObservedTopology (Some demo_graph) demo_whir in
  let sig := mkDetection "d" "f" "front" "tier-1" "slo_burn" (mkDivergence "" f0 f0 f0 "") (mkTopologyContext [] []) TrafficContext_zero
               (mkImpact Severity_zero BlastRadius_zero) "" "" 0 in
  exists n, NodeState_Name n = "cart"%string /\ NodeState_State n = StateDegraded /\
    CausalScore_Topological (scoreEvent "f" demo_event (ObservedTopology_Topology o sig tt) demo_weights None) = NodeState_TrafficShare n /\
    (observed_node o "front" tt n \/ authored_node o "front" tt n).
Proof.
  apply (corroboration_is_looked_up (mkObservedTopology (Some demo_graph) demo_whir)
    (mkDetection "d" "f" "front" "tier-1" "slo_burn" (mkDivergence "" f0 f0 f0 "") (mkTopologyContext [] []) TrafficContext_zero
               (mkImpact Severity_zero BlastRadius_zero) "" "" 0) tt "f" demo_event demo_weights None).
  vm_compute. reflexivity.
Defined.

(** with the catalog alone the node is in the topology and corroborates, but its
    traffic share is never known: the topological score of every event is zero *)
Lemma catalog_scores_no_topology {C} (t : WhirTopology C) sig c fp e w prior :
  CausalScore_Topological (scoreEvent fp e (WhirTopology_Topology t sig c) w prior) = f0.
Proof.
  set (topo := WhirTopology_Topology t sig c). destruct (findNode topo (ChangeEvent_Target e)) as [node inPath] eqn:Ef.
  assert (CausalScore_Topological (scoreEvent fp e topo w prior) = topologicalScore node inPath) as ->.
  { unfold scoreEvent. rewrite Ef. destruct (historical_base prior fp w) as [base corroborated]. cbv zeta.
    destruct (inPath && (NodeState_State node =s "degraded")); destruct (fold_left _ _ _); done. }
  unfold topologicalScore. destruct inPath; [| done]. cbn [andb]. case_match; [| done].
  apply findNode_true in Ef as [Hin _]. unfold topo_nodes, topo, WhirTopology_Topology in Hin.
  cbn [TopologySnapshot_Upstream TopologySnapshot_Downstream] in Hin. rewrite app_nil_r in Hin.
  by apply list_elem_of_fmap in Hin as (d & -> & _).
Qed.
