(* ===== verification/Evidence.v ===== *)
(** * internal/evidence: what the model may look at

    The read-only tools [MetricsTool], [LokiTool], [TracesTool] and [KubeTool], their
    query builders, and the change sources [KubeChangeSource] and [ArgoChangeSource].

    The backends and the Kubernetes API are parameters that read the world [C];
    decoded arguments, bodies and objects are records of the fields the code reads.
    A clock read is a parameter. *)

From Stdlib Require Import Ascii.
From stdpp Require Import sorting.
From S2P Require Import Prelude GoTime GoFloat Decimal Strings GoParse Api Contract Publish Hiss ClankScore ClankLedger ClankEngine Converge Subjects Topology.
Local Open Scope Z_scope.

Definition sorted_keys (m : gmap string string) : list string := sort_Strings (map fst (map_to_list m)).

Definition strconv_Itoa (z : Z) : string := fmt_d z.

(** ** metrics_tool.go *)

Record Query : Type := mkQuery {
  Query_Name : string;
  Query_Query : string;
  Query_Subject : string
}.

Record MetricsTool (C : Type) : Type := mkMetricsTool {
  Metrics_BaseURL : string;
  Metrics_Client : Client C;
  Metrics_Queries : gmap string Query
}.
Arguments mkMetricsTool {C}.
Arguments Metrics_BaseURL {C}.
Arguments Metrics_Client {C}.
Arguments Metrics_Queries {C}.

Definition EvidenceRef_zero : EvidenceRef := mkEvidenceRef "" "" "" "" "" false "".

Definition Metrics_Spec {C} (schema : string) (m : MetricsTool C) : ToolSpec :=
  mkToolSpec "metrics"
    ("read-only telemetry query. Valid q values: " +:+ strings_Join (sort_Strings (map fst (map_to_list (Metrics_Queries m)))) ", ")
    schema.

(** what [errors.AsType[*httpx.StatusError]] finds in the error of [InstantQuery] *)
Definition status_of {C} (client : Client C) (baseURL query : string) (c : C) : option string :=
  match Client_Build client (baseURL +:+ "/api/v1/query"), Client_Do client (baseURL +:+ "/api/v1/query") query c with
  | None, inl resp => if negb (Resp_StatusCode resp =? StatusOK) then Some (Resp_Status resp) else None
  | _, _ => None
  end.

(** [decode] reads the argument [q] *)
Definition Metrics_Run {C} (m : MetricsTool C) (decode : string -> result string) (args : string) (c : C) : result EvidenceRef :=
  match decode args with
  | inr err => inr (errorf_w "decode args: " err)
  | inl q =>
      match Metrics_Queries m !! q with
      | None => inl (mkEvidenceRef "metrics" q q ("no such evidence query: " +:+ q) "" false "")
      | Some eq =>
          let subject := Query_Subject eq in
          match InstantQuery (Metrics_Client m) (Metrics_BaseURL m) (Query_Query eq) c with
          | inr err =>
              if errors_Is err ErrBuildInstantQuery then inr (errorf_w "build query: " err)
              else if errors_Is err ErrDecodeInstantResult then inl EvidenceRef_zero
              else match status_of (Metrics_Client m) (Metrics_BaseURL m) (Query_Query eq) c with
                   | Some status => inl (mkEvidenceRef "metrics" q q ("prometheus returned status: " +:+ status) "" false subject)
                   | None => inl (mkEvidenceRef "metrics" q q ("prometheus request failed: " +:+ err_text err) "" false subject)
                   end
          | inl [] => inl (mkEvidenceRef "metrics" q q "query returned no data" "" false subject)
          | inl (s :: _) =>
              match Unmarshal_string (snd (Sample_Value s)) with
              | None => inr (errorf_w "decode value string: " (errors_New "json: cannot unmarshal"))
              | Some v => inl (mkEvidenceRef "metrics" q q (q +:+ " = " +:+ v) ("metrics://" +:+ q) true subject)
              end
          end
      end
  end.

Record EvidenceConfig : Type := mkEvidenceConfig {
  Evidence_Queries : gmap string Query;
  Evidence_Index : list SubjectRule
}.

Definition LoadEvidenceConfig (path : string) (ReadFile : string -> result string)
  (Unmarshal : string -> result (list Query * list SubjectRule)) : result EvidenceConfig :=
  match ReadFile path with
  | inr err => inr (errorf_w ("read evidence queries file " +:+ path +:+ ": ") err)
  | inl raw =>
      match Unmarshal raw with
      | inr err => inr (errorf_w "parse evidence queries: " err)
      | inl (queries, subjects) =>
          inl (mkEvidenceConfig (fold_left (fun m q => <[Query_Name q := q]> m) queries ∅) subjects)
      end
  end.

(** ** loki_tool.go *)

Record lokiInput : Type := mkLokiInput {
  Loki_Namespace : string;
  Loki_Labels : gmap string string;
  Loki_Query : string;
  Loki_Limit : Z;
  Loki_Lookback : string
}.

(** one log or trace search: path, query, the range and the limit *)
Record SearchRequest : Type := mkSearchRequest {
  Search_URL : string;
  Search_Query : string;
  Search_Start : Z;
  Search_End : Z;
  Search_Limit : Z
}.

(** the HTTP client of a search backend whose bodies decode to [B] *)
Record SearchClient (C B : Type) : Type := mkSearchClient {
  (** [url.Parse] and [http.NewRequestWithContext] *)
  SC_Parse : string -> option error;
  SC_NewRequest : string -> option error;
  (** status code, status and decoded body *)
  SC_Do : SearchRequest -> C -> result (Z * string * result B)
}.
Arguments SC_Parse {C B}.
Arguments SC_NewRequest {C B}.
Arguments SC_Do {C B}.

Record LokiTool (C : Type) : Type := mkLokiTool {
  Loki_BaseURL : string;
  (** the streams of a response, each the (timestamp, line) pairs of its values *)
  Loki_Client : SearchClient C (list (list (string * string)));
  Loki_Subjects : list SubjectRule
}.
Arguments Loki_BaseURL {C}.
Arguments Loki_Client {C}.
Arguments Loki_Subjects {C}.

Definition Loki_Spec {C} (schema : string) (l : LokiTool C) : ToolSpec :=
  let sels := Selectors (Loki_Subjects l) "loki" in
  mkToolSpec "loki"
    ("read-only log query. namespace is required."
     +:+ (match sels with [] => "" | _ => " Authored stream selectors: " +:+ strings_Join sels "; " +:+ "." end)
     +:+ " query is an optional line-filter substring (NOT LogQL syntax)"
     +:+ " - do not pass raw LogQL, it will be escaped as literal.")
    schema.

Definition buildLogQL (namespace : string) (labels : gmap string string) (query : string) : string :=
  let matchers := ("namespace=" +:+ fmt_q namespace)
                  :: map (fun k => k +:+ "=" +:+ fmt_q (label labels k)) (sorted_keys labels) in
  "{" +:+ strings_Join matchers ", " +:+ "}" +:+ (if query =s "" then "" else " |= " +:+ fmt_q query).

Definition ref_of (scheme namespace : string) (labels : gmap string string) : string :=
  match sorted_keys labels with
  | [] => scheme +:+ namespace
  | keys => scheme +:+ namespace +:+ "/" +:+ strings_Join (map (fun k => k +:+ "=" +:+ label labels k) keys) ","
  end.

Definition lokiRef : string -> gmap string string -> string := ref_of "loki://".

(** UTF-8 bytes of the ellipsis *)
Definition ellipsis : string := String "226"%char (String "128"%char (String "166"%char "")).

Definition truncateLine (s : string) (n : nat) : string :=
  if (String.length s <=? n)%nat then s else String.substring 0 n s +:+ ellipsis.

(** the lookback argument: 15 minutes when empty *)
Definition lookback_of (lookback : string) : result Duration :=
  ParseDuration (if lookback =s "" then "15m" else lookback).

(** [total] and [lastLine] over the streams *)
Definition tally_stream (a : Z * string) (values : list (string * string)) : Z * string :=
  (a.1 + Z.of_nat (length values), match list.last values with Some v => v.2 | None => a.2 end).

Definition Loki_Run {C} (l : LokiTool C) (decode : string -> result lokiInput) (args : string) (now : Time) (c : C) : result EvidenceRef :=
  match decode args with
  | inr err => inr (errorf_w "decode loki args: " err)
  | inl input =>
      let logQL := buildLogQL (Loki_Namespace input) (Loki_Labels input) (Loki_Query input) in
      let subject := For (Loki_Subjects l) (mkCoordinates (Loki_Namespace input) "" "" (Loki_Labels input)) in
      let dead summary := mkEvidenceRef "loki" logQL "" summary "" false subject in
      match lookback_of (Loki_Lookback input) with
      | inr err => inl (dead ("invalid lookback: " +:+ err_text err))
      | inl lb =>
          let limit := if Loki_Limit input <=? 0 then 50 else Loki_Limit input in
          let url := Loki_BaseURL l +:+ "/loki/api/v1/query_range" in
          match SC_Parse (Loki_Client l) url with
          | Some err => inr (errorf_w "parse url: " err)
          | None =>
              match SC_NewRequest (Loki_Client l) url with
              | Some err => inr (errorf_w "new request: " err)
              | None =>
                  match SC_Do (Loki_Client l) (mkSearchRequest url logQL (UnixNano (Add now (wrap64 (- lb)))) (UnixNano now) limit) c with
                  | inr err => inl (dead ("loki request failed: " +:+ err_text err))
                  | inl (code, status, body) =>
                      if negb (code =? StatusOK) then inl (dead ("loki returned status: " +:+ status))
                      else match body with
                           | inr err => inl (dead ("decode loki response: " +:+ err_text err))
                           | inl streams =>
                               let '(total, lastLine) := fold_left tally_stream streams (0, ""%string) in
                               if total =? 0 then inl (dead "no matching log lines")
                               else
                                 let summary := (fmt_d total +:+ " log line(s)")
                                   +:+ (if lastLine =s "" then "" else "; last: " +:+ truncateLine lastLine 200) in
                                 inl (mkEvidenceRef "loki" logQL "" summary (lokiRef (Loki_Namespace input) (Loki_Labels input)) true subject)
                           end
                  end
              end
          end
      end
  end.

(** ** traces_tool.go *)

Record tracesInput : Type := mkTracesInput {
  Traces_Namespace : string;
  Traces_Labels : gmap string string;
  Traces_ErrorsOnly : bool;
  Traces_Limit : Z;
  Traces_Lookback : string
}.

Record TraceHit : Type := mkTraceHit {
  Hit_TraceID : string;
  Hit_RootServiceName : string;
  Hit_RootTraceName : string
}.

Record TracesTool (C : Type) : Type := mkTracesTool {
  Traces_BaseURL : string;
  Traces_Client : SearchClient C (list TraceHit);
  Traces_Subjects : list SubjectRule
}.
Arguments Traces_BaseURL {C}.
Arguments Traces_Client {C}.
Arguments Traces_Subjects {C}.

Definition in_range_byte (lo hi : ascii) (c : ascii) : bool :=
  (N_of_ascii lo <=? N_of_ascii c)%N && (N_of_ascii c <=? N_of_ascii hi)%N.

(** [[a-zA-Z_]] and [[a-zA-Z0-9_.]] *)
Definition ident_start (c : ascii) : bool := in_range_byte "a" "z" c || in_range_byte "A" "Z" c || Ascii.eqb c "_".
Definition ident_char (c : ascii) : bool := ident_start c || in_range_byte "0" "9" c || Ascii.eqb c ".".

Definition ident (s : string) : bool :=
  match s with String c s' => ident_start c && all_chars ident_char s' | EmptyString => false end.

(** [^(resource\.|span\.)?[a-zA-Z_][a-zA-Z0-9_.]*$] *)
Definition traceKeyRegex (k : string) : bool :=
  ident k
  || match strings_CutPrefix k "resource." with Some r => ident r | None => false end
  || match strings_CutPrefix k "span." with Some r => ident r | None => false end.

Definition Traces_Spec {C} (schema : string) (t : TracesTool C) : ToolSpec :=
  let sels := Selectors (Traces_Subjects t) "traces" in
  mkToolSpec "traces"
    ("read-only distributed-trace search. namespace is required."
     +:+ (match sels with [] => "" | _ => " Authored trace selectors: " +:+ strings_Join sels "; " +:+ "." end)
     +:+ " errorsOnly restricts the search to spans with an error status."
     +:+ " labels are attribute matchers (NOT TraceQL syntax) - do not pass raw TraceQL,"
     +:+ " keys are validated and values are quoted.")
    schema.

Definition buildTraceQL (labels : gmap string string) (errorsOnly : bool) : string :=
  let matchers := map (fun k => k +:+ "=" +:+ fmt_q (label labels k)) (sorted_keys labels)
                  ++ (if errorsOnly then ["status=error"%string] else []) in
  match matchers with
  | [] => "{}"
  | _ => "{" +:+ strings_Join matchers " && " +:+ "}"
  end.

Definition tempoRef : string -> gmap string string -> string := ref_of "tempo://".

(** the range over the labels: the first key it meets that is not an identifier *)
Definition bad_key (labels : gmap string string) : option string :=
  find_first (fun k => negb (traceKeyRegex k)) (map fst (map_to_list labels)).

Definition Traces_Run {C} (t : TracesTool C) (decode : string -> result tracesInput) (args : string) (now : Time) (c : C) : result EvidenceRef :=
  match decode args with
  | inr err => inr (errorf_w "decode traces args: " err)
  | inl input =>
      let subject := For (Traces_Subjects t) (mkCoordinates (Traces_Namespace input) "" "" (Traces_Labels input)) in
      match bad_key (Traces_Labels input) with
      | Some k => inl (mkEvidenceRef "traces" "" ""
                         ("invalid trace label key " +:+ fmt_q k +:+ ": must match identifier pattern") "" false subject)
      | None =>
          let traceQL := buildTraceQL (Traces_Labels input) (Traces_ErrorsOnly input) in
          let dead summary := mkEvidenceRef "traces" traceQL "" summary "" false subject in
          match lookback_of (Traces_Lookback input) with
          | inr err => inl (dead ("invalid lookback: " +:+ err_text err))
          | inl lb =>
              let limit := if Traces_Limit input <=? 0 then 20 else Traces_Limit input in
              let url := Traces_BaseURL t +:+ "/api/search" in
              match SC_Parse (Traces_Client t) url with
              | Some err => inr (errorf_w "parse url: " err)
              | None =>
                  match SC_NewRequest (Traces_Client t) url with
                  | Some err => inr (errorf_w "new request: " err)
                  | None =>
                      match SC_Do (Traces_Client t) (mkSearchRequest url traceQL (Unix (Add now (wrap64 (- lb)))) (Unix now) limit) c with
                      | inr err => inl (dead ("tempo request failed: " +:+ err_text err))
                      | inl (code, status, body) =>
                          if negb (code =? StatusOK) then inl (dead ("tempo returned status: " +:+ status))
                          else match body with
                               | inr err => inl (dead ("decode tempo response: " +:+ err_text err))
                               | inl traces =>
                                   match list.last traces with
                                   | None => inl (mkEvidenceRef "traces" traceQL "" "no matching traces"
                                                    (tempoRef (Traces_Namespace input) (Traces_Labels input)) false subject)
                                   | Some hit =>
                                       inl (mkEvidenceRef "traces" traceQL ""
                                              (fmt_d (Z.of_nat (length traces)) +:+ " trace(s); last root: "
                                               +:+ Hit_RootServiceName hit +:+ "/" +:+ Hit_RootTraceName hit)
                                              (tempoRef (Traces_Namespace input) (Traces_Labels input)) true subject)
                                   end
                               end
                      end
                  end
              end
          end
      end
  end.

(** ** kube_tool.go *)

Record kubeInput : Type := mkKubeInput {
  Kube_Resource : string;
  Kube_Namespace : string;
  Kube_Selector : gmap string string
}.

Record ContainerStatus : Type := mkContainerStatus {
  CS_RestartCount : Z;
  (** the reasons of [LastTerminationState.Terminated] and [State.Waiting], nil when unset *)
  CS_LastTerminated : option string;
  CS_Waiting : option string;
  CS_Ready : bool
}.

Record Pod : Type := mkPod {
  Pod_Name : string;
  Pod_Phase : string;
  Pod_ContainerStatuses : list ContainerStatus
}.

Definition int32_wrap (z : Z) : Z := (z + 2 ^ 31) mod 2 ^ 32 - 2 ^ 31.

Record Digest : Type := mkDigest {
  Digest_restarts : Z;
  Digest_lastReason : string;
  Digest_waitingReason : string;
  Digest_hasNotReady : bool
}.

Definition first_reason (have : string) (r : option string) : string :=
  if have =s "" then match r with Some reason => reason | None => "" end else have.

Definition digest_step (d : Digest) (cs : ContainerStatus) : Digest :=
  mkDigest (int32_wrap (Digest_restarts d + CS_RestartCount cs))
    (first_reason (Digest_lastReason d) (CS_LastTerminated cs))
    (first_reason (Digest_waitingReason d) (CS_Waiting cs))
    (Digest_hasNotReady d || negb (CS_Ready cs)).

Definition PodRunning : string := "Running".

Definition podDigest (p : Pod) : string :=
  let d := fold_left digest_step (Pod_ContainerStatuses p) (mkDigest 0 "" "" false) in
  let clauses := [Pod_Phase p]
    ++ (if 0 <? Digest_restarts d then ["restarts=" +:+ fmt_d (Digest_restarts d)] else [])
    ++ (if Digest_lastReason d =s "" then [] else ["last: " +:+ Digest_lastReason d])
    ++ (if Digest_waitingReason d =s "" then [] else ["waiting: " +:+ Digest_waitingReason d])
    ++ (if Digest_hasNotReady d && (Pod_Phase p =s PodRunning) && (Digest_waitingReason d =s "") then ["notReady"%string] else []) in
  Pod_Name p +:+ " (" +:+ strings_Join clauses ", " +:+ ")".

Record KubeTool (C : Type) : Type := mkKubeTool {
  (** [Client.CoreV1().Pods(ns).List] with the selector [labels.Set] renders *)
  Kube_ListPods : string -> gmap string string -> C -> result (list Pod);
  Kube_Subjects : list SubjectRule
}.
Arguments Kube_ListPods {C}.
Arguments Kube_Subjects {C}.

Definition Kube_Spec {C} (schema : string) (k : KubeTool C) : ToolSpec :=
  let sels := Selectors (Kube_Subjects k) "kube" in
  mkToolSpec "kube"
    ("read-only kubernetes resource query (supports resource: 'pods')."
     +:+ " selector is an optional map of label equality pairs — narrow to one"
     +:+ " workload with it; an unnarrowed namespace query spans every workload in"
     +:+ " it and cannot be evidence about any one of them."
     +:+ (match sels with [] => "" | _ => " Authored selectors: " +:+ strings_Join sels "; " +:+ "." end))
    schema.

Definition Kube_Run {C} (k : KubeTool C) (decode : string -> result kubeInput) (args : string) (c : C) : result EvidenceRef :=
  match decode args with
  | inr err => inr (errorf_w "decode kube args: " err)
  | inl input =>
      let subject := For (Kube_Subjects k) (mkCoordinates (Kube_Namespace input) "" "" (Kube_Selector input)) in
      let dead summary := mkEvidenceRef "kube" args "" summary "" false subject in
      if Kube_Resource input =s "pods" then
        match Kube_ListPods k (Kube_Namespace input) (Kube_Selector input) c with
        | inr err => inl (dead ("failed to list pods: " +:+ err_text err))
        | inl [] => inl (dead "no pods found")
        | inl pods =>
            inl (mkEvidenceRef "kube" args "" (strings_Join (map podDigest pods) ", ")
                   ("kube://" +:+ Kube_Namespace input +:+ "/" +:+ Kube_Resource input) true subject)
        end
      else inl (dead ("unsupported resource: " +:+ Kube_Resource input))
  end.

(** ** Specifications *)

(** the subject stamped on evidence about [co]: none, or the one the authored rules agree on *)
Definition attributed (rules : list SubjectRule) (co : Coordinates) (ref : EvidenceRef) : Prop :=
  EvidenceRef_Subject ref = ""%string \/ claimed rules co (EvidenceRef_Subject ref).

(** a search backend answered a request for [q] with a body for which [nonempty] holds *)
Definition search_hit {C B} (client : SearchClient C B) (q : string) (c : C) (nonempty : B -> Prop) : Prop :=
  exists req status body, Search_Query req = q /\ SC_Do client req c = inl (200, status, inl body) /\ nonempty body.

(** a double-quoted literal after its opening quote: its value and what follows *)
Definition hex_val (c : ascii) : option nat :=
  match digit c with
  | Some d => Some (Z.to_nat d)
  | None => match hex_letter c with Some d => Some (Z.to_nat d) | None => None end
  end.

Definition unescape (c : ascii) : option ascii :=
  if Ascii.eqb c "a" then Some "007"%char else if Ascii.eqb c "b" then Some "008"%char
  else if Ascii.eqb c "f" then Some "012"%char else if Ascii.eqb c "n" then Some "010"%char
  else if Ascii.eqb c "r" then Some "013"%char else if Ascii.eqb c "t" then Some "009"%char
  else if Ascii.eqb c "v" then Some "011"%char
  else if Ascii.eqb c "092" || Ascii.eqb c "034" then Some c else None.

Definition cons_value (c : ascii) (r : option (string * string)) : option (string * string) :=
  match r with Some (v, rest) => Some (String c v, rest) | None => None end.

Fixpoint read_literal (s : string) : option (string * string) :=
  match s with
  | EmptyString => None
  | String c s' =>
      if Ascii.eqb c "034" then Some (""%string, s')
      else if Ascii.eqb c "092" then
        match s' with
        | String e s'' =>
            if Ascii.eqb e "x" then
              match s'' with
              | String h (String l s3) =>
                  match hex_val h, hex_val l with
                  | Some a, Some b => cons_value (ascii_of_nat (16 * a + b)) (read_literal s3)
                  | _, _ => None
                  end
              | _ => None
              end
            else match unescape e with Some v => cons_value v (read_literal s'') | None => None end
        | EmptyString => None
        end
      else cons_value c (read_literal s')
  end.

(** [key="value"] *)
Definition read_matcher (s : string) : option (string * string * string) :=
  let '(k, rest) := span ident_char s in
  match rest with
  | String c (String q body) =>
      if Ascii.eqb c "=" && Ascii.eqb q "034"
      then match read_literal body with Some (v, rest') => Some (k, v, rest') | None => None end
      else None
  | _ => None
  end.

(** a comma-separated list of matchers and the closing brace *)
Fixpoint read_matchers (fuel : nat) (s : string) : option (list (string * string) * string) :=
  match fuel with
  | O => None
  | S fuel =>
      match read_matcher s with
      | None => None
      | Some (k, v, rest) =>
          match rest with
          | String "}" rest' => Some ([(k, v)], rest')
          | String "," (String " " rest') =>
              match read_matchers fuel rest' with
              | Some (l, rest'') => Some ((k, v) :: l, rest'')
              | None => None
              end
          | _ => None
          end
      end
  end.

(** a stream selector and an optional line filter, as Loki reads them *)
Definition read_LogQL (fuel : nat) (s : string) : option (list (string * string) * string) :=
  match s with
  | String "{" s' =>
      match read_matchers fuel s' with
      | Some (l, EmptyString) => Some (l, ""%string)
      | Some (l, rest) =>
          match strings_CutPrefix rest (" |= " +:+ dquote) with
          | Some body => match read_literal body with Some (q, EmptyString) => Some (l, q) | _ => None end
          | None => None
          end
      | None => None
      end
  | _ => None
  end.

(** ** Lemmas: quoting *)

Lemma read_quoted c s : read_literal (quote_byte c +:+ s) = cons_value c (read_literal s).
Proof. destruct c as [[] [] [] [] [] [] [] []]; reflexivity. Qed.

Lemma read_literal_quote v rest : read_literal (quote_body v +:+ dquote +:+ rest) = Some (v, rest).
Proof.
  induction v as [| c v IH]; [done |]. cbn [quote_body]. rewrite string_app_assoc, read_quoted, IH. done.
Qed.

Lemma fmt_q_app v rest : fmt_q v +:+ rest = String "034" (quote_body v +:+ dquote +:+ rest).
Proof. unfold fmt_q. rewrite !string_app_assoc. done. Qed.

Lemma read_matcher_eq k v rest :
  all_chars ident_char k = true -> read_matcher (k +:+ "=" +:+ fmt_q v +:+ rest) = Some (k, v, rest).
Proof.
  intros Hk. unfold read_matcher. rewrite (span_app ident_char) by done.
  change ("=" +:+ fmt_q v +:+ rest) with (String "=" (fmt_q v +:+ rest)). rewrite fmt_q_app.
  cbn [Ascii.eqb andb Bool.eqb]. by rewrite read_literal_quote.
Qed.

Lemma read_matchers_join (l : list (string * string)) rest fuel :
  l <> [] -> (forall k v, (k, v) ∈ l -> all_chars ident_char k = true) -> (length l <= fuel)%nat ->
  read_matchers fuel (strings_Join (map (fun kv => kv.1 +:+ "=" +:+ fmt_q kv.2) l) ", " +:+ String "}" rest) = Some (l, rest).
Proof.
  revert fuel. induction l as [| [k v] l IH]; intros fuel Hne Hk Hf; [done |]. destruct fuel as [| fuel]; [cbn in Hf; lia |].
  assert (all_chars ident_char k = true) as Hk1 by (apply (Hk k v); left).
  destruct l as [| kv l].
  - cbn [map strings_Join read_matchers fst snd]. rewrite !string_app_assoc, read_matcher_eq by done. done.
  - change (strings_Join (map (fun kv => kv.1 +:+ "=" +:+ fmt_q kv.2) ((k, v) :: kv :: l)) ", ")
      with ((k +:+ "=" +:+ fmt_q v) +:+ ", " +:+ strings_Join (map (fun kv => kv.1 +:+ "=" +:+ fmt_q kv.2) (kv :: l)) ", ").
    cbn [read_matchers]. rewrite !string_app_assoc, read_matcher_eq by done.
    change (", " +:+ ?x) with (String "," (String " " x)). cbv beta iota. rewrite IH; [done | done | | cbn in *; lia].
    intros k' v' Hin. apply (Hk k' v'). by right.
Qed.

Lemma read_LogQL_matchers l q fuel :
  l <> [] -> (forall k v, (k, v) ∈ l -> all_chars ident_char k = true) -> (length l <= fuel)%nat ->
  read_LogQL fuel ("{" +:+ strings_Join (map (fun kv => kv.1 +:+ "=" +:+ fmt_q kv.2) l) ", " +:+ "}"
                   +:+ (if q =s "" then "" else " |= " +:+ fmt_q q)) = Some (l, q).
Proof.
  intros Hne Hk Hf. change ("{" +:+ ?x) with (String "{" x). cbn [read_LogQL].
  change ("}" +:+ ?x) with (String "}" x). rewrite read_matchers_join by done.
  destruct (String.eqb_spec q "") as [-> | Hq]; [done |].
  change (" |= " +:+ fmt_q q) with (" |= " +:+ dquote +:+ (quote_body q +:+ dquote)).
  rewrite <- string_app_assoc, strings_CutPrefix_app.
  pose proof (read_literal_quote q "") as Hl. rewrite string_app_nil_r in Hl. by rewrite Hl.
Qed.

(** ** Lemmas: subjects *)

Lemma For_attributed rules co ref : EvidenceRef_Subject ref = For rules co -> attributed rules co ref.
Proof.
  intros E. unfold attributed. rewrite E. destruct (decide (For rules co = ""%string)) as [| Hne]; [by left | right].
  by apply For_claimed.
Qed.

Lemma tally_nonempty streams a : 0 <= a.1 ->
  (fold_left tally_stream streams a).1 <> a.1 -> exists values, values ∈ streams /\ values <> [].
Proof.
  revert a. induction streams as [| vs streams IH]; intros a H0 Hne; [done |]. cbn [fold_left] in Hne.
  destruct vs as [| v vs]; [| exists (v :: vs); split; [left | done]].
  destruct (IH (tally_stream a [])) as (values & Hin & Hv); [cbn; lia | |].
  - intros E. apply Hne. rewrite E. cbn. lia.
  - exists values. split; [by right | done].
Qed.

Ltac run_tool :=
  repeat match goal with
         | H : match ?x with _ => _ end = _ |- _ => destruct x eqn:?; try done
         | H : (if ?b then _ else _) = _ |- _ => destruct b eqn:?; try done
         end; simplify_eq.

(** ** Claims *)

(** C20. Live evidence was seen, and says nothing about a node by itself: whatever the
    model asks, a reference marked live comes from a backend that answered with at least
    one sample, log line, trace or pod, and the node it is stamped with is the one
    authored with the query, or the one the authored rules agree on for the coordinates
    asked, or none. *)
Theorem live_evidence_is_seen_and_attributed {C} (args : string) (now : Time) (c : C) (ref : EvidenceRef) :
  (forall (m : MetricsTool C) decode, Metrics_Run m decode args c = inl ref -> EvidenceRef_Live ref = true ->
     exists q eq s rest, decode args = inl q /\ Metrics_Queries m !! q = Some eq /\
       InstantQuery (Metrics_Client m) (Metrics_BaseURL m) (Query_Query eq) c = inl (s :: rest) /\
       EvidenceRef_Subject ref = Query_Subject eq) /\
  (forall (l : LokiTool C) decode, Loki_Run l decode args now c = inl ref -> EvidenceRef_Live ref = true ->
     exists input, decode args = inl input /\
       search_hit (Loki_Client l) (EvidenceRef_Query ref) c (fun streams => exists values, values ∈ streams /\ values <> []) /\
       attributed (Loki_Subjects l) (mkCoordinates (Loki_Namespace input) "" "" (Loki_Labels input)) ref) /\
  (forall (t : TracesTool C) decode, Traces_Run t decode args now c = inl ref -> EvidenceRef_Live ref = true ->
     exists input, decode args = inl input /\
       search_hit (Traces_Client t) (EvidenceRef_Query ref) c (fun traces => traces <> []) /\
       attributed (Traces_Subjects t) (mkCoordinates (Traces_Namespace input) "" "" (Traces_Labels input)) ref) /\
  (forall (k : KubeTool C) decode, Kube_Run k decode args c = inl ref -> EvidenceRef_Live ref = true ->
     exists input pods, decode args = inl input /\
       Kube_ListPods k (Kube_Namespace input) (Kube_Selector input) c = inl pods /\ pods <> [] /\
       attributed (Kube_Subjects k) (mkCoordinates (Kube_Namespace input) "" "" (Kube_Selector input)) ref).
Proof.
  split; [| split; [| split]].
  - intros m decode E Hl. unfold Metrics_Run in E. run_tool. eauto 10.
  - intros l decode E Hl. unfold Loki_Run in E. run_tool. eexists. split; [done |]. split; [| by apply For_attributed].
    match goal with H : negb _ = false |- _ => apply negb_false_iff, Z.eqb_eq in H; unfold StatusOK in H; subst end.
    eexists _, _, _. split; [| split; [eassumption |]]; [done |].
    match goal with H : fold_left tally_stream ?s ?a = (?z, _), H' : (?z =? 0) = false |- _ =>
      apply (tally_nonempty s a); [done |]; rewrite H; by apply Z.eqb_neq in H' end.
  - intros t decode E Hl. unfold Traces_Run in E. run_tool. eexists. split; [done |]. split; [| by apply For_attributed].
    match goal with H : negb _ = false |- _ => apply negb_false_iff, Z.eqb_eq in H; unfold StatusOK in H; subst end.
    eexists _, _, _. split; [| split; [eassumption |]]; [done |]. intros ->. done.
  - intros k decode E Hl. unfold Kube_Run in E. run_tool. eexists _, _. split; [done |]. split; [eassumption |].
    split; [done | by apply For_attributed].
Qed.

(** A log query asks for exactly the labels that were resolved to a node: if the
    label keys are identifiers, Loki reads the built query back as the namespace
    matcher, one equality matcher per label in key order, and the line filter, whatever
    bytes the namespace, the values and the filter hold. *)
Theorem log_query_reads_back (namespace : string) (labels : gmap string string) (query : string) :
  (forall k, is_Some (labels !! k) -> all_chars ident_char k = true) ->
  read_LogQL (S (size labels)) (buildLogQL namespace labels query)
  = Some (("namespace"%string, namespace) :: map (fun k => (k, label labels k)) (sorted_keys labels), query).
Proof.
  intros Hk. set (l := ("namespace"%string, namespace) :: map (fun k => (k, label labels k)) (sorted_keys labels)).
  assert (buildLogQL namespace labels query =
    "{" +:+ strings_Join (map (fun kv => kv.1 +:+ "=" +:+ fmt_q kv.2) l) ", " +:+ "}" +:+ (if query =s "" then "" else " |= " +:+ fmt_q query)) as ->.
  { unfold buildLogQL, l. cbn [map fst snd]. by rewrite map_map. }
  apply read_LogQL_matchers; [done | |].
  - intros k v [E | (k' & E & Hin)%list_elem_of_fmap]%elem_of_cons; [by injection E as -> -> |]. injection E as -> ->. apply Hk.
    unfold sorted_keys, sort_Strings in Hin. rewrite merge_sort_Permutation in Hin.
    apply list_elem_of_fmap in Hin as ([k'' v'] & -> & Hin). apply elem_of_map_to_list in Hin. by exists v'.
  - unfold l. cbn [length]. rewrite map_length. unfold sorted_keys, sort_Strings. rewrite merge_sort_Permutation, map_length.
    by rewrite length_map_to_list.
Qed.

Definition demo_rules : list SubjectRule :=
  [mkSubjectRule "cart" "" (mkCoordinates "shop" "" "" {[ "app"%string := "cart"%string ]})].

Lemma log_query_reads_back_witness :
  read_LogQL 2 (buildLogQL "shop" {[ "app"%string := "ca" +:+ dquote +:+ "rt" ]} "x") =
    Some ([("namespace", "shop"); ("app", "ca" +:+ dquote +:+ "rt")]%string, "x"%string).
Proof.
  exact (log_query_reads_back "shop" {[ "app"%string := "ca" +:+ dquote +:+ "rt" ]} "x"
    ltac:(intros k [v Hv]; apply lookup_singleton_Some in Hv as [<- _]; reflexivity)).
Defined.

(** the keys are not checked: a key that closes the selector and comments out the rest
    asks for the whole namespace, while the rules still resolve the labels to cart *)
Example label_key_escapes_selector :
  let labels := {[ "a=~" +:+ fmt_q ".*" +:+ "} #" := ""%string; "app"%string := "cart"%string ]} in
  For demo_rules (mkCoordinates "shop" "" "" labels) = "cart"%string /\
  buildLogQL "shop" labels "" = "{namespace=" +:+ fmt_q "shop" +:+ ", a=~" +:+ fmt_q ".*" +:+ "} #=" +:+ fmt_q "" +:+ ", app=" +:+ fmt_q "cart" +:+ "}".
Proof. vm_compute. done. Qed.

(** A trace search does not ask for its namespace: two searches with the same
    labels get the same answer whatever namespaces they name, and each is stamped with
    the node its own namespace resolves to. *)
Theorem trace_query_ignores_namespace {C} (t : TracesTool C) (decode : string -> result tracesInput) (args1 args2 : string)
  (i : tracesInput) (ns2 : string) (now : Time) (c : C) (r1 : EvidenceRef) :
  decode args1 = inl i ->
  decode args2 = inl (mkTracesInput ns2 (Traces_Labels i) (Traces_ErrorsOnly i) (Traces_Limit i) (Traces_Lookback i)) ->
  Traces_Run t decode args1 now c = inl r1 ->
  exists r2, Traces_Run t decode args2 now c = inl r2 /\ EvidenceRef_Query r2 = EvidenceRef_Query r1 /\
    EvidenceRef_Live r2 = EvidenceRef_Live r1 /\ EvidenceRef_Summary r2 = EvidenceRef_Summary r1 /\
    EvidenceRef_Subject r1 = For (Traces_Subjects t) (mkCoordinates (Traces_Namespace i) "" "" (Traces_Labels i)) /\
    EvidenceRef_Subject r2 = For (Traces_Subjects t) (mkCoordinates ns2 "" "" (Traces_Labels i)).
Proof.
  intros H1 H2. unfold Traces_Run. rewrite H1, H2. cbn [Traces_Namespace Traces_Labels Traces_ErrorsOnly Traces_Limit Traces_Lookback].
  intros E. run_tool; eexists; (split; [done |]); cbn; auto 10.
Qed.

Definition demo_traces : TracesTool unit :=
  mkTracesTool _ "http://tempo" (mkSearchClient _ _ (fun _ => None) (fun _ => None)
     (fun _ _ => inl (200, "200 OK"%string, inl [mkTraceHit "t1" "front" "GET /"])))
     [mkSubjectRule "cart" "" (mkCoordinates "shop" "" "" {[ "service"%string := "cart"%string ]})].

Definition demo_traces_input (ns : string) : result tracesInput :=
  inl (mkTracesInput ns {[ "service"%string := "cart"%string ]} true 0 "").

Lemma trace_query_ignores_namespace_witness :
  exists r2, Traces_Run demo_traces demo_traces_input "shop" 0 tt = inl r2 /\
    EvidenceRef_Live r2 = true /\ EvidenceRef_Subject r2 = "cart"%string.
Proof.
  destruct (Traces_Run demo_traces demo_traces_input "dev" 0 tt) as [r1 | e] eqn:E; [| vm_compute in E; discriminate E].
  destruct (trace_query_ignores_namespace demo_traces demo_traces_input "dev" "shop"
    (mkTracesInput "dev" {[ "service"%string := "cart"%string ]} true 0 "") "shop" 0 tt r1 eq_refl eq_refl E)
    as (r2 & E2 & _ & Hl & _ & _ & Hs).
  exists r2. split; [exact E2 |]. split; [| rewrite Hs; vm_compute; reflexivity].
  rewrite Hl. vm_compute in E. injection E as <-. reflexivity.
Defined.
