(* ===== verification/Changes.v ===== *)
(** * internal/evidence: the change sources

    [KubeChangeSource.Changes] (kube_change.go) and [ArgoChangeSource.Changes]
    (argocd.go), which feed the causal scorer of clank through [fanOutChange].

    The Kubernetes API is a parameter that reads the world [C].  An object is the
    fields the code reads of it; an Argo Application is what the [unstructured]
    accessors return ([""], [false] or nothing for a field that is not there), with
    [finishedAt] as [time.Parse] reads it. *)

From Stdlib Require Import Ascii.
From stdpp Require Import sorting.
From S2P Require Import Prelude GoTime GoFloat Decimal Api Contract Publish Hiss ClankScore ClankLedger ClankEngine Converge Subjects Topology Evidence.
Local Open Scope Z_scope.

Definition DefaultIgnoredManagers : list string := ["beat"; "thump-actuator"]%string.
Definition DefaultChangeLookback : Duration := 2 * Hour.

(** ** kube_change.go *)

Record DeploymentCondition : Type := mkDeploymentCondition {
  Cond_Type : string;
  Cond_LastUpdateTime : Time
}.

Record Deployment : Type := mkDeployment {
  Dep_Namespace : string;
  Dep_Name : string;
  Dep_Generation : Z;
  Dep_Conditions : list DeploymentCondition
}.

Record ManagedField : Type := mkManagedField {
  MF_Manager : string;
  MF_Time : option Time
}.

Record ConfigMap : Type := mkConfigMap {
  CM_Namespace : string;
  CM_Name : string;
  CM_ResourceVersion : string;
  CM_ManagedFields : list ManagedField
}.

Record KubeChangeSource (C : Type) : Type := mkKubeChangeSource {
  KC_Deployments : string -> C -> result (list Deployment);
  KC_ConfigMaps : string -> C -> result (list ConfigMap);
  KC_Subjects : list SubjectRule;
  KC_ChangeLookback : Duration;
  KC_IgnoreManagers : option (list string)
}.
Arguments KC_Deployments {C}.
Arguments KC_ConfigMaps {C}.
Arguments KC_Subjects {C}.
Arguments KC_ChangeLookback {C}.
Arguments KC_IgnoreManagers {C}.

Definition DeploymentProgressing : string := "Progressing".

Definition change_event (id typ target : string) (age : Duration) : ChangeEvent :=
  mkChangeEvent id typ target age f0 [] [] age.

Section kube.
Context {C : Type} (k : KubeChangeSource C) (now : Time).

Definition kc_lookback : Duration := if KC_ChangeLookback k <=? 0 then DefaultChangeLookback else KC_ChangeLookback k.
Definition kc_ignored : list string := default DefaultIgnoredManagers (KC_IgnoreManagers k).

(** one condition of a Deployment *)
Definition deploy_event (d : Deployment) (cond : DeploymentCondition) : option ChangeEvent :=
  if negb (Cond_Type cond =s DeploymentProgressing) || IsZero (Cond_LastUpdateTime cond) then None
  else
    let age := Sub now (Cond_LastUpdateTime cond) in
    if (age <? 0) || (kc_lookback <? age) then None
    else
      let target := For (KC_Subjects k) (mkCoordinates (Dep_Namespace d) "Deployment" (Dep_Name d) ∅) in
      if target =s "" then None
      else Some (change_event ("deploy/" +:+ Dep_Namespace d +:+ "/" +:+ Dep_Name d +:+ "/" +:+ fmt_d (Dep_Generation d)) "deploy" target age).

(** the newest write by a manager that is not ignored; the zero time when there is none *)
Definition max_time_step (maxTime : Time) (mf : ManagedField) : Time :=
  match MF_Time mf with
  | None => maxTime
  | Some t =>
      if slices_Contains kc_ignored (MF_Manager mf) || IsZero t then maxTime
      else if IsZero maxTime || After t maxTime then t else maxTime
  end.

Definition max_time (mfs : list ManagedField) : Time := fold_left max_time_step mfs 0.

Definition config_event (cm : ConfigMap) : option ChangeEvent :=
  let maxTime := max_time (CM_ManagedFields cm) in
  if IsZero maxTime then None
  else
    let age := Sub now maxTime in
    if (age <? 0) || (kc_lookback <? age) then None
    else
      let target := For (KC_Subjects k) (mkCoordinates (CM_Namespace cm) "ConfigMap" (CM_Name cm) ∅) in
      if target =s "" then None
      else Some (change_event ("config/" +:+ CM_Namespace cm +:+ "/" +:+ CM_Name cm +:+ "/" +:+ CM_ResourceVersion cm) "config" target age).

(** [namespaces]: the distinct authored ones, sorted *)
Definition add_namespace (l : list string) (rule : SubjectRule) : list string :=
  let ns := Co_Namespace (Rule_Coordinates rule) in
  if (ns =s "") || slices_Contains l ns then l else l ++ [ns].

Definition namespaces : list string := sort_Strings (fold_left add_namespace (KC_Subjects k) []).

Fixpoint namespace_events (nss : list string) (events : list ChangeEvent) (c : C) : result ChangeSnapshot :=
  match nss with
  | [] => inl (mkChangeSnapshot events)
  | ns :: rest =>
      match KC_Deployments k ns c with
      | inr err => inr (errorf_w ("list deployments in " +:+ ns +:+ ": ") err)
      | inl deployments =>
          match KC_ConfigMaps k ns c with
          | inr err => inr (errorf_w ("list configmaps in " +:+ ns +:+ ": ") err)
          | inl configMaps =>
              namespace_events rest
                (events ++ flat_map (fun d => omap (deploy_event d) (Dep_Conditions d)) deployments ++ omap config_event configMaps) c
          end
      end
  end.

(** [Changes]: no authored namespace, no event *)
Definition KubeChangeSource_Changes (c : C) : result ChangeSnapshot := namespace_events namespaces [] c.

End kube.

(** ** argocd.go *)

Record Resource : Type := mkResource {
  Res_Name : string;
  Res_Kind : string;
  Res_Namespace : string
}.

Record Application : Type := mkApplication {
  App_Name : string;
  App_phase : string;
  App_finishedAt : option Time;
  App_automated : bool;
  App_revision : string;
  (** [status.resources]: [None] when it is not a list, an element [None] when it is not an object *)
  App_resources : option (list (option Resource))
}.

Record ArgoChangeSource (C : Type) : Type := mkArgoChangeSource {
  AC_List : C -> result (list Application);
  AC_Subjects : list SubjectRule;
  AC_ChangeLookback : Duration
}.
Arguments AC_List {C}.
Arguments AC_Subjects {C}.
Arguments AC_ChangeLookback {C}.

Definition add_subject (idx : list SubjectRule) (names : list string) (r : option Resource) : list string :=
  match r with
  | None => names
  | Some res =>
      let subject := For idx (mkCoordinates (Res_Namespace res) (Res_Kind res) (Res_Name res) ∅) in
      if (subject =s "") || slices_Contains names subject then names else names ++ [subject]
  end.

Definition managedSubjects (app : Application) (idx : list SubjectRule) : list string :=
  match App_resources app with
  | None => []
  | Some resources => fold_left (add_subject idx) resources []
  end.

Definition appEvents (app : Application) (now : Time) (lookback : Duration) (idx : list SubjectRule) : list ChangeEvent :=
  if negb (App_phase app =s "Succeeded") then []
  else match App_finishedAt app with
       | None => []
       | Some finishedAt =>
           let age := Sub now finishedAt in
           if lookback <? age then []
           else
             let typ := if App_automated app then "rollback"%string else "deploy"%string in
             let targets := match managedSubjects app idx with [] => [App_Name app] | ts => ts end in
             map (fun target => change_event (App_revision app) typ target age) targets
       end.

(** [now] is read once per application *)
Definition ArgoChangeSource_Changes {C} (a : ArgoChangeSource C) (now : Application -> Time) (c : C) : result ChangeSnapshot :=
  match AC_List a c with
  | inr err => inr (errorf_w "list argocd applications: " err)
  | inl apps =>
      let lookback := if AC_ChangeLookback a <=? 0 then DefaultChangeLookback else AC_ChangeLookback a in
      inl (mkChangeSnapshot (flat_map (fun app => appEvents app (now app) lookback (AC_Subjects a)) apps))
  end.

(** ** Specifications *)

(** a rollout of an object of an authored namespace *)
Definition a_rollout {C} (k : KubeChangeSource C) (now : Time) (c : C) (e : ChangeEvent) : Prop :=
  exists ns ds d cond, KC_Deployments k ns c = inl ds /\ d ∈ ds /\ cond ∈ Dep_Conditions d /\
    Cond_Type cond = DeploymentProgressing /\ ChangeEvent_Age e = Sub now (Cond_LastUpdateTime cond) /\
    ChangeEvent_Type e = "deploy"%string /\
    claimed (KC_Subjects k) (mkCoordinates (Dep_Namespace d) "Deployment" (Dep_Name d) ∅) (ChangeEvent_Target e).

(** an edit of a ConfigMap, dated by the newest write of a manager that is not ignored *)
Definition an_edit {C} (k : KubeChangeSource C) (now : Time) (c : C) (e : ChangeEvent) : Prop :=
  exists ns cms cm mf t, KC_ConfigMaps k ns c = inl cms /\ cm ∈ cms /\ mf ∈ CM_ManagedFields cm /\
    MF_Time mf = Some t /\ MF_Manager mf ∉ kc_ignored k /\ ChangeEvent_Age e = Sub now t /\
    (forall mf' t', mf' ∈ CM_ManagedFields cm -> MF_Time mf' = Some t' -> MF_Manager mf' ∉ kc_ignored k -> IsZero t' = false -> t' <= t) /\
    ChangeEvent_Type e = "config"%string /\
    claimed (KC_Subjects k) (mkCoordinates (CM_Namespace cm) "ConfigMap" (CM_Name cm) ∅) (ChangeEvent_Target e).

(** ** Lemmas *)

Section kube_lemmas.
Context {C : Type} (k : KubeChangeSource C) (now : Time).

(** the dated writes that count *)
Definition counts (mfs : list ManagedField) (t : Time) : Prop :=
  IsZero t = false /\ exists mf, mf ∈ mfs /\ MF_Time mf = Some t /\ MF_Manager mf ∉ kc_ignored k.

Lemma counts_snoc mfs mf t :
  counts (mfs ++ [mf]) t <-> counts mfs t \/ (IsZero t = false /\ MF_Time mf = Some t /\ MF_Manager mf ∉ kc_ignored k).
Proof.
  unfold counts. setoid_rewrite elem_of_app. setoid_rewrite list_elem_of_singleton. split.
  - intros (Hz & mf' & [Hin | ->] & Ht & Hm); [left | right]; eauto 6.
  - intros [(Hz & mf' & ? & ? & ?) | (Hz & ? & ?)]; (split; [exact Hz |]); eauto 6.
Qed.

(** [max_time] is the newest write that counts *)
Lemma max_time_spec mfs :
  (max_time k mfs = 0 /\ forall t, ~ counts mfs t) \/
  (counts mfs (max_time k mfs) /\ forall t, counts mfs t -> t <= max_time k mfs).
Proof.
  unfold max_time. induction mfs as [| mf mfs IH] using rev_ind; [left; split; [done |]; intros t (_ & mf & Hin & _); set_solver |].
  rewrite fold_left_app. cbn [fold_left]. set (m := fold_left (max_time_step k) mfs 0) in *. setoid_rewrite counts_snoc.
  assert (forall t, (IsZero t = false /\ MF_Time mf = Some t /\ MF_Manager mf ∉ kc_ignored k) ->
            max_time_step k m mf = (if IsZero m || After t m then t else m)) as Hcount.
  { intros t (Hz & Ht & Hm). unfold max_time_step. rewrite Ht, Hz. rewrite <- slices_Contains_iff in Hm.
    by destruct (slices_Contains (kc_ignored k) (MF_Manager mf)). }
  assert ((forall t, ~ (IsZero t = false /\ MF_Time mf = Some t /\ MF_Manager mf ∉ kc_ignored k)) -> max_time_step k m mf = m) as Hskip.
  { intros Hn. unfold max_time_step. destruct (MF_Time mf) as [t |]; [| done]. destruct (slices_Contains (kc_ignored k) (MF_Manager mf)) eqn:Ec; [done |].
    destruct (IsZero t) eqn:Ez; [done |]. destruct (Hn t). rewrite <- slices_Contains_iff, Ec. done. }
  destruct (MF_Time mf) as [t |] eqn:Et.
  2: { rewrite Hskip by naive_solver. destruct IH as [[-> Hno] | [Hc Hmax]]; [left | right]; naive_solver. }
  destruct (decide (MF_Manager mf ∉ kc_ignored k /\ IsZero t = false)) as [[Hm Hz] | Hn].
  2: { rewrite Hskip by naive_solver. destruct IH as [[-> Hno] | [Hc Hmax]]; [left | right]; naive_solver. }
  rewrite (Hcount t) by done. right. unfold After. destruct IH as [[-> Hno] | [Hc Hmax]].
  - cbn [IsZero Z.eqb orb]. split; [by right |]. intros t' [Hc' | (_ & [= ->] & _)]; [by destruct (Hno t') | lia].
  - destruct Hc as [Hzm Hc]. rewrite Hzm. cbn [orb]. destruct (m <? t) eqn:E.
    + apply Z.ltb_lt in E. split; [by right |]. intros t' [Hc' | (_ & [= ->] & _)]; [specialize (Hmax t' Hc'); lia | lia].
    + apply Z.ltb_ge in E. split; [left; by split |]. intros t' [Hc' | (_ & [= ->] & _)]; [by apply Hmax | lia].
Qed.

Lemma deploy_event_spec d cond e :
  deploy_event k now d cond = Some e <->
  Cond_Type cond = DeploymentProgressing /\ IsZero (Cond_LastUpdateTime cond) = false /\
  0 <= Sub now (Cond_LastUpdateTime cond) <= kc_lookback k /\
  exists target, target <> ""%string /\ For (KC_Subjects k) (mkCoordinates (Dep_Namespace d) "Deployment" (Dep_Name d) ∅) = target /\
    e = change_event ("deploy/" +:+ Dep_Namespace d +:+ "/" +:+ Dep_Name d +:+ "/" +:+ fmt_d (Dep_Generation d)) "deploy" target
          (Sub now (Cond_LastUpdateTime cond)).
Proof.
  unfold deploy_event. destruct (String.eqb_spec (Cond_Type cond) DeploymentProgressing), (IsZero (Cond_LastUpdateTime cond)); cbn [negb orb];
    try naive_solver.
  destruct ((_ <? 0) || (kc_lookback k <? _)) eqn:E.
  - split; [done |]. intros (_ & _ & Hr & _). apply orb_true_iff in E. lia.
  - apply orb_false_iff in E as [E1 E2]. destruct (String.eqb_spec (For (KC_Subjects k) (mkCoordinates (Dep_Namespace d) "Deployment" (Dep_Name d) ∅)) "");
      [naive_solver |]. split.
    + intros [= <-]. split; [done |]. split; [done |]. split; [lia |]. eauto.
    + intros (_ & _ & _ & t & _ & <- & ->). done.
Qed.

Lemma config_event_rollup cm e :
  config_event k now cm = Some e ->
  let m := max_time k (CM_ManagedFields cm) in
  IsZero m = false /\ 0 <= Sub now m <= kc_lookback k /\ ChangeEvent_Age e = Sub now m /\ ChangeEvent_Type e = "config"%string /\
  claimed (KC_Subjects k) (mkCoordinates (CM_Namespace cm) "ConfigMap" (CM_Name cm) ∅) (ChangeEvent_Target e).
Proof.
  unfold config_event. cbv zeta. set (m := max_time k (CM_ManagedFields cm)). destruct (IsZero m); [done |].
  destruct ((_ <? 0) || (kc_lookback k <? _)) eqn:E; [done |]. apply orb_false_iff in E as [E1 E2].
  destruct (String.eqb_spec (For (KC_Subjects k) (mkCoordinates (CM_Namespace cm) "ConfigMap" (CM_Name cm) ∅)) ""); [done |].
  intros [= <-]. split; [done |]. split; [lia |]. split; [done |]. split; [done |]. by apply For_claimed.
Qed.

Lemma namespace_events_inv nss events c snap (P : ChangeEvent -> Prop) :
  namespace_events k now nss events c = inl snap -> (forall e, e ∈ events -> P e) ->
  (forall ns ds d cond e, KC_Deployments k ns c = inl ds -> d ∈ ds -> cond ∈ Dep_Conditions d -> deploy_event k now d cond = Some e -> P e) ->
  (forall ns cms cm e, KC_ConfigMaps k ns c = inl cms -> cm ∈ cms -> config_event k now cm = Some e -> P e) ->
  forall e, e ∈ ChangeSnapshot_Events snap -> P e.
Proof.
  intros E He Hd Hc. revert events E He. induction nss as [| ns nss IH]; intros events E He; [by injection E as <- |].
  cbn [namespace_events] in E. destruct (KC_Deployments k ns c) as [ds |] eqn:Ed; [| done].
  destruct (KC_ConfigMaps k ns c) as [cms |] eqn:Ec; [| done]. apply (IH _ E).
  intros e [Hin | [Hin | Hin]%elem_of_app]%elem_of_app; [by apply He | |].
  - apply list_elem_of_In, in_flat_map in Hin as (d & Hd1%list_elem_of_In & Hd2%list_elem_of_In).
    apply list_elem_of_omap in Hd2 as (cond & Hcond & Hev). eauto.
  - apply list_elem_of_omap in Hin as (cm & Hcm & Hev). eauto.
Qed.

End kube_lemmas.

(** ** Claims *)

(** Every change event of the cluster is placed and dated: its target is the node
    the authored rules agree on for the object, its age is at most the lookback and not
    negative, and it is either a rollout of a Deployment or an edit of a ConfigMap dated
    by its newest write, the writes of thump's own managers left out. *)
Theorem change_events_are_placed {C} (k : KubeChangeSource C) (now : Time) (c : C) (snap : ChangeSnapshot) (e : ChangeEvent) :
  KubeChangeSource_Changes k now c = inl snap -> e ∈ ChangeSnapshot_Events snap ->
  0 <= ChangeEvent_Age e <= kc_lookback k /\ ChangeEvent_HistoricalStaleness e = ChangeEvent_Age e /\
  (a_rollout k now c e \/ an_edit k now c e).
Proof.
  intros E. apply (namespace_events_inv k now (namespaces k) [] c snap
    (fun e => 0 <= ChangeEvent_Age e <= kc_lookback k /\ ChangeEvent_HistoricalStaleness e = ChangeEvent_Age e /\
              (a_rollout k now c e \/ an_edit k now c e)) E); clear e.
  - intros e Hin. by apply not_elem_of_nil in Hin.
  - intros ns ds d cond e Hds Hd Hcond (Ht & _ & Hr & target & Hne & Hf & ->)%deploy_event_spec. split; [exact Hr |]. split; [done |].
    left. exists ns, ds, d, cond. do 6 (split; [done |]). by apply For_claimed.
  - intros ns cms cm e Hcms Hcm Hev. assert (ChangeEvent_HistoricalStaleness e = ChangeEvent_Age e) as Hst.
    { unfold config_event in Hev. repeat case_match; simplify_eq; done. }
    apply config_event_rollup in Hev as (Hz & Hr & Ha & Ht & Hcl). rewrite Ha. split; [done |]. split; [congruence |]. right.
    destruct (max_time_spec k (CM_ManagedFields cm)) as [[Hm _] | [(_ & mf & Hmf & Htm & Hman) Hmax]]; [by rewrite Hm in Hz |].
    exists ns, cms, cm, mf, (max_time k (CM_ManagedFields cm)). do 5 (split; [done |]). split; [done |]. split; [| by split].
    intros mf' t' Hmf' Ht' Hman' Hz'. apply Hmax. split; [done |]. by exists mf'.
Qed.

(** ** A concrete cluster *)

Definition demo_now : Time := unixToInternal * Second.

Definition demo_index : list SubjectRule := [mkSubjectRule "cart" "" (mkCoordinates "shop" "" "" ∅)].

(** the Deployment was just restarted by thump's actuator; its ConfigMap was last
    written by the actuator and, ten minutes ago, by an operator *)
Definition demo_source : KubeChangeSource unit :=
  mkKubeChangeSource _
    (fun ns _ => inl (if ns =s "shop" then [mkDeployment "shop" "cart" 7 [mkDeploymentCondition "Progressing" (demo_now - Second)]] else []))
    (fun ns _ => inl (if ns =s "shop" then [mkConfigMap "shop" "flags" "41"
        [mkManagedField "kubectl" (Some (demo_now - 10 * Minute)); mkManagedField "thump-actuator" (Some (demo_now - Second))]] else []))
    demo_index 0 None.

Lemma change_events_are_placed_witness :
  let e := change_event "config/shop/flags/41" "config" "cart" (10 * Minute) in
  0 <= ChangeEvent_Age e <= kc_lookback demo_source /\ ChangeEvent_HistoricalStaleness e = ChangeEvent_Age e /\
  (a_rollout demo_source demo_now tt e \/ an_edit demo_source demo_now tt e).
Proof.
  apply (change_events_are_placed demo_source demo_now tt
    (mkChangeSnapshot [change_event "deploy/shop/cart/7" "deploy" "cart" Second; change_event "config/shop/flags/41" "config" "cart" (10 * Minute)])).
  - vm_compute. reflexivity.
  - right. left.
Defined.

(** the actuator's own rollout is reported: only ConfigMap writes are filtered by manager *)
Example own_rollout_is_reported :
  match KubeChangeSource_Changes demo_source demo_now tt with
  | inl snap => change_event "deploy/shop/cart/7" "deploy" "cart" Second ∈ ChangeSnapshot_Events snap
  | inr _ => False
  end.
Proof. vm_compute. left. Qed.

(** an Argo sync dated in the future is reported with its negative age *)
Example future_sync_is_reported :
  map ChangeEvent_Age (appEvents (mkApplication "shop" "Succeeded" (Some (demo_now + Hour)) false "abc" None) demo_now Hour demo_index) = [- Hour].
Proof. vm_compute. reflexivity. Qed.

(** and its temporal score is above one *)
Example future_sync_scores_above_one : flt f1 (temporalScore (- Hour) (30 * Minute)) = true.
Proof. vm_compute. reflexivity. Qed.
