(* ===== verification/Config.v ===== *)
(** * internal/config: a beat's environment, and clank's tools built from it

    The loader of config.go accumulates what is wrong with the environment instead of
    stopping at the first variable; it is the state monad [loader].  The environment is
    the function [getenv]; of [net/url] the model has the scheme of a URL, the grammar of
    what follows it being the parameter [url_valid].  [buildTools] of
    internal/clank/clank.go is the client of a loaded configuration. *)

From Stdlib Require Import Ascii.
From S2P Require Import Prelude GoTime GoFloat Decimal Strings GoParse ClankEngine Subjects Converge Evidence.
Local Open Scope Z_scope.

(** ** Standard library *)

Definition is_letter (c : ascii) : bool :=
  let n := nat_of_ascii (lower c) in (97 <=? n)%nat && (n <=? 122)%nat.

(** [net/url.getScheme]: the text before the first colon when it can be a scheme, nothing
    when there is none, an error when it is empty *)
Fixpoint scheme_from (pre s : string) : result string :=
  match s with
  | EmptyString => inl ""%string
  | String c s' =>
      if is_letter c then scheme_from (pre +:+ String c "") s'
      else if negb (bool_decide (digit c = None)) || Ascii.eqb c "+" || Ascii.eqb c "-" || Ascii.eqb c "." then
        if pre =s "" then inl ""%string else scheme_from (pre +:+ String c "") s'
      else if Ascii.eqb c ":" then
        if pre =s "" then inr (errors_New "missing protocol scheme") else inl pre
      else inl ""%string
  end.

(** the [Scheme] of [url.Parse(v)]: the text is cut at the fragment first *)
Definition url_Scheme (url_valid : string -> bool) (v : string) : result string :=
  match scheme_from "" v with
  | inr err => inr err
  | inl s => if url_valid v then inl (lower_all s) else inr (errors_New "invalid URL")
  end.

(** [strconv.ParseBool] *)
Definition ParseBool (str : string) : result bool :=
  if existsb (String.eqb str) ["1"; "t"; "T"; "TRUE"; "true"; "True"]%string then inl true
  else if existsb (String.eqb str) ["0"; "f"; "F"; "FALSE"; "false"; "False"]%string then inl false
  else inr (errorf_w ("strconv.ParseBool: parsing " +:+ fmt_q str +:+ ": ") ErrSyntax).

(** [base64.StdEncoding.DecodeString] *)
Definition b64_val (c : ascii) : option Z :=
  let n := Z.of_nat (nat_of_ascii c) in
  if (65 <=? n) && (n <=? 90) then Some (n - 65)
  else if (97 <=? n) && (n <=? 122) then Some (n - 71)
  else if (48 <=? n) && (n <=? 57) then Some (n + 4)
  else if Ascii.eqb c "+" then Some 62
  else if Ascii.eqb c "/" then Some 63
  else None.

Definition CorruptInputError (si : Z) : error := errors_New ("illegal base64 data at input byte " +:+ fmt_d si).

Definition byte_of (n : Z) : ascii := ascii_of_nat (Z.to_nat (n mod 256)).

Definition is_line_break (c : ascii) : bool := Ascii.eqb c "010" || Ascii.eqb c "013".

(** after the padding only line breaks may follow *)
Fixpoint b64_end (s : string) (si : Z) (out : string) : result string :=
  match s with
  | EmptyString => inl out
  | String c s' => if is_line_break c then b64_end s' (si + 1) out else inr (CorruptInputError si)
  end.

(** the second of two padding bytes *)
Fixpoint b64_pad (s : string) (si : Z) (out : string) : result string :=
  match s with
  | EmptyString => inr (CorruptInputError si)
  | String c s' =>
      if is_line_break c then b64_pad s' (si + 1) out
      else if Ascii.eqb c "=" then b64_end s' (si + 1) out else inr (CorruptInputError (si - 1))
  end.

(** [q] are the digits of the current quantum, [si] the offset of [s] in the text *)
Fixpoint b64_decode (s : string) (si : Z) (q : list Z) (out : string) : result string :=
  match s with
  | EmptyString => match q with [] => inl out | _ => inr (CorruptInputError (si - Z.of_nat (length q))) end
  | String c s' =>
      match b64_val c, q with
      | Some d, [x; y; z] =>
          b64_decode s' (si + 1) [] (out +:+ String (byte_of (x * 4 + y / 16)) (String (byte_of (y * 16 + z / 4)) (String (byte_of (z * 64 + d)) "")))
      | Some d, _ => b64_decode s' (si + 1) (q ++ [d]) out
      | None, _ =>
          if is_line_break c then b64_decode s' (si + 1) q out
          else if Ascii.eqb c "=" then
            match q with
            | [x; y] => b64_pad s' (si + 1) (out +:+ String (byte_of (x * 4 + y / 16)) "")
            | [x; y; z] => b64_end s' (si + 1) (out +:+ String (byte_of (x * 4 + y / 16)) (String (byte_of (y * 16 + z / 4)) ""))
            | _ => inr (CorruptInputError si)
            end
          else inr (CorruptInputError si)
      end
  end.

Definition DecodeString (s : string) : result string := b64_decode s 0 [] "".

(** ** The loader *)

(** [l *loader]: the errors so far *)
Definition loader (A : Type) : Type := list error -> A * list error.

Definition pure {A} (x : A) : loader A := fun errs => (x, errs).

Definition load {A B} (m : loader A) (k : A -> loader B) : loader B := fun errs => let '(x, errs') := m errs in k x errs'.

Declare Scope loader_scope.
Delimit Scope loader_scope with loader.
Notation "x <- m ;; k" := (load m (fun x => k)) (at level 100, m at next level, right associativity) : loader_scope.
Local Open Scope loader_scope.

(** [l.errs = append(l.errs, e)] *)
Definition complain (e : error) : loader unit := fun errs => (tt, errs ++ [e]).

Definition when (b : bool) (m : loader unit) : loader unit := if b then m else pure tt.

(** [l.err()] at the end of a load *)
Definition loaded {A} (m : loader A) : A * option error := let '(x, errs) := m [] in (x, errors_Join errs).

Section config.
Context (getenv : string -> string) (url_valid : string -> bool).

Definition Require_var (name : string) : loader string :=
  let v := getenv name in
  _ <- when (v =s "") (complain (errors_New (name +:+ " is required"))) ;; pure v.

Definition Optional_var (name : string) : loader string := pure (getenv name).

Definition OptionalDuration (name : string) (def : Duration) : loader Duration :=
  let v := getenv name in
  if v =s "" then pure def
  else match ParseDuration v with
       | inl d => pure d
       | inr err => _ <- complain (errorf_w (name +:+ ": invalid duration " +:+ fmt_q v +:+ ": ") err) ;; pure def
       end.

Definition scheme_allowed (v : string) (allowed : list string) : bool :=
  match url_Scheme url_valid v with inl s => existsb (String.eqb s) allowed | inr _ => false end.

Definition list_text (l : list string) : string := "[" +:+ strings_Join l " " +:+ "]".

Definition scheme_error (name v : string) (allowed : list string) : error :=
  errors_New (name +:+ ": scheme must be one of " +:+ list_text allowed +:+ ", got " +:+ fmt_q v).

Definition checkScheme (name v : string) (allowed : list string) : loader unit :=
  if scheme_allowed v allowed then pure tt else complain (scheme_error name v allowed).

Definition RequireURL (name : string) (allowed : list string) : loader string :=
  v <- Require_var name ;;
  if v =s "" then pure v else _ <- checkScheme name v allowed ;; pure v.

Definition OptionalURL (name : string) (allowed : list string) : loader string :=
  v <- Optional_var name ;;
  if v =s "" then pure v else _ <- checkScheme name v allowed ;; pure v.

Definition OptionalBool (name : string) : loader bool :=
  let v := getenv name in
  if v =s "" then pure false
  else match ParseBool v with
       | inl b => pure b
       | inr err => _ <- complain (errorf_w (name +:+ ": invalid bool " +:+ fmt_q v +:+ ": ") err) ;; pure false
       end.

Definition RequireBase64Key (name : string) (n : nat) : loader (option string) :=
  v <- Require_var name ;;
  if v =s "" then pure None
  else match DecodeString v with
       | inr err => _ <- complain (errorf_w (name +:+ ": invalid base64: ") err) ;; pure None
       | inl b =>
           if (String.length b =? n)%nat then pure (Some b)
           else _ <- complain (errors_New (name +:+ ": want " +:+ fmt_d (Z.of_nat n) +:+ " bytes, got " +:+ fmt_d (Z.of_nat (String.length b)))) ;; pure None
       end.

Definition OptionalEnum (name def : string) (allowed : list string) : loader string :=
  let v := getenv name in
  if v =s "" then pure def
  else if existsb (String.eqb v) allowed then pure v
  else _ <- complain (errors_New (name +:+ ": must be one of " +:+ list_text allowed +:+ ", got " +:+ fmt_q v)) ;; pure def.

(** ** The environments *)

Record BrokerStore : Type := mkBrokerStore {
  BS_WALDir : string;
  BS_WALConfig : string;
  BS_S3Endpoint : string;
  BS_S3Bucket : string;
  BS_S3AccessKey : string;
  BS_S3SecretKey : string;
  BS_TLSCertFile : string;
  BS_TLSKeyFile : string;
  BS_TLSCAFile : string;
  BS_SealKey : option string
}.

Definition BrokerStore_zero : BrokerStore := mkBrokerStore "" "" "" "" "" "" "" "" "" None.

Definition loadBrokerStore : loader BrokerStore :=
  walDir <- Require_var "WAL_DIR" ;;
  walConfig <- Require_var "WAL_CONFIG" ;;
  s3Endpoint <- RequireURL "S3_ENDPOINT" ["http"; "https"]%string ;;
  s3Bucket <- Require_var "S3_BUCKET" ;;
  s3AccessKey <- Require_var "S3_ACCESS_KEY" ;;
  s3SecretKey <- Require_var "S3_SECRET_KEY" ;;
  tlsCert <- Require_var "TLS_CERT_FILE" ;;
  tlsKey <- Require_var "TLS_KEY_FILE" ;;
  tlsCA <- Require_var "TLS_CA_FILE" ;;
  sealKey <- RequireBase64Key "THUMP_SEAL_KEY" 32 ;;
  pure (mkBrokerStore walDir walConfig s3Endpoint s3Bucket s3AccessKey s3SecretKey tlsCert tlsKey tlsCA sealKey).

Record ClankConfig : Type := mkClankConfig {
  CC_AnthropicAPIKey : string;
  CC_ActionCatalog : string;
  CC_FailureClasses : string;
  CC_DedupeWindow : Duration;
  CC_NATSURL : string;
  CC_OTLPEndpoint : string;
  CC_PromURL : string;
  CC_EvidenceQueries : string;
  CC_LokiURL : string;
  CC_TempoURL : string;
  CC_WhirCatalog : string;
  CC_WhirStateQueries : string;
  CC_WhirGraphQueries : string;
  CC_WhirGraphWindow : Duration;
  CC_ArgoEnabled : bool;
  CC_Transcripts : string;
  CC_Weights : string;
  CC_Limits : string;
  CC_Inbox : string;
  CC_Outbox : string;
  CC_Outcomes : string;
  CC_Declines : string;
  CC_BrokerStore : BrokerStore
}.

Definition prom_for_whir : error := errors_New "PROM_URL is required when WHIR_CATALOG and WHIR_STATE_QUERIES are set".
Definition prom_for_graph : error := errors_New "PROM_URL is required when WHIR_GRAPH_QUERIES is set".

(** a directory of the offline path: required there, read but ignored with a broker *)
Definition dir_var (broker : bool) (name : string) : loader string := if broker then Optional_var name else Require_var name.

Definition store_for (broker : bool) : loader BrokerStore := if broker then loadBrokerStore else pure BrokerStore_zero.

Definition LoadClank (broker : bool) : ClankConfig * option error :=
  loaded (
    apiKey <- Require_var "ANTHROPIC_API_KEY" ;;
    catalog <- Require_var "ACTION_CATALOG" ;;
    classes <- Require_var "FAILURE_CLASSES" ;;
    dedupe <- OptionalDuration "DEDUPE_WINDOW" Hour ;;
    nats <- OptionalURL "NATS_URL" ["nats"; "tls"]%string ;;
    otlp <- OptionalURL "OTEL_EXPORTER_OTLP_ENDPOINT" ["http"; "https"]%string ;;
    prom <- Optional_var "PROM_URL" ;;
    evidence <- Optional_var "EVIDENCE_QUERIES" ;;
    loki <- Optional_var "LOKI_URL" ;;
    tempo <- Optional_var "TEMPO_URL" ;;
    whirCatalog <- Optional_var "WHIR_CATALOG" ;;
    whirState <- Optional_var "WHIR_STATE_QUERIES" ;;
    whirGraph <- Optional_var "WHIR_GRAPH_QUERIES" ;;
    graphWindow <- OptionalDuration "WHIR_GRAPH_WINDOW" (5 * Minute) ;;
    argo <- OptionalBool "ARGOCD_ENABLED" ;;
    transcripts <- Optional_var "CLANK_TRANSCRIPTS" ;;
    weights <- Require_var "CLANK_WEIGHTS" ;;
    limits <- Require_var "CLANK_LIMITS" ;;
    _ <- when ((whirCatalog <>s "") && (whirState <>s "") && (prom =s "")) (complain prom_for_whir) ;;
    _ <- when ((whirGraph <>s "") && (prom =s "")) (complain prom_for_graph) ;;
    inbox <- dir_var broker "CLANK_INBOX" ;;
    outbox <- dir_var broker "CLANK_OUTBOX" ;;
    outcomes <- dir_var broker "CLANK_OUTCOMES" ;;
    declines <- dir_var broker "CLANK_DECLINES" ;;
    store <- store_for broker ;;
    pure (mkClankConfig apiKey catalog classes dedupe nats otlp prom evidence loki tempo whirCatalog whirState whirGraph graphWindow argo
            transcripts weights limits inbox outbox outcomes declines store)).

Record HissConfig : Type := mkHissConfig {
  HC_Policy : string;
  HC_NATSURL : string;
  HC_OTLPEndpoint : string;
  HC_Inbox : string;
  HC_Outbox : string;
  HC_BrokerStore : BrokerStore;
  HC_ApprovalRequestsEnabled : bool;
  HC_ApprovalRetention : Duration
}.

Definition LoadHiss (broker : bool) : HissConfig * option error :=
  loaded (
    policy <- Require_var "HISS_POLICY" ;;
    nats <- OptionalURL "NATS_URL" ["nats"; "tls"]%string ;;
    otlp <- OptionalURL "OTEL_EXPORTER_OTLP_ENDPOINT" ["http"; "https"]%string ;;
    inbox <- dir_var broker "HISS_INBOX" ;;
    outbox <- dir_var broker "HISS_OUTBOX" ;;
    store <- store_for broker ;;
    enabled <- (if broker then OptionalBool "APPROVALREQUESTS_ENABLED" else pure false) ;;
    retention <- (if broker then OptionalDuration "APPROVALREQUEST_RETENTION" (24 * Hour) else pure 0) ;;
    pure (mkHissConfig policy nats otlp inbox outbox store enabled retention)).

Record RattleConfig : Type := mkRattleConfig {
  RC_PromURL : string;
  RC_NATSURL : string;
  RC_OTLPEndpoint : string;
  RC_WhirCatalog : string;
  RC_WhirStateQueries : string;
  RC_WatchPath : string;
  RC_QueryConfig : string;
  RC_Traffic : string;
  RC_Outbox : string;
  RC_BrokerStore : BrokerStore
}.

Definition LoadRattle (broker : bool) : RattleConfig * option error :=
  loaded (
    prom <- Require_var "PROM_URL" ;;
    nats <- OptionalURL "NATS_URL" ["nats"; "tls"]%string ;;
    otlp <- OptionalURL "OTEL_EXPORTER_OTLP_ENDPOINT" ["http"; "https"]%string ;;
    whirCatalog <- Optional_var "WHIR_CATALOG" ;;
    whirState <- Optional_var "WHIR_STATE_QUERIES" ;;
    watch <- Require_var "RATTLE_WATCH" ;;
    query <- Require_var "RATTLE_QUERY_CONFIG" ;;
    traffic <- Optional_var "RATTLE_TRAFFIC" ;;
    outbox <- Optional_var "RATTLE_OUTBOX" ;;
    store <- store_for broker ;;
    pure (mkRattleConfig prom nats otlp whirCatalog whirState watch query traffic outbox store)).

Record ThumpConfig : Type := mkThumpConfig {
  TC_ActionCatalog : string;
  TC_Executor : string;
  TC_KillSwitchPath : string;
  TC_NATSURL : string;
  TC_OTLPEndpoint : string;
  TC_PromURL : string;
  TC_EvidenceQueries : string;
  TC_SlackWebhookURL : string;
  TC_ForgeRepo : string;
  TC_ForgeToken : string;
  TC_Inbox : string;
  TC_Outbox : string;
  TC_BrokerStore : BrokerStore
}.

Definition LoadThump (broker : bool) : ThumpConfig * option error :=
  loaded (
    catalog <- Require_var "ACTION_CATALOG" ;;
    executor <- OptionalEnum "THUMP_EXECUTOR" "dry" ["dry"; "live"]%string ;;
    killSwitch <- Optional_var "THUMP_KILLSWITCH" ;;
    nats <- OptionalURL "NATS_URL" ["nats"; "tls"]%string ;;
    otlp <- OptionalURL "OTEL_EXPORTER_OTLP_ENDPOINT" ["http"; "https"]%string ;;
    prom <- Optional_var "PROM_URL" ;;
    evidence <- Optional_var "EVIDENCE_QUERIES" ;;
    slack <- Optional_var "SLACK_WEBHOOK_URL" ;;
    forgeRepo <- Optional_var "FORGE_REPO" ;;
    forgeToken <- Optional_var "FORGE_TOKEN" ;;
    inbox <- dir_var broker "THUMP_INBOX" ;;
    outbox <- dir_var broker "THUMP_OUTBOX" ;;
    store <- store_for broker ;;
    pure (mkThumpConfig catalog executor killSwitch nats otlp prom evidence slack forgeRepo forgeToken inbox outbox store)).

Record Bootstrap : Type := mkBootstrap {
  Boot_NATSURL : string;
  Boot_TLSCertFile : string;
  Boot_TLSKeyFile : string;
  Boot_TLSCAFile : string
}.

Definition LoadBootstrap : Bootstrap * option error :=
  loaded (
    nats <- RequireURL "NATS_URL" ["nats"; "tls"]%string ;;
    cert <- Require_var "TLS_CERT_FILE" ;;
    key <- Require_var "TLS_KEY_FILE" ;;
    ca <- Require_var "TLS_CA_FILE" ;;
    pure (mkBootstrap nats cert key ca)).

Record CorpusConfig : Type := mkCorpusConfig {
  MC_S3Endpoint : string;
  MC_S3Bucket : string;
  MC_S3AccessKey : string;
  MC_S3SecretKey : string
}.

Definition LoadCorpus : CorpusConfig * option error :=
  loaded (
    endpoint <- RequireURL "S3_ENDPOINT" ["http"; "https"]%string ;;
    bucket <- Require_var "S3_BUCKET" ;;
    access <- Require_var "S3_ACCESS_KEY" ;;
    secret <- Require_var "S3_SECRET_KEY" ;;
    pure (mkCorpusConfig endpoint bucket access secret)).

Record ProbeConfig : Type := mkProbeConfig {
  PC_AnthropicAPIKey : string;
  PC_ActionCatalog : string;
  PC_FailureClasses : string;
  PC_Weights : string;
  PC_Limits : string;
  PC_PromURL : string;
  PC_EvidenceQueries : string;
  PC_LokiURL : string;
  PC_WhirCatalog : string;
  PC_WhirStateQueries : string
}.

Definition LoadProbe : ProbeConfig * option error :=
  loaded (
    apiKey <- Require_var "ANTHROPIC_API_KEY" ;;
    catalog <- Require_var "ACTION_CATALOG" ;;
    classes <- Require_var "FAILURE_CLASSES" ;;
    weights <- Require_var "CLANK_WEIGHTS" ;;
    limits <- Require_var "CLANK_LIMITS" ;;
    prom <- Optional_var "PROM_URL" ;;
    evidence <- Optional_var "EVIDENCE_QUERIES" ;;
    loki <- Optional_var "LOKI_URL" ;;
    whirCatalog <- Optional_var "WHIR_CATALOG" ;;
    whirState <- Optional_var "WHIR_STATE_QUERIES" ;;
    pure (mkProbeConfig apiKey catalog classes weights limits prom evidence loki whirCatalog whirState)).

End config.

(** ** clank's evidence tools *)

Inductive evidence_tool (C : Type) : Type :=
| TheMetricsTool (t : MetricsTool C)
| TheLokiTool (t : LokiTool C)
| TheTracesTool (t : TracesTool C)
| TheKubeTool (t : KubeTool C).
Arguments TheMetricsTool {C}. Arguments TheLokiTool {C}. Arguments TheTracesTool {C}. Arguments TheKubeTool {C}.

(** the HTTP clients of the backends; the kube client is nil outside a cluster *)
Record Backends (C : Type) : Type := mkBackends {
  Be_Prom : Client C;
  Be_Loki : SearchClient C (list (list (string * string)));
  Be_Tempo : SearchClient C (list TraceHit);
  Be_Kube : option (string -> gmap string string -> C -> result (list Pod))
}.
Arguments Be_Prom {C}. Arguments Be_Loki {C}. Arguments Be_Tempo {C}. Arguments Be_Kube {C}.

Definition buildTools {C} (cfg : ClankConfig) (be : Backends C) (ev : EvidenceConfig) : gmap string (evidence_tool C) :=
  let tools := ∅ in
  let tools := if (CC_PromURL cfg =s "") || (CC_EvidenceQueries cfg =s "") then tools
               else <["metrics" := TheMetricsTool (mkMetricsTool (CC_PromURL cfg) (Be_Prom be) (Evidence_Queries ev))]> tools in
  let tools := if CC_LokiURL cfg =s "" then tools
               else <["loki" := TheLokiTool (mkLokiTool C (CC_LokiURL cfg) (Be_Loki be) (Evidence_Index ev))]> tools in
  let tools := if CC_TempoURL cfg =s "" then tools
               else <["traces" := TheTracesTool (mkTracesTool C (CC_TempoURL cfg) (Be_Tempo be) (Evidence_Index ev))]> tools in
  match Be_Kube be with
  | Some list => <["kube" := TheKubeTool (mkKubeTool C list (Evidence_Index ev))]> tools
  | None => tools
  end.

(** ** What an environment must satisfy

    A rule is one line of a loader; [problem] is what that line adds to the error. *)

Inductive rule : Type :=
| Needs (name : string)
| NeedsURL (name : string) (allowed : list string)
| MayURL (name : string) (allowed : list string)
| MayDuration (name : string)
| MayBool (name : string)
| MayEnum (name : string) (allowed : list string)
| NeedsKey (name : string) (n : nat)
| NeedsPromFor (names : list string) (e : error).

Section rules.
Context (getenv : string -> string) (url_valid : string -> bool).

Definition bad_scheme (name : string) (allowed : list string) : list error :=
  if scheme_allowed url_valid (getenv name) allowed then [] else [scheme_error name (getenv name) allowed].

Definition problem (r : rule) : list error :=
  match r with
  | Needs name => if getenv name =s "" then [errors_New (name +:+ " is required")] else []
  | NeedsURL name allowed => if getenv name =s "" then [errors_New (name +:+ " is required")] else bad_scheme name allowed
  | MayURL name allowed => if getenv name =s "" then [] else bad_scheme name allowed
  | MayDuration name =>
      if getenv name =s "" then []
      else match ParseDuration (getenv name) with inl _ => [] | inr err => [errorf_w (name +:+ ": invalid duration " +:+ fmt_q (getenv name) +:+ ": ") err] end
  | MayBool name =>
      if getenv name =s "" then []
      else match ParseBool (getenv name) with inl _ => [] | inr err => [errorf_w (name +:+ ": invalid bool " +:+ fmt_q (getenv name) +:+ ": ") err] end
  | MayEnum name allowed =>
      if (getenv name =s "") || existsb (String.eqb (getenv name)) allowed then []
      else [errors_New (name +:+ ": must be one of " +:+ list_text allowed +:+ ", got " +:+ fmt_q (getenv name))]
  | NeedsKey name n =>
      if getenv name =s "" then [errors_New (name +:+ " is required")]
      else match DecodeString (getenv name) with
           | inr err => [errorf_w (name +:+ ": invalid base64: ") err]
           | inl b => if (String.length b =? n)%nat then []
                      else [errors_New (name +:+ ": want " +:+ fmt_d (Z.of_nat n) +:+ " bytes, got " +:+ fmt_d (Z.of_nat (String.length b)))]
           end
  | NeedsPromFor names e => if forallb (fun n => getenv n <>s "") names && (getenv "PROM_URL" =s "") then [e] else []
  end.

(** what the rule asks for, in words of the environment *)
Definition satisfied (r : rule) : Prop :=
  match r with
  | Needs name => getenv name <> ""
  | NeedsURL name allowed => getenv name <> "" /\ exists s, url_Scheme url_valid (getenv name) = inl s /\ s ∈ allowed
  | MayURL name allowed => getenv name <> "" -> exists s, url_Scheme url_valid (getenv name) = inl s /\ s ∈ allowed
  | MayDuration name => getenv name <> "" -> exists d, ParseDuration (getenv name) = inl d
  | MayBool name => getenv name <> "" -> exists b, ParseBool (getenv name) = inl b
  | MayEnum name allowed => getenv name <> "" -> getenv name ∈ allowed
  | NeedsKey name n => exists b, getenv name <> "" /\ DecodeString (getenv name) = inl b /\ String.length b = n
  | NeedsPromFor names _ => Forall (fun n => getenv n <> "") names -> getenv "PROM_URL" <> ""
  end.

Definition store_rules : list rule :=
  [Needs "WAL_DIR"; Needs "WAL_CONFIG"; NeedsURL "S3_ENDPOINT" ["http"; "https"]%string; Needs "S3_BUCKET"; Needs "S3_ACCESS_KEY";
   Needs "S3_SECRET_KEY"; Needs "TLS_CERT_FILE"; Needs "TLS_KEY_FILE"; Needs "TLS_CA_FILE"; NeedsKey "THUMP_SEAL_KEY" 32].

Definition nats_rules : list rule := [MayURL "NATS_URL" ["nats"; "tls"]%string; MayURL "OTEL_EXPORTER_OTLP_ENDPOINT" ["http"; "https"]%string].

Definition path_rules (broker : bool) (dirs : list string) : list rule := if broker then store_rules else map Needs dirs.

Definition clank_rules (broker : bool) : list rule :=
  ([Needs "ANTHROPIC_API_KEY"; Needs "ACTION_CATALOG"; Needs "FAILURE_CLASSES"; MayDuration "DEDUPE_WINDOW"] ++ nats_rules
   ++ [MayDuration "WHIR_GRAPH_WINDOW"; MayBool "ARGOCD_ENABLED"; Needs "CLANK_WEIGHTS"; Needs "CLANK_LIMITS";
       NeedsPromFor ["WHIR_CATALOG"; "WHIR_STATE_QUERIES"]%string prom_for_whir; NeedsPromFor ["WHIR_GRAPH_QUERIES"]%string prom_for_graph]
   ++ path_rules broker ["CLANK_INBOX"; "CLANK_OUTBOX"; "CLANK_OUTCOMES"; "CLANK_DECLINES"]%string).

Definition hiss_rules (broker : bool) : list rule :=
  ([Needs "HISS_POLICY"] ++ nats_rules ++ path_rules broker ["HISS_INBOX"; "HISS_OUTBOX"]%string
   ++ (if broker then [MayBool "APPROVALREQUESTS_ENABLED"; MayDuration "APPROVALREQUEST_RETENTION"] else [])).

Definition rattle_rules (broker : bool) : list rule :=
  ([Needs "PROM_URL"] ++ nats_rules ++ [Needs "RATTLE_WATCH"; Needs "RATTLE_QUERY_CONFIG"] ++ path_rules broker []).

Definition thump_rules (broker : bool) : list rule :=
  ([Needs "ACTION_CATALOG"; MayEnum "THUMP_EXECUTOR" ["dry"; "live"]%string] ++ nats_rules ++ path_rules broker ["THUMP_INBOX"; "THUMP_OUTBOX"]%string).

Definition bootstrap_rules : list rule :=
  [NeedsURL "NATS_URL" ["nats"; "tls"]%string; Needs "TLS_CERT_FILE"; Needs "TLS_KEY_FILE"; Needs "TLS_CA_FILE"].

Definition corpus_rules : list rule :=
  [NeedsURL "S3_ENDPOINT" ["http"; "https"]%string; Needs "S3_BUCKET"; Needs "S3_ACCESS_KEY"; Needs "S3_SECRET_KEY"].

Definition probe_rules : list rule :=
  map Needs ["ANTHROPIC_API_KEY"; "ACTION_CATALOG"; "FAILURE_CLASSES"; "CLANK_WEIGHTS"; "CLANK_LIMITS"]%string.

(** ** Lemmas *)

(** [m] returns [v] and adds the problems of [rs], whatever was wrong before *)
Definition yields {A} (m : loader A) (v : A) (es : list error) : Prop := forall errs, m errs = (v, errs ++ es).

Lemma yields_pure {A} (v : A) : yields (pure v) v [].
Proof. intros errs. by rewrite app_nil_r. Qed.

Lemma yields_load {A B} (m : loader A) (k : A -> loader B) v w es1 es2 :
  yields m v es1 -> yields (k v) w es2 -> yields (load m k) w (es1 ++ es2).
Proof. intros Hm Hk errs. unfold load. by rewrite Hm, Hk, app_assoc. Qed.

Lemma yields_complain e : yields (complain e) tt [e].
Proof. by intros errs. Qed.

Lemma yields_when b m es : yields m tt es -> yields (when b m) tt (if b then es else []).
Proof. intros Hm. destruct b; [done | apply yields_pure]. Qed.

Lemma yields_eq {A} (m : loader A) v es es' : yields m v es -> es = es' -> yields m v es'.
Proof. by intros Hm <-. Qed.

Lemma yields_loaded {A} (m : loader A) v es : yields m v es -> loaded m = (v, errors_Join es).
Proof. intros Hm. unfold loaded. by rewrite Hm. Qed.

Lemma yields_Require name : yields (Require_var getenv name) (getenv name) (problem (Needs name)).
Proof.
  eapply yields_eq; [eapply yields_load; [apply yields_when, yields_complain | apply yields_pure] |]. cbn [problem]. by destruct (_ =s _).
Qed.

Lemma yields_Optional name : yields (Optional_var getenv name) (getenv name) [].
Proof. apply yields_pure. Qed.

Lemma yields_scheme name allowed : yields (checkScheme url_valid name (getenv name) allowed) tt (bad_scheme name allowed).
Proof. unfold checkScheme, bad_scheme. destruct (scheme_allowed _ _ _); [apply yields_pure | apply yields_complain]. Qed.

Lemma yields_RequireURL name allowed : yields (RequireURL getenv url_valid name allowed) (getenv name) (problem (NeedsURL name allowed)).
Proof.
  eapply yields_eq; [eapply yields_load; [apply yields_Require |] |].
  - instantiate (1 := if getenv name =s "" then [] else bad_scheme name allowed). cbv beta. destruct (_ =s _); [apply yields_pure |].
    eapply yields_eq; [eapply yields_load; [apply yields_scheme | apply yields_pure] |]. apply app_nil_r.
  - cbn [problem]. by destruct (_ =s _).
Qed.

Lemma yields_OptionalURL name allowed : yields (OptionalURL getenv url_valid name allowed) (getenv name) (problem (MayURL name allowed)).
Proof.
  eapply yields_eq; [eapply yields_load; [apply yields_Optional |] |].
  - instantiate (1 := problem (MayURL name allowed)). cbn [problem]. cbv beta. destruct (_ =s _); [apply yields_pure |].
    eapply yields_eq; [eapply yields_load; [apply yields_scheme | apply yields_pure] |]. apply app_nil_r.
  - done.
Qed.

Lemma yields_complaint {A} e (v : A) : yields (load (complain e) (fun _ => pure v)) v [e].
Proof. by intros errs. Qed.

Definition duration_or (name : string) (def : Duration) : Duration :=
  if getenv name =s "" then def else match ParseDuration (getenv name) with inl d => d | inr _ => def end.

Lemma yields_Duration name def : yields (OptionalDuration getenv name def) (duration_or name def) (problem (MayDuration name)).
Proof.
  unfold OptionalDuration, duration_or. cbn [problem]. cbv zeta. destruct (_ =s _); [apply yields_pure |].
  destruct (ParseDuration _); [apply yields_pure | apply yields_complaint].
Qed.

Definition bool_or (name : string) : bool :=
  if getenv name =s "" then false else match ParseBool (getenv name) with inl b => b | inr _ => false end.

Lemma yields_Bool name : yields (OptionalBool getenv name) (bool_or name) (problem (MayBool name)).
Proof.
  unfold OptionalBool, bool_or. cbn [problem]. cbv zeta. destruct (_ =s _); [apply yields_pure |].
  destruct (ParseBool _); [apply yields_pure | apply yields_complaint].
Qed.

Definition enum_or (name def : string) (allowed : list string) : string :=
  if (getenv name <>s "") && existsb (String.eqb (getenv name)) allowed then getenv name else def.

Lemma yields_Enum name def allowed : yields (OptionalEnum getenv name def allowed) (enum_or name def allowed) (problem (MayEnum name allowed)).
Proof.
  unfold OptionalEnum, enum_or. cbn [problem]. cbv zeta. destruct (_ =s _); cbn [negb andb orb]; [apply yields_pure |].
  destruct (existsb _ _); [apply yields_pure | apply yields_complaint].
Qed.

Definition key_or (name : string) (n : nat) : option string :=
  if getenv name =s "" then None
  else match DecodeString (getenv name) with inl b => if (String.length b =? n)%nat then Some b else None | inr _ => None end.

Lemma yields_Key name n : yields (RequireBase64Key getenv name n) (key_or name n) (problem (NeedsKey name n)).
Proof.
  eapply yields_eq; [eapply yields_load; [apply yields_Require |] |].
  - instantiate (1 := if getenv name =s "" then [] else problem (NeedsKey name n)). cbv beta. unfold key_or. cbn [problem].
    destruct (_ =s _); [apply yields_pure |]. destruct (DecodeString _) as [b | err]; [| apply yields_complaint].
    destruct (_ =? _)%nat; [apply yields_pure | apply yields_complaint].
  - cbn [problem]. by destruct (_ =s _).
Qed.

Lemma yields_Prom2 a b e :
  yields (when ((getenv a <>s "") && (getenv b <>s "") && (getenv "PROM_URL" =s "")) (complain e)) tt (problem (NeedsPromFor [a; b] e)).
Proof. eapply yields_eq; [apply yields_when, yields_complain |]. cbn [problem forallb]. by rewrite andb_true_r. Qed.

Lemma yields_Prom1 a e : yields (when ((getenv a <>s "") && (getenv "PROM_URL" =s "")) (complain e)) tt (problem (NeedsPromFor [a] e)).
Proof. eapply yields_eq; [apply yields_when, yields_complain |]. cbn [problem forallb]. by rewrite andb_true_r. Qed.

Lemma yields_dir broker name : yields (dir_var getenv broker name) (getenv name) (if broker then [] else problem (Needs name)).
Proof. destruct broker; [apply yields_Optional | apply yields_Require]. Qed.

(** [loads] reads the value and the problems off a loader, line by line *)
Ltac loads :=
  repeat first
    [ apply yields_pure
    | eapply yields_load;
      [ first [ apply yields_Require | apply yields_Optional | apply yields_Duration | apply yields_OptionalURL | apply yields_RequireURL
              | apply yields_Bool | apply yields_Enum | apply yields_Key | apply yields_Prom2 | apply yields_Prom1 | apply yields_dir ] |] ].

Definition store_of : BrokerStore :=
  mkBrokerStore (getenv "WAL_DIR") (getenv "WAL_CONFIG") (getenv "S3_ENDPOINT") (getenv "S3_BUCKET") (getenv "S3_ACCESS_KEY")
    (getenv "S3_SECRET_KEY") (getenv "TLS_CERT_FILE") (getenv "TLS_KEY_FILE") (getenv "TLS_CA_FILE") (key_or "THUMP_SEAL_KEY" 32).

Lemma yields_store broker : yields (store_for getenv url_valid broker) (if broker then store_of else BrokerStore_zero)
  (if broker then flat_map problem store_rules else []).
Proof.
  destruct broker; [| apply yields_pure]. eapply yields_eq; [unfold store_for, loadBrokerStore; loads |]. cbn [flat_map store_rules]. by rewrite ?app_nil_r.
Qed.

Ltac loads_all :=
  eapply yields_loaded, yields_eq; [loads; try (eapply yields_load; [apply yields_store |]); loads |].

Ltac same_rules broker :=
  unfold clank_rules, hiss_rules, rattle_rules, thump_rules, bootstrap_rules, corpus_rules, probe_rules, path_rules, nats_rules;
  try destruct broker; rewrite ?flat_map_app; cbn [flat_map map app]; rewrite <- ?app_assoc, ?app_nil_r; cbn [app]; rewrite <- ?app_assoc, ?app_nil_r; reflexivity.

Lemma LoadClank_eq broker :
  exists c, LoadClank getenv url_valid broker = (c, errors_Join (flat_map problem (clank_rules broker))) /\
    CC_BrokerStore c = (if broker then store_of else BrokerStore_zero) /\ CC_PromURL c = getenv "PROM_URL" /\
    CC_WhirCatalog c = getenv "WHIR_CATALOG" /\ CC_WhirStateQueries c = getenv "WHIR_STATE_QUERIES" /\
    CC_WhirGraphQueries c = getenv "WHIR_GRAPH_QUERIES" /\ CC_DedupeWindow c = duration_or "DEDUPE_WINDOW" Hour.
Proof.
  eexists. split.
  - unfold LoadClank. loads_all. same_rules broker.
  - done.
Qed.

Lemma LoadHiss_eq broker :
  exists c, LoadHiss getenv url_valid broker = (c, errors_Join (flat_map problem (hiss_rules broker))) /\
    HC_BrokerStore c = (if broker then store_of else BrokerStore_zero) /\
    HC_ApprovalRequestsEnabled c = (if broker then bool_or "APPROVALREQUESTS_ENABLED" else false).
Proof.
  eexists. split. { unfold LoadHiss. eapply yields_loaded, yields_eq.
  - loads. eapply yields_load; [apply yields_store |].
    eapply yields_load; [instantiate (1 := if broker then problem (MayBool "APPROVALREQUESTS_ENABLED") else []);
                         instantiate (1 := if broker then bool_or "APPROVALREQUESTS_ENABLED" else false);
                         destruct broker; [apply yields_Bool | apply yields_pure] |].
    eapply yields_load; [instantiate (1 := if broker then problem (MayDuration "APPROVALREQUEST_RETENTION") else []);
                         instantiate (1 := if broker then duration_or "APPROVALREQUEST_RETENTION" (24 * Hour) else 0);
                         destruct broker; [apply yields_Duration | apply yields_pure] |].
    apply yields_pure.
  - same_rules broker. }
  done.
Qed.

Lemma LoadRattle_eq broker :
  exists c, LoadRattle getenv url_valid broker = (c, errors_Join (flat_map problem (rattle_rules broker))) /\
    RC_BrokerStore c = (if broker then store_of else BrokerStore_zero).
Proof. eexists. split; [unfold LoadRattle; loads_all; same_rules broker | done]. Qed.

Lemma LoadThump_eq broker :
  exists c, LoadThump getenv url_valid broker = (c, errors_Join (flat_map problem (thump_rules broker))) /\
    TC_BrokerStore c = (if broker then store_of else BrokerStore_zero) /\ TC_Executor c = enum_or "THUMP_EXECUTOR" "dry" ["dry"; "live"]%string /\
    TC_KillSwitchPath c = getenv "THUMP_KILLSWITCH".
Proof. eexists. split; [unfold LoadThump; loads_all; same_rules broker | done]. Qed.

Lemma LoadBootstrap_eq : exists c, LoadBootstrap getenv url_valid = (c, errors_Join (flat_map problem bootstrap_rules)).
Proof. eexists. unfold LoadBootstrap. loads_all. same_rules tt. Qed.

Lemma LoadCorpus_eq : exists c, LoadCorpus getenv url_valid = (c, errors_Join (flat_map problem corpus_rules)).
Proof. eexists. unfold LoadCorpus. loads_all. same_rules tt. Qed.

Lemma LoadProbe_eq : exists c, LoadProbe getenv = (c, errors_Join (flat_map problem probe_rules)).
Proof. eexists. unfold LoadProbe. loads_all. same_rules tt. Qed.

Lemma scheme_allowed_iff v allowed :
  scheme_allowed url_valid v allowed = true <-> exists s, url_Scheme url_valid v = inl s /\ s ∈ allowed.
Proof.
  unfold scheme_allowed. destruct (url_Scheme url_valid v) as [s | e]; [| split; [done | by intros (? & ? & _)]].
  rewrite existsb_elem. split.
  - intros (x & Hin & ->%String.eqb_eq). by exists x.
  - intros (x & [= ->] & Hin). exists x. split; [done | apply String.eqb_refl].
Qed.

Lemma bad_scheme_nil name allowed : bad_scheme name allowed = [] <-> exists s, url_Scheme url_valid (getenv name) = inl s /\ s ∈ allowed.
Proof. unfold bad_scheme. rewrite <- scheme_allowed_iff. by destruct (scheme_allowed _ _ _). Qed.

Lemma problem_nil r : problem r = [] <-> satisfied r.
Proof.
  destruct r as [name | name allowed | name allowed | name | name | name allowed | name n | names e]; cbn [problem satisfied];
    [.. |]; try destruct (String.eqb_spec (getenv name) "") as [E | E]; cbn [orb].
  1,2: by split.
  1: by split; [| intros [? _]].
  1: rewrite bad_scheme_nil; by split; [| intros [_ ?]].
  1: by split.
  1: rewrite bad_scheme_nil; by split; [| auto].
  1: by split.
  1: destruct (ParseDuration _) as [d | err]; [by split; [eauto |] | by split; [| intros Hx; destruct (Hx E) as [? ?]]].
  1: by split.
  1: destruct (ParseBool _) as [b | err]; [by split; [eauto |] | by split; [| intros Hx; destruct (Hx E) as [? ?]]].
  1: by split.
  1: destruct (existsb _ _) eqn:Eb.
  1: apply existsb_elem in Eb as (x & Hin & ->%String.eqb_eq); by split.
  1: split; [done |]; intros Hx; specialize (proj1 (existsb_false_elem _ _) Eb _ (Hx E)); by rewrite String.eqb_refl.
  1: by split; [| intros (b & ? & _)].
  1: destruct (DecodeString _) as [b | err]; [| by split; [| intros (b & _ & ? & _)]].
  1: destruct (Nat.eqb_spec (String.length b) n) as [Hn | Hn]; [by split; [eauto |] | split; [done | intros (b' & _ & [= <-] & ?); lia]].
  - destruct (String.eqb_spec (getenv "PROM_URL") "") as [Ep | Ep]; [rewrite andb_true_r | by rewrite andb_false_r].
    destruct (forallb _ _) eqn:Ef.
    + split; [done |]. intros Hx. destruct Hx; [| done]. apply list.Forall_forall. intros x Hin.
      rewrite forallb_forall in Ef. apply list_elem_of_In in Hin. specialize (Ef x Hin). by apply negb_true_iff, String.eqb_neq in Ef.
    + split; [| done]. intros _ HF. exfalso. apply not_true_iff_false in Ef. apply Ef, forallb_forall. intros x Hin%list_elem_of_In.
      rewrite list.Forall_forall in HF. apply negb_true_iff, String.eqb_neq. auto.
Qed.

Lemma errors_Join_None es : errors_Join es = None <-> es = [].
Proof. by destruct es. Qed.

Lemma problems_nil rs : errors_Join (flat_map problem rs) = None <-> Forall satisfied rs.
Proof.
  rewrite errors_Join_None. induction rs as [| r rs IH]; [done |]. cbn [flat_map]. rewrite Forall_cons_iff, <- IH, <- problem_nil. split.
  - intros [? ?]%app_eq_nil. done.
  - by intros [-> ->].
Qed.

(** a broker's store: nothing is missing, the endpoint has a scheme that is allowed, and
    the key is the bytes of an AES-256 key *)
Definition usable (s : BrokerStore) : Prop :=
  Forall (fun v => v <> "") [BS_WALDir s; BS_WALConfig s; BS_S3Endpoint s; BS_S3Bucket s; BS_S3AccessKey s; BS_S3SecretKey s;
                             BS_TLSCertFile s; BS_TLSKeyFile s; BS_TLSCAFile s] /\
  (exists k, BS_SealKey s = Some k /\ String.length k = 32%nat) /\
  exists sch, url_Scheme url_valid (BS_S3Endpoint s) = inl sch /\ sch ∈ ["http"; "https"]%string.

Lemma store_usable : Forall satisfied store_rules -> usable store_of.
Proof.
  unfold store_rules. rewrite !Forall_cons_iff. cbn [satisfied]. intros (H1 & H2 & [H3 H3'] & H4 & H5 & H6 & H7 & H8 & H9 & (b & Hk & Hd & Hb) & _).
  split; [| split; [| done]].
  - cbn. by rewrite !Forall_cons_iff.
  - exists b. split; [| done]. cbn. unfold key_or. apply String.eqb_neq in Hk. by rewrite Hk, Hd, Hb.
Qed.

End rules.

(** ** Claims *)

(** C32. A bad environment is reported in full: whatever the environment, the error of each
    of the seven loaders is the join, in reading order, of what every unmet requirement of
    its table says, and there is no error exactly when all of them are met. *)
Theorem environments_name_every_problem (getenv : string -> string) (url_valid : string -> bool) (broker : bool) :
  let problems rs := errors_Join (flat_map (problem getenv url_valid) rs) in
  (LoadClank getenv url_valid broker).2 = problems (clank_rules broker) /\
  (LoadHiss getenv url_valid broker).2 = problems (hiss_rules broker) /\
  (LoadRattle getenv url_valid broker).2 = problems (rattle_rules broker) /\
  (LoadThump getenv url_valid broker).2 = problems (thump_rules broker) /\
  (LoadBootstrap getenv url_valid).2 = problems bootstrap_rules /\
  (LoadCorpus getenv url_valid).2 = problems corpus_rules /\
  (LoadProbe getenv).2 = problems probe_rules /\
  forall rs, problems rs = None <-> Forall (satisfied getenv url_valid) rs.
Proof.
  intros problems.
  destruct (LoadClank_eq getenv url_valid broker) as (? & -> & _), (LoadHiss_eq getenv url_valid broker) as (? & -> & _),
    (LoadRattle_eq getenv url_valid broker) as (? & -> & _), (LoadThump_eq getenv url_valid broker) as (? & -> & _),
    (LoadBootstrap_eq getenv url_valid) as (? & ->), (LoadCorpus_eq getenv url_valid) as (? & ->), (LoadProbe_eq getenv url_valid) as (? & ->).
  do 7 (split; [done |]). intros rs. apply problems_nil.
Qed.

Lemma rules_store getenv url_valid rs :
  Forall (satisfied getenv url_valid) rs -> (forall r, r ∈ store_rules -> r ∈ rs) -> usable url_valid (store_of getenv).
Proof. rewrite list.Forall_forall. intros Hn Hin. apply store_usable, list.Forall_forall. auto. Qed.

Ltac has_store Hn :=
  intros ->; apply (rules_store _ _ _ Hn); intros r Hr;
  unfold clank_rules, hiss_rules, rattle_rules, thump_rules, path_rules; rewrite !elem_of_app; tauto.

(** A configuration that loads can be started on: with a broker the store of every
    beat is complete, its endpoint has an allowed scheme and its seal key is 32 bytes;
    thump runs in a mode it knows; and clank never has a topology to resolve without a
    Prometheus to ask. *)
Theorem loaded_configs_are_usable (getenv : string -> string) (url_valid : string -> bool) (broker : bool) :
  (forall c, LoadClank getenv url_valid broker = (c, None) ->
     (broker = true -> usable url_valid (CC_BrokerStore c)) /\
     ((CC_WhirCatalog c <> "" /\ CC_WhirStateQueries c <> "") \/ CC_WhirGraphQueries c <> "" -> CC_PromURL c <> "")) /\
  (forall c, LoadHiss getenv url_valid broker = (c, None) -> broker = true -> usable url_valid (HC_BrokerStore c)) /\
  (forall c, LoadRattle getenv url_valid broker = (c, None) -> broker = true -> usable url_valid (RC_BrokerStore c)) /\
  (forall c, LoadThump getenv url_valid broker = (c, None) ->
     (broker = true -> usable url_valid (TC_BrokerStore c)) /\ TC_Executor c ∈ ["dry"; "live"]%string).
Proof.
  destruct (LoadClank_eq getenv url_valid broker) as (c1 & -> & S1 & P1 & W1 & W2 & W3 & _), (LoadHiss_eq getenv url_valid broker) as (c2 & -> & S2 & _),
    (LoadRattle_eq getenv url_valid broker) as (c3 & -> & S3), (LoadThump_eq getenv url_valid broker) as (c4 & -> & S4 & X4 & _).
  split; [| split; [| split]]; intros c [<- Hn%problems_nil]%pair_equal_spec.
  - rewrite S1, P1, W1, W2, W3. split.
    + has_store Hn.
    + unfold clank_rules, nats_rules in Hn. rewrite !Forall_app, !Forall_cons_iff in Hn. cbn [satisfied] in Hn.
      destruct Hn as (_ & _ & (_ & _ & _ & _ & H1 & H2 & _) & _). rewrite !Forall_cons_iff in H1, H2.
      intros [[? ?] | ?]; [apply H1 | apply H2]; repeat split; auto.
  - rewrite S2. has_store Hn.
  - rewrite S3. has_store Hn.
  - rewrite S4, X4. split.
    + has_store Hn.
    + unfold enum_or. destruct (_ && _) eqn:E; [| by left]. apply andb_true_iff in E as [_ (x & Hin & ->%String.eqb_eq)%existsb_elem]. done.
Qed.

(** the tools are those of the configured backends, and each carries the subject rules *)
Lemma buildTools_wired {C} (cfg : ClankConfig) (be : Backends C) (ev : EvidenceConfig) :
  (buildTools cfg be ev !! "metrics" =
     if (CC_PromURL cfg =s "") || (CC_EvidenceQueries cfg =s "") then None
     else Some (TheMetricsTool (mkMetricsTool (CC_PromURL cfg) (Be_Prom be) (Evidence_Queries ev)))) /\
  (buildTools cfg be ev !! "loki" =
     if CC_LokiURL cfg =s "" then None else Some (TheLokiTool (mkLokiTool C (CC_LokiURL cfg) (Be_Loki be) (Evidence_Index ev)))) /\
  (buildTools cfg be ev !! "traces" =
     if CC_TempoURL cfg =s "" then None else Some (TheTracesTool (mkTracesTool C (CC_TempoURL cfg) (Be_Tempo be) (Evidence_Index ev)))) /\
  (buildTools cfg be ev !! "kube" = (fun list => TheKubeTool (mkKubeTool C list (Evidence_Index ev))) <$> Be_Kube be) /\
  forall name t, buildTools cfg be ev !! name = Some t -> name ∈ ["metrics"; "loki"; "traces"; "kube"]%string.
Proof.
  unfold buildTools. destruct (_ || _), (CC_LokiURL cfg =s ""), (CC_TempoURL cfg =s ""), (Be_Kube be); repeat split;
    rewrite ?lookup_insert_eq, ?lookup_insert_ne by discriminate; rewrite ?lookup_insert_eq, ?lookup_insert_ne by discriminate;
    rewrite ?lookup_insert_eq, ?lookup_insert_ne by discriminate; try done; intros name t;
    rewrite ?lookup_insert_Some, ?lookup_empty; set_solver.
Qed.

(** *** Concrete environments *)

Definition demo_env (name : string) : string :=
  if existsb (String.eqb name) ["WHIR_CATALOG"; "WHIR_STATE_QUERIES"; "APPROVALREQUESTS_ENABLED"; "THUMP_EXECUTOR"]%string then ""
  else if name =s "S3_ENDPOINT" then "HTTPS://s3.example"
  else if name =s "NATS_URL" then "tls://nats:4222"
  else if name =s "OTEL_EXPORTER_OTLP_ENDPOINT" then ""
  else if existsb (String.eqb name) ["DEDUPE_WINDOW"; "WHIR_GRAPH_WINDOW"]%string then "-1h"
  else if existsb (String.eqb name) ["ARGOCD_ENABLED"]%string then "true"
  else if name =s "THUMP_SEAL_KEY" then "AAECAwQFBgcICQoLDA0ODxAREhMUFRYXGBkaGxwdHh8="
  else "x".

Lemma loaded_configs_are_usable_witness :
  let c := (LoadClank demo_env (fun _ => true) true).1 in
  LoadClank demo_env (fun _ => true) true = (c, None) /\ usable (fun _ => true) (CC_BrokerStore c).
Proof.
  intros c. assert (LoadClank demo_env (fun _ => true) true = (c, None)) as E by (vm_compute; reflexivity). split; [exact E |].
  exact (proj1 (proj1 (loaded_configs_are_usable demo_env (fun _ => true) true) c E) eq_refl).
Defined.

(** a duration is not checked for its sign: a negative dedupe window loads, and the engine
    then looks for duplicates after the present *)
Example negative_window_loads :
  CC_DedupeWindow (LoadClank demo_env (fun _ => true) true).1 = - Hour /\ (LoadClank demo_env (fun _ => true) true).2 = None.
Proof. split; vm_compute; reflexivity. Qed.

(** every problem of an empty environment is named, in order *)
Example empty_environment :
  (err_text <$> (LoadCorpus (fun _ => "") (fun _ => true)).2) =
  Some ("S3_ENDPOINT is required" +:+ newline +:+ "S3_BUCKET is required" +:+ newline +:+ "S3_ACCESS_KEY is required" +:+ newline +:+ "S3_SECRET_KEY is required").
Proof. reflexivity. Qed.

Example key_with_line_breaks : DecodeString ("QUJ" +:+ newline +:+ "D" +:+ newline) = inl "ABC"%string.
Proof. reflexivity. Qed.

Example key_text_with_garbage : DecodeString "QQ==x" = inr (CorruptInputError 4).
Proof. reflexivity. Qed.
