(* ===== verification/Tlsx.v ===== *)
(** * internal/tlsx and internal/otelx: what a beat dials and serves with

    tlsx.go builds every TLS configuration: [Client], [Server], the pool of authorities and
    the key pair that is read again when its file changes.  trace.go turns one endpoint into
    a dial, and otlpbreaker.go stops a metrics exporter from calling an endpoint that cannot
    answer.  The certificates are abstract, with the parsers of crypto/tls and crypto/x509
    as parameters; so are the exporter behind the breaker and the gRPC status of an error. *)

From Stdlib Require Import Sorted.
From S2P Require Import Prelude GoTime Strings GoParse Config.
Local Open Scope Z_scope.

(** ** tlsx.go *)

Record TLSConfig : Type := mkTLSConfig {
  TLS_CertFile : string;
  TLS_KeyFile : string;
  TLS_CAFile : string;
  TLS_ServerName : string
}.

#[export] Instance TLSConfig_eq_dec : EqDecision TLSConfig.
Proof. solve_decision. Defined.

Definition TLSConfig_zero : TLSConfig := mkTLSConfig "" "" "" "".

(** the files as one system call finds them *)
Record FS : Type := mkFS {
  FS_ReadFile : string -> result string;
  FS_ModTime : string -> result Time
}.

(** what one [load] can see: the files when it takes the time, reads the certificate and
    reads the key *)
Record Look : Type := mkLook { at_stat : FS; at_cert : FS; at_key : FS }.

Definition VersionTLS13 : Z := 0x0304.

Inductive ClientAuthType : Type := NoClientCert | RequireAndVerifyClientCert.

Section tlsx.
Context {Cert Pool : Type}.
(** [x509.CertPool.AppendCertsFromPEM] on a fresh pool: nothing when no certificate is usable *)
Context (AppendCertsFromPEM : string -> option Pool).
(** [tls.X509KeyPair] *)
Context (X509KeyPair : string -> string -> result Cert).

Record certReloader : Type := mkReloader {
  Rl_certFile : string;
  Rl_keyFile : string;
  Rl_cert : option Cert;
  Rl_modTime : Z
}.

(** the fields of [tls.Config] the package sets *)
Record tls_Config : Type := mkTls {
  Tls_MinVersion : Z;
  Tls_ServerName : string;
  Tls_RootCAs : option Pool;
  Tls_ClientCAs : option Pool;
  Tls_ClientAuth : ClientAuthType;
  Tls_GetClientCertificate : option certReloader;
  Tls_GetCertificate : option certReloader
}.

Definition loadCAPool (fs : FS) (caFile : string) : result Pool :=
  match FS_ReadFile fs caFile with
  | inr err => inr (errorf_w "read CA file: " err)
  | inl pemBytes =>
      match AppendCertsFromPEM pemBytes with
      | None => inr (errors_New (caFile +:+ " contains no usable certificates"))
      | Some pool => inl pool
      end
  end.

Definition newReloader (c : TLSConfig) : certReloader := mkReloader (TLS_CertFile c) (TLS_KeyFile c) None 0.

Definition client_cert (c : TLSConfig) : option certReloader :=
  if (TLS_CertFile c <>s "") && (TLS_KeyFile c <>s "") then Some (newReloader c) else None.

Definition Client (fs : FS) (c : TLSConfig) : result tls_Config :=
  if TLS_CAFile c <>s "" then
    match loadCAPool fs (TLS_CAFile c) with
    | inr err => inr (errorf_w "tlsx: client: " err)
    | inl pool => inl (mkTls VersionTLS13 (TLS_ServerName c) (Some pool) None NoClientCert (client_cert c) None)
    end
  else inl (mkTls VersionTLS13 (TLS_ServerName c) None None NoClientCert (client_cert c) None).

Definition Server (fs : FS) (c : TLSConfig) : result tls_Config :=
  if (TLS_CertFile c =s "") || (TLS_KeyFile c =s "") then inr (errors_New "tlsx: server: CertFile and KeyFile are required")
  else if TLS_CAFile c =s "" then inr (errors_New "tlsx: server: CAFile is required to verify a client certificate")
  else match loadCAPool fs (TLS_CAFile c) with
       | inr err => inr (errorf_w "tlsx: server: " err)
       | inl pool => inl (mkTls VersionTLS13 "" None (Some pool) RequireAndVerifyClientCert None (Some (newReloader c)))
       end.

(** [tls.LoadX509KeyPair] *)
Definition LoadX509KeyPair (l : Look) (certFile keyFile : string) : result Cert :=
  match FS_ReadFile (at_cert l) certFile with
  | inr err => inr err
  | inl certPEM =>
      match FS_ReadFile (at_key l) keyFile with
      | inr err => inr err
      | inl keyPEM => X509KeyPair certPEM keyPEM
      end
  end.

(** [load], under the mutex *)
Definition load (l : Look) (r : certReloader) : certReloader * result Cert :=
  match FS_ModTime (at_stat l) (Rl_certFile r) with
  | inr err => (r, inr (errorf_w "stat cert file: " err))
  | inl t =>
      match Rl_cert r with
      | Some cert =>
          if UnixNano t =? Rl_modTime r then (r, inl cert)
          else match LoadX509KeyPair l (Rl_certFile r) (Rl_keyFile r) with
               | inr err => (r, inr (errorf_w "load key pair: " err))
               | inl cert' => (mkReloader (Rl_certFile r) (Rl_keyFile r) (Some cert') (UnixNano t), inl cert')
               end
      | None =>
          match LoadX509KeyPair l (Rl_certFile r) (Rl_keyFile r) with
          | inr err => (r, inr (errorf_w "load key pair: " err))
          | inl cert' => (mkReloader (Rl_certFile r) (Rl_keyFile r) (Some cert') (UnixNano t), inl cert')
          end
      end
  end.

(** the handshakes of a process, in order *)
Definition handshakes (ls : list Look) (r : certReloader) : certReloader := fold_left (fun r l => (load l r).1) ls r.

(** *** What is served *)

Context (c : TLSConfig).

(** the modification time a handshake finds *)
Definition stamp (l : Look) : option Z :=
  match FS_ModTime (at_stat l) (TLS_CertFile c) with inl t => Some (UnixNano t) | inr _ => None end.

Definition pair_on_disk (l : Look) : result Cert := LoadX509KeyPair l (TLS_CertFile c) (TLS_KeyFile c).

(** the pair a reloader holds is one a handshake read, at the time it holds *)
Definition held_from (ls : list Look) (r : certReloader) : Prop :=
  Rl_certFile r = TLS_CertFile c /\ Rl_keyFile r = TLS_KeyFile c /\
  forall cert, Rl_cert r = Some cert -> exists l, l ∈ ls /\ pair_on_disk l = inl cert /\ stamp l = Some (Rl_modTime r).

Lemma held_mono ls ls' r : held_from ls r -> held_from (ls ++ ls') r.
Proof.
  intros (Hc & Hk & Hh). split; [done |]. split; [done |]. intros cert (l & Hin & Hl)%Hh. exists l. rewrite elem_of_app. tauto.
Qed.

Lemma load_held ls l r r' res : held_from ls r -> load l r = (r', res) ->
  held_from (ls ++ [l]) r' /\
  (forall cert, res = inl cert -> exists l', l' ∈ ls ++ [l] /\ pair_on_disk l' = inl cert /\ stamp l' = stamp l /\ stamp l <> None).
Proof.
  intros Hh. pose proof (held_mono _ [l] _ Hh) as Hm. destruct Hh as (Hc & Hk & Hh). unfold load. rewrite Hc, Hk.
  fold (pair_on_disk l). assert (l ∈ ls ++ [l]) as Hl by (rewrite elem_of_app; right; by left).
  destruct (FS_ModTime _ _) as [t | err] eqn:Et; [| by intros [= <- <-]].
  assert (stamp l = Some (UnixNano t)) as Hs by (unfold stamp; by rewrite Et).
  assert (forall cert, pair_on_disk l = inl cert -> held_from (ls ++ [l]) (mkReloader (TLS_CertFile c) (TLS_KeyFile c) (Some cert) (UnixNano t))) as Hnew.
  { intros cert Hp. split; [done |]. split; [done |]. intros cert' [= <-]. by exists l. }
  destruct (Rl_cert r) as [cert |] eqn:Er; [destruct (UnixNano t =? Rl_modTime r) eqn:En |].
  - intros [= <- <-]. apply Z.eqb_eq in En. split; [done |]. intros cert' [= <-]. destruct (Hh _ eq_refl) as (l' & Hin & Hp & Hs').
    exists l'. rewrite elem_of_app, Hs, En. naive_solver.
  - destruct (pair_on_disk l) as [cert' | err] eqn:Ep; intros [= <- <-]; [| done]. split; [by apply Hnew |]. intros ? [= <-]. exists l. naive_solver.
  - destruct (pair_on_disk l) as [cert' | err] eqn:Ep; intros [= <- <-]; [| done]. split; [by apply Hnew |]. intros ? [= <-]. exists l. naive_solver.
Qed.

Lemma handshakes_held ls : held_from ls (handshakes ls (newReloader c)).
Proof.
  induction ls as [| l ls IH] using rev_ind; [by repeat split |]. unfold handshakes in *. rewrite fold_left_app. simpl.
  destruct (load l _) as [r' res] eqn:El. by destruct (load_held _ _ _ _ _ IH El).
Qed.

(** A handshake serves a pair that was on disk: after any handshakes over files that change
    underneath, the certificate served is one this or an earlier handshake read, when the
    certificate file carried the time it carries now; so a pair whose file has a time not seen
    before is the pair on disk; and a handshake that fails keeps what the reloader holds. *)
Theorem served_pair_was_on_disk ls l r' res : load l (handshakes ls (newReloader c)) = (r', res) ->
  match res with
  | inl cert =>
      (exists l', l' ∈ ls ++ [l] /\ pair_on_disk l' = inl cert /\ stamp l' = stamp l) /\
      (stamp l ∉ map stamp ls -> pair_on_disk l = inl cert)
  | inr _ => r' = handshakes ls (newReloader c) /\ (stamp l = None \/ exists err, pair_on_disk l = inr err)
  end.
Proof.
  intros El. pose proof (handshakes_held ls) as Hh. destruct (load_held _ _ _ _ _ Hh El) as [_ Hres]. destruct res as [cert | err].
  - destruct (Hres _ eq_refl) as (l' & Hin & Hp & Hs & _). split; [by exists l' |]. intros Hnew.
    apply elem_of_app in Hin as [Hin | ->%list_elem_of_singleton]; [| done]. destruct Hnew. rewrite <- Hs. by apply list_elem_of_fmap_2.
  - destruct Hh as (Hc & Hk & _). unfold load in El. rewrite Hc, Hk in El. fold (pair_on_disk l) in El. unfold stamp.
    destruct (FS_ModTime _ _) as [t |]; [| injection El as <- _; auto].
    destruct (Rl_cert _) as [cert |]; [destruct (_ =? _); [done |] |]; (destruct (pair_on_disk l) as [| e] eqn:Ep; [done |]; injection El as <- _; eauto).
Qed.

End tlsx.
