(* ===== verification/Otelx.v ===== *)
(** * internal/otelx: the tracer's endpoint and the breaker of the metrics exporter

    [otlpDialOptions] and [newTracer] of trace.go, and the breaker of otlpbreaker.go as the
    two critical sections of [Export] around the call to the exporter, so that exports may
    overlap.  The exporters, the SDK and the gRPC status of an error are parameters. *)

From Stdlib Require Import Sorted.
From stdpp Require Import sorting.
From S2P Require Import Prelude GoTime Strings GoParse Config Tlsx.
Local Open Scope Z_scope.

(** ** trace.go *)

Record otlpDial : Type := mkOtlpDial { Dial_Host : string; Dial_Insecure : bool }.

(** [strings.Cut] at a separator of several bytes: the text before it *)
Fixpoint cut_before (s sep : string) : string :=
  if String.prefix sep s then ""
  else match s with EmptyString => "" | String c s' => String c (cut_before s' sep) end.

Definition otlpDialOptions (endpoint : string) : result otlpDial :=
  match strings_CutPrefix endpoint "https://" with
  | Some host => inl (mkOtlpDial host false)
  | None =>
      match strings_CutPrefix endpoint "http://" with
      | Some host => inl (mkOtlpDial host true)
      | None =>
          if strings_Contains endpoint "://" then
            inr (errors_New ("otelx " +:+ fmt_q endpoint +:+ ": unmappable OTLP scheme " +:+ fmt_q (cut_before endpoint "://") +:+ ", want http or https"))
          else inl (mkOtlpDial endpoint true)
      end
  end.

Section tracer.
Context {Cert Pool Exporter Resource : Type}.
Context (AppendCertsFromPEM : string -> option Pool).
(** [otlptracegrpc.New] over a host and either plaintext or a TLS configuration *)
Context (otlptracegrpc_New : string -> option (tls_Config (Cert := Cert) (Pool := Pool)) -> result Exporter).
(** [resource.Merge] of the default resource and the beat's service name *)
Context (service_resource : string -> result Resource).

Definition newOTLPExporter (fs : FS) (endpoint : string) (tlsCfg : TLSConfig) : result Exporter :=
  match otlpDialOptions endpoint with
  | inr err => inr err
  | inl dial =>
      if Dial_Insecure dial then otlptracegrpc_New (Dial_Host dial) None
      else match Client AppendCertsFromPEM fs tlsCfg with
           | inr err => inr err
           | inl tc => otlptracegrpc_New (Dial_Host dial) (Some tc)
           end
  end.

(** the tracer of a beat: one that does nothing, or one that batches to an exporter *)
Inductive tracer : Type :=
| NoopTracer
| BatchTracer (beat : string) (exp : Exporter) (res : Resource).

Definition newTracer (beatName endpoint : string) (newExporter : string -> result Exporter) : result tracer :=
  if endpoint =s "" then inl NoopTracer
  else match otlpDialOptions endpoint with
       | inr err => inr (errorf_w "otelx: " err)
       | inl _ =>
           match newExporter endpoint with
           | inr err => inr (errorf_w ("otelx: build span exporter for " +:+ fmt_q endpoint +:+ ": ") err)
           | inl exp =>
               match service_resource beatName with
               | inr err => inr (errorf_w ("otelx: build resource for " +:+ fmt_q beatName +:+ ": ") err)
               | inl res => inl (BatchTracer beatName exp res)
               end
           end
       end.

Definition Tracer (fs : FS) (beatName otlpEndpoint : string) (tlsCfg : TLSConfig) : result tracer :=
  newTracer beatName otlpEndpoint (fun endpoint => newOTLPExporter fs endpoint tlsCfg).

(** spans leave a beat in the clear only to an endpoint that does not say https *)
Lemma https_is_encrypted fs beatName host tlsCfg t :
  Tracer fs beatName ("https://" +:+ host) tlsCfg = inl t ->
  exists tc exp res, Client AppendCertsFromPEM fs tlsCfg = inl tc /\ otlptracegrpc_New host (Some tc) = inl exp /\ t = BatchTracer beatName exp res.
Proof.
  assert (otlpDialOptions ("https://" +:+ host) = inl (mkOtlpDial host false)) as Hd
    by (unfold otlpDialOptions; by rewrite strings_CutPrefix_app).
  unfold Tracer, newTracer, newOTLPExporter. rewrite Hd. cbn [Dial_Insecure Dial_Host]. replace (("https://" +:+ host) =s "") with false by done.
  destruct (Client _ _ _) as [tc |]; [| done]. destruct (otlptracegrpc_New _ _) as [exp |] eqn:En; [| done].
  destruct (service_resource _) as [res |]; [| done]. intros [= <-]. by exists tc, exp, res.
Qed.

End tracer.

(** a scheme [internal/config] accepts and the tracer does not: it compares without case, the
    tracer with *)
Lemma uppercase_scheme_is_refused url_valid : url_valid "HTTPS://otel:4317" = true ->
  scheme_allowed url_valid "HTTPS://otel:4317" ["http"; "https"]%string = true /\
  exists err, otlpDialOptions "HTTPS://otel:4317" = inr err.
Proof. intros Hv. split; [unfold scheme_allowed, url_Scheme; simpl; by rewrite Hv | eexists; vm_compute; reflexivity]. Qed.

(** an https endpoint without its slashes is accepted by [internal/config] and dialled in the
    clear, under its scheme as the host *)
Lemma opaque_https_is_plaintext url_valid : url_valid "https:otel:4317" = true ->
  scheme_allowed url_valid "https:otel:4317" ["http"; "https"]%string = true /\
  otlpDialOptions "https:otel:4317" = inl (mkOtlpDial "https:otel:4317" true).
Proof. intros Hv. split; [unfold scheme_allowed, url_Scheme; simpl; by rewrite Hv | vm_compute; reflexivity]. Qed.

(** ** otlpbreaker.go *)

Definition probeInterval : Duration := 5 * Minute.

(** google.golang.org/grpc/codes *)
Definition codes_OK : Z := 0.
Definition codes_Canceled : Z := 1.
Definition codes_DeadlineExceeded : Z := 4.
Definition codes_ResourceExhausted : Z := 8.
Definition codes_Aborted : Z := 10.
Definition codes_OutOfRange : Z := 11.
Definition codes_Unavailable : Z := 14.
Definition codes_DataLoss : Z := 15.

Record breakerExporter : Type := mkBreaker { Br_open : bool; Br_nextProbe : Time }.

Definition breaker_zero : breakerExporter := mkBreaker false 0.

Section breaker.
(** [status.Code] *)
Context (status_Code : error -> Z).

Definition permanentGRPCFailure (err : error) : bool :=
  negb (existsb (Z.eqb (status_Code err))
    [codes_Canceled; codes_DeadlineExceeded; codes_Aborted; codes_OutOfRange; codes_Unavailable; codes_DataLoss; codes_ResourceExhausted; codes_OK]).

(** the first critical section: whether the export returns at once *)
Definition short_circuits (b : breakerExporter) (now : Time) : bool := Br_open b && Before now (Br_nextProbe b).

(** the second, after the exporter returned *)
Definition settle_export (b : breakerExporter) (err : option error) (now : Time) : breakerExporter :=
  match err with
  | None => mkBreaker false (Br_nextProbe b)
  | Some e => if permanentGRPCFailure e then mkBreaker true (GoTime.Add now probeInterval) else b
  end.

(** [Export] when no other export overlaps it: [next] is the exporter, called at [now] and
    back at [later] *)
Definition Export {N} (next : N -> N * option error) (now later : Time) (b : breakerExporter) (n : N) : breakerExporter * N * option error :=
  if short_circuits b now then (b, n, None)
  else let '(n', err) := next n in (settle_export b err later, n', err).

(** exports that overlap: one enters at a time, and one that went through to the exporter
    comes back with its result *)
Inductive export_event : Type :=
| Enters (now : Time) (skipped : bool)
| Returns (now : Time) (err : option error).

Definition event_time (ev : export_event) : Time := match ev with Enters t _ | Returns t _ => t end.

Inductive exports : list export_event -> breakerExporter -> nat -> Prop :=
| exports_start : exports [] breaker_zero 0
| exports_enter evs b n now : exports evs b n ->
    exports (evs ++ [Enters now (short_circuits b now)]) b (if short_circuits b now then n else S n)
| exports_return evs b n now err : exports evs b (S n) -> exports (evs ++ [Returns now err]) (settle_export b err now) n.

Definition failed_for_good (ev : export_event) : Prop :=
  match ev with Returns _ (Some e) => permanentGRPCFailure e = true | _ => False end.

Definition succeeded (ev : export_event) : Prop := match ev with Returns _ None => True | _ => False end.

(** the breaker is open until [until]: an export failed for good, and none has come back
    without an error since *)
Definition tripped (evs : list export_event) (until : Time) : Prop :=
  exists pre ev post, evs = pre ++ ev :: post /\ failed_for_good ev /\ until = GoTime.Add (event_time ev) probeInterval /\
    (forall ev', ev' ∈ post -> ~ succeeded ev').

Definition in_order (evs : list export_event) : Prop := StronglySorted Z.le (map event_time evs).

(** an [Export] nothing overlaps is an export that enters and returns *)
Lemma Export_serial {N} (next : N -> N * option error) now later evs b k n b' n' err :
  exports evs b k -> Export next now later b n = (b', n', err) ->
  (short_circuits b now = true /\ exports (evs ++ [Enters now true]) b' k /\ n' = n /\ err = None) \/
  (exports ((evs ++ [Enters now false]) ++ [Returns later err]) b' k /\ next n = (n', err)).
Proof.
  intros He. unfold Export. pose proof (exports_enter _ _ _ now He) as Hen. destruct (short_circuits b now) eqn:Es.
  - intros [= <- <- <-]. by left.
  - destruct (next n) as [n1 e1]. intros [= <- <- <-]. right. split; [by apply exports_return | done].
Qed.

(** what the state says of the history *)
Definition reflects (evs : list export_event) (b : breakerExporter) : Prop :=
  (Br_open b = true -> tripped evs (Br_nextProbe b)) /\
  (in_order evs -> forall until, tripped evs until -> Br_open b = true /\ until <= Br_nextProbe b).

Lemma tripped_snoc evs ev until : tripped (evs ++ [ev]) until <->
  (~ succeeded ev /\ tripped evs until) \/ (failed_for_good ev /\ until = GoTime.Add (event_time ev) probeInterval).
Proof.
  split.
  - intros (pre & e & post & He & Hf & -> & Hs). destruct post as [| x post _] using rev_ind.
    + apply app_inj_tail in He as [_ ->]. auto.
    + rewrite app_comm_cons, app_assoc in He. apply app_inj_tail in He as [-> ->]. left.
      split; [apply Hs; rewrite elem_of_app; right; by left |]. exists pre, e, post. repeat split; try done. intros ev' Hin. apply Hs. rewrite elem_of_app. by left.
  - intros [(Hn & pre & e & post & -> & Hf & -> & Hs) | (Hf & ->)].
    + exists pre, e, (post ++ [ev]). rewrite <- app_assoc. repeat split; try done. intros ev' [Hin | ->%list_elem_of_singleton]%elem_of_app; auto.
    + exists evs, ev, []. repeat split; try done. by intros ev' ?%elem_of_nil.
Qed.

Lemma in_order_snoc evs ev : in_order (evs ++ [ev]) -> in_order evs /\ forall ev', ev' ∈ evs -> event_time ev' <= event_time ev.
Proof.
  unfold in_order. rewrite map_app. intros Hs. split; [by eapply StronglySorted_app_1_l |].
  intros ev' Hin. eapply (StronglySorted_app_1_elem_of _ _ _ _ _ Hs); [by apply list_elem_of_fmap_2 | by left].
Qed.

Lemma exports_reflect evs b n : exports evs b n -> reflects evs b.
Proof.
  unfold reflects. induction 1 as [| evs b n now _ [IH1 IH2] | evs b n now err _ [IH1 IH2]].
  - split; [done |]. intros _ until (pre & ev & post & He & _). by destruct pre.
  - split; [intros Ho; apply tripped_snoc; left; auto |]. intros Ho until [[_ Ht] | [[] _]]%tripped_snoc. apply in_order_snoc in Ho as [Ho _]. auto.
  - destruct err as [e |]; [cbn [settle_export]; destruct (permanentGRPCFailure e) eqn:Ep |]; simpl.
    + split; [intros _; apply tripped_snoc; by right |]. intros [Ho Hle]%in_order_snoc until [[_ (pre & ev & post & -> & _ & -> & _)] | [_ ->]]%tripped_snoc; [| done].
      split; [done |]. unfold GoTime.Add. assert (event_time ev <= now); [| lia]. apply Hle. rewrite elem_of_app. right. by left.
    + split; [intros Hb; apply tripped_snoc; left; auto |]. intros [Ho _]%in_order_snoc until [[_ Ht] | [Hf _]]%tripped_snoc; [auto |]. simpl in Hf. congruence.
    + split; [done |]. intros _ until [[Hn _] | [[] _]]%tripped_snoc. by destruct Hn.
Qed.

(** The breaker spares an endpoint that cannot answer, and only that: however exports overlap,
    one is skipped exactly when an export failed for good less than five minutes ago and none
    has succeeded since; every other export reaches the exporter. *)
Theorem breaker_skips_only_dead_endpoints evs b n now :
  exports evs b n -> in_order (evs ++ [Enters now (short_circuits b now)]) ->
  short_circuits b now = true <-> exists until, tripped evs until /\ now < until.
Proof.
  intros [H1 H2]%exports_reflect [Ho _]%in_order_snoc. unfold short_circuits, Before. rewrite andb_true_iff, Z.ltb_lt. split.
  - intros [Hb Hlt]. eauto.
  - intros (until & Ht & Hlt). destruct (H2 Ho _ Ht). split; [done | lia].
Qed.

End breaker.

(** ** Witness: an endpoint without a metrics service, and a later probe *)

Definition demo_unimplemented : error := errors_New "unknown service".
Definition demo_status (e : error) : Z := if err_text e =s "unknown service" then 12 else codes_Unavailable.

Definition demo_exports : list export_event :=
  [Enters 10 false; Enters 20 false; Returns 30 (Some demo_unimplemented); Returns 40 (Some (errors_New "try again"))].

Lemma demo_exports_run : exports demo_status demo_exports (mkBreaker true (30 + probeInterval)) 0.
Proof.
  exact (exports_return demo_status [_; _; _] (mkBreaker true (30 + probeInterval)) 0 40 (Some (errors_New "try again"))
    (exports_return demo_status [_; _] breaker_zero 1 30 (Some demo_unimplemented)
      (exports_enter demo_status [_] breaker_zero 1 20 (exports_enter demo_status [] breaker_zero 0 10 (exports_start _))))).
Defined.

Lemma breaker_skips_only_dead_endpoints_witness :
  (short_circuits (mkBreaker true (30 + probeInterval)) 50 = true <-> exists until, tripped demo_status demo_exports until /\ 50 < until) /\
  short_circuits (mkBreaker true (30 + probeInterval)) 50 = true.
Proof.
  split; [| reflexivity]. apply (breaker_skips_only_dead_endpoints demo_status demo_exports _ 0); [exact demo_exports_run |].
  unfold in_order. vm_compute. repeat constructor; discriminate.
Defined.
