(* ===== verification/RattleSources.v ===== *)
(** * internal/rattle: the live sources of the reconciler

    source.go (the burn-rate window of an SLO, read from Prometheus' range API), the instant
    queries of traffic.go, topology.go, and [buildSources] of rattle.go.  The HTTP client, url
    encoding and the JSON decoder are parameters; the values of a sample are read as
    encoding/json reads them. *)

From S2P Require Import Prelude GoTime GoFloat GoParse Api Configfile Rattle Converge Evidence Topology Config.
Local Open Scope Z_scope.

Abbreviation Sample := Rattle.Sample.
Abbreviation mkSample := Rattle.mkSample.

(** ** source.go *)

(** the encoded query of one range request *)
Record RangeRequest : Type := mkRangeRequest {
  Range_URL : string;
  Range_Query : string;
  Range_Start : string;
  Range_End : string;
  Range_Step : string
}.

(** [promRangeResponse]; of a series only its values are read *)
Record promRangeResponse : Type := mkRangeResponse {
  Range_Status : string;
  Range_Result : list (list (json * json))
}.

(** [url.Parse] of the endpoint, [http.NewRequestWithContext], and [client.Do]: status code,
    status and decoded body *)
Record RangeClient (C : Type) : Type := mkRangeClient {
  RgC_Parse : string -> option error;
  RgC_NewRequest : RangeRequest -> option error;
  RgC_Do : RangeRequest -> C -> result (Z * string * result promRangeResponse)
}.
Arguments mkRangeClient {C}. Arguments RgC_Parse {C}. Arguments RgC_NewRequest {C}. Arguments RgC_Do {C}.

Record PromSource (C : Type) : Type := mkPromSource {
  Prom_BaseURL : string;
  Prom_Client : RangeClient C;
  Prom_Step : Duration;
  Prom_Window : Duration
}.
Arguments mkPromSource {C}. Arguments Prom_BaseURL {C}. Arguments Prom_Client {C}.
Arguments Prom_Step {C}. Arguments Prom_Window {C}.

Definition NewPromSource {C} (client : RangeClient C) (baseURL : string) : PromSource C :=
  mkPromSource baseURL client Minute (15 * Minute).

(** [int64(ts)]; what a value outside the type gives is left to the machine, and on amd64 is
    the least integer *)
Definition int64_of (ts : float64) : Z :=
  match ts with
  | S754_nan | S754_infinity _ => int64_min
  | _ => if (int64_min <=? trunc ts) && (trunc ts <=? int64_max) then trunc ts else int64_min
  end.

(** [time.Unix(int64(ts), 0)]: the seconds since the year 1 are an int64 *)
Definition unix_time (ts : float64) : Time := wrap64 (int64_of ts + unixToInternal) * Second.

Definition sample_of (v : json * json) : result Sample :=
  match Unmarshal_float v.1 with
  | None => inr (errors_New "parse sample timestamp")
  | Some ts =>
      match Unmarshal_string v.2 with
      | None => inr (errors_New "parse sample value")
      | Some raw =>
          match ParseFloat raw with
          | inr err => inr (errorf_w ("sample value " +:+ fmt_q raw +:+ " not a float: ") err)
          | inl rate => inl (mkSample (unix_time ts) rate)
          end
      end
  end.

Fixpoint samplesFromValues (values : list (json * json)) : result (list Sample) :=
  match values with
  | [] => inl []
  | v :: rest =>
      match sample_of v with
      | inr err => inr err
      | inl s => match samplesFromValues rest with inr err => inr err | inl ss => inl (s :: ss) end
      end
  end.

Definition burn_query (slo : SLO) : string := "slo:current_burn_rate:ratio{sloth_id=" +:+ fmt_q (SLO_ID slo) +:+ "}".

(** the request for an SLO at [now] *)
Definition range_request {C} (p : PromSource C) (slo : SLO) (now : Time) : RangeRequest :=
  let step := if Prom_Step p =? 0 then Minute else Prom_Step p in
  let window := if Prom_Window p =? 0 then 15 * Minute else Prom_Window p in
  mkRangeRequest (Prom_BaseURL p +:+ "/api/v1/query_range") (burn_query slo) (fmt_d (Unix (GoTime.Add now (- window)))) (fmt_d (Unix now))
    (fmt_d (trunc (Seconds step)) +:+ "s").

Definition BurnSamples {C} (p : PromSource C) (slo : SLO) (now : Time) (c : C) : result (list Sample) :=
  let rq := range_request p slo now in
  match RgC_Parse (Prom_Client p) (Range_URL rq) with
  | Some err => inr (errorf_w "prom base url: " err)
  | None =>
      match RgC_NewRequest (Prom_Client p) rq with
      | Some err => inr (errorf_w "build prom request: " err)
      | None =>
          match RgC_Do (Prom_Client p) rq c with
          | inr err => inr (errorf_w "query prometheus: " err)
          | inl (code, status, body) =>
              if negb (code =? StatusOK) then inr (errors_New ("prometheus returned " +:+ status))
              else match body with
                   | inr err => inr (errorf_w "decode prom body: " err)
                   | inl b =>
                       if Range_Status b <>s "success" then inr (errors_New ("prometheus status " +:+ fmt_q (Range_Status b) +:+ ", want success"))
                       else match Range_Result b with
                            | [] => inl []
                            | values :: _ => samplesFromValues values
                            end
                   end
          end
      end
  end.

(** ** traffic.go: [HubbleTrafficSource.instant] and the loader *)

Definition hubble_instant {C} (client : Client C) (baseURL query : string) (c : C) : result (option float64) :=
  match InstantQuery client baseURL query c with
  | inr err => inr (errorf_w "query hubble: " err)
  | inl [] => inl None
  | inl (s :: _) =>
      match Unmarshal_string (snd (Sample_Value s)) with
      | None => inr (errors_New "parse hubble value")
      | Some raw =>
          match ParseFloat raw with
          | inr err => inr (errorf_w ("hubble value " +:+ fmt_q raw +:+ " not a float: ") err)
          | inl f => inl (Some f)
          end
      end
  end.

(** the (id, affected, total) entries of the file, the last of an id kept *)
Definition LoadTrafficQueries (readFile : string -> result string) (unmarshal : string -> result (list (string * string * string)))
  (path : string) : result (gmap string TrafficQueries) :=
  match readFile path with
  | inr err => inr (errorf_w ("read traffic queries file " +:+ path +:+ ": ") err)
  | inl raw =>
      match unmarshal raw with
      | inr err => inr (errorf_w "parse traffic queries: " err)
      | inl slos => inl (fold_left (fun out s => <[s.1.1 := mkTrafficQueries s.1.2 s.2]> out) slos ∅)
      end
  end.

(** ** The reconciler of a process *)

Section sources.
(** the world of a pass, with its clock *)
Context {E : Type} (now : E -> Time).

(** the HTTP clients over one TLS configuration *)
Record RattleClients : Type := mkRattleClients { RtC_Range : RangeClient E; RtC_Instant : Client E }.

(** the files [buildSources] decodes *)
Record RattleFiles : Type := mkRattleFiles {
  RtF_ReadFile : string -> result string;
  RtF_states : string -> result (list (string * string));
  RtF_catalog : string -> result Catalog;
  RtF_traffic : string -> result (list (string * string * string))
}.

(** [WhirTopologySource.DependencyState] *)
Definition DependencyState (r : Resolver E) (dep : Dependency) (e : E) : E * result string :=
  (e, inl (Resolver_State r (Dependency_Name dep) e)).

Definition topology_of (f : RattleFiles) (cl : RattleClients) (cfg : RattleConfig)
  : result (option (Dependency -> E -> E * result string)) :=
  if (RC_WhirCatalog cfg =s "") || (RC_WhirStateQueries cfg =s "") then inl None
  else match LoadStateQueries (RC_WhirStateQueries cfg) (RtF_ReadFile f) (RtF_states f) with
       | inr err => inr (errorf_w "load state queries: " err)
       | inl queries =>
           match RtF_catalog f (RC_WhirCatalog cfg) with
           | inr err => inr (errorf_w "load whir catalog: " err)
           | inl _ => inl (Some (DependencyState (mkResolver (RC_PromURL cfg) (RtC_Instant cl) queries)))
           end
       end.

Definition traffic_of (f : RattleFiles) (cl : RattleClients) (cfg : RattleConfig)
  : result (option (SLO -> E -> E * result (list TrafficSample))) :=
  if RC_Traffic cfg =s "" then inl None
  else match LoadTrafficQueries (RtF_ReadFile f) (RtF_traffic f) (RC_Traffic cfg) with
       | inr err => inr (errorf_w "load traffic queries: " err)
       | inl queries => inl (Some (TrafficSamples (fun q e => (e, hubble_instant (RtC_Instant cl) (RC_PromURL cfg) q e)) queries now))
       end.

Definition buildSources (f : RattleFiles) (cl : RattleClients) (cfg : RattleConfig)
  : result (option (Dependency -> E -> E * result string) * option (SLO -> E -> E * result (list TrafficSample))) :=
  match topology_of f cl cfg with
  | inr err => inr err
  | inl topo => match traffic_of f cl cfg with inr err => inr err | inl traffic => inl (topo, traffic) end
  end.

(** [newReconciler] over a Prometheus source of the loaded query configuration *)
Definition prom_source (cl : RattleClients) (promURL : string) (query : QueryConfig) : PromSource E :=
  mkPromSource promURL (RtC_Range cl) (QC_Step query) (QC_Window query).

Definition prom_reconciler (cl : RattleClients) (promURL : string) (slos : list SLO)
  (topo : option (Dependency -> E -> E * result string)) (traffic : option (SLO -> E -> E * result (list TrafficSample)))
  (query : QueryConfig) : Reconciler * option Debouncer :=
  newReconciler (fun slo e => (e, BurnSamples (prom_source cl promURL query) slo (now e) e)) slos topo traffic now query.

(** ** What a window is *)

(** a window is nothing, when Prometheus has no series for the SLO, or the first series it
    answered with, value by value *)
Lemma samplesFromValues_spec values ss : samplesFromValues values = inl ss <-> Forall2 (fun v s => sample_of v = inl s) values ss.
Proof.
  revert ss. induction values as [| v values IH]; intros ss; cbn [samplesFromValues].
  - split; [intros [= <-]; constructor | by inversion 1].
  - destruct (sample_of v) as [s | err] eqn:Ev; [destruct (samplesFromValues values) as [ss' | err] eqn:Es |].
    + split; [intros [= <-]; constructor; [done | by apply IH] | inversion 1 as [| ? s' ? ss'' Hv Hs]; subst; apply IH in Hs; congruence].
    + split; [done | inversion 1 as [| ? s' ? ss'' Hv Hs]; subst; by apply IH in Hs].
    + split; [done | inversion 1 as [| ? s' ? ss'' Hv Hs]; subst; congruence].
Qed.

Lemma BurnSamples_spec (p : PromSource E) slo t c ss : BurnSamples p slo t c = inl ss ->
  exists status b, RgC_Do (Prom_Client p) (range_request p slo t) c = inl (200, status, inl b) /\ Range_Status b = "success" /\
    match Range_Result b with [] => ss = [] | values :: _ => Forall2 (fun v s => sample_of v = inl s) values ss end.
Proof.
  unfold BurnSamples. destruct (RgC_Parse _ _); [done |]. destruct (RgC_NewRequest _ _); [done |].
  destruct (RgC_Do _ _ _) as [[[code status] body] |]; [| done]. destruct (negb _) eqn:Ec; [done |].
  apply negb_false_iff, Z.eqb_eq in Ec. unfold StatusOK in Ec. subst code. destruct body as [b |]; [| done].
  destruct (Range_Status b <>s "success") eqn:Es; [done |]. apply negb_false_iff, String.eqb_eq in Es.
  intros Hr. exists status, b. split; [done |]. split; [done |]. destruct (Range_Result b) as [| values rest]; [by injection Hr |].
  by apply samplesFromValues_spec.
Qed.

(** [d] was read off Prometheus: it is for an SLO of the watch list, and the first series of a
    complete answer to that SLO's range query, value by value, is a fresh window on which one of
    the two wired detectors fired *)
Definition ReadOff (cl : RattleClients) (promURL : string) (slos : list SLO) (query : QueryConfig) (d : Detection) : Prop :=
  exists slo t e1 status b values rest window,
    slo ∈ slos /\ Detection_SLORef d = SLO_ID slo /\ Detection_Fingerprint d = fingerprint slo /\ Detection_ContractRef d = SLO_ContractRef slo /\
    RgC_Do (RtC_Range cl) (range_request (prom_source cl promURL query) slo t) e1 = inl (200, status, inl b) /\
    Range_Status b = "success" /\ Range_Result b = values :: rest /\ Forall2 (fun v s => sample_of v = inl s) values window /\
    Fresh (mkSignalContract (QC_FreshnessBound query) 0 fhalf []) window (Detection_DetectedAt d) = true /\
    let accel := Accel_Detect (mkAccel fhalf) window in
    let sustained := Sus_Detect (mkSustained f1 (Z.to_nat (QC_SustainedMinSamples query))) window in
    (Detection_DetectorType d = "burn_rate_acceleration" /\ accel.1 = true /\ Divergence_Observed (Detection_Divergence d) = accel.2 \/
     Detection_DetectorType d = "sustained_burn" /\ accel.1 = false /\ sustained.1 = true /\ Divergence_Observed (Detection_Divergence d) = sustained.2).

(** Every detection of the process rattle runs was read off Prometheus: it is for an SLO of
    the watch list, it carries that SLO's fingerprint and contract, and there is an answer to
    the range query of that SLO, complete and successful, whose first series, value by value,
    is a fresh window on which one of the two wired detectors fired with the level reported:
    the acceleration detector, or, when it did not, the sustained-burn detector. *)
Theorem detections_are_read_from_prometheus cl promURL slos topo traffic query n e d :
  let '(r, deb) := prom_reconciler cl promURL slos topo traffic query in
  d ∈ passes r n deb e -> ReadOff cl promURL slos query d.
Proof.
  destruct (prom_reconciler _ _ _ _ _ _) as [r deb] eqn:Er. intros Hd. destruct (passes_backed r n deb e d Hd) as (slo & Hin & Hb).
  unfold prom_reconciler, newReconciler in Er. injection Er as <- _. simpl in Hin.
  destruct Hb as (e0 & e1 & window & Hsrc & Hfresh & Hfired & Hfp & _ & Hslo & Hcontract & _). simpl in Hsrc. injection Hsrc as -> Hsrc.
  specialize (Hfresh _ eq_refl). apply BurnSamples_spec in Hsrc as (status & b & Hdo & Hok & Hres).
  destruct (Range_Result b) as [| values rest] eqn:Ev; [by subst window |].
  exists slo, (now e1), e1, status, b, values, rest, window. repeat (split; [done |]).
  inversion Hfired as [Ha | s Ha [= <-] Hs | cd src e2 e3 ms _ _ [=] | ed src e2 e3 base _ _ [=]]; auto.
Qed.

End sources.

(** a step below a second is loaded by [LoadQueryConfig] and asked for as zero seconds, which
    Prometheus refuses *)
Lemma subsecond_step_is_zero {E} (cl : RattleClients (E := E)) promURL slo t window :
  Range_Step (range_request (prom_source cl promURL (mkQueryConfig (500 * Millisecond) window Minute Second 3 Hour Hour)) slo t) = "0s".
Proof. vm_compute. reflexivity. Qed.

(** ** Witness: one series with a rising burn *)

Definition demo_series : list (json * json) :=
  [(JNum "20", JStr "1"); (JNum "80", JStr "2"); (JNum "140", JStr "4"); (JNum "200", JStr "8")].

Definition demo_range : RangeClient unit :=
  mkRangeClient (fun _ => None) (fun _ => None) (fun rq _ =>
    if Range_Query rq =s burn_query Rattle.demo.checkout then inl (200, "200 OK"%string, inl (mkRangeResponse "success" [demo_series]))
    else inr (errors_New "no such query")).

Definition demo_clients : RattleClients := mkRattleClients demo_range (mkClient (fun _ => None) (fun _ _ _ => inr (errors_New "down"))).

Definition demo_clock (_ : unit) : Time := unix_time (of_int 210).

Definition demo_query : QueryConfig := mkQueryConfig Minute (15 * Minute) Minute (30 * Second) 3 (10 * Minute) (5 * Minute).

Definition demo_process := prom_reconciler demo_clock demo_clients "http://prom" [Rattle.demo.checkout] None None demo_query.

Lemma detections_are_read_from_prometheus_witness :
  exists d, passes demo_process.1 1 demo_process.2 tt = [d] /\
  ReadOff demo_clients "http://prom" [Rattle.demo.checkout] demo_query d.
Proof.
  destruct (passes demo_process.1 1 demo_process.2 tt) as [| d [| d' ds]] eqn:E; [vm_compute in E; discriminate E | | vm_compute in E; discriminate E].
  exists d. split; [reflexivity |].
  pose proof (detections_are_read_from_prometheus demo_clock demo_clients "http://prom" [Rattle.demo.checkout] None None demo_query 1 tt d) as H.
  unfold demo_process in E. destruct (prom_reconciler _ _ _ _ _ _ _) as [r deb]. cbn [fst snd] in E. rewrite E in H. apply H. left.
Defined.
