(* ===== verification/Telemetry.v ===== *)
(** * internal/clank/metrics.go, internal/beat/stage.go: what the beats count

    The [Recorder] of the Learn edge and the [StageRecorder] of the loop's stages.  The
    series of the Prometheus client are kept as what went into them: a counter as its
    increments and a histogram as its observations, each under its label values; what an
    exposition shows of them is computed from that.  The theorems say what the counters
    count, that the calibration counter and the confidence histogram slice alike, and that a
    stage changes nothing of what it measures. *)

From S2P Require Import Prelude GoTime GoFloat Api ClankScore ClankLedger.
Local Open Scope Z_scope.

(** ** The series of the Prometheus client *)

Abbreviation CounterVec := (list (list string)) (only parsing).
Abbreviation HistogramVec := (list (list string * float64)) (only parsing).

(** the value of a counter under [labels] *)
Definition value (v : CounterVec) (labels : list string) : nat := length (List.filter (fun l => bool_decide (l = labels)) v).

(** the cumulative bucket [le] of a histogram under [labels] *)
Definition bucket_le (h : HistogramVec) (labels : list string) (le : float64) : nat :=
  length (List.filter (fun o => bool_decide (o.1 = labels) && fle o.2 le) h).

(** ** metrics.go *)

Definition confidenceBuckets : list float64 := [flit 5 10; flit 6 10; flit 7 10; flit 8 10; flit 9 10; f1].

Record Recorder : Type := mkRecorder {
  Re_resolutions : CounterVec; (* tier, class, outcome, intervention *)
  Re_confidence : HistogramVec; (* class *)
  Re_calibration : CounterVec; (* confidence_bucket, success *)
  Re_effectiveness : list float64;
  Re_redeliveries : nat
}.

Definition NewRecorder : Recorder := mkRecorder [] [] [] [] 0.

Definition recordRedeliverySkipped (r : Recorder) : Recorder :=
  mkRecorder (Re_resolutions r) (Re_confidence r) (Re_calibration r) (Re_effectiveness r) (S (Re_redeliveries r)).

Definition resolution_labels (set : ProposalSet) (o : Outcome) : list string :=
  [Set_ServiceTier set; Set_FailureClass set; Outcome_Result o; "none"%string].

Definition recordResolution (set : ProposalSet) (o : Outcome) (r : Recorder) : Recorder :=
  mkRecorder (Re_resolutions r ++ [resolution_labels set o]) (Re_confidence r) (Re_calibration r) (Re_effectiveness r) (Re_redeliveries r).

(** the first candidate named by [Recommended] *)
Definition recommendedConfidence (set : ProposalSet) : option float64 :=
  Candidate_Confidence <$> List.find (fun cand => Candidate_ID cand =s Set_Recommended set) (Set_Proposals set).

(** the loop over [confidenceBuckets] from its second boundary, [prev] being the one before *)
Fixpoint bucket_from (prev conf : float64) (bs : list float64) : string :=
  match bs with
  | [] => ">" +:+ fmt_f 1 prev
  | b :: bs' => if fle conf b then fmt_f 1 prev +:+ "-" +:+ fmt_f 1 b else bucket_from b conf bs'
  end.

Definition confidenceBucket (conf : float64) : string :=
  match confidenceBuckets with
  | [] => ""
  | b :: bs => if flt conf b then "<" +:+ fmt_f 1 b else bucket_from b conf bs
  end.

Definition FormatBool (b : bool) : string := if b then "true" else "false".

Definition terminal (o : Outcome) : bool :=
  (Outcome_Result o =s ResultSuccess) || (Outcome_Result o =s ResultFailure) || (Outcome_Result o =s ResultPartialNonConverging).

Definition recordCalibration (set : ProposalSet) (o : Outcome) (r : Recorder) : Recorder :=
  if negb (terminal o) then r
  else match recommendedConfidence set with
       | None => r
       | Some conf =>
           mkRecorder (Re_resolutions r) (Re_confidence r ++ [([Set_FailureClass set], conf)])
             (Re_calibration r ++ [[confidenceBucket conf; FormatBool (Outcome_Result o =s ResultSuccess)]])
             (Re_effectiveness r) (Re_redeliveries r)
       end.

(** the first candidate named by [Recommended] that carries a forecast *)
Definition recommendedPrediction (set : ProposalSet) : option float64 :=
  c ← List.find (fun c => (Candidate_ID c =s Set_Recommended set) && bool_decide (is_Some (Candidate_PredictedImpact c))) (Set_Proposals set);
  PredictedImpact_SeverityReductionPct <$> Candidate_PredictedImpact c.

Definition preSeverity (set : ProposalSet) : option float64 :=
  (fun sao => Severity_DegradationPct (SignalSnapshot_Severity (SAO_Signal sao))) <$> Set_SAOSnapshot set.

Definition recordEffectiveness (set : ProposalSet) (o : Outcome) (r : Recorder) : Recorder :=
  if negb ((Outcome_Result o =s ResultSuccess) || (Outcome_Result o =s ResultPartialNonConverging)) then r
  else match Outcome_ObservedSeverity o with
       | None => r
       | Some observed =>
           match recommendedPrediction set with
           | None => r
           | Some pred =>
               match preSeverity set with
               | None => r
               | Some pre =>
                   mkRecorder (Re_resolutions r) (Re_confidence r) (Re_calibration r)
                     (Re_effectiveness r ++ [fsub pred (fsub pre observed)]) (Re_redeliveries r)
               end
           end
       end.

(** ** click.go: [Absorb] with its recorder *)

Definition record_absorbed (set : ProposalSet) (o : Outcome) (r : Recorder) : Recorder :=
  recordEffectiveness set o (recordCalibration set o (recordResolution set o r)).

(** the recorder after [Click.Absorb]; [None] is a click without one *)
Definition Absorb_metrics (ctx : context) (o : Outcome) (c : Click) (rec : option Recorder) : option Recorder :=
  match Outcome_Auditable o with
  | Some _ => rec
  | None =>
      if negb (coherent o) then rec
      else match Observe ctx o (Click_Ledger c) with
           | (_, inr _) => rec
           | (_, inl set) => record_absorbed set o <$> rec
           end
  end.

(** the outcomes of a history, absorbed one after the other *)
Fixpoint absorb_all (os : list Outcome) (c : Click) (r : Recorder) : Click * Recorder :=
  match os with
  | [] => (c, r)
  | o :: os' => absorb_all os' (Absorb Background o c).1 (default r (Absorb_metrics Background o c (Some r)))
  end.

(** ** stage.go *)

Record StageRecorder : Type := mkStageRecorder { St_duration : HistogramVec; St_errors : CounterVec }.

Definition NewStageRecorder : StageRecorder := mkStageRecorder [] [].

Definition observe (stage : string) (dur : Duration) (err : option error) (r : StageRecorder) : StageRecorder :=
  mkStageRecorder (St_duration r ++ [([stage], Seconds dur)])
    match err with Some _ => St_errors r ++ [[stage]] | None => St_errors r end.

(** what a stage leaves on its span and in the log *)
Record StageRun : Type := mkStageRun {
  Run_name : string;
  Run_error : option string; (* the span's recorded error and status; the log's level *)
  Run_ms : Z
}.

(** [start] is the clock before [fn] and [finish] the one [time.Since] reads *)
Definition Stage {W : Type} (rec : option StageRecorder) (name : string) (fn : W -> W * option error) (start finish : Time) (w : W)
  : W * option error * option StageRecorder * StageRun :=
  let '(w', err) := fn w in
  let dur := Sub finish start in
  (w', err, observe name dur err <$> rec, mkStageRun name (err_text <$> err) (Z.quot dur Millisecond)).

(** ** What the counters count *)

(** the sets a history of outcomes closed or moved, each with its outcome *)
Fixpoint absorbed (os : list Outcome) (c : Click) : list (ProposalSet * Outcome) :=
  match os with
  | [] => []
  | o :: os' =>
      (if bool_decide (Outcome_Auditable o = None) && coherent o then
         match Observe Background o (Click_Ledger c) with (_, inl set) => [(set, o)] | (_, inr _) => [] end
       else []) ++ absorbed os' (Absorb Background o c).1
  end.

Lemma absorb_all_records os c r :
  (absorb_all os c r).2 = fold_left (fun r so => record_absorbed so.1 so.2 r) (absorbed os c) r.
Proof.
  revert c r. induction os as [| o os IH]; intros c r; [done |]. cbn [absorb_all absorbed]. rewrite fold_left_app, IH. f_equal.
  unfold Absorb_metrics. destruct (Outcome_Auditable o); [done |]. rewrite bool_decide_eq_true_2 by done.
  destruct (coherent o); [| done]. by destruct (Observe Background o (Click_Ledger c)) as [l' [set | e]].
Qed.

(** the calibration sample of one absorbed outcome: the class, the stated confidence, and
    whether it was right *)
Definition sample (so : ProposalSet * Outcome) : option (string * float64 * bool) :=
  if terminal so.2 then (fun conf => (Set_FailureClass so.1, conf, Outcome_Result so.2 =s ResultSuccess)) <$> recommendedConfidence so.1 else None.

(** the residual of one absorbed outcome, where there is a forecast and a measurement *)
Definition residual (so : ProposalSet * Outcome) : option float64 :=
  if (Outcome_Result so.2 =s ResultSuccess) || (Outcome_Result so.2 =s ResultPartialNonConverging) then
    observed ← Outcome_ObservedSeverity so.2; pred ← recommendedPrediction so.1; pre ← preSeverity so.1; Some (fsub pred (fsub pre observed))
  else None.

Definition as_list {A} (o : option A) : list A := match o with Some x => [x] | None => [] end.

Lemma record_absorbed_eq so r :
  record_absorbed so.1 so.2 r =
  mkRecorder (Re_resolutions r ++ [resolution_labels so.1 so.2])
    (Re_confidence r ++ map (fun s => ([s.1.1], s.1.2)) (as_list (sample so)))
    (Re_calibration r ++ map (fun s => [confidenceBucket s.1.2; FormatBool s.2]) (as_list (sample so)))
    (Re_effectiveness r ++ as_list (residual so)) (Re_redeliveries r).
Proof.
  unfold record_absorbed, recordCalibration, recordEffectiveness, sample, residual, recordResolution.
  destruct (terminal so.2); cbn [negb];
    [destruct (recommendedConfidence so.1) as [conf |] |];
    (destruct ((_ =s ResultSuccess) || (_ =s ResultPartialNonConverging))%bool; cbn [negb];
     [destruct (Outcome_ObservedSeverity so.2) as [observed |]; [destruct (recommendedPrediction so.1) as [pred |]; [destruct (preSeverity so.1) as [pre |] |] |] |]);
    cbn; rewrite ?app_nil_r; try reflexivity; by destruct r.
Qed.

(** The recorder after a history is its absorbed outcomes, each counted once: every one is a
    resolution, the settled ones with a recommendation are the calibration samples, in the
    histogram and in the counter, and the measured ones with a forecast the residuals. *)
Theorem recorder_is_the_history os c r :
  let sos := absorbed os c in let r' := (absorb_all os c r).2 in
  Re_resolutions r' = Re_resolutions r ++ map (fun so => resolution_labels so.1 so.2) sos /\
  Re_confidence r' = Re_confidence r ++ map (fun s => ([s.1.1], s.1.2)) (omap sample sos) /\
  Re_calibration r' = Re_calibration r ++ map (fun s => [confidenceBucket s.1.2; FormatBool s.2]) (omap sample sos) /\
  Re_effectiveness r' = Re_effectiveness r ++ omap residual sos /\ Re_redeliveries r' = Re_redeliveries r.
Proof.
  intros sos r'. subst r'. rewrite absorb_all_records. fold sos. clearbody sos. revert r.
  induction sos as [| so sos IH]; intros r; [by rewrite !app_nil_r |]. cbn [fold_left]. rewrite record_absorbed_eq.
  destruct (IH (mkRecorder (Re_resolutions r ++ [resolution_labels so.1 so.2])
    (Re_confidence r ++ map (fun s => ([s.1.1], s.1.2)) (as_list (sample so)))
    (Re_calibration r ++ map (fun s => [confidenceBucket s.1.2; FormatBool s.2]) (as_list (sample so)))
    (Re_effectiveness r ++ as_list (residual so)) (Re_redeliveries r))) as (-> & -> & -> & -> & ->).
  cbn [Re_resolutions Re_confidence Re_calibration Re_effectiveness Re_redeliveries]. rewrite <- !app_assoc.
  cbn [omap list_omap]. destruct (sample so), (residual so); done.
Qed.

(** ** The two series slice alike, but at the floor *)

Lemma fle_antisym_feq x y : fle x y = true -> fle y x = true -> feq x y = true.
Proof.
  intros (Hx & Hy & H1)%fle_iff (_ & _ & H2)%fle_iff. unfold feq, SFeqb.
  by destruct (SFcompare_key x y Hx Hy) as ([] & -> & H).
Qed.

(** the label with the boundaries' digits *)
Lemma confidenceBucket_eq conf : confidenceBucket conf =
  (if flt conf (flit 5 10) then "<0.5" else if fle conf (flit 6 10) then "0.5-0.6" else if fle conf (flit 7 10) then "0.6-0.7" else
   if fle conf (flit 8 10) then "0.7-0.8" else if fle conf (flit 9 10) then "0.8-0.9" else if fle conf f1 then "0.9-1.0" else ">1.0")%string.
Proof. reflexivity. Qed.

Lemma boundaries_ascend conf :
  (fle conf (flit 5 10) = true -> fle conf (flit 6 10) = true) /\ (fle conf (flit 6 10) = true -> fle conf (flit 7 10) = true) /\
  (fle conf (flit 7 10) = true -> fle conf (flit 8 10) = true) /\ (fle conf (flit 8 10) = true -> fle conf (flit 9 10) = true) /\
  (fle conf (flit 9 10) = true -> fle conf f1 = true).
Proof. repeat split; intros H; (eapply fle_trans; [exact H | vm_compute; reflexivity]). Qed.

(** A confidence off the lowest boundary carries the label of the histogram's slice it
    falls in. *)
Lemma bucket_is_the_slice conf i lo hi :
  confidenceBuckets !! i = Some lo -> confidenceBuckets !! S i = Some hi -> feq conf (flit 5 10) = false ->
  bool_decide (confidenceBucket conf = fmt_f 1 lo +:+ "-" +:+ fmt_f 1 hi) = negb (fle conf lo) && fle conf hi.
Proof.
  intros Hlo Hhi Hne. rewrite confidenceBucket_eq. destruct (boundaries_ascend conf) as (M5 & M6 & M7 & M8 & M9).
  assert (flt conf (flit 5 10) = fle conf (flit 5 10) \/ is_nan conf = true) as Hfl.
  { destruct (is_nan conf) eqn:En; [by right |]. left. destruct (flt conf (flit 5 10)) eqn:Ef; [symmetry; by apply flt_fle |].
    destruct (fle conf (flit 5 10)) eqn:El; [| done]. apply flt_false_iff in Ef as [Ef | [[=] | Ef]]; [congruence |].
    by rewrite (fle_antisym_feq _ _ El Ef) in Hne. }
  destruct Hfl as [-> | Hn]; [| destruct conf; try discriminate Hn; do 5 (destruct i; [injection Hlo as <-; injection Hhi as <-; reflexivity |]); by destruct i].
  do 5 (destruct i as [| i]; [injection Hlo as <-; injection Hhi as <-;
    repeat match goal with |- context [fle conf ?b] => let E := fresh "E" in destruct (fle conf b) eqn:E end;
    first [reflexivity | exfalso; intuition congruence] |]).
  by destruct i.
Qed.

Lemma calibration_labels_inj l l' x y : [l; FormatBool x] = [l'; FormatBool y] <-> l = l' /\ x = y.
Proof. split; [| by intros [-> ->]]. intros H. injection H as -> H. by destruct x, y. Qed.

(** the cumulative bucket [le] over every label *)
Definition total_le (h : HistogramVec) (le : float64) : nat := length (List.filter (fun o => fle o.2 le) h).

(** The calibration counter and the confidence histogram slice alike: after any history in
    which no settled set stated a confidence of exactly the lowest boundary, the hits and the
    misses counted under a slice are the histogram's observations in it. *)
Theorem calibration_slices_as_the_histogram os c i lo hi :
  confidenceBuckets !! i = Some lo -> confidenceBuckets !! S i = Some hi ->
  Forall (fun s => feq s.1.2 (flit 5 10) = false) (omap sample (absorbed os c)) ->
  let r := (absorb_all os c NewRecorder).2 in let label := fmt_f 1 lo +:+ "-" +:+ fmt_f 1 hi in
  (value (Re_calibration r) [label; "true"%string] + value (Re_calibration r) [label; "false"%string] + total_le (Re_confidence r) lo =
   total_le (Re_confidence r) hi)%nat.
Proof.
  intros Hlo Hhi Hne. cbv zeta. destruct (recorder_is_the_history os c NewRecorder) as (_ & -> & -> & _).
  cbn [NewRecorder Re_confidence Re_calibration app]. assert (fle lo hi = true) as Hle.
  { do 5 (destruct i; [injection Hlo as <-; injection Hhi as <-; vm_compute; reflexivity |]). by destruct i. }
  unfold value, total_le. induction Hne as [| s ss Hs _ IH]; [done |]. cbn [map List.filter].
  pose proof (bucket_is_the_slice s.1.2 i lo hi Hlo Hhi Hs) as Hb. set (label := fmt_f 1 lo +:+ "-" +:+ fmt_f 1 hi) in *. cbn [snd].
  assert (fle s.1.2 lo = true -> fle s.1.2 hi = true) as Hm by (intros ?; by eapply fle_trans).
  assert (forall b, bool_decide ([confidenceBucket s.1.2; FormatBool s.2] = [label; FormatBool b]) =
    (negb (fle s.1.2 lo) && fle s.1.2 hi && Bool.eqb s.2 b)%bool) as Hd.
  { intros b. rewrite <- Hb. apply eq_true_iff_eq. rewrite bool_decide_eq_true, !andb_true_iff, bool_decide_eq_true, Bool.eqb_true_iff.
    apply calibration_labels_inj. }
  pose proof (Hd true) as Ht. pose proof (Hd false) as Hf. cbn [FormatBool] in Ht, Hf. rewrite Ht, Hf.
  destruct (fle s.1.2 lo), (fle s.1.2 hi), s.2; cbn -[fle] in *; try lia; by specialize (Hm eq_refl).
Qed.

(** A confidence of exactly the lowest boundary is in the histogram's slice below it and
    carries the label of the one above. *)
Theorem floor_is_sliced_twice : confidenceBucket (flit 5 10) = "0.5-0.6"%string /\ fle (flit 5 10) (flit 5 10) = true.
Proof. split; reflexivity. Qed.

(** ** One sample per proposal *)

Definition opens (sets : list recorded) : nat := length (List.filter (fun r => open_set (recorded_set r)) sets).

Definition open_count (l : MemProposalLog) : nat := opens (Ledger_sets l).

Lemma opens_cons r post : opens (r :: post) = ((if open_set (recorded_set r) then 1 else 0) + opens post)%nat.
Proof. unfold opens. cbn [List.filter]. destruct (open_set (recorded_set r)); reflexivity. Qed.

Lemma open_count_app pre r post ret :
  open_count (mkLedger ret (pre ++ r :: post)) = (opens pre + (if open_set (recorded_set r) then 1 else 0) + opens post)%nat.
Proof. unfold open_count. cbn [Ledger_sets]. rewrite <- Nat.add_assoc, <- opens_cons. unfold opens. by rewrite List.filter_app, length_app. Qed.

(** an outcome that settles closes one open set, any other closes none *)
Lemma Observe_open_count ctx o l l' set : Observe ctx o l = (l', inl set) ->
  (open_count l' + (if terminal o then 1 else 0) <= open_count l)%nat.
Proof.
  unfold Observe. destruct (ctx_Err ctx); [done |]. intros (pre & r & post & Hl & Ha & _ & Hl' & _)%update_newest_open_Some.
  destruct l as [ret sets], l' as [ret' sets']. simpl in Hl, Hl'. subst sets sets'. rewrite !open_count_app, recorded_set_on_status.
  apply andb_true_iff in Ha as [_ Ho]. rewrite Ho. unfold open_set, on_set_status in *. destruct (Set_Status (recorded_set r)); [| done].
  cbn [Set_Status with_status]. destruct (terminal o) eqn:Ht; [| destruct (isOpen (Status_Phase (transition s o))); cbn [negb]; cbv iota; lia].
  enough (isOpen (Status_Phase (transition s o)) = false) as -> by (cbv iota; lia).
  unfold transition. unfold terminal in Ht. destruct (Outcome_Result o =s ResultRendered) eqn:E1.
  { apply String.eqb_eq in E1. rewrite E1 in Ht. discriminate Ht. }
  destruct (Outcome_Result o =s ResultApplied) eqn:E2; [apply String.eqb_eq in E2; rewrite E2 in Ht; discriminate Ht |].
  rewrite Ht. reflexivity.
Qed.

Lemma Absorb_open_count o c r :
  (length (Re_calibration (default r (Absorb_metrics Background o c (Some r)))) + open_count (Click_Ledger (Absorb Background o c).1)
   <= length (Re_calibration r) + open_count (Click_Ledger c))%nat.
Proof.
  unfold Absorb_metrics, Absorb. destruct (Outcome_Auditable o); [done |]. destruct (coherent o); [| done].
  destruct (Observe Background o (Click_Ledger c)) as [l' [set | e]] eqn:Eo; cbn [negb default fmap option_fmap option_map].
  - apply Observe_open_count in Eo. pose proof (record_absorbed_eq (set, o) r) as Hr. cbn [fst snd] in Hr. rewrite Hr. cbn [from_option id Re_calibration].
    destruct (Append _ _) as [cb' err]. rewrite length_app, length_map. unfold sample. cbn [fst snd Click_Ledger].
    destruct (terminal o); [destruct (recommendedConfidence set) |]; simpl; lia.
  - unfold Observe in Eo. simpl in Eo. apply update_newest_open_None in Eo as [-> _]. done.
Qed.

(** Confidence is sampled once per proposal: a history adds no more samples than the sets it
    closes, however many outcomes answer to each. *)
Theorem one_sample_per_proposal os c r :
  (length (Re_calibration (absorb_all os c r).2) + open_count (Click_Ledger (absorb_all os c r).1)
   <= length (Re_calibration r) + open_count (Click_Ledger c))%nat.
Proof.
  revert c r. induction os as [| o os IH]; intros c r; [done |]. cbn [absorb_all].
  etransitivity; [apply IH | apply Absorb_open_count].
Qed.

(** ** Stages *)

(** A stage is transparent: what it returns and changes is what [fn] does. *)
Lemma Stage_transparent {W} rec name (fn : W -> W * option error) start finish w : (Stage rec name fn start finish w).1.1 = fn w.
Proof. unfold Stage. by destruct (fn w). Qed.

(** the stages of a loop, each with the clock around it *)
Fixpoint stages {W : Type} (runs : list (string * (W -> W * option error) * Time * Time)) (rec : StageRecorder) (w : W) : W * StageRecorder :=
  match runs with
  | [] => (w, rec)
  | (name, fn, start, finish) :: runs' =>
      match Stage (Some rec) name fn start finish w with (w', _, rec', _) => stages runs' (default rec rec') w' end
  end.

Definition observations (h : HistogramVec) (labels : list string) : nat := length (List.filter (fun o => bool_decide (o.1 = labels)) h).

(** A stage's errors are counted among its durations: the error rate of a stage, errors over
    observations, is at most one. *)
Theorem stage_errors_are_observed {W} runs rec (w : W) stage :
  (value (St_errors rec) [stage] <= observations (St_duration rec) [stage])%nat ->
  let rec' := (stages runs rec w).2 in (value (St_errors rec') [stage] <= observations (St_duration rec') [stage])%nat.
Proof.
  revert rec w. induction runs as [| [[[name fn] start] finish] runs IH]; intros rec w H; [done |]. cbn [stages]. unfold Stage.
  destruct (fn w) as [w' err]. apply IH. cbn [fmap option_fmap option_map default from_option id]. unfold observe, value, observations in *.
  cbn [St_errors St_duration]. rewrite List.filter_app, length_app. cbn [List.filter fst].
  destruct err; [rewrite List.filter_app, length_app; cbn [List.filter] |]; destruct (bool_decide ([name] = [stage])); simpl; lia.
Qed.
