(* ===== verification/Lifecycle.v ===== *)
(** * internal/beat, internal/broker/connect.go: the life of a process

    What every Main shares: the flags and the signal-cancelled context of [Start] (beat.go),
    the listeners of [Metrics] (metrics.go), the connection of connect.go with the hooks of
    consumer.go, the WAL configuration and publishers, and the exit code.  A process is the
    trace of what it acquires, releases and serves, with the code it exits with; a deferred
    call releases on every path out of the function that deferred it. *)

From Stdlib Require Import Ascii.
From S2P Require Import Prelude GoTime Strings GoParse Configfile Config Tlsx Broker.
Local Open Scope Z_scope.

(** ** Traces *)

(** a listener of [beat.Metrics]: its address, whether it serves TLS, and its routes *)
Record Server : Type := mkServer { Server_Addr : string; Server_TLS : bool; Server_Routes : list string }.

Inductive resource : Type :=
| TheSignals
| TheTracer
| TheListeners (l : list Server)
| TheRunContext
| TheConnection
| TheWAL (subject : string).

#[export] Instance Server_eq_dec : EqDecision Server.
Proof. solve_decision. Defined.
#[export] Instance resource_eq_dec : EqDecision resource.
Proof. solve_decision. Defined.

Inductive effect (T : Type) : Type :=
| Opens (r : resource)
| Releases (r : resource)
| Prints (text : string)
| SaysReady
| Serves (what : T).
Arguments Opens {T}. Arguments Releases {T}. Arguments Prints {T}. Arguments SaysReady {T}. Arguments Serves {T}.

(** what [Main] does and the code it returns *)
Definition proc (T : Type) : Type := list (effect T) * Z.

Section proc.
Context {T : Type}.

Definition exits (code : Z) : proc T := ([], code).

Definition does (e : effect T) (p : proc T) : proc T := (e :: p.1, p.2).

(** acquire [r], [defer] its release, and go on *)
Definition deferring (r : resource) (p : proc T) : proc T := (Opens r :: p.1 ++ [Releases r], p.2).

(** [if err != nil { slog.Error(...); return 1 }] *)
Definition need {A} (r : result A) (k : A -> proc T) : proc T := match r with inl x => k x | inr _ => exits 1 end.

Definition need_ok (err : option error) (p : proc T) : proc T := match err with None => p | Some _ => exits 1 end.

End proc.

(** ** beat.go: [Start] *)

Inductive parsed : Type :=
| ParsedFlags (version once : bool)
| ParsedHelp
| ParsedError (err : error).

(** the name and the value of a flag: [strings.Cut(name, "=")], from the second byte on *)
Fixpoint cut_value (s : string) : string * option string :=
  match s with
  | EmptyString => (EmptyString, None)
  | String c s' => if Ascii.eqb c "="%char then (EmptyString, Some s') else let '(n, v) := cut_value s' in (String c n, v)
  end.

Definition flag_name (s : string) : string * option string :=
  match s with EmptyString => (EmptyString, None) | String c s' => let '(n, v) := cut_value s' in (String c n, v) end.

(** the text after one or two minuses, [None] for an argument that is not a flag and
    [Some ""] for the terminator *)
Definition after_minuses (arg : string) : option string :=
  match arg with
  | String "-"%char (String "-"%char rest) => Some rest
  | String "-"%char (String c rest) => Some (String c rest)
  | _ => None
  end.

(** [flag.FlagSet.Parse] of the two boolean flags, under [ContinueOnError] *)
Fixpoint parse_flags (args : list string) (version once : bool) : parsed :=
  match args with
  | [] => ParsedFlags version once
  | arg :: rest =>
      match after_minuses arg with
      | None => ParsedFlags version once
      | Some "" => ParsedFlags version once
      | Some (String c name as whole) =>
          if Ascii.eqb c "-"%char || Ascii.eqb c "="%char then ParsedError (errors_New ("bad flag syntax: " +:+ arg))
          else
            let '(name, value) := flag_name whole in
            let set := match value with None => inl true | Some v => ParseBool v end in
            if name =s "version" then
              match set with inl b => parse_flags rest b once | inr err => ParsedError err end
            else if name =s "once" then
              match set with inl b => parse_flags rest version b | inr err => ParsedError err end
            else if (name =s "help") || (name =s "h") then ParsedHelp
            else ParsedError (errors_New ("flag provided but not defined: -" +:+ name))
      end
  end.

Record Version : Type := mkVersion { Ver_Version : string; Ver_Commit : string; Ver_Date : string }.

Definition version_text (name : string) (v : Version) : string :=
  name +:+ " " +:+ Ver_Version v +:+ newline +:+ "commit: " +:+ Ver_Commit v +:+ newline +:+ "built: " +:+ Ver_Date v +:+ newline.

(** [Start], and the Main that goes on with its [Lifecycle]: [--once] and NATS_URL *)
Definition Start {T} (getenv : string -> string) (name : string) (args : list string) (v : Version) (k : bool -> string -> proc T) : proc T :=
  match parse_flags args false false with
  | ParsedHelp => exits 0
  | ParsedError _ => exits 1
  | ParsedFlags true _ => does (Prints (version_text name v)) (exits 0)
  | ParsedFlags false once => deferring TheSignals (k once (getenv "NATS_URL"))
  end.

(** ** metrics.go *)

(** [Metrics]: the listeners over the environment *)
Definition Metrics (getenv : string -> string) (tls : bool) : list Server :=
  (if getenv "METRICS_ADDR" <>s "" then [mkServer (getenv "METRICS_ADDR") tls ["/metrics"%string]] else []) ++
  (if getenv "HEALTH_ADDR" <>s "" then [mkServer (getenv "HEALTH_ADDR") false ["/healthz"%string; "/readyz"%string]] else []).

(** [joinShutdowns]: every listener is shut down and every failure reported *)
Fixpoint joinShutdowns {W} (shutdowns : list (W -> W * option error)) (errs : list error) (w : W) : W * option error :=
  match shutdowns with
  | [] => (w, errors_Join errs)
  | s :: rest => let '(w', err) := s w in joinShutdowns rest (errs ++ match err with Some e => [e] | None => [] end) w'
  end.

(** ** publish/walconfig.go and the publishers of consumer.go *)

Record WALConfig : Type := mkWALConfig {
  WC_MaxBytes : Z;
  WC_MaxAge : Duration;
  WC_SyncInterval : Duration;
  WC_ShipInterval : Duration
}.

Record walConfigFile : Type := mkWalConfigFile {
  wf_MaxBytes : option Z;
  wf_MaxAge : option string;
  wf_SyncInterval : option string;
  wf_ShipInterval : option string
}.

Definition ErrIncompleteWALConfig : error := errors_New "wal config file is missing one or more required terms".

Definition LoadWALConfig (readFile : string -> result string) (unmarshal : string -> result walConfigFile) (path : string) : result WALConfig :=
  match Stage readFile unmarshal path "wal config file" with
  | inr err => inr err
  | inl wf =>
      let r := Require_ "wal config file" ErrIncompleteWALConfig in
      let '(r, maxBytes) := Required_Int64 r "maxBytes" (wf_MaxBytes wf) in
      let '(r, maxAge) := Required_Duration ParseDuration r "maxAge" (wf_MaxAge wf) in
      let '(r, syncInterval) := Required_Duration ParseDuration r "syncInterval" (wf_SyncInterval wf) in
      let '(r, shipInterval) := Required_Duration ParseDuration r "shipInterval" (wf_ShipInterval wf) in
      match Required_Err r with
      | Some err => inr err
      | None => inl (mkWALConfig maxBytes maxAge syncInterval shipInterval)
      end
  end.

Definition DefaultWALConfig : WALConfig := mkWALConfig (64 * 1024 * 1024) (10 * Minute) (5 * Second) (30 * Second).

(** an output edge: where its log is, and whether a line travels on to the broker *)
Record Output : Type := mkOutput { Out_Dir : string; Out_Beat : string; Out_Subject : string; Out_Config : WALConfig; Out_Jet : bool }.

Definition NewWALPublisher (walDir beatName subject : string) (wal : WALConfig) : result Output :=
  if walDir =s "" then inr (errors_New "WAL_DIR is required") else inl (mkOutput walDir beatName subject wal true).

Definition NewJournalPublisher (walDir beatName subject : string) (wal : WALConfig) : result Output :=
  if walDir =s "" then inr (errors_New "WAL_DIR is required") else inl (mkOutput walDir beatName subject wal false).

(** ** connect.go *)

Definition reconnectWait : Duration := 2 * Second.
Definition reconnectJitter : Duration := 500 * Millisecond.

Record Hooks (S : Type) : Type := mkHooks {
  OnDisconnect : option (error -> S -> S);
  OnReconnect : option (S -> S);
  OnClosed : option (S -> S)
}.
Arguments mkHooks {S}. Arguments OnDisconnect {S}. Arguments OnReconnect {S}. Arguments OnClosed {S}.

Section connect.
Context {S Cert Pool : Type}.
Context (AppendCertsFromPEM : string -> option Pool).

(** [nats.Option]; the closed handler reads the flag of our own shutdown *)
Inductive nats_option : Type :=
| MaxReconnects (n : Z)
| ReconnectWait (d : Duration)
| ReconnectJitter (d dTLS : Duration)
| DisconnectErrHandler (f : error -> S -> S)
| ReconnectHandler (f : S -> S)
| ClosedHandler (f : bool -> S -> S)
| Secure (tc : tls_Config (Cert := Cert) (Pool := Pool)).

Definition handlers (hooks : Hooks S) : list nats_option :=
  [MaxReconnects (-1); ReconnectWait reconnectWait; ReconnectJitter reconnectJitter reconnectJitter;
   DisconnectErrHandler (fun err s => match OnDisconnect hooks with Some f => f err s | None => s end);
   ReconnectHandler (fun s => match OnReconnect hooks with Some f => f s | None => s end);
   ClosedHandler (fun closing s => if closing then s else match OnClosed hooks with Some f => f s | None => s end)].

Definition dialOptions (fs : FS) (tlsCfg : TLSConfig) (hooks : Hooks S) : result (list nats_option) :=
  if bool_decide (tlsCfg = TLSConfig_zero) then inl (handlers hooks)
  else match Client AppendCertsFromPEM fs tlsCfg with
       | inr err => inr (errorf_w "broker: tls config: " err)
       | inl tc => inl (handlers hooks ++ [Secure tc])
       end.

(** [nats.Connect] and [jetstream.New] *)
Context {NC JS : Type} (nats_Connect : string -> list nats_option -> result NC) (jetstream_New : NC -> result JS).

(** [Connect]; the connection of a failed [jetstream.New] is closed before it returns *)
Definition Connect (fs : FS) (natsURL : string) (tlsCfg : TLSConfig) (hooks : Hooks S) : result JS :=
  match dialOptions fs tlsCfg hooks with
  | inr err => inr err
  | inl opts =>
      match nats_Connect natsURL opts with
      | inr err => inr (errorf_w "broker: connect nats: " err)
      | inl nc => match jetstream_New nc with inr err => inr (errorf_w "broker: jetstream: " err) | inl js => inl js end
      end
  end.

(** what nats.go reports of an established connection, and our own [close] *)
Inductive conn_report : Type :=
| Dropped (err : error)
| Resumed
| GaveUp
| WeClose.

(** a handler runs for each of its options, in order *)
Definition run_option (rep : conn_report) (closing : bool) (s : S) (o : nats_option) : S :=
  match rep, o with
  | Dropped err, DisconnectErrHandler f => f err s
  | Resumed, ReconnectHandler f => f s
  | GaveUp, ClosedHandler f | WeClose, ClosedHandler f => f closing s
  | _, _ => s
  end.

(** [close] sets the flag and closes, which nats.go reports as it reports giving up *)
Definition conn_step (opts : list nats_option) (cs : bool * S) (rep : conn_report) : bool * S :=
  let closing := match rep with WeClose => true | _ => cs.1 end in
  (closing, fold_left (run_option rep closing) opts cs.2).

Definition conn_run (opts : list nats_option) (cs : bool * S) (reps : list conn_report) : bool * S := fold_left (conn_step opts) reps cs.

End connect.

(** [beat.BrokerHooks], over the readiness and whether the run was cancelled as lost *)
Definition beat_hooks : Hooks (Health * bool) :=
  mkHooks (Some (fun err s => BrokerHooks (Disconnected err) s)) (Some (BrokerHooks Reconnected)) (Some (BrokerHooks ConnClosed)).

(** the zero [Hooks] of the topology job *)
Definition no_hooks {S} : Hooks S := mkHooks None None None.

(** ** What a trace leaves open, and what it serves over *)

Section traces.
Context {T : Type}.

(** the resources open after a trace, the last opened first; nothing when a release is out of
    turn *)
Fixpoint unwind (st : list resource) (tr : list (effect T)) : option (list resource) :=
  match tr with
  | [] => Some st
  | Opens r :: rest => unwind (r :: st) rest
  | Releases r :: rest =>
      match st with
      | r' :: st' => if bool_decide (r = r') then unwind st' rest else None
      | [] => None
      end
  | _ :: rest => unwind st rest
  end.

(** what a trace serves, with the resources open meanwhile *)
Fixpoint served (st : list resource) (tr : list (effect T)) : list (list resource * T) :=
  match tr with
  | [] => []
  | Opens r :: rest => served (r :: st) rest
  | Releases r :: rest => served (tail st) rest
  | Serves x :: rest => (st, x) :: served st rest
  | _ :: rest => served st rest
  end.

Definition balanced (p : proc T) : Prop := forall st, unwind st p.1 = Some st.

Lemma unwind_app st tr tr' : unwind st (tr ++ tr') = match unwind st tr with Some st' => unwind st' tr' | None => None end.
Proof.
  revert st. induction tr as [| e tr IH]; intros st; [done |]. destruct e as [r | r | | |]; cbn; auto.
  destruct st as [| r' st]; [done |]. case_bool_decide; auto.
Qed.

Lemma served_app st st' tr tr' : unwind st tr = Some st' -> served st (tr ++ tr') = served st tr ++ served st' tr'.
Proof.
  revert st. induction tr as [| e tr IH]; intros st; [by intros [= <-] |]. destruct e as [r | r | | | x]; cbn; auto.
  - destruct st as [| r' st]; [done |]. case_bool_decide; [auto | done].
  - intros Hu. f_equal. by apply IH.
Qed.

Lemma balanced_exits code : balanced (exits code).
Proof. done. Qed.

Lemma balanced_does e p : (match e with Opens _ | Releases _ => False | _ => True end) -> balanced p -> balanced (does e p).
Proof. intros He Hp st. destruct e; try done; apply Hp. Qed.

Lemma balanced_deferring r p : balanced p -> balanced (deferring r p).
Proof. intros Hp st. cbn. rewrite unwind_app, Hp. cbn. by rewrite bool_decide_true. Qed.

Lemma balanced_need {A} (r : result A) k : (forall x, balanced (k x)) -> balanced (need r k).
Proof. intros Hk. destruct r; [apply Hk | apply balanced_exits]. Qed.

Lemma balanced_need_ok err p : balanced p -> balanced (need_ok err p).
Proof. by destruct err. Qed.

Lemma served_exits st code : served st (exits (T := T) code).1 = [].
Proof. done. Qed.

Lemma served_does st e p : served st (does e p).1 =
  match e with
  | Opens r => served (r :: st) p.1
  | Releases _ => served (tail st) p.1
  | Serves x => (st, x) :: served st p.1
  | _ => served st p.1
  end.
Proof. by destruct e. Qed.

Lemma served_deferring st r p : balanced p -> served st (deferring r p).1 = served (r :: st) p.1.
Proof. intros Hp. cbn. rewrite (served_app _ _ _ _ (Hp _)). cbn. apply app_nil_r. Qed.

Lemma served_need {A} st (r : result A) k y : y ∈ served st (need r k).1 -> exists x, r = inl x /\ y ∈ served st (k x).1.
Proof. destruct r; [eauto | by intros ?%elem_of_nil]. Qed.

Lemma served_need_ok st err p y : y ∈ served st (need_ok err p).1 -> err = None /\ y ∈ served st p.1.
Proof. destruct err; [by intros ?%elem_of_nil | done]. Qed.

(** a process that ended without serving anything *)
Definition idle (p : proc T) : Prop := served [] p.1 = [].

End traces.

Create HintDb processes.
#[export] Hint Resolve balanced_exits balanced_deferring balanced_need balanced_need_ok : processes.
#[export] Hint Extern 1 (balanced (does _ _)) => apply balanced_does; [exact I |] : processes.

Lemma balanced_Start {T} getenv name args v (k : bool -> string -> proc T) :
  (forall once nats, balanced (k once nats)) -> balanced (Start getenv name args v k).
Proof. intros Hk. unfold Start. destruct (parse_flags _ _ _) as [[] once | | err]; auto with processes. Qed.
#[export] Hint Resolve balanced_Start : processes.

Lemma served_Start {T} getenv name args v (k : bool -> string -> proc T) y : (forall once nats, balanced (k once nats)) ->
  y ∈ served [] (Start getenv name args v k).1 ->
  exists once, parse_flags args false false = ParsedFlags false once /\ y ∈ served [TheSignals] (k once (getenv "NATS_URL")).1.
Proof.
  intros Hk. unfold Start. destruct (parse_flags _ _ _) as [[] once | | err]; try by intros ?%elem_of_nil.
  rewrite served_deferring by done. eauto.
Qed.

(** ** The configuration of a log *)

Lemma LoadWALConfig_spec readFile unmarshal path c : LoadWALConfig readFile unmarshal path = inl c <->
  exists raw wf age sync ship, readFile path = inl raw /\ unmarshal raw = inl wf /\
    wf_MaxBytes wf = Some (WC_MaxBytes c) /\
    wf_MaxAge wf = Some age /\ ParseDuration age = inl (WC_MaxAge c) /\
    wf_SyncInterval wf = Some sync /\ ParseDuration sync = inl (WC_SyncInterval c) /\
    wf_ShipInterval wf = Some ship /\ ParseDuration ship = inl (WC_ShipInterval c).
Proof.
  split.
  - unfold LoadWALConfig, Stage. destruct (readFile path) as [raw | err]; [| done]. destruct (unmarshal raw) as [wf | err] eqn:Ew; [| done].
    destruct (Required_Int64 _ _ _) as [r1 mb] eqn:E1. destruct (Required_Duration _ r1 _ _) as [r2 age] eqn:E2.
    destruct (Required_Duration _ r2 _ _) as [r3 sync] eqn:E3. destruct (Required_Duration _ r3 _ _) as [r4 ship] eqn:E4.
    destruct (Required_Err r4) eqn:Er; [done |]. intros [= <-]. apply Required_Err_None in Er.
    pose proof (Required_Duration_clean ParseDuration r3 "shipInterval" (wf_ShipInterval wf)) as H4. rewrite E4 in H4.
    apply H4 in Er as [Er (s4 & Hs4 & Hp4)]. pose proof (Required_Duration_clean ParseDuration r2 "syncInterval" (wf_SyncInterval wf)) as H3.
    rewrite E3 in H3. apply H3 in Er as [Er (s3 & Hs3 & Hp3)].
    pose proof (Required_Duration_clean ParseDuration r1 "maxAge" (wf_MaxAge wf)) as H2. rewrite E2 in H2.
    apply H2 in Er as [Er (s2 & Hs2 & Hp2)]. exists raw, wf, s2, s3, s4. cbn [fst snd] in *.
    unfold Required_Int64 in E1. destruct (wf_MaxBytes wf); injection E1 as <- <-; [by repeat split |].
    unfold Configfile.clean in Er. by destruct Er.
  - intros (raw & wf & age & sync & ship & Hr & Hw & H1 & H2 & P2 & H3 & P3 & H4 & P4). destruct c as [mb a sy sh]. cbn [WC_MaxBytes WC_MaxAge WC_SyncInterval WC_ShipInterval] in *.
    unfold LoadWALConfig, Stage, Required_Duration, Required_Int64. by rewrite Hr, Hw, H1, H2, P2, H3, P3, H4, P4.
Qed.

(** the defaults are what the shipped file says, and [WAL] falls back on the first two of them *)
Lemma DefaultWALConfig_loads readFile unmarshal path raw : readFile path = inl raw ->
  unmarshal raw = inl (mkWalConfigFile (Some 67108864) (Some "10m") (Some "5s") (Some "30s"))%string ->
  LoadWALConfig readFile unmarshal path = inl DefaultWALConfig.
Proof. intros Hr Hu. unfold LoadWALConfig, Stage. rewrite Hr, Hu. vm_compute. reflexivity. Qed.

(** ** A lost broker and our own shutdown *)

Section lost.
Context {Cert Pool : Type} (AppendCertsFromPEM : string -> option Pool).

Abbreviation opts_of fs tls := (dialOptions (Cert := Cert) AppendCertsFromPEM fs tls beat_hooks).

(** what one report does, whatever the TLS configuration *)
Definition report_effect (closing : bool) (rep : conn_report) (s : Health * bool) : Health * bool :=
  match rep with
  | Dropped err => BrokerHooks (Disconnected err) s
  | Resumed => BrokerHooks Reconnected s
  | GaveUp | WeClose => if closing then s else BrokerHooks ConnClosed s
  end.

Lemma options_effect fs tls opts rep closing s : opts_of fs tls = inl opts ->
  fold_left (run_option rep closing) opts s = report_effect closing rep s.
Proof.
  unfold dialOptions. case_bool_decide; [intros [= <-]; by destruct rep |].
  destruct (Client _ _ _) as [tc |]; [| done]. intros [= <-]. by destruct rep, closing.
Qed.

(** A connection that is gone for good cancels the run as lost, and nothing else does: in any
    sequence of drops, resumptions, closes and giving up, under any TLS configuration, the run
    is lost exactly when nats.go gave the connection up before we closed it ourselves; and
    while it is not, the beat is ready exactly when the last drop was followed by a resumption. *)
Theorem run_is_lost_iff_given_up fs tls opts h reps : opts_of fs tls = inl opts ->
  ((conn_run opts (false, (h, false)) reps).2.2 = true <-> exists pre post, reps = pre ++ GaveUp :: post /\ WeClose ∉ pre) /\
  (forall pre err, reps = pre ++ [Dropped err] -> hl_ready (conn_run opts (false, (h, false)) reps).2.1 = false) /\
  (forall pre, reps = pre ++ [Resumed] -> hl_ready (conn_run opts (false, (h, false)) reps).2.1 = true).
Proof.
  intros Ho. unfold conn_run.
  assert (forall reps, (fold_left (conn_step opts) reps (false, (h, false))).1 = true <-> WeClose ∈ reps) as Hclosing.
  { clear reps. intros reps. induction reps as [| rep reps IH] using rev_ind; [by split; [| intros ?%elem_of_nil] |].
    rewrite fold_left_app, elem_of_app, list_elem_of_singleton. cbn. destruct rep; naive_solver. }
  split; [| split].
  - induction reps as [| rep reps IH] using rev_ind.
    { split; [done | intros (pre & post & Heq & _); by destruct pre]. }
    rewrite fold_left_app. cbn. rewrite (options_effect _ _ _ _ _ _ Ho). specialize (Hclosing reps).
    destruct (fold_left _ reps _) as [closing [h' lost]]. cbn [fst snd] in *. transitivity (lost = true \/ (rep = GaveUp /\ closing = false)).
    + destruct rep, closing, lost; cbn; naive_solver.
    + rewrite IH. split.
      * intros [(pre & post & -> & Hn) | [-> Hc]]; [exists pre, (post ++ [rep]); by rewrite <- app_assoc |]. exists reps, []. split; [done |].
        intros Hin%Hclosing. congruence.
      * intros (pre & post & Heq & Hn). destruct post as [| x post _] using rev_ind.
        -- apply app_inj_tail in Heq as [-> ->]. right. split; [done |]. destruct closing; [by destruct Hn; apply Hclosing | done].
        -- rewrite app_comm_cons, app_assoc in Heq. apply app_inj_tail in Heq as [-> _]. left. by exists pre, post.
  - intros pre err ->. rewrite fold_left_app. cbn. rewrite (options_effect _ _ _ _ _ _ Ho). done.
  - intros pre ->. rewrite fold_left_app. cbn. rewrite (options_effect _ _ _ _ _ _ Ho). done.
Qed.

End lost.
