(* ===== verification/Filepath.v ===== *)
(** * path/filepath on a slash-separated system

    [Clean], [Join], [Dir] and [Base] as the components that walk directories use them.
    A cleaned rooted path is [path_of] its elements, innermost first, and [Dir] drops the
    innermost one. *)

From Stdlib Require Import Ascii.
From S2P Require Import Prelude GoTime Decimal Strings.
Local Open Scope Z_scope.

(** one element of the path against the elements kept so far, innermost first *)
Definition clean_step (rooted : bool) (kept : list string) (elem : string) : list string :=
  if (elem =s "") || (elem =s ".") then kept
  else if elem =s ".." then
    match kept with
    | [] => if rooted then [] else [".."%string]
    | top :: rest => if top =s ".." then ".."%string :: kept else rest
    end
  else elem :: kept.

(** [filepath.Clean] *)
Definition Clean (path : string) : string :=
  if path =s "" then "."
  else
    let rooted := String.prefix "/" path in
    let body := strings_Join (reverse (fold_left (clean_step rooted) (bytes_Split path "/") [])) "/" in
    if rooted then "/" +:+ body else if body =s "" then "." else body.

(** [filepath.Join] of the elements *)
Fixpoint Join (elems : list string) : string :=
  match elems with
  | [] => ""
  | e :: rest => if e =s "" then Join rest else Clean (strings_Join elems "/")
  end.

(** [filepath.Dir]: all but the last element *)
Definition Dir (path : string) : string :=
  match cut_last path "/" with
  | Some (pre, _) => Clean (pre +:+ "/")
  | None => "."
  end.

(** the path without its trailing slashes *)
Fixpoint trim_slashes (fuel : nat) (path : string) : string :=
  match fuel, cut_last path "/" with
  | S fuel', Some (pre, "") => trim_slashes fuel' pre
  | _, _ => path
  end%string.

(** [filepath.Base] *)
Definition Base (path : string) : string :=
  if path =s "" then "."
  else
    let p := trim_slashes (String.length path) path in
    match cut_last p "/" with
    | Some (_, last) => last
    | None => if p =s "" then "/" else p
    end.

(** ** Rooted paths as lists of elements *)

(** an element that [Clean] keeps *)
Definition element (e : string) : Prop := e <> "" /\ e <> "." /\ e <> ".." /\ no_char "/" e = true.

Definition path_of (kept : list string) : string := "/" +:+ strings_Join (reverse kept) "/".

Definition ended (l : list string) : string := foldr (fun x acc => x +:+ "/" +:+ acc) "" l.

Lemma clean_steps rooted l kept : Forall element l -> fold_left (clean_step rooted) l kept = reverse l ++ kept.
Proof.
  revert kept. induction l as [| e l IH]; intros kept Hl; [done |]. apply Forall_cons_iff in Hl as [(H1 & H2 & H3 & _) Hl].
  cbn [fold_left]. rewrite (IH _ Hl), reverse_cons, <- app_assoc. unfold clean_step.
  apply String.eqb_neq in H1, H2, H3. by rewrite H1, H2, H3.
Qed.

Lemma split_ended l : Forall (fun e => no_char "/" e = true) l -> bytes_Split (ended l) "/" = l ++ [""%string].
Proof.
  unfold bytes_Split. induction 1 as [| e l He _ IH]; [done |]. cbn [ended foldr].
  change (e +:+ "/" +:+ ?x) with (e +:+ String "/" x). rewrite split_seq_char by done. fold (ended l). rewrite IH.
  change (reverse [] ++ ?x) with x. by rewrite String.string_of_list_ascii_of_string.
Qed.

Lemma join_snoc l e : strings_Join (l ++ [e]) "/" = ended l +:+ e.
Proof.
  induction l as [| x l IH]; [done |]. change ((x :: l) ++ [e]) with (x :: (l ++ [e])). cbn [ended foldr]. fold (ended l).
  rewrite !string_app_assoc, <- IH. by destruct l.
Qed.

Lemma ended_join x l : ended (x :: l) = strings_Join (x :: l) "/" +:+ "/".
Proof.
  revert x. induction l as [| y l IH]; intros x; [done |].
  change (ended (x :: y :: l)) with (x +:+ "/" +:+ ended (y :: l)). rewrite IH.
  change (strings_Join (x :: y :: l) "/") with (x +:+ "/" +:+ strings_Join (y :: l) "/"). by rewrite !string_app_assoc.
Qed.

Lemma Clean_ended l : Forall element l -> Clean (ended (""%string :: l)) = path_of (reverse l).
Proof.
  intros Hl. unfold Clean. rewrite split_ended; [| constructor; [done |]; eapply Forall_impl; [| exact Hl]; by intros e (_ & _ & _ & He)].
  change (ended ("" :: l) =s "") with false. change (String.prefix "/" (ended ("" :: l))) with (String.prefix "/" ("/" +:+ ended l)). rewrite prefix_app.
  cbn [app fold_left]. change (clean_step true [] "") with (@nil string).
  rewrite fold_left_app, (clean_steps true l) by done. cbn [fold_left]. rewrite app_nil_r. unfold clean_step. cbn [String.eqb orb].
  unfold path_of. done.
Qed.

(** [Dir] drops the innermost element, and the root is its own parent *)
Lemma Dir_path_of e kept : Forall element (e :: kept) -> Dir (path_of (e :: kept)) = path_of kept.
Proof.
  intros [(_ & _ & _ & He) Hk]%Forall_cons_iff. unfold Dir, path_of at 1. rewrite reverse_cons, join_snoc.
  change ("/" +:+ ended (reverse kept) +:+ e) with (ended ("" :: reverse kept) +:+ e). rewrite ended_join, string_app_assoc.
  change ("/" +:+ e) with (String "/" e). rewrite cut_last_app by done.
  rewrite <- ended_join, Clean_ended by (by apply Forall_reverse). by rewrite reverse_involutive.
Qed.

Lemma Dir_root : Dir (path_of []) = path_of [].
Proof. done. Qed.

(** cleaning keeps elements only *)
Lemma split_no_slash s acc :
  forallb (fun c => negb (Ascii.eqb c "/")) acc = true ->
  Forall (fun e => no_char "/" e = true) (split_seq "/" 0 acc s).
Proof.
  assert (forall acc, forallb (fun c => negb (Ascii.eqb c "/")) acc = true -> no_char "/" (String.string_of_list_ascii (reverse acc)) = true) as Hacc.
  { clear. intros acc Ha. assert (forallb (fun c => negb (Ascii.eqb c "/")) (reverse acc) = true) as Hr.
    { apply forallb_forall. intros c Hc. rewrite forallb_forall in Ha. apply Ha. apply list_elem_of_In. rewrite <- elem_of_reverse. by apply list_elem_of_In. }
    induction (reverse acc) as [| c l IH]; [done |]. cbn in *. apply andb_true_iff in Hr as [-> Hr]. by apply IH. }
  revert acc. induction s as [| c s IH]; intros acc Ha; [constructor; [by apply Hacc | done] |].
  change (split_seq "/" 0 acc (String c s)) with
    (if String.prefix "/" (String c s) then String.string_of_list_ascii (reverse acc) :: split_seq "/" 0 [] s else split_seq "/" 0 (c :: acc) s).
  destruct (String.prefix "/" (String c s)) eqn:Ep.
  - constructor; [by apply Hacc | by apply IH].
  - apply IH. cbn [forallb]. rewrite Ha, andb_true_r. apply negb_true_iff, Ascii.eqb_neq. intros ->. by destruct s.
Qed.

Lemma clean_step_elements kept e : no_char "/" e = true -> Forall element kept -> Forall element (clean_step true kept e).
Proof.
  intros He Hk. unfold clean_step. destruct (String.eqb_spec e "") as [| H1]; [done |]. destruct (String.eqb_spec e ".") as [| H2]; [done |]. cbn [orb].
  destruct (String.eqb_spec e "..") as [| H3].
  - destruct kept as [| t kept]; [done |]. apply Forall_cons_iff in Hk as [(_ & _ & Ht & _) Hk]. apply String.eqb_neq in Ht. by rewrite Ht.
  - by constructor.
Qed.

Lemma clean_step_length rooted kept e : (length (clean_step rooted kept e) <= S (length kept))%nat.
Proof. unfold clean_step. repeat case_match; cbn [length]; lia. Qed.

Lemma split_seq_length s acc : (length (split_seq "/" 0 acc s) <= S (String.length s))%nat.
Proof.
  revert acc. induction s as [| c s IH]; intros acc; [cbn; lia |].
  change (split_seq "/" 0 acc (String c s)) with
    (if String.prefix "/" (String c s) then String.string_of_list_ascii (reverse acc) :: split_seq "/" 0 [] s else split_seq "/" 0 (c :: acc) s).
  destruct (String.prefix _ _); cbn [length String.length]; [specialize (IH []) | specialize (IH (c :: acc))]; lia.
Qed.

Lemma Clean_rooted p :
  String.prefix "/" p = true -> exists kept, Forall element kept /\ (length kept <= S (String.length p))%nat /\ Clean p = path_of kept.
Proof.
  intros Hp. unfold Clean. destruct p as [| c p]; [done |]. rewrite Hp. cbn [String.eqb].
  exists (fold_left (clean_step true) (bytes_Split (String c p) "/") []).
  assert (forall l kept, Forall (fun e => no_char "/" e = true) l -> Forall element kept ->
    Forall element (fold_left (clean_step true) l kept) /\ (length (fold_left (clean_step true) l kept) <= length l + length kept)%nat) as Hfold.
  { induction l as [| e l IH]; intros kept Hl Hk; [done |]. apply Forall_cons_iff in Hl as [He Hl]. cbn [fold_left length].
    destruct (IH (clean_step true kept e)) as [H1 H2]; [done | by apply clean_step_elements |].
    pose proof (clean_step_length true kept e). split; [done | lia]. }
  destruct (Hfold (bytes_Split (String c p) "/") []) as [H1 H2]; [by apply split_no_slash | constructor |].
  pose proof (split_seq_length (String c p) []) as H3. change (split_seq "/" 0 [] ?x) with (bytes_Split x "/") in H3.
  cbn [length] in H2. repeat split; [done | lia].
Qed.

Lemma cut_last_length s sep a b : cut_last s sep = Some (a, b) -> (String.length a < String.length s)%nat.
Proof.
  revert a. induction s as [| c s IH]; intros a; [done |]. cbn [cut_last String.length]. destruct (cut_last s sep) as [[a' b'] |].
  - intros [= <- <-]. specialize (IH a' eq_refl). cbn [String.length]. lia.
  - destruct (Ascii.eqb c sep); [| done]. intros [= <- <-]. cbn. lia.
Qed.

Lemma Dir_rooted p :
  String.prefix "/" p = true -> exists kept, Forall element kept /\ (length kept <= S (String.length p))%nat /\ Dir p = path_of kept.
Proof.
  intros [q ->]%prefix_split. unfold Dir. revert q. intros p. change ("/" +:+ p) with (String "/" p). cbn [cut_last]. destruct (cut_last p "/") as [[a b] |] eqn:E.
  - destruct (Clean_rooted (String "/" a +:+ "/")) as (kept & Hk & Hl & Hc); [exact (prefix_app "/" (a +:+ "/")) |].
    exists kept. repeat split; [done | | done]. apply cut_last_length in E. rewrite string_length_app in Hl. cbn [String.length] in *. lia.
  - exists []. split; [constructor |]. split; [cbn; lia | done].
Qed.

(** ** The walk from a directory towards the root *)

(** up to the first directory where [found]; [None] when the fuel is too small *)
Fixpoint walk_up (fuel : nat) (found : string -> bool) (dir : string) : option (option string) :=
  match fuel with
  | O => None
  | S fuel' =>
      if found dir then Some (Some dir)
      else if Dir dir =s dir then Some None
      else walk_up fuel' found (Dir dir)
  end.

Definition walk_fuel (dir : string) : nat := S (S (S (String.length dir))).

Lemma walk_up_path_of found kept fuel :
  Forall element kept -> (length kept < fuel)%nat -> exists r, walk_up fuel found (path_of kept) = Some r.
Proof.
  intros Hk. revert fuel. induction Hk as [| e kept He Hk IH]; intros [| fuel] Hf; cbn [length] in Hf; try lia; cbn [walk_up].
  - destruct (found _); [by eexists |]. rewrite Dir_root, String.eqb_refl. by eexists.
  - destruct (found _); [by eexists |]. destruct (_ =s _); [by eexists |]. rewrite Dir_path_of by (by constructor). apply IH. lia.
Qed.

(** from a rooted directory the walk ends *)
Lemma walk_up_ends found dir : String.prefix "/" dir = true -> exists r, walk_up (walk_fuel dir) found dir = Some r.
Proof.
  intros Hd. unfold walk_fuel. cbn [walk_up]. destruct (found dir); [by eexists |]. destruct (_ =s _); [by eexists |].
  destruct (Dir_rooted dir Hd) as (kept & Hk & Hl & ->). change (S ?n) with (1 + n)%nat in *.
  destruct (walk_up_path_of found kept (2 + String.length dir) Hk) as [r Hr]; [lia |]. exists r. exact Hr.
Qed.

(** what it finds holds *)
Lemma walk_up_found fuel found dir d : walk_up fuel found dir = Some (Some d) -> found d = true.
Proof.
  revert dir. induction fuel as [| fuel IH]; intros dir; [done |]. cbn [walk_up].
  destruct (found dir) eqn:E; [by intros [= <-] |]. destruct (_ =s _); [done | apply IH].
Qed.

Example clean_examples :
  map Clean [""; "/"; "a//b/./c/.."; "/../a"; "../../x"; "a/.."]%string = ["."; "/"; "a/b"; "/a"; "../../x"; "."]%string.
Proof. vm_compute. reflexivity. Qed.

Example base_dir_examples :
  map Base [""; "///"; "config/dev/"; "dev"]%string = ["."; "/"; "dev"; "dev"]%string /\
  map Dir ["/a/b"; "/a"; "/"; "x"; "a/b/"]%string = ["/a"; "/"; "/"; "."; "a/b"]%string /\
  Join ["root"; ""; "../config"]%string = "config"%string.
Proof. vm_compute. auto. Qed.
