(* ===== verification/Validate.v ===== *)
(** * internal/validate: the audit of an authored profile

    [Profile] reads the five files of a profile directory and collects what is wrong with
    them; [All] audits the standard profiles and [Main] is the command.  A machine [Rig]
    gives the files and their YAML decoders.  The theorems relate what passes the audit to
    what governs and binds it: [Hiss.Evaluate] and [Actuate.bind]. *)

From Stdlib Require Import Ascii.
From S2P Require Import Prelude GoTime GoFloat Api Contract Hiss ThumpExec Actuate ClankEngine Subjects Evidence Rattle Decimal Strings Filepath.
Local Open Scope Z_scope.

(** ** The machine *)

Record Rig : Type := mkRig {
  Stat : string -> bool;                        (** [os.Stat] succeeds *)
  ReadFile : string -> result string;
  decode_catalog : string -> result (list ActionContract);
  decode_classes : string -> result (list FailureClassDefinition);
  decode_policy : string -> result Policy;
  decode_evidence : string -> result (list Query * list SubjectRule);
  decode_watch : string -> result (list SLO);
  fmt_slo : SLO -> string;                      (** [%+v] of an SLO, in one message only *)
  Getwd : result string
}.

(** ** The loaders of the other packages *)

(** contract.LoadCatalogFile *)
Definition contract_LoadCatalogFile (r : Rig) (path : string) (reg : PreconditionRegistry) : result StaticCatalog :=
  match ReadFile r path with
  | inr err => inr (errorf_w ("read catalog file " +:+ path +:+ ": ") err)
  | inl raw => Load (decode_catalog r) raw reg
  end.

(** contract.Preconditions *)
Definition Preconditions : PreconditionRegistry := ∅.

Definition LoadFailureClasses (r : Rig) (raw : string) : result (list FailureClassDefinition) :=
  match decode_classes r raw with
  | inr err => inr (errorf_w "parse failure classes: " err)
  | inl defs => inl defs
  end.

Definition LoadFailureClassesFile (r : Rig) (path : string) : result (list FailureClassDefinition) :=
  match ReadFile r path with
  | inr err => inr (errorf_w ("read failure classes file " +:+ path +:+ ": ") err)
  | inl raw => LoadFailureClasses r raw
  end.

(** hiss.LoadPolicy *)
Definition LoadPolicy (r : Rig) (path : string) : result Policy :=
  if path =s "" then inr (errors_New "policy path is required")
  else match ReadFile r path with
       | inr err => inr (errorf_w "read policy file: " err)
       | inl raw => match decode_policy r raw with
                    | inr err => inr (errorf_w "parse policy file: " err)
                    | inl pol => inl pol
                    end
       end.

(** [strings.TrimSpace(s) == ""]: every rune of the text is white space *)
Definition space_byte (c : ascii) : bool :=
  let n := Z.of_nat (nat_of_ascii c) in ((9 <=? n) && (n <=? 13)) || (n =? 32).

Fixpoint blank (s : string) : bool :=
  match s with
  | EmptyString => true
  | String c s1 =>
      if space_byte c then blank s1
      else match s1 with
           | String d s2 =>
               let c := Z.of_nat (nat_of_ascii c) in let d := Z.of_nat (nat_of_ascii d) in
               if (c =? 0xc2) && ((d =? 0x85) || (d =? 0xa0)) then blank s2
               else match s2 with
                    | String e s3 =>
                        let e := Z.of_nat (nat_of_ascii e) in
                        (((c =? 0xe1) && (d =? 0x9a) && (e =? 0x80))
                         || ((c =? 0xe2) && (d =? 0x80) && (((0x80 <=? e) && (e <=? 0x8a)) || (e =? 0xa8) || (e =? 0xa9) || (e =? 0xaf)))
                         || ((c =? 0xe2) && (d =? 0x81) && (e =? 0x9f))
                         || ((c =? 0xe3) && (d =? 0x80) && (e =? 0x80))) && blank s3
                    | EmptyString => false
                    end
           | EmptyString => false
           end
  end.

(** ** validate.go *)

Definition ErrValidationFailed : error := errors_New "validation failed".

Definition canonicalFailureClasses : list FailureClass :=
  [ClassDependencySaturation; ClassTrafficShift; ClassResourceExhaustion; ClassRedundancyDegraded; ClassServiceFailure; ClassUnknown].

Definition canonicalBlastTiers : list BlastTier := [BlastLow; BlastMed; BlastHigh].

Definition canonicalVerbs : list string := ["scale"; "restart"; "flagVariant"; "exec"]%string.

Definition canonicalBands : list Band := [BandObserve; BandActReversible; BandActDisruptive].

Record ProfileResult : Type := mkProfileResult {
  Res_Profile : string;
  Res_Actions : Z;
  Res_FailureClasses : Z;
  Res_PolicyFloors : Z;
  Res_WatchSLOs : Z;
  Res_EvidenceQueries : Z;
  Res_Errors : list error
}.

(** an error when the condition holds *)
Definition when_bad (bad : bool) (text : string) : list error := if bad then [errors_New text] else [].

(** the steps of one direction, from step [i] on *)
Fixpoint step_errors (direction : string) (i : Z) (steps : list Step) : list error :=
  match steps with
  | [] => []
  | s :: steps' =>
      when_bad (negb (slices_Contains canonicalVerbs (Step_Verb s)))
        (direction +:+ " step " +:+ fmt_d i +:+ " uses uncompiled verb " +:+ fmt_q (Step_Verb s))
      ++ step_errors direction (Z.succ i) steps'
  end.

Definition validateActionContract (act : ActionContract) : list error :=
  let sc := AC_SuccessCriteria act in
  let pct := SuccessCriteria_SeverityReductionPct sc in
  when_bad (AC_Name act =s "") "empty name"
  ++ when_bad (Nat.eqb (length (AC_ApplicableFailureClasses act)) 0) "no applicableFailureClasses"
  ++ flat_map (fun fc => when_bad (negb (slices_Contains canonicalFailureClasses fc))
       ("applicableFailureClasses has " +:+ fmt_q fc +:+ ", not a FailureClass const")) (AC_ApplicableFailureClasses act)
  ++ when_bad (Nat.eqb (length (AC_ApplicableTiers act)) 0) "no applicableTiers"
  ++ when_bad (negb (slices_Contains canonicalBlastTiers (AC_BlastTier act)))
       ("blastTier " +:+ fmt_q (AC_BlastTier act) +:+ " not in [low, med, high]")
  ++ when_bad ((Reversal_Method (AC_Reversal act) =s "") || (Reversal_Fallback (AC_Reversal act) =s "")) "reversal missing method or fallback"
  ++ when_bad (Nat.eqb (length (Execution_Forward (AC_Execution act))) 0) "no forward execution steps"
  ++ when_bad (Nat.eqb (length (Execution_Reverse (AC_Execution act))) 0) "no reverse execution steps"
  ++ step_errors "forward" 0 (Execution_Forward (AC_Execution act))
  ++ step_errors "reverse" 0 (Execution_Reverse (AC_Execution act))
  ++ when_bad (SuccessCriteria_Metric sc =s "") "successCriteria missing metric"
  ++ when_bad (SuccessCriteria_Window sc <=? 0) "successCriteria window must be positive duration"
  ++ (if feq pct f0 then []
      else when_bad (flt pct f0 || fgt pct f1) ("severityReductionPct " +:+ fmt_f 2 pct +:+ " must be in [0.0, 1.0]")).

Definition contract_errors (file : string) (act : ActionContract) : list error :=
  map (fun e => errorf_w ("catalog " +:+ file +:+ " action " +:+ fmt_q (AC_Name act) +:+ ": ") e) (validateActionContract act).

(** the descriptions that are blank *)
Definition description_errors (file : string) (fc : FailureClassDefinition) : list error :=
  when_bad (blank (FCD_Description fc)) ("failure-classes " +:+ file +:+ ": class " +:+ fmt_q (FCD_Class fc) +:+ " has empty description").

(** the classes an action uses that the file does not define *)
Definition undefined_errors (file : string) (classes : list FailureClassDefinition) (act : ActionContract) : list error :=
  flat_map (fun c => when_bad (negb (slices_Contains (map FCD_Class classes) c))
    ("action " +:+ fmt_q (AC_Name act) +:+ " uses failure class " +:+ fmt_q c +:+ " not defined in " +:+ file)) (AC_ApplicableFailureClasses act).

(** a non-empty band map has to name the tier, and a known band *)
Definition band_errors (file field : string) (m : gmap string Band) (act : ActionContract) (tier : string) : list error :=
  if bool_decide (m = ∅) then []
  else when_bad (match m !! tier with Some b => negb (slices_Contains canonicalBands b) | None => true end)
         ("policy " +:+ file +:+ ": tier " +:+ fmt_q tier +:+ " used in action " +:+ fmt_q (AC_Name act) +:+ " missing from " +:+ field).

Definition floor_errors (file : string) (pol : Policy) (act : ActionContract) (tier : string) (fc : FailureClass) : list error :=
  match Policy_Floors pol !! tier with
  | None => [errors_New ("policy " +:+ file +:+ ": missing confidence floors for tier " +:+ fmt_q tier +:+ " (action " +:+ fmt_q (AC_Name act) +:+ ")")]
  | Some tierFloors =>
      match tierFloors !! fc with
      | None => [errors_New ("policy " +:+ file +:+ ": missing confidence floor for actuatable pair (" +:+ tier +:+ ", " +:+ fc +:+ ") in action " +:+ fmt_q (AC_Name act))]
      | Some floor =>
          if fle floor f0 then [errors_New ("policy " +:+ file +:+ ": missing confidence floor for actuatable pair (" +:+ tier +:+ ", " +:+ fc +:+ ") in action " +:+ fmt_q (AC_Name act))]
          else when_bad (fgt floor f1) ("policy " +:+ file +:+ ": confidence floor " +:+ fmt_f 2 floor +:+ " for (" +:+ tier +:+ ", " +:+ fc +:+ ") exceeds 1.0")
      end
  end.

Definition governance_errors (file : string) (pol : Policy) (act : ActionContract) : list error :=
  flat_map (fun tier =>
    band_errors file "maxBand" (Policy_MaxBand pol) act tier ++ band_errors file "autoBand" (Policy_AutoBand pol) act tier
    ++ flat_map (floor_errors file pol act tier) (AC_ApplicableFailureClasses act)) (AC_ApplicableTiers act).

Definition slo_errors (r : Rig) (file : string) (slo : SLO) : list error :=
  when_bad ((SLO_ID slo =s "") || (SLO_Object slo =s "") || (SLO_Tier slo =s "") || (SLO_ContractRef slo =s ""))
    ("watch " +:+ file +:+ ": SLO " +:+ fmt_slo r slo +:+ " has missing required fields")
  ++ when_bad (fle (SLO_Objective slo) f0 || fgt (SLO_Objective slo) f1)
       ("watch " +:+ file +:+ ": SLO " +:+ fmt_q (SLO_ID slo) +:+ " objective " +:+ fmt_f 4 (SLO_Objective slo) +:+ " must be in (0, 1]").

(** [findFile]: the first candidate that is there *)
Definition findFile (r : Rig) (dir : string) (candidates : list string) : string :=
  match find_first (fun c => Stat r (Join [dir; c])) candidates with
  | Some c => Join [dir; c]
  | None => ""
  end.

(** the catalog block of [Profile] *)
Definition audit_catalog (r : Rig) (dir file : string) : option StaticCatalog * list error :=
  if file =s "" then (None, [errors_New ("no catalog.yaml found in " +:+ dir)])
  else match contract_LoadCatalogFile r file Preconditions with
       | inr err => (None, [errorf_w ("load catalog " +:+ file +:+ ": ") err])
       | inl cat => (Some cat, flat_map (contract_errors file) (Contracts cat))
       end.

(** the failure-class block *)
Definition audit_classes (r : Rig) (file : string) (cat : option StaticCatalog) : Z * list error :=
  if file =s "" then (0, [])
  else match LoadFailureClassesFile r file with
       | inr err => (0, [errorf_w ("load failure classes " +:+ file +:+ ": ") err])
       | inl classes =>
           (Z.of_nat (length classes),
            flat_map (description_errors file) classes
            ++ match cat with Some cat => flat_map (undefined_errors file classes) (Contracts cat) | None => [] end)
       end.

Definition floor_count (pol : Policy) : Z := map_fold (fun _ fcMap n => n + Z.of_nat (size fcMap)) 0 (Policy_Floors pol).

(** the policy block *)
Definition audit_policy (r : Rig) (dir file : string) (cat : option StaticCatalog) : Z * list error :=
  if file =s "" then (0, [errors_New ("no policy.yaml found in " +:+ dir)])
  else match LoadPolicy r file with
       | inr err => (0, [errorf_w ("load policy " +:+ file +:+ ": ") err])
       | inl pol =>
           (floor_count pol,
            when_bad (Policy_Version pol =s "") ("policy " +:+ file +:+ ": missing version string")
            ++ match cat with Some cat => flat_map (governance_errors file pol) (Contracts cat) | None => [] end)
       end.

(** the evidence block; the queries are a map, and the message does not name the query *)
Definition audit_evidence (r : Rig) (file : string) : Z * list error :=
  if file =s "" then (0, [])
  else match LoadEvidenceConfig file (ReadFile r) (decode_evidence r) with
       | inr err => (0, [errorf_w ("load evidence queries " +:+ file +:+ ": ") err])
       | inl cfg =>
           (Z.of_nat (size (Evidence_Queries cfg)),
            flat_map (fun kq => when_bad ((Query_Name kq.2 =s "") || (Query_Query kq.2 =s ""))
              ("evidence-queries " +:+ file +:+ ": query missing name or PromQL query string")) (map_to_list (Evidence_Queries cfg)))
       end.

(** the watch block *)
Definition audit_watch (r : Rig) (file : string) : Z * list error :=
  if file =s "" then (0, [])
  else match LoadWatch (ReadFile r) (decode_watch r) file with
       | inr err => (0, [errorf_w ("load watch " +:+ file +:+ ": ") err])
       | inl slos =>
           (Z.of_nat (length slos),
            when_bad (Nat.eqb (length slos) 0) ("watch " +:+ file +:+ " declares zero SLOs") ++ flat_map (slo_errors r file) slos)
       end.

Definition catalog_file (r : Rig) (dir : string) : string := findFile r dir ["actions/catalog.yaml"; "catalog.yaml"]%string.
Definition classes_file (r : Rig) (dir : string) : string := findFile r dir ["actions/failure-classes.yaml"; "failure-classes.yaml"]%string.
Definition policy_file (r : Rig) (dir : string) : string := findFile r dir ["hiss/policy.yaml"; "policy.yaml"]%string.
Definition watch_file (r : Rig) (dir : string) : string := findFile r dir ["rattle/watch.yaml"; "watch.yaml"]%string.
Definition evidence_file (r : Rig) (dir : string) : string := findFile r dir ["whir/evidence-queries.yaml"; "evidence-queries.yaml"]%string.

Definition Profile (r : Rig) (dir : string) : ProfileResult * option error :=
  let '(cat, e1) := audit_catalog r dir (catalog_file r dir) in
  let '(classes, e2) := audit_classes r (classes_file r dir) cat in
  let '(floors, e3) := audit_policy r dir (policy_file r dir) cat in
  let '(queries, e4) := audit_evidence r (evidence_file r dir) in
  let '(slos, e5) := audit_watch r (watch_file r dir) in
  let errs := e1 ++ e2 ++ e3 ++ e4 ++ e5 in
  (mkProfileResult (Base dir) (match cat with Some cat => Z.of_nat (length (Contracts cat)) | None => 0 end) classes floors slos queries errs,
   match errs with
   | [] => None
   | _ => Some (errorf_wp ErrValidationFailed (": " +:+ fmt_d (Z.of_nat (length errs)) +:+ " validation error(s) in " +:+ dir))
   end).

(** the standard profiles under a repository *)
Definition standard_profiles (repoRoot : string) : list string :=
  [Join [repoRoot; "config"; "dev"]; Join [repoRoot; "config"; "thump-test"]; Join [repoRoot; "test"; "onboarding"; "testdata"; "acme"]]%string.

Definition All (r : Rig) (repoRoot : string) : list ProfileResult * option error :=
  let audits := map (Profile r) (List.filter (Stat r) (standard_profiles repoRoot)) in
  let total := fold_left (fun n a => match a.2 with Some _ => n + Z.of_nat (length (Res_Errors a.1)) | None => n end) audits 0 in
  (map fst audits,
   if 0 <? total then Some (errorf_wp ErrValidationFailed (": " +:+ fmt_d total +:+ " total error(s) across profiles")) else None).

Definition resolveProfileDir (r : Rig) (root profile : string) : string :=
  if profile =s "dev" then Join [root; "config"; "dev"]%string
  else if profile =s "thump-test" then Join [root; "config"; "thump-test"]%string
  else if profile =s "acme" then Join [root; "test"; "onboarding"; "testdata"; "acme"]%string
  else if Stat r (Join [root; "config"; profile]%string) then Join [root; "config"; profile]%string
  else profile.

Definition findRepoRootFromWd (r : Rig) : result string :=
  match Getwd r with
  | inr err => inr err
  | inl wd =>
      match walk_up (walk_fuel wd) (fun dir => Stat r (Join [dir; "go.mod"]%string)) wd with
      | Some (Some root) => inl root
      | _ => inr (errors_New "cannot locate go.mod in parent tree")
      end
  end.

(** what one result adds to the report: standard output, standard error *)
Definition report_lines (res : ProfileResult) : string * string :=
  match Res_Errors res with
  | [] => ("OK:   " +:+ pad_right 12 (Res_Profile res) +:+ " (" +:+ fmt_d (Res_Actions res) +:+ " actions, " +:+ fmt_d (Res_PolicyFloors res)
           +:+ " policy floors, " +:+ fmt_d (Res_WatchSLOs res) +:+ " SLOs, " +:+ fmt_d (Res_EvidenceQueries res) +:+ " evidence queries)" +:+ newline, "")
  | errs => ("", "FAIL: " +:+ Res_Profile res +:+ " (" +:+ fmt_d (Z.of_nat (length errs)) +:+ " errors)" +:+ newline
             +:+ strings_Join (map (fun e => "  - " +:+ err_text e +:+ newline) errs) "")
  end%string.

Record Exit : Type := mkExit { Exit_code : Z; Exit_stdout : string; Exit_stderr : string }.

Definition report (results : list ProfileResult) : Exit :=
  mkExit (if existsb (fun res => negb (Nat.eqb (length (Res_Errors res)) 0)) results then 1 else 0)
    (strings_Join (map (fun res => (report_lines res).1) results) "") (strings_Join (map (fun res => (report_lines res).2) results) "").

(** one directory audited by [Main] *)
Definition report_one (r : Rig) (dir : string) : Exit :=
  let '(res, err) := Profile r dir in
  match err, Res_Errors res with
  | Some e, [] => mkExit 1 "" ("validate " +:+ dir +:+ ": " +:+ err_text e +:+ newline)
  | _, _ => report [res]
  end.

(** [Main], over the parsed flags --profile and --dir; a flag error has been reported *)
Definition Main (r : Rig) (flags : option (string * string)) : Exit :=
  match flags with
  | None => mkExit 2 "" ""
  | Some (profile, dir) =>
      match findRepoRootFromWd r with
      | inr err =>
          if dir =s "" then mkExit 1 "" ("resolve repo root: " +:+ err_text err +:+ newline)
          else report_one r dir
      | inl repoRoot =>
          if dir <>s "" then report_one r dir
          else if (profile =s "all") || (profile =s "") then report (All r repoRoot).1
          else report_one r (resolveProfileDir r repoRoot profile)
      end
  end.

(** ** What an error-free audit says *)

Lemma when_bad_nil b t : when_bad b t = [] <-> b = false.
Proof. by destruct b. Qed.

Lemma flat_map_nil {A B} (f : A -> list B) (l : list A) : flat_map f l = [] <-> Forall (fun x => f x = []) l.
Proof.
  induction l as [| x l IH]; cbn [flat_map]; [by split; constructor |]. rewrite Forall_cons_iff, <- IH. split.
  - by intros ?%app_nil.
  - by intros [-> ->].
Qed.

Lemma errors_of_audit r dir : (Profile r dir).2 = None <-> Res_Errors (Profile r dir).1 = [].
Proof.
  unfold Profile. destruct (audit_catalog _ _ _) as [cat e1], (audit_classes _ _ _) as [n2 e2], (audit_policy _ _ _ _) as [n3 e3],
    (audit_evidence _ _) as [n4 e4], (audit_watch _ _) as [n5 e5]. cbn. by destruct (e1 ++ e2 ++ e3 ++ e4 ++ e5).
Qed.

(** the blocks of an error-free audit found nothing *)
Lemma audit_clean r dir :
  (Profile r dir).2 = None ->
  exists cat, audit_catalog r dir (catalog_file r dir) = (Some cat, []) /\
    (audit_classes r (classes_file r dir) (Some cat)).2 = [] /\ (audit_policy r dir (policy_file r dir) (Some cat)).2 = [] /\
    (audit_evidence r (evidence_file r dir)).2 = [] /\ (audit_watch r (watch_file r dir)).2 = [].
Proof.
  rewrite errors_of_audit. unfold Profile. destruct (audit_catalog _ _ _) as [cat e1] eqn:E1. destruct (audit_classes _ _ _) as [n2 e2] eqn:E2.
  destruct (audit_policy _ _ _ _) as [n3 e3] eqn:E3. destruct (audit_evidence _ _) as [n4 e4], (audit_watch _ _) as [n5 e5]. cbn.
  intros [-> [-> [-> [-> ->]%app_nil]%app_nil]%app_nil]%app_nil. destruct cat as [cat |].
  - exists cat. by rewrite E2, E3.
  - exfalso. revert E1. unfold audit_catalog. destruct (_ =s ""); [done |]. by destruct (contract_LoadCatalogFile _ _ _).
Qed.

(** a complete contract: named, for known classes and some tiers, with a blast tier, a reversal
    and its fallback, steps of compiled verbs both ways, and a criterion of success with a
    metric, a positive window and a severity reduction that is neither below 0 nor above 1 *)
Record authored (act : ActionContract) : Prop := {
  authored_name : AC_Name act <> ""%string;
  authored_classes : AC_ApplicableFailureClasses act <> [] /\ Forall (fun fc => fc ∈ canonicalFailureClasses) (AC_ApplicableFailureClasses act);
  authored_tiers : AC_ApplicableTiers act <> [];
  authored_blast : AC_BlastTier act ∈ canonicalBlastTiers;
  authored_reversal : Reversal_Method (AC_Reversal act) <> ""%string /\ Reversal_Fallback (AC_Reversal act) <> ""%string;
  authored_steps : Execution_Forward (AC_Execution act) <> [] /\ Execution_Reverse (AC_Execution act) <> [] /\
    Forall (fun s => Step_Verb s ∈ canonicalVerbs) (Execution_Forward (AC_Execution act) ++ Execution_Reverse (AC_Execution act));
  authored_metric : SuccessCriteria_Metric (AC_SuccessCriteria act) <> ""%string;
  authored_window : 0 < SuccessCriteria_Window (AC_SuccessCriteria act);
  authored_pct : flt (SuccessCriteria_SeverityReductionPct (AC_SuccessCriteria act)) f0 = false /\
    fgt (SuccessCriteria_SeverityReductionPct (AC_SuccessCriteria act)) f1 = false
}.

Lemma step_errors_nil direction i steps : step_errors direction i steps = [] <-> Forall (fun s => Step_Verb s ∈ canonicalVerbs) steps.
Proof.
  revert i. induction steps as [| s steps IH]; intros i; cbn [step_errors]; [by split; constructor |].
  rewrite Forall_cons_iff, <- (IH (Z.succ i)), <- slices_Contains_iff. split.
  - by intros [?%when_bad_nil%negb_false_iff ?]%app_nil.
  - by intros [-> ->].
Qed.

Lemma length_zero {A} (l : list A) : Nat.eqb (length l) 0 = false -> l <> [].
Proof. by destruct l. Qed.

Lemma app_nil_iff {A} (a b : list A) : a ++ b = [] <-> a = [] /\ b = [].
Proof. split; [apply app_nil | by intros [-> ->]]. Qed.

Lemma zero_pct x : feq x f0 = true -> flt x f0 = false /\ fgt x f1 = false.
Proof. intros Hx. destruct x as [[] | [] | | []]; try done; by split. Qed.

(** the checks of a contract are those of a complete one *)
Lemma validated_is_authored act : validateActionContract act = [] <-> authored act.
Proof.
  unfold validateActionContract. cbv zeta. rewrite !app_nil_iff, !when_bad_nil, !step_errors_nil, flat_map_nil.
  assert (forall fc, when_bad (negb (slices_Contains canonicalFailureClasses fc)) ("applicableFailureClasses has " +:+ fmt_q fc +:+ ", not a FailureClass const") = []
    <-> fc ∈ canonicalFailureClasses) as Hfc by (intros fc; by rewrite when_bad_nil, negb_false_iff, slices_Contains_iff).
  assert (forall {A} (l : list A), Nat.eqb (length l) 0 = false <-> l <> []) as Hlen by (by intros A []).
  rewrite !Hlen, !String.eqb_neq, orb_false_iff, !String.eqb_neq, negb_false_iff, slices_Contains_iff, Z.leb_gt.
  set (pct := SuccessCriteria_SeverityReductionPct (AC_SuccessCriteria act)).
  assert ((if feq pct f0 then [] else when_bad (flt pct f0 || fgt pct f1) ("severityReductionPct " +:+ fmt_f 2 pct +:+ " must be in [0.0, 1.0]")) = []
    <-> flt pct f0 = false /\ fgt pct f1 = false) as ->.
  { rewrite <- orb_false_iff. destruct (feq pct f0) eqn:E; [| by rewrite when_bad_nil]. destruct (zero_pct _ E) as [-> ->]. done. }
  rewrite (list.Forall_iff _ _ _ Hfc). split.
  - intros (H1 & H2 & H3 & H4 & H5 & H6 & H7 & H8 & H9 & H10 & H11 & H12 & H13). split; auto. do 2 (split; [done |]). by apply Forall_app.
  - intros [H1 [H2 H3] H4 H5 H6 (H7 & H8 & [H9 H10]%Forall_app) H11 H12 H13]. destruct H6, H13. by repeat split.
Qed.

Lemma contract_errors_nil file act : contract_errors file act = [] <-> validateActionContract act = [].
Proof. unfold contract_errors. by destruct (validateActionContract act). Qed.

Lemma band_errors_nil file field m act tier :
  band_errors file field m act tier = [] -> m <> ∅ -> exists b, m !! tier = Some b /\ b ∈ canonicalBands.
Proof.
  unfold band_errors. intros Hb Hm. rewrite bool_decide_false in Hb by done. apply when_bad_nil in Hb.
  destruct (m !! tier) as [b |]; [| done]. exists b. split; [done |]. by apply negb_false_iff, slices_Contains_iff in Hb.
Qed.

Lemma floor_errors_nil file pol act tier fc : floor_errors file pol act tier fc = [] ->
  (exists floors floor, Policy_Floors pol !! tier = Some floors /\ floors !! fc = Some floor) /\
  fle (floor_for pol tier fc) f0 = false /\ fgt (floor_for pol tier fc) f1 = false.
Proof.
  unfold floor_errors, floor_for. destruct (Policy_Floors pol !! tier) as [m |]; [| done]. destruct (m !! fc) as [floor |] eqn:Em; [| done]. cbn [default].
  destruct (fle floor f0) eqn:E; [done |]. intros H%when_bad_nil. split; [by exists m, floor | by split].
Qed.

Lemma LoadPolicy_decoded r path pol : LoadPolicy r path = inl pol -> exists raw, decode_policy r raw = inl pol.
Proof. unfold LoadPolicy. repeat case_match; try done. intros [= <-]. eauto. Qed.

(** under a positive floor a candidate nobody vouches for is vetoed, under both gates *)
Lemma zero_confidence_vetoed ps pol now rec :
  flt f0 (floor_for pol (Set_ServiceTier ps) (Set_FailureClass ps)) = true ->
  feq (Candidate_Confidence rec) f0 = true -> feq (Candidate_ComputedConfidence rec) f0 = true -> ~ Permitted ps pol now rec.
Proof.
  intros Hf Hc Hk [_ _ Hfl _ _ _ _]. revert Hfl. generalize dependent (floor_for pol (Set_ServiceTier ps) (Set_FailureClass ps)). intros floor Hf.
  assert (forall x, feq x f0 = true -> flt x floor = true) as Hz by (intros [[] | [] | | []] Hx; try done; by destruct floor).
  unfold clears_floor, effectiveComputedConfidence. rewrite Hk.
  assert (fgt (Candidate_Confidence rec) f0 = false) as -> by (by destruct (Candidate_Confidence rec) as [[] | [] | | []]).
  cbn [andb]. rewrite !Hz by done. destruct (_ =s _); [by intros [] | done].
Qed.

(** [sigs.k8s.io/yaml] decodes through JSON, which has no number that is not one: a policy
    file that is decoded names no such floor *)
Definition json_floors (r : Rig) : Prop :=
  forall raw pol tier floors fc floor, decode_policy r raw = inl pol ->
    Policy_Floors pol !! tier = Some floors -> floors !! fc = Some floor -> is_nan floor = false.

(** a floor the audit passes: inside (0, 1], or not a number, of which neither comparison holds *)
Definition usable_floor (floor : float64) : Prop := is_nan floor = true \/ (flt f0 floor = true /\ fle floor f1 = true).

Lemma usable_floor_intro floor : fle floor f0 = false -> fgt floor f1 = false -> usable_floor floor.
Proof.
  intros H0 H1. destruct (is_nan floor) eqn:En; [by left |]. right. split.
  - destruct (flt_total f0 floor) as [H | H]; [done | done | done | congruence].
  - apply flt_false_iff in H1 as [H1 | [H1 | H1]]; [done | congruence | done].
Qed.

(** C34. A profile that passes the audit governs every action it authors: its catalog and
    its policy load; every contract is complete (a name, known failure classes, tiers, a known
    blast tier, a reversal with its fallback, forward and reverse steps of compiled verbs, a
    metric, a positive window, a severity reduction neither below 0 nor above 1); and for every
    pair of a tier and a failure class a contract applies to, the policy names a confidence
    floor in (0, 1] (its file being decoded through JSON, a floor is a number), so hiss never
    approves there a candidate that neither the model nor the grounding vouches for; and if
    the policy bounds bands at all, what hiss approves for that tier stays within the known
    band the policy names. *)
Theorem valid_profiles_are_governed (r : Rig) (dir : string) :
  json_floors r -> (Profile r dir).2 = None ->
  exists cat pol,
    contract_LoadCatalogFile r (catalog_file r dir) Preconditions = inl cat /\ LoadPolicy r (policy_file r dir) = inl pol /\
    Res_Actions (Profile r dir).1 = Z.of_nat (length (Contracts cat)) /\
    forall act, act ∈ Contracts cat -> authored act /\
      forall tier fc, tier ∈ AC_ApplicableTiers act -> fc ∈ AC_ApplicableFailureClasses act ->
        (exists floors floor, Policy_Floors pol !! tier = Some floors /\ floors !! fc = Some floor /\ floor_for pol tier fc = floor /\
           flt f0 floor = true /\ fle floor f1 = true) /\
        forall ps now, Set_ServiceTier ps = tier -> Set_FailureClass ps = fc ->
          Decision_Verdict (Evaluate ps pol now) = VerdictApproved ->
          exists rec, recommended ps = Some rec /\
            feq (Candidate_Confidence rec) f0 && feq (Candidate_ComputedConfidence rec) f0 = false /\
            (Policy_MaxBand pol <> ∅ -> exists b, Policy_MaxBand pol !! tier = Some b /\ b ∈ canonicalBands /\
               bandRank (requestedBand rec) <= bandRank b).
Proof.
  intros Hjson (cat & E1 & _ & E3 & _)%audit_clean.
  assert (contract_LoadCatalogFile r (catalog_file r dir) Preconditions = inl cat /\ flat_map (contract_errors (catalog_file r dir)) (Contracts cat) = []) as [Hcat Hacts].
  { revert E1. unfold audit_catalog. destruct (_ =s ""); [done |]. destruct (contract_LoadCatalogFile _ _ _) as [c |]; [| done]. by intros [= <- ->]. }
  assert (exists pol, LoadPolicy r (policy_file r dir) = inl pol /\ flat_map (governance_errors (policy_file r dir) pol) (Contracts cat) = []) as (pol & Hpol & Hgov).
  { revert E3. unfold audit_policy. destruct (_ =s ""); [done |]. destruct (LoadPolicy _ _) as [p |]; [| done]. cbn [snd]. intros [_ H]%app_nil. by exists p. }
  exists cat, pol. split; [done |]. split; [done |]. split.
  { unfold Profile. rewrite E1. by destruct (audit_classes _ _ _), (audit_policy _ _ _ _), (audit_evidence _ _), (audit_watch _ _). }
  rewrite flat_map_nil, list.Forall_forall in Hacts, Hgov. intros act Hact. split; [apply validated_is_authored, (contract_errors_nil (catalog_file r dir)), Hacts, Hact |].
  intros tier fc Ht Hfc. specialize (Hgov act Hact). unfold governance_errors in Hgov. rewrite flat_map_nil, list.Forall_forall in Hgov.
  specialize (Hgov tier Ht). rewrite !app_nil_iff, flat_map_nil, list.Forall_forall in Hgov. destruct Hgov as (Hmax & _ & Hfl).
  destruct (floor_errors_nil _ _ _ _ _ (Hfl fc Hfc)) as [(floors & floor & Hm1 & Hm2) [F0 F1]]. pose proof (usable_floor_intro _ F0 F1) as Hu.
  assert (floor_for pol tier fc = floor) as Efl by (unfold floor_for; by rewrite Hm1, Hm2).
  destruct (LoadPolicy_decoded _ _ _ Hpol) as [raw Hraw]. pose proof (Hjson raw pol tier floors fc floor Hraw Hm1 Hm2) as Hnum. split.
  { exists floors, floor. do 3 (split; [done |]). rewrite <- Efl. destruct Hu as [Hu | Hu]; [congruence | exact Hu]. }
  intros ps now <- <- Hv. destruct (Evaluate_Ruling ps pol now); try (match goal with H : Decision_Verdict _ = _ |- _ => rewrite H in Hv; discriminate Hv end).
  match goal with H : Permitted _ _ _ ?x |- _ => rename x into rec; rename H into Hperm end.
  exists rec. split; [apply Hperm |]. split.
  - destruct Hu as [Hu | [Hu _]]; [congruence |]. apply not_true_iff_false. intros [Hc Hk]%andb_true_iff.
    by apply (zero_confidence_vetoed ps pol now rec).
  - intros Hm. destruct (band_errors_nil _ _ _ _ _ Hmax Hm) as (b & Hb & Hcan). exists b. split; [done |]. split; [done |].
    pose proof (permitted_ceiling _ _ _ _ Hperm) as Hceil. unfold band_for in Hceil. by rewrite Hb in Hceil.
Qed.

(** the command exits with success exactly when no audited profile has an error *)
Lemma report_code results : Exit_code (report results) = 0 <-> Forall (fun res => Res_Errors res = []) results.
Proof.
  unfold report. cbn. induction results as [| res results IH]; cbn [existsb]; [by split; constructor |]. rewrite Forall_cons_iff, <- IH.
  destruct (Res_Errors res); cbn [length Nat.eqb negb orb]; [tauto | split; [done | by intros [? _]]].
Qed.

(** from a rooted working directory the search for the repository comes to an end *)
Lemma repo_root_search_ends r wd :
  Getwd r = inl wd -> String.prefix "/" wd = true ->
  exists res, walk_up (walk_fuel wd) (fun dir => Stat r (Join [dir; "go.mod"]%string)) wd = Some res /\
    match res with
    | Some root => findRepoRootFromWd r = inl root /\ Stat r (Join [root; "go.mod"]%string) = true
    | None => exists e, findRepoRootFromWd r = inr e
    end.
Proof.
  intros Hw Hr. destruct (walk_up_ends (fun dir => Stat r (Join [dir; "go.mod"]%string)) wd Hr) as [res E]. exists res. split; [done |].
  unfold findRepoRootFromWd. rewrite Hw, E. destruct res as [root |]; [| by eexists]. split; [done |]. by apply walk_up_found in E.
Qed.

(** *** A profile on disk *)

Definition demo_step (verb namespace : string) : Step := mkStep verb namespace "" [] "cart" None "" "" "" "" "".

Definition demo_contract (name : string) (forward : list Step) : ActionContract :=
  mkActionContract name [ClassServiceFailure] ["tier-1"]%string BlastLow [] (mkActionSpec "restart the cart" ∅)
    (mkReversal "restart" "page" false false) (mkExecution forward forward) (mkSuccessCriteria "errors" "< 1" (5 * Minute) [] "" f0).

Definition demo_rig (contracts : list ActionContract) : Rig :=
  mkRig (fun p => existsb (String.eqb p) ["/repo/go.mod"; "/repo/config/dev"; "/repo/config/dev/actions/catalog.yaml"; "/repo/config/dev/policy.yaml"]%string)
    (fun _ => inl ""%string) (fun _ => inl contracts) (fun _ => inl []) (fun _ => inl demo_policy) (fun _ => inl ([], [])) (fun _ => inl [])
    (fun _ => ""%string) (inl "/repo/internal/validate"%string).

Definition sound_contract : ActionContract := demo_contract "restart-cart" [demo_step "restart" "shop"].

Lemma valid_profiles_are_governed_witness :
  exists cat pol, contract_LoadCatalogFile (demo_rig [sound_contract]) "/repo/config/dev/actions/catalog.yaml" Preconditions = inl cat /\
    sound_contract ∈ Contracts cat /\ authored sound_contract /\ is_Some (Policy_Floors pol !! "tier-1"%string).
Proof.
  destruct (valid_profiles_are_governed (demo_rig [sound_contract]) "/repo/config/dev") as (cat & pol & Hc & _ & _ & Hact); [| vm_compute; reflexivity |].
  { intros raw pol tier floors fc floor [= <-] Hm Hf. unfold demo_policy in Hm. cbn [Policy_Floors] in Hm.
    apply lookup_singleton_Some in Hm as [_ <-]. apply lookup_singleton_Some in Hf as [_ <-]. reflexivity. }
  exists cat, pol. assert (sound_contract ∈ Contracts cat) as Hin.
  { vm_compute in Hc. injection Hc as <-. apply list_elem_of_here. }
  split; [exact Hc |]. split; [exact Hin |]. destruct (Hact sound_contract Hin) as [Ha Hf]. split; [exact Ha |].
  destruct (Hf "tier-1"%string ClassServiceFailure) as [(floors & floor & Hm & _) _]; [apply list_elem_of_here .. |]. rewrite Hm. by exists floors.
Defined.

(** the audit does not ask whether a step can be bound: thump refuses at start a catalog
    that passed *)
Example unbindable_profile_passes :
  let act := demo_contract "restart-cart" [demo_step "restart" ""] in
  (Profile (demo_rig [act]) "/repo/config/dev").2 = None /\
  match bind (NewStaticCatalog [act]) true with inl _ => False | inr _ => True end.
Proof. vm_compute. auto. Qed.

(** and refuses one that thump binds: the verb of a release is not among its verbs *)
Example release_profile_is_refused :
  let act := demo_contract "release-cart" [mkStep "maintenanceRelease" "" "" [] "" None "" "" "cartFailure" "off" "flags.json"] in
  length (Res_Errors (Profile (demo_rig [act]) "/repo/config/dev").1) = 2%nat /\
  match bind (NewStaticCatalog [act]) true with inl _ => True | inr _ => False end.
Proof. vm_compute. auto. Qed.

(** two contracts of one name pass, of which the catalog finds the first and the runner
    the last *)
Example duplicate_names_pass :
  let acts := [sound_contract; demo_contract "restart-cart" [demo_step "restart" "bank"]] in
  (Profile (demo_rig acts) "/repo/config/dev").2 = None /\ Exit_code (Main (demo_rig acts) (Some ("dev", "")))%string = 0.
Proof. vm_compute. auto. Qed.

(** where none of the standard profiles is there, the command has nothing to say and
    exits with success *)
Example nothing_audited_is_success :
  let r := mkRig (String.eqb "/repo/go.mod") (fun _ => inr (errors_New "no such file")) (fun _ => inl []) (fun _ => inl []) (fun _ => inl demo_policy)
             (fun _ => inl ([], [])) (fun _ => inl []) (fun _ => ""%string) (inl "/repo"%string) in
  Main r (Some ("all", ""))%string = mkExit 0 "" "".
Proof. vm_compute. reflexivity. Qed.

(** the audit leans on the decoder: a floor that is not a number would pass it, and veto nothing *)
Definition nan_policy : Policy := mkPolicy "v1" "collapsed" {[ "tier-1"%string := {[ ClassServiceFailure := S754_nan ]} ]} ∅ ∅ [] true.

Definition unvouched : ProposalSet :=
  mkSet "p" "run-1" "slo_burn:cart" "cart" None ClassServiceFailure [] [] [] "tier-1" (Some (mkGateResult true true true true ""))
    [mkCandidate "c1" "restart-cart" f0 f0 false ConfidenceTerms_zero None BlastLow
       (Some (mkReversalPath "restart" "m" "t" true)) (Some (mkGovernanceLevel BandActReversible f0)) 1 ["k"%string]]
    "c1" None (Some Status_zero).

Example nan_floor_passes :
  floor_errors "policy.yaml" nan_policy sound_contract "tier-1" ClassServiceFailure = [] /\
  Decision_Verdict (Evaluate unvouched nan_policy 5) = VerdictApproved.
Proof. split; vm_compute; reflexivity. Qed.
