(* ===== verification/Process.v ===== *)
(** * The Mains: internal/hiss, thump, rattle, clank and bootstrap as processes

    Each [Main] and [runBroker], from the flags to the exit code: the configuration and the
    files it loads, in its order, what it acquires and defers, and the transport it serves
    with the goroutines beside it.  The libraries behind the connection, the certificates and
    the exporters are parameters, and so is how a run ends; the theorems say what a process
    that serves is serving. *)

From S2P Require Import Prelude GoTime GoFloat Strings GoParse Api Contract Hiss HissTransport Configfile Config Tlsx Otelx Broker Validate Lifecycle.
From S2P Require Import ThumpExec ThumpTransport Actuate Converge ClankScore ClankLedger ClankEngine Clank Rattle RattleSources Topology Evidence Changes.
Local Open Scope Z_scope.

(** what a process finds outside itself *)
Record Env : Type := mkEnv {
  En_getenv : string -> string;
  En_url_valid : string -> bool;
  (** the files and what they decode to *)
  En_rig : Rig;
  En_ModTime : string -> result Time;
  En_wal : string -> result walConfigFile;
  (** [js.Consumer] by durable name *)
  En_consumer : string -> option error;
  (** [awsconfig.LoadDefaultConfig] for an endpoint and its credentials *)
  En_s3 : string -> string -> string -> option error;
  En_MkdirAll : string -> option error;
  (** the messages kept on a subject, and how the fetches of a replay end *)
  En_stream : string -> list (option Time * string);
  En_fetch : string -> list Fetch;
  (** how the group of a broker run ended: the cause of its context, its error, and Wait's *)
  En_ended : option error * option error * option error;
  (** the single pass of [--once] *)
  En_ticked : option error
}.

Definition En_fs (env : Env) : FS := mkFS (ReadFile (En_rig env)) (En_ModTime env).

Inductive goroutine : Type :=
| RunShipper (e : Output) (every : Duration)
| RunConsumer (subject : string)
| RunController
| RunReload
| RunLoop
| LoopTick
| ReloadOnce
| TickOnce.

(** a publisher over the broker: through a log of its own, or straight to the stream, as
    [publish.NewJetPublisher] gives it *)
Inductive publisher : Type :=
| Logged (out : Output)
| Bare (subject : string).

(** a transport, the publishers it is handed, and what runs over it *)
Record Serving (T : Type) : Type := mkServing { Sv_transport : T; Sv_publishers : list publisher; Sv_tasks : list goroutine }.
Arguments mkServing {T}. Arguments Sv_transport {T}. Arguments Sv_publishers {T}. Arguments Sv_tasks {T}.

(** a replayed subject: its facts in stream order, or the error of [DrainSubject] *)
Definition drained {T} (env : Env) (decode : string -> result T) (subject prefix : string) : result (list (Time * T)) :=
  match DrainSubject decode prefix (En_stream env subject) (En_fetch env subject) with
  | (got, None) => inl got
  | (_, Some err) => inr err
  end.

Definition tls_of (s : BrokerStore) : TLSConfig := mkTLSConfig (BS_TLSCertFile s) (BS_TLSKeyFile s) (BS_TLSCAFile s) "".

Section processes.
Context {Cert Pool Exporter Resource NC JS : Type}.
Context (AppendCertsFromPEM : string -> option Pool).
Context (otlptracegrpc_New : string -> option (tls_Config (Cert := Cert) (Pool := Pool)) -> result Exporter).
Context (service_resource : string -> result Resource).
Context (nats_Connect : string -> list (nats_option (S := Health * bool) (Cert := Cert) (Pool := Pool)) -> result NC).
Context (jetstream_New : NC -> result JS).

Section shared.
Context {T : Type} (env : Env).
Abbreviation proc := (proc (Serving T)).

(** the tracer, and its deferred shutdown *)
Definition with_tracer (beatName endpoint : string) (s : BrokerStore) (p : proc) : proc :=
  need (Tracer AppendCertsFromPEM otlptracegrpc_New service_resource (En_fs env) beatName endpoint (tls_of s)) (fun _ => deferring TheTracer p).

(** the TLS configuration of the metrics listener, when there is a certificate *)
Definition metrics_tls (s : BrokerStore) : result bool :=
  if BS_TLSCertFile s <>s "" then
    match Tlsx.Server (Cert := Cert) AppendCertsFromPEM (En_fs env) (tls_of s) with inr err => inr err | inl _ => inl true end
  else inl false.

Definition with_metrics (s : BrokerStore) (p : proc) : proc :=
  need (metrics_tls s) (fun tls => deferring (TheListeners (Metrics (En_getenv env) tls)) p).

(** the TLS configuration of the backends, when there is a certificate *)
Definition backend_tls (s : BrokerStore) : result (option (tls_Config (Cert := Cert) (Pool := Pool))) :=
  if BS_TLSCertFile s <>s "" then
    match Tlsx.Client AppendCertsFromPEM (En_fs env) (tls_of s) with inr err => inr err | inl tc => inl (Some tc) end
  else inl None.

(** the connection, with the hooks that drive readiness, and its deferred close *)
Definition with_connection (natsURL : string) (s : BrokerStore) (p : proc) : proc :=
  need (Connect AppendCertsFromPEM nats_Connect jetstream_New (En_fs env) natsURL (tls_of s) beat_hooks) (fun _ => deferring TheConnection p).

(** [AwaitConsumers], which flips ready *)
Definition await_consumers (subjects : list string) (p : proc) : proc :=
  need_ok (AwaitConsumers (En_consumer env) (mkHealth false None) subjects).2 (does SaysReady p).

Definition wal_config (s : BrokerStore) : result WALConfig := LoadWALConfig (ReadFile (En_rig env)) (En_wal env) (BS_WALConfig s).

(** [objectstore.NewS3SegmentSink] *)
Definition segment_sink (s : BrokerStore) : option error :=
  match En_s3 env (BS_S3Endpoint s) (BS_S3AccessKey s) (BS_S3SecretKey s) with Some err => Some (errorf_w "objectstore: load s3 config: " err) | None => None end.

(** the group and the exit code of a broker run *)
Definition serve_group (x : T) (pubs : list publisher) (tasks : list goroutine) : proc :=
  let '(cause, ctxErr, err) := En_ended env in does (Serves (mkServing x pubs tasks)) (exits (ExitOnError cause ctxErr err)).

(** a pass and its exit code, or the loop until the signal *)
Definition serve_offline (once : bool) (x : T) (before : list goroutine) : proc :=
  if once then does (Serves (mkServing x [] (before ++ [TickOnce]))) (exits (match En_ticked env with Some _ => 1 | None => 0 end))
  else does (Serves (mkServing x [] (before ++ [LoopTick]))) (exits 0).

End shared.

(** ** hiss.go *)

Section hiss.
Context {W : Type} (env : Env) (decode_governed : string -> result Governed).
(** [NewApprovalRequestController], as the [Create] the transport calls *)
Context (newController : Duration -> result (Governed -> W -> W * option error)).

(** the transport of the process: what is fixed, and the holds it starts with *)
Definition HissServed : Type := TransportConfig W * option PendingHolds.

Definition buildApprovalRequests (cfg : HissConfig) : result (option (Governed -> W -> W * option error)) :=
  if negb (HC_ApprovalRequestsEnabled cfg) then inl None
  else match newController (HC_ApprovalRetention cfg) with inr err => inr err | inl c => inl (Some c) end.

(** [rebuildHolds] over the stream, and the transport seeded with it *)
Definition buildTransport (pol : Policy) (approvals : option (Governed -> W -> W * option error)) : result HissServed :=
  match drained env decode_governed "thump.decisions" "hiss: rebuild holds" with
  | inr err => inr (errorf_w "hiss: build transport: " err)
  | inl history => inl (mkTransportConfig pol approvals, Some (rebuildHolds (map snd history)))
  end.

Definition hiss_runBroker (cfg : HissConfig) (pol : Policy) : proc (Serving HissServed) :=
  let s := HC_BrokerStore cfg in
  deferring TheRunContext (
  with_connection env (HC_NATSURL cfg) s (
  await_consumers env ["thump.proposals"%string] (
  need (wal_config env s) (fun wc =>
  need (NewWALPublisher (BS_WALDir s) "hiss" "thump.decisions" wc) (fun pub =>
  need_ok (segment_sink env s) (
  deferring (TheWAL "thump.decisions") (
  need (buildApprovalRequests cfg) (fun controller =>
  need (buildTransport pol controller) (fun tr =>
  serve_group env tr (Logged pub :: match controller with Some _ => [Bare "thump.approvals"] | None => [] end)
    ([RunShipper pub (WC_ShipInterval wc); RunConsumer "thump.proposals"; RunConsumer "thump.approvals"] ++
     match controller with Some _ => [RunController] | None => [] end)))))))))).

Definition hiss_Main (args : list string) (v : Version) : proc (Serving HissServed) :=
  Start (En_getenv env) "hiss" args v (fun once nats =>
  match LoadHiss (En_getenv env) (En_url_valid env) (nats <>s "") with
  | (_, Some _) => exits 1
  | (cfg, None) =>
      need (LoadPolicy (En_rig env) (HC_Policy cfg)) (fun pol =>
      with_tracer env "hiss" (HC_OTLPEndpoint cfg) (HC_BrokerStore cfg) (
      with_metrics env (HC_BrokerStore cfg) (
      if nats <>s "" then hiss_runBroker cfg pol
      else does SaysReady (serve_offline env once (mkTransportConfig pol None, None) []))))
  end).

End hiss.

(** ** thump.go *)

Section thump.
Context {C : Type} (env : Env) (cd : Codec).
(** [rest.InClusterConfig] and the two clients over it *)
Context (in_cluster : result (Kube (C := C))).
Context (notifierCtor : string -> Governed -> option error) (forgeCtor : string -> string -> Forge (C := C)).
(** [httpx.Client] *)
Context (httpx_Client : option (tls_Config (Cert := Cert) (Pool := Pool)) -> Converge.Client (LiveWorld C)).
Context (decode_queries : string -> result (list (string * string))).

(** the transport of the process, and the kill switch it starts with *)
Definition ThumpServed : Type := Transport (C := LiveWorld C) * option FileSwitch.

(** [actuate.New] *)
Definition actuate_New (cat : StaticCatalog) (f : option (Forge (C := C))) : result (Runner (C := C)) :=
  match in_cluster with inr err => inr (errorf_w "actuate: " err) | inl k => NewWithKube k cat f end.

(** [gatedLive], with the switch disarmed *)
Definition gatedLive_new (cfg : ThumpConfig) (runner : Runner (C := C)) : Executor (LiveWorld C) * option FileSwitch :=
  (ThumpExec.gatedLive (Run cd runner), Some (NewFileSwitch (TC_KillSwitchPath cfg))).

Definition buildExecutor (cfg : ThumpConfig) (cat : StaticCatalog) (f : option (Forge (C := C)))
  : result (Executor (LiveWorld C) * option FileSwitch) :=
  if TC_Executor cfg <>s "live" then inl (DryRun, None)
  else match actuate_New cat f with
       | inr err => inr (errorf_w "build live executor: " err)
       | inl runner => inl (gatedLive_new cfg runner)
       end.

Definition buildReversalWatcher (cfg : ThumpConfig) : result (option (Converger (LiveWorld C))) :=
  if TC_PromURL cfg =s "" then inl None
  else match LoadQueries (TC_EvidenceQueries cfg) (ReadFile (En_rig env)) decode_queries with
       | inr err => inr (errorf_w "load evidence queries: " err)
       | inl queries =>
           match backend_tls env (TC_BrokerStore cfg) with
           | inr err => inr (errorf_w "backend tls setup: " err)
           | inl tls => inl (Some (PrometheusConverger (probe_of (mkProber (TC_PromURL cfg) (httpx_Client tls) queries))))
           end
       end.

Definition buildNotifier (cfg : ThumpConfig) : option (Governed -> option error) :=
  if TC_SlackWebhookURL cfg =s "" then None else Some (notifierCtor (TC_SlackWebhookURL cfg)).

Definition buildForge (cfg : ThumpConfig) : option (Forge (C := C)) :=
  if (TC_ForgeRepo cfg =s "") || (TC_ForgeToken cfg =s "") then None else Some (forgeCtor (TC_ForgeRepo cfg) (TC_ForgeToken cfg)).

(** the forge as the acceptance probe: a withdrawal, in the world of the executor *)
Definition acceptance_of (f : Forge (C := C)) : ReleaseProbe (LiveWorld C) :=
  fun key w => let '(c, r) := Forge_Withdraw f key (lw_infra w) in (mkLiveWorld (lw_switch w) c, r).

Definition thump_transport (cfg : ThumpConfig) (cat : StaticCatalog) (exec : Executor (LiveWorld C)) (watcher : option (Converger (LiveWorld C)))
  : Transport (C := LiveWorld C) :=
  mkTransport cat exec watcher (option_map acceptance_of (buildForge cfg)) (buildNotifier cfg).

Definition thump_subjects : list string := ["thump.orders"; "thump.outcomes"; "thump.declines"; "thump.held"]%string.

Definition thump_runBroker (cfg : ThumpConfig) (cat : StaticCatalog) : proc (Serving ThumpServed) :=
  let s := TC_BrokerStore cfg in
  deferring TheRunContext (
  with_connection env (TC_NATSURL cfg) s (
  await_consumers env ["thump.decisions"%string] (
  need (wal_config env s) (fun wc =>
  need (NewWALPublisher (BS_WALDir s) "thump" "thump.orders" wc) (fun orderPub =>
  need (NewWALPublisher (BS_WALDir s) "thump" "thump.outcomes" wc) (fun outcomePub =>
  need (NewWALPublisher (BS_WALDir s) "thump" "thump.declines" wc) (fun declinePub =>
  need (NewWALPublisher (BS_WALDir s) "thump" "thump.held" wc) (fun heldPub =>
  need_ok (segment_sink env s) (
  deferring (TheWAL "thump.orders") (
  deferring (TheWAL "thump.outcomes") (
  deferring (TheWAL "thump.declines") (
  deferring (TheWAL "thump.held") (
  need (buildExecutor cfg cat (buildForge cfg)) (fun '(exec, sw) =>
  need (buildReversalWatcher cfg) (fun watcher =>
  serve_group env (thump_transport cfg cat exec watcher, sw) (map Logged [orderPub; outcomePub; declinePub; heldPub])
    (match sw with Some _ => [RunReload] | None => [] end ++
     map (fun pub => RunShipper pub (WC_ShipInterval wc)) [orderPub; outcomePub; declinePub; heldPub] ++
     [RunConsumer "thump.decisions"])))))))))))))))).

Definition thump_Main (args : list string) (v : Version) : proc (Serving ThumpServed) :=
  Start (En_getenv env) "thump" args v (fun once nats =>
  match LoadThump (En_getenv env) (En_url_valid env) (nats <>s "") with
  | (_, Some _) => exits 1
  | (cfg, None) =>
      need (contract_LoadCatalogFile (En_rig env) (TC_ActionCatalog cfg) Preconditions) (fun cat =>
      with_tracer env "thump" (TC_OTLPEndpoint cfg) (TC_BrokerStore cfg) (
      with_metrics env (TC_BrokerStore cfg) (
      if nats <>s "" then thump_runBroker cfg cat
      else does SaysReady (
        need (buildExecutor cfg cat (buildForge cfg)) (fun '(exec, sw) =>
        need (buildReversalWatcher cfg) (fun watcher =>
        serve_offline env once (thump_transport cfg cat exec watcher, sw)
          (match sw with Some _ => if once then [ReloadOnce] else [RunReload] | None => [] end)))))))
  end).

End thump.

(** ** rattle.go *)

Section rattle.
Context {E : Type} (env : Env) (now : E -> Time).
Context (decode_query : string -> result queryConfigFile).
Context (decode_states : string -> result (list (string * string))) (decode_node : string -> result (string * list string))
  (decode_traffic : string -> result (list (string * string * string))).
(** the HTTP clients over a TLS configuration *)
Context (httpx_clients : option (tls_Config (Cert := Cert) (Pool := Pool)) -> RattleClients (E := E)).

(** where the detections go: nowhere, a directory, or the log and the broker *)
Inductive rattle_pub : Type :=
| NoPublisher
| ToDirectory (dir : string)
| ToStream (out : Output).

Record RattleServed : Type := mkRattleServed {
  Rt_reconciler : Reconciler (E := E);
  Rt_debounce : option Debouncer;
  Rt_pub : rattle_pub;
  Rt_query : QueryConfig
}.

Definition rattle_files : RattleFiles :=
  mkRattleFiles (ReadFile (En_rig env)) decode_states (fun path => Topology.LoadCatalogFile decode_node path (ReadFile (En_rig env))) decode_traffic.

(** the rest of [Main] once the publisher is chosen *)
Definition rattle_serve (cfg : RattleConfig) (tls : option (tls_Config (Cert := Cert) (Pool := Pool))) (slos : list SLO) (query : QueryConfig)
  (topo : option (Dependency -> E -> E * result string)) (traffic : option (SLO -> E -> E * result (list TrafficSample)))
  (pub : rattle_pub) (ship : list goroutine) : proc (Serving RattleServed) :=
  does SaysReady (
  with_tracer env "rattle" (RC_OTLPEndpoint cfg) (RC_BrokerStore cfg) (
  let '(r, deb) := prom_reconciler now (httpx_clients tls) (RC_PromURL cfg) slos topo traffic query in
  match pub with
  | ToStream out =>
      need_ok (segment_sink env (RC_BrokerStore cfg)) (
      deferring (TheWAL "thump.detections") (
      serve_group env (mkRattleServed r deb pub query) [Logged out] (ship ++ [RunLoop])))
  | _ => serve_offline env false (mkRattleServed r deb pub query) []
  end)).

Definition rattle_Main (args : list string) (v : Version) : proc (Serving RattleServed) :=
  Start (En_getenv env) "rattle" args v (fun once nats =>
  match LoadRattle (En_getenv env) (En_url_valid env) (nats <>s "") with
  | (_, Some _) => exits 1
  | (cfg, None) =>
      let s := RC_BrokerStore cfg in
      need (LoadWatch (ReadFile (En_rig env)) (decode_watch (En_rig env)) (RC_WatchPath cfg)) (fun slos =>
      need (LoadQueryConfig (ReadFile (En_rig env)) decode_query ParseDuration (RC_QueryConfig cfg)) (fun query =>
      need (backend_tls env s) (fun tls =>
      need (buildSources now rattle_files (httpx_clients tls) cfg) (fun '(topo, traffic) =>
      with_metrics env s (
      deferring TheRunContext (
      if nats <>s "" then
        with_connection env (RC_NATSURL cfg) s (
        need (wal_config env s) (fun wc =>
        need (NewWALPublisher (BS_WALDir s) "rattle" "thump.detections" wc) (fun pub =>
        rattle_serve cfg tls slos query topo traffic (ToStream pub) [RunShipper pub (WC_ShipInterval wc)])))
      else if RC_Outbox cfg <>s "" then
        need_ok (En_MkdirAll env (RC_Outbox cfg)) (rattle_serve cfg tls slos query topo traffic (ToDirectory (RC_Outbox cfg)) [])
      else rattle_serve cfg tls slos query topo traffic NoPublisher []))))))
  end).

End rattle.

(** ** clank.go and broker.go *)

Section clank.
Context {M S_ J : Type} (env : Env) (now : M -> Time).

(** what the files and the model's arguments decode to *)
Record ClankFiles : Type := mkClankFiles {
  Cf_weights : string -> result weightsFile;
  Cf_limits : string -> result limitsFile;
  Cf_node : string -> result (string * list string);
  Cf_states : string -> result (list (string * string));
  Cf_graph : string -> result GraphQueries;
  Cf_graph_direct : string -> result GraphQueries;
  Cf_metrics : string -> result string;
  Cf_loki : string -> result lokiInput;
  Cf_traces : string -> result tracesInput;
  Cf_kube : string -> result kubeInput;
  Cf_schema : string -> string;
  Cf_propose : string -> result proposeInput;
  Cf_insufficient : string -> result insufficientInput;
  Cf_set : string -> result ProposalSet;
  Cf_outcome : string -> result Outcome;
  Cf_decision : string -> result Decision
}.

(** what [InClusterClients] gives the change sources: nothing outside a cluster *)
Record Cluster : Type := mkCluster {
  Cl_kube : option ((string -> M -> result (list Deployment)) * (string -> M -> result (list ConfigMap)));
  Cl_argo : option (M -> result (list Application))
}.

Inductive StoreChoice : Type :=
| InMemory
| InDirectory (dir : string)
| InBucket (bucket : string) (key : option string).

Context (f : ClankFiles) (cluster : Cluster).
(** the backends over a TLS configuration, with the pod list of the cluster *)
Context (backends : option (tls_Config (Cert := Cert) (Pool := Pool)) -> Backends M).
(** [anthropic.NewModel] of a key, and the store over its directory or bucket *)
Context (NewModel : string -> list Message -> list ToolSpec -> M -> M * result Completion).
Context (open_store : StoreChoice -> Store (S_ := S_)).

(** an evidence tool, as the engine calls it *)
Definition tool_of (t : evidence_tool M) : Tool (M := M) :=
  match t with
  | TheMetricsTool t => mkTool (Metrics_Spec (Cf_schema f "metrics") t) (fun args m => (m, Metrics_Run t (Cf_metrics f) args m))
  | TheLokiTool t => mkTool (Loki_Spec (Cf_schema f "loki") t) (fun args m => (m, Loki_Run t (Cf_loki f) args (now m) m))
  | TheTracesTool t => mkTool (Traces_Spec (Cf_schema f "traces") t) (fun args m => (m, Traces_Run t (Cf_traces f) args (now m) m))
  | TheKubeTool t => mkTool (Kube_Spec (Cf_schema f "kube") t) (fun args m => (m, Kube_Run t (Cf_kube f) args m))
  end.

Definition EvidenceConfig_zero : EvidenceConfig := mkEvidenceConfig ∅ [].

Definition evidence_of (cfg : ClankConfig) : result EvidenceConfig :=
  if CC_EvidenceQueries cfg <>s "" then LoadEvidenceConfig (CC_EvidenceQueries cfg) (ReadFile (En_rig env)) (decode_evidence (En_rig env))
  else inl EvidenceConfig_zero.

(** [buildIntake], with the two change sources over the cluster *)
Definition intake_of (cfg : ClankConfig) (be : Backends M) (ev : EvidenceConfig) (lookback : Duration) : result (Intake (M := M)) :=
  let readFile := ReadFile (En_rig env) in
  let idx := Evidence_Index ev in
  buildIntake
    (mkIntakeConfig M (CC_PromURL cfg) (CC_WhirCatalog cfg) (CC_WhirStateQueries cfg) (CC_WhirGraphQueries cfg) (CC_WhirGraphWindow cfg)
       (CC_ArgoEnabled cfg) (Be_Prom be) (fun path => Topology.LoadCatalogFile (Cf_node f) path readFile)
       (fun path => LoadStateQueries path readFile (Cf_states f)) (fun path => LoadGraphQueries path readFile (Cf_graph f) (Cf_graph_direct f)))
    (option_map (fun kc => fun (_ : Detection) m => KubeChangeSource_Changes (mkKubeChangeSource M kc.1 kc.2 idx lookback None) (now m) m) (Cl_kube cluster))
    (option_map (fun ac => fun (_ : Detection) m => ArgoChangeSource_Changes (mkArgoChangeSource M ac idx lookback) (fun _ => now m) m) (Cl_argo cluster))
    idx.

(** the store of the transcripts: the bucket with a broker, else a directory or memory *)
Definition store_of (cfg : ClankConfig) (broker : bool) : result StoreChoice :=
  let s := CC_BrokerStore cfg in
  if broker then match segment_sink env s with Some err => inr err | None => inl (InBucket (BS_S3Bucket s) (BS_SealKey s)) end
  else if CC_Transcripts cfg <>s "" then
    match En_MkdirAll env (CC_Transcripts cfg) with Some err => inr err | None => inl (InDirectory (CC_Transcripts cfg)) end
  else inl InMemory.

Definition clank_parts (cfg : ClankConfig) (cat : StaticCatalog) (classes : list FailureClassDefinition) (weights : ScoringWeights) (limits : Limits)
  (be : Backends M) (ev : EvidenceConfig) (intake : Intake (M := M)) (store : StoreChoice) : Parts (M := M) (S_ := S_) :=
  mkParts intake (NewModel (CC_AnthropicAPIKey cfg)) (tool_of <$> buildTools cfg be ev) cat classes (open_store store) (CC_DedupeWindow cfg)
    weights limits (Cf_schema f) (Cf_propose f) (Cf_insufficient f).

Definition events_of {T} (wrap : T -> replayPayload) (got : list (Time * T)) : list replayEvent :=
  map (fun v => mkReplayEvent v.1 (wrap v.2)) got.

(** [buildLedger]: the three subjects drained in order, then replayed *)
Definition ledger_of (limits : Limits) : result Click :=
  match drained env (Cf_set f) "thump.proposals" "fetch thump.proposals" with
  | inr err => inr (errorf_w "clank: rebuild ledger: " err)
  | inl ps =>
      match drained env (Cf_outcome f) "thump.outcomes" "fetch thump.outcomes" with
      | inr err => inr (errorf_w "clank: rebuild ledger: " err)
      | inl os =>
          match drained env (Cf_decision f) "thump.declines" "fetch thump.declines" with
          | inr err => inr (errorf_w "clank: rebuild ledger: " err)
          | inl ds => buildLedger limits (events_of ReplayProposal ps) (events_of ReplayOutcome os) (events_of ReplayDecline ds)
          end
      end
  end.

(** the parts of the engine, the ledger and the case base it starts with, and whether every
    terminal phase is journaled *)
Record ClankServed : Type := mkClankServed { Ck_parts : Parts (M := M) (S_ := S_); Ck_click : Click; Ck_journal : bool }.

Definition clank_runBroker (cfg : ClankConfig) (p : Parts (M := M) (S_ := S_)) : proc (Serving ClankServed) :=
  let s := CC_BrokerStore cfg in
  deferring TheRunContext (
  with_connection env (CC_NATSURL cfg) s (
  await_consumers env ["thump.detections"; "thump.outcomes"; "thump.declines"]%string (
  need (wal_config env s) (fun wc =>
  need (NewWALPublisher (BS_WALDir s) "clank" "thump.proposals" wc) (fun proposalPub =>
  need (NewJournalPublisher (BS_WALDir s) "clank" "thump.reasoning" wc) (fun journalPub =>
  need_ok (segment_sink env s) (
  deferring (TheWAL "thump.proposals") (
  deferring (TheWAL "thump.reasoning") (
  need (ledger_of (Pt_Limits p)) (fun click =>
  serve_group env (mkClankServed p click true) [Logged proposalPub; Logged journalPub]
    [RunShipper proposalPub (WC_ShipInterval wc); RunShipper journalPub (WC_ShipInterval wc);
     RunConsumer "thump.detections"; RunConsumer "thump.outcomes"; RunConsumer "thump.declines"])))))))))).

Definition clank_Main (args : list string) (v : Version) : proc (Serving ClankServed) :=
  Start (En_getenv env) "clank" args v (fun once nats =>
  let broker := nats <>s "" in
  match LoadClank (En_getenv env) (En_url_valid env) broker with
  | (_, Some _) => exits 1
  | (cfg, None) =>
      let s := CC_BrokerStore cfg in
      let readFile := ReadFile (En_rig env) in
      need (contract_LoadCatalogFile (En_rig env) (CC_ActionCatalog cfg) Preconditions) (fun cat =>
      need (LoadFailureClassesFile (En_rig env) (CC_FailureClasses cfg)) (fun classes =>
      need (LoadWeightsFile readFile (Cf_weights f) ParseDuration (CC_Weights cfg)) (fun weights =>
      need (LoadLimitsFile readFile (Cf_limits f) ParseDuration (CC_Limits cfg)) (fun limits =>
      need (backend_tls env s) (fun tls =>
      need (evidence_of cfg) (fun ev =>
      need (intake_of cfg (backends tls) ev (Limits_ChangeLookback limits)) (fun intake =>
      need (store_of cfg broker) (fun store =>
      let p := clank_parts cfg cat classes weights limits (backends tls) ev intake store in
      with_tracer env "clank" (CC_OTLPEndpoint cfg) s (
      with_metrics env s (
      if broker then clank_runBroker cfg p
      else does SaysReady (serve_offline env false
             (mkClankServed p (mkClick (mkLedger (Limits_LedgerRetention limits) []) (sized_cases limits)) false) []))))))))))
      )
  end).

End clank.

(** ** bootstrap.go *)

(** [ConnectAndEnsure] without hooks: the connection is closed when the topology fails, and by
    [Main] when it does not *)
Definition bootstrap_Main (env : Env)
  (connect : string -> list (nats_option (S := unit) (Cert := Cert) (Pool := Pool)) -> result NC)
  (CreateOrUpdateStream : StreamConfig -> JS -> JS * option error) (CreateOrUpdateConsumer : string -> ConsumerConfig -> JS -> JS * option error)
  : proc JS :=
  match LoadBootstrap (En_getenv env) (En_url_valid env) with
  | (_, Some err) => does (Prints (err_text err +:+ newline)) (exits 1)
  | (cfg, None) =>
      match Connect AppendCertsFromPEM connect jetstream_New (En_fs env) (Boot_NATSURL cfg)
              (mkTLSConfig (Boot_TLSCertFile cfg) (Boot_TLSKeyFile cfg) (Boot_TLSCAFile cfg) "") no_hooks with
      | inr err => does (Prints (err_text err +:+ newline)) (exits 1)
      | inl js =>
          match EnsureTopology CreateOrUpdateStream CreateOrUpdateConsumer js with
          | (js', Some err) =>
              let '(tr, code) := deferring TheConnection (does (Serves js') (exits 1)) in
              (tr ++ [Prints (err_text (errorf_w "broker: ensure topology: " err) +:+ newline)], code)
          | (js', None) => deferring TheConnection (does (Serves js') (exits 0))
          end
      end
  end.

(** ** What a trace of these Mains says *)

Section helpers.
Context {T : Type} (env : Env).

Lemma balanced_with_tracer b ep s (p : proc (Serving T)) : balanced p -> balanced (with_tracer env b ep s p).
Proof. intros Hp. unfold with_tracer. auto with processes. Qed.

Lemma balanced_with_metrics s (p : proc (Serving T)) : balanced p -> balanced (with_metrics env s p).
Proof. intros Hp. unfold with_metrics. auto with processes. Qed.

Lemma balanced_with_connection url s (p : proc (Serving T)) : balanced p -> balanced (with_connection env url s p).
Proof. intros Hp. unfold with_connection. auto with processes. Qed.

Lemma balanced_await subjects (p : proc (Serving T)) : balanced p -> balanced (await_consumers env subjects p).
Proof. intros Hp. unfold await_consumers. auto with processes. Qed.

Lemma balanced_serve_group (x : T) pubs tasks : balanced (serve_group env x pubs tasks).
Proof. unfold serve_group. destruct (En_ended env) as [[cause ctxErr] err]. auto with processes. Qed.

Lemma balanced_serve_offline once (x : T) before : balanced (serve_offline env once x before).
Proof. unfold serve_offline. destruct once; auto with processes. Qed.

Lemma served_with_tracer st b ep s (p : proc (Serving T)) y : balanced p -> y ∈ served st (with_tracer env b ep s p).1 -> y ∈ served (TheTracer :: st) p.1.
Proof. intros Hp (t & _ & Hy)%served_need. by rewrite served_deferring in Hy. Qed.

Lemma served_with_metrics st s (p : proc (Serving T)) y : balanced p -> y ∈ served st (with_metrics env s p).1 -> exists l, y ∈ served (TheListeners l :: st) p.1.
Proof. intros Hp (t & _ & Hy)%served_need. rewrite served_deferring in Hy by done. eauto. Qed.

Lemma served_with_connection st url s (p : proc (Serving T)) y : balanced p -> y ∈ served st (with_connection env url s p).1 -> y ∈ served (TheConnection :: st) p.1.
Proof. intros Hp (t & _ & Hy)%served_need. by rewrite served_deferring in Hy. Qed.

Lemma served_await st subjects (p : proc (Serving T)) y : y ∈ served st (await_consumers env subjects p).1 ->
  (AwaitConsumers (En_consumer env) (mkHealth false None) subjects).2 = None /\ y ∈ served st p.1.
Proof. intros [Ha Hy]%served_need_ok. by rewrite served_does in Hy. Qed.

Lemma served_group st (x : T) pubs tasks y : y ∈ served st (serve_group env x pubs tasks).1 <-> y = (st, mkServing x pubs tasks).
Proof. unfold serve_group. destruct (En_ended env) as [[cause ctxErr] err]. rewrite served_does. apply list_elem_of_singleton. Qed.

Lemma served_offline st once (x : T) before y : y ∈ served st (serve_offline env once x before).1 <->
  y = (st, mkServing x [] (before ++ [if once then TickOnce else LoopTick])).
Proof. unfold serve_offline. destruct once; rewrite served_does; apply list_elem_of_singleton. Qed.

End helpers.

#[local] Hint Resolve balanced_with_tracer balanced_with_metrics balanced_with_connection balanced_await balanced_serve_group balanced_serve_offline : processes.

#[local] Hint Extern 2 (balanced (if ?b then _ else _)) => destruct b : processes.
#[local] Hint Extern 2 (balanced (let '(_, _) := ?b in _)) => destruct b : processes.

Lemma balanced_hiss {W} env dec (nc : Duration -> result (Governed -> W -> W * option error)) args v : balanced (hiss_Main env dec nc args v).
Proof.
  apply balanced_Start. intros once nats. destruct (LoadHiss _ _ _) as [cfg [err |]]; [done |]. unfold hiss_runBroker. cbv zeta. auto 20 with processes.
Qed.

#[local] Hint Extern 2 (balanced (match ?b with (_, _) => _ end)) => destruct b : processes.

Lemma balanced_thump {C} env cd ic nc fc hc dq args v : balanced (thump_Main (C := C) env cd ic nc fc hc dq args v).
Proof.
  apply balanced_Start. intros once nats. destruct (LoadThump _ _ _) as [cfg [err |]]; [done |]. unfold thump_runBroker. cbv zeta.
  auto 25 with processes.
Qed.

Lemma balanced_rattle_serve {E} env now hc cfg tls slos query topo traffic pub ship : balanced (rattle_serve (E := E) env now hc cfg tls slos query topo traffic pub ship).
Proof.
  unfold rattle_serve. apply balanced_does; [done |]. apply balanced_with_tracer.
  destruct (prom_reconciler _ _ _ _ _ _ _) as [r deb]. destruct pub; auto with processes.
Qed.
#[local] Hint Resolve balanced_rattle_serve : processes.

Lemma balanced_rattle {E} env now dq ds dn dt hc args v : balanced (rattle_Main (E := E) env now dq ds dn dt hc args v).
Proof.
  apply balanced_Start. intros once nats. destruct (LoadRattle _ _ _) as [cfg [err |]]; [done |]. cbv zeta.
  do 3 (apply balanced_need; intros ?). apply balanced_need. intros [topo traffic]. apply balanced_with_metrics, balanced_deferring.
  destruct (nats <>s ""); [| destruct (RC_Outbox cfg <>s "")]; auto 10 with processes.
Qed.

Lemma balanced_clank {M S_} env now f cl be nm os args v : balanced (clank_Main (M := M) (S_ := S_) env now f cl be nm os args v).
Proof.
  apply balanced_Start. intros once nats. cbv zeta. destruct (LoadClank _ _ _) as [cfg [err |]]; [done |]. unfold clank_runBroker. cbv zeta.
  do 8 (apply balanced_need; intros ?). apply balanced_with_tracer, balanced_with_metrics. destruct (nats <>s ""); auto 20 with processes.
Qed.

(** inverts [y ∈ served st p.1] through the steps of a Main *)
Ltac unserve H :=
  repeat first
    [ apply served_with_tracer in H; [| by auto 20 with processes]
    | let l := fresh "l" in apply served_with_metrics in H as [l H]; [| by auto 20 with processes]
    | apply served_with_connection in H; [| by auto 20 with processes]
    | apply served_await in H as [? H]
    | apply served_need_ok in H as [? H]
    | let x := fresh "x" in apply served_need in H as (x & ? & H)
    | rewrite served_deferring in H by (auto 20 with processes)
    | progress cbv beta zeta in H ].

(** the resources of a broker run under its logs *)
Definition broker_stack (l : list Server) : list resource := [TheConnection; TheRunContext; TheListeners l; TheTracer; TheSignals].

Lemma hiss_served {W} env dec (nc : Duration -> result (Governed -> W -> W * option error)) args v st sv :
  (st, sv) ∈ served [] (hiss_Main env dec nc args v).1 ->
  exists once cfg pol l, parse_flags args false false = ParsedFlags false once /\
    LoadHiss (En_getenv env) (En_url_valid env) (En_getenv env "NATS_URL" <>s "") = (cfg, None) /\
    LoadPolicy (En_rig env) (HC_Policy cfg) = inl pol /\
    if En_getenv env "NATS_URL" <>s "" then
      exists wc pub controller tr, wal_config env (HC_BrokerStore cfg) = inl wc /\
        NewWALPublisher (BS_WALDir (HC_BrokerStore cfg)) "hiss" "thump.decisions" wc = inl pub /\
        buildApprovalRequests nc cfg = inl controller /\ buildTransport env dec pol controller = inl tr /\
        st = TheWAL "thump.decisions" :: broker_stack l /\
        sv = mkServing tr (Logged pub :: match controller with Some _ => [Bare "thump.approvals"] | None => [] end)
                          ([RunShipper pub (WC_ShipInterval wc); RunConsumer "thump.proposals"; RunConsumer "thump.approvals"] ++
                           match controller with Some _ => [RunController] | None => [] end)
    else sv = mkServing (mkTransportConfig pol None, None) [] [if once then TickOnce else LoopTick].
Proof.
  intros Hs. apply served_Start in Hs as (once & Hf & Hs).
  2: { intros o n. destruct (LoadHiss _ _ _) as [cfg [err |]]; [done |]. unfold hiss_runBroker. cbv zeta. auto 20 with processes. }
  destruct (LoadHiss _ _ _) as [cfg [err |]] eqn:Hc; [by apply elem_of_nil in Hs |].
  unfold hiss_runBroker in Hs. unserve Hs. destruct (En_getenv env "NATS_URL" <>s "") eqn:En.
  - unserve Hs. apply served_group in Hs. injection Hs as -> ->. exists once, cfg, x, l. repeat (split; [done |]). eexists _, _, _, _. done.
  - rewrite served_does in Hs. apply served_offline in Hs. injection Hs as _ ->. exists once, cfg, x, l. done.
Qed.

Lemma thump_served {C} env cd ic nc fc hc dq args v st sv :
  (st, sv) ∈ served [] (thump_Main (C := C) env cd ic nc fc hc dq args v).1 ->
  exists once cfg cat l exec sw watcher, parse_flags args false false = ParsedFlags false once /\
    LoadThump (En_getenv env) (En_url_valid env) (En_getenv env "NATS_URL" <>s "") = (cfg, None) /\
    contract_LoadCatalogFile (En_rig env) (TC_ActionCatalog cfg) Preconditions = inl cat /\
    buildExecutor cd ic cfg cat (buildForge fc cfg) = inl (exec, sw) /\ buildReversalWatcher env hc dq cfg = inl watcher /\
    Sv_transport sv = (thump_transport nc fc cfg cat exec watcher, sw) /\
    if En_getenv env "NATS_URL" <>s "" then
      exists wc pubs, wal_config env (TC_BrokerStore cfg) = inl wc /\
        Forall2 (fun s pub => NewWALPublisher (BS_WALDir (TC_BrokerStore cfg)) "thump" s wc = inl pub) thump_subjects pubs /\
        st = TheWAL "thump.held" :: TheWAL "thump.declines" :: TheWAL "thump.outcomes" :: TheWAL "thump.orders" :: broker_stack l /\
        Sv_publishers sv = map Logged pubs /\
        Sv_tasks sv = match sw with Some _ => [RunReload] | None => [] end ++
                      map (fun pub => RunShipper pub (WC_ShipInterval wc)) pubs ++ [RunConsumer "thump.decisions"]
    else Sv_tasks sv = match sw with Some _ => if once then [ReloadOnce] else [RunReload] | None => [] end ++ [if once then TickOnce else LoopTick].
Proof.
  intros Hs. apply served_Start in Hs as (once & Hf & Hs).
  2: { intros o n. destruct (LoadThump _ _ _) as [cfg [err |]]; [done |]. unfold thump_runBroker. cbv zeta. auto 25 with processes. }
  destruct (LoadThump _ _ _) as [cfg [err |]] eqn:Hc; [by apply elem_of_nil in Hs |].
  unfold thump_runBroker in Hs. unserve Hs. destruct (En_getenv env "NATS_URL" <>s "") eqn:En.
  - unserve Hs. destruct x5 as [exec sw]. unserve Hs. apply served_group in Hs. injection Hs as -> ->.
    exists once, cfg, x, l, exec, sw, x5. repeat (split; [done |]). exists x0, [x1; x2; x3; x4]. split; [done |].
    split; [by repeat constructor |]. done.
  - rewrite served_does in Hs. unserve Hs. destruct x0 as [exec sw]. unserve Hs. apply served_offline in Hs. injection Hs as _ ->.
    exists once, cfg, x, l, exec, sw, x0. done.
Qed.

Lemma rattle_served {E} env now dq ds dn dt hc args v st sv :
  (st, sv) ∈ served [] (rattle_Main (E := E) env now dq ds dn dt hc args v).1 ->
  exists cfg slos query tls topo traffic l,
    LoadRattle (En_getenv env) (En_url_valid env) (En_getenv env "NATS_URL" <>s "") = (cfg, None) /\
    LoadWatch (ReadFile (En_rig env)) (decode_watch (En_rig env)) (RC_WatchPath cfg) = inl slos /\
    LoadQueryConfig (ReadFile (En_rig env)) dq ParseDuration (RC_QueryConfig cfg) = inl query /\
    backend_tls env (RC_BrokerStore cfg) = inl tls /\ buildSources now (rattle_files env ds dn dt) (hc tls) cfg = inl (topo, traffic) /\
    let '(r, deb) := prom_reconciler now (hc tls) (RC_PromURL cfg) slos topo traffic query in
    if En_getenv env "NATS_URL" <>s "" then
      exists wc pub, wal_config env (RC_BrokerStore cfg) = inl wc /\
        NewWALPublisher (BS_WALDir (RC_BrokerStore cfg)) "rattle" "thump.detections" wc = inl pub /\
        st = [TheWAL "thump.detections"; TheTracer; TheConnection; TheRunContext; TheListeners l; TheSignals] /\
        sv = mkServing (mkRattleServed r deb (ToStream pub) query) [Logged pub] [RunShipper pub (WC_ShipInterval wc); RunLoop]
    else sv = mkServing (mkRattleServed r deb (if RC_Outbox cfg <>s "" then ToDirectory (RC_Outbox cfg) else NoPublisher) query) [] [LoopTick].
Proof.
  intros Hs. apply served_Start in Hs as (once & Hf & Hs).
  2: { intros o n. destruct (LoadRattle _ _ _) as [cfg [err |]]; [done |]. cbv zeta. auto 20 with processes. }
  destruct (LoadRattle _ _ _) as [cfg [err |]] eqn:Hc; [by apply elem_of_nil in Hs |]. cbv zeta in Hs.
  unserve Hs. rename x into slos, x0 into query, x1 into tls. destruct x2 as [topo traffic].
  apply served_with_metrics in Hs as [l Hs]; [| auto 20 with processes]. rewrite served_deferring in Hs by auto 20 with processes.
  assert (forall st0 pub ship, (st, sv) ∈ served st0 (rattle_serve env now hc cfg tls slos query topo traffic pub ship).1 ->
    let '(r, deb) := prom_reconciler now (hc tls) (RC_PromURL cfg) slos topo traffic query in
    match pub with
    | ToStream out => st = TheWAL "thump.detections" :: TheTracer :: st0 /\ sv = mkServing (mkRattleServed r deb pub query) [Logged out] (ship ++ [RunLoop])
    | _ => sv = mkServing (mkRattleServed r deb pub query) [] [LoopTick]
    end) as Hserve.
  { intros st0 pub ship Hy. unfold rattle_serve in Hy. rewrite served_does in Hy. apply served_with_tracer in Hy.
    2: { destruct (prom_reconciler _ _ _ _ _ _ _) as [r deb]. destruct pub; auto with processes. }
    destruct (prom_reconciler _ _ _ _ _ _ _) as [r deb]. destruct pub.
    1,2: apply served_offline in Hy; by injection Hy as _ ->.
    unserve Hy. apply served_group in Hy. by injection Hy as -> ->. }
  exists cfg, slos, query, tls, topo, traffic, l.
  repeat (split; [done |]). destruct (En_getenv env "NATS_URL" <>s "") eqn:En; [| destruct (RC_Outbox cfg <>s "") eqn:Eo].
  - apply served_with_connection in Hs; [| auto 20 with processes]. apply served_need in Hs as (wc & Hw & Hs).
    apply served_need in Hs as (pub & Hp & Hs). apply Hserve in Hs. destruct (prom_reconciler _ _ _ _ _ _ _) as [r deb].
    destruct Hs as [-> ->]. by exists wc, pub.
  - apply served_need_ok in Hs as [_ Hs]. by apply Hserve in Hs.
  - by apply Hserve in Hs.
Qed.

Lemma clank_served {M S_} env now f cl be nm os args v st sv :
  (st, sv) ∈ served [] (clank_Main (M := M) (S_ := S_) env now f cl be nm os args v).1 ->
  let broker := En_getenv env "NATS_URL" <>s "" in
  exists cfg cat classes weights limits tls ev intake store l,
    LoadClank (En_getenv env) (En_url_valid env) broker = (cfg, None) /\
    contract_LoadCatalogFile (En_rig env) (CC_ActionCatalog cfg) Preconditions = inl cat /\
    LoadFailureClassesFile (En_rig env) (CC_FailureClasses cfg) = inl classes /\
    LoadWeightsFile (ReadFile (En_rig env)) (Cf_weights f) ParseDuration (CC_Weights cfg) = inl weights /\
    LoadLimitsFile (ReadFile (En_rig env)) (Cf_limits f) ParseDuration (CC_Limits cfg) = inl limits /\
    backend_tls env (CC_BrokerStore cfg) = inl tls /\ evidence_of env cfg = inl ev /\
    intake_of env now f cl cfg (be tls) ev (Limits_ChangeLookback limits) = inl intake /\ store_of env cfg broker = inl store /\
    Ck_parts (Sv_transport sv) = clank_parts now f nm os cfg cat classes weights limits (be tls) ev intake store /\
    Ck_journal (Sv_transport sv) = broker /\
    if broker then
      exists wc proposalPub journalPub, wal_config env (CC_BrokerStore cfg) = inl wc /\
        NewWALPublisher (BS_WALDir (CC_BrokerStore cfg)) "clank" "thump.proposals" wc = inl proposalPub /\
        NewJournalPublisher (BS_WALDir (CC_BrokerStore cfg)) "clank" "thump.reasoning" wc = inl journalPub /\
        ledger_of env f limits = inl (Ck_click (Sv_transport sv)) /\
        st = TheWAL "thump.reasoning" :: TheWAL "thump.proposals" :: broker_stack l /\
        Sv_publishers sv = [Logged proposalPub; Logged journalPub] /\
        Sv_tasks sv = [RunShipper proposalPub (WC_ShipInterval wc); RunShipper journalPub (WC_ShipInterval wc);
                       RunConsumer "thump.detections"; RunConsumer "thump.outcomes"; RunConsumer "thump.declines"]
    else Ck_click (Sv_transport sv) = mkClick (mkLedger (Limits_LedgerRetention limits) []) (sized_cases limits) /\ Sv_tasks sv = [LoopTick].
Proof.
  intros Hs. cbv zeta. apply served_Start in Hs as (once & Hf & Hs).
  2: { intros o n. cbv zeta. destruct (LoadClank _ _ _) as [cfg [err |]]; [done |]. unfold clank_runBroker. cbv zeta. auto 25 with processes. }
  cbv zeta in Hs. destruct (LoadClank _ _ _) as [cfg [err |]] eqn:Hc; [by apply elem_of_nil in Hs |].
  unfold clank_runBroker in Hs. unserve Hs. eexists cfg, _, _, _, _, _, _, _, _, l. split; [done |]. do 8 (split; [eassumption |]).
  destruct (En_getenv env "NATS_URL" <>s "") eqn:En.
  - unserve Hs. apply served_group in Hs. injection Hs as -> ->. split; [done |]. split; [done |]. eexists _, _, _. done.
  - rewrite served_does in Hs. apply served_offline in Hs. injection Hs as _ ->. done.
Qed.

(** ** How a process ends *)

(** the process stopped before it served, with code 1, or it served and ended with [c] *)
Definition ends {T} (c : Z) (p : proc T) : Prop :=
  (p.2 = 1 /\ forall st, served st p.1 = []) \/ (p.2 = c /\ forall st, served st p.1 <> []).

Lemma ends_stop {T} c : ends (T := T) c (exits 1).
Proof. by left. Qed.

Lemma ends_serve {T} c (x : T) : ends c (does (Serves x) (exits c)).
Proof. by right. Qed.

Lemma ends_ready {T} c (p : proc T) : ends c p -> ends c (does SaysReady p).
Proof. done. Qed.

Lemma ends_deferring {T} c r (p : proc T) : balanced p -> ends c p -> ends c (deferring r p).
Proof.
  intros Hb [[Hc Hs] | [Hc Hs]]; [left | right]; (split; [done |]); intros st; rewrite served_deferring by done; apply Hs.
Qed.

Lemma ends_need {T A} c (r : result A) (k : A -> proc T) : (forall x, ends c (k x)) -> ends c (need r k).
Proof. intros Hk. destruct r; [apply Hk | apply ends_stop]. Qed.

Lemma ends_need_ok {T} c err (p : proc T) : ends c p -> ends c (need_ok err p).
Proof. intros Hp. destruct err; [apply ends_stop | done]. Qed.

Definition group_code (env : Env) : Z := let '(cause, ctxErr, err) := En_ended env in ExitOnError cause ctxErr err.
Definition pass_code (env : Env) (once : bool) : Z := if once then match En_ticked env with Some _ => 1 | None => 0 end else 0.

Lemma ends_group {T} env (x : T) pubs tasks : ends (group_code env) (serve_group env x pubs tasks).
Proof. unfold serve_group, group_code. destruct (En_ended env) as [[cause ctxErr] err]. apply ends_serve. Qed.

Lemma ends_offline {T} env once (x : T) before : ends (pass_code env once) (serve_offline env once x before).
Proof. unfold serve_offline, pass_code. destruct once; apply ends_serve. Qed.

#[local] Hint Resolve ends_stop ends_serve ends_ready ends_deferring ends_need ends_need_ok ends_group ends_offline : processes.

Lemma ends_with_tracer {T} c env b ep s (p : proc (Serving T)) : balanced p -> ends c p -> ends c (with_tracer env b ep s p).
Proof. intros. unfold with_tracer. auto with processes. Qed.

Lemma ends_with_metrics {T} c env s (p : proc (Serving T)) : balanced p -> ends c p -> ends c (with_metrics env s p).
Proof. intros. unfold with_metrics. auto with processes. Qed.

Lemma ends_with_connection {T} c env url s (p : proc (Serving T)) : balanced p -> ends c p -> ends c (with_connection env url s p).
Proof. intros. unfold with_connection. auto with processes. Qed.

Lemma ends_await {T} c env subjects (p : proc (Serving T)) : ends c p -> ends c (await_consumers env subjects p).
Proof. intros. unfold await_consumers. auto with processes. Qed.

#[local] Hint Resolve ends_with_tracer ends_with_metrics ends_with_connection ends_await : processes.
#[local] Hint Extern 2 (ends _ (match ?b with (_, _) => _ end)) => destruct b : processes.

(** the code of a run of the mode the environment chooses *)
Definition run_code (env : Env) (once : bool) : Z := if En_getenv env "NATS_URL" <>s "" then group_code env else pass_code env once.

Lemma ends_mode {T} env once (p q : proc T) : ends (group_code env) p -> ends (pass_code env once) q ->
  ends (run_code env once) (if En_getenv env "NATS_URL" <>s "" then p else q).
Proof. unfold run_code. by destruct (_ <>s _). Qed.

Lemma ends_Start {T} getenv name args v (k : bool -> string -> proc T) once c : parse_flags args false false = ParsedFlags false once ->
  balanced (k once (getenv "NATS_URL")) -> ends c (k once (getenv "NATS_URL")) -> ends c (Start getenv name args v k).
Proof. intros Hf Hb Hk. unfold Start. rewrite Hf. by apply ends_deferring. Qed.

Lemma ends_rattle_serve {E} c env now hc cfg tls slos query topo traffic pub ship :
  match pub with ToStream _ => c = group_code env | _ => c = 0 end ->
  ends c (rattle_serve (E := E) env now hc cfg tls slos query topo traffic pub ship).
Proof.
  intros Hc. unfold rattle_serve. apply ends_ready. destruct (prom_reconciler _ _ _ _ _ _ _) as [r deb]. apply ends_with_tracer.
  - destruct pub; auto with processes.
  - destruct pub; subst c; [apply (ends_offline env false) .. | auto with processes].
Qed.
#[local] Hint Extern 1 (ends _ (rattle_serve _ _ _ _ _ _ _ _ _ _ _)) => (apply ends_rattle_serve; reflexivity) : processes.

Lemma group_code_zero env : group_code env = 0 <->
  (forall c, (En_ended env).1.1 = Some c -> errors_Is c ErrBrokerClosed = false) /\ ((En_ended env).2 = None \/ (En_ended env).1.2 <> None).
Proof.
  unfold group_code, ExitOnError. destruct (En_ended env) as [[cause ctxErr] err]. simpl. split.
  - intros Hz. split; [intros c -> |].
    + destruct (errors_Is c ErrBrokerClosed); [discriminate | done].
    + destruct (match cause with Some c => _ | None => _ end); [discriminate |]. destruct err, ctxErr; try discriminate; auto.
  - intros [Hc Hr]. replace (match cause with Some c => _ | None => _ end) with false by (destruct cause as [c |]; [by rewrite (Hc c) | done]).
    by destruct err, ctxErr, Hr.
Qed.

(** walk down a process to the step it ends with *)
Ltac conclude := repeat
  (cbv beta; lazymatch goal with
  | |- ends _ (exits _) => apply ends_stop
  | |- ends _ (serve_group _ _ _ _) => apply ends_group
  | |- ends _ (serve_offline _ _ _ _) => apply ends_offline || apply (ends_offline _ false)
  | |- ends _ (rattle_serve _ _ _ _ _ _ _ _ _ _ _) => apply ends_rattle_serve; reflexivity
  | |- ends _ (does SaysReady _) => apply ends_ready
  | |- ends _ (need _ _) => apply ends_need; intros ?
  | |- ends _ (need_ok _ _) => apply ends_need_ok
  | |- ends _ (await_consumers _ _ _) => apply ends_await
  | |- ends _ (with_connection _ _ _ _) => apply ends_with_connection; [solve [auto 25 with processes] |]
  | |- ends _ (with_tracer _ _ _ _ _) => apply ends_with_tracer; [solve [auto 25 with processes] |]
  | |- ends _ (with_metrics _ _ _) => apply ends_with_metrics; [solve [auto 25 with processes] |]
  | |- ends _ (deferring _ _) => apply ends_deferring; [solve [auto 25 with processes] |]
  | |- ends (run_code _ _) (if _ then _ else _) => apply ends_mode
  | |- ends _ (match ?x with _ => _ end) => destruct x
  end).

(** ** Claims *)

(** the logs that are drained when the process ends, the last to be deferred first *)
Definition logs (st : list resource) : list string := omap (fun r => match r with TheWAL s => Some s | _ => None end) st.

(** the publishers that keep a log, the subjects of those that keep none, and the publishers
    whose sealed segments are shipped while the process runs *)
Definition logged {T} (sv : Serving T) : list Output := omap (fun p => match p with Logged out => Some out | Bare _ => None end) (Sv_publishers sv).
Definition unlogged {T} (sv : Serving T) : list string := omap (fun p => match p with Bare s => Some s | Logged _ => None end) (Sv_publishers sv).
Definition shipped {T} (sv : Serving T) : list Output := omap (fun g => match g with RunShipper out _ => Some out | _ => None end) (Sv_tasks sv).

(** a process over the broker, while it serves: it publishes on [subjects] through a log, and
    on [bare] without one; it ships each of its logs and nothing else, and each is drained at
    the end, before the connection closes *)
Definition ships_and_drains {T} (subjects bare : list string) (p : proc (Serving T)) : Prop :=
  forall st sv, (st, sv) ∈ served [] p.1 ->
    map Out_Subject (logged sv) = subjects /\ unlogged sv = bare /\ shipped sv ≡ₚ logged sv /\
    exists below, st = map TheWAL (logs st) ++ below /\ logs st ≡ₚ subjects /\ TheConnection ∈ below.

Lemma NewWALPublisher_subject dir b s wc out : NewWALPublisher dir b s wc = inl out -> Out_Subject out = s.
Proof. unfold NewWALPublisher. destruct (dir =s ""); [done | by intros [= <-]]. Qed.

Lemma NewJournalPublisher_subject dir b s wc out : NewJournalPublisher dir b s wc = inl out -> Out_Subject out = s.
Proof. unfold NewJournalPublisher. destruct (dir =s ""); [done | by intros [= <-]]. Qed.

Lemma TheConnection_in l : TheConnection ∈ broker_stack l.
Proof. by left. Qed.

Lemma negb_neq (x y : string) : x <> y -> x <>s y = true.
Proof. by intros ->%String.eqb_neq. Qed.

Lemma loaded_executor env broker cfg : LoadThump (En_getenv env) (En_url_valid env) broker = (cfg, None) ->
  (TC_Executor cfg <>s "live" = if decide (En_getenv env "THUMP_EXECUTOR" = "live") then false else true) /\
  TC_KillSwitchPath cfg = En_getenv env "THUMP_KILLSWITCH".
Proof.
  destruct (LoadThump_eq (En_getenv env) (En_url_valid env) broker) as (cfg' & Hl & _ & He & Hk). rewrite Hl. intros [= <- _].
  rewrite He, Hk. split; [| done]. unfold enum_or. cbn [existsb]. case_decide as Hd; [by rewrite Hd |].
  apply String.eqb_neq in Hd. rewrite Hd. destruct (_ <>s ""); [| done]. simpl. destruct (_ =s "dry") eqn:Edry; [| done].
  simpl. by rewrite Hd.
Qed.

Section ships.
Context (env : Env) (Hbroker : En_getenv env "NATS_URL" <>s "" = true).

Lemma hiss_ships {W} dec (nc : Duration -> result (Governed -> W -> W * option error)) args v :
  ships_and_drains ["thump.decisions"]%string
    (if bool_or (En_getenv env) "APPROVALREQUESTS_ENABLED" then ["thump.approvals"]%string else []) (hiss_Main env dec nc args v).
Proof.
  intros st sv (once & cfg & pol & l & _ & Hc & _ & Hs)%hiss_served. rewrite Hbroker in Hs, Hc.
  destruct Hs as (wc & pub & controller & tr & _ & Hp%NewWALPublisher_subject & Ha & _ & -> & ->).
  destruct (LoadHiss_eq (En_getenv env) (En_url_valid env) true) as (cfg' & Hl & _ & He). rewrite Hl in Hc. injection Hc as -> _.
  unfold buildApprovalRequests in Ha. rewrite He in Ha. unfold logged, unlogged, shipped. simpl. 
  assert (exists below, TheWAL "thump.decisions" :: broker_stack l = map TheWAL (logs (TheWAL "thump.decisions" :: broker_stack l)) ++ below /\
    logs (TheWAL "thump.decisions" :: broker_stack l) ≡ₚ ["thump.decisions"%string] /\ TheConnection ∈ below) as Hst.
  { exists (broker_stack l). by repeat split; [| apply TheConnection_in]. }
  destruct (bool_or _ _); simpl in Ha; [destruct (nc _) in Ha; [| done] |]; injection Ha as <-; simpl; by rewrite Hp.
Qed.

Lemma thump_ships {C} cd ic nc fc hc dq args v : ships_and_drains thump_subjects [] (thump_Main (C := C) env cd ic nc fc hc dq args v).
Proof.
  intros st sv (once & cfg & cat & l & exec & sw & watcher & _ & _ & _ & _ & _ & _ & Hs)%thump_served. rewrite Hbroker in Hs.
  destruct Hs as (wc & pubs & _ & Hpubs & -> & Hp & Ht).
  destruct sv as [tr ps tasks]. cbn [Sv_publishers Sv_tasks] in Hp, Ht. subst ps tasks. unfold logged, unlogged, shipped. cbn [Sv_publishers Sv_tasks].
  assert (omap (fun p => match p with Logged out => Some out | Bare _ => None end) (map Logged pubs) = pubs) as El
    by (clear; induction pubs as [| p ps IH]; [done | by apply (f_equal (cons p))]).
  split; [| split; [| split]].
  - rewrite El. clear El. induction Hpubs as [| s pub ss pubs Hq _ IH]; [done |]. simpl. by rewrite (NewWALPublisher_subject _ _ _ _ _ Hq), IH.
  - clear. by induction pubs.
  - rewrite El, !omap_app. destruct sw; simpl; rewrite app_nil_r; clear; (induction pubs as [| p ps IH]; [done | by apply (Permutation_cons eq_refl)]).
  - exists (broker_stack l). split; [done |]. split; [simpl; solve_Permutation | apply TheConnection_in].
Qed.

Lemma rattle_ships {E} now dq ds dn dt hc args v : ships_and_drains ["thump.detections"]%string [] (rattle_Main (E := E) env now dq ds dn dt hc args v).
Proof.
  intros st sv (cfg & slos & query & tls & topo & traffic & l & _ & _ & _ & _ & _ & Hs)%rattle_served.
  destruct (prom_reconciler _ _ _ _ _ _ _) as [r deb]. rewrite Hbroker in Hs. destruct Hs as (wc & pub & _ & Hp%NewWALPublisher_subject & -> & ->).
  unfold logged, unlogged, shipped. simpl. rewrite Hp. do 3 (split; [done |]). eexists. split; [reflexivity |]. split; [done |]. right. by left.
Qed.

Lemma clank_ships {M S_} now f cl be nm os args v :
  ships_and_drains ["thump.proposals"; "thump.reasoning"]%string [] (clank_Main (M := M) (S_ := S_) env now f cl be nm os args v).
Proof.
  intros st sv (cfg & cat & classes & weights & limits & tls & ev & intake & store & l & _ & _ & _ & _ & _ & _ & _ & _ & _ & _ & _ & Hs)%clank_served.
  rewrite Hbroker in Hs. destruct Hs as (wc & p1 & p2 & _ & Hp1%NewWALPublisher_subject & Hp2%NewJournalPublisher_subject & _ & -> & Hp & Ht).
  destruct sv as [tr ps tasks]. cbn [Sv_publishers Sv_tasks] in Hp, Ht. subst ps tasks. unfold logged, unlogged, shipped. simpl. rewrite Hp1, Hp2. do 3 (split; [done |]).
  exists (broker_stack l). split; [done |]. split; [simpl; solve_Permutation | apply TheConnection_in].
Qed.

End ships.

Section claims.
Context {W C E M S_ : Type} (env : Env).
(** the parameters of the four Mains *)
Context (decode_governed : string -> result Governed) (newController : Duration -> result (Governed -> W -> W * option error)).
Context (cd : Codec) (in_cluster : result (Kube (C := C))) (notifierCtor : string -> Governed -> option error)
  (forgeCtor : string -> string -> Forge (C := C)) (httpx_Client : option (tls_Config (Cert := Cert) (Pool := Pool)) -> Converge.Client (LiveWorld C))
  (decode_queries : string -> result (list (string * string))).
Context (now : E -> Time) (decode_query : string -> result queryConfigFile) (decode_states : string -> result (list (string * string)))
  (decode_node : string -> result (string * list string)) (decode_traffic : string -> result (list (string * string * string)))
  (httpx_clients : option (tls_Config (Cert := Cert) (Pool := Pool)) -> RattleClients (E := E)).
Context (clock : M -> Time) (f : ClankFiles) (cluster : Cluster (M := M)) (backends : option (tls_Config (Cert := Cert) (Pool := Pool)) -> Backends M)
  (NewModel : string -> list Message -> list ToolSpec -> M -> M * result Completion) (open_store : StoreChoice -> Store (S_ := S_)).
Context (args : list string) (v : Version).

Abbreviation hiss := (hiss_Main env decode_governed newController args v).
Abbreviation thump := (thump_Main env cd in_cluster notifierCtor forgeCtor httpx_Client decode_queries args v).
Abbreviation rattle := (rattle_Main env now decode_query decode_states decode_node decode_traffic httpx_clients args v).
Abbreviation clank := (clank_Main env clock f cluster backends NewModel open_store args v).

(** C7. No beat leaves a log behind. Whatever fails and however a run ends, with a broker or
    without one, each of the four processes releases everything it acquired. Over the broker
    each ships, while it serves, exactly the logs of the publishers it is handed, and drains
    exactly those when it ends, before its connection closes: hiss decisions; thump orders,
    outcomes, declines and holds; rattle detections; clank proposals and reasoning. Every
    publisher it is handed keeps such a log, but one: the approvals hiss's ApprovalRequest
    controller publishes, when APPROVALREQUESTS_ENABLED asks for it, go straight to the stream. *)
Theorem logs_are_shipped_and_drained :
  (unwind [] hiss.1 = Some [] /\ unwind [] thump.1 = Some [] /\ unwind [] rattle.1 = Some [] /\ unwind [] clank.1 = Some []) /\
  (En_getenv env "NATS_URL" <> "" ->
   ships_and_drains ["thump.decisions"]%string
     (if bool_or (En_getenv env) "APPROVALREQUESTS_ENABLED" then ["thump.approvals"]%string else []) hiss /\
   ships_and_drains thump_subjects [] thump /\
   ships_and_drains ["thump.detections"]%string [] rattle /\
   ships_and_drains ["thump.proposals"; "thump.reasoning"]%string [] clank).
Proof.
  split; [repeat split; first [apply balanced_hiss | apply balanced_thump | apply balanced_rattle | apply balanced_clank] |].
  intros Hb%negb_neq. split; [by apply hiss_ships | split; [by apply thump_ships | split; [by apply rattle_ships | by apply clank_ships]]].
Qed.

(** C6. Acting is opted into. When THUMP_EXECUTOR says live, whatever else is configured, a
    thump that serves at all serves the gated executor: over the runner the catalog it loaded
    binds to, with the forge it is configured with; its switch is the file THUMP_KILLSWITCH
    names, starts disarmed, and is read again beside the transport. Otherwise it has no switch
    and its executor renders and never acts. *)
Theorem live_execution_is_opted_into st sv : (st, sv) ∈ served [] thump.1 ->
  let '(tr, sw) := Sv_transport sv in
  if decide (En_getenv env "THUMP_EXECUTOR" = "live") then
    exists s k cfg runner, sw = Some s /\ Armed s = false /\ FileSwitch_path s = En_getenv env "THUMP_KILLSWITCH" /\
      (RunReload ∈ Sv_tasks sv \/ ReloadOnce ∈ Sv_tasks sv) /\
      LoadThump (En_getenv env) (En_url_valid env) (En_getenv env "NATS_URL" <>s "") = (cfg, None) /\
      in_cluster = inl k /\ NewWithKube k (Tr_Catalog tr) (buildForge forgeCtor cfg) = inl runner /\
      Tr_Exec tr = ThumpExec.gatedLive (Run cd runner)
  else sw = None /\ Tr_Exec tr = DryRun.
Proof.
  intros (once & cfg & cat & l & exec & sw & watcher & _ & Hc & _ & Hx & _ & Ht & Hs)%thump_served. rewrite Ht.
  pose proof (loaded_executor _ _ _ Hc) as [He Hk]. unfold buildExecutor in Hx. rewrite He in Hx.
  destruct (decide _) as [Hl | Hl]; [| by injection Hx as <- <-]. simpl in Hx. unfold actuate_New in Hx.
  destruct in_cluster as [k |]; [| done]. destruct (NewWithKube k cat _) as [runner |] eqn:En; [| done]. injection Hx as <- <-.
  eexists _, k, cfg, runner. split; [done |]. split; [done |]. split; [by rewrite <- Hk |]. split; [| done].
  destruct (_ <>s ""); [destruct Hs as (wc & pubs & _ & _ & _ & _ & ->); left; by left |]. rewrite Hs. destruct once; [right | left]; by left.
Qed.

(** C33. A process that could not start does not report success: once its flags are read, each
    of the four ends with code 1 without serving, or serves and ends with the code of its run;
    and the code of a broker run is 0 exactly when the broker was not lost and the group did
    not fail before it was told to stop. *)
Theorem failed_start_is_not_success once : parse_flags args false false = ParsedFlags false once ->
  ends (run_code env once) hiss /\ ends (run_code env once) thump /\ ends (run_code env false) rattle /\ ends (run_code env false) clank /\
  (group_code env = 0 <->
   (forall c, (En_ended env).1.1 = Some c -> errors_Is c ErrBrokerClosed = false) /\ ((En_ended env).2 = None \/ (En_ended env).1.2 <> None)).
Proof.
  intros Hf. split; [| split; [| split; [| split]]].
  - eapply ends_Start; [exact Hf | |]; (destruct (LoadHiss _ _ _) as [cfg [err |]]; [auto with processes |]); unfold hiss_runBroker; cbv zeta;
      [auto 25 with processes | conclude].
  - eapply ends_Start; [exact Hf | |]; (destruct (LoadThump _ _ _) as [cfg [err |]]; [auto with processes |]); unfold thump_runBroker; cbv zeta;
      [auto 25 with processes | conclude].
  - eapply ends_Start; [exact Hf | |]; (destruct (LoadRattle _ _ _) as [cfg [err |]]; [auto with processes |]); cbv zeta;
      [auto 25 with processes | conclude].
  - eapply ends_Start; [exact Hf | |]; cbv zeta; (destruct (LoadClank _ _ _) as [cfg [err |]]; [auto with processes |]); unfold clank_runBroker; cbv zeta;
      [auto 25 with processes | conclude].
  - apply group_code_zero.
Qed.

End claims.

End processes.

(** ** Witnesses: a broker that answers, and files that decode *)

Definition live_env (name : string) : string :=
  if name =s "APPROVALREQUEST_RETENTION" then "24h" else if name =s "THUMP_EXECUTOR" then "live" else if name =s "THUMP_KILLSWITCH" then "/etc/thump/armed" else demo_env name.

Definition demo_query_file : queryConfigFile := mkQueryConfigFile (Some "1m") (Some "15m") (Some "1m") (Some "30s") (Some 3) (Some "10m") (Some "5m").
Definition demo_wal_file : walConfigFile := mkWalConfigFile (Some 1048576) (Some "1m") (Some "5s") (Some "30s").
Definition demo_limits_file : limitsFile := mkLimitsFile (Some 100) (Some "24h") (Some "1h") (Some 5) (Some 6).
Definition demo_weights_file : weightsFile :=
  mkWeightsFile (Some fhalf) (Some fhalf) (Some f0) (Some "1h") (Some fhalf) (Some fhalf) (Some f1) (Some fhalf) (Some "1h") (Some fhalf) (Some fhalf) (Some fhalf).

Definition demo_files : Rig :=
  mkRig (fun _ => true) (fun _ => inl "") (fun _ => inl [ThumpExec.demo_contract]) (fun _ => inl []) (fun _ => inl demo_policy) (fun _ => inl ([], []))
    (fun _ => inl [Rattle.demo.checkout]) (fun _ => "") (inl "/repo").

(** the environment of one getenv, and how its run ended *)
Definition demo_process (getenv : string -> string) (ended : option error * option error * option error) : Env :=
  mkEnv getenv (fun _ => true) demo_files (fun _ => inl 0) (fun _ => inl demo_wal_file) (fun _ => None) (fun _ _ _ => None) (fun _ => None)
    (fun _ => []) (fun _ => []) ended None.

Definition demo_clank_files : ClankFiles :=
  let no {A} : string -> result A := fun _ => inr (errors_New "not a document") in
  mkClankFiles (fun _ => inl demo_weights_file) (fun _ => inl demo_limits_file) no no no no no no no no (fun _ => "") no no no no no.

Definition demo_http {C} (_ : option (tls_Config (Cert := string) (Pool := string))) : Converge.Client C :=
  mkClient (fun _ => None) (fun _ _ _ => inr (errors_New "down")).
Definition demo_backends (c : option (tls_Config (Cert := string) (Pool := string))) : Backends unit :=
  mkBackends _ (demo_http c) (mkSearchClient _ _ (fun _ => None) (fun _ => None) (fun _ _ => inr (errors_New "down")))
    (mkSearchClient _ _ (fun _ => None) (fun _ => None) (fun _ _ => inr (errors_New "down"))) None.

(** every library answers *)
Abbreviation demo_tls := (option (tls_Config (Cert := string) (Pool := string))).
Definition demo_pool (pem : string) : option string := Some pem.
Definition demo_exporter (endpoint : string) (_ : demo_tls) : result unit := inl tt.
Definition demo_resource (name : string) : result unit := inl tt.
Definition demo_connect (url : string) (opts : list (nats_option (S := Health * bool) (Cert := string) (Pool := string))) : result unit := inl tt.
Definition demo_jetstream (_ : unit) : result unit := inl tt.
Definition demo_version : Version := mkVersion "v1" "c0ffee" "2024-01-01".

Definition demo_hiss (env : Env) (args : list string) : proc (Serving (HissServed (W := unit))) :=
  hiss_Main demo_pool demo_exporter demo_resource demo_connect demo_jetstream env (fun _ => inr (errors_New "not a document"))
    (fun _ => inl (fun _ w => (w, None))) args demo_version.

Definition demo_thump (env : Env) (args : list string) : proc (Serving (ThumpServed (C := list string))) :=
  thump_Main demo_pool demo_exporter demo_resource demo_connect demo_jetstream env flag_codec (inl log_kube) (fun _ _ => None)
    (fun _ _ => mkForge (fun _ _ => inl "") (fun _ c => (c, inl "")) (fun _ c => (c, inl true))) demo_http (fun _ => inl []) args demo_version.

Definition demo_rattle (env : Env) (args : list string) : proc (Serving (RattleServed (E := unit))) :=
  rattle_Main demo_pool demo_exporter demo_resource demo_connect demo_jetstream env (fun _ => 0) (fun _ => inl demo_query_file) (fun _ => inl [])
    (fun _ => inl ("", [])) (fun _ => inl []) (fun _ => demo_clients) args demo_version.

Definition demo_clank (env : Env) (args : list string) : proc (Serving (ClankServed (M := unit) (S_ := unit))) :=
  clank_Main demo_pool demo_exporter demo_resource demo_connect demo_jetstream env (fun _ => 0) demo_clank_files (mkCluster None None) demo_backends
    (fun _ _ _ m => (m, inr (errors_New "offline"))) (fun _ => mkStore (fun _ s => (s, None)) (fun _ _ s => (s, None))) args demo_version.

(** acting is asked for, and the run ends at a signal *)
Definition demo_live : Env := demo_process live_env (None, None, None).

(** holds are released by ApprovalRequests too *)
Definition demo_requests : Env :=
  demo_process (fun name => if name =s "APPROVALREQUESTS_ENABLED" then "true" else live_env name) (None, None, None).

(** it serves exactly once, and its logs are shipped and drained *)
Definition serves_shipping {T} (subjects bare : list string) (p : proc (Serving T)) : Prop :=
  length (served [] p.1) = 1%nat /\ ships_and_drains subjects bare p.

Lemma logs_are_shipped_and_drained_witness :
  En_getenv demo_live "NATS_URL" <> ""%string /\ serves_shipping ["thump.decisions"]%string [] (demo_hiss demo_live []) /\
  serves_shipping thump_subjects [] (demo_thump demo_live []) /\ serves_shipping ["thump.detections"]%string [] (demo_rattle demo_live []) /\
  serves_shipping ["thump.proposals"; "thump.reasoning"]%string [] (demo_clank demo_live []) /\
  serves_shipping ["thump.decisions"]%string ["thump.approvals"]%string (demo_hiss demo_requests []).
Proof.
  assert (forall env, En_getenv env "NATS_URL" <> ""%string -> _) as H by exact (fun env => proj2
    (logs_are_shipped_and_drained demo_pool demo_exporter demo_resource demo_connect demo_jetstream (W := unit) env
    (fun _ => inr (errors_New "not a document")) (fun _ => inl (fun _ w => (w, None))) flag_codec (inl log_kube) (fun _ _ => None)
    (fun _ _ => mkForge (fun _ _ => inl "") (fun _ c => (c, inl "")) (fun _ c => (c, inl true))) demo_http (fun _ => inl [])
    (E := unit) (fun _ => 0) (fun _ => inl demo_query_file) (fun _ => inl []) (fun _ => inl ("", [])) (fun _ => inl []) (fun _ => demo_clients)
    (fun _ => 0) demo_clank_files (mkCluster None None) demo_backends
    (fun _ _ _ m => (m, inr (errors_New "offline"))) (fun _ => mkStore (fun _ s => (s, None)) (fun _ _ s => (s, None)) : Store (S_ := unit)) [] demo_version)).
  assert (En_getenv demo_live "NATS_URL" <> ""%string) as Hn by discriminate. split; [exact Hn |].
  destruct (H _ Hn) as (Hh & Ht & Hr & Hc). destruct (H demo_requests Hn) as (Hq & _).
  split; [| split; [| split; [| split]]]; (split; [vm_compute; reflexivity | assumption]).
Defined.

Definition demo_dry : Env := demo_process demo_env (None, None, None).

Lemma live_execution_is_opted_into_witness :
  (map (fun y => option_map FileSwitch_path (Sv_transport y.2).2) (served [] (demo_thump demo_live []).1) = [Some "/etc/thump/armed"%string] /\
   Forall (fun y => exists s, (Sv_transport y.2).2 = Some s /\ Armed s = false) (served [] (demo_thump demo_live []).1)) /\
  (map (fun y => option_map FileSwitch_path (Sv_transport y.2).2) (served [] (demo_thump demo_dry []).1) = [None] /\
   Forall (fun y => (Sv_transport y.2).2 = None /\ Tr_Exec (Sv_transport y.2).1 = DryRun) (served [] (demo_thump demo_dry []).1)).
Proof.
  assert (forall env st sv, (st, sv) ∈ served [] (demo_thump env []).1 -> _) as H by
    exact (fun env => live_execution_is_opted_into demo_pool demo_exporter demo_resource demo_connect demo_jetstream env flag_codec (inl log_kube) (fun _ _ => None)
      (fun _ _ => mkForge (fun _ _ => inl "") (fun _ c => (c, inl "")) (fun _ c => (c, inl true))) demo_http (fun _ => inl []) [] demo_version).
  split; (split; [vm_compute; reflexivity |]); apply list.Forall_forall; intros [st [[tr sw] ps tasks]] Hy; specialize (H _ st _ Hy); cbn [Sv_transport fst snd] in H |- *.
  - rewrite decide_True in H by reflexivity. destruct H as (s & k & cfg & runner & H & Ha & _). by exists s.
  - rewrite decide_False in H by discriminate. exact H.
Defined.

(** the broker is lost: the process that served still ends with code 1 *)
Definition demo_lost : Env := demo_process live_env (Some ErrBrokerClosed, None, None).

(** nothing is configured: nothing is served *)
Definition demo_bare : Env := demo_process (fun _ => "") (None, None, None).

Lemma failed_start_is_not_success_witness :
  parse_flags [] false false = ParsedFlags false false /\
  ends (run_code demo_lost false) (demo_thump demo_lost []) /\ (demo_thump demo_lost []).2 = 1 /\
  ends (run_code demo_bare false) (demo_thump demo_bare []) /\ (demo_thump demo_bare []).2 = 1 /\ (demo_thump demo_live []).2 = 0.
Proof.
  assert (forall env, ends (run_code env false) (demo_thump env [])) as H.
  { intros env. 
    exact (proj1 (proj2 (failed_start_is_not_success demo_pool demo_exporter demo_resource demo_connect demo_jetstream (W := unit) env
    (fun _ => inr (errors_New "not a document")) (fun _ => inl (fun _ w => (w, None))) flag_codec (inl log_kube) (fun _ _ => None)
    (fun _ _ => mkForge (fun _ _ => inl "") (fun _ c => (c, inl "")) (fun _ c => (c, inl true))) demo_http (fun _ => inl [])
    (E := unit) (fun _ => 0) (fun _ => inl demo_query_file) (fun _ => inl []) (fun _ => inl ("", [])) (fun _ => inl []) (fun _ => demo_clients)
    (fun _ => 0) demo_clank_files (mkCluster None None) demo_backends
    (fun _ _ _ m => (m, inr (errors_New "offline"))) (fun _ => mkStore (fun _ s => (s, None)) (fun _ _ s => (s, None)) : Store (S_ := unit)) [] demo_version
    false eq_refl))). }
  split; [reflexivity |]. split; [apply H |]. split; [vm_compute; reflexivity |]. split; [apply H |]. split; vm_compute; reflexivity.
Defined.
