(* ===== verification/Forge.v ===== *)
(** * internal/forge/github and internal/notify/slack: releases and notices over HTTP

    [Client] cuts and withdraws releases through the REST API of one repository, and
    [Webhook] posts the digest of a held action.  The HTTP client is a function on a world
    [C] that answers requests; the documented behaviour of the API is the class [GitHub]
    of laws about the repository it keeps, against which the theorems on releases are
    proved.  A repository in memory satisfies the laws. *)

From Stdlib Require Import Ascii.
From S2P Require Import Prelude GoTime Api Hiss ThumpExec Actuate Decimal Strings Config.
Local Open Scope Z_scope.

(** ** Standard library *)

(** [base64.StdEncoding.EncodeToString] *)
Definition b64_alphabet : string := "ABCDEFGHIJKLMNOPQRSTUVWXYZabcdefghijklmnopqrstuvwxyz0123456789+/".

Definition b64_char (n : Z) : ascii := default "A"%char (String.get (Z.to_nat n) b64_alphabet).

Definition code (c : ascii) : Z := Z.of_nat (nat_of_ascii c).

Fixpoint EncodeToString (s : string) : string :=
  match s with
  | EmptyString => ""
  | String a EmptyString =>
      String (b64_char (code a / 4)) (String (b64_char (code a mod 4 * 16)) "==")
  | String a (String b EmptyString) =>
      String (b64_char (code a / 4)) (String (b64_char (code a mod 4 * 16 + code b / 16)) (String (b64_char (code b mod 16 * 4)) "="))
  | String a (String b (String c rest)) =>
      String (b64_char (code a / 4)) (String (b64_char (code a mod 4 * 16 + code b / 16))
        (String (b64_char (code b mod 16 * 4 + code c / 64)) (String (b64_char (code c mod 64)) (EncodeToString rest))))
  end.

(** [strings.ReplaceAll] of a non-empty text *)
Definition strings_ReplaceAll (s old new : string) : string := strings_Join (bytes_Split s old) new.

(** net/url: the bytes that stand for themselves in a path and in a query *)
Definition unreserved (c : ascii) : bool :=
  is_letter c || negb (bool_decide (digit c = None)) || existsb (Ascii.eqb c) ["-"; "_"; "."; "~"]%char.

Definition hex_digit (n : Z) : ascii := default "0"%char (String.get (Z.to_nat n) "0123456789ABCDEF").

Fixpoint escape (keep : ascii -> bool) (plus : bool) (s : string) : string :=
  match s with
  | EmptyString => ""
  | String c s' =>
      if keep c then String c (escape keep plus s')
      else if plus && Ascii.eqb c " " then String "+" (escape keep plus s')
      else String "%" (String (hex_digit (code c / 16)) (String (hex_digit (code c mod 16)) (escape keep plus s')))
  end.

(** the path of [url.URL.String] *)
Definition path_escape : string -> string :=
  escape (fun c => unreserved c || existsb (Ascii.eqb c) ["$"; "&"; "+"; ","; "/"; ":"; ";"; "="; "@"]%char) false.

(** [url.QueryEscape] *)
Definition QueryEscape : string -> string := escape unreserved true.

(** ** internal/forge/github *)

Definition ErrForgeStatus : error := errors_New "github: api returned a non-2xx status".
Definition ErrNotFound : error := errors_New "github: not found".

(** the repository, the credential and the base branch; the transport is [Http] *)
Record Client : Type := mkClient { Repo : string; Token : string; Branch : string; BaseURL : string }.

Definition branchFor (key : string) : string := "thump/" +:+ strings_ReplaceAll key ":" "-".

Definition base (c : Client) : string := if Branch c <>s "" then Branch c else "main".

(** the text before the first slash *)
Definition owner (c : Client) : string := default ""%string (head (bytes_Split (Repo c) "/")).

Definition baseURL (c : Client) : string := if BaseURL c <>s "" then BaseURL c else "https://api.github.com".

(** the requests of the client, each with the arguments its URL is formatted from *)
Inductive Endpoint : Type :=
| GetRef (ref : string)
| PostRefs
| DeleteRef (branch : string)
| GetContents (path ref : string)
| PutContents (path : string)
| GetPulls (head state : string)
| PostPulls
| PatchPull (number : Z).

Definition Method (e : Endpoint) : string :=
  match e with
  | GetRef _ | GetContents _ _ | GetPulls _ _ => "GET"
  | PostRefs | PostPulls => "POST"
  | DeleteRef _ => "DELETE"
  | PutContents _ => "PUT"
  | PatchPull _ => "PATCH"
  end.

Definition Path (c : Client) (e : Endpoint) : string :=
  match e with
  | GetRef ref => "/repos/" +:+ Repo c +:+ "/git/ref/heads/" +:+ ref
  | PostRefs => "/repos/" +:+ Repo c +:+ "/git/refs"
  | DeleteRef branch => "/repos/" +:+ Repo c +:+ "/git/refs/heads/" +:+ branch
  | GetContents path ref => path_escape ("/repos/" +:+ Repo c +:+ "/contents/" +:+ path) +:+ "?ref=" +:+ QueryEscape ref
  | PutContents path => "/repos/" +:+ Repo c +:+ "/contents/" +:+ path
  | GetPulls head state => path_escape ("/repos/" +:+ Repo c +:+ "/pulls") +:+ "?head=" +:+ QueryEscape head +:+ "&state=" +:+ QueryEscape state
  | PostPulls => "/repos/" +:+ Repo c +:+ "/pulls"
  | PatchPull number => "/repos/" +:+ Repo c +:+ "/pulls/" +:+ fmt_d number
  end.

Record Request : Type := mkRequest {
  Req_Endpoint : Endpoint;
  Req_URL : string;
  Req_Headers : gmap string string;
  Req_Body : option (gmap string string)
}.

Record Response : Type := mkResponse { StatusCode : Z; Status : string; Body : string }.

(** the fields of a pull request the client decodes *)
Record pull : Type := mkPull { Number : Z; State : string; MergedAt : option string; HTMLURL : string }.

(** [http.NewRequestWithContext] of a URL, [http.Client.Do], and encoding/json on the four
    answers the client decodes *)
Record Http (C : Type) : Type := mkHttp {
  NewRequest : string -> option error;
  Do : Request -> C -> C * result Response;
  decode_ref : string -> result string;
  decode_contents : string -> result (string * string);
  decode_pulls : string -> result (list pull);
  decode_pull : string -> result pull
}.
Arguments mkHttp {C}. Arguments NewRequest {C}. Arguments Do {C}. Arguments decode_ref {C}. Arguments decode_contents {C}.
Arguments decode_pulls {C}. Arguments decode_pull {C}.

Definition headers (c : Client) (hasBody : bool) : gmap string string :=
  let h := <["Authorization" := "Bearer " +:+ Token c]> {["Accept" := "application/vnd.github+json"]}%string in
  if hasBody then <["Content-Type" := "application/json"]>%string h else h.

Section client.
Context {C : Type} (http : Http C) (cl : Client).

Definition do_ (e : Endpoint) (body : option (gmap string string)) (w : C) : C * result Response :=
  match NewRequest http (baseURL cl +:+ Path cl e) with
  | Some err => (w, inr (errorf_w ("github: build " +:+ Method e +:+ " " +:+ Path cl e +:+ ": ") err))
  | None =>
      let '(w', r) := Do http (mkRequest e (baseURL cl +:+ Path cl e) (headers cl (is_some body)) body) w in
      match r with
      | inr err => (w', inr (errorf_w ("github: " +:+ Method e +:+ " " +:+ Path cl e +:+ ": ") err))
      | inl resp => (w', inl resp)
      end
  end.

Definition ok (resp : Response) : bool := StatusCode resp / 100 =? 2.

Definition statusError (resp : Response) : error :=
  if StatusCode resp =? 404 then ErrNotFound else errorf_wp ErrForgeStatus (": " +:+ Status resp).

(** a request whose answer only has to be a success *)
Definition command (e : Endpoint) (body : option (gmap string string)) (w : C) : C * option error :=
  let '(w', r) := do_ e body w in
  match r with
  | inr err => (w', Some err)
  | inl resp => (w', if ok resp then None else Some (statusError resp))
  end.

(** a request whose answer is decoded *)
Definition query {A} (e : Endpoint) (body : option (gmap string string)) (decode : string -> result A) (w : C) : C * result A :=
  let '(w', r) := do_ e body w in
  match r with
  | inr err => (w', inr err)
  | inl resp => (w', if ok resp then decode (Body resp) else inr (statusError resp))
  end.

Definition refSHA (ref : string) : C -> C * result string :=
  query (GetRef ref) None (fun body =>
    match decode_ref http body with
    | inr err => inr (errorf_w ("github: decode ref " +:+ ref +:+ ": ") err)
    | inl sha => inl sha
    end).

Definition createRef (branch sha : string) : C -> C * option error :=
  command PostRefs (Some {["ref" := "refs/heads/" +:+ branch; "sha" := sha]}%string).

Definition deleteRef (branch : string) : C -> C * option error := command (DeleteRef branch) None.

Definition blobAt (path ref : string) : C -> C * result (string * string) :=
  query (GetContents path ref) None (fun body =>
    match decode_contents http body with
    | inr err => inr (errorf_w ("github: decode contents " +:+ path +:+ ": ") err)
    | inl (text, sha) =>
        match DecodeString (strings_ReplaceAll text newline "") with
        | inr err => inr (errorf_w ("github: decode base64 " +:+ path +:+ ": ") err)
        | inl content => inl (content, sha)
        end
    end).

Definition putContents (path branch content sha : string) : C -> C * option error :=
  let req := {["message" := "thump: " +:+ branch; "content" := EncodeToString content; "branch" := branch]}%string in
  command (PutContents path) (Some (if sha <>s "" then <["sha" := sha]>%string req else req)).

Definition findPull (branch state : string) : C -> C * result (option pull) :=
  query (GetPulls (owner cl +:+ ":" +:+ branch) state) None (fun body =>
    match decode_pulls http body with
    | inr err => inr (errorf_w ("github: decode pulls for " +:+ branch +:+ ": ") err)
    | inl pulls => inl (head pulls)
    end).

Definition createPull (branch base notes : string) : C -> C * result string :=
  query PostPulls (Some {["title" := branch; "head" := branch; "base" := base; "body" := notes]}%string) (fun body =>
    match decode_pull http body with
    | inr err => inr (errorf_w ("github: decode created pull for " +:+ branch +:+ ": ") err)
    | inl p => inl (HTMLURL p)
    end).

Definition closePull (number : Z) : C -> C * option error := command (PatchPull number) (Some {["state" := "closed"]}%string).

Definition Read (path : string) (w : C) : C * result string :=
  let '(w', r) := blobAt path (base cl) w in
  (w', match r with inl (content, _) => inl content | inr err => inr err end).

(** the branch of the release, made from the base branch when it is not there *)
Definition ensureBranch (branch : string) (w : C) : C * option error :=
  let '(w1, r) := refSHA branch w in
  match r with
  | inl _ => (w1, None)
  | inr err =>
      if negb (errors_Is err ErrNotFound) then (w1, Some err)
      else
        let '(w2, r2) := refSHA (base cl) w1 in
        match r2 with
        | inr err => (w2, Some (errorf_w ("github: base ref " +:+ base cl +:+ ": ") err))
        | inl baseSHA => createRef branch baseSHA w2
        end
  end.

(** the content of the release on its branch, committed when it differs *)
Definition ensureContent (branch : string) (rel : Release) (w : C) : C * option error :=
  let '(w1, r) := blobAt (Release_Path rel) branch w in
  let put current sha := if current =s Release_Content rel then (w1, None) else putContents (Release_Path rel) branch (Release_Content rel) sha w1 in
  match r with
  | inl (current, sha) => put current sha
  | inr err => if errors_Is err ErrNotFound then put "" "" else (w1, Some err)
  end.

(** the open pull request of the branch, opened when there is none *)
Definition ensurePull (branch : string) (rel : Release) (w : C) : C * result string :=
  let '(w1, r) := findPull branch "open" w in
  match r with
  | inr err => (w1, inr err)
  | inl (Some pr) => (w1, inl (HTMLURL pr))
  | inl None => createPull branch (base cl) (Release_Notes rel) w1
  end.

Definition Cut (rel : Release) (w : C) : C * result string :=
  let branch := branchFor (Release_Key rel) in
  let '(w1, e1) := ensureBranch branch w in
  match e1 with
  | Some err => (w1, inr err)
  | None =>
      let '(w2, e2) := ensureContent branch rel w1 in
      match e2 with
      | Some err => (w2, inr err)
      | None => ensurePull branch rel w2
      end
  end.

Definition Withdraw (key : string) (w : C) : C * result bool :=
  let branch := branchFor key in
  let '(w1, r) := findPull branch "all" w in
  match r with
  | inr err => (w1, inr err)
  | inl None => (w1, inl false)
  | inl (Some pr) =>
      if is_some (MergedAt pr) then (w1, inl true)
      else if State pr =s "open" then
        let '(w2, e) := closePull (Number pr) w1 in
        match e with
        | Some err => (w2, inr err)
        | None =>
            let '(w3, e) := deleteRef branch w2 in
            match e with
            | Some err => (w3, inr err)
            | None => (w3, inl false)
            end
        end
      else (w1, inl false)
  end.

(** the [forge] of the runner that thump wires: its [Read] leaves the world to the others *)
Definition as_Forge : Forge (C := C) :=
  mkForge (fun path w => (Read path w).2) Cut Withdraw.

End client.

(** ** internal/notify/slack *)

Definition ErrWebhookStatus : error := errors_New "slack: webhook returned non-2xx status".

Definition verdictVerb (v : Verdict) : string :=
  if v =s VerdictHold then "held" else if v =s VerdictEscalate then "escalated" else v.

(** an em dash *)
Definition dash : string := String "226"%char (String "128"%char (String "148"%char "")).

Definition digest (h : Governed) : string :=
  let d := Governed_Decision h in
  verdictVerb (Decision_Verdict d) +:+ " for review: " +:+ ContractRefFor (Governed_Set h) (Decision_CandidateRef d)
  +:+ " (" +:+ Set_FailureClass (Governed_Set h) +:+ ", " +:+ Set_ServiceTier (Governed_Set h) +:+ ") " +:+ dash +:+ " risk "
  +:+ Decision_RiskBand d +:+ " over the auto-fire ceiling [" +:+ strings_Join (Decision_Reasons d) ", " +:+ "]; signal " +:+ Decision_SignalRef d.

(** a post of a text to a URL: the request cannot be built, or the client answers *)
Definition Notify {C} (build : string -> option error) (post : string -> gmap string string -> C -> C * result Response) (url : string)
  (h : Governed) (w : C) : C * option error :=
  match build url with
  | Some err => (w, Some (errorf_w "slack: build request: " err))
  | None =>
      let '(w', r) := post url {["text" := digest h]}%string w in
      match r with
      | inr err => (w', Some (errorf_w "slack: post to webhook: " err))
      | inl resp => (w', if ok resp then None else Some (errorf_wp ErrWebhookStatus (": " +:+ Status resp)))
      end
  end.

(** ** The API: what GitHub documents of the requests above *)

(** the refs of the repository and its pull requests with their head branch, newest first *)
Record View : Type := mkView { Refs : gmap string string; Pulls : list (string * pull) }.

Definition is_open (p : pull) : bool := State p =s "open".

Definition close_pull (n : Z) (bp : string * pull) : string * pull :=
  if Number bp.2 =? n then (bp.1, mkPull (Number bp.2) "closed" (MergedAt bp.2) (HTMLURL bp.2)) else bp.

(** text that is itself inside the path of a URL *)
Fixpoint plain (s : string) : bool :=
  match s with EmptyString => true | String c s' => (unreserved c || Ascii.eqb c "/") && plain s' end.

(** the arguments a URL takes as they are *)
Definition plain_target (e : Endpoint) : bool :=
  match e with GetRef b | DeleteRef b => plain b | PutContents path => plain path | _ => true end.

(** the pull requests a listing answers with *)
Definition listed (b state : string) (v : View) : list pull :=
  map snd (List.filter (fun bp => (bp.1 =s b) && ((state =s "all") || (State bp.2 =s state))) (Pulls v)).

Definition content_of (t : option (string * string)) : string := match t with Some (bytes, _) => bytes | None => "" end.

(** the contents endpoint carries a file of at most 1 MB; of a larger one the answer has the
    blob and an empty content *)
Definition fits (bytes : string) : bool := Z.of_nat (String.length bytes) <=? 1048576.

Definition served (bytes : string) : string := if fits bytes then bytes else "".

(** a content the endpoint can tell from the absence of one *)
Definition whole (bytes : string) : bool := (bytes <>s "") && fits bytes.

Section api.
Context {C : Type} (http : Http C) (cl : Client).

Definition request (e : Endpoint) (body : option (gmap string string)) : Request :=
  mkRequest e (baseURL cl +:+ Path cl e) (headers cl (is_some body)) body.

(** what a write does to a repository whose commits have the files [tree] *)
Inductive effect (tree : string -> string -> option (string * string)) : Endpoint -> gmap string string -> View -> View -> Prop :=
| ref_made req b s v :
    req !! "ref"%string = Some ("refs/heads/" +:+ b) -> req !! "sha"%string = Some s -> Refs v !! b = None ->
    effect tree PostRefs req v (mkView (<[b := s]> (Refs v)) (Pulls v))
| file_committed path req b text bytes s s' v :
    req !! "branch"%string = Some b -> req !! "content"%string = Some text -> DecodeString text = inl bytes -> Refs v !! b = Some s ->
    content_of (tree s' path) = bytes -> (forall p, p <> path -> tree s' p = tree s p) ->
    effect tree (PutContents path) req v (mkView (<[b := s']> (Refs v)) (Pulls v))
| pull_opened req b p v :
    req !! "head"%string = Some b -> is_open p = true -> MergedAt p = None ->
    effect tree PostPulls req v (mkView (Refs v) ((b, p) :: Pulls v))
| pull_closed n req v :
    req !! "state"%string = Some "closed"%string ->
    effect tree (PatchPull n) req v (mkView (Refs v) (map (close_pull n) (Pulls v)))
| ref_deleted b req v :
    effect tree (DeleteRef b) req v (mkView (delete b (Refs v)) (Pulls v)).

Class GitHub (tree : string -> string -> option (string * string)) (view : C -> View) : Prop := {
  (** the package's sentinel does not come from outside *)
  build_errors url err : NewRequest http url = Some err -> errors_Is err ErrNotFound = false;
  transport_errors r w w' err : Do http r w = (w', inr err) -> errors_Is err ErrNotFound = false;
  get_reads e body w : Method e = "GET"%string -> view (Do http (request e body) w).1 = view w;
  get_ref b body w w' resp :
    plain b = true -> Do http (request (GetRef b) body) w = (w', inl resp) ->
    (ok resp = true -> exists s, Refs (view w) !! b = Some s /\ decode_ref http (Body resp) = inl s) /\
    (StatusCode resp = 404 -> Refs (view w) !! b = None);
  (** of a path that is a file's, not a directory's *)
  get_contents path b body w w' resp :
    Do http (request (GetContents path b) body) w = (w', inl resp) ->
    (ok resp = true -> exists s text bytes blob, Refs (view w) !! b = Some s /\ tree s path = Some (bytes, blob) /\
       decode_contents http (Body resp) = inl (text, blob) /\ DecodeString (strings_ReplaceAll text newline "") = inl (served bytes)) /\
    (StatusCode resp = 404 -> forall s, Refs (view w) !! b = Some s -> tree s path = None);
  get_pulls b state body w w' resp :
    Do http (request (GetPulls (owner cl +:+ ":" +:+ b) state) body) w = (w', inl resp) -> ok resp = true ->
    exists ps, decode_pulls http (Body resp) = inl ps /\ head ps = head (listed b state (view w));
  (** a write is done or not done, whatever comes back; it is done when a success comes back *)
  write e body w w' ans :
    Method e <> "GET"%string -> plain_target e = true -> Do http (request e body) w = (w', ans) ->
    effect tree e (default ∅ body) (view w) (view w') \/
    (view w' = view w /\ forall resp, ans = inl resp -> ok resp = false);
  post_pulls body w w' resp :
    Do http (request PostPulls body) w = (w', inl resp) -> ok resp = true ->
    exists b p ps, Pulls (view w') = (b, p) :: ps /\ decode_pull http (Body resp) = inl p
}.

End api.

Arguments build_errors {C http cl tree view _}. Arguments transport_errors {C http cl tree view _}. Arguments get_reads {C http cl tree view _}.
Arguments get_ref {C http cl tree view _}. Arguments get_contents {C http cl tree view _}. Arguments get_pulls {C http cl tree view _}.
Arguments write {C http cl tree view _}. Arguments post_pulls {C http cl tree view _}.

(** ** base64 reads back *)

Lemma b64_val_char n : 0 <= n < 64 -> b64_val (b64_char n) = Some n.
Proof.
  intros Hn. assert (forallb (fun k => bool_decide (b64_val (b64_char (Z.of_nat k)) = Some (Z.of_nat k))) (seq 0 64) = true) as H by (vm_compute; reflexivity).
  rewrite forallb_forall in H. specialize (H (Z.to_nat n) ltac:(apply in_seq; lia)). apply bool_decide_eq_true in H. by rewrite Z2Nat.id in H by lia.
Qed.

Lemma code_range c : 0 <= code c < 256.
Proof. unfold code. pose proof (nat_ascii_bounded c). lia. Qed.

Lemma byte_of_code c z : z mod 256 = code c -> byte_of z = c.
Proof. unfold byte_of, code. intros ->. by rewrite Nat2Z.id, ascii_nat_embedding. Qed.

Lemma b64_decode_char n s si q out :
  0 <= n < 64 -> (length q < 3)%nat -> b64_decode (String (b64_char n) s) si q out = b64_decode s (si + 1) (q ++ [n]) out.
Proof. intros Hn Hq. cbn [b64_decode]. rewrite b64_val_char by done. destruct q as [| x [| y [| z q]]]; cbn [length] in Hq; try lia; done. Qed.

Lemma b64_decode_last n s si x y z out :
  0 <= n < 64 -> b64_decode (String (b64_char n) s) si [x; y; z] out =
  b64_decode s (si + 1) [] (out +:+ String (byte_of (x * 4 + y / 16)) (String (byte_of (y * 16 + z / 4)) (String (byte_of (z * 64 + n)) ""))).
Proof. intros Hn. cbn [b64_decode]. by rewrite b64_val_char. Qed.

#[local] Ltac digits := Z.div_mod_to_equations; lia.

Lemma byte_1 a b : byte_of (code a / 4 * 4 + (code a mod 4 * 16 + code b / 16) / 16) = a.
Proof. apply byte_of_code. pose proof (code_range a). pose proof (code_range b). digits. Qed.

Lemma byte_2 a b c : byte_of ((code a mod 4 * 16 + code b / 16) * 16 + (code b mod 16 * 4 + code c / 64) / 4) = b.
Proof. apply byte_of_code. pose proof (code_range a). pose proof (code_range b). pose proof (code_range c). digits. Qed.

Lemma byte_3 b c : byte_of ((code b mod 16 * 4 + code c / 64) * 64 + code c mod 64) = c.
Proof. apply byte_of_code. pose proof (code_range b). pose proof (code_range c). digits. Qed.

Lemma b64_decode_encode n : forall s si out, (String.length s <= n)%nat -> b64_decode (EncodeToString s) si [] out = inl (out +:+ s).
Proof.
  induction n as [| n IH]; intros s si out Hn.
  { destruct s; [| cbn in Hn; lia]. cbn. by rewrite string_app_nil_r. }
  destruct s as [| a s]; [cbn; by rewrite string_app_nil_r |]. pose proof (code_range a) as Ha.
  destruct s as [| b s].
  - cbn [EncodeToString]. rewrite !b64_decode_char by (cbn; digits). cbn [app b64_decode b64_val]. 
    assert (byte_of (code a / 4 * 4 + code a mod 4 * 16 / 16) = a) as E by (apply byte_of_code; digits).
    cbn. by rewrite E.
  - pose proof (code_range b) as Hb. destruct s as [| c s].
    + cbn [EncodeToString]. rewrite !b64_decode_char by (cbn; digits). cbn [app].
      assert (byte_of ((code a mod 4 * 16 + code b / 16) * 16 + code b mod 16 * 4 / 4) = b) as E2 by (apply byte_of_code; digits).
      cbn. by rewrite byte_1, E2.
    + pose proof (code_range c) as Hc. cbn [EncodeToString]. rewrite !b64_decode_char by (cbn; digits). cbn [app]. rewrite b64_decode_last by digits.
      rewrite byte_1, byte_2, byte_3, IH by (cbn in Hn; lia). by rewrite string_app_assoc.
Qed.

Lemma DecodeString_Encode s : DecodeString (EncodeToString s) = inl s.
Proof. unfold DecodeString. by rewrite (b64_decode_encode (String.length s)). Qed.

Lemma b64_char_line n : 0 <= n < 64 -> Ascii.eqb (b64_char n) "010" = false.
Proof.
  intros Hn. apply Ascii.eqb_neq. intros E. pose proof (b64_val_char n Hn) as H. by rewrite E in H.
Qed.

Lemma EncodeToString_line n : forall s, (String.length s <= n)%nat -> no_char "010" (EncodeToString s) = true.
Proof.
  induction n as [| n IH]; intros s Hn; [destruct s; [done | cbn in Hn; lia] |].
  destruct s as [| a [| b [| c s]]]; [done | | |]; cbn [EncodeToString no_char];
    repeat match goal with c : ascii |- _ => match goal with H : 0 <= code c < 256 |- _ => fail 1 | _ => pose proof (code_range c) end end;
    rewrite !b64_char_line by digits; cbn [negb andb]; [done | done |]. apply IH. cbn in Hn. lia.
Qed.

(** what one line break per sixty columns cannot hide *)
Lemma ReplaceAll_none (s : string) : no_char "010" s = true -> strings_ReplaceAll s newline "" = s.
Proof.
  intros Hs. unfold strings_ReplaceAll, bytes_Split, newline. rewrite split_seq_end by done.
  change (reverse [] ++ ?l) with l. by rewrite String.string_of_list_ascii_of_string.
Qed.

(** ** The requests against the API *)

Section releases.
Context {C : Type} (http : Http C) (cl : Client) (tree : string -> string -> option (string * string)) (view : C -> View).
Context `{GH : !GitHub http cl tree view}.

(** a request is not sent, or answered; no error of its own is [ErrNotFound] *)
Lemma do_cases e body w w' r :
  do_ http cl e body w = (w', r) ->
  (w' = w \/ exists ans, Do http (request cl e body) w = (w', ans)) /\
  match r with
  | inl resp => Do http (request cl e body) w = (w', inl resp)
  | inr err => errors_Is err ErrNotFound = false /\ (w' = w \/ exists err', Do http (request cl e body) w = (w', inr err'))
  end.
Proof.
  unfold do_. destruct (NewRequest http _) as [err |] eqn:En.
  { intros [= <- <-]. split; [by left |]. split; [exact (build_errors _ _ En) | by left]. }
  fold (request cl e body). destruct (Do http _ w) as [w1 [resp | err]] eqn:E; intros [= <- <-]; (split; [right; eauto |]); [done |].
  split; [exact (transport_errors _ _ _ _ E) | right; eauto].
Qed.

Lemma query_reads {A} e body (decode : string -> result A) w w' r :
  Method e = "GET"%string -> query http cl e body decode w = (w', r) ->
  view w' = view w /\
  match r with
  | inl x => exists resp, Do http (request cl e body) w = (w', inl resp) /\ ok resp = true /\ decode (Body resp) = inl x
  | inr err => errors_Is err ErrNotFound = true ->
      exists resp, Do http (request cl e body) w = (w', inl resp) /\ (StatusCode resp = 404 \/ ok resp = true /\ decode (Body resp) = inr err)
  end.
Proof.
  intros Hm. unfold query. destruct (do_ _ _ _ _ _) as [w1 ans] eqn:E. destruct (do_cases _ _ _ _ _ E) as [Hw Ha].
  assert (view w1 = view w) as Hv.
  { destruct Hw as [-> | [a Ed]]; [done |]. pose proof (get_reads e body w Hm) as Hv. by rewrite Ed in Hv. }
  destruct ans as [resp | err]; intros [= <- <-]; split; try done.
  - destruct (ok resp) eqn:Eo.
    + destruct (decode (Body resp)) eqn:Edec; [by exists resp |]. intros _. exists resp. auto.
    + intros Hnf. exists resp. split; [done |]. left. revert Hnf. unfold statusError. destruct (Z.eqb_spec (StatusCode resp) 404); [done |]. done.
  - destruct Ha as [Ha _]. congruence.
Qed.

Lemma command_writes e body w w' r :
  Method e <> "GET"%string -> plain_target e = true -> command http cl e body w = (w', r) ->
  effect tree e (default ∅ body) (view w) (view w') \/ (view w' = view w /\ r <> None).
Proof.
  intros Hm Hp. unfold command. destruct (do_ _ _ _ _ _) as [w1 ans] eqn:E. destruct (do_cases _ _ _ _ _ E) as [Hw Ha].
  destruct ans as [resp | err]; intros [= <- <-].
  - destruct (write e body w w1 _ Hm Hp Ha) as [He | [Hv Hn]]; [by left |]. right. split; [done |]. by rewrite (Hn resp eq_refl).
  - destruct Ha as [_ [-> | [err' Ed]]]; [by right |]. destruct (write e body w w1 _ Hm Hp Ed) as [He | [Hv _]]; [by left | by right].
Qed.

Lemma refSHA_reads b w w' r :
  plain b = true -> refSHA http cl b w = (w', r) ->
  view w' = view w /\ forall s, r = inl s -> Refs (view w) !! b = Some s.
Proof.
  intros Hp E. destruct (query_reads (GetRef b) None _ _ _ _ eq_refl E) as [Hv Hr]. split; [done |]. intros s ->.
  destruct Hr as (resp & Ed & Ho & Hdec). destruct (get_ref b None w w' resp Hp Ed) as [Hok _]. destruct (Hok Ho) as (s' & Hs & Hd).
  rewrite Hd in Hdec. by injection Hdec as <-.
Qed.

Lemma served_whole x c : whole c = true -> served x = c <-> x = c.
Proof.
  unfold whole, served. intros [Hne Hfit]%andb_prop. split; [| by intros ->; rewrite Hfit].
  destruct (fits x); [done |]. intros <-. discriminate Hne.
Qed.

Lemma blobAt_reads path b w w' r :
  blobAt http cl path b w = (w', r) ->
  view w' = view w /\
  match r with
  | inl (content, sha) => exists s bytes, Refs (view w) !! b = Some s /\ tree s path = Some (bytes, sha) /\ content = served bytes
  | inr err => errors_Is err ErrNotFound = true -> forall s, Refs (view w) !! b = Some s -> tree s path = None
  end.
Proof.
  intros E. destruct (query_reads (GetContents path b) None _ _ _ _ eq_refl E) as [Hv Hr]. split; [done |]. destruct r as [[content sha] | err].
  - destruct Hr as (resp & Ed & Ho & Hdec). destruct (get_contents path b None w w' resp Ed) as [Hok _].
    destruct (Hok Ho) as (s & text & bytes & blob & Hs & Ht & Hd & Hb). rewrite Hd, Hb in Hdec. injection Hdec as <- <-. by exists s, bytes.
  - intros Hnf. destruct (Hr Hnf) as (resp & Ed & Hcase). destruct (get_contents path b None w w' resp Ed) as [Hok H404].
    destruct Hcase as [H | [Ho Hdec]]; [by apply H404 |]. destruct (Hok Ho) as (s & text & bytes & blob & Hs & Ht & Hd & Hb). by rewrite Hd, Hb in Hdec.
Qed.

Lemma findPull_reads b state w w' r :
  findPull http cl b state w = (w', r) -> view w' = view w /\ forall o, r = inl o -> o = head (listed b state (view w)).
Proof.
  intros E. destruct (query_reads (GetPulls _ state) None _ _ _ _ eq_refl E) as [Hv Hr]. split; [done |]. intros o ->.
  destruct Hr as (resp & Ed & Ho & Hdec). destruct (get_pulls b state None w w' resp Ed Ho) as (ps & Hd & Hh).
  rewrite Hd in Hdec. injection Hdec as <-. done.
Qed.

Lemma createRef_writes b s w w' r :
  createRef http cl b s w = (w', r) ->
  (Refs (view w) !! b = None /\ view w' = mkView (<[b := s]> (Refs (view w))) (Pulls (view w))) \/ (view w' = view w /\ r <> None).
Proof.
  intros E. destruct (command_writes PostRefs _ _ _ _ ltac:(done) eq_refl E) as [He | H]; [left | by right].
  inversion He as [req b' s' v Hb' Hs' Hn | | | |]; subst. change (default ∅ (Some ?m)) with m in Hb', Hs'.
  rewrite lookup_insert_eq in Hb'. rewrite lookup_insert_ne, lookup_singleton_eq in Hs' by done. injection Hb' as Hb'. change ("" +:+ ?x) with x in Hb'. injection Hs' as Hs'. by subst b' s'.
Qed.

Lemma putContents_writes path b content sha s w w' r :
  plain path = true -> Refs (view w) !! b = Some s -> putContents http cl path b content sha w = (w', r) ->
  exists s', view w' = mkView (<[b := s']> (Refs (view w))) (Pulls (view w)) /\ (forall p, p <> path -> tree s' p = tree s p) /\
    (r = None -> content_of (tree s' path) = content).
Proof.
  intros Hp Hs E. destruct (command_writes (PutContents path) _ _ _ _ ltac:(done) Hp E) as [He | [Hv Hr]].
  - inversion He as [| path' req b' text bytes s0 s' v Hb Ht Hd Hs0 Hc Hrest | | |]; subst. change (default ∅ (Some ?m)) with m in Hb, Ht.
    assert (b' = b) as -> by (revert Hb; destruct (sha <>s ""); simplify_map_eq; congruence).
    assert (text = EncodeToString content) as -> by (revert Ht; destruct (sha <>s ""); simplify_map_eq; congruence).
    rewrite DecodeString_Encode in Hd. injection Hd as Hd. assert (s0 = s) as -> by congruence. by exists s'.
  - exists s. split; [| done]. rewrite insert_id by done. rewrite Hv. by destruct (view w).
Qed.

(** the branch, made from the base when it was not there *)
Definition branch_from (v v' : View) (b : string) (s : string) : Prop :=
  Refs v' = <[b := s]> (Refs v) /\ Pulls v' = Pulls v /\ (Refs v !! b = Some s \/ Refs v !! b = None /\ Refs v !! base cl = Some s).

Lemma ensureBranch_spec b w w' r :
  plain b = true -> plain (base cl) = true -> ensureBranch http cl b w = (w', r) ->
  (exists s, branch_from (view w) (view w') b s) \/ (view w' = view w /\ r <> None).
Proof.
  intros Hb Hbase. unfold ensureBranch. destruct (refSHA http cl b w) as [w1 r1] eqn:E1. destruct (refSHA_reads _ _ _ _ Hb E1) as [Hv1 H1].
  destruct r1 as [s | err].
  - intros [= <- <-]. left. exists s. specialize (H1 s eq_refl). unfold branch_from. rewrite Hv1, insert_id by done. auto.
  - destruct (errors_Is err ErrNotFound); cbn [negb]; [| intros [= <- <-]; right; by rewrite Hv1].
    destruct (refSHA http cl (base cl) w1) as [w2 r2] eqn:E2. destruct (refSHA_reads _ _ _ _ Hbase E2) as [Hv2 H2].
    destruct r2 as [s | err2]; [| intros [= <- <-]; right; by rewrite Hv2, Hv1].
    intros E3. specialize (H2 s eq_refl). destruct (createRef_writes _ _ _ _ _ E3) as [[Hn Hv3] | [Hv3 Hr]].
    + left. exists s. unfold branch_from. rewrite Hv3, Hv2, Hv1 in *. cbn. auto.
    + right. by rewrite Hv3, Hv2, Hv1.
Qed.

Lemma ensureContent_spec b rel s w w' r :
  plain (Release_Path rel) = true -> Refs (view w) !! b = Some s -> ensureContent http cl b rel w = (w', r) ->
  exists s', view w' = mkView (<[b := s']> (Refs (view w))) (Pulls (view w)) /\ (forall p, p <> Release_Path rel -> tree s' p = tree s p) /\
    (r = None -> whole (Release_Content rel) = true -> content_of (tree s' (Release_Path rel)) = Release_Content rel) /\
    (whole (Release_Content rel) = true -> content_of (tree s (Release_Path rel)) = Release_Content rel -> s' = s).
Proof.
  intros Hp Hs. unfold ensureContent. destruct (blobAt _ _ _ _ _) as [w1 r1] eqn:E1. destruct (blobAt_reads _ _ _ _ _ E1) as [Hv1 H1].
  assert (view w = mkView (<[b := s]> (Refs (view w))) (Pulls (view w))) as Hid by (rewrite insert_id by done; by destruct (view w)).
  assert (forall current sha, (current =s Release_Content rel) = false -> served (content_of (tree s (Release_Path rel))) = current ->
    putContents http cl (Release_Path rel) b (Release_Content rel) sha w1 = (w', r) ->
    exists s', view w' = mkView (<[b := s']> (Refs (view w))) (Pulls (view w)) /\ (forall p, p <> Release_Path rel -> tree s' p = tree s p) /\
      (r = None -> whole (Release_Content rel) = true -> content_of (tree s' (Release_Path rel)) = Release_Content rel) /\
      (whole (Release_Content rel) = true -> content_of (tree s (Release_Path rel)) = Release_Content rel -> s' = s)) as Hput.
  { intros current sha Hne Hcur E. rewrite <- Hv1 in Hs. destruct (putContents_writes _ _ _ _ _ _ _ _ Hp Hs E) as (s' & Hv & Hrest & Hc).
    exists s'. rewrite Hv, Hv1. split; [done |]. split; [done |]. split; [by intros Hr _; apply Hc |].
    intros Hw Hsame. apply String.eqb_neq in Hne. rewrite (proj2 (served_whole _ _ Hw) Hsame) in Hcur. congruence. }
  assert (forall current, served (content_of (tree s (Release_Path rel))) = current -> (current =s Release_Content rel) = true -> (w1, None) = (w', r) ->
    exists s', view w' = mkView (<[b := s']> (Refs (view w))) (Pulls (view w)) /\ (forall p, p <> Release_Path rel -> tree s' p = tree s p) /\
      (r = None -> whole (Release_Content rel) = true -> content_of (tree s' (Release_Path rel)) = Release_Content rel) /\
      (whole (Release_Content rel) = true -> content_of (tree s (Release_Path rel)) = Release_Content rel -> s' = s)) as Hkeep.
  { intros current Hcur Heq%String.eqb_eq [= <- <-]. exists s. rewrite Hv1. split; [done |]. split; [done |]. split; [| done].
    intros _ Hw. apply (served_whole _ _ Hw). congruence. }
  cbv zeta. destruct r1 as [[current sha] | err].
  - destruct H1 as (s0 & bytes & Hs0 & Ht & ->). assert (s0 = s) as -> by congruence.
    assert (served (content_of (tree s (Release_Path rel))) = served bytes) as Hcur by (by rewrite Ht).
    set (current := served bytes) in *.
    destruct (current =s Release_Content rel) eqn:Ec; [by eapply Hkeep | by eapply Hput].
  - destruct (errors_Is err ErrNotFound).
    + assert (served (content_of (tree s (Release_Path rel))) = ""%string) as Hcur by (by rewrite (H1 eq_refl s Hs)).
      destruct ("" =s Release_Content rel) eqn:Ec; [by eapply Hkeep | by eapply Hput].
    + intros [= <- <-]. exists s. rewrite Hv1. repeat split; done.
Qed.

Lemma listed_cons b p v :
  is_open p = true -> listed b "open" (mkView (Refs v) ((b, p) :: Pulls v)) = p :: listed b "open" v.
Proof. intros Ho. unfold listed. cbn. unfold is_open in Ho. by rewrite String.eqb_refl, Ho. Qed.

Lemma createPull_writes b notes w w' r :
  createPull http cl b (base cl) notes w = (w', r) ->
  (exists p, view w' = mkView (Refs (view w)) ((b, p) :: Pulls (view w)) /\ is_open p = true /\ MergedAt p = None /\
     forall url, r = inl url -> url = HTMLURL p) \/
  (view w' = view w /\ forall url, r <> inl url).
Proof.
  unfold createPull, query. set (req := <["title":=b]> _). destruct (do_ _ _ _ _ _) as [w1 ans] eqn:E. destruct (do_cases _ _ _ _ _ E) as [Hw Ha].
  assert (forall d, Do http (request cl PostPulls (Some req)) w = (w1, d) ->
    (exists p, view w1 = mkView (Refs (view w)) ((b, p) :: Pulls (view w)) /\ is_open p = true /\ MergedAt p = None) \/
    (view w1 = view w /\ forall resp, d = inl resp -> ok resp = false)) as Hwrite.
  { intros d Hd. destruct (write PostPulls (Some req) w w1 _ ltac:(done) eq_refl Hd) as [He | H]; [left | by right].
    inversion He as [| | req' b' p v Hb Ho Hm | |]; subst. change (default ∅ (Some ?m)) with m in Hb.
    assert (b' = b) as -> by (revert Hb; unfold req; simplify_map_eq; congruence). by exists p. }
  destruct ans as [resp | err]; intros [= <- <-].
  - destruct (Hwrite _ Ha) as [(p & Hv & Ho & Hm) | [Hv Hn]].
    + left. exists p. do 3 (split; [done |]). destruct (ok resp) eqn:Eo; [| done].
      destruct (post_pulls (Some req) w w1 resp Ha Eo) as (b' & p' & ps & Hps & Hd). rewrite Hv in Hps. injection Hps as _ <- _.
      rewrite Hd. by intros url [= <-].
    + right. split; [done |]. by rewrite (Hn resp eq_refl).
  - destruct Ha as [_ [-> | [err' Ed]]]; [by right |]. destruct (Hwrite _ Ed) as [(p & Hv & Ho & Hm) | [Hv _]]; [left; by exists p | by right].
Qed.

Lemma ensurePull_spec b rel w w' r :
  ensurePull http cl b rel w = (w', r) ->
  Refs (view w') = Refs (view w) /\
  (Pulls (view w') = Pulls (view w) \/
   exists p, Pulls (view w') = (b, p) :: Pulls (view w) /\ is_open p = true /\ MergedAt p = None /\ listed b "open" (view w) = []) /\
  (forall url, r = inl url -> exists p, head (listed b "open" (view w')) = Some p /\ url = HTMLURL p) /\
  (listed b "open" (view w) <> [] -> view w' = view w).
Proof.
  unfold ensurePull. destruct (findPull _ _ _ _ _) as [w1 r1] eqn:E1. destruct (findPull_reads _ _ _ _ _ E1) as [Hv1 H1].
  destruct r1 as [[pr |] | err].
  - intros [= <- <-]. rewrite Hv1. split; [done |]. split; [by left |]. split; [| done]. intros url [= <-]. exists pr. split; [| done]. by rewrite (H1 _ eq_refl).
  - specialize (H1 None eq_refl). assert (listed b "open" (view w) = []) as Hnone by (by destruct (listed b "open" (view w))).
    intros E2. destruct (createPull_writes _ _ _ _ _ E2) as [(p & Hv2 & Ho & Hm & Hurl) | [Hv2 Hno]].
    + rewrite Hv2, Hv1. cbn [Refs Pulls]. split; [done |]. split; [right; by exists p |]. split; [| done].
      intros url ->. exists p. rewrite listed_cons by done. by rewrite (Hurl url).
    + rewrite Hv2, Hv1. split; [done |]. split; [by left |]. split; [| done]. intros url ->. by destruct (Hno url).
  - intros [= <- <-]. rewrite Hv1. split; [done |]. split; [by left |]. split; [done | done].
Qed.

(** a release that is out already is left as it is *)
Lemma Cut_again rel w w' r s p :
  plain (branchFor (Release_Key rel)) = true -> plain (Release_Path rel) = true -> plain (base cl) = true ->
  whole (Release_Content rel) = true ->
  Refs (view w) !! branchFor (Release_Key rel) = Some s -> content_of (tree s (Release_Path rel)) = Release_Content rel ->
  head (listed (branchFor (Release_Key rel)) "open" (view w)) = Some p -> Cut http cl rel w = (w', r) ->
  view w' = view w /\ forall url, r = inl url -> url = HTMLURL p.
Proof.
  intros Hb Hp Hbase Hwhole Hs Hc Hpull. unfold Cut. set (b := branchFor (Release_Key rel)) in *.
  assert (forall v, v = view w -> mkView (<[b := s]> (Refs v)) (Pulls v) = view w) as Hsame by (intros v ->; rewrite insert_id by done; by destruct (view w)).
  destruct (ensureBranch _ _ _ _) as [w1 e1] eqn:E1. assert (view w1 = view w) as Hv1.
  { destruct (ensureBranch_spec _ _ _ _ Hb Hbase E1) as [(s0 & Hr & Hps & Hfrom) | [Hv _]]; [| done].
    rewrite <- (Hsame _ eq_refl). assert (s0 = s) as -> by (destruct Hfrom as [|[]]; congruence). rewrite <- Hr, <- Hps. by destruct (view w1). }
  destruct e1 as [err |]; [by intros [= <- <-] |]. destruct (ensureContent _ _ _ _ _) as [w2 e2] eqn:E2.
  rewrite <- Hv1 in Hs. destruct (ensureContent_spec _ _ _ _ _ _ Hp Hs E2) as (s' & Hv2 & _ & _ & Hkeep). rewrite (Hkeep Hwhole Hc), (Hsame _ Hv1) in Hv2.
  destruct e2 as [err |]; [by intros [= <- <-] |]. intros E3. destruct (ensurePull_spec _ _ _ _ _ E3) as (_ & _ & Hurl & Hno). rewrite Hv2 in Hno.
  assert (view w' = view w) as Hv by (apply Hno; intros Hn; by rewrite Hn in Hpull). split; [done |].
  intros url ->. destruct (Hurl url eq_refl) as (p' & Hp' & ->). rewrite Hv in Hp'. congruence.
Qed.

Lemma Cut_spec (rel : Release) (w w' : C) (r : result string) :
  plain (branchFor (Release_Key rel)) = true -> plain (Release_Path rel) = true -> plain (base cl) = true ->
  Cut http cl rel w = (w', r) ->
  let b := branchFor (Release_Key rel) in
  (forall b', b' <> b -> Refs (view w') !! b' = Refs (view w) !! b') /\
  (Pulls (view w') = Pulls (view w) \/
   exists p, Pulls (view w') = (b, p) :: Pulls (view w) /\ is_open p = true /\ MergedAt p = None /\ listed b "open" (view w) = []) /\
  (view w' = view w \/
   exists s s', Refs (view w') !! b = Some s' /\ (Refs (view w) !! b = Some s \/ Refs (view w) !! b = None /\ Refs (view w) !! base cl = Some s) /\
     forall p, p <> Release_Path rel -> tree s' p = tree s p) /\
  (forall url, r = inl url ->
     exists s p, Refs (view w') !! b = Some s /\ (whole (Release_Content rel) = true -> content_of (tree s (Release_Path rel)) = Release_Content rel) /\
       head (listed b "open" (view w')) = Some p /\ url = HTMLURL p).
Proof.
  intros Hb Hp Hbase E b. unfold Cut in E. fold b in Hb, E.
  destruct (ensureBranch _ _ _ _) as [w1 e1] eqn:E1. destruct (ensureBranch_spec _ _ _ _ Hb Hbase E1) as [(s & Hr1 & Hp1 & Hfrom) | [Hv1 He1]].
  2: { destruct e1; [| done]. injection E as <- <-. rewrite Hv1. split; [done |]. split; [by left |]. split; [by left | done]. }
  assert (forall b', b' <> b -> Refs (view w1) !! b' = Refs (view w) !! b') as Hother by (intros b' Hne; by rewrite Hr1, lookup_insert_ne by done).
  assert (Refs (view w1) !! b = Some s) as Hs1 by (by rewrite Hr1, lookup_insert_eq).
  destruct e1 as [err |].
  { injection E as <- <-. split; [done |]. split; [by left |]. split; [| done]. right. exists s, s. auto. }
  destruct (ensureContent _ _ _ _ _) as [w2 e2] eqn:E2. destruct (ensureContent_spec _ _ _ _ _ _ Hp Hs1 E2) as (s' & Hv2 & Hrest & Hcont & _).
  assert (forall b', b' <> b -> Refs (view w2) !! b' = Refs (view w) !! b') as Hother2
    by (intros b' Hne; rewrite Hv2; cbn [Refs]; rewrite lookup_insert_ne by done; by apply Hother).
  assert (Refs (view w2) !! b = Some s') as Hs2 by (rewrite Hv2; apply lookup_insert_eq).
  assert (Pulls (view w2) = Pulls (view w)) as Hp2 by (by rewrite Hv2).
  assert (forall st, listed b st (view w2) = listed b st (view w)) as Hl2 by (intros st; unfold listed; by rewrite Hp2).
  destruct e2 as [err |].
  { injection E as <- <-. split; [done |]. split; [by left |]. split; [| done]. right. exists s, s'. auto. }
  destruct (ensurePull_spec _ _ _ _ _ E) as (Hr3 & Hp3 & Hurl & _). rewrite Hp2, Hl2 in Hp3. rewrite <- Hr3 in Hother2, Hs2.
  split; [done |]. split; [done |]. split; [right; exists s, s'; auto |]. intros url ->. destruct (Hurl url eq_refl) as (p & Hpull & ->).
  exists s', p. auto.
Qed.

(** what [Read] reads is on the base branch *)
Lemma Read_reads path w w' r content : Read http cl path w = (w', r) -> r = inl content ->
  exists s, Refs (view w) !! base cl = Some s /\ served (content_of (tree s path)) = content.
Proof.
  unfold Read. destruct (blobAt _ _ _ _ _) as [w1 r1] eqn:E. destruct (blobAt_reads _ _ _ _ _ E) as [_ H].
  destruct r1 as [[c sha] | err]; intros [= <- <-]; [| done]. intros [= <-]. destruct H as (s & bytes & Hs & Ht & ->). exists s. by rewrite Ht.
Qed.

(** C35. A release is one branch and one pull request.  Take a release whose branch and path,
    and a base branch, are written in a URL as they are (letters, digits, [-._~] and [/];
    of other paths see [written_path_is_not_escaped]).  Whatever the server answers, [Cut]
    moves no branch but the release's, opens a pull request only when the release has none
    open, and leaves on its branch the files of that branch, or of the base branch when it
    had to make it, but for the path of the release.  When it answers with a URL, that is
    the URL of the release's open pull request, and if the content is one the contents
    endpoint serves whole (not empty, at most 1 MB) the branch holds it, and a redelivery of
    the release then changes nothing and answers, if at all, with the same URL. *)
Theorem release_is_one_pull_request (rel : Release) (w w' : C) (r : result string) :
  plain (branchFor (Release_Key rel)) = true -> plain (Release_Path rel) = true -> plain (base cl) = true ->
  Cut http cl rel w = (w', r) ->
  let b := branchFor (Release_Key rel) in
  let path := Release_Path rel in
  (forall b', b' <> b -> Refs (view w') !! b' = Refs (view w) !! b') /\
  (Pulls (view w') = Pulls (view w) \/
   exists p, Pulls (view w') = (b, p) :: Pulls (view w) /\ is_open p = true /\ MergedAt p = None /\ listed b "open" (view w) = []) /\
  (view w' = view w \/
   exists s s', Refs (view w') !! b = Some s' /\ (Refs (view w) !! b = Some s \/ Refs (view w) !! b = None /\ Refs (view w) !! base cl = Some s) /\
     forall p, p <> path -> tree s' p = tree s p) /\
  (forall url, r = inl url ->
     (exists s p, Refs (view w') !! b = Some s /\ (whole (Release_Content rel) = true -> content_of (tree s path) = Release_Content rel) /\
        head (listed b "open" (view w')) = Some p /\ url = HTMLURL p) /\
     (whole (Release_Content rel) = true -> forall w1 w2 r2, view w1 = view w' -> Cut http cl rel w1 = (w2, r2) -> view w2 = view w' /\ forall url2, r2 = inl url2 -> url2 = url)).
Proof.
  intros Hb Hp Hbase EC b path. destruct (Cut_spec _ _ _ _ Hb Hp Hbase EC) as (H1 & H2 & H3 & H4). do 3 (split; [done |]).
  intros url Hr. split; [by apply H4 |]. destruct (H4 url Hr) as (s & p & Hs & Hc & Hpull & ->). intros Hw w1 w2 r2 Hv E2. rewrite <- Hv in *.
  exact (Cut_again rel w1 w2 r2 s p Hb Hp Hbase Hw Hs (Hc Hw) Hpull E2).
Qed.

(** and so is a release order of the runner: dispatched a second time it reads the same
    base branch, renders the same content and changes nothing *)
Lemma release_order_redelivered cd path flag variant d w w1 w2 e :
  dispatch_forge d = Some (as_Forge http cl) ->
  let b := branchFor (releaseKey (dispatch_ref d) (dispatch_reverse d)) in
  plain b = true -> plain path = true -> plain (base cl) = true -> base cl <> b ->
  (forall current updated, setDefaultVariant cd current flag variant = inl updated -> whole updated = true) ->
  maintenanceRelease_do cd path flag variant d w = (w1, None) ->
  maintenanceRelease_do cd path flag variant d w1 = (w2, e) -> view w2 = view w1.
Proof.
  intros Hd b Hb Hp Hbase Hne Hwhole. unfold maintenanceRelease_do. rewrite Hd. cbn [Forge_Read Forge_Cut as_Forge].
  destruct (Read http cl path w) as [wr r0] eqn:E0. cbn [snd]. destruct r0 as [current |]; [| done].
  destruct (setDefaultVariant cd current flag variant) as [updated |] eqn:Eu; [| done].
  set (rel := mkRelease _ path updated _). destruct (Cut _ _ rel w) as [w1' r1] eqn:E1. destruct r1 as [url |]; [| done]. intros [= ->].
  destruct (Cut_spec rel _ _ _ Hb Hp Hbase E1) as (Hother & _ & _ & Hout). destruct (Hout url eq_refl) as (s & p & Hs & Hc & Hpull & _).
  destruct (Read_reads _ _ _ _ _ E0 eq_refl) as (s0 & Hs0 & Hc0). change (branchFor (Release_Key rel)) with b in Hother.
  destruct (Read http cl path w1) as [wr' r2] eqn:E2. cbn [snd]. destruct r2 as [current2 |]; [| by intros [= <- _]].
  destruct (Read_reads _ _ _ _ _ E2 eq_refl) as (s2 & Hs2 & Hc2).
  rewrite (Hother (base cl) Hne), Hs0 in Hs2. injection Hs2 as <-. assert (current2 = current) as -> by congruence. rewrite Eu. fold rel.
  destruct (Cut _ _ rel w1) as [w2' r3] eqn:E3. intros [= -> _].
  by destruct (Cut_again rel _ _ _ s p Hb Hp Hbase (Hwhole _ _ Eu) Hs (Hc (Hwhole _ _ Eu)) Hpull E3).
Qed.

End releases.

(** ** The requests a withdrawal makes, of any server *)

(** the client with a record of what it sends *)
Definition logged {C} (http : Http C) : Http (C * list Request) :=
  mkHttp (NewRequest http) (fun r wl => let '(w', ans) := Do http r wl.1 in ((w', wl.2 ++ [r]), ans))
    (decode_ref http) (decode_contents http) (decode_pulls http) (decode_pull http).

Lemma do_logged {C} (http : Http C) cl e body w log :
  do_ (logged http) cl e body (w, log) =
  let '(w', r) := do_ http cl e body w in
  ((w', log ++ match NewRequest http (baseURL cl +:+ Path cl e) with Some _ => [] | None => [request cl e body] end), r).
Proof.
  unfold do_. cbn [NewRequest Do logged]. destruct (NewRequest http _); [by rewrite app_nil_r |]. cbn [fst snd].
  fold (request cl e body). by destruct (Do http _ w) as [w' [resp | err]].
Qed.

Lemma query_logged {C A} (http : Http C) cl e body (decode : string -> result A) w log w' r :
  query http cl e body decode w = (w', r) ->
  query (logged http) cl e body decode (w, log) =
  ((w', log ++ match NewRequest http (baseURL cl +:+ Path cl e) with Some _ => [] | None => [request cl e body] end), r).
Proof. unfold query. rewrite do_logged. destruct (do_ http cl e body w) as [w1 [resp | err]]; by intros [= <- <-]. Qed.

Lemma command_logged {C} (http : Http C) cl e body w log w' r :
  command http cl e body w = (w', r) ->
  command (logged http) cl e body (w, log) =
  ((w', log ++ match NewRequest http (baseURL cl +:+ Path cl e) with Some _ => [] | None => [request cl e body] end), r).
Proof. unfold command. rewrite do_logged. destruct (do_ http cl e body w) as [w1 [resp | err]]; by intros [= <- <-]. Qed.

Definition writes (r : Request) : bool := Method (Req_Endpoint r) <>s "GET".

(** A merged release is never touched.  Of any server and any repository, [Withdraw]
    sends a request that could change something only when the listing it read shows, for
    the branch of the key, a pull request that is open and not merged; then it closes that
    pull request and deletes that branch and nothing else.  It reports a release as
    accepted exactly when the listing shows it merged. *)
Theorem merged_release_is_untouched {C} (http : Http C) (cl : Client) (key : string) (w : C) :
  let b := branchFor key in
  let '((w', log), r) := Withdraw (logged http) cl key (w, []) in
  match (findPull http cl b "all" w).2 with
  | inl (Some pr) =>
      (r = inl true <-> is_Some (MergedAt pr)) /\
      (List.filter writes log = [] \/
       MergedAt pr = None /\ State pr = "open"%string /\
         exists k, List.filter writes log = take k [request cl (PatchPull (Number pr)) (Some {["state" := "closed"]}%string); request cl (DeleteRef b) None])
  | inl None => r = inl false /\ List.filter writes log = []
  | inr err => r = inr err /\ List.filter writes log = []
  end.
Proof.
  intros b. unfold Withdraw. fold b. destruct (findPull http cl b "all" w) as [w1 r1] eqn:E1.
  unfold findPull in E1 |- *. rewrite (query_logged _ _ _ _ _ _ _ _ _ E1). 
  set (log1 := [] ++ _). assert (List.filter writes log1 = []) as Hl1 by (unfold log1; by destruct (NewRequest _ _)).
  cbn [snd]. destruct r1 as [[pr |] | err]; [| done | done].
  destruct (MergedAt pr) as [t |] eqn:Em; cbn [is_some]; [split; [split; [by eexists | done] | by left] |].
  assert (forall r : result bool, r <> inl true -> (r = inl true <-> is_Some (@None string))) as Hno by (intros r Hr; split; [done | by intros []]).
  destruct (State pr =s "open") eqn:Eo; [| split; [by apply Hno | by left]]. apply String.eqb_eq in Eo.
  unfold closePull. set (body := Some _). destruct (command http cl (PatchPull (Number pr)) body w1) as [w2 e2] eqn:E2.
  rewrite (command_logged _ _ _ _ _ _ _ _ E2). set (log2 := log1 ++ _).
  assert (List.filter writes log2 = [] \/ List.filter writes log2 = [request cl (PatchPull (Number pr)) body]) as Hl2.
  { unfold log2. rewrite List.filter_app, Hl1. destruct (NewRequest http (_ +:+ Path cl (PatchPull _))); [by left | by right]. }
  destruct e2 as [err |].
  { split; [by apply Hno |]. right. do 2 (split; [done |]). destruct Hl2 as [-> | ->]; [by exists 0%nat | by exists 1%nat]. }
  assert (log2 = log1 ++ [request cl (PatchPull (Number pr)) body]) as Hlog2.
  { unfold log2. revert E2. unfold command, do_. destruct (NewRequest http (_ +:+ Path cl (PatchPull _))); [done |]. done. }
  unfold deleteRef. destruct (command http cl (DeleteRef b) None w2) as [w3 e3] eqn:E3.
  rewrite (command_logged _ _ _ _ _ _ _ _ E3). set (log3 := log2 ++ _).
  assert (exists k, List.filter writes log3 = take k [request cl (PatchPull (Number pr)) body; request cl (DeleteRef b) None]) as Hl3.
  { unfold log3. rewrite Hlog2, !List.filter_app, Hl1. destruct (NewRequest http (_ +:+ Path cl (DeleteRef _))); [by exists 1%nat | by exists 2%nat]. }
  destruct e3 as [err |]; (split; [by apply Hno | by right]).
Qed.

(** ** A repository in memory *)

Lemma string_app_inj (o x y : string) : o +:+ x = o +:+ y -> x = y.
Proof. induction o as [| c o IH]; [done |]. rewrite !string_app_cons. by intros [= E%IH]. Qed.

(** it has one file, the name of a commit is what the file holds, and one pull request at
    most is ever opened *)
Inductive standing : Type := Opened | Closed | Merged.

Record Mem : Type := mkMem { Mem_refs : gmap string string; Mem_pull : option (string * standing) }.

Definition the_file : string := "flags.json".

Definition mem_tree (sha path : string) : option (string * string) := if path =s the_file then Some (sha, sha) else None.

Definition mem_pr (s : standing) : pull :=
  mkPull 1 (match s with Opened => "open" | _ => "closed" end) (match s with Merged => Some "2026-01-01T00:00:00Z" | _ => None end) "https://github.test/pull/1".

Definition mem_view (m : Mem) : View := mkView (Mem_refs m) (match Mem_pull m with Some (b, s) => [(b, mem_pr s)] | None => [] end).

Definition standing_text (s : standing) : string := match s with Opened => "open" | Closed => "closed" | Merged => "merged" end.

Definition standing_of (t : string) : option standing :=
  if t =s "open" then Some Opened else if t =s "closed" then Some Closed else if t =s "merged" then Some Merged else None.

Definition found (b : string) : result Response := inl (mkResponse 200 "200 OK" b).
Definition absent : result Response := inl (mkResponse 404 "404 Not Found" "").
Definition refused : result Response := inl (mkResponse 422 "422 Unprocessable Entity" "").

Definition mem_do (cl : Client) (r : Request) (m : Mem) : Mem * result Response :=
  let body := default ∅ (Req_Body r) in
  match Req_Endpoint r with
  | GetRef b => (m, match Mem_refs m !! b with Some s => found s | None => absent end)
  | PostRefs =>
      match body !! "ref"%string, body !! "sha"%string with
      | Some ref, Some s =>
          match strings_CutPrefix ref "refs/heads/" with
          | Some b => match Mem_refs m !! b with Some _ => (m, refused) | None => (mkMem (<[b := s]> (Mem_refs m)) (Mem_pull m), found "") end
          | None => (m, refused)
          end
      | _, _ => (m, refused)
      end
  | DeleteRef b => (mkMem (delete b (Mem_refs m)) (Mem_pull m), found "")
  | GetContents path b => (m, match Mem_refs m !! b with Some s => if path =s the_file then found s else absent | None => absent end)
  | PutContents path =>
      match body !! "branch"%string, body !! "content"%string with
      | Some b, Some text =>
          match DecodeString text, Mem_refs m !! b with
          | inl bytes, Some _ => if path =s the_file then (mkMem (<[b := bytes]> (Mem_refs m)) (Mem_pull m), found "") else (m, refused)
          | _, _ => (m, refused)
          end
      | _, _ => (m, refused)
      end
  | GetPulls h state =>
      (m, found (match Mem_pull m with
                 | Some (b, s) => if (h =s owner cl +:+ ":" +:+ b) && ((state =s "all") || (State (mem_pr s) =s state)) then standing_text s else ""
                 | None => ""
                 end))
  | PostPulls =>
      match body !! "head"%string, Mem_pull m with
      | Some b, None => (mkMem (Mem_refs m) (Some (b, Opened)), found "open")
      | _, _ => (m, refused)
      end
  | PatchPull n =>
      match body !! "state"%string, Mem_pull m with
      | Some st, Some (b, Opened) => if (st =s "closed") && (n =? 1)%Z then (mkMem (Mem_refs m) (Some (b, Closed)), found "") else (m, refused)
      | _, _ => (m, refused)
      end
  end%string.

Definition mem_http (cl : Client) : Http Mem :=
  mkHttp (fun _ => None) (mem_do cl) inl (fun b => inl (EncodeToString (served b), b))
    (fun b => inl (match standing_of b with Some s => [mem_pr s] | None => [] end))
    (fun b => match standing_of b with Some s => inl (mem_pr s) | None => inr (errors_New "unexpected end of JSON input") end).

Lemma standing_of_text s : standing_of (standing_text s) = Some s.
Proof. by destruct s. Qed.

Lemma ok_200 b : ok (mkResponse 200 "200 OK" b) = true.
Proof. done. Qed.

Lemma mem_answers cl r w w' err : mem_do cl r w <> (w', inr err).
Proof. unfold mem_do, found, absent, refused. repeat case_match; congruence. Qed.

Lemma mem_write cl e body w w' ans :
  Method e <> "GET"%string -> mem_do cl (request cl e body) w = (w', ans) ->
  effect mem_tree e (default ∅ body) (mem_view w) (mem_view w') \/
  (mem_view w' = mem_view w /\ forall resp, ans = inl resp -> ok resp = false).
Proof.
  assert (forall w1 w2 b, (w1, refused) = (w2, b) -> mem_view w2 = mem_view w1 /\ forall resp, b = inl resp -> ok resp = false) as Href
    by (unfold refused; intros w1 w2 b [= <- <-]; split; [done | by intros resp [= <-]]).
  destruct e; cbn [Method]; try done; intros _; unfold mem_do, request; cbn [Req_Endpoint Req_Body].
  - destruct (default ∅ body !! "ref"%string) as [ref |] eqn:E1; [| by right; apply Href].
    destruct (default ∅ body !! "sha"%string) as [s |] eqn:E2; [| by right; apply Href].
    destruct (strings_CutPrefix ref "refs/heads/") as [b |] eqn:E3; [| by right; apply Href].
    destruct (Mem_refs w !! b) eqn:E4; [by right; apply Href |]. intros [= <- <-]. left.
    unfold strings_CutPrefix in E3. destruct (String.prefix _ ref) eqn:E5; [| done]. injection E3 as E3. apply prefix_split in E5 as [q ->].
    pose proof (strings_CutPrefix_app "refs/heads/" q) as Hq. unfold strings_CutPrefix in Hq. rewrite prefix_app in Hq. injection Hq as Hq.
    assert (b = q) as -> by (etransitivity; [symmetry; exact E3 | exact Hq]). by apply (ref_made mem_tree _ q s (mem_view w)).
  - intros [= <- <-]. left. apply (ref_deleted mem_tree branch _ (mem_view w)).
  - destruct (default ∅ body !! "branch"%string) as [b |] eqn:E1; [| by right; apply Href].
    destruct (default ∅ body !! "content"%string) as [t |] eqn:E2; [| by right; apply Href].
    destruct (DecodeString t) as [bytes |] eqn:E3; [| by right; apply Href]. destruct (Mem_refs w !! b) as [s |] eqn:E4; [| by right; apply Href].
    destruct (String.eqb_spec path the_file) as [-> | Hne]; [| by right; apply Href]. intros [= <- <-]. left.
    apply (file_committed mem_tree the_file _ b t bytes s bytes (mem_view w)); try done.
    intros p Hp. apply String.eqb_neq in Hp. unfold mem_tree. by rewrite Hp.
  - destruct (default ∅ body !! "head"%string) as [b |] eqn:E1; [| by right; apply Href]. destruct (Mem_pull w) as [bs |] eqn:E2; [by right; apply Href |].
    intros [= <- <-]. left. unfold mem_view. rewrite E2. by apply (pull_opened mem_tree _ b (mem_pr Opened) (mkView (Mem_refs w) [])).
  - destruct (default ∅ body !! "state"%string) as [st |] eqn:E1; [| by right; apply Href]. 
    destruct (Mem_pull w) as [[b []] |] eqn:E2; try by right; apply Href. destruct (String.eqb_spec st "closed") as [-> |]; [| by right; apply Href].
    cbn [andb]. destruct (Z.eqb_spec number 1) as [-> |]; [| by right; apply Href]. intros [= <- <-]. left. unfold mem_view. rewrite E2.
    by apply (pull_closed mem_tree 1 _ (mkView (Mem_refs w) [(b, mem_pr Opened)])).
Qed.

#[export] Instance mem_GitHub cl : GitHub (mem_http cl) cl mem_tree mem_view.
Proof.
  split.
  - done.
  - intros r w w' err E. by destruct (mem_answers cl r w w' err).
  - intros e body w He. by destruct e.
  - intros b body w w' resp _. cbn. destruct (Mem_refs w !! b) as [s |] eqn:E; intros [= <- <-]; (split; [| done]); [intros _; by exists s | done].
  - intros path b body w w' resp. cbn. unfold mem_tree. destruct (Mem_refs w !! b) as [s |] eqn:E.
    + destruct (path =s the_file) eqn:Ep; intros [= <- <-]; (split; [| done]); [| done]. intros _. exists s, (EncodeToString (served s)), s, s. cbn [Body].
      repeat split; try done. rewrite ReplaceAll_none by (by apply (EncodeToString_line (String.length (served s)))). apply DecodeString_Encode.
    + intros [= <- <-]. split; [done | intros _ s Hs; congruence].
  - intros b state body w w' resp E Hok. cbn in E. unfold mem_do, request in E. cbn [Req_Endpoint] in E. injection E as <- <-. cbn [Body found].
    eexists. split; [reflexivity |]. unfold listed, mem_view. cbn [Pulls]. destruct (Mem_pull w) as [[b' s] |]; [| done]. cbn [List.filter fst snd].
    assert ((owner cl +:+ ":" +:+ b =s owner cl +:+ ":" +:+ b') = (b' =s b)) as ->.
    { destruct (String.eqb_spec b' b) as [-> | Hne]; [by rewrite String.eqb_refl |]. apply String.eqb_neq. intros E. apply Hne. symmetry.
      by apply string_app_inj in E; apply string_app_inj in E. }
    change (match s with Opened => "open" | _ => "closed" end)%string with (State (mem_pr s)).
    destruct ((b' =s b) && ((state =s "all") || (State (mem_pr s) =s state))); [| done]. cbn [map list.head snd]. by rewrite standing_of_text.
  - intros e body w w' ans He _. by apply mem_write.
  - intros body w w' resp E Hok. cbn in E. unfold mem_do, request in E. cbn [Req_Endpoint Req_Body] in E.
    destruct (default ∅ body !! "head"%string) as [b |]; [| by injection E as <- <-]. destruct (Mem_pull w); [by injection E as <- <- |].
    injection E as <- <-. exists b, (mem_pr Opened), []. split; reflexivity.
Qed.

(** *** A release on it *)

Definition acme_client : Client := mkClient "acme/gitops" "token" "" "".
Definition acme_base : Mem := mkMem {["main" := "on"]}%string None.
Definition acme_release : Release := mkRelease "cart-release" the_file "off" "turn the flag off".

Lemma release_is_one_pull_request_witness :
  exists w' url, Cut (mem_http acme_client) acme_client acme_release acme_base = (w', inl url) /\
    (forall w2 r2, Cut (mem_http acme_client) acme_client acme_release w' = (w2, r2) -> mem_view w2 = mem_view w').
Proof.
  exists (Cut (mem_http acme_client) acme_client acme_release acme_base).1, "https://github.test/pull/1"%string.
  assert (Cut (mem_http acme_client) acme_client acme_release acme_base = ((Cut (mem_http acme_client) acme_client acme_release acme_base).1, inl "https://github.test/pull/1"%string)) as E
    by (vm_compute; reflexivity).
  split; [exact E |].
  destruct (release_is_one_pull_request (mem_http acme_client) acme_client mem_tree mem_view acme_release acme_base _ _ eq_refl eq_refl eq_refl E) as (_ & _ & _ & Hurl).
  destruct (Hurl _ eq_refl) as [_ Hagain]. intros w2 r2 E2. by destruct (Hagain eq_refl _ _ _ eq_refl E2).
Defined.

(** two releases whose keys differ in a colon share a branch: cutting the one lands on the
    pull request of the other *)
Example revert_lands_on_another_release :
  let forward := mkRelease (releaseKey "cart-revert" false) the_file "off" "" in
  let reverse := mkRelease (releaseKey "cart" true) the_file "on" "" in
  branchFor (Release_Key reverse) = branchFor (Release_Key forward).
Proof. vm_compute. reflexivity. Qed.

(** after a merge the branch stays where it is: the next release of that contract is cut
    on the old branch, not on what the base branch has become *)
Example merged_branch_is_reused :
  let http := mem_http acme_client in
  let cut := (Cut http acme_client acme_release acme_base).1 in
  let merged := mkMem {["main" := "off, and more"; "thump/cart-release" := "off"]}%string (Some ("thump/cart-release"%string, Merged)) in
  Mem_refs cut !! "thump/cart-release"%string = Some "off"%string /\
  (Cut http acme_client acme_release merged).1 = merged /\
  match (Cut http acme_client acme_release merged).2 with inl _ => False | inr _ => True end /\
  (Withdraw http acme_client "cart-release" merged).2 = inl true.
Proof. vm_compute. auto. Qed.

(** the path of a release is escaped where it is read and not where it is written *)
Example written_path_is_not_escaped :
  Path acme_client (GetContents "flags#1.json" "main") = "/repos/acme/gitops/contents/flags%231.json?ref=main"%string /\
  Path acme_client (PutContents "flags#1.json") = "/repos/acme/gitops/contents/flags#1.json"%string.
Proof. vm_compute. auto. Qed.

Example digest_of_a_hold :
  verdictVerb VerdictHold = "held"%string /\ verdictVerb VerdictEscalate = "escalated"%string /\ verdictVerb VerdictRejected = VerdictRejected.
Proof. vm_compute. auto. Qed.
