(* ===== verification/Replay.v ===== *)
(** * internal/replay: a recorded run through a fresh engine

    [LoadTranscript] recovers the model's side of a run and the set it emitted; [Model]
    and [recordedTool] answer the engine of ClankEngine with them, and [Propose] scores
    what the run cited again under given weights.  The theorems say that the replayed loop
    reaches the draft the recorded one reached. *)

From Stdlib Require Import Ascii.
From S2P Require Import Prelude GoTime GoFloat Api Contract Hiss Publish ClankScore ClankLedger ClankEngine Decimal Strings Archive Filepath Validate.
Local Open Scope Z_scope.

(** ** clank/wiring.go: the defaults *)

Definition DefaultScoringWeights : ScoringWeights :=
  mkWeights (flit 1 3) (flit 1 3) (flit 1 3) (30 * 24 * Hour) (flit 3 10) (flit 7 10) f1 fhalf (30 * Minute) fhalf (flit 9 10) (flit 2 10).

Definition DefaultLimits : Limits := mkLimits maxCases (24 * Hour) (2 * Hour) 5 8.

(** ** model.go and tools.go *)

Definition ErrTranscriptExhausted : error := errors_New "replay: the loop asked for a turn this transcript does not hold".

Record Model : Type := mkModel { completions : list Completion; pos : nat }.

Definition NewModel (cs : list Completion) : Model := mkModel cs 0.

Definition Complete (m : Model) : Model * result Completion :=
  match completions m !! pos m with
  | None => (m, inr ErrTranscriptExhausted)
  | Some c => (mkModel (completions m) (S (pos m)), inl c)
  end.

Record recordedTool : Type := mkRecordedTool { rt_name : string; rt_refs : list EvidenceRef; rt_pos : nat }.

Definition recordedTool_Run (t : recordedTool) : recordedTool * result EvidenceRef :=
  match rt_refs t !! rt_pos t with
  | None => (t, inr (errorf_wp ErrTranscriptExhausted (": tool " +:+ fmt_q (rt_name t))))
  | Some ref => (mkRecordedTool (rt_name t) (rt_refs t) (S (rt_pos t)), inl ref)
  end.

Definition by_tool (refs : list EvidenceRef) : gmap string (list EvidenceRef) :=
  fold_left (fun m ref => <[EvidenceRef_Tool ref := default [] (m !! EvidenceRef_Tool ref) ++ [ref]]> m) refs ∅.

Definition BuildTools (set : ProposalSet) : gmap string recordedTool :=
  map_imap (fun name refs => Some (mkRecordedTool name refs 0)) (by_tool (Set_Evidence set)).

(** what the replayed engine calls mutate: the model's position and each tool's *)
Record Recording : Type := mkRecording { Rec_model : Model; Rec_tools : gmap string recordedTool }.

Definition replay_Complete (_ : list Message) (_ : list ToolSpec) (r : Recording) : Recording * result Completion :=
  let '(m, c) := Complete (Rec_model r) in (mkRecording m (Rec_tools r), c).

Definition replay_Tool (name : string) : Tool (M := Recording) :=
  mkTool (mkToolSpec name "replayed evidence from a recorded run" "")
    (fun _ r => match Rec_tools r !! name with
                | None => (r, inr (errorf_wp ErrTranscriptExhausted (": tool " +:+ fmt_q name)))
                | Some t => let '(t', ref) := recordedTool_Run t in (mkRecording (Rec_model r) (<[name := t']> (Rec_tools r)), ref)
                end).

Definition replay_Tools (set : ProposalSet) : gmap string (Tool (M := Recording)) :=
  map_imap (fun name _ => Some (replay_Tool name)) (BuildTools set).

(** ** transcript.go *)

Record Transcript : Type := mkTranscript { Tr_RunID : string; Tr_Completions : list Completion; Tr_Set : ProposalSet; Tr_Path : string }.

Definition completionsFrom (msgs : list Message) : list Completion :=
  map (fun m => mkCompletion m (Message_ToolCalls m)) (List.filter (fun m => Message_Role m =s "assistant") msgs).

(** [strings.TrimSpace] *)
Fixpoint trim_left (s : string) : string :=
  match s with
  | EmptyString => ""
  | String c s1 =>
      if blank (String c "") then trim_left s1
      else match s1 with
           | EmptyString => s
           | String d s2 =>
               if blank (String c (String d "")) then trim_left s2
               else match s2 with
                    | EmptyString => s
                    | String e s3 => if blank (String c (String d (String e ""))) then trim_left s3 else s
                    end
           end
  end.

Fixpoint trim_right (s : string) : string :=
  if blank s then "" else match s with EmptyString => "" | String c s' => String c (trim_right s') end.

Definition strings_TrimSpace (s : string) : string := trim_right (trim_left s).

(** [bufio.Scanner] with a buffer of 16 MiB: the lines, without a trailing empty one; a
    line that does not fit the buffer ends the scan with an error *)
Definition scan_lines (content : string) : list string :=
  let ls := bytes_Split content newline in
  match list.last ls with Some ""%string => removelast ls | _ => ls end.

Definition max_line : Z := 16 * 1024 * 1024.

Definition ErrTooLong : error := errors_New "bufio.Scanner: token too long".

(** the last turn with a run's id among the lines of a recording *)
Fixpoint last_turn (decode : string -> result Turn) (path : string) (lines : list string) (last : option Turn) : result (option Turn) :=
  match lines with
  | [] => inl last
  | line :: lines' =>
      if max_line <=? Z.of_nat (String.length line) then inr (errorf_w ("read transcript " +:+ path +:+ ": ") ErrTooLong)
      else let line := strings_TrimSpace line in
           if line =s "" then last_turn decode path lines' last
           else match decode line with
                | inr err => inr (errorf_w "decode transcript line: " err)
                | inl t => last_turn decode path lines' (if Turn_RunID t =s "" then last else Some t)
                end
  end.

(** the paired set: zero when there is none *)
Definition load_set (decode : string -> result ProposalSet) (setPath : string) (raw : option (result string)) : result ProposalSet :=
  match raw with
  | None => inl Set_zero
  | Some (inr err) => inr (errorf_w ("open set " +:+ setPath +:+ ": ") err)
  | Some (inl raw) =>
      match decode raw with
      | inr err => inr (errorf_w ("decode set " +:+ setPath +:+ ": ") err)
      | inl set => inl set
      end
  end.

(** [open] reads a file; [None] is a file that is not there *)
Definition LoadTranscript (open : string -> option (result string)) (decode_turn : string -> result Turn)
  (decode_set : string -> result ProposalSet) (jsonlPath setPath : string) : result Transcript :=
  match open jsonlPath with
  | None => inr (errorf_w ("open transcript " +:+ jsonlPath +:+ ": ") (errors_New "file does not exist"))
  | Some (inr err) => inr (errorf_w ("open transcript " +:+ jsonlPath +:+ ": ") err)
  | Some (inl content) =>
      match last_turn decode_turn jsonlPath (scan_lines content) None with
      | inr err => inr err
      | inl None => inr (errors_New (jsonlPath +:+ " holds no checkpointed turn"))
      | inl (Some last) =>
          match load_set decode_set setPath (open setPath) with
          | inr err => inr err
          | inl set => inl (mkTranscript (Turn_RunID last) (completionsFrom (Turn_Msgs last)) set jsonlPath)
          end
      end
  end.

(** ** replay.go *)

Definition replayTopology (set : ProposalSet) : TopologySnapshot :=
  match Set_SAOSnapshot set with Some s => SAO_Topology s | None => mkTopologySnapshot [] [] end.

Definition replayChange (set : ProposalSet) : ChangeSnapshot :=
  match Set_SAOSnapshot set with Some s => SAO_Change s | None => mkChangeSnapshot [] end.

Definition detectionFrom (set : ProposalSet) : Detection :=
  let origin := match Set_SAOSnapshot set with Some s => SignalSnapshot_OriginService (SAO_Signal s) | None => "" end in
  let conf := match Set_SAOSnapshot set with Some s => SignalSnapshot_Confidence (SAO_Signal s) | None => f0 end in
  mkDetection "" (Set_SignalRef set) origin (Set_ServiceTier set) "" (mkDivergence "" f0 f0 conf "") (mkTopologyContext [] [])
    TrafficContext_zero (mkImpact Severity_zero BlastRadius_zero) "" (Set_SLORef set) 0.


(** the engine [Propose] replays on; the recording is what its calls mutate *)
Abbreviation ReplayEngine := (Engine (M := Recording) (S_ := MemStore)).
Abbreviation ReplayState := (EngState (M := Recording) (S_ := MemStore) (WP := MemPub ProposalSet) (WJ := MemPub ProposalSet)).

(** the JSON functions the engine runs on the model's calls *)
Record Wire : Type := mkWire {
  Wire_schema : string -> string;
  Wire_propose : string -> result proposeInput;
  Wire_insufficient : string -> result insufficientInput
}.

Definition replay_engine (wire : Wire) (cat : StaticCatalog) (classes : list FailureClassDefinition) (set : ProposalSet)
  (w : ScoringWeights) : ReplayEngine :=
  let cases := Alignment NewCaseBase in
  mkEngine (mkIntake (fun _ m => (m, inl (replayTopology set))) (fun _ m => (m, inl (replayChange set))))
    replay_Complete (replay_Tools set) cat classes (mkStore (MemStore_Checkpoint Background) (MemStore_Finish Background))
    (Some cases) (Some cases) Hour false false (Limits_MaxSteps DefaultLimits) w
    (Wire_schema wire) (Wire_propose wire) (Wire_insufficient wire).

Definition recording (tr : Transcript) : Recording := mkRecording (NewModel (Tr_Completions tr)) (BuildTools (Tr_Set tr)).

Definition replay_state (tr : Transcript) : ReplayState :=
  mkEngState (recording tr) NewMemStore NewMemProposalLog (mkMemPub [] 0) (mkMemPub [] 0).

(** the repository's config directory, found from the path of this package's sources *)
Definition repoRoot (file : string) : string := Join [Dir file; ".."; ".."]%string.

Definition configPath (file : string) (elem : list string) : string := Join (repoRoot file :: "config"%string :: elem).

Definition replay_Propose (rig : Rig) (file : string) (wire : Wire) (ck : Clock) (tr : Transcript) (w : ScoringWeights)
  : result ProposalSet :=
  match contract_LoadCatalogFile rig (configPath file ["thump-test"; "actions"; "catalog.yaml"]%string) Preconditions with
  | inr err => inr (errorf_w "load catalog: " err)
  | inl cat =>
      match LoadFailureClassesFile rig (configPath file ["thump-test"; "actions"; "failure-classes.yaml"]%string) with
      | inr err => inr (errorf_w "load failure classes: " err)
      | inl classes =>
          (Propose (replay_engine wire cat classes (Tr_Set tr) w) Background ck (detectionFrom (Tr_Set tr)) id (replay_state tr)).2
      end
  end.

(** [Main] past the flags; [None] is a flag that does not parse *)
Record replayFlags : Type := mkReplayFlags { fl_jsonl : string; fl_set : string; fl_weights : string; fl_json : bool }.

Definition fail (code : Z) (line : string) : Exit := mkExit code "" (line +:+ newline).

Definition replay_Main (rig : Rig) (file : string) (wire : Wire) (ck : Clock) (open : string -> option (result string))
  (decode_turn : string -> result Turn) (decode_set : string -> result ProposalSet) (marshal : ProposalSet -> result string)
  (loadWeights : string -> result ScoringWeights) (flags : option replayFlags) : Exit :=
  match flags with
  | None => mkExit 2 "" ""
  | Some fl =>
      if (fl_jsonl fl =s "") || (fl_set fl =s "")
      then fail 2 "usage: replay --jsonl <path> --set <path> [--weights-file path] [--json]"
      else match LoadTranscript open decode_turn decode_set (fl_jsonl fl) (fl_set fl) with
           | inr err => fail 1 ("replay: " +:+ err_text err)
           | inl tr =>
               match (if fl_weights fl =s "" then inl DefaultScoringWeights else loadWeights (fl_weights fl)) with
               | inr err => fail 1 ("replay: " +:+ err_text err)
               | inl weights =>
                   match replay_Propose rig file wire ck tr weights with
                   | inr err => fail 1 ("replay: " +:+ err_text err)
                   | inl set =>
                       match marshal set with
                       | inr err => fail 1 ("replay: " +:+ err_text err)
                       | inl line => mkExit 0 (if fl_json fl then line +:+ newline else Archive.Summarize decode_set line) ""
                       end
                   end
               end
           end
  end.

(** ** Lemmas *)

Definition refs_of (name : string) (refs : list EvidenceRef) : list EvidenceRef :=
  List.filter (fun ref => EvidenceRef_Tool ref =s name) refs.

Lemma refs_of_app name xs ys : refs_of name (xs ++ ys) = refs_of name xs ++ refs_of name ys.
Proof. apply List.filter_app. Qed.

Lemma by_tool_lookup refs name : by_tool refs !! name = match refs_of name refs with [] => None | l => Some l end.
Proof.
  unfold by_tool. induction refs as [| ref refs IH] using rev_ind; [done |].
  rewrite fold_left_app, refs_of_app. simpl. destruct (EvidenceRef_Tool ref =s name) eqn:E.
  - apply String.eqb_eq in E as <-. rewrite lookup_insert_eq, IH. by destruct (refs_of _ refs).
  - rewrite lookup_insert_ne, IH, app_nil_r; [done |]. by apply String.eqb_neq.
Qed.

(** the recorded tools of a run whose evidence is [total], after the calls that gave [ev] *)
Definition at_point (total ev : list EvidenceRef) (r : Recording) : Prop :=
  forall name, Rec_tools r !! name =
    match refs_of name total with [] => None | l => Some (mkRecordedTool name l (length (refs_of name ev))) end.

Lemma recording_starts tr : at_point (Set_Evidence (Tr_Set tr)) [] (recording tr).
Proof.
  intros name. simpl. unfold BuildTools. rewrite map_lookup_imap, by_tool_lookup. by destruct (refs_of name _).
Qed.

Lemma replay_Tools_lookup set name :
  replay_Tools set !! name = match refs_of name (Set_Evidence set) with [] => None | _ => Some (replay_Tool name) end.
Proof.
  unfold replay_Tools, BuildTools. rewrite !map_lookup_imap, by_tool_lookup. by destruct (refs_of name _).
Qed.

(** the next call of a tool gives its next ref *)
Lemma replay_Tool_run args total ev ref more r :
  at_point total ev r -> total = ev ++ ref :: more ->
  exists r', Tool_Run (replay_Tool (EvidenceRef_Tool ref)) args r = (r', inl ref) /\
    at_point total (ev ++ [ref]) r' /\ Rec_model r' = Rec_model r.
Proof.
  intros Hat ->. pose proof (Hat (EvidenceRef_Tool ref)) as Hl. rewrite refs_of_app in Hl. simpl in Hl |- *. rewrite seqb_refl in Hl.
  set (l := refs_of (EvidenceRef_Tool ref) ev ++ ref :: refs_of (EvidenceRef_Tool ref) more) in *.
  assert (Rec_tools r !! EvidenceRef_Tool ref = Some (mkRecordedTool (EvidenceRef_Tool ref) l (length (refs_of (EvidenceRef_Tool ref) ev)))) as Hs.
  { rewrite Hl. unfold l. by destruct (refs_of (EvidenceRef_Tool ref) ev). }
  rewrite Hs. unfold recordedTool_Run. simpl. unfold l at 1. rewrite list_lookup_middle by done. eexists. split; [done |]. split; [| done].
  intros name. simpl. rewrite !refs_of_app. simpl. destruct (EvidenceRef_Tool ref =s name) eqn:E.
  - apply String.eqb_eq in E as <-. rewrite lookup_insert_eq, length_app. simpl. rewrite Nat.add_1_r. unfold l.
    by destruct (refs_of (EvidenceRef_Tool ref) ev).
  - rewrite lookup_insert_ne by (by apply String.eqb_neq). rewrite (Hat name), refs_of_app. simpl. by rewrite E, app_nil_r.
Qed.

Lemma completionsFrom_app xs ys : completionsFrom (xs ++ ys) = completionsFrom xs ++ completionsFrom ys.
Proof. unfold completionsFrom. by rewrite List.filter_app, map_app. Qed.

Lemma withCallIDs_again calls step step' : withCallIDs (withCallIDs calls step) step' = withCallIDs calls step.
Proof.
  apply list_eq. intros i. unfold withCallIDs. rewrite !list_lookup_imap. destruct (calls !! i) as [c |]; [| done]. simpl.
  destruct (ToolCall_ID c =s "") eqn:E; simpl; by rewrite ?E.
Qed.

Lemma evidenceKey_nonempty tool n : (evidenceKey tool n =s "") = false.
Proof. unfold evidenceKey. by destruct tool. Qed.

(** ** The replayed loop follows the recorded one *)

(** the store of a run keeps the turns it accepted, in order *)
Class TurnLog (S_ : Type) (store : Store (S_ := S_)) : Type := {
  held : S_ -> list Turn;
  held_checkpoint : forall t s s', Store_Checkpoint store t s = (s', None) -> held s' = held s ++ [t];
  held_finish : forall runID err s, held (Store_Finish store runID err s).1 = held s
}.
Arguments held {S_} store {_} _.

#[export] Instance MemStore_TurnLog ctx : TurnLog MemStore (mkStore (MemStore_Checkpoint ctx) (MemStore_Finish ctx)).
Proof.
  refine {| held := MemStore_pending |}; simpl.
  - intros t s s'. unfold MemStore_Checkpoint. destruct (ctx_Err ctx); by intros [= <-].
  - intros runID err s. unfold MemStore_Finish. by destruct (ctx_Err ctx).
Defined.

Section follow.
Context {M S_ : Type} (e : Engine (M := M) (S_ := S_)) `{!TurnLog S_ (Eng_Store e)}.

(** what a recording relies on: a tool signs its refs with the name it is offered under,
    and a completion is an assistant's message *)
Record Recordable : Prop := {
  tools_sign : forall name tool args m m' ref, Eng_Tools e !! name = Some tool -> Tool_Run tool args m = (m', inl ref) -> EvidenceRef_Tool ref = name;
  model_speaks : forall msgs specs m m' c, Eng_Complete e msgs specs m = (m', inl c) -> Message_Role (Completion_Message c) = "assistant"%string
}.

Context (He : Recordable).

(** a draft only gains evidence, of the engine's own tools *)
Definition from_tools (evs : list EvidenceRef) : Prop := Forall (fun ref => is_Some (Eng_Tools e !! EvidenceRef_Tool ref)) evs.

Context (re : ReplayEngine) (set : ProposalSet).
Hypothesis (Hcomplete : Eng_Complete re = replay_Complete) (Htools : Eng_Tools re = replay_Tools set)
  (Hdp : Eng_decode_propose re = Eng_decode_propose e) (Hdi : Eng_decode_insufficient re = Eng_decode_insufficient e).

Lemma dispatch_follows calls : forall d res m m' d' res',
  dispatch_calls e calls d res m = (m', inl (d', res')) ->
  exists evs, Dr_Evidence d' = Dr_Evidence d ++ evs /\ from_tools evs /\
    forall more r, Set_Evidence set = Dr_Evidence d' ++ more -> from_tools (Set_Evidence set) ->
      at_point (Set_Evidence set) (Dr_Evidence d) r ->
      exists r', dispatch_calls re calls d res r = (r', inl (d', res')) /\
        at_point (Set_Evidence set) (Dr_Evidence d') r' /\ Rec_model r' = Rec_model r.
Proof.
  induction calls as [| call calls IH]; intros d res m m' d' res'; cbn [dispatch_calls].
  { intros [= <- <- <-]. exists []. rewrite app_nil_r. split; [done |]. split; [constructor |]. eauto. }
  rewrite Hdp, Hdi. destruct (ToolCall_Name call =s "propose").
  { destruct (Eng_decode_propose e _) as [p | err]; [| done]. intros [= <- <- <-]. exists []. simpl. rewrite app_nil_r.
    split; [done |]. split; [constructor |]. eauto. }
  destruct (ToolCall_Name call =s "insufficient").
  { destruct (Eng_decode_insufficient e _) as [p | err]; [| done]. intros [= <- <- <-]. exists []. simpl. rewrite app_nil_r.
    split; [done |]. split; [constructor |]. eauto. }
  destruct (Eng_Tools e !! ToolCall_Name call) as [tool |] eqn:Et.
  2: { intros Hd. destruct (IH _ _ _ _ _ _ Hd) as (evs & Hev & Hin & Hr). exists evs. split; [done |]. split; [done |].
       intros more r Hset Hall Hat. rewrite Htools, replay_Tools_lookup.
       destruct (refs_of (ToolCall_Name call) (Set_Evidence set)) as [| ref refs] eqn:Er; [by eapply Hr |]. exfalso.
       assert (ref ∈ refs_of (ToolCall_Name call) (Set_Evidence set)) as Hin' by (rewrite Er; apply list_elem_of_here).
       apply elem_of_filterb in Hin' as [Hin' Hn%String.eqb_eq]. unfold from_tools in Hall. rewrite list.Forall_forall in Hall.
       destruct (Hall _ Hin') as [t Ht]. congruence. }
  destruct (Tool_Run tool (ToolCall_Args call) m) as [m1 [ref | err]] eqn:Erun; [| done].
  pose proof (tools_sign He _ _ _ _ _ _ Et Erun) as Hname.
  set (key := if EvidenceRef_Key ref =s "" then _ else _).
  assert ((key =s "") = false) as Hkey by (unfold key; destruct (EvidenceRef_Key ref =s "") eqn:E; [apply evidenceKey_nonempty | done]).
  clearbody key. rewrite Hkey. set (ref1 := mkEvidenceRef _ _ _ _ _ _ _).
  intros Hd. destruct (IH _ _ _ _ _ _ Hd) as (evs & Hev & Hin & Hr). simpl in Hev.
  exists (ref1 :: evs). split; [by rewrite Hev, <- app_assoc |]. split; [constructor; [unfold ref1; simpl; rewrite Hname; by eexists | done] |].
  intros more r Hset Hall Hat. rewrite Hev, <- !app_assoc in Hset.
  destruct (replay_Tool_run (ToolCall_Args call) _ _ ref1 _ r Hat Hset) as (r1 & Hrun & Hat1 & Hm1).
  rewrite Htools, replay_Tools_lookup. change (EvidenceRef_Tool ref1) with (EvidenceRef_Tool ref) in Hrun. rewrite Hname in Hrun.
  assert (exists x xs, refs_of (ToolCall_Name call) (Set_Evidence set) = x :: xs) as (x & xs & ->).
  { rewrite Hset, refs_of_app. simpl. rewrite Hname, seqb_refl. destruct (refs_of _ (Dr_Evidence d)); eauto. }
  rewrite Hrun. cbn [EvidenceRef_Key EvidenceRef_Tool EvidenceRef_Query EvidenceRef_Summary EvidenceRef_Ref EvidenceRef_Live EvidenceRef_Subject ref1]. rewrite !Hkey.
  edestruct (Hr more r1) as (r' & Hd' & Hat' & Hm'); [by rewrite Hev, <- !app_assoc | done | exact Hat1 |].
  exists r'. split; [exact Hd' |]. split; [exact Hat' |]. congruence.
Qed.

Hypothesis (Hstore : forall t s, (Store_Checkpoint (Eng_Store re) t s).2 = None).

(** the completions still to be replayed *)
Definition left_to_say (r : Recording) : list Completion := drop (pos (Rec_model r)) (completions (Rec_model r)).

Lemma replay_Complete_next msgs specs r c cs :
  left_to_say r = c :: cs ->
  exists r', replay_Complete msgs specs r = (r', inl c) /\ left_to_say r' = cs /\ Rec_tools r' = Rec_tools r.
Proof.
  unfold left_to_say, replay_Complete, Complete. intros Hl.
  assert (completions (Rec_model r) !! pos (Rec_model r) = Some c) as ->.
  { rewrite <- (Nat.add_0_r (pos _)), <- lookup_drop, Hl. done. }
  eexists. split; [done |]. simpl. split; [| done]. by rewrite <- Nat.add_1_r, <- drop_drop, Hl.
Qed.

Lemma turn_follows runID step msgs d m s m' s' d' msgs' :
  turn e runID step msgs d m s = (m', s', inl (d', msgs')) ->
  exists t msg evs tail, list.last (held (Eng_Store e) s') = Some t /\ Turn_Msgs t = msgs ++ [msg] /\ msgs' = msgs ++ [msg] ++ tail /\
    completionsFrom [msg] = [mkCompletion msg (Message_ToolCalls msg)] /\ completionsFrom tail = [] /\
    Dr_Evidence d' = Dr_Evidence d ++ evs /\ from_tools evs /\
    forall runID2 msgs2 r s2 more cs, Set_Evidence set = Dr_Evidence d' ++ more -> from_tools (Set_Evidence set) ->
      at_point (Set_Evidence set) (Dr_Evidence d) r -> left_to_say r = mkCompletion msg (Message_ToolCalls msg) :: cs ->
      exists r' s2' msgs2', turn re runID2 step msgs2 d r s2 = (r', s2', inl (d', msgs2')) /\
        at_point (Set_Evidence set) (Dr_Evidence d') r' /\ left_to_say r' = cs.
Proof.
  unfold turn. destruct (Eng_Complete e msgs _ m) as [m1 [comp | err]] eqn:Ec; [| done].
  apply (model_speaks He) in Ec. set (calls := withCallIDs _ step). set (msg := mkMessage _ _ calls _).
  assert (completionsFrom [msg] = [mkCompletion msg (Message_ToolCalls msg)]) as Hmsg.
  { unfold completionsFrom. simpl. by rewrite Ec. }
  destruct (Store_Checkpoint _ _ s) as [s1 [err |]] eqn:Es; [done |]. apply (held_checkpoint (store := Eng_Store e)) in Es.
  assert (forall r s2 runID2 msgs2 cs, left_to_say r = mkCompletion msg calls :: cs ->
    exists r1 s1 msgs3, Eng_Complete re msgs2 (toolSpecs re) r = (r1, inl (mkCompletion msg calls)) /\ left_to_say r1 = cs /\ Rec_tools r1 = Rec_tools r /\
      Store_Checkpoint (Eng_Store re) (mkTurn runID2 step msgs3) s2 = (s1, None) /\
      msgs3 = msgs2 ++ [mkMessage (Message_Role msg) (Message_Content msg) (withCallIDs calls step) (Message_ToolResults msg)]) as Hnext.
  { intros r s2 runID2 msgs2 cs Hl. rewrite Hcomplete. destruct (replay_Complete_next msgs2 (toolSpecs re) _ _ _ Hl) as (r1 & E & ? & ?).
    eexists r1, _, _. split; [exact E |]. split; [done |]. split; [done |].
    split; [rewrite (surjective_pairing (Store_Checkpoint _ _ _)), Hstore; reflexivity | done]. }
  assert (list.last (held (Eng_Store e) s1) = Some (mkTurn runID step (msgs ++ [msg]))) as Hlast by (rewrite Es; apply last_snoc).
  destruct calls as [| call calls'] eqn:Ecalls.
  - intros [= <- <- <- <-]. eexists _, msg, [], []. split; [exact Hlast |]. rewrite !app_nil_r.
    repeat (split; [done |]). split; [constructor |]. intros runID2 msgs2 r s2 more cs _ _ Hat Hl.
    destruct (Hnext r s2 runID2 msgs2 cs Hl) as (r1 & s3 & msgs3 & E & Hl' & Ht & Ecp & Em). rewrite E. cbn [Completion_ToolCalls Completion_Message].
    eexists _, _, _. rewrite <- Em, Ecp. split; [done |]. split; [| done]. intros name. by rewrite Ht.
  - destruct (dispatch_calls e (call :: calls') d [] m1) as [m2 [[d2 results] | err]] eqn:Ed; [| done]. intros [= <- <- <- <-].
    destruct (dispatch_follows _ _ _ _ _ _ _ Ed) as (evs & Hev & Hin & Hr).
    exists (mkTurn runID step (msgs ++ [msg])), msg, evs, (match results with [] => [] | _ => [mkMessage "tool" "" [] results] end).
    split; [exact Hlast |]. split; [done |]. split; [destruct results; rewrite ?app_nil_r; [done | by rewrite <- app_assoc] |].
    split; [done |]. split; [by destruct results |]. split; [done |]. split; [done |].
    intros runID2 msgs2 r s2 more cs Hset Hall Hat Hl.
    destruct (Hnext r s2 runID2 msgs2 cs Hl) as (r1 & s3 & msgs3 & E & Hl' & Ht & Ecp & Em). rewrite E. cbn [Completion_ToolCalls Completion_Message].
    rewrite <- Em, Ecp. unfold calls in Ecalls.
    assert (withCallIDs (call :: calls') step = call :: calls') as -> by (rewrite <- Ecalls; apply withCallIDs_again).
    destruct (Hr more r1 Hset Hall) as (r' & Ed' & Hat' & Hm); [intros name; rewrite Ht; apply Hat |].
    rewrite Ed'. eexists _, _, _. split; [done |]. split; [done |]. unfold left_to_say in *. by rewrite Hm.
Qed.

Lemma loop_follows fuel : forall runID step msgs d m s m' s' d',
  reason_loop e runID fuel step msgs d m s = (m', s', inl d') -> finished d = false -> finished d' = true ->
  exists t ext evs, list.last (held (Eng_Store e) s') = Some t /\ Turn_Msgs t = msgs ++ ext /\
    Dr_Evidence d' = Dr_Evidence d ++ evs /\ from_tools evs /\
    forall runID2 fuel2 msgs2 r s2, (length (completionsFrom ext) <= fuel2)%nat -> Set_Evidence set = Dr_Evidence d' -> from_tools (Set_Evidence set) ->
      at_point (Set_Evidence set) (Dr_Evidence d) r -> left_to_say r = completionsFrom ext ->
      exists r' s2', reason_loop re runID2 fuel2 step msgs2 d r s2 = (r', s2', inl d').
Proof.
  induction fuel as [| fuel IH]; intros runID step msgs d m s m' s' d'; cbn [reason_loop]; [intros [= <- <- <-]; congruence |].
  destruct (turn e runID step msgs d m s) as [[m1 s1] [[d1 msgs1] | err]] eqn:Et; [| done].
  destruct (turn_follows _ _ _ _ _ _ _ _ _ _ Et) as (t & msg & evs & tail & Hlast & Ht & -> & Hmsg & Htail & Hev & Hin & Hr).
  destruct (finished d1) eqn:Ef.
  - intros [= <- <- <-] _ _. exists t, [msg], evs. do 4 (split; [done |]).
    intros runID2 [| fuel2] msgs2 r s2 Hf Hset Hall Hat Hl; [rewrite Hmsg in Hf; simpl in Hf; lia |]. cbn [reason_loop].
    destruct (Hr runID2 msgs2 r s2 [] [] ltac:(by rewrite app_nil_r) Hall Hat) as (r' & s2' & msgs2' & E & _ & _); [by rewrite Hl, Hmsg |].
    rewrite E, Ef. eauto.
  - intros Hloop Hd Hd'. destruct (IH _ _ _ _ _ _ _ _ _ Hloop Ef Hd') as (t' & ext & evs' & Hlast' & Ht' & Hev' & Hin' & Hr').
    exists t', ([msg] ++ tail ++ ext), (evs ++ evs'). split; [done |]. split; [by rewrite Ht', <- !app_assoc |].
    split; [by rewrite Hev', Hev, app_assoc |]. split; [by apply Forall_app |].
    rewrite !completionsFrom_app, Hmsg, Htail. intros runID2 [| fuel2] msgs2 r s2 Hf Hset Hall Hat Hl; simpl in Hf; [lia |]. cbn [reason_loop].
    destruct (Hr runID2 msgs2 r s2 evs' (completionsFrom ext) ltac:(by rewrite Hset, Hev') Hall Hat Hl) as (r' & s2' & msgs2' & E & Hat' & Hl').
    rewrite E, Ef. apply Hr'; [lia | done..].
Qed.

End follow.

(** ** The replayed set *)

(** what of a draft's set does not depend on who asked *)
Definition same_proposals (s s2 : ProposalSet) : Prop :=
  Set_SignalRef s2 = Set_SignalRef s /\ Set_SLORef s2 = Set_SLORef s /\ Set_ServiceTier s2 = Set_ServiceTier s /\
  Set_FailureClass s2 = Set_FailureClass s /\ Set_CausalScores s2 = Set_CausalScores s /\ Set_Hypotheses s2 = Set_Hypotheses s /\
  Set_Evidence s2 = Set_Evidence s /\ Set_Gate s2 = Set_Gate s /\ Set_Proposals s2 = Set_Proposals s /\
  Set_Recommended s2 = Set_Recommended s /\ Set_Status s2 = Set_Status s.

Definition cold (prior : option Prior) (fingerprint : string) : Prop := forall p, prior = Some p -> p fingerprint = None.

(** the parts of two snapshots that scoring reads *)
Definition same_view (sao sao2 : SAO) : Prop :=
  SAO_Topology sao2 = SAO_Topology sao /\ SAO_Change sao2 = SAO_Change sao /\
  SignalSnapshot_Confidence (SAO_Signal sao2) = SignalSnapshot_Confidence (SAO_Signal sao) /\
  SignalSnapshot_OriginService (SAO_Signal sao2) = SignalSnapshot_OriginService (SAO_Signal sao).

Lemma cold_scores p1 p2 fp change topo w : cold p1 fp -> cold p2 fp -> Score p1 fp change topo w = Score p2 fp change topo w.
Proof.
  intros H1 H2. unfold Score. apply map_ext. intros ev. unfold scoreEvent.
  assert (historical_base p1 fp w = historical_base p2 fp w) as ->; [| done].
  unfold historical_base, cold in *. destruct p1 as [p1 |], p2 as [p2 |]; rewrite ?(H1 _ eq_refl), ?(H2 _ eq_refl); done.
Qed.

Lemma same_view_coherent sao sao2 ref : same_view sao sao2 -> coherentSubject ref (Some sao2) = coherentSubject ref (Some sao).
Proof. intros (Ht & _ & _ & Ho). unfold coherentSubject, inTopology. by rewrite Ht, Ho. Qed.

Lemma same_view_live sao sao2 refs : same_view sao sao2 -> anyCoherentLive refs (Some sao2) = anyCoherentLive refs (Some sao).
Proof.
  intros Hv. unfold anyCoherentLive. induction refs as [| ref refs IH]; [done |].
  cbn [existsb]. by rewrite IH, (same_view_coherent sao sao2).
Qed.

Lemma same_view_citations sao sao2 c ev : same_view sao sao2 ->
  coherentLiveCitations c ev (Some sao2) = coherentLiveCitations c ev (Some sao).
Proof.
  intros Hv. unfold coherentLiveCitations. do 4 f_equal. apply List.filter_ext. intros ref. by rewrite (same_view_coherent sao sao2).
Qed.

(** a catalog loaded under the empty registry has no precondition *)
Lemma no_preconditions unmarshal raw cat : Load unmarshal raw Preconditions = inl cat ->
  Forall (fun c => AC_Preconditions c = []) (Contracts cat).
Proof.
  unfold Load. destruct (unmarshal raw) as [cs | err]; [| done]. destruct (bind_contracts _ cs) as [cs' | err] eqn:E; [| done].
  intros [= <-]. unfold Contracts, NewStaticCatalog. simpl. revert cs' E. induction cs as [| c cs IH]; simpl; intros cs'; [by intros [= <-] |].
  destruct (AC_Preconditions c) as [| p ps]; simpl; [| by unfold bind_precondition, Preconditions; rewrite lookup_empty].
  destruct (bind_contracts _ cs) as [cs'' | err]; [| done]. intros [= <-]. constructor; [done | by apply IH].
Qed.

Lemma no_preconditions_file rig path cat : contract_LoadCatalogFile rig path Preconditions = inl cat ->
  Forall (fun c => AC_Preconditions c = []) (Contracts cat).
Proof. unfold contract_LoadCatalogFile. destruct (ReadFile rig path); [apply no_preconditions | done]. Qed.

Lemma applicable_anywhere cat class tier sao sao2 : Forall (fun c => AC_Preconditions c = []) (Contracts cat) ->
  Applicable cat class tier sao2 = Applicable cat class tier sao.
Proof.
  intros Hc. unfold Applicable. apply filter_ext_in. intros c Hin. f_equal. unfold preconditionsMet.
  rewrite list.Forall_forall in Hc. by rewrite Hc by (by apply list_elem_of_In).
Qed.

(** no candidate the engine reads off the model forecasts an effect, so the order of the
    draft stands whatever the velocity *)
Definition no_forecast (d : Draft) : Prop := Forall (fun c => Candidate_PredictedImpact c = None) (Dr_Proposals d).

Lemma sort_flat {A} (key : A -> Z) l : Forall (fun x => key x = 0) l -> sort_stable_by key l = l.
Proof.
  induction 1 as [| x l Hx Hl IH]; simpl; [done |]. rewrite IH. destruct Hl as [| y l Hy Hl]; [done |]. simpl. by rewrite Hx, Hy.
Qed.

Lemma Rank_flat cands velocity : Forall (fun c => timeToEffect c = 0) cands ->
  (Rank cands velocity).1 = imap (fun i c => set_rank c (Z.of_nat i + 1)) cands.
Proof. intros Hf. unfold Rank. by destruct (velocity =s _); rewrite ?sort_flat. Qed.

Lemma enrich_no_forecast cat c : Candidate_PredictedImpact c = None -> timeToEffect (enrich cat c) = 0.
Proof.
  intros Hc. unfold timeToEffect, enrich. destruct (ByName cat _) as [ct |]; [| by rewrite Hc]. rewrite Hc. simpl.
  destruct (_ =s ""), (feq _ f0); simpl; done.
Qed.

Section forecast.
Context {M S_ : Type} (e : Engine (M := M) (S_ := S_)).

Lemma dispatch_no_forecast calls : forall d res m m' d' res',
  dispatch_calls e calls d res m = (m', inl (d', res')) -> no_forecast d -> no_forecast d'.
Proof.
  induction calls as [| call calls IH]; intros d res m m' d' res'; cbn [dispatch_calls]; [by intros [= <- <- <-] |].
  destruct (_ =s "propose").
  { destruct (Eng_decode_propose e _) as [p | err]; [| done]. intros [= <- <- <-] _. unfold no_forecast, candidates. simpl.
    apply Forall_map. apply list.Forall_forall. done. }
  destruct (_ =s "insufficient"); [destruct (Eng_decode_insufficient e _) as [p | err]; [| done]; by intros [= <- <- <-] |].
  destruct (Eng_Tools e !! _) as [tool |]; [| by eauto].
  destruct (Tool_Run tool _ m) as [m1 [ref | err]]; [| done]. intros Hd Hn. by eapply IH.
Qed.

Lemma loop_no_forecast fuel : forall runID step msgs d m s m' s' d',
  reason_loop e runID fuel step msgs d m s = (m', s', inl d') -> no_forecast d -> no_forecast d'.
Proof.
  induction fuel as [| fuel IH]; intros runID step msgs d m s m' s' d'; cbn [reason_loop]; [by intros [= <- <- <-] |].
  destruct (turn e _ _ _ d m s) as [[m1 s1] [[d1 msgs1] | err]] eqn:Et; [| done]. intros Hl Hn.
  assert (no_forecast d1) as Hn1.
  { revert Et. unfold turn. destruct (Eng_Complete _ _ _ _) as [m2 [comp | err]]; [| done].
    destruct (Store_Checkpoint _ _ _) as [s2 [err |]]; [done |]. destruct (withCallIDs _ _); [by intros [= _ _ <- _] |].
    destruct (dispatch_calls _ _ _ _ _) as [m3 [[d2 results] | err]] eqn:Ed; [| done]. intros [= _ _ <- _]. by eapply dispatch_no_forecast. }
  destruct (finished d1); [by injection Hl as _ _ <- | by eapply IH].
Qed.

End forecast.

Lemma graded_no_forecast cat set sao prior fp w d :
  no_forecast d -> Set_Proposals set = enrichFromCatalog cat (Dr_Proposals d) ->
  Forall (fun c => timeToEffect c = 0) (Set_Proposals (scoreConfidences set sao prior fp w)).
Proof.
  intros Hn Hs. unfold scoreConfidences. simpl. rewrite Hs. unfold enrichFromCatalog.
  apply Forall_map, Forall_map. eapply list.Forall_impl; [exact Hn |]. intros c Hc. by apply (enrich_no_forecast cat) in Hc.
Qed.

(** the graded candidates of a draft, when nothing is remembered of the signal *)
Definition scored (cat : StaticCatalog) (w : ScoringWeights) (scores : list CausalScore) (sao : SAO) (d : Draft) : list Candidate :=
  imap (fun i c => set_rank c (Z.of_nat i + 1))
    (map (fun c => grade (mkInputs (SignalSnapshot_Confidence (SAO_Signal sao)) (coherentLiveCitations c (Dr_Evidence d) (Some sao))
                            f0 false (max_likelihood scores).1 (max_likelihood scores).2 (Candidate_Confidence c)) w c)
       (enrichFromCatalog cat (Dr_Proposals d))).

Lemma form_set_scored {M S_ : Type} (e : Engine (M := M) (S_ := S_)) sig runID sao d :
  no_forecast d -> cold (Eng_Prior e) (Detection_Fingerprint sig) ->
  let scores := Score (Eng_ScorerPrior e) (Detection_Fingerprint sig) (SAO_Change sao) (SAO_Topology sao) (Eng_Weights e) in
  let s := form_set e sig sao (draft_set sig runID sao d None "" (Dr_Reason d)) in
  Set_Proposals s = scored (Eng_Catalog e) (Eng_Weights e) scores sao d /\ Set_CausalScores s = scores /\ Set_Hypotheses s = Dr_Hypotheses d /\
  Set_Gate s = None /\ Set_Recommended s = match Set_Proposals s with [] => "" | c :: _ => Candidate_ID c end.
Proof.
  intros Hn Hc scores s. unfold s, form_set. set (set1 := mkSet _ _ _ _ _ _ _ _ _ _ _ _ _ _ _).
  pose proof (Rank_flat _ (BlastRadius_Velocity (Impact_BlastRadius (Detection_Impact sig)))
                (graded_no_forecast (Eng_Catalog e) set1 sao (Eng_Prior e) (Detection_Fingerprint sig) (Eng_Weights e) d Hn eq_refl)) as E.
  destruct (Rank _ _) as [ranked why]. cbn [fst] in E. subst ranked. cbn [Set_Proposals Set_CausalScores Set_Hypotheses Set_Gate Set_Recommended].
  split; [| done]. unfold scored. f_equal. apply map_ext. intros c. f_equal. unfold inputs_for, set1.
  cbn [Set_CausalScores draft_set Set_Evidence Set_SAOSnapshot Set_SignalRef]. fold scores. destruct (max_likelihood scores) as [ml mlok].
  unfold cold in Hc. destruct (Eng_Prior e) as [p |]; rewrite ?(Hc _ eq_refl); done.
Qed.

(** two engines of one catalog and one set of weights, both with nothing remembered of
    the signal, make of one draft the same set *)
Lemma form_set_same {M S_ M' S_' : Type} (e : Engine (M := M) (S_ := S_)) (e2 : Engine (M := M') (S_ := S_'))
  sig sig2 runID runID2 sao sao2 d :
  Eng_Catalog e2 = Eng_Catalog e -> Eng_Weights e2 = Eng_Weights e -> same_view sao sao2 ->
  Detection_Fingerprint sig2 = Detection_Fingerprint sig -> Detection_SLORef sig2 = Detection_SLORef sig ->
  Detection_ServiceTier sig2 = Detection_ServiceTier sig ->
  no_forecast d -> cold (Eng_ScorerPrior e) (Detection_Fingerprint sig) -> cold (Eng_Prior e) (Detection_Fingerprint sig) ->
  cold (Eng_ScorerPrior e2) (Detection_Fingerprint sig) -> cold (Eng_Prior e2) (Detection_Fingerprint sig) ->
  let s := form_set e sig sao (draft_set sig runID sao d None "" (Dr_Reason d)) in
  let s2 := form_set e2 sig2 sao2 (draft_set sig2 runID2 sao2 d None "" (Dr_Reason d)) in
  same_proposals s s2 /\ Set_SAOSnapshot s = Some sao /\ Set_SAOSnapshot s2 = Some sao2.
Proof.
  intros Hcat Hw Hv Hfp Hslo Htier Hflat Hc1 Hc2 Hc3 Hc4 s s2.
  destruct (form_set_scored e sig runID sao d Hflat Hc2) as (Hp & Hcs & Hh & Hg & Hr).
  destruct (form_set_scored e2 sig2 runID2 sao2 d Hflat) as (Hp2 & Hcs2 & Hh2 & Hg2 & Hr2); [by rewrite Hfp |].
  destruct (form_set_fields e sig sao (draft_set sig runID sao d None "" (Dr_Reason d))) as (_ & F1 & F2 & F3 & F4 & F5 & F6 & F7 & _).
  destruct (form_set_fields e2 sig2 sao2 (draft_set sig2 runID2 sao2 d None "" (Dr_Reason d))) as (_ & G1 & G2 & G3 & G4 & G5 & G6 & G7 & _).
  fold s in Hp, Hcs, Hh, Hg, Hr, F1, F2, F3, F4, F5, F6, F7. fold s2 in Hp2, Hcs2, Hh2, Hg2, Hr2, G1, G2, G3, G4, G5, G6, G7.
  destruct Hv as (Ht & Hch & Hconf & Ho).
  assert (Set_CausalScores s2 = Set_CausalScores s) as Ecs by (rewrite Hcs, Hcs2, Hw, Hfp, Ht, Hch; by apply cold_scores).
  assert (Set_Proposals s2 = Set_Proposals s) as Ep.
  { rewrite Hp, Hp2, <- Hcs, <- Hcs2, Ecs, Hcat, Hw. unfold scored. f_equal. apply map_ext. intros c.
    by rewrite Hconf, (same_view_citations sao sao2). }
  split; [| by rewrite F4, G4]. unfold same_proposals.
  rewrite G1, G2, G3, G5, G6, G7, F1, F2, F3, F5, F6, F7, Ecs, Ep, Hh, Hh2, Hg, Hg2, Hr, Hr2, Ep. done.
Qed.

Lemma gate_same s s2 sao sao2 : same_proposals s s2 -> Set_SAOSnapshot s = Some sao -> Set_SAOSnapshot s2 = Some sao2 -> same_view sao sao2 ->
  gate_Evaluate s2 [] = gate_Evaluate s [].
Proof.
  intros (_ & _ & _ & _ & _ & _ & Hev & _ & Hp & Hr & _) H1 H2 Hv. unfold gate_Evaluate. rewrite H1, H2, (same_view_live sao sao2) by done.
  assert (recommendedEvidence s2 = recommendedEvidence s) as ->; [| done].
  unfold recommendedEvidence, candidate_by_id. by rewrite Hr, Hp, Hev.
Qed.

(** the replayed intake hands back what the recorded run saw *)
Lemma replay_Assemble wire cat classes s w now r sao :
  Set_SAOSnapshot s = Some sao ->
  exists sao2, Assemble (Eng_Intake (replay_engine wire cat classes s w)) (detectionFrom s) now r = (r, inl sao2) /\ same_view sao sao2.
Proof.
  intros Hs. unfold Assemble, replay_engine, replayTopology, replayChange, detectionFrom. cbn. rewrite Hs. eexists. split; [reflexivity |].
  split; [| done]. simpl. unfold topo_nodes. destruct (SAO_Topology sao) as [up down]. simpl.
  by destruct up, down.
Qed.

(** with an empty ledger and no publisher, concluding a proposed draft returns its gated set *)
Lemma replay_conclude wire cat classes s w ck sig runID sao d (st : ReplayState) :
  let re := replay_engine wire cat classes s w in let set := draft_set sig runID sao d None "" (Dr_Reason d) in
  Es_ledger st = NewMemProposalLog -> finished d = true -> Dr_proposed d = true ->
  enforceCatalog cat set sao = None -> enforceCitations set = None ->
  (conclude re Background ck sig runID sao d st).2 = inl (with_gate (form_set re sig sao set) (gate_Evaluate (form_set re sig sao set) [])).
Proof.
  intros re set Hl Hf Hp E1 E2. unfold conclude. rewrite Hf, Hp. cbn [negb]. fold set. change (Eng_Catalog re) with cat. rewrite E1, E2, Hl.
  change (Open Background _ _ NewMemProposalLog) with (inl [] : result (list ProposalSet)). cbv iota.
  unfold record_run. rewrite Hl. change (Eng_HasPub re) with false. by rewrite andb_false_r.
Qed.

Lemma enforce_same cat sig sig2 runID runID2 sao sao2 d : Forall (fun c => AC_Preconditions c = []) (Contracts cat) ->
  Detection_ServiceTier sig2 = Detection_ServiceTier sig ->
  enforceCatalog cat (draft_set sig2 runID2 sao2 d None "" (Dr_Reason d)) sao2 = enforceCatalog cat (draft_set sig runID sao d None "" (Dr_Reason d)) sao.
Proof.
  intros Hc Ht. unfold enforceCatalog, draft_set. cbn [Set_FailureClass Set_ServiceTier Set_Proposals].
  by rewrite Ht, (applicable_anywhere cat _ _ sao sao2).
Qed.

Section proposed.
Context {M S_ WP WJ : Type} `{PublisherLaws WP ProposalSet} `{PublisherLaws WJ ProposalSet}.
Context (e : Engine (M := M) (S_ := S_)) `{!TurnLog S_ (Eng_Store e)}.

Lemma record_run_returns ctx ck set (st st' : EngState (M := M) (S_ := S_) (WP := WP) (WJ := WJ)) s :
  record_run e ctx ck set st = (st', inl s) -> s = set /\ Es_store st' = Es_store st.
Proof. intros (_ & _ & Hs & _ & Hr)%record_run_spec. destruct (Hr s eq_refl) as [-> _]. done. Qed.

(** what a proposed set came from *)
Lemma Propose_proposed ctx ck sig drift (st st' : EngState (M := M) (S_ := S_) (WP := WP) (WJ := WJ)) s stt :
  Propose e ctx ck sig drift st = (st', inl s) -> Set_Status s = Some stt -> Status_Phase stt = PhaseProposed ->
  exists sao m1 m2 s2 d runID content, Assemble (Eng_Intake e) sig (Ck_assembled ck) (Es_env st) = (m1, inl sao) /\
    reason_loop e runID (Z.to_nat (Eng_MaxSteps e)) 0 [mkMessage "user" content [] []] Draft_zero m1 (Es_store st) = (m2, s2, inl d) /\
    finished d = true /\ Dr_proposed d = true /\ held (Eng_Store e) (Es_store st') = held (Eng_Store e) s2 /\
    let set := draft_set sig runID sao d None "" (Dr_Reason d) in
    enforceCatalog (Eng_Catalog e) set sao = None /\ enforceCitations set = None /\
    let g := gate_Evaluate (form_set e sig sao set) [] in GateResult_Passed g = true /\ s = with_gate (form_set e sig sao set) g.
Proof.
  unfold Propose. destruct (Open ctx _ _ (Es_ledger st)) as [[| x xs] | err]; [| by intros [= _ <-] | done].
  destruct (Assemble _ sig _ _) as [m1 [sao | err]] eqn:Ea; [| by destruct (Store_Finish _ _ _ _)].
  destruct (reason_loop e _ _ 0 _ Draft_zero m1 _) as [[m2 s2] [d | err]] eqn:El; [| by destruct (Store_Finish _ _ _ _)].
  destruct (conclude e ctx ck sig _ sao d _) as [st1 r] eqn:Ec. destruct (Store_Finish (Eng_Store e) _ _ _) as [s3 ferr] eqn:Efin.
  intros [= <- ->] Hs Hph. simpl. exists sao, m1, m2, s2, d. do 2 eexists. split; [done |]. split; [exact El |].
  match type of Efin with Store_Finish _ ?id ?err ?s0 = _ => pose proof (held_finish (store := Eng_Store e) id err s0) as Hf end.
  rewrite Efin in Hf. simpl in Hf. rewrite Hf. clear Hf Efin El Ea.
  unfold conclude in Ec. destruct (finished d); cbn [negb] in Ec; [| apply record_run_returns in Ec as [-> _]; simpl in Hs; by simplify_eq].
  destruct (Dr_proposed d) eqn:Ep; cbn [negb] in Ec; [| apply record_run_returns in Ec as [-> _]; simpl in Hs; by simplify_eq].
  destruct (enforceCatalog _ _ sao) as [err |] eqn:E1.
  { destruct (_ && _); [done |]. apply record_run_returns in Ec as [-> _]; simpl in Hs; by simplify_eq. }
  destruct (enforceCitations _) as [err |] eqn:E2.
  { destruct (negb _); [done |]. apply record_run_returns in Ec as [-> _]; simpl in Hs; by simplify_eq. }
  destruct (Open ctx _ _ _) as [dupes | err]; [| done].
  set (formed := form_set e sig sao _) in *. set (g := gate_Evaluate formed dupes) in *.
  destruct (record_run e ctx ck (with_gate formed g) _) as [st2 [s' | err]] eqn:Er; [| done].
  apply record_run_returns in Er as [-> Hst]. simpl in Hst.
  assert (s = with_gate formed g /\ Es_store st1 = s2) as [-> ->].
  { destruct (GateResult_Passed g && Eng_HasPub e); [destruct (publish _ _ _) as [p' [err |]] |]; simplify_eq/=; done. }
  assert (GateResult_Passed g = true) as Hg.
  { destruct (GateResult_Passed g) eqn:Eg; [done |]. exfalso. unfold with_gate in Hs. cbn [Set_Status] in Hs.
    destruct (Set_Status formed) as [st0 |]; [| done]. rewrite Eg in Hs. injection Hs as <-. done. }
  assert (dupes = []) as ->.
  { unfold g, gate_Evaluate in Hg. simpl in Hg. destruct dupes; [done |]. simpl in Hg. done. }
  repeat (split; [done |]). done.
Qed.

(** C36. A replayed run reproduces the set it recorded: let a live run propose [s], its tools
    signing the evidence they return and its model answering as the assistant, with nothing
    remembered of the signal; if the transcript holds
    the run's last checkpointed turn and [s], its completions are within the replay's steps
    and the live run used the catalog the replay loads and the weights it is given, then
    [Propose] returns a set with the same class, hypotheses, evidence, causal scores, gate,
    graded and ranked candidates, recommendation and status. *)
Theorem replay_reproduces_the_run ctx ck sig drift (st st' : EngState (M := M) (S_ := S_) (WP := WP) (WJ := WJ)) s stt t
  rig file wire classes ck2 tr :
  Recordable e -> cold (Eng_ScorerPrior e) (Detection_Fingerprint sig) -> cold (Eng_Prior e) (Detection_Fingerprint sig) ->
  Eng_decode_propose e = Wire_propose wire -> Eng_decode_insufficient e = Wire_insufficient wire ->
  contract_LoadCatalogFile rig (configPath file ["thump-test"; "actions"; "catalog.yaml"]%string) Preconditions = inl (Eng_Catalog e) ->
  LoadFailureClassesFile rig (configPath file ["thump-test"; "actions"; "failure-classes.yaml"]%string) = inl classes ->
  Propose e ctx ck sig drift st = (st', inl s) -> Set_Status s = Some stt -> Status_Phase stt = PhaseProposed ->
  list.last (held (Eng_Store e) (Es_store st')) = Some t -> (length (completionsFrom (Turn_Msgs t)) <= 8)%nat ->
  Tr_Completions tr = completionsFrom (Turn_Msgs t) -> Tr_Set tr = s ->
  exists s2, replay_Propose rig file wire ck2 tr (Eng_Weights e) = inl s2 /\ same_proposals s s2.
Proof.
  intros He Hc1 Hc2 Hdp Hdi Hcat Hcl Hrun Hst Hph Hlast Hlen Htr Hset.
  destruct (Propose_proposed _ _ _ _ _ _ _ _ Hrun Hst Hph) as (sao & m1 & m2 & s2 & d & runID & content & Ha & Hl & Hfin & Hp & Hheld & E1 & E2 & Hg & Hs).
  unfold replay_Propose. rewrite Hcat, Hcl, Hset. set (re := replay_engine wire (Eng_Catalog e) classes s (Eng_Weights e)).
  destruct (loop_follows e He re s eq_refl eq_refl (eq_sym Hdp) (eq_sym Hdi) (fun _ _ => eq_refl) _ _ _ _ _ _ _ _ _ _ Hl eq_refl Hfin)
    as (t' & ext & evs & Hlast' & Ht & Hev & Hin & Hreplay).
  rewrite Hheld, Hlast' in Hlast. injection Hlast as ->. rewrite Ht, completionsFrom_app in Htr, Hlen. simpl in Htr, Hlen.
  set (draft := draft_set sig runID sao d None "" (Dr_Reason d)) in *.
  destruct (form_set_fields e sig sao draft) as (_ & Hfp & Hslo & Htier & Hsao & _ & Hevs & _ & _).
  assert (Set_SAOSnapshot s = Some sao /\ Set_SignalRef s = Detection_Fingerprint sig /\ Set_SLORef s = Detection_SLORef sig /\
          Set_ServiceTier s = Detection_ServiceTier sig /\ Set_Evidence s = Dr_Evidence d) as (Hs1 & Hs2 & Hs3 & Hs4 & Hs5).
  { rewrite Hs. cbn -[form_set]. rewrite Hfp, Hslo, Htier, Hsao, Hevs. done. }
  pose proof (no_preconditions_file rig _ _ Hcat) as Hpre.
  destruct (replay_Assemble wire (Eng_Catalog e) classes s (Eng_Weights e) (Ck_assembled ck2) (recording tr) sao Hs1) as (sao2 & Ha2 & Hv).
  fold re in Ha2. set (sig2 := detectionFrom s) in *.
  unfold Propose. change (Open Background _ _ _) with (inl [] : result (list ProposalSet)). cbv iota zeta.
  cbn [replay_state Es_env]. rewrite Ha2.
  set (runID2 := Detection_Fingerprint sig2 +:+ _).
  edestruct (Hreplay runID2 8%nat) as (r' & s2' & Hl2);
    [exact Hlen | exact Hs5 | unfold from_tools; rewrite Hs5, Hev; exact Hin | rewrite <- Hset; apply recording_starts | unfold left_to_say; cbn; exact Htr |].
  change (Z.to_nat (Eng_MaxSteps re)) with 8%nat. rewrite Hl2.
  set (st2 := mkEngState r' s2' _ _ _). pose proof (replay_conclude wire (Eng_Catalog e) classes s (Eng_Weights e) ck2 sig2 runID2 sao2 d st2 eq_refl Hfin Hp) as Hcon.
  fold re in Hcon. rewrite (enforce_same _ sig sig2 runID runID2 sao sao2) in Hcon by done. specialize (Hcon E1 E2).
  destruct (conclude re Background ck2 sig2 runID2 sao2 d st2) as [st3 res]. simpl in Hcon. subst res.
  destruct (Store_Finish _ _ _ _) as [s3 ferr]. simpl. eexists. split; [done |].
  destruct (form_set_same e re sig sig2 runID runID2 sao sao2 d) as (Hsame & Hsn & Hsn2); try done.
  { eapply loop_no_forecast; [exact Hl | constructor]. } { intros p [= <-]. done. } { intros p [= <-]. done. }
  fold draft in Hsame, Hsn. set (f2 := form_set re sig2 sao2 _) in *. set (f1 := form_set e sig sao draft) in *.
  pose proof (gate_same _ _ _ _ Hsame Hsn Hsn2 Hv) as Hgate. rewrite Hgate, Hs.
  destruct Hsame as (? & ? & ? & ? & ? & ? & ? & ? & ? & ? & Hstat). unfold same_proposals, with_gate. rewrite Hstat.
  clearbody f1 f2. repeat (split; [done |]). done.
Qed.

End proposed.

(** ** A replay improvises nothing *)

(** a ref without its citation key, the one field the engine fills in *)
Definition bare (ref : EvidenceRef) : EvidenceRef :=
  mkEvidenceRef (EvidenceRef_Tool ref) (EvidenceRef_Query ref) "" (EvidenceRef_Summary ref) (EvidenceRef_Ref ref) (EvidenceRef_Live ref)
    (EvidenceRef_Subject ref).

(** each backend answered with what it answered in the recording, in order *)
Definition drawn_from (total ev : list EvidenceRef) : Prop :=
  forall name, map bare (refs_of name ev) `prefix_of` map bare (refs_of name total).

Lemma refs_of_bare name refs : map bare (refs_of name refs) = refs_of name (map bare refs).
Proof. unfold refs_of. induction refs as [| ref refs IH]; simpl; [done |]. destruct (_ =s name); simpl; by rewrite IH. Qed.

Lemma drawn_from_snoc total ev ref p : refs_of (EvidenceRef_Tool ref) total !! p = Some ref -> p = length (refs_of (EvidenceRef_Tool ref) ev) ->
  drawn_from total ev -> forall key, drawn_from total (ev ++ [mkEvidenceRef (EvidenceRef_Tool ref) (EvidenceRef_Query ref) key (EvidenceRef_Summary ref)
    (EvidenceRef_Ref ref) (EvidenceRef_Live ref) (EvidenceRef_Subject ref)]).
Proof.
  intros Hl -> Hd key name. rewrite refs_of_app. simpl. destruct (EvidenceRef_Tool ref =s name) eqn:E; [| by rewrite app_nil_r].
  apply String.eqb_eq in E as <-. destruct (Hd (EvidenceRef_Tool ref)) as [rest Hr]. rewrite map_app. simpl.
  assert (map bare (refs_of (EvidenceRef_Tool ref) total) !! length (refs_of (EvidenceRef_Tool ref) ev) = Some (bare ref)) as Hb
    by (rewrite list_lookup_fmap, Hl; done).
  rewrite Hr in Hb |- *. rewrite lookup_app_r in Hb by (rewrite length_map; lia). rewrite length_map, Nat.sub_diag in Hb.
  destruct rest as [| x rest]; [done |]. injection Hb as ->. exists rest. by rewrite <- app_assoc.
Qed.

Section improvise.
Context (re : ReplayEngine) (set : ProposalSet).
Hypothesis (Hcomplete : Eng_Complete re = replay_Complete) (Htools : Eng_Tools re = replay_Tools set).
Let total := Set_Evidence set.

Lemma recordedTool_Run_next r name t t' ref ev :
  at_point total ev r -> Rec_tools r !! name = Some t -> recordedTool_Run t = (t', inl ref) ->
  EvidenceRef_Tool ref = name /\ refs_of name total !! length (refs_of name ev) = Some ref /\
  t' = mkRecordedTool name (refs_of name total) (S (length (refs_of name ev))).
Proof.
  intros Hat Ht Hr. rewrite (Hat name) in Ht. destruct (refs_of name total) as [| x xs] eqn:E; [done |]. injection Ht as <-.
  unfold recordedTool_Run in Hr. cbn [rt_refs rt_pos rt_name] in Hr. destruct ((x :: xs) !! _) as [ref' |] eqn:El; [| done]. injection Hr as <- <-.
  split; [| done]. rewrite <- E in El. apply list_elem_of_lookup_2, elem_of_filterb in El as [_ En]. by apply String.eqb_eq in En.
Qed.

Lemma dispatch_draws calls : forall d res r r' d' res',
  dispatch_calls re calls d res r = (r', inl (d', res')) -> at_point total (Dr_Evidence d) r -> drawn_from total (Dr_Evidence d) ->
  at_point total (Dr_Evidence d') r' /\ drawn_from total (Dr_Evidence d').
Proof.
  induction calls as [| call calls IH]; intros d res r r' d' res'; cbn [dispatch_calls]; [by intros [= <- <- <-] |].
  destruct (_ =s "propose"); [destruct (Eng_decode_propose re _) as [p | err]; [| done]; by intros [= <- <- <-] |].
  destruct (_ =s "insufficient"); [destruct (Eng_decode_insufficient re _) as [p | err]; [| done]; by intros [= <- <- <-] |].
  rewrite Htools, replay_Tools_lookup. destruct (refs_of (ToolCall_Name call) (Set_Evidence set)) as [| x xs] eqn:E; [by eauto |].
  cbn [replay_Tool Tool_Run]. destruct (Rec_tools r !! ToolCall_Name call) as [t |] eqn:Et; [| done].
  destruct (recordedTool_Run t) as [t' [ref | err]] eqn:Er; [| done]. intros Hd Hat Hdr.
  destruct (recordedTool_Run_next _ _ _ _ _ _ Hat Et Er) as (Hn & Hl & ->).
  apply (IH _ _ _ _ _ _ Hd); cbn [add_evidence Dr_Evidence]; [| eapply drawn_from_snoc; [by rewrite Hn | by rewrite Hn | done]].
  intros name. cbn [Rec_tools]. rewrite refs_of_app, length_app. simpl. rewrite Hn. destruct (ToolCall_Name call =s name) eqn:En.
  - apply String.eqb_eq in En as <-. rewrite lookup_insert_eq. unfold total in *. rewrite E, Nat.add_comm. done.
  - rewrite lookup_insert_ne by (by apply String.eqb_neq). rewrite Nat.add_0_r. apply Hat.
Qed.

Lemma loop_draws fuel : forall runID step msgs d r s r' s' d',
  reason_loop re runID fuel step msgs d r s = (r', s', inl d') -> at_point total (Dr_Evidence d) r -> drawn_from total (Dr_Evidence d) ->
  drawn_from total (Dr_Evidence d').
Proof.
  induction fuel as [| fuel IH]; intros runID step msgs d r s r' s' d'; cbn [reason_loop]; [by intros [= <- <- <-] |].
  destruct (turn re _ _ _ d r s) as [[r1 s1] [[d1 msgs1] | err]] eqn:Et; [| done]. intros Hl Hat Hd.
  assert (at_point total (Dr_Evidence d1) r1 /\ drawn_from total (Dr_Evidence d1)) as [Hat1 Hd1].
  { revert Et. unfold turn. rewrite Hcomplete. destruct (replay_Complete _ _ r) as [r2 [comp | err]] eqn:Ec; [| done].
    assert (at_point total (Dr_Evidence d) r2) as Hat2.
    { unfold replay_Complete in Ec. destruct (Complete _) as [m c]. injection Ec as <- _. exact Hat. }
    destruct (Store_Checkpoint _ _ _) as [s2 [err |]]; [done |]. destruct (withCallIDs _ _); [by intros [= <- _ <- _] |].
    destruct (dispatch_calls _ _ _ _ _) as [r3 [[d2 results] | err]] eqn:Ed; [| done]. intros [= <- _ <- _]. by eapply dispatch_draws. }
  destruct (finished d1); [by injection Hl as _ _ <- | by eapply IH].
Qed.

End improvise.

(** every way a run concludes keeps the evidence of its draft *)
Lemma conclude_evidence {M S_ WP WJ : Type} `{PublisherLaws WP ProposalSet} `{PublisherLaws WJ ProposalSet} (e : Engine (M := M) (S_ := S_))
  ctx ck sig runID sao d (st st' : EngState (M := M) (S_ := S_) (WP := WP) (WJ := WJ)) s :
  conclude e ctx ck sig runID sao d st = (st', inl s) -> Set_Evidence s = Dr_Evidence d.
Proof.
  unfold conclude. destruct (negb (finished d)); [by intros [-> _]%record_run_returns |].
  destruct (negb (Dr_proposed d)); [by intros [-> _]%record_run_returns |].
  destruct (enforceCatalog _ _ _); [destruct (_ && _); [done |]; by intros [-> _]%record_run_returns |].
  destruct (enforceCitations _); [destruct (negb _); [done |]; by intros [-> _]%record_run_returns |].
  destruct (Open _ _ _ _) as [dupes | err]; [| done]. set (formed := form_set e sig sao _). set (g := gate_Evaluate formed dupes). clearbody g.
  assert (Set_Evidence (with_gate formed g) = Dr_Evidence d) as Hev.
  { unfold with_gate. cbn [Set_Evidence]. unfold formed. by destruct (form_set_fields e sig sao (draft_set sig runID sao d None "" (Dr_Reason d))) as (_ & _ & _ & _ & _ & _ & -> & _). }
  destruct (record_run _ _ _ _ _) as [st1 [s1 | err]]; [| done].
  destruct (GateResult_Passed g && _); [destruct (publish _ _ _) as [p' [err |]]; [done |] |]; intros [= _ <-]; exact Hev.
Qed.

(** A replay improvises nothing: whatever the transcript, the weights and the
    configuration, a set that [Propose] returns cites only what the recording holds: for
    each backend, its evidence is the recorded evidence of that backend, in the recorded
    order and cut at most at its end. *)
Theorem replay_improvises_nothing rig file wire ck tr w s2 :
  replay_Propose rig file wire ck tr w = inl s2 -> drawn_from (Set_Evidence (Tr_Set tr)) (Set_Evidence s2).
Proof.
  unfold replay_Propose. destruct (contract_LoadCatalogFile _ _ _) as [cat | err]; [| done].
  destruct (LoadFailureClassesFile _ _) as [classes | err]; [| done]. set (re := replay_engine _ _ _ _ _).
  unfold Propose. change (Open Background _ _ _) with (inl [] : result (list ProposalSet)). cbv iota zeta.
  destruct (Assemble _ _ _ _) as [r1 [sao | err]] eqn:Ea; [| by destruct (Store_Finish _ _ _ _)].
  assert (r1 = recording tr) as -> by (unfold Assemble in Ea; simpl in Ea; by injection Ea as <- _).
  destruct (reason_loop _ _ _ _ _ _ _ _) as [[r2 st2] [d | err]] eqn:El; [| by destruct (Store_Finish _ _ _ _)].
  apply (loop_draws re (Tr_Set tr) eq_refl eq_refl) in El; [| apply recording_starts | intros name; apply prefix_nil].
  destruct (conclude re _ _ _ _ _ d _) as [st3 [s | err]] eqn:Ec; destruct (Store_Finish _ _ _ _); [| done].
  intros [= <-]. apply conclude_evidence in Ec. by rewrite Ec.
Qed.

(** ** A recorded run, replayed *)

Definition demo_wire : Wire := mkWire (Eng_schema (demo_engine true)) (Eng_decode_propose (demo_engine true)) (Eng_decode_insufficient (demo_engine true)).

Definition thump_test_rig : Rig :=
  mkRig (fun _ => true) (fun _ => inl ""%string) (fun _ => inl [demo_action]) (fun _ => inl []) (fun _ => inl demo_policy) (fun _ => inl ([], []))
    (fun _ => inl []) (fun _ => ""%string) (inl "/repo"%string).

Definition paths_go : string := "/repo/internal/replay/paths.go".

Definition transcript_of {M : Type} (r : EngState (M := M) (S_ := MemStore) (WP := MemPub ProposalSet) (WJ := MemPub ProposalSet) * result ProposalSet)
  : Transcript :=
  let set := match r.2 with inl s => s | inr _ => Set_zero end in
  mkTranscript (Set_RunID set)
    (match list.last (MemStore_pending (Es_store r.1)) with Some t => completionsFrom (Turn_Msgs t) | None => [] end) set "run.jsonl".

Lemma demo_recordable : Recordable (demo_engine true).
Proof.
  split.
  - intros name tool args m m' ref Ht Hr. change (Eng_Tools (demo_engine true)) with ({["metrics"%string := demo_tool]} : gmap string (Tool (M := nat))) in Ht.
    apply lookup_singleton_Some in Ht as [<- <-]. simpl in Hr. by injection Hr as _ <-.
  - intros msgs specs m m' c Hc. simpl in Hc. by injection Hc as _ <-.
Defined.

Lemma replay_reproduces_the_run_witness :
  exists s2, replay_Propose thump_test_rig paths_go demo_wire demo_clock (transcript_of (demo_run 0)) demo_weights = inl s2 /\
    Set_Proposals s2 = Set_Proposals (Tr_Set (transcript_of (demo_run 0))) /\ length (Set_Proposals s2) = 1%nat.
Proof.
  destruct (replay_reproduces_the_run (demo_engine true) Background demo_clock demo_detection id (demo_engine_state 0) (demo_run 0).1
              (Tr_Set (transcript_of (demo_run 0))) (mkStatus PhaseProposed "" "" "" 0)
              (default (mkTurn "" 0 []) (list.last (MemStore_pending (Es_store (demo_run 0).1)))) thump_test_rig paths_go demo_wire [] demo_clock
              (transcript_of (demo_run 0)))
    as (s2 & Hs & Hsame); [exact demo_recordable | by intros p [=] | by intros p [=] | first [vm_compute; reflexivity | vm_compute; lia] .. |].
  exists s2. split; [exact Hs |]. destruct Hsame as (_ & _ & _ & _ & _ & _ & _ & _ & Hp & _). rewrite Hp. split; [reflexivity |]. vm_compute. reflexivity.
Defined.

Lemma replay_improvises_nothing_witness :
  exists s2, replay_Propose thump_test_rig paths_go demo_wire demo_clock (transcript_of (demo_run 0)) DefaultScoringWeights = inl s2 /\
    map EvidenceRef_Ref (Set_Evidence s2) = ["prom:1"%string] /\ drawn_from (Set_Evidence (Tr_Set (transcript_of (demo_run 0)))) (Set_Evidence s2).
Proof.
  pose (s2 := match replay_Propose thump_test_rig paths_go demo_wire demo_clock (transcript_of (demo_run 0)) DefaultScoringWeights with
              | inl s2 => s2 | inr _ => Set_zero end).
  assert (replay_Propose thump_test_rig paths_go demo_wire demo_clock (transcript_of (demo_run 0)) DefaultScoringWeights = inl s2) as E
    by (vm_compute; reflexivity).
  exists s2. split; [exact E |]. split; [vm_compute; reflexivity |]. exact (replay_improvises_nothing _ _ _ _ _ _ _ E).
Defined.

(** ** What a replay does not bring back *)

Definition with_velocity (velocity : string) (d : Detection) : Detection :=
  mkDetection (Detection_Name d) (Detection_Fingerprint d) (Detection_OriginService d) (Detection_ServiceTier d) (Detection_DetectorType d)
    (Detection_Divergence d) (Detection_Topology d) (Detection_Traffic d)
    (mkImpact (Impact_Severity (Detection_Impact d)) (mkBlastRadius f0 velocity 0)) (Detection_ContractRef d) (Detection_SLORef d) (Detection_DetectedAt d).

Definition rerun (r : EngState (M := nat) (S_ := MemStore) (WP := MemPub ProposalSet) (WJ := MemPub ProposalSet) * result ProposalSet)
  : result ProposalSet :=
  replay_Propose thump_test_rig paths_go demo_wire demo_clock (transcript_of r) demo_weights.

(** the snapshot froze the velocity the ranking was made at, and [detectionFrom] drops it *)
Example replay_forgets_velocity :
  let r := Propose (demo_engine true) Background demo_clock (with_velocity "accelerating" demo_detection) id (demo_engine_state 0) in
  match r.2, rerun r with
  | inl s, inl s2 => Set_RankingRationale s = Some (mkRankingRationale "time_to_effect" "accelerating") /\
                     Set_RankingRationale s2 = Some (mkRankingRationale "" "")
  | _, _ => False
  end.
Proof. vm_compute. auto. Qed.

(** the replay's case base is empty: a run scored down by the outcomes of its signal comes
    back with the confidence of a first run *)
Example replay_forgets_the_case_base :
  let e := demo_engine true in
  let never := Some (fun _ => Some f0) : option Prior in
  let warm := mkEngine (Eng_Intake e) (Eng_Complete e) (Eng_Tools e) (Eng_Catalog e) (Eng_FailureClasses e) (Eng_Store e) never never
                (Eng_DedupeWindow e) (Eng_HasPub e) (Eng_HasJournal e) (Eng_MaxSteps e) (Eng_Weights e) (Eng_schema e)
                (Eng_decode_propose e) (Eng_decode_insufficient e) in
  let r := Propose warm Background demo_clock demo_detection id (demo_engine_state 0) in
  match r.2, rerun r with
  | inl s, inl s2 => map Candidate_Confidence (Set_Proposals s) <> map Candidate_Confidence (Set_Proposals s2)
  | _, _ => False
  end.
Proof. vm_compute. discriminate. Qed.
