(* ===== verification/Anthropic.v ===== *)
(** * internal/anthropic: the Messages API adapter

    How a conversation and its tools are rendered for the Messages API, and how an answer is
    read back.  The SDK's client and JSON are parameters; [J] is a decoded JSON value. *)

From S2P Require Import Prelude ClankLedger ClankEngine Decimal.
Local Open Scope Z_scope.

Definition ModelClaudeSonnet5 : string := "claude-sonnet-5".

Inductive Block (J : Type) : Type :=
| TextBlock (text : string)
| ToolUseBlock (id : string) (input : option J) (name : string)
| ToolResultBlock (callID digest : string) (isError : bool).
Arguments TextBlock {J}. Arguments ToolUseBlock {J}. Arguments ToolResultBlock {J}.

(** a block and whether it is marked as a prompt-cache breakpoint *)
Record BlockParam (J : Type) : Type := mkBlockParam { BP_Block : Block J; BP_Cached : bool }.
Arguments mkBlockParam {J}. Arguments BP_Block {J}. Arguments BP_Cached {J}.

Record MessageParam (J : Type) : Type := mkMessageParam { MP_Role : string; MP_Content : list (BlockParam J) }.
Arguments mkMessageParam {J}. Arguments MP_Role {J}. Arguments MP_Content {J}.

Record InputSchema (J : Type) : Type := mkInputSchema { IS_Properties : J; IS_Extra : gmap string J }.
Arguments mkInputSchema {J}. Arguments IS_Properties {J}. Arguments IS_Extra {J}.

Record ToolParam (J : Type) : Type := mkToolParam { TP_Name : string; TP_Description : string; TP_InputSchema : InputSchema J; TP_Cached : bool }.
Arguments mkToolParam {J}. Arguments TP_Name {J}. Arguments TP_Description {J}. Arguments TP_InputSchema {J}. Arguments TP_Cached {J}.

Record Request (J : Type) : Type := mkRequest { Rq_Model : string; Rq_MaxTokens : Z; Rq_Messages : list (MessageParam J); Rq_Tools : list (ToolParam J) }.
Arguments mkRequest {J}. Arguments Rq_Model {J}. Arguments Rq_MaxTokens {J}. Arguments Rq_Messages {J}. Arguments Rq_Tools {J}.

(** a block of an answer; the kinds the adapter skips are one *)
Inductive AnswerBlock : Type := AnswerText (text : string) | AnswerToolUse (id name args : string) | AnswerOther.

Section adapter.
(** [unmarshal] decodes into [any]: [Some None] is a JSON null.  [unmarshal_doc] decodes into
    a map, for which a null is the nil map.  [empty] is the empty object. *)
Context {J : Type} (empty : J) (unmarshal : string -> option (option J)) (unmarshal_doc : string -> option (gmap string J)).

Definition toolInput (args : string) : option J :=
  if args =s "" then Some empty else match unmarshal args with None => Some empty | Some v => v end.

Definition message_blocks (msg : Message) : list (Block J) :=
  (if Message_Content msg =s "" then [] else [TextBlock (Message_Content msg)])
  ++ map (fun c => ToolUseBlock (ToolCall_ID c) (toolInput (ToolCall_Args c)) (ToolCall_Name c)) (Message_ToolCalls msg)
  ++ map (fun r => ToolResultBlock (ToolResult_CallID r) (ToolResult_Digest r) (ToolResult_IsError r)) (Message_ToolResults msg).

Definition message_param (msg : Message) : option (MessageParam J) :=
  match message_blocks msg with
  | [] => None
  | blocks => Some (mkMessageParam (if Message_Role msg =s "assistant" then "assistant" else "user") (map (fun b => mkBlockParam b false) blocks))
  end.

(** [f] on the last element *)
Definition on_last {A} (f : A -> A) (l : list A) : list A :=
  match list.last l with Some x => removelast l ++ [f x] | None => l end.

Definition toAnthropicMessageParams (msgs : list Message) : list (MessageParam J) :=
  on_last (fun p => mkMessageParam (MP_Role p) (on_last (fun b => mkBlockParam (BP_Block b) true) (MP_Content p))) (omap message_param msgs).

Definition skipped_key (k : string) : bool := existsb (String.eqb k) ["type"; "properties"; "$schema"; "$id"]%string.

Definition toAnthropicInputSchema (raw : string) : InputSchema J :=
  if raw =s "" then mkInputSchema empty ∅
  else match unmarshal_doc raw with
       | None => mkInputSchema empty ∅
       | Some doc => mkInputSchema (default empty (doc !! "properties"%string)) (filter (fun kv => skipped_key kv.1 = false) doc)
       end.

Definition toAnthropicToolParams (tools : list ToolSpec) : list (ToolParam J) :=
  on_last (fun t => mkToolParam (TP_Name t) (TP_Description t) (TP_InputSchema t) true)
    (map (fun t => mkToolParam (ToolSpec_Name t) (ToolSpec_Description t) (toAnthropicInputSchema (ToolSpec_InputSchema t)) false) tools).

Definition fromAnthropicMessage (content : list AnswerBlock) : Completion :=
  let '(text, calls) :=
    fold_left (fun acc b => match b with
                            | AnswerText t => (acc.1 +:+ t, acc.2)
                            | AnswerToolUse id name args => (acc.1, acc.2 ++ [mkToolCall id name args])
                            | AnswerOther => acc
                            end) content (""%string, []) in
  mkCompletion (mkMessage "assistant" text [] []) calls.

(** [client] is [Messages.New] *)
Definition Complete {M} (client : Request J -> M -> M * result (list AnswerBlock)) (model : string) (msgs : list Message)
  (tools : list ToolSpec) (m : M) : M * result Completion :=
  match client (mkRequest model 4096 (toAnthropicMessageParams msgs) (toAnthropicToolParams tools)) m with
  | (m', inr err) => (m', inr (errorf_w "anthropic complete: " err))
  | (m', inl content) => (m', inl (fromAnthropicMessage content))
  end.

End adapter.
