(* ===== verification/Gemini.v ===== *)
(** * internal/gemini: the Gemini adapter

    How a conversation and its tools are rendered for the Gemini API, each function call with
    the thought signature it was issued with, and how an answer is read back.  The SDK's client
    and JSON are parameters; [J] is a decoded JSON object. *)

From S2P Require Import Prelude ClankLedger ClankEngine Decimal.
Local Open Scope Z_scope.

Definition ModelGemini3_5FlashLite : string := "gemini-3.5-flash-lite".

Inductive Part (J : Type) : Type :=
| TextPart (text : string)
| CallPart (id name : string) (args : J) (signature : option string)
| ResponsePart (id name output : string).
Arguments TextPart {J}. Arguments CallPart {J}. Arguments ResponsePart {J}.

Record Content (J : Type) : Type := mkContent { Content_Role : string; Content_Parts : list (Part J) }.
Arguments mkContent {J}. Arguments Content_Role {J}. Arguments Content_Parts {J}.

Record Declaration (J : Type) : Type := mkDeclaration { Decl_Name : string; Decl_Description : string; Decl_Schema : option J }.
Arguments mkDeclaration {J}. Arguments Decl_Name {J}. Arguments Decl_Description {J}. Arguments Decl_Schema {J}.

(** the parts of an answer's candidates; a part without a function call is skipped *)
Inductive AnswerPart (J : Type) : Type := AnswerCall (id name : string) (args : J) (signature : string) | AnswerSkipped.
Arguments AnswerCall {J}. Arguments AnswerSkipped {J}.

Record Answer (J : Type) : Type := mkAnswer { Answer_Text : string; Answer_Candidates : list (list (AnswerPart J)) }.
Arguments mkAnswer {J}. Arguments Answer_Text {J}. Arguments Answer_Candidates {J}.

Record Request (J : Type) : Type := mkRequest {
  Rq_Model : string; Rq_Contents : list (Content J); Rq_MaxOutputTokens : Z; Rq_Tools : list (Declaration J); Rq_ThinkingLevel : option string
}.
Arguments mkRequest {J}. Arguments Rq_Model {J}. Arguments Rq_Contents {J}. Arguments Rq_MaxOutputTokens {J}. Arguments Rq_Tools {J}.
Arguments Rq_ThinkingLevel {J}.

Section adapter.
(** [J] is a decoded JSON object; a null decodes to the nil map, which is [empty] too *)
Context {J : Type} (empty : J) (unmarshal : string -> option J) (marshal : J -> result string).

Definition call_args (args : string) : J := default empty (unmarshal args).

Definition message_parts (thoughtSigs : gmap string string) (msg : Message) : list (Part J) :=
  (if Message_Content msg =s "" then [] else [TextPart (Message_Content msg)])
  ++ map (fun c => CallPart (ToolCall_ID c) (ToolCall_Name c) (call_args (ToolCall_Args c)) (thoughtSigs !! ToolCall_ID c)) (Message_ToolCalls msg)
  ++ map (fun r => ResponsePart (ToolResult_CallID r) (ToolResult_Name r) (ToolResult_Digest r)) (Message_ToolResults msg).

Definition message_content (thoughtSigs : gmap string string) (msg : Message) : option (Content J) :=
  match message_parts thoughtSigs msg with
  | [] => None
  | parts => Some (mkContent (if Message_Role msg =s "assistant" then "model" else "user") parts)
  end.

Definition toGeminiContents (thoughtSigs : gmap string string) (msgs : list Message) : list (Content J) :=
  omap (message_content thoughtSigs) msgs.

Definition toGeminiParametersSchema (raw : string) : option J := if raw =s "" then None else unmarshal raw.

Definition toGeminiToolParams (tools : list ToolSpec) : list (Declaration J) :=
  map (fun t => mkDeclaration (ToolSpec_Name t) (ToolSpec_Description t) (toGeminiParametersSchema (ToolSpec_InputSchema t))) tools.

(** one part after another: the calls so far and the signatures *)
Fixpoint read_parts (parts : list (AnswerPart J)) (sigs : gmap string string) (calls : list ToolCall)
  : gmap string string * result (list ToolCall) :=
  match parts with
  | [] => (sigs, inl calls)
  | AnswerSkipped :: parts' => read_parts parts' sigs calls
  | AnswerCall id name args signature :: parts' =>
      match marshal args with
      | inr err => (sigs, inr (errorf_w "gemini marshal tool args: " err))
      | inl raw => read_parts parts' (if signature =s "" then sigs else <[id := signature]> sigs) (calls ++ [mkToolCall id name raw])
      end
  end.

(** [client] is [Models.GenerateContent]; the model's signatures are beside its state *)
Definition Complete {M} (client : Request J -> M -> M * result (Answer J)) (model thinkingLevel : string) (msgs : list Message)
  (tools : list ToolSpec) (st : M * gmap string string) : (M * gmap string string) * result Completion :=
  let rq := mkRequest model (toGeminiContents st.2 msgs) 4096 (toGeminiToolParams tools)
              (if thinkingLevel =s "" then None else Some thinkingLevel) in
  match client rq st.1 with
  | (m', inr err) => ((m', st.2), inr (errorf_w "gemini complete: " err))
  | (m', inl resp) =>
      match read_parts (concat (Answer_Candidates resp)) st.2 [] with
      | (sigs, inr err) => ((m', sigs), inr err)
      | (sigs, inl calls) => ((m', sigs), inl (mkCompletion (mkMessage "assistant" (Answer_Text resp) [] []) calls))
      end
  end.

End adapter.
