(* ===== verification/Models.v ===== *)
(** * internal/modelsel, and what the model adapters keep

    [For] picks an adapter by name.  The theorems say that the reason loop never shows a model
    a tool call without its answer, and that a Gemini call is replayed with the signature it
    was issued with. *)

From S2P Require Import Prelude GoTime Api ClankLedger ClankEngine Decimal.
From S2P Require Anthropic Gemini.
Local Open Scope Z_scope.

(** ** internal/modelsel *)

Definition RequestTimeout : Duration := 120 * Second.

(** what to build: the provider, its key, its model and, for Anthropic, the timeout of a call *)
Inductive ModelChoice : Type :=
| UseAnthropic (key model : string) (timeout : Duration)
| UseGemini (key model thinkingLevel : string).

(** the model, the variable a missing key names, or an error; [gemini_NewClient] fails with
    its reason, and [haiku] and [low] are constants of the providers' libraries *)
Definition For (haiku low : string) (getenv : string -> string) (gemini_NewClient : string -> option error) (name : string) : result (ModelChoice + string) :=
  let anthropic model :=
    let key := getenv "ANTHROPIC_API_KEY"%string in
    if key =s "" then inl (inr "ANTHROPIC_API_KEY"%string) else inl (inl (UseAnthropic key model RequestTimeout)) in
  if name =s "haiku" then anthropic haiku
  else if name =s "sonnet" then anthropic Anthropic.ModelClaudeSonnet5
  else if name =s "gemini-low" then
    let key := getenv "GEMINI_API_KEY"%string in
    if key =s "" then inl (inr "GEMINI_API_KEY"%string)
    else match gemini_NewClient key with
         | Some err => inr (errorf_w "build gemini model: " (errorf_w "gemini client: " err))
         | None => inl (inl (UseGemini key Gemini.ModelGemini3_5FlashLite low))
         end
  else inr (errors_New ("unknown -model " +:+ fmt_q name +:+ ": want haiku, sonnet, or gemini-low")).

(** ** No call without its answer *)

(** what a provider demands of a conversation: a message answers exactly the tool calls of
    the one before it, in order, only the assistant calls tools, and nothing is left open *)
Section paired.
Context {A : Type} (role : A -> string) (asks answers : A -> list string).

Definition pair_step (st : option (list string)) (m : A) : option (list string) :=
  match st with
  | None => None
  | Some opened =>
      if bool_decide (answers m = opened) && (bool_decide (asks m = []) || (role m =s "assistant")) then Some (asks m) else None
  end.

Definition paired (msgs : list A) : bool := bool_decide (fold_left pair_step msgs (Some []) = Some []).
End paired.

Definition block_asks {J} (b : Anthropic.Block J) : list string := match b with Anthropic.ToolUseBlock id _ _ => [id] | _ => [] end.
Definition block_answers {J} (b : Anthropic.Block J) : list string := match b with Anthropic.ToolResultBlock id _ _ => [id] | _ => [] end.

Definition param_ids {J} (f : Anthropic.Block J -> list string) (p : Anthropic.MessageParam J) : list string :=
  flat_map (fun b => f (Anthropic.BP_Block b)) (Anthropic.MP_Content p).

(** the conversation as the Messages API receives it *)
Definition api_accepts {J} (ps : list (Anthropic.MessageParam J)) : bool :=
  paired Anthropic.MP_Role (param_ids block_asks) (param_ids block_answers) ps.

Definition msg_asks (m : Message) : list string := map ToolCall_ID (Message_ToolCalls m).
Definition msg_answers (m : Message) : list string := map ToolResult_CallID (Message_ToolResults m).

Definition msg_step := pair_step Message_Role msg_asks msg_answers.

Lemma on_last_map {A B} (f : A -> A) (g : A -> B) (l : list A) : (forall x, g (f x) = g x) -> map g (Anthropic.on_last f l) = map g l.
Proof.
  intros Hf. unfold Anthropic.on_last. destruct l as [| x l _] using rev_ind; [done |]. rewrite last_snoc, removelast_last, !map_app. simpl. by rewrite Hf.
Qed.

Lemma on_last_flat {A B} (f : A -> A) (g : A -> list B) (l : list A) : (forall x, g (f x) = g x) -> flat_map g (Anthropic.on_last f l) = flat_map g l.
Proof. intros Hf. rewrite !flat_map_concat_map, on_last_map; done. Qed.

Lemma pair_fold_map {A B} (role : A -> string) asks answers (role' : B -> string) asks' answers' (xs : list A) (ys : list B) st :
  map (fun x => (role x, asks x, answers x)) xs = map (fun y => (role' y, asks' y, answers' y)) ys ->
  fold_left (pair_step role asks answers) xs st = fold_left (pair_step role' asks' answers') ys st.
Proof.
  revert ys st. induction xs as [| x xs IH]; intros [| y ys] st; simpl; [done..|]. intros [= Hr Ha Hn Hxs].
  rewrite (IH ys) by done. f_equal. unfold pair_step. by rewrite Hr, Ha, Hn.
Qed.

Section render.
Context {J : Type} (empty : J) (unmarshal : string -> option (option J)).

Lemma message_blocks_ids msg :
  flat_map block_asks (Anthropic.message_blocks empty unmarshal msg) = msg_asks msg /\
  flat_map block_answers (Anthropic.message_blocks empty unmarshal msg) = msg_answers msg.
Proof.
  unfold Anthropic.message_blocks, msg_asks, msg_answers. rewrite !flat_map_app.
  assert (forall (f : Anthropic.Block J -> list string), f (Anthropic.TextBlock (Message_Content msg)) = [] ->
    flat_map f (if Message_Content msg =s "" then [] else [Anthropic.TextBlock (Message_Content msg)]) = []) as Ht
    by (intros f Hf; destruct (_ =s ""); simpl; rewrite ?Hf; done).
  rewrite !Ht by done. simpl. split.
  - induction (Message_ToolCalls msg) as [| c cs IH]; simpl; [| by rewrite IH]. by induction (Message_ToolResults msg).
  - replace (flat_map block_answers (map _ (Message_ToolCalls msg))) with (@nil string) by (by induction (Message_ToolCalls msg)).
    simpl. induction (Message_ToolResults msg) as [| r rs IH]; simpl; [done | by rewrite IH].
Qed.

Lemma message_param_ids msg p : Anthropic.message_param empty unmarshal msg = Some p ->
  param_ids block_asks p = msg_asks msg /\ param_ids block_answers p = msg_answers msg /\
  (Anthropic.MP_Role p =s "assistant") = (Message_Role msg =s "assistant").
Proof.
  unfold Anthropic.message_param. destruct (message_blocks_ids msg) as [H1 H2]. revert H1 H2.
  assert (forall (f : Anthropic.Block J -> list string) bs role, param_ids f (Anthropic.mkMessageParam role (map (fun b => Anthropic.mkBlockParam b false) bs)) = flat_map f bs) as Hids.
  { intros f bs role. unfold param_ids. simpl. induction bs as [| b bs IH]; simpl; [done | by rewrite IH]. }
  destruct (Anthropic.message_blocks empty unmarshal msg) as [| b bs]; [done |]. intros H1 H2 [= <-].
  split; [etransitivity; [exact (Hids block_asks (b :: bs) _) | exact H1] |].
  split; [etransitivity; [exact (Hids block_answers (b :: bs) _) | exact H2] |]. simpl. by destruct (Message_Role msg =s "assistant").
Qed.

(** rendering loses only messages that ask and answer nothing *)
Lemma message_param_None msg : Anthropic.message_param empty unmarshal msg = None -> msg_asks msg = [] /\ msg_answers msg = [].
Proof.
  unfold Anthropic.message_param. destruct (message_blocks_ids msg) as [H1 H2].
  destruct (Anthropic.message_blocks empty unmarshal msg); [| done]. by rewrite <- H1, <- H2.
Qed.

Lemma render_step st msg :
  fold_left (pair_step Anthropic.MP_Role (param_ids block_asks) (param_ids block_answers))
    (option_list (Anthropic.message_param empty unmarshal msg)) st = msg_step st msg \/ msg_step st msg = None.
Proof.
  destruct (Anthropic.message_param empty unmarshal msg) as [p |] eqn:E; simpl.
  - left. destruct (message_param_ids _ _ E) as (H1 & H2 & H3). unfold msg_step, pair_step. by rewrite H1, H2, H3.
  - apply message_param_None in E as [H1 H2]. unfold msg_step, pair_step. destruct st as [opened |]; [| by left]. rewrite H1, H2.
    destruct (decide ([] = opened)) as [<- | Hne]; [by left |]. right. by rewrite bool_decide_eq_false_2.
Qed.

Lemma pair_None {A} role asks answers (l : list A) : fold_left (pair_step role asks answers) l None = None.
Proof. by induction l. Qed.

Lemma render_fold msgs : forall st x, fold_left msg_step msgs st = Some x ->
  fold_left (pair_step Anthropic.MP_Role (param_ids block_asks) (param_ids block_answers)) (omap (Anthropic.message_param empty unmarshal) msgs) st = Some x.
Proof.
  induction msgs as [| msg msgs IH]; intros st x; [done |]. cbn [fold_left omap list_omap]. intros Hx.
  destruct (render_step st msg) as [E | E]; [| by rewrite E, (pair_None Message_Role msg_asks msg_answers) in Hx].
  destruct (Anthropic.message_param empty unmarshal msg) as [p |] eqn:Ep; cbn [option_list option_rect fold_left] in E |- *; apply IH; by rewrite E.
Qed.

Lemma render_paired msgs : fold_left msg_step msgs (Some []) = Some [] ->
  api_accepts (Anthropic.toAnthropicMessageParams empty unmarshal msgs) = true.
Proof.
  intros Hm. apply bool_decide_eq_true_2. etransitivity; [| exact (render_fold _ _ _ Hm)]. unfold Anthropic.toAnthropicMessageParams.
  apply pair_fold_map, on_last_map.
  intros p. simpl. unfold param_ids. simpl. by rewrite !on_last_flat.
Qed.

End render.

(** *** What the engine says *)

Section engine.
Context {M S_ : Type} (e : Engine (M := M) (S_ := S_)).

Lemma withCallIDs_names calls step : map ToolCall_Name (withCallIDs calls step) = map ToolCall_Name calls.
Proof.
  unfold withCallIDs. apply list_eq. intros i. rewrite !list_lookup_fmap, list_lookup_imap. destruct (calls !! i) as [c |]; [| done]. simpl.
  by destruct (ToolCall_ID c =s "").
Qed.

(** a turn that goes on has answered every call, in order *)
Lemma dispatch_answers calls : forall d res m m' d' res',
  dispatch_calls e calls d res m = (m', inl (d', res')) -> finished d' = false ->
  map ToolResult_CallID res' = map ToolResult_CallID res ++ map ToolCall_ID calls.
Proof.
  induction calls as [| call calls IH]; intros d res m m' d' res'; cbn [dispatch_calls]; [intros [= <- <- <-]; by rewrite app_nil_r |].
  destruct (_ =s "propose"); [destruct (Eng_decode_propose e _) as [p | err]; [| done]; by intros [= <- <- <-] |].
  destruct (_ =s "insufficient"); [destruct (Eng_decode_insufficient e _) as [p | err]; [| done]; intros [= <- <- <-]; unfold finished; simpl; by rewrite orb_true_r |].
  destruct (Eng_Tools e !! _) as [tool |].
  - destruct (Tool_Run tool _ m) as [m1 [ref | err]]; [| done]. intros Hd Hf. rewrite (IH _ _ _ _ _ _ Hd Hf), map_app, <- app_assoc. done.
  - intros Hd Hf. rewrite (IH _ _ _ _ _ _ Hd Hf), map_app, <- app_assoc. done.
Qed.

(** the engine on a stricter model *)
Definition with_complete (complete : list Message -> list ToolSpec -> M -> M * result Completion) : Engine (M := M) (S_ := S_) :=
  mkEngine (Eng_Intake e) complete (Eng_Tools e) (Eng_Catalog e) (Eng_FailureClasses e) (Eng_Store e) (Eng_ScorerPrior e) (Eng_Prior e)
    (Eng_DedupeWindow e) (Eng_HasPub e) (Eng_HasJournal e) (Eng_MaxSteps e) (Eng_Weights e) (Eng_schema e) (Eng_decode_propose e) (Eng_decode_insufficient e).

(** a model that refuses a conversation its provider would refuse *)
Definition strict {J} (empty : J) (unmarshal : string -> option (option J)) (msgs : list Message) (specs : list ToolSpec) (m : M)
  : M * result Completion :=
  if api_accepts (Anthropic.toAnthropicMessageParams empty unmarshal msgs) then Eng_Complete e msgs specs m
  else (m, inr (errors_New "400: tool_use ids were found without tool_result blocks immediately after")).

Hypothesis model_speaks : forall msgs specs m m' c, Eng_Complete e msgs specs m = (m', inl c) ->
  Message_Role (Completion_Message c) = "assistant"%string /\ Message_ToolResults (Completion_Message c) = [].

Lemma dispatch_strict complete calls : forall d res m, dispatch_calls (with_complete complete) calls d res m = dispatch_calls e calls d res m.
Proof.
  induction calls as [| call calls IH]; intros d res m; cbn [dispatch_calls]; [done |]. simpl.
  destruct (_ =s "propose"); [done |]. destruct (_ =s "insufficient"); [done |].
  destruct (Eng_Tools e !! _) as [tool |]; [| apply IH]. destruct (Tool_Run tool _ m) as [m1 [ref | err]]; [apply IH | done].
Qed.

Lemma turn_paired runID step msgs d m s m' s' d' msgs' :
  fold_left msg_step msgs (Some []) = Some [] -> turn e runID step msgs d m s = (m', s', inl (d', msgs')) -> finished d' = false ->
  fold_left msg_step msgs' (Some []) = Some [].
Proof.
  intros Hm. unfold turn. destruct (Eng_Complete e msgs _ m) as [m1 [comp | err]] eqn:Ec; [| done].
  destruct (model_speaks _ _ _ _ _ Ec) as [Hrole Hres]. destruct (Store_Checkpoint _ _ _) as [s1 [err |]]; [done |].
  destruct (withCallIDs _ step) as [| call calls] eqn:Ecalls; [intros [= <- <- <- <-]; unfold finished; simpl; by rewrite orb_true_r |].
  destruct (dispatch_calls e _ d [] m1) as [m2 [[d2 results] | err]] eqn:Ed; [| done]. intros [= <- <- <- <-] Hf.
  pose proof (dispatch_answers _ _ _ _ _ _ _ Ed Hf) as Hans. destruct results as [| r results]; [done |].
  rewrite !fold_left_app, Hm. cbn [fold_left].
  assert (msg_step (Some []) (mkMessage (Message_Role (Completion_Message comp)) (Message_Content (Completion_Message comp)) (call :: calls)
            (Message_ToolResults (Completion_Message comp))) = Some (map ToolCall_ID (call :: calls))) as ->.
  { unfold msg_step, pair_step, msg_answers, msg_asks. simpl. by rewrite Hres, Hrole. }
  unfold msg_step, pair_step. replace (msg_answers _) with (map ToolCall_ID (call :: calls)) by (rewrite <- (app_nil_l (map _ _)); symmetry; exact Hans).
  by rewrite bool_decide_eq_true_2.
Qed.

(** C37. No model is shown a tool call without its answer: against a provider that refuses
    any conversation in which a message does not answer exactly the calls of the message
    before it, the reason loop runs as it does against one that accepts everything, for
    every model that speaks as the assistant, every set of tools and every number of steps. *)
Theorem calls_are_answered {J} (empty : J) (unmarshal : string -> option (option J)) runID fuel content d m s :
  reason_loop (with_complete (strict empty unmarshal)) runID fuel 0 [mkMessage "user" content [] []] d m s =
  reason_loop e runID fuel 0 [mkMessage "user" content [] []] d m s.
Proof.
  assert (fold_left msg_step [mkMessage "user" content [] []] (Some []) = Some []) as Hm by done.
  revert Hm. generalize ([mkMessage "user" content [] []]) as msgs. generalize 0 as step. revert d m s.
  induction fuel as [| fuel IH]; intros d m s step msgs Hm; cbn [reason_loop]; [done |].
  assert (turn (with_complete (strict empty unmarshal)) runID step msgs d m s = turn e runID step msgs d m s) as ->.
  { unfold turn. change (Eng_Complete (with_complete _)) with (strict empty unmarshal). unfold strict at 1. rewrite render_paired by done.
    change (toolSpecs (with_complete _)) with (toolSpecs e). change (Eng_Store (with_complete _)) with (Eng_Store e).
    destruct (Eng_Complete e msgs _ m) as [m1 [comp | err]]; [| done]. destruct (Store_Checkpoint _ _ _) as [s1 [err |]]; [done |].
    destruct (withCallIDs _ step); [done |]. by rewrite dispatch_strict. }
  destruct (turn e runID step msgs d m s) as [[m1 s1] [[d1 msgs1] | err]] eqn:Et; [| done].
  destruct (finished d1) eqn:Ef; [done |]. apply IH. by eapply turn_paired.
Qed.

End engine.

(** both adapters speak as the assistant and answer nothing themselves *)
Lemma anthropic_speaks {J M} (empty : J) unmarshal unmarshal_doc (client : Anthropic.Request J -> M -> M * result (list Anthropic.AnswerBlock)) model
  msgs tools m m' c :
  Anthropic.Complete empty unmarshal unmarshal_doc client model msgs tools m = (m', inl c) ->
  Message_Role (Completion_Message c) = "assistant"%string /\ Message_ToolResults (Completion_Message c) = [].
Proof.
  unfold Anthropic.Complete, Anthropic.fromAnthropicMessage. destruct (client _ _) as [m1 [content | err]]; [| done].
  destruct (fold_left _ content _) as [text calls]. by intros [= _ <-].
Qed.

Lemma gemini_speaks {J M} (empty : J) unmarshal marshal (client : Gemini.Request J -> M -> M * result (Gemini.Answer J)) model level
  msgs tools st st' c :
  Gemini.Complete empty unmarshal marshal client model level msgs tools st = (st', inl c) ->
  Message_Role (Completion_Message c) = "assistant"%string /\ Message_ToolResults (Completion_Message c) = [].
Proof.
  unfold Gemini.Complete. destruct (client _ _) as [m1 [resp | err]]; [| done]. destruct (Gemini.read_parts _ _ _ _) as [sigs [calls | err]]; [| done].
  by intros [= _ <-].
Qed.

Lemma calls_are_answered_witness :
  let strict_demo := with_complete (demo_engine true) (strict (demo_engine true) tt (fun _ => None)) in
  reason_loop strict_demo "run" 6 0 [mkMessage "user" "why" [] []] Draft_zero 0%nat NewMemStore =
  reason_loop (demo_engine true) "run" 6 0 [mkMessage "user" "why" [] []] Draft_zero 0%nat NewMemStore /\
  match (reason_loop strict_demo "run" 6 0 [mkMessage "user" "why" [] []] Draft_zero 0%nat NewMemStore).2 with
  | inl d => Dr_proposed d = true /\ length (Dr_Evidence d) = 1%nat
  | inr _ => False
  end.
Proof.
  split; [| vm_compute; auto].
  apply (calls_are_answered (demo_engine true)). intros msgs specs m m' c Hc. unfold demo_engine in Hc. simpl in Hc. injection Hc as _ <-. auto.
Defined.

(** ** A Gemini call is replayed with its signature *)

Section signatures.
Context {J : Type} (empty : J) (unmarshal : string -> option J) (marshal : J -> result string).

(** arguments survive their JSON *)
Hypothesis unmarshal_marshal : forall args raw, marshal args = inl raw -> unmarshal raw = Some args.

Definition issued_id (p : Gemini.AnswerPart J) : list string := match p with Gemini.AnswerCall id _ _ _ => [id] | Gemini.AnswerSkipped => [] end.

(** the part a call is to be replayed as *)
Definition echo (p : Gemini.AnswerPart J) : list (Gemini.Part J) :=
  match p with
  | Gemini.AnswerCall id name args signature => [Gemini.CallPart id name args (if signature =s "" then None else Some signature)]
  | Gemini.AnswerSkipped => []
  end.

Abbreviation read_parts := (Gemini.read_parts marshal).

Lemma read_parts_other parts : forall sigs calls id, id ∉ flat_map issued_id parts -> (read_parts parts sigs calls).1 !! id = sigs !! id.
Proof.
  induction parts as [| [id' name args signature |] parts IH]; intros sigs calls id Hid; cbn [Gemini.read_parts]; [done | | by apply IH].
  simpl in Hid. apply not_elem_of_cons in Hid as [Hne Hid]. destruct (marshal args) as [raw | err]; [| done]. rewrite IH by done.
  destruct (signature =s ""); [done |]. by apply lookup_insert_ne.
Qed.

Lemma read_parts_echo parts : forall sigs calls sigs' calls', read_parts parts sigs calls = (sigs', inl calls') ->
  NoDup (flat_map issued_id parts) -> (forall id, id ∈ flat_map issued_id parts -> sigs !! id = None) ->
  exists added, calls' = calls ++ added /\ map ToolCall_ID added = flat_map issued_id parts /\
    map (fun c => Gemini.CallPart (ToolCall_ID c) (ToolCall_Name c) (Gemini.call_args empty unmarshal (ToolCall_Args c)) (sigs' !! ToolCall_ID c)) added =
    flat_map echo parts.
Proof.
  induction parts as [| [id name args signature |] parts IH]; intros sigs calls sigs' calls'; cbn [Gemini.read_parts flat_map issued_id echo app].
  - intros [= <- <-] _ _. exists []. by rewrite app_nil_r.
  - destruct (marshal args) as [raw | err] eqn:Em; [| done]. intros Hr [Hid Hnd]%list.NoDup_cons Hfresh.
    destruct (IH _ _ _ _ Hr Hnd) as (added & -> & Hids & Hecho).
    { intros id' Hin. destruct (signature =s ""); [| rewrite lookup_insert_ne by (by intros ->)]; apply Hfresh; by apply list_elem_of_further. }
    exists (mkToolCall id name raw :: added). split; [by rewrite <- app_assoc |]. simpl. rewrite Hids, Hecho. split; [done |]. f_equal.
    unfold Gemini.call_args. rewrite (unmarshal_marshal _ _ Em). simpl. f_equal.
    pose proof (read_parts_other parts (if signature =s "" then sigs else <[id:=signature]> sigs) (calls ++ [mkToolCall id name raw]) id Hid) as Hs.
    rewrite Hr in Hs. simpl in Hs. rewrite Hs. destruct (signature =s ""); [apply Hfresh, list_elem_of_here | apply lookup_insert_eq].
  - intros Hr Hnd Hfresh. by apply (IH _ _ _ _ Hr).
Qed.

Lemma withCallIDs_named calls step : "" ∉ map ToolCall_ID calls -> withCallIDs calls step = calls.
Proof.
  intros Hne. unfold withCallIDs. apply list_eq. intros i. rewrite list_lookup_imap. destruct (calls !! i) as [c |] eqn:E; [| done]. simpl.
  destruct (ToolCall_ID c =s "") eqn:Ec; [| done]. exfalso. apply Hne. apply String.eqb_eq in Ec. rewrite <- Ec. apply list_elem_of_fmap. exists c.
  split; [done |]. by eapply list_elem_of_lookup_2.
Qed.

(** C40. A Gemini call is replayed as it was issued: when an answer names its function calls
    apart, by identifiers that are new to the model, then in every later request, whatever
    other calls were issued in between, the assistant turn the engine made of the answer
    carries each call's name, arguments and signature. *)
Theorem signatures_are_echoed {M} (client : Gemini.Request J -> M -> M * result (Gemini.Answer J)) model level msgs tools m sigs m' sigs' c answer m1
  later step content :
  client (Gemini.mkRequest model (Gemini.toGeminiContents empty unmarshal sigs msgs) 4096 (Gemini.toGeminiToolParams unmarshal tools)
            (if level =s "" then None else Some level)) m = (m1, inl answer) ->
  Gemini.Complete empty unmarshal marshal client model level msgs tools (m, sigs) = ((m', sigs'), inl c) ->
  let parts := concat (Gemini.Answer_Candidates answer) in
  NoDup (flat_map issued_id parts) -> "" ∉ flat_map issued_id parts -> (forall id, id ∈ flat_map issued_id parts -> sigs !! id = None) ->
  (forall id, id ∈ flat_map issued_id parts -> id ∉ flat_map issued_id later) ->
  Gemini.message_parts empty unmarshal (read_parts later sigs' []).1 (mkMessage "assistant" content (withCallIDs (Completion_ToolCalls c) step) []) =
  (if content =s "" then [] else [Gemini.TextPart content]) ++ flat_map echo parts.
Proof.
  intros Hc Hcomp parts Hnd Hne Hfresh Hlater. unfold Gemini.Complete in Hcomp. cbn [fst snd] in Hcomp. rewrite Hc in Hcomp. fold parts in Hcomp.
  destruct (read_parts parts sigs []) as [sigs1 [calls | err]] eqn:Er; [| done]. injection Hcomp as _ <- <-.
  destruct (read_parts_echo _ _ _ _ _ Er Hnd Hfresh) as (added & -> & Hids & Hecho). simpl. unfold Gemini.message_parts. simpl.
  rewrite withCallIDs_named, app_nil_r by (by rewrite Hids). f_equal. rewrite <- Hecho. apply map_ext_in. intros call Hin. f_equal.
  apply read_parts_other, Hlater. rewrite <- Hids. apply list_elem_of_fmap. exists call. split; [done |]. by apply list_elem_of_In.
Qed.

End signatures.

Definition demo_gemini (rq : Gemini.Request string) (n : nat) : nat * result (Gemini.Answer string) :=
  (S n, inl (Gemini.mkAnswer "looking" [[Gemini.AnswerCall "fc-1" "metrics" "{}" "sig-1"; Gemini.AnswerSkipped; Gemini.AnswerCall "fc-2" "loki" "{}" ""]]%string)).

Definition demo_complete := Gemini.Complete ""%string Some inl demo_gemini Gemini.ModelGemini3_5FlashLite "" [] [] (0%nat, ∅).

Lemma signatures_are_echoed_witness :
  let sigs := (Gemini.read_parts (@inl string error) [Gemini.AnswerCall "fc-3" "kube" "{}" "sig-3"]%string demo_complete.1.2 []).1 in
  Gemini.message_parts ""%string Some sigs
    (mkMessage "assistant" "looking" (match demo_complete.2 with inl c => withCallIDs (Completion_ToolCalls c) 0 | inr _ => [] end) []) =
  [Gemini.TextPart "looking"; Gemini.CallPart "fc-1" "metrics" "{}" (Some "sig-1"); Gemini.CallPart "fc-2" "loki" "{}" None]%string.
Proof.
  assert (forall args raw, @inl string error args = inl raw -> Some raw = Some args) as Hjson by (by intros args raw [= ->]).
  pose proof (signatures_are_echoed ""%string Some inl Hjson
    demo_gemini Gemini.ModelGemini3_5FlashLite "" [] [] 0%nat ∅ 1%nat demo_complete.1.2
    (match demo_complete.2 with inl c => c | inr _ => mkCompletion (mkMessage "" "" [] []) [] end)
    (Gemini.mkAnswer "looking" [[Gemini.AnswerCall "fc-1" "metrics" "{}" "sig-1"; Gemini.AnswerSkipped; Gemini.AnswerCall "fc-2" "loki" "{}" ""]]%string)
    1%nat [Gemini.AnswerCall "fc-3" "kube" "{}" "sig-3"]%string 0 "looking" eq_refl) as H.
  apply H; [vm_compute; reflexivity | | | intros id _; apply lookup_empty |].
  - vm_compute. repeat constructor; set_solver.
  - vm_compute. set_solver.
  - vm_compute. intros id Hid. set_solver.
Defined.

(** a call without an identifier gets one from the engine only after its signature was filed
    under the empty one: it is replayed unsigned *)
Example unnamed_call_loses_its_signature :
  let client rq (n : nat) := (S n, inl (Gemini.mkAnswer "" [[Gemini.AnswerCall "" "metrics" "{}" "sig-1"]]%string)) : nat * result (Gemini.Answer string) in
  match Gemini.Complete ""%string Some inl client Gemini.ModelGemini3_5FlashLite "" [] [] (0%nat, ∅) with
  | ((_, sigs), inl c) =>
      sigs !! ""%string = Some "sig-1"%string /\
      Gemini.message_parts ""%string Some sigs (mkMessage "assistant" "" (withCallIDs (Completion_ToolCalls c) 0) []) =
      [Gemini.CallPart "call_0_0" "metrics" "{}" None]%string
  | _ => False
  end.
Proof. vm_compute. auto. Qed.

(** arguments that are a JSON null decode, and so reach the request as the nil value the
    fallback is there to keep out of it *)
Example null_input_is_nil : Anthropic.toolInput tt (fun raw => if raw =s "null" then Some None else None) "null" = None.
Proof. reflexivity. Qed.
