(* ===== verification/Probe.v ===== *)
(** * internal/probe: independent runs of one detection

    [ProbeEngine] and [ProbeReset] (clank/probe.go), the row of a run and its text, the samples
    and their fold, and [Main].  Rca has the theorems, which tie the fold to the graded suite's
    rows. *)

From Stdlib Require Import Ascii.
From S2P Require Import Prelude GoTime GoFloat Api Contract Hiss Publish ThumpExec ClankScore ClankLedger ClankEngine Decimal Strings Config Evidence Filepath Validate Archive Replay Models.
Local Open Scope Z_scope.

Record Row : Type := mkRow {
  Row_Run : Z;
  Row_Phase : string;
  Row_Reason : string;
  Row_ContractRef : string;
  Row_Confidence : float64;
  Row_Computed : float64;
  Row_Ceiling : bool;
  Row_Terms : ConfidenceTerms;
  Row_Citations : list string
}.

Definition rowFor (run : Z) (set : ProposalSet) : Row :=
  let '(phase, reason) := match Set_Status set with Some st => (Status_Phase st, Status_Reason st) | None => ("", "")%string end in
  match find_first (fun c => Candidate_ID c =s Set_Recommended set) (Set_Proposals set) with
  | None => mkRow run phase reason "" f0 f0 false ConfidenceTerms_zero []
  | Some c => mkRow run phase reason (Candidate_ContractRef c) (Candidate_Confidence c) (Candidate_ComputedConfidence c)
                (Candidate_ConfidenceCeilingBound c) (Candidate_Terms c) (Candidate_Citations c)
  end.

(** summary.go *)
Record Spread : Type := mkSpread { Spread_Min : float64; Spread_Mean : float64; Spread_Max : float64 }.

Record Sample : Type := mkSample {
  Sample_Proposed : bool;
  Sample_Confidence : float64;
  Sample_Computed : float64;
  Sample_Ceiling : bool;
  Sample_Corroborated : Z
}.

Record Summary : Type := mkSummary {
  Sum_N : Z;
  Sum_NoProposal : Z;
  Sum_Floor : float64;
  Sum_UnderFloor : Z;
  Sum_AutoApproved : Z;
  Sum_BoundEvidence : Z;
  Sum_BoundSelfReport : Z;
  Sum_Confidence : Spread;
  Sum_Corroborated : Spread
}.

(** the fold's state: the summary so far, the two sums and the number counted *)
Record Fold : Type := mkFold { Fold_s : Summary; Fold_conf : float64; Fold_corr : float64; Fold_counted : Z }.

Definition widen (counted : Z) (sp : Spread) (x : float64) : Spread :=
  if counted =? 0 then mkSpread x (Spread_Mean sp) x else mkSpread (fmin (Spread_Min sp) x) (Spread_Mean sp) (fmax (Spread_Max sp) x).

Definition fold_sample (floor : float64) (f : Fold) (sm : Sample) : Fold :=
  let s := Fold_s f in
  if negb (Sample_Proposed sm)
  then mkFold (mkSummary (Sum_N s) (Sum_NoProposal s + 1) (Sum_Floor s) (Sum_UnderFloor s + 1) (Sum_AutoApproved s)
                 (Sum_BoundEvidence s + 1) (Sum_BoundSelfReport s) (Sum_Confidence s) (Sum_Corroborated s))
         (Fold_conf f) (Fold_corr f) (Fold_counted f)
  else
    let corroborated := of_int (Sample_Corroborated sm) in
    let conf := widen (Fold_counted f) (Sum_Confidence s) (Sample_Confidence sm) in
    let corr := widen (Fold_counted f) (Sum_Corroborated s) corroborated in
    let '(under, auto, ev, self) :=
      if fle floor (Sample_Confidence sm)
      then (Sum_UnderFloor s, Sum_AutoApproved s + 1, Sum_BoundEvidence s, Sum_BoundSelfReport s)
      else if flt (Sample_Computed sm) floor
      then (Sum_UnderFloor s + 1, Sum_AutoApproved s, Sum_BoundEvidence s + 1, Sum_BoundSelfReport s)
      else (Sum_UnderFloor s + 1, Sum_AutoApproved s, Sum_BoundEvidence s, Sum_BoundSelfReport s + 1) in
    mkFold (mkSummary (Sum_N s) (Sum_NoProposal s) (Sum_Floor s) under auto ev self conf corr)
      (fadd (Fold_conf f) (Sample_Confidence sm)) (fadd (Fold_corr f) corroborated) (Fold_counted f + 1).

Definition with_mean (sp : Spread) (m : float64) : Spread := mkSpread (Spread_Min sp) m (Spread_Max sp).

Definition Spread_zero : Spread := mkSpread f0 f0 f0.

Definition Summarize (samples : list Sample) (floor : float64) : Summary :=
  let f := fold_left (fold_sample floor) samples
             (mkFold (mkSummary (Z.of_nat (length samples)) 0 floor 0 0 0 0 Spread_zero Spread_zero) f0 f0 0) in
  let s := Fold_s f in
  if 0 <? Fold_counted f
  then mkSummary (Sum_N s) (Sum_NoProposal s) (Sum_Floor s) (Sum_UnderFloor s) (Sum_AutoApproved s) (Sum_BoundEvidence s) (Sum_BoundSelfReport s)
         (with_mean (Sum_Confidence s) (fdiv (Fold_conf f) (of_int (Fold_counted f))))
         (with_mean (Sum_Corroborated s) (fdiv (Fold_corr f) (of_int (Fold_counted f))))
  else s.

Definition render_spread (p : nat) (sp : Spread) : string :=
  "[min=" +:+ fmt_f p (Spread_Min sp) +:+ " mean=" +:+ fmt_f p (Spread_Mean sp) +:+ " max=" +:+ fmt_f p (Spread_Max sp) +:+ "]".

Definition RenderSummary (s : Summary) : string :=
  "n=" +:+ fmt_d (Sum_N s) +:+ " autoApproved=" +:+ fmt_d (Sum_AutoApproved s) +:+ "/" +:+ fmt_d (Sum_N s) +:+ " underFloor=" +:+ fmt_d (Sum_UnderFloor s)
  +:+ "/" +:+ fmt_d (Sum_N s) +:+ " (floor=" +:+ fmt_f 2 (Sum_Floor s) +:+ ") boundBy[evidence=" +:+ fmt_d (Sum_BoundEvidence s)
  +:+ " self-report=" +:+ fmt_d (Sum_BoundSelfReport s) +:+ "] noProposal=" +:+ fmt_d (Sum_NoProposal s) +:+ " confidence"
  +:+ render_spread 2 (Sum_Confidence s) +:+ " corroborated" +:+ render_spread 1 (Sum_Corroborated s) +:+ newline.

Definition samples (rows : list Row) : list Sample :=
  map (fun r => mkSample (negb (Row_ContractRef r =s "")) (Row_Confidence r) (Row_Computed r) (Row_Ceiling r)
                  (ConfidenceTerms_Corroborated (Row_Terms r))) rows.

(** one printed row of the table *)
Definition render_row (r : Row) : string :=
  pad_right 3 (fmt_d (Row_Run r)) +:+ " " +:+ pad_right 14 (Row_Phase r) +:+ " " +:+ pad_right 28 (Row_ContractRef r) +:+ " confidence="
  +:+ fmt_f 2 (Row_Confidence r) +:+ " computed=" +:+ fmt_f 2 (Row_Computed r) +:+ " ceiling=" +:+ pad_right 5 (if Row_Ceiling r then "BOUND" else "-")
  +:+ " grounding=" +:+ fmt_f 1 (ConfidenceTerms_Grounding (Row_Terms r)) +:+ " corroborated=" +:+ fmt_d (ConfidenceTerms_Corroborated (Row_Terms r)) +:+ " "
  +:+ Row_Reason r +:+ newline.

Definition render_rows (rows : list Row) (detection : string) (floor : float64) : string :=
  String.concat "" (map render_row rows) +:+ newline +:+ fmt_d (Z.of_nat (length rows)) +:+ " probe run(s) against " +:+ detection
  +:+ " — read-only, nothing published or journaled" +:+ newline +:+ RenderSummary (Summarize (samples rows) floor).

(** *** The runs *)

Section run.
Context {M WP WJ : Type} `{PublisherLaws WP ProposalSet} `{PublisherLaws WJ ProposalSet}.
Abbreviation Eng := (Engine (M := M) (S_ := MemStore)).
Abbreviation St := (EngState (M := M) (S_ := MemStore) (WP := WP) (WJ := WJ)).

(** clank/probe.go: an engine with no publisher and no journal; the intake and the tools
    are those [buildIntake] and [buildTools] built *)
Definition ProbeEngine (intake : result (Intake (M := M))) (tools : gmap string (Tool (M := M))) (cat : StaticCatalog)
  (classes : list FailureClassDefinition) (complete : list Message -> list ToolSpec -> M -> M * result Completion)
  (weights : ScoringWeights) (limits : Limits) (dedupe : Duration) (schema : string -> string)
  (dp : string -> result proposeInput) (di : string -> result insufficientInput) : result Eng :=
  match intake with
  | inr err => inr (errorf_w "build intake: " err)
  | inl intake =>
      let cases := Alignment (mkCaseBase (Limits_MaxCases limits) []) in
      inl (mkEngine intake complete tools cat classes (mkStore (MemStore_Checkpoint Background) (MemStore_Finish Background))
             (Some cases) (Some cases) dedupe false false (Limits_MaxSteps limits) weights schema dp di)
  end.

Definition ProbeReset (st : St) : St :=
  mkEngState (Es_env st) NewMemStore NewMemProposalLog (Es_pub st) (Es_journal st).

(** [todo] runs from the [i]th; [ck] is the clock of each run *)
Fixpoint run_from (e : Eng) (ctx : context) (ck : nat -> Clock) (det : Detection) (todo i : nat) (st : St) (rows : list Row)
  : St * result (list Row) :=
  match todo with
  | O => (st, inl rows)
  | S todo' =>
      match Propose e ctx (ck i) det id (ProbeReset st) with
      | (st1, inr err) => (st1, inr (errorf_w ("propose run " +:+ fmt_d (Z.of_nat i) +:+ ": ") err))
      | (st1, inl set) => run_from e ctx ck det todo' (S i) st1 (rows ++ [rowFor (Z.of_nat i) set])
      end
  end.

Definition Run (e : Eng) (ctx : context) (ck : nat -> Clock) (det : Detection) (n : nat) (st : St) : St * result (list Row) :=
  run_from e ctx ck det n 1 st [].

End run.

(** *** [Main] *)

Record Flags : Type := mkFlags { fl_detection : string; fl_runs : Z; fl_json : bool; fl_floor : float64; fl_model : string }.

Definition clankConfig (cfg : ProbeConfig) : ClankConfig :=
  mkClankConfig "" "" "" 0 "" "" (PC_PromURL cfg) (PC_EvidenceQueries cfg) (PC_LokiURL cfg) "" (PC_WhirCatalog cfg) (PC_WhirStateQueries cfg)
    "" 0 false "" "" "" "" "" "" "" BrokerStore_zero.

Definition loadDetection (ReadFile : string -> result string) (Unmarshal : string -> result Detection) (path : string) : result Detection :=
  match ReadFile path with
  | inr err => inr (errorf_w ("read detection " +:+ path +:+ ": ") err)
  | inl raw => match Unmarshal raw with
               | inr err => inr (errorf_w ("decode detection " +:+ path +:+ ": ") err)
               | inl det => inl det
               end
  end.

Section main.
Context {E W : Type}.
(** the files, the loaders of the other packages, the engine [ProbeEngine] builds of what
    they load, and [Run] on it *)
Context (rig : Rig) (unmarshal_det : string -> result Detection) (config : ProbeConfig * option error)
        (loadWeights : string -> result ScoringWeights) (loadLimits : string -> result Limits) (loadEvidence : string -> result EvidenceConfig)
        (engine : ClankConfig -> EvidenceConfig -> StaticCatalog -> list FailureClassDefinition -> ScoringWeights -> Limits -> result E)
        (run : E -> Detection -> nat -> W -> W * result (list Row)) (encode : Row -> result string).

(** everything the runs need, or the line that says what is missing *)
Definition prepare (fl : Flags) : (Detection * E) + string :=
  match loadDetection (ReadFile rig) unmarshal_det (fl_detection fl) with
  | inr err => inr ("probe: " +:+ err_text err)
  | inl det =>
  match config with
  | (_, Some err) => inr ("probe: " +:+ err_text err)
  | (cfg, None) =>
  match contract_LoadCatalogFile rig (PC_ActionCatalog cfg) Preconditions with
  | inr err => inr ("probe: load action catalog: " +:+ err_text err)
  | inl cat =>
  match LoadFailureClassesFile rig (PC_FailureClasses cfg) with
  | inr err => inr ("probe: load failure classes: " +:+ err_text err)
  | inl classes =>
  match loadWeights (PC_Weights cfg) with
  | inr err => inr ("probe: load weights: " +:+ err_text err)
  | inl weights =>
  match loadLimits (PC_Limits cfg) with
  | inr err => inr ("probe: load limits: " +:+ err_text err)
  | inl limits =>
  match (if PC_EvidenceQueries cfg =s "" then inl (mkEvidenceConfig ∅ []) else loadEvidence (PC_EvidenceQueries cfg)) with
  | inr err => inr ("probe: load evidence queries: " +:+ err_text err)
  | inl ev =>
  match engine (clankConfig cfg) ev cat classes weights limits with
  | inr err => inr ("probe: " +:+ err_text err)
  | inl eng => inl (det, eng)
  end end end end end end end end.

(** the rows as JSON lines, up to the first that does not encode *)
Fixpoint encode_rows (rows : list Row) (out : string) : string * option error :=
  match rows with
  | [] => (out, None)
  | r :: rows' => match encode r with inr err => (out, Some err) | inl text => encode_rows rows' (out +:+ text +:+ newline) end
  end.

Definition Main (flags : option Flags) (model : result (ModelChoice + string)) (w : W) : W * Exit :=
  match flags with
  | None => (w, mkExit 2 "" "")
  | Some fl =>
      if (fl_detection fl =s "") || (fl_runs fl <? 1)
      then (w, fail 2 "usage: probe -detection <path> [-runs N] [-json] [-model haiku|sonnet|gemini-low]")
      else match model with
           | inr err => (w, fail 1 ("probe: " +:+ err_text err))
           | inl (inr skip) => (w, mkExit 0 "" (skip +:+ " unset - probe needs a real model; skipping" +:+ newline))
           | inl (inl _) =>
               match prepare fl with
               | inr line => (w, fail 1 line)
               | inl (det, eng) =>
                   match run eng det (Z.to_nat (fl_runs fl)) w with
                   | (w', inr err) => (w', fail 1 ("probe: " +:+ err_text err))
                   | (w', inl rows) =>
                       if fl_json fl
                       then match encode_rows rows "" with
                            | (out, Some err) => (w', mkExit 1 out ("probe: " +:+ err_text err +:+ newline))
                            | (out, None) => (w', mkExit 0 out "")
                            end
                       else (w', mkExit 0 (render_rows rows (fl_detection fl) (fl_floor fl)) "")
                   end
               end
           end
  end.

End main.
