(* ===== verification/Corpus.v ===== *)
(** * internal/clank/corpus, internal/grade and internal/corpus: the calibration record

    [MineCorpus], [CollapseCases], [latestSetBefore] and [FloorSupport]
    (clank/corpus.go), [FromRecord] (grade/grade.go), and the artifact: [mine],
    [mergeCorpus], [Labels], the population counts, [ReadCorpus] with its migration
    (corpus/mine.go).

    [slices.SortFunc] by [ObservedAt] does not promise an order among equals: the class
    [SortCases] has any function that permutes and sorts.  JSON and the file system
    are parameters. *)

From Stdlib Require Import Ascii.
From stdpp Require Import sorting.
From S2P Require Import Prelude GoTime GoFloat Decimal Strings Api Contract Publish Hiss HissTransport ClankScore ClankLedger Subjects Archive.
Local Open Scope Z_scope.

(** ** grade.go *)

Definition SourceConverged : string := "converged".
Definition SourceReversed : string := "reversed".
Definition SourceApproved : string := "approved".
Definition SourceDenied : string := "denied".

Definition Decision_zero : Decision := mkDecision "" "" "" "" "" "" [] "" "" "" f0 "" 0 false "" "".

Record Label : Type := mkLabel {
  Label_RunID : string;
  Label_Correct : bool;
  Label_Source : string
}.

Definition FromRecord (set : ProposalSet) (dec : Decision) (out : Outcome) : option Label :=
  if negb (Outcome_Result out =s "") && (Outcome_Result out <>s ResultRendered) && (Outcome_Result out <>s ResultApplied) then
    let win := Outcome_Result out =s ResultSuccess in
    Some (mkLabel (Set_RunID set) win (if win then SourceConverged else SourceReversed))
  else if (Decision_Verdict dec =s VerdictEscalate) && (Decision_Approver dec <>s "")
       then Some (mkLabel (Set_RunID set) true SourceApproved)
  else None.

(** ** clank/corpus.go *)

Definition CorpusVersion : Z := 3.

Record Corpus : Type := mkCorpus {
  Corpus_Version : Z;
  Corpus_Cases : list Case;
  Corpus_MinedAt : Time;
  Corpus_Segments : list string
}.

Record FloorSupport : Type := mkFloorSupport {
  FS_Class : FailureClass;
  FS_Floor : float64;
  FS_AdmittedTotal : Z;
  FS_AdmittedWins : Z;
  FS_RefusedTotal : Z;
  FS_RefusedWins : Z
}.

Definition b2z (b : bool) : Z := if b then 1 else 0.

Definition support_step (class : FailureClass) (floor : float64) (fs : FloorSupport) (cs : Case) : FloorSupport :=
  if (Case_FailureClass cs <>s class) || (Case_Result cs =s ResultRendered) || (Case_Result cs =s ResultApplied) then fs
  else
    let win := Case_Result cs =s ResultSuccess in
    if fle floor (Case_Confidence cs)
    then mkFloorSupport (FS_Class fs) (FS_Floor fs) (FS_AdmittedTotal fs + 1) (FS_AdmittedWins fs + b2z win) (FS_RefusedTotal fs) (FS_RefusedWins fs)
    else mkFloorSupport (FS_Class fs) (FS_Floor fs) (FS_AdmittedTotal fs) (FS_AdmittedWins fs) (FS_RefusedTotal fs + 1) (FS_RefusedWins fs + b2z win).

Definition Corpus_FloorSupport (c : Corpus) (class : FailureClass) (floor : float64) : FloorSupport :=
  fold_left (support_step class floor) (Corpus_Cases c) (mkFloorSupport class floor 0 0 0 0).

(** [latestSetBefore] *)
Definition later_set (at_ : Time) (best : option (ProposalSet * Status)) (s : ProposalSet) : option (ProposalSet * Status) :=
  match Set_Status s with
  | None => best
  | Some st =>
      if After (Status_ObservedAt st) at_ then best
      else match best with
           | None => Some (s, st)
           | Some (_, bst) => if After (Status_ObservedAt st) (Status_ObservedAt bst) then Some (s, st) else best
           end
  end.

Definition latestSetBefore (sets : list ProposalSet) (at_ : Time) : option ProposalSet :=
  fst <$> fold_left (later_set at_) sets None.

(** an incident *)
Definition incidentKey (c : Case) : string * string := (Case_SignalRef c, Case_DecisionRef c).

(** the loop of [CollapseCases]: the incidents in order of first sight, and the best
    settled case of each *)
Definition collapse_step (a : list (string * string) * gmap (string * string) Case) (c : Case)
  : list (string * string) * gmap (string * string) Case :=
  let '(order, best) := a in
  let key := incidentKey c in
  let order := if bool_decide (key ∈ order) then order else order ++ [key] in
  if Case_Result c =s ResultApplied then (order, best)
  else match best !! key with
       | None => (order, <[key := c]> best)
       | Some cur => if After (Case_ObservedAt c) (Case_ObservedAt cur) then (order, <[key := c]> best) else (order, best)
       end.

Definition CollapseCases (cases : list Case) : list Case :=
  let '(order, best) := fold_left collapse_step cases ([], ∅) in
  omap (fun key => best !! key) order.

(** ** corpus/mine.go *)

(** [slices.SortFunc(cases, by ObservedAt)] *)
Class SortCases : Type := {
  SortFunc : list Case -> list Case;
  SortFunc_perm : forall l, SortFunc l ≡ₚ l;
  SortFunc_sorted : forall l, Sorted (fun a b => Case_ObservedAt a <= Case_ObservedAt b) (SortFunc l)
}.

Section mine.
Context `{SortCases}.

(** [byFingerprint[fp]] is the sets of [fp] in order *)
Definition mine_outcome (sets : list ProposalSet) (o : Outcome) : option Case :=
  match latestSetBefore (List.filter (fun s => Set_SignalRef s =s Outcome_SignalRef o) sets) (Outcome_ExecutedAt o) with
  | None => None
  | Some set => Some (newCase set o)
  end.

Definition MineCorpus (sets : list ProposalSet) (outcomes : list Outcome) : list Case :=
  SortFunc (CollapseCases (omap (mine_outcome sets) outcomes)).

(** [Labels] *)
Definition label_case (labels : gmap string Label) (cs : Case) : gmap string Label :=
  if Case_RunID cs =s "" then labels
  else
    let set := mkSet "" (Case_RunID cs) "" "" None "" [] [] [] "" None [] "" None None in
    let out := mkOutcome "" "" "" "" "" (Case_Result cs) "" 0 None in
    match FromRecord set Decision_zero out with
    | Some l => <[Case_RunID cs := l]> labels
    | None => labels
    end.

Definition Labels (cases : list Case) : gmap string Label := fold_left label_case cases ∅.

Definition labelledCount (cases : list Case) : nat := size (Labels cases).

Definition outcome_key (o : Outcome) : string * string := (Outcome_SignalRef o, Outcome_DecisionRef o).

(** [inFlightCount]: the incidents seen, less the settled ones *)
Definition inFlightCount (outcomes : list Outcome) : nat :=
  let seen : gset (string * string) := list_to_set (map outcome_key outcomes) in
  let settled : gset (string * string) :=
    list_to_set (map outcome_key (List.filter (fun o => Outcome_Result o <>s ResultApplied) outcomes)) in
  size (seen ∖ settled).

Definition declinedCount (journaled : list ProposalSet) : nat :=
  length (List.filter (fun s => match Set_Status s with Some st => Status_Phase st =s PhaseDeclined | None => false end) journaled).

Record populations : Type := mkPopulations {
  Pop_Journaled : nat;
  Pop_Labelled : nat;
  Pop_InFlight : nat;
  Pop_Unlabelled : nat
}.

Definition proposalsPrefix : string := "clank/thump.proposals/".
Definition outcomesPrefix : string := "thump/thump.outcomes/".
Definition journalPrefix : string := "clank/thump.reasoning/".

(** [mine]: [walk] is [Walk] under a prefix of the bucket *)
Definition mine (walk : string -> result (list string * list string)) (decodeSet : string -> result ProposalSet)
  (decodeOutcome : string -> result Outcome) (now : Time) : result (Corpus * populations) :=
  match walk proposalsPrefix with
  | inr err => inr err
  | inl (proposalKeys, proposalLines) =>
  match walk outcomesPrefix with
  | inr err => inr err
  | inl (outcomeKeys, outcomeLines) =>
  match walk journalPrefix with
  | inr err => inr err
  | inl (journalKeys, journalLines) =>
  match DecodeEach decodeSet proposalLines with
  | inr err => inr (errorf_w ("decoding " +:+ proposalsPrefix +:+ ": ") err)
  | inl sets =>
  match DecodeEach decodeOutcome outcomeLines with
  | inr err => inr (errorf_w ("decoding " +:+ outcomesPrefix +:+ ": ") err)
  | inl outcomes =>
  match DecodeEach decodeSet journalLines with
  | inr err => inr (errorf_w ("decoding " +:+ journalPrefix +:+ ": ") err)
  | inl journaled =>
      let cases := MineCorpus sets outcomes in
      inl (mkCorpus 0 cases now (proposalKeys ++ outcomeKeys ++ journalKeys),
           mkPopulations (length journaled) (labelledCount cases) (inFlightCount outcomes) (declinedCount journaled))
  end end end end end end.

(** the first case of each [OutcomeRef] *)
Definition add_case (cases : list Case) (c : Case) : list Case :=
  if existsb (fun d => Case_OutcomeRef d =s Case_OutcomeRef c) cases then cases else cases ++ [c].

Definition add_segment (segments : list string) (s : string) : list string :=
  if slices_Contains segments s then segments else segments ++ [s].

Definition mergeCorpus (existing mined : Corpus) : Corpus :=
  let cases := SortFunc (CollapseCases (fold_left add_case (Corpus_Cases existing ++ Corpus_Cases mined) [])) in
  let segments := sort_Strings (fold_left add_segment (Corpus_Segments existing ++ Corpus_Segments mined) []) in
  mkCorpus CorpusVersion cases (Corpus_MinedAt mined) segments.

End mine.

(** [signalRefFromDecisionRef] *)
Definition signalRefFromDecisionRef (ref : string) : string :=
  match strings_CutPrefix ref "dec:" with
  | None => ""
  | Some rest => match cut_last rest ":"%char with None => "" | Some (fp, _) => fp end
  end.

Record legacyCase : Type := mkLegacyCase {
  Legacy_Fingerprint : string;
  Legacy_Case : Case
}.

Record legacyCorpus : Type := mkLegacyCorpus {
  LegacyCorpus_Cases : list legacyCase;
  LegacyCorpus_MinedAt : Time;
  LegacyCorpus_Segments : list string
}.

Definition migrate_case (lc : legacyCase) : Case :=
  let c := Legacy_Case lc in
  let signalRef := Case_SignalRef c in
  let signalRef := if signalRef =s "" then Legacy_Fingerprint lc else signalRef in
  let signalRef := if signalRef =s "" then signalRefFromDecisionRef (Case_DecisionRef c) else signalRef in
  mkCase "" signalRef (Case_DecisionRef c) (Case_OutcomeRef c) (Case_ContractRef c) (Case_FailureClass c) (Case_Confidence c)
    (Case_Mode c) (Case_Result c) (Case_ObservedAt c).

Definition migrateLegacy (decodeLegacy : string -> result legacyCorpus) (raw : string) : result Corpus :=
  match decodeLegacy raw with
  | inr err => inr (errorf_w "decode legacy corpus: " err)
  | inl legacy =>
      inl (mkCorpus CorpusVersion (map migrate_case (LegacyCorpus_Cases legacy)) (LegacyCorpus_MinedAt legacy) (LegacyCorpus_Segments legacy))
  end.

Definition ErrUnknownCorpusVersion : error := errors_New "corpus: artifact version is newer than this build understands".
Definition ErrNotExist : error := errors_New "file does not exist".

(** [ReadCorpus]; [probe] decodes the version alone *)
Definition ReadCorpus (path : string) (f : result string) (probe : string -> result Z) (decodeLegacy : string -> result legacyCorpus)
  (decode : string -> result Corpus) : result Corpus :=
  match f with
  | inr err =>
      if errors_Is err ErrNotExist then inl (mkCorpus CorpusVersion [] 0 [])
      else inr (errorf_w ("open " +:+ path +:+ ": ") err)
  | inl raw =>
      match probe raw with
      | inr err => inr (errorf_w ("decode " +:+ path +:+ ": ") err)
      | inl version =>
          if version =? 0 then migrateLegacy decodeLegacy raw
          else if CorpusVersion <? version then
            inr (errorf_wp ErrUnknownCorpusVersion (": " +:+ path +:+ " is version " +:+ fmt_d version
                            +:+ ", this build writes " +:+ fmt_d CorpusVersion))
          else match decode raw with
               | inr err => inr (errorf_w ("decode " +:+ path +:+ ": ") err)
               | inl c => inl c
               end
      end
  end.

(** [writeCorpus]: what is encoded back at [path] *)
Definition writeCorpus `{SortCases} (existing : result Corpus) (mined : Corpus) : result Corpus :=
  match existing with
  | inr err => inr err
  | inl e => inl (mergeCorpus e mined)
  end.

(** ** Specifications *)

Definition settled (c : Case) : bool := Case_Result c <>s ResultApplied.

(** the first of the latest settled cases of incident [k] *)
Definition pick (k : string * string) (acc : option Case) (c : Case) : option Case :=
  if bool_decide (incidentKey c = k) && settled c then
    match acc with
    | None => Some c
    | Some cur => if After (Case_ObservedAt c) (Case_ObservedAt cur) then Some c else acc
    end
  else acc.

Definition best_of (k : string * string) (l : list Case) : option Case := fold_left (pick k) l None.

(** an [OutcomeRef] names one case *)
Definition refs_unique (l : list Case) : Prop :=
  forall a b, a ∈ l -> b ∈ l -> Case_OutcomeRef a = Case_OutcomeRef b -> a = b.

(** ** Lemmas: collapsing *)

Lemma best_of_snoc k l c : best_of k (l ++ [c]) = pick k (best_of k l) c.
Proof. unfold best_of. by rewrite fold_left_app. Qed.

Lemma best_of_key k l c : best_of k l = Some c -> incidentKey c = k /\ settled c = true /\ c ∈ l.
Proof.
  induction l as [| d l IH] using rev_ind; [done |]. rewrite best_of_snoc. unfold pick.
  destruct (bool_decide (incidentKey d = k) && settled d) eqn:E.
  - apply andb_true_iff in E as [E%bool_decide_eq_true Es]. destruct (best_of k l) as [cur |].
    + destruct (After _ _); intros [= <-]; [set_solver |]. destruct (IH eq_refl) as (? & ? & ?). set_solver.
    + intros [= <-]. set_solver.
  - intros Hb. destruct (IH Hb) as (? & ? & ?). set_solver.
Qed.

Lemma best_of_max k l : match best_of k l with
  | None => forall c, c ∈ l -> incidentKey c = k -> settled c = false
  | Some b => forall c, c ∈ l -> incidentKey c = k -> settled c = true -> Case_ObservedAt c <= Case_ObservedAt b
  end.
Proof.
  induction l as [| d l IH] using rev_ind; [intros c Hc; by apply not_elem_of_nil in Hc |]. rewrite best_of_snoc. unfold pick.
  destruct (bool_decide (incidentKey d = k) && settled d) eqn:E.
  - apply andb_true_iff in E as [E%bool_decide_eq_true Es]. destruct (best_of k l) as [cur |] eqn:Eb.
    + unfold After. destruct (Case_ObservedAt cur <? Case_ObservedAt d) eqn:Ea;
        intros c [Hc | ->%list_elem_of_singleton]%elem_of_app Hk Hs; try specialize (IH c Hc Hk Hs); lia.
    + intros c [Hc | ->%list_elem_of_singleton]%elem_of_app Hk Hs; [specialize (IH c Hc Hk); congruence | lia].
  - apply andb_false_iff in E. destruct (best_of k l) as [cur |] eqn:Eb;
      intros c [Hc | ->%list_elem_of_singleton]%elem_of_app Hk; auto; destruct E as [E%bool_decide_eq_false | E]; congruence.
Qed.

(** later cases that are not newer change nothing *)
Lemma best_of_app_old k l1 l2 b :
  best_of k l1 = Some b -> (forall c, c ∈ l2 -> incidentKey c = k -> settled c = true -> Case_ObservedAt c <= Case_ObservedAt b) ->
  best_of k (l1 ++ l2) = Some b.
Proof.
  intros Hb. induction l2 as [| c l2 IH] using rev_ind; intros Hold; [by rewrite app_nil_r |].
  rewrite app_assoc, best_of_snoc, IH by (intros d Hd; apply Hold; set_solver). unfold pick.
  destruct (bool_decide (incidentKey c = k) && settled c) eqn:E; [| done].
  apply andb_true_iff in E as [E%bool_decide_eq_true Es]. unfold After. destruct (Z.ltb_spec (Case_ObservedAt b) (Case_ObservedAt c)); [| done].
  specialize (Hold c ltac:(set_solver) E Es). lia.
Qed.

Lemma collapse_fold l :
  let '(order, best) := fold_left collapse_step l ([], ∅) in
  NoDup order /\ (forall k, k ∈ order <-> k ∈ map incidentKey l) /\ forall k, best !! k = best_of k l.
Proof.
  induction l as [| c l IH] using rev_ind; [cbn; split; [constructor |]; split; [done | by intros k] |].
  rewrite fold_left_app. cbn [fold_left]. destruct (fold_left collapse_step l ([], ∅)) as [order best]. destruct IH as (Hnd & Hin & Hb).
  unfold collapse_step. set (key := incidentKey c). set (order' := if bool_decide (key ∈ order) then order else order ++ [key]).
  assert (NoDup order' /\ forall k, k ∈ order' <-> k ∈ map incidentKey (l ++ [c])) as [Hnd' Hin'].
  { rewrite map_app. unfold order'. case_bool_decide as Hk.
    - split; [done |]. intros k. rewrite elem_of_app, <- Hin. cbn [map]. rewrite list_elem_of_singleton. split; [auto |]. intros [? | ->]; done.
    - split; [apply list.NoDup_app; split; [done |]; split; [set_solver | apply NoDup_singleton] |].
      intros k. rewrite !elem_of_app, <- Hin. done. }
  assert (forall k, k <> key -> best_of k (l ++ [c]) = best_of k l) as Hother.
  { intros k Hk. rewrite best_of_snoc. unfold pick. rewrite bool_decide_false by (unfold key in Hk; congruence). done. }
  assert (best_of key (l ++ [c]) = if settled c then match best_of key l with
            | None => Some c | Some cur => if After (Case_ObservedAt c) (Case_ObservedAt cur) then Some c else Some cur end else best_of key l) as Hself.
  { rewrite best_of_snoc. unfold pick. rewrite bool_decide_true by done. cbn [andb]. destruct (settled c); [| done]. by destruct (best_of key l). }
  assert (forall best' : gmap (string * string) Case, (forall k, k <> key -> best' !! k = best !! k) -> best' !! key = best_of key (l ++ [c]) ->
            forall k, best' !! k = best_of k (l ++ [c])) as Hall.
  { intros best' H1 H2 k. destruct (decide (k = key)) as [-> | Hk]; [done |]. by rewrite H1, Hb, Hother. }
  unfold settled in Hself. destruct (Case_Result c =s ResultApplied) eqn:Es; cbn [negb] in Hself.
  { split; [done |]. split; [done |]. apply Hall; [done |]. by rewrite Hself, Hb. }
  rewrite Hb. destruct (best_of key l) as [cur |] eqn:Eb; [destruct (After _ _) |]; (split; [done |]; split; [done |]; apply Hall);
    first [by intros k Hk; rewrite lookup_insert_ne by done | by intros k Hk | by rewrite lookup_insert_eq, Hself | by rewrite Hb, Eb, Hself].
Qed.

Lemma elem_of_Collapse l c : c ∈ CollapseCases l <-> best_of (incidentKey c) l = Some c.
Proof.
  unfold CollapseCases. pose proof (collapse_fold l) as Hf. destruct (fold_left collapse_step l ([], ∅)) as [order best].
  destruct Hf as (_ & Hin & Hb). rewrite list_elem_of_omap. split.
  - intros (k & _ & E). rewrite Hb in E. destruct (best_of_key _ _ _ E) as [<- _]. done.
  - intros E. exists (incidentKey c). rewrite Hb, Hin. split; [| done]. apply list_elem_of_fmap. exists c. split; [done |].
    apply best_of_key in E. by destruct E as (_ & _ & ?).
Qed.

Lemma omap_keys_NoDup (order : list (string * string)) (f : string * string -> option Case) :
  NoDup order -> (forall k c, f k = Some c -> incidentKey c = k) -> NoDup (map incidentKey (omap f order)).
Proof.
  intros Hnd Hf. induction Hnd as [| k order Hk Hnd IH]; [constructor |]. cbn. destruct (f k) as [c |] eqn:E; [| done]. cbn.
  rewrite (Hf k c E). constructor; [| done]. intros (c' & Hc' & Hin)%list_elem_of_fmap. apply list_elem_of_omap in Hin as (k' & Hk' & E').
  rewrite (Hf k' c' E') in Hc'. by subst.
Qed.

Lemma Collapse_NoDup l : NoDup (map incidentKey (CollapseCases l)).
Proof.
  unfold CollapseCases. pose proof (collapse_fold l) as Hf. destruct (fold_left collapse_step l ([], ∅)) as [order best].
  destruct Hf as (Hnd & _ & Hb). apply omap_keys_NoDup; [done |]. intros k c E. rewrite Hb in E. apply best_of_key in E. by destruct E.
Qed.

(** a list with one settled case per incident *)
Lemma best_of_unique k l c :
  NoDup (map incidentKey l) -> (forall c, c ∈ l -> settled c = true) -> c ∈ l -> incidentKey c = k -> best_of k l = Some c.
Proof.
  induction l as [| d l IH] using rev_ind; [set_solver |]. rewrite map_app, best_of_snoc. intros (Hnd & Hni & _)%list.NoDup_app Hs Hin Hk.
  apply elem_of_app in Hin as [Hin | ->%list_elem_of_singleton].
  - rewrite (IH Hnd) by (auto; intros; apply Hs; set_solver). unfold pick. rewrite bool_decide_false; [done |].
    intros E. apply (Hni k); [apply list_elem_of_fmap; by exists c | cbn; rewrite E; left].
  - unfold pick. rewrite bool_decide_true, (Hs d) by (done || set_solver). cbn [andb].
    destruct (best_of k l) as [b |] eqn:E; [| done]. apply best_of_key in E as (E & _ & Hb). exfalso.
    apply (Hni k); [apply list_elem_of_fmap; by exists b | cbn; rewrite Hk; left].
Qed.

(** a case already in the list is not picked again *)
Lemma best_of_again k l c : c ∈ l -> best_of k (l ++ [c]) = best_of k l.
Proof.
  intros Hc. rewrite best_of_snoc. unfold pick. pose proof (best_of_max k l) as Hm.
  destruct (bool_decide (incidentKey c = k) && settled c) eqn:E; [| done]. apply andb_true_iff in E as [E%bool_decide_eq_true Es].
  destruct (best_of k l) as [b |]; [| rewrite (Hm c Hc E) in Es; done].
  specialize (Hm c Hc E Es). unfold After. by destruct (Z.ltb_spec (Case_ObservedAt b) (Case_ObservedAt c)); [lia |].
Qed.

Lemma add_case_elem l c : c ∈ fold_left add_case l [] -> c ∈ l.
Proof.
  induction l as [| d l IH] using rev_ind; [done |]. rewrite fold_left_app. cbn [fold_left]. unfold add_case at 1.
  destruct (existsb _ _); rewrite ?elem_of_app; [auto |]. intros [H | H]; auto.
Qed.

(** under unique references, dropping repeated references drops repeated cases *)
Lemma dedupe_best_of k l : refs_unique l -> best_of k (fold_left add_case l []) = best_of k l.
Proof.
  induction l as [| c l IH] using rev_ind; intros Hu; [done |].
  assert (refs_unique l) as Hu' by (intros a b Ha Hb; apply Hu; set_solver).
  rewrite fold_left_app. cbn [fold_left]. unfold add_case at 1.
  destruct (existsb _ _) eqn:E.
  - rewrite IH by done. apply existsb_exists in E as (d & Hd%list_elem_of_In & Hr%String.eqb_eq). apply add_case_elem in Hd.
    assert (d = c) as -> by (apply Hu; set_solver). by rewrite best_of_again.
  - by rewrite !best_of_snoc, IH.
Qed.

Lemma best_of_none k l : (forall c, c ∈ l -> incidentKey c = k -> settled c = false) -> best_of k l = None.
Proof.
  intros Hn. destruct (best_of k l) as [b |] eqn:E; [| done]. apply best_of_key in E as (Hk & Hs & Hb). by rewrite (Hn b Hb Hk) in Hs.
Qed.

(** the best cases of a list, in any order, and then part of the list again *)
Lemma best_of_refresh k l m c1 :
  (forall c, c ∈ c1 <-> best_of (incidentKey c) l = Some c) -> NoDup (map incidentKey c1) -> (forall c, c ∈ m -> c ∈ l) ->
  best_of k (c1 ++ m) = best_of k l.
Proof.
  intros Hc1 Hnd Hm. pose proof (best_of_max k l) as Hmax. destruct (best_of k l) as [b |] eqn:E.
  - destruct (best_of_key _ _ _ E) as (Hk & _ & _). apply best_of_app_old.
    + apply best_of_unique; [done | | by apply Hc1; rewrite Hk | done]. intros c Hc%Hc1. by apply best_of_key in Hc as (_ & ? & _).
    + intros c Hc. apply Hmax. auto.
  - apply best_of_none. intros c [Hc%Hc1 | Hc]%elem_of_app; [| auto]. apply best_of_key in Hc as (_ & _ & Hc). by apply Hmax.
Qed.

Lemma add_segment_spec l : NoDup (fold_left add_segment l []) /\ forall s, s ∈ fold_left add_segment l [] <-> s ∈ l.
Proof.
  induction l as [| x l [Hnd Hin]] using rev_ind; [split; [constructor | done] |]. rewrite fold_left_app. cbn [fold_left]. unfold add_segment at 1 3.
  destruct (slices_Contains _ x) eqn:E.
  - apply slices_Contains_iff in E. split; [done |]. intros s. rewrite elem_of_app, <- Hin, list_elem_of_singleton.
    split; [auto |]. intros [? | ->]; [done | done].
  - split; [| intros s; by rewrite !elem_of_app, <- Hin]. apply list.NoDup_app. split; [done |]. split; [| apply NoDup_singleton].
    intros s Hs ->%list_elem_of_singleton. apply slices_Contains_iff in Hs. congruence.
Qed.

Section lemmas.
Context `{SortCases}.

Lemma elem_of_SortFunc l c : c ∈ SortFunc l <-> c ∈ l.
Proof. by rewrite SortFunc_perm. Qed.

Lemma merged_case e m c : refs_unique (Corpus_Cases e ++ Corpus_Cases m) ->
  c ∈ Corpus_Cases (mergeCorpus e m) <-> best_of (incidentKey c) (Corpus_Cases e ++ Corpus_Cases m) = Some c.
Proof. intros Hu. cbn. by rewrite elem_of_SortFunc, elem_of_Collapse, dedupe_best_of. Qed.

Lemma merged_NoDup e m : NoDup (map incidentKey (Corpus_Cases (mergeCorpus e m))).
Proof. cbn. rewrite (SortFunc_perm _). apply Collapse_NoDup. Qed.

Lemma merged_segment e m s : s ∈ Corpus_Segments (mergeCorpus e m) <-> s ∈ Corpus_Segments e \/ s ∈ Corpus_Segments m.
Proof. cbn. unfold sort_Strings. by rewrite merge_sort_Permutation, (proj2 (add_segment_spec _)), elem_of_app. Qed.

Lemma sorted_unique (l1 l2 : list string) : NoDup l1 -> NoDup l2 -> (forall s, s ∈ l1 <-> s ∈ l2) -> sort_Strings l1 = sort_Strings l2.
Proof.
  intros H1 H2 He. apply (StronglySorted_unique String.le).
  - apply (StronglySorted_merge_sort String.le).
  - apply (StronglySorted_merge_sort String.le).
  - unfold sort_Strings. rewrite !merge_sort_Permutation. by apply NoDup_Permutation.
Qed.

(** the join, one outcome at a time *)
Lemma mine_outcome_key sets o c : mine_outcome sets o = Some c -> incidentKey c = outcome_key o /\ Case_Result c = Outcome_Result o.
Proof. unfold mine_outcome. destruct (latestSetBefore _ _); [| done]. by intros [= <-]. Qed.

Lemma later_fold at_ sets :
  match fold_left (later_set at_) sets None with
  | None => forall s st, s ∈ sets -> Set_Status s = Some st -> at_ < Status_ObservedAt st
  | Some (b, bst) => b ∈ sets /\ Set_Status b = Some bst /\ Status_ObservedAt bst <= at_ /\
      forall s st, s ∈ sets -> Set_Status s = Some st -> Status_ObservedAt st <= at_ -> Status_ObservedAt st <= Status_ObservedAt bst
  end.
Proof.
  induction sets as [| d sets IH] using rev_ind; [intros s st Hs; by apply not_elem_of_nil in Hs |].
  rewrite fold_left_app. cbn [fold_left].
  set (acc := fold_left (later_set at_) sets None) in *. clearbody acc. unfold later_set, After.
  destruct (Set_Status d) as [st |] eqn:Ed.
  2:{ destruct acc as [[b bst] |]; [destruct IH as (Hb & Hs & Ha & Hm); split; [set_solver |]; do 2 (split; [done |]) |];
        intros s st [Hin | ->%list_elem_of_singleton]%elem_of_app E; eauto; congruence. }
  destruct (Z.ltb_spec at_ (Status_ObservedAt st)).
  - destruct acc as [[b bst] |]; [destruct IH as (Hb & Hs & Ha & Hm); split; [set_solver |]; do 2 (split; [done |]) |];
      intros s st' [Hin | ->%list_elem_of_singleton]%elem_of_app E; eauto; rewrite Ed in E; injection E as <-; lia.
  - destruct acc as [[b bst] |].
    + destruct IH as (Hb & Hs & Ha & Hm). destruct (Z.ltb_spec (Status_ObservedAt bst) (Status_ObservedAt st)).
      * split; [set_solver |]. split; [done |]. split; [lia |]. intros s st' [Hin | ->%list_elem_of_singleton]%elem_of_app E Hle;
          [specialize (Hm s st' Hin E Hle); lia | rewrite Ed in E; injection E as <-; lia].
      * split; [set_solver |]. do 2 (split; [done |]). intros s st' [Hin | ->%list_elem_of_singleton]%elem_of_app E Hle;
          [by apply (Hm s st') | rewrite Ed in E; injection E as <-; lia].
    + split; [set_solver |]. split; [done |]. split; [lia |]. intros s st' [Hin | ->%list_elem_of_singleton]%elem_of_app E Hle;
        [specialize (IH s st' Hin E); lia | rewrite Ed in E; injection E as <-; lia].
Qed.

Lemma mined_case sets outs c :
  c ∈ MineCorpus sets outs <-> best_of (incidentKey c) (omap (mine_outcome sets) outs) = Some c.
Proof. unfold MineCorpus. by rewrite elem_of_SortFunc, elem_of_Collapse. Qed.

Lemma mined_NoDup sets outs : NoDup (map incidentKey (MineCorpus sets outs)).
Proof. unfold MineCorpus. rewrite (SortFunc_perm _). apply Collapse_NoDup. Qed.

Lemma best_of_some k l c : c ∈ l -> incidentKey c = k -> settled c = true -> exists b, best_of k l = Some b.
Proof.
  intros Hc Hk Hs. pose proof (best_of_max k l) as Hm. destruct (best_of k l); [eauto |]. by rewrite (Hm c Hc Hk) in Hs.
Qed.

(** the incidents of the cases are the settled ones that join *)
Lemma mined_incident sets outs k :
  (forall o, o ∈ outs -> Outcome_Result o <> ResultApplied -> is_Some (mine_outcome sets o)) ->
  k ∈ map incidentKey (MineCorpus sets outs) <-> k ∈ map outcome_key (List.filter (fun o => Outcome_Result o <>s ResultApplied) outs).
Proof.
  intros Hj. rewrite !list_elem_of_fmap. split.
  - intros (c & -> & Hc%mined_case). apply best_of_key in Hc as (_ & Hs & (o & Ho & E)%list_elem_of_omap).
    apply mine_outcome_key in E as [Hk Hr]. exists o. split; [done |]. apply elem_of_filterb. split; [done |].
    unfold settled in Hs. by rewrite <- Hr.
  - intros (o & -> & [Ho Hr]%elem_of_filterb). destruct (Hj o Ho) as [c E]; [intros Hx; by rewrite Hx in Hr |].
    destruct (mine_outcome_key _ _ _ E) as [Hk Hr']. destruct (best_of_some (outcome_key o) (omap (mine_outcome sets) outs) c) as [b Hb];
      [apply list_elem_of_omap; by exists o | done | unfold settled; by rewrite Hr' |].
    destruct (best_of_key _ _ _ Hb) as (Hbk & _ & _). exists b. split; [done |]. apply mined_case. by rewrite Hbk.
Qed.

(** *** The first of the latest *)

(** [x] is the first of the latest of [l] *)
Definition first_latest {A} (at_ : A -> Time) (l : list A) (x : A) : Prop :=
  exists l1 l2, l = l1 ++ x :: l2 /\ (forall y, y ∈ l1 -> at_ y < at_ x) /\ (forall y, y ∈ l2 -> at_ y <= at_ x).

(** the pass both loops make *)
Definition keep_latest {A} (at_ : A -> Time) (acc : option A) (x : A) : option A :=
  match acc with None => Some x | Some cur => if After (at_ x) (at_ cur) then Some x else acc end.

Lemma keep_latest_iff {A} (at_ : A -> Time) (l : list A) x : fold_left (keep_latest at_) l None = Some x <-> first_latest at_ l x.
Proof.
  revert x. induction l as [| d l IH] using rev_ind; intros x; [split; [done | by intros ([] & l2 & [=] & _)] |].
  rewrite fold_left_app. cbn [fold_left]. unfold keep_latest at 1, After. split.
  - destruct (fold_left _ l None) as [cur |] eqn:E.
    + destruct (proj1 (IH cur) eq_refl) as (l1 & l2 & -> & H1 & H2). destruct (Z.ltb_spec (at_ cur) (at_ d)); intros [= <-].
      * exists (l1 ++ cur :: l2), []. split; [done |]. split; [| set_solver].
        intros y [Hy | [-> | Hy]%elem_of_cons]%elem_of_app; [specialize (H1 y Hy); lia | done | specialize (H2 y Hy); lia].
      * exists l1, (l2 ++ [d]). split; [by rewrite <- app_assoc |]. split; [done |]. intros y [Hy | ->%list_elem_of_singleton]%elem_of_app; [by apply H2 | lia].
    + intros [= <-]. assert (l = []) as ->; [| exists [], []; set_solver].
      destruct l as [| d' l'] using rev_ind; [done |]. rewrite fold_left_app in E. cbn in E. destruct (fold_left _ l' None); cbn in E; [destruct (After _ _) |]; done.
  - intros (l1 & l2 & E & H1 & H2). destruct l2 as [| d' l2 _] using rev_ind.
    + apply app_inj_tail in E as [<- <-]. destruct (fold_left _ l None) as [cur |] eqn:E; [| done].
      destruct (proj1 (IH cur) eq_refl) as (k1 & k2 & -> & _). destruct (Z.ltb_spec (at_ cur) (at_ d)) as [| Hle]; [done |].
      specialize (H1 cur ltac:(set_solver)). lia.
    + rewrite app_comm_cons, app_assoc in E. apply app_inj_tail in E as [-> <-].
      assert (fold_left (keep_latest at_) (l1 ++ x :: l2) None = Some x) as ->
        by (apply IH; exists l1, l2; split; [done |]; split; [done |]; intros y Hy; apply H2; set_solver).
      destruct (Z.ltb_spec (at_ x) (at_ d)) as [Hlt |]; [| done]. specialize (H2 d ltac:(set_solver)). lia.
Qed.

Lemma fold_filtered {A B} (f : B -> A -> B) (g : B -> A -> B) (p : A -> bool) l b :
  (forall b x, g b x = if p x then f b x else b) -> fold_left g l b = fold_left f (List.filter p l) b.
Proof. intros Hg. revert b. induction l as [| x l IH]; intros b; [done |]. cbn. rewrite Hg, IH. by destruct (p x). Qed.

Lemma filter_split {A} (p : A -> bool) l l1 x l2 : List.filter p l = l1 ++ x :: l2 ->
  exists k1 k2, l = k1 ++ x :: k2 /\ p x = true /\ l1 = List.filter p k1 /\ l2 = List.filter p k2.
Proof.
  revert l1. induction l as [| y l IH]; intros l1; [by destruct l1 |]. cbn. destruct (p y) eqn:Ep.
  - destruct l1 as [| z l1]; intros [= -> E]; [by exists [], l |]. destruct (IH _ E) as (k1 & k2 & -> & Hx & -> & ->). exists (z :: k1), k2. cbn. by rewrite Ep.
  - intros E. destruct (IH _ E) as (k1 & k2 & -> & Hx & -> & ->). exists (y :: k1), k2. cbn. by rewrite Ep.
Qed.

Lemma omap_split {A B} (f : A -> option B) l k1 y k2 : omap f l = k1 ++ y :: k2 ->
  exists l1 x l2, l = l1 ++ x :: l2 /\ f x = Some y /\ omap f l1 = k1 /\ omap f l2 = k2.
Proof.
  revert k1. induction l as [| x l IH]; intros k1; cbn; [by destruct k1 |]. destruct (f x) as [z |] eqn:Ef.
  - destruct k1 as [| z' k1]; intros [= -> E]; [by exists [], x, l |]. destruct (IH _ E) as (l1 & x' & l2 & -> & Hx & <- & <-).
    exists (x :: l1), x', l2. cbn. by rewrite Ef.
  - intros E. destruct (IH _ E) as (l1 & x' & l2 & -> & Hx & <- & <-). exists (x :: l1), x', l2. cbn. by rewrite Ef.
Qed.

(** the case of an incident is the first of its latest settled ones *)
Lemma best_of_first k l c : best_of k l = Some c <->
  exists l1 l2, l = l1 ++ c :: l2 /\ (incidentKey c = k /\ settled c = true) /\
    (forall d, d ∈ l1 -> incidentKey d = k /\ settled d = true -> Case_ObservedAt d < Case_ObservedAt c) /\
    (forall d, d ∈ l2 -> incidentKey d = k /\ settled d = true -> Case_ObservedAt d <= Case_ObservedAt c).
Proof.
  set (p := fun d => bool_decide (incidentKey d = k) && settled d).
  assert (forall d, p d = true <-> incidentKey d = k /\ settled d = true) as Hp by (intros d; unfold p; by rewrite andb_true_iff, bool_decide_eq_true).
  unfold best_of. rewrite (fold_filtered (keep_latest Case_ObservedAt) (pick k) p) by (intros b x; unfold pick, p; by destruct (_ && _)).
  rewrite keep_latest_iff. split.
  - intros (l1 & l2 & (k1 & k2 & -> & Hx & -> & ->)%filter_split & H1 & H2). exists k1, k2. split; [done |]. split; [by apply Hp |].
    split; intros d Hd Hkd; [apply H1 | apply H2]; apply elem_of_filterb; (split; [done |]); by apply Hp.
  - intros (l1 & l2 & -> & Hc & H1 & H2). exists (List.filter p l1), (List.filter p l2). rewrite List.filter_app. cbn. rewrite (proj2 (Hp c) Hc).
    split; [done |]. split; intros d [Hd Hpd]%elem_of_filterb; [apply H1 | apply H2]; try done; by apply Hp.
Qed.

(** when a set became terminal, whether that was by [at_], and the sets of [o]'s fingerprint
    that were terminal when it was executed *)
Definition terminal_at (s : ProposalSet) : Time := match Set_Status s with Some st => Status_ObservedAt st | None => 0 end.
Definition terminal (at_ : Time) (s : ProposalSet) : bool := match Set_Status s with Some st => Status_ObservedAt st <=? at_ | None => false end.
Definition terminal_by (sets : list ProposalSet) (o : Outcome) : list ProposalSet :=
  List.filter (fun s => (Set_SignalRef s =s Outcome_SignalRef o) && terminal (Outcome_ExecutedAt o) s) sets.

(** the set an outcome joins *)
Definition joins (sets : list ProposalSet) (o : Outcome) (set : ProposalSet) : Prop := first_latest terminal_at (terminal_by sets o) set.

Lemma later_keeps at_ sets : fst <$> fold_left (later_set at_) sets None = fold_left (keep_latest terminal_at) (List.filter (terminal at_) sets) None.
Proof.
  rewrite <- (fold_filtered _ (fun b s => if terminal at_ s then keep_latest terminal_at b s else b)) by done.
  assert (forall acc, (forall s st, acc = Some (s, st) -> Set_Status s = Some st) ->
    fst <$> fold_left (later_set at_) sets acc =
    fold_left (fun b s => if terminal at_ s then keep_latest terminal_at b s else b) sets (fst <$> acc)) as Hgo; [| by apply Hgo].
  induction sets as [| s sets IH]; intros acc Hacc; [done |]. cbn [fold_left].
  assert ((if terminal at_ s then keep_latest terminal_at (fst <$> acc) s else fst <$> acc) = fst <$> later_set at_ acc s /\
          forall s' st', later_set at_ acc s = Some (s', st') -> Set_Status s' = Some st') as [-> Hnext]; [| by apply IH].
  unfold later_set, terminal, keep_latest, terminal_at, After. destruct (Set_Status s) as [st |] eqn:Es; [| done].
  destruct (Z.ltb_spec at_ (Status_ObservedAt st)), (Z.leb_spec (Status_ObservedAt st) at_); try lia; [done |].
  destruct acc as [[c cst] |]; cbn; [| split; [done |]; by intros s' st' [= <- <-]].
  rewrite (Hacc c cst eq_refl). destruct (_ <? _); (split; [done |]); intros s' st' E; [by injection E as <- <- | by apply Hacc].
Qed.

Lemma mine_joins sets o c : mine_outcome sets o = Some c <-> exists set, joins sets o set /\ c = newCase set o.
Proof.
  assert (forall set, latestSetBefore (List.filter (fun s => Set_SignalRef s =s Outcome_SignalRef o) sets) (Outcome_ExecutedAt o) = Some set <-> joins sets o set) as Hl.
  { intros set. unfold latestSetBefore, joins. rewrite later_keeps, <- keep_latest_iff. unfold terminal_by.
    replace (List.filter (fun s => (Set_SignalRef s =s Outcome_SignalRef o) && _) sets) with
      (List.filter (terminal (Outcome_ExecutedAt o)) (List.filter (fun s => Set_SignalRef s =s Outcome_SignalRef o) sets)); [done |].
    clear. induction sets as [| s sets IH]; [done |]. cbn. destruct (_ =s _); cbn; [destruct (terminal _ s) |]; by rewrite IH. }
  unfold mine_outcome. destruct (latestSetBefore _ _) as [set |]; split.
  - intros [= <-]. exists set. split; [by apply Hl | done].
  - intros (set' & [= <-]%Hl & ->). done.
  - done.
  - by intros (set' & [=]%Hl & _).
Qed.

Lemma settled_outcome set o : Outcome_Result o <> ResultApplied -> settled (newCase set o) = true.
Proof. intros Hn. unfold settled. cbn. by apply negb_true_iff, String.eqb_neq. Qed.

End lemmas.

Definition case_le (a b : Case) : Prop := Case_ObservedAt a <= Case_ObservedAt b.

#[export] Instance case_le_dec : RelDecision case_le := fun a b => Z_le_dec (Case_ObservedAt a) (Case_ObservedAt b).

#[export] Instance case_le_total : Total case_le.
Proof. intros a b. unfold case_le. lia. Qed.

(** a stable sort is one *)
#[export] Instance merge_SortCases : SortCases.
Proof. exists (merge_sort case_le); [apply merge_sort_Permutation | apply (Sorted_merge_sort case_le)]. Defined.

(** ** Claims *)

Section claims.
Context `{SortCases}.

(** C25. The mined record has one case per incident, and it is the right one. An outcome
    joins the first of the latest of its fingerprint's sets that were terminal when it was
    executed. A case is in the record exactly when it joins a settled outcome to that set,
    every settled outcome of the same incident that joins a set and comes before it in the
    outcomes is older, and every one that comes after it is not newer; so an incident has one
    case exactly when a settled outcome of it joins a set. The cases are in time order. *)
Theorem one_case_per_incident sets outs :
  Sorted case_le (MineCorpus sets outs) /\
  NoDup (map incidentKey (MineCorpus sets outs)) /\
  (forall c, c ∈ MineCorpus sets outs <->
     exists before o after set, outs = before ++ o :: after /\ Outcome_Result o <> ResultApplied /\ joins sets o set /\ c = newCase set o /\
       (forall o' set', o' ∈ before -> outcome_key o' = outcome_key o -> Outcome_Result o' <> ResultApplied -> joins sets o' set' ->
          Outcome_ExecutedAt o' < Outcome_ExecutedAt o) /\
       (forall o' set', o' ∈ after -> outcome_key o' = outcome_key o -> Outcome_Result o' <> ResultApplied -> joins sets o' set' ->
          Outcome_ExecutedAt o' <= Outcome_ExecutedAt o)) /\
  (forall k, k ∈ map incidentKey (MineCorpus sets outs) <->
     exists o set, o ∈ outs /\ outcome_key o = k /\ Outcome_Result o <> ResultApplied /\ joins sets o set).
Proof.
  split; [apply SortFunc_sorted |]. split; [apply mined_NoDup |]. split; [intros c; rewrite mined_case; split |].
  - intros (l1 & l2 & E & Hk & H1 & H2)%best_of_first. apply omap_split in E as (before & o & after & -> & Eo & <- & <-).
    destruct (mine_outcome_key _ _ _ Eo) as [Hok Hr]. apply mine_joins in Eo as (set & Hj & ->). exists before, o, after, set.
    split; [done |]. split; [intros Hx; destruct Hk as [_ Hs]; unfold settled in Hs; by rewrite Hr, Hx in Hs |]. do 2 (split; [done |]).
    split; intros o' set' Hin Hko Hna Hj'; [apply (H1 (newCase set' o')) | apply (H2 (newCase set' o'))];
      first [apply list_elem_of_omap; exists o'; split; [done |]; apply mine_joins; by exists set' | split; [exact Hko |]; by apply settled_outcome].
  - intros (before & o & after & set & -> & Hna & Hj & -> & H1 & H2). apply best_of_first.
    assert (mine_outcome sets o = Some (newCase set o)) as Eo by (apply mine_joins; by exists set).
    exists (omap (mine_outcome sets) before), (omap (mine_outcome sets) after). rewrite omap_app. cbn [omap list_omap]. rewrite Eo.
    split; [done |]. split; [split; [done | by apply settled_outcome] |].
    split; intros c' (o' & Hin & E')%list_elem_of_omap [Hk' Hs']; destruct (mine_outcome_key _ _ _ E') as [Hok' Hr'];
      (apply mine_joins in E' as (set' & Hj' & ->)); [apply (H1 o' set') | apply (H2 o' set')]; try done;
      intros Hx; unfold settled in Hs'; by rewrite Hr', Hx in Hs'.
  - intros k. rewrite list_elem_of_fmap. split.
    + intros (c & -> & Hc%mined_case). apply best_of_key in Hc as (_ & Hs & (o & Ho & E)%list_elem_of_omap).
      destruct (mine_outcome_key _ _ _ E) as [Hk Hr]. apply mine_joins in E as (set & Hj & _). exists o, set.
      split; [done |]. split; [done |]. split; [| done]. intros Hx. unfold settled in Hs. by rewrite Hr, Hx in Hs.
    + intros (o & set & Ho & <- & Hna & Hj). assert (mine_outcome sets o = Some (newCase set o)) as Eo by (apply mine_joins; by exists set).
      destruct (best_of_some (outcome_key o) (omap (mine_outcome sets) outs) (newCase set o)) as [b Hb];
        [apply list_elem_of_omap; by exists o | done | by apply settled_outcome |].
      destruct (best_of_key _ _ _ Hb) as (Hbk & _ & _). exists b. split; [done |]. apply mined_case. by rewrite Hbk.
Qed.

(** Mining is idempotent: where an outcome's name stands for one case, merging the
    same mined batch into the artifact a second time leaves the cases what they were,
    in some order, and the segments exactly what they were, whatever the artifact
    held before; and the artifact never has two cases of one incident. *)
Theorem mining_again_adds_nothing (existing mined : Corpus) :
  refs_unique (Corpus_Cases existing ++ Corpus_Cases mined) ->
  let once := mergeCorpus existing mined in
  let twice := mergeCorpus once mined in
  Corpus_Cases twice ≡ₚ Corpus_Cases once /\ Corpus_Segments twice = Corpus_Segments once /\
  Corpus_MinedAt twice = Corpus_MinedAt once /\ NoDup (map incidentKey (Corpus_Cases once)).
Proof.
  intros Hu once twice. assert (refs_unique (Corpus_Cases once ++ Corpus_Cases mined)) as Hu'.
  { assert (forall c, c ∈ Corpus_Cases once ++ Corpus_Cases mined -> c ∈ Corpus_Cases existing ++ Corpus_Cases mined) as Hsub.
    { intros c [Hc | Hc]%elem_of_app; [| set_solver]. apply merged_case in Hc; [| done]. apply best_of_key in Hc as (_ & _ & ?). done. }
    intros a b Ha Hb. apply Hu; auto. }
  split; [| split; [| split; [done | apply merged_NoDup]]].
  - apply NoDup_Permutation; [eapply NoDup_fmap_1, merged_NoDup | eapply NoDup_fmap_1, merged_NoDup |].
    intros c. unfold twice. rewrite (merged_case _ _ _ Hu').
    rewrite (best_of_refresh _ (Corpus_Cases existing ++ Corpus_Cases mined)); [symmetry; by apply merged_case | by intros d; apply merged_case | apply merged_NoDup |].
    set_solver.
  - cbn. apply sorted_unique; [apply add_segment_spec | apply add_segment_spec |].
    intros s. rewrite !(proj2 (add_segment_spec _)), elem_of_app. fold (Corpus_Segments (mergeCorpus existing mined)).
    unfold sort_Strings. rewrite merge_sort_Permutation, (proj2 (add_segment_spec _)). set_solver.
Qed.

(** The populations add up: when every settled outcome joins a proposal set, the
    mined cases and the incidents counted in flight are together exactly the distinct
    incidents the outcomes name. *)
Theorem populations_add_up sets outs :
  (forall o, o ∈ outs -> Outcome_Result o <> ResultApplied -> is_Some (mine_outcome sets o)) ->
  (length (MineCorpus sets outs) + inFlightCount outs)%nat = size (list_to_set (map outcome_key outs) : gset (string * string)).
Proof.
  intros Hj. set (settled_keys := list_to_set (map outcome_key (List.filter (fun o => Outcome_Result o <>s ResultApplied) outs)) : gset (string * string)).
  assert (length (MineCorpus sets outs) = size settled_keys) as ->.
  { rewrite <- (length_map incidentKey), <- (size_list_to_set (C := gset (string * string)) (map incidentKey (MineCorpus sets outs))) by apply mined_NoDup.
    f_equal. apply leibniz_equiv. intros k. unfold settled_keys. rewrite !elem_of_list_to_set. by apply mined_incident. }
  unfold inFlightCount. fold settled_keys. cbv zeta. rewrite size_difference.
  - assert (size settled_keys <= size (list_to_set (map outcome_key outs) : gset (string * string)))%nat; [| lia].
    apply subseteq_size. intros k. unfold settled_keys. rewrite !elem_of_list_to_set, !list_elem_of_fmap. intros (o & -> & [Ho _]%elem_of_filterb). eauto.
  - intros k. unfold settled_keys. rewrite !elem_of_list_to_set, !list_elem_of_fmap. intros (o & -> & [Ho _]%elem_of_filterb). eauto.
Qed.

End claims.

(** A decision's name still says which signal it answered: the fingerprint that
    [signalRefFromDecisionRef] reads out of the [DecisionRef] governance wrote, for a
    verdict or for a re-issued hold, is the proposal set's own, colons and all. *)
Theorem decision_names_recover_their_signal (ps : ProposalSet) (pol : Policy) (now : Time) {W} (cfg : TransportConfig W) (a : Approval) (now1 now2 : Time) :
  signalRefFromDecisionRef (Decision_ID (Evaluate ps pol now)) = Set_SignalRef ps /\
  signalRefFromDecisionRef (Decision_ID (Governed_Decision (reissue cfg (mkGoverned (Evaluate ps pol now) ps) a now1 now2))) = Set_SignalRef ps.
Proof.
  assert (forall s t, signalRefFromDecisionRef ("dec:" +:+ s +:+ ":" +:+ fmt_d t) = s) as Hr.
  { intros s t. unfold signalRefFromDecisionRef. rewrite strings_CutPrefix_app.
    change (":" +:+ fmt_d t) with (String ":" (fmt_d t)). by rewrite cut_last_app by (by apply fmt_d_no_char). }
  assert (Decision_ID (Evaluate ps pol now) = "dec:" +:+ Set_SignalRef ps +:+ ":" +:+ fmt_d (Unix now) /\
          Decision_SignalRef (Evaluate ps pol now) = Set_SignalRef ps) as [-> Hs].
  { unfold Evaluate. destruct (recommended ps); [| done]. destruct (gate_passed ps); [| done]. destruct (stage1_reasons _ _ _ _); [| done].
    by destruct (bandRank _ <? bandRank _). }
  split; [apply Hr |]. cbn [reissue Governed_Decision Decision_ID]. by rewrite Hs, Hr.
Qed.

(** ** Calibration *)

(** the cases of a class that [FloorSupport] counts *)
Definition graded (class : FailureClass) (cs : Case) : bool :=
  (Case_FailureClass cs =s class) && (Case_Result cs <>s ResultRendered) && (Case_Result cs <>s ResultApplied).

Definition won (cs : Case) : bool := Case_Result cs =s ResultSuccess.

Definition count (p : Case -> bool) (l : list Case) : Z := Z.of_nat (length (List.filter p l)).

Lemma count_snoc p l c : count p (l ++ [c]) = count p l + b2z (p c).
Proof. unfold count. rewrite filter_app, length_app. cbn. destruct (p c); cbn; lia. Qed.

Lemma count_mono p q l : (forall c, p c = true -> q c = true) -> count p l <= count q l.
Proof.
  intros Hpq. unfold count. induction l as [| c l IH]; [done |]. cbn. destruct (p c) eqn:E; [rewrite (Hpq c E); cbn; lia |].
  destruct (q c); cbn; lia.
Qed.

Lemma count_split p q l : count (fun c => p c && q c) l + count (fun c => p c && negb (q c)) l = count p l.
Proof. unfold count. induction l as [| c l IH]; [done |]. cbn. destruct (p c), (q c); cbn; lia. Qed.

Lemma FloorSupport_counts cases class floor :
  fold_left (support_step class floor) cases (mkFloorSupport class floor 0 0 0 0) =
  mkFloorSupport class floor
    (count (fun c => graded class c && fle floor (Case_Confidence c)) cases)
    (count (fun c => graded class c && fle floor (Case_Confidence c) && won c) cases)
    (count (fun c => graded class c && negb (fle floor (Case_Confidence c))) cases)
    (count (fun c => graded class c && negb (fle floor (Case_Confidence c)) && won c) cases).
Proof.
  induction cases as [| c l IH] using rev_ind; [done |]. rewrite fold_left_app, IH, !count_snoc. cbn [fold_left].
  unfold support_step, graded, won. destruct (Case_FailureClass c =s class), (Case_Result c =s ResultRendered), (Case_Result c =s ResultApplied), (fle _ _);
    cbn [negb orb andb b2z FS_Class FS_Floor FS_AdmittedTotal FS_AdmittedWins FS_RefusedTotal FS_RefusedWins]; f_equal; lia.
Qed.

(** A floor splits a class's graded cases in two and loses none: admitted and
    refused add up to the graded cases, their wins to the successes, no side has more
    wins than cases, and a higher floor never admits more nor refuses fewer. *)
Theorem floors_partition_the_class (c : Corpus) class floor floor' :
  let fs := Corpus_FloorSupport c class floor in
  let fs' := Corpus_FloorSupport c class floor' in
  FS_AdmittedTotal fs + FS_RefusedTotal fs = count (graded class) (Corpus_Cases c) /\
  FS_AdmittedWins fs + FS_RefusedWins fs = count (fun cs => graded class cs && won cs) (Corpus_Cases c) /\
  0 <= FS_AdmittedWins fs <= FS_AdmittedTotal fs /\ 0 <= FS_RefusedWins fs <= FS_RefusedTotal fs /\
  (fle floor floor' = true -> FS_AdmittedTotal fs' <= FS_AdmittedTotal fs /\ FS_RefusedTotal fs <= FS_RefusedTotal fs').
Proof.
  unfold Corpus_FloorSupport. rewrite !FloorSupport_counts. cbv zeta. cbn [FS_AdmittedTotal FS_AdmittedWins FS_RefusedTotal FS_RefusedWins].
  set (l := Corpus_Cases c). assert (forall p, 0 <= count p l) as Hpos by (intros p; unfold count; lia).
  split; [apply count_split |]. split; [| split; [| split]].
  - rewrite <- (count_split (fun cs => graded class cs && won cs) (fun cs => fle floor (Case_Confidence cs)) l).
    f_equal; unfold count; do 2 f_equal; apply filter_ext; intros a; destruct (graded class a), (won a), (fle _ _); done.
  - split; [apply Hpos | apply count_mono; intros d; by rewrite andb_true_iff; intros []].
  - split; [apply Hpos | apply count_mono; intros d; by rewrite andb_true_iff; intros []].
  - intros Hle. assert (forall d, fle floor' (Case_Confidence d) = true -> fle floor (Case_Confidence d) = true) as Hd by (intros d; by apply fle_trans).
    split; apply count_mono; intros d; rewrite !andb_true_iff, ?negb_true_iff; intros [? Hf]; split; auto.
    apply not_true_is_false. intros Hx%Hd. congruence.
Qed.

(** a decision on the stream that escalates has no approver *)
Lemma Issued_escalate {W} (cfg : TransportConfig W) evs g :
  Issued cfg evs g -> Decision_Verdict (Governed_Decision g) = VerdictEscalate -> Decision_Approver (Governed_Decision g) = "".
Proof.
  intros [g' [now ->] | held a n1 n2 _ _ _ _]; [| done]. intros _.
  unfold Evaluate. destruct (recommended _); [| done]. destruct (gate_passed _); [| done]. destruct (stage1_reasons _ _ _ _); [| done].
  by destruct (bandRank _ <? bandRank _).
Qed.

(** No run's approval is ever a label: whatever travels on thump.decisions, over
    every run of the governance beat, [FromRecord] reads nothing from it — the label
    of a set is its outcome's alone, so the record never says [approved] or [denied]. *)
Theorem approvals_settle_nothing {W} `{PublisherLaws W Governed} (cfg : TransportConfig W) w evs g (set : ProposalSet) (out : Outcome) :
  approvals_quiet cfg -> delivered w = [] ->
  g ∈ on_subject "thump.decisions" (Tr_world (run cfg (buildTransport w) evs)) ->
  FromRecord set (Governed_Decision g) out = FromRecord set Decision_zero out /\
  forall l, FromRecord set (Governed_Decision g) out = Some l -> Label_Source l <> SourceApproved /\ Label_Source l <> SourceDenied.
Proof.
  intros Hq Hw Hin. pose proof (inv_stream _ _ _ (run_inv cfg w evs Hq Hw)) as HF.
  rewrite list.Forall_forall in HF. pose proof (Issued_escalate _ _ _ (HF _ Hin)) as He. unfold FromRecord.
  destruct (_ && _ && _); [split; [done |]; intros l [= <-]; cbn; by destruct (_ =s _) |].
  destruct (_ =s VerdictEscalate) eqn:E; cbn [andb]; [| done]. apply String.eqb_eq in E. by rewrite (He E).
Qed.

(** ** Concrete records *)

Definition demo_terminal_set : ProposalSet :=
  mkSet "p" "run-1" "slo_burn:acme/0" "slo_burn:acme" None "service_failure" [] [] [] "tier-1" None
    [weak_candidate] "c1" None (Some (mkStatus PhaseProposed "" "" "" 5)).

Definition demo_out (id dec : string) (res : Result) (t : Time) : Outcome :=
  mkOutcome id dec (Set_SignalRef demo_terminal_set) "k" ModeLive res "" t None.

Definition demo_outs : list Outcome :=
  [demo_out "o1" "d1" ResultApplied 6; demo_out "o2" "d1" ResultSuccess 9; demo_out "o3" "d2" ResultApplied 7].

Lemma populations_add_up_witness :
  (length (MineCorpus [demo_terminal_set] demo_outs) + inFlightCount demo_outs)%nat = 2%nat.
Proof.
  apply (populations_add_up [demo_terminal_set] demo_outs).
  intros o Ho _. repeat (apply elem_of_cons in Ho as [-> | Ho]; [by eexists |]). by apply not_elem_of_nil in Ho.
Defined.

Lemma mining_again_adds_nothing_witness :
  let m := mkCorpus 0 (MineCorpus [demo_terminal_set] demo_outs) 10 ["b"; "a"] in
  length (Corpus_Cases m) = 1%nat /\
  Corpus_Cases (mergeCorpus (mergeCorpus m m) m) ≡ₚ Corpus_Cases (mergeCorpus m m) /\
  Corpus_Segments (mergeCorpus (mergeCorpus m m) m) = Corpus_Segments (mergeCorpus m m).
Proof.
  intros m. split; [vm_compute; reflexivity |].
  destruct (mining_again_adds_nothing m m) as (Hc & Hs & _).
  - vm_compute Corpus_Cases. intros a b Ha Hb _. apply elem_of_app in Ha, Hb.
    rewrite !list_elem_of_singleton in Ha, Hb. destruct Ha as [-> | ->], Hb as [-> | ->]; reflexivity.
  - exact (conj Hc Hs).
Defined.

Lemma approvals_settle_nothing_witness :
  let g := mkGoverned (Evaluate weak_set demo_policy 5) weak_set in
  Decision_Verdict (Governed_Decision g) = VerdictEscalate /\
  FromRecord demo_terminal_set (Governed_Decision g) (demo_out "o1" "d1" ResultApplied 6)
    = FromRecord demo_terminal_set Decision_zero (demo_out "o1" "d1" ResultApplied 6).
Proof.
  intros g. split; [vm_compute; reflexivity |].
  destruct (approvals_settle_nothing demo_cfg empty_stream [EvProposal weak_set 5] g demo_terminal_set (demo_out "o1" "d1" ResultApplied 6)) as [E _].
  - exact demo_cfg_quiet.
  - reflexivity.
  - vm_compute. left.
  - exact E.
Defined.

(** an action that never ran, or was only proposed, is graded as one thump undid *)
Example blocked_is_reversed :
  FromRecord demo_terminal_set Decision_zero (demo_out "o1" "d1" ResultBlocked 6) = Some (mkLabel "run-1" false SourceReversed) /\
  FromRecord demo_terminal_set Decision_zero (demo_out "o1" "d1" ResultProposed 6) = Some (mkLabel "run-1" false SourceReversed).
Proof. vm_compute. done. Qed.
