(* ===== verification/Rca.v ===== *)
(** * internal/rca: the graded suite

    The table of graded rows, [Grade] and [GradeByLabel], the report, the harness and the files
    a graded run writes.  The theorems say what a pass means, that the table can be passed,
    that a probe publishes nothing and counts every run, that the two instruments blame a draw
    on the same cause, and that a graded run's files read back. *)

From Stdlib Require Import Ascii.
From S2P Require Import Prelude GoTime GoFloat Api Contract Hiss Publish ThumpExec ClankScore ClankLedger ClankEngine Decimal Strings Subjects Topology Evidence Changes Config Corpus Filepath Validate Archive Replay Models.
From S2P Require Probe.
Local Open Scope Z_scope.

(** ** internal/rca *)

(** *** table.go *)

Inductive runtime_Object : Type :=
| ObjPod (namespace name : string) (labels : gmap string string) (phase : string)
| ObjDeployment (d : Deployment)
| ObjConfigMap (c : ConfigMap).

Record Case : Type := mkCase {
  Case_Name : string;
  Case_Rig : string;
  Case_Fixture : string;
  Case_Evidence : list (string * string);      (** a map; its keys are distinct *)
  Case_WantDisposition : string;
  Case_WantContractRef : string;
  Case_WantClass : FailureClass;
  Case_MustCite : list string;
  Case_MustNotCite : list string;
  Case_KnownMiss : bool;
  Case_WantConfidenceAtLeast : float64;
  Case_WantCeilingBound : bool;
  Case_FaultObjects : list runtime_Object;
  Case_States : list (string * string)
}.

(** [time.Date] of the rows, by their seconds since 1970 *)
Definition time_Date (seconds : Z) : Time := (seconds + unixToInternal) * Second.

Definition argocd_sync_burn : Case :=
  (mkCase "argocd sync burn does not get explained away by a coincidentally-broken acme-api"
    "thump-test" "argocd-sync-burn.yaml"
    [("ceph_health", "0"); ("osds_down", "0"); ("osds_out", "0"); ("pgs_degraded", "0"); ("pgs_backfilling", "0"); ("recovery_ops_rate", "0");
     ("mons_in_quorum", "3"); ("cluster_used_ratio", "0.2"); ("fullest_pool_ratio", "0.3"); ("osd_write_latency_ms", "8");
     ("rgw_request_rate", "12"); ("rgw_failed_rate", "0"); ("nodes_not_ready", "0"); ("rook_pods_not_running", "0");
     ("argocd_apps_out_of_sync", "1"); ("acme_api_error_ratio", "1"); ("severity_acme_api_availability", "1")]
    "insufficient" "" "" [] ["acme_api_error_ratio"; "severity_acme_api_availability"] true f0 false
    [] [])%string.

Definition node_death : Case :=
  (mkCase "a node death reads as redundancy_degraded, not a coincidental RGW request-rate reading"
    "thump-test" "node-death.yaml"
    [("ceph_health", "1"); ("osds_down", "1"); ("osds_out", "0"); ("pgs_degraded", "48"); ("pgs_backfilling", "0"); ("recovery_ops_rate", "120");
     ("mons_in_quorum", "3"); ("cluster_used_ratio", "0.79"); ("fullest_pool_ratio", "0.91"); ("osd_write_latency_ms", "12");
     ("rgw_request_rate", "40"); ("rgw_failed_rate", "0"); ("nodes_not_ready", "1"); ("rook_pods_not_running", "1")]
    "propose" "" ClassRedundancyDegraded ["pgs_degraded"] ["rgw_request_rate"; "rgw_failed_rate"] false f0 false
    [] [])%string.

Definition ceph_osd_latency : Case :=
  (mkCase "a PG-merge latency spike does not get explained away by ordinary RGW load"
    "thump-test" "ceph-osd-latency.yaml"
    [("ceph_health", "0"); ("osds_down", "0"); ("osds_out", "0"); ("pgs_degraded", "0"); ("pgs_backfilling", "40"); ("recovery_ops_rate", "18");
     ("mons_in_quorum", "3"); ("cluster_used_ratio", "0.18"); ("fullest_pool_ratio", "0.24"); ("osd_write_latency_ms", "260");
     ("rgw_request_rate", "126"); ("rgw_failed_rate", "0"); ("nodes_not_ready", "0"); ("rook_pods_not_running", "0")]
    "insufficient" "" "" [] ["rgw_request_rate"] false f0 false
    [] [])%string.

Definition rgw_degradation : Case :=
  (mkCase "an RGW-availability burn does not get explained away by an unrelated recovery-ops reading"
    "thump-test" "rgw-degradation.yaml"
    [("ceph_health", "0"); ("osds_down", "0"); ("osds_out", "0"); ("pgs_degraded", "0"); ("pgs_backfilling", "0"); ("recovery_ops_rate", "11366");
     ("mons_in_quorum", "3"); ("cluster_used_ratio", "0.0715"); ("fullest_pool_ratio", "0.02"); ("osd_write_latency_ms", "10.8");
     ("rgw_request_rate", "0.1074"); ("rgw_failed_rate", "0.0034"); ("slo_burn_rgw", "34.28"); ("nodes_not_ready", "0");
     ("rook_pods_not_running", "4")]
    "insufficient" "" "" [] ["recovery_ops_rate"; "rook_pods_not_running"] true f0 false
    [] [])%string.

Definition hold_rebalance_osd_down : Case :=
  (mkCase "a real OSD pod-failure holds the rebalance rather than escalating past it"
    "thump-test" "hold-rebalance-osd-down.yaml"
    [("ceph_health", "1"); ("osds_down", "1"); ("osds_out", "0"); ("pgs_degraded", "70"); ("pgs_backfilling", "0"); ("recovery_ops_rate", "0");
     ("mons_in_quorum", "3"); ("cluster_used_ratio", "0.0134"); ("fullest_pool_ratio", "0.0051"); ("osd_write_latency_ms", "15.8");
     ("rgw_request_rate", "0.2"); ("rgw_failed_rate", "0"); ("nodes_not_ready", "0"); ("rook_pods_not_running", "4")]
    "propose" "hold-rebalance" ClassRedundancyDegraded ["pgs_degraded"] [] false (flit 65 100) true
    [ObjDeployment (mkDeployment "rook-ceph" "rook-ceph-operator" 1 [mkDeploymentCondition DeploymentProgressing (time_Date 1785670147)])] [("ceph-osd", StateDegraded)])%string.

Definition accelerate_recovery : Case :=
  (mkCase "a real OSD pod-failure proposes the high-blast recovery accelerant, held for a human"
    "thump-test" "accelerate-recovery-cephblockpool.yaml"
    [("ceph_health", "1"); ("osds_down", "1"); ("osds_out", "0"); ("pgs_degraded", "70"); ("pgs_backfilling", "0"); ("recovery_ops_rate", "0");
     ("mons_in_quorum", "3"); ("cluster_used_ratio", "0.0135"); ("fullest_pool_ratio", "0.0051"); ("osd_write_latency_ms", "13.6");
     ("rgw_request_rate", "0.2"); ("rgw_failed_rate", "0"); ("nodes_not_ready", "0"); ("rook_pods_not_running", "4")]
    "propose" "accelerate-recovery" ClassRedundancyDegraded ["pgs_degraded"] [] true (flit 65 100) false
    [] [])%string.

Definition disable_cart_failure : Case :=
  (mkCase "a real cartFailure flag flip proposes the flag fix, not the pod restart"
    "dev" "disable-cart-failure.yaml"
    [("slo_burn_cart", "50"); ("severity_cart_availability", "0.5"); ("cart_error_ratio", "0.4737"); ("demo_pods_not_running", "0");
     ("cart", "ERROR cart-6f9d4c: EmptyCart RPC failed, payment gateway timeout")]
    "propose" "disable-cart-failure" ClassServiceFailure ["cart_error_ratio"] [] false (flit 65 100) true
    [ObjConfigMap (mkConfigMap "otel-demo" "flagd-config" "100" [mkManagedField "kubectl-edit" (Some (time_Date 1785670806))])] [])%string.

Definition ceph_rgw_saturation : Case :=
  (mkCase "an RGW CPU-saturation burn declines rather than mislabeling traffic_shift as dependency_saturation"
    "thump-test" "ceph-rgw-saturation.yaml"
    [("ceph_health", "0"); ("osds_down", "0"); ("osds_out", "0"); ("pgs_degraded", "0"); ("pgs_backfilling", "0"); ("recovery_ops_rate", "0");
     ("mons_in_quorum", "3"); ("cluster_used_ratio", "0.0997"); ("fullest_pool_ratio", "0.02"); ("osd_write_latency_ms", "16.9");
     ("rgw_request_rate", "209.4"); ("rgw_failed_rate", "0"); ("rgw_get_put_latency_ms", "173.2"); ("slo_burn_rgw", "0");
     ("slo_burn_rgw_saturation", "60"); ("nodes_not_ready", "0"); ("rook_pods_not_running", "0")]
    "insufficient" "" "" [] [] false f0 false
    [] [])%string.

Definition acme_api_failure : Case :=
  (mkCase "a real acme-api connection-pool leak proposes shedding load, not a bare request-error reading"
    "dev" "acme-api-failure.yaml"
    [("acme_api_error_ratio", "0.504"); ("acme_db_connections_saturation", "0.667");
     ("acme-api", ("127.0.0.1 - - [15/Aug/2026 21:54:59] " +:+ dquote +:+ "GET /fail HTTP/1.1" +:+ dquote +:+ " 500 -"))]
    "propose" "acme-shed-load" ClassDependencySaturation ["acme_db_connections_saturation"] [] false (flit 65 100) true
    [ObjConfigMap (mkConfigMap "acme" "acme-fault-flag" "200" [mkManagedField "kubectl-edit" (Some (time_Date 1786917427))])] [])%string.

Definition Table : list Case :=
  [argocd_sync_burn; node_death; ceph_osd_latency; rgw_degradation; hold_rebalance_osd_down; accelerate_recovery;
   disable_cart_failure; ceph_rgw_saturation; acme_api_failure].

(** *** report.go *)

Inductive Bound : Type := BoundNone | BoundEvidence | BoundSelfReport.

Record Row : Type := mkRow {
  Row_Name : string;
  Row_Pass : bool;
  Row_KnownMiss : bool;
  Row_Miss : string;
  Row_Class : FailureClass;
  Row_ContractRef : string;
  Row_Computed : float64;
  Row_Confidence : float64;
  Row_CeilingBound : bool;
  Row_Corroborated : Z
}.

Definition BoundBy (row : Row) (floor : float64) : Bound :=
  if flt (Row_Computed row) floor then BoundEvidence
  else if flt (Row_Confidence row) floor then BoundSelfReport
  else BoundNone.

Record Report : Type := mkReport { Report_Rows : list Row; Report_Scored : Z; Report_Floor : Z }.

Definition NewReport (rows : list Row) : Report :=
  fold_left (fun r row =>
      mkReport (Report_Rows r) (if Row_Pass row then Report_Scored r + 1 else Report_Scored r)
        (if negb (Row_KnownMiss row) then Report_Floor r + 1 else Report_Floor r))
    rows (mkReport rows 0 0).

Definition Floor : Z := fold_left (fun floor c => if negb (Case_KnownMiss c) then floor + 1 else floor) Table 0.

Definition Met (r : Report) : bool := Report_Floor r <=? Report_Scored r.

Definition sample (r : Row) : Probe.Sample :=
  Probe.mkSample (negb (Row_ContractRef r =s "")) (Row_Confidence r) (Row_Computed r) (Row_CeilingBound r) (Row_Corroborated r).

Definition citesAll (got want : list string) : bool := forallb (slices_Contains got) want.
Definition citesAny (got want : list string) : bool := existsb (slices_Contains got) want.

(** the checks of a proposed candidate, in their order: the first that fails *)
Definition miss_of (c : Case) (class : FailureClass) (top : Candidate) : option string :=
  if class <>s Case_WantClass c then Some ("wrong failure class: " +:+ class)
  else if (Case_WantContractRef c <>s "") && (Candidate_ContractRef top <>s Case_WantContractRef c)
  then Some ("wrong action: " +:+ Candidate_ContractRef top)
  else if negb (citesAll (Candidate_Citations top) (Case_MustCite c)) then Some "did not cite the distinguishing evidence"%string
  else if citesAny (Candidate_Citations top) (Case_MustNotCite c) then Some "cited the decoy"%string
  else if fgt (Case_WantConfidenceAtLeast c) f0 && flt (Candidate_Confidence top) (Case_WantConfidenceAtLeast c)
  then Some "confidence below the row's floor"%string
  else if fgt (Case_WantConfidenceAtLeast c) f0 && negb (Bool.eqb (Candidate_ConfidenceCeilingBound top) (Case_WantCeilingBound c))
  then Some "ceiling-bound disagreed with the row"%string
  else None.

Definition Grade (c : Case) (set : ProposalSet) : Row :=
  let bare pass miss := mkRow (Case_Name c) pass (Case_KnownMiss c) miss (Set_FailureClass set) "" f0 f0 false 0 in
  if Case_WantDisposition c =s "insufficient"
  then match Set_Proposals set with
       | [] => bare true ""%string
       | _ => bare false "wanted insufficient, got a proposal"%string
       end
  else match Set_Proposals set with
       | [] => bare false "wanted a proposal, got insufficient"%string
       | top :: _ =>
           let graded pass miss := mkRow (Case_Name c) pass (Case_KnownMiss c) miss (Set_FailureClass set) (Candidate_ContractRef top)
                                     (Candidate_ComputedConfidence top) (Candidate_Confidence top) (Candidate_ConfidenceCeilingBound top)
                                     (ConfidenceTerms_Corroborated (Candidate_Terms top)) in
           match miss_of c (Set_FailureClass set) top with
           | Some miss => graded false miss
           | None => graded true ""%string
           end
       end.

Definition GradeByLabel (l : Label) (set : ProposalSet) : Row :=
  let miss := if Label_Correct l then ""%string else "label settled this run as incorrect: " +:+ Label_Source l in
  match Set_Proposals set with
  | [] => mkRow (Label_RunID l) (Label_Correct l) false miss (Set_FailureClass set) "" f0 f0 false 0
  | top :: _ => mkRow (Label_RunID l) (Label_Correct l) false miss (Set_FailureClass set) (Candidate_ContractRef top)
                  (Candidate_ComputedConfidence top) (Candidate_Confidence top) (Candidate_ConfidenceCeilingBound top)
                  (ConfidenceTerms_Corroborated (Candidate_Terms top))
  end.

(** *** The files of a graded run: harness.go and store.go *)

(** [filepath.Ext] *)
Definition Ext (path : string) : string :=
  match cut_last path "."%char with
  | Some (_, ext) => if strings_Contains ext "/" then "" else "." +:+ ext
  | None => ""
  end.

Definition stem (fixture : string) : string := strings_TrimSuffix fixture (Ext fixture).
Definition setPath (transcripts fixture : string) : string := Join [transcripts; stem fixture +:+ ".set.json"].
Definition transcriptPath (transcripts fixture : string) : string := Join [transcripts; stem fixture +:+ ".jsonl"].
Definition TranscriptName (c : Case) : string := stem (Case_Fixture c).

Record caseStore : Type := mkCaseStore { cs_path : string; cs_started : bool }.

Definition newCaseStore (dir fixture : string) : caseStore := mkCaseStore (transcriptPath dir fixture) false.

(** a store and the files beside it *)
Record Disk : Type := mkDisk { Disk_store : caseStore; Disk_files : gmap string string }.

(** what comes of opening a file and writing to it: a failed write leaves a prefix behind *)
Inductive FileWrite : Type := Written | OpenFailed (err : error) | WriteFailed (n : nat) (err : error).

(** the first line of a run truncates the file *)
Definition appendLine (write : string -> FileWrite) (b : result string) (d : Disk) : Disk * option error :=
  match b with
  | inr err => (d, Some (errorf_w "case store: marshal: " err))
  | inl b =>
      let path := cs_path (Disk_store d) in
      let old := if cs_started (Disk_store d) then default ""%string (Disk_files d !! path) else ""%string in
      let line := b +:+ newline in
      match write path with
      | Written => (mkDisk (mkCaseStore path true) (<[path := old +:+ line]> (Disk_files d)), None)
      | OpenFailed err => (d, Some (errorf_w ("case store: open " +:+ path +:+ ": ") err))
      | WriteFailed n err =>
          (mkDisk (Disk_store d) (<[path := old +:+ String.substring 0 n line]> (Disk_files d)), Some (errorf_w ("case store: write " +:+ path +:+ ": ") err))
      end
  end.

Section files.
Context (write : string -> FileWrite) (marshal_turn : Turn -> result string) (marshal_end : option error -> result string)
        (marshal_set : ProposalSet -> result string).

Definition caseStore_Checkpoint (ctx : context) (t : Turn) (d : Disk) : Disk * option error :=
  match ctx_Err ctx with Some err => (d, Some err) | None => appendLine write (marshal_turn t) d end.

Definition caseStore_Pending (ctx : context) (d : Disk) : result (list Turn) :=
  match ctx_Err ctx with Some err => inr err | None => inl [] end.

Definition caseStore_Finish (ctx : context) (runID : string) (runErr : option error) (d : Disk) : Disk * option error :=
  match ctx_Err ctx with Some err => (d, Some err) | None => appendLine write (marshal_end runErr) d end.

Definition writeSet (transcripts fixture : string) (set : ProposalSet) (files : gmap string string) : gmap string string * option error :=
  match marshal_set set with
  | inr err => (files, Some err)
  | inl raw =>
      let path := setPath transcripts fixture in
      match write path with
      | Written => (<[path := raw]> files, None)
      | OpenFailed err => (files, Some err)
      | WriteFailed n err => (<[path := String.substring 0 n raw]> files, Some err)
      end
  end.

End files.

(** *** fixtures.go and harness.go: what the fake backends are scripted with *)

Definition promQLByName (queries : gmap string Query) : gmap string string := Query_Query <$> queries.

(** the map [fakePrometheus] answers from: the PromQL the tool will send, to its value *)
Definition byExpr (promQL : gmap string string) (values : list (string * string)) : gmap string string :=
  fold_left (fun m kv => match promQL !! kv.1 with Some expr => <[expr := kv.2]> m | None => m end) values ∅.

Definition logQLFor (namespace : string) (labels : gmap string string) : string :=
  let keys := sort_Strings (map fst (map_to_list labels)) in
  "{" +:+ strings_Join (("namespace=" +:+ fmt_q namespace) :: map (fun k => k +:+ "=" +:+ fmt_q (label labels k)) keys) ", " +:+ "}".

Definition lokiLines (idx : SubjectIndex) (scripted : gmap string string) : gmap string string :=
  fold_left (fun m rule =>
      let labels := Co_Labels (Rule_Coordinates rule) in
      if bool_decide (labels = ∅) || ((Rule_Plane rule <>s "") && (Rule_Plane rule <>s "loki")) then m
      else match scripted !! Rule_Subject rule with
           | Some line => <[logQLFor (Co_Namespace (Rule_Coordinates rule)) labels := line]> m
           | None => m
           end) idx ∅.

(** [rigTopology.Topology]: the catalog's edges, each in the state the row gives it *)
Definition rigTopology_Topology (cat : Catalog) (states : gmap string string) (sig : Detection) : TopologySnapshot :=
  mkTopologySnapshot
    (map (fun dep => mkNodeState dep (let s := label states dep in if s =s "" then StateHealthy else s) 0 f0)
       (Catalog_Edges cat (Detection_OriginService sig))) [].

(** *** harness.go: one graded run *)

(** the files a row is graded against, as their loaders return them *)
Record RigFiles : Type := mkRigFiles {
  rf_detection : string -> result Detection;
  rf_catalog : string -> result StaticCatalog;
  rf_classes : string -> result (list FailureClassDefinition);
  rf_evidence : string -> result EvidenceConfig;
  rf_whir : string -> result Catalog
}.

(** kubeobjects.go: one pod of the file *)
Record kubeObject : Type := mkKubeObject {
  ko_Name : string; ko_Namespace : string; ko_Labels : gmap string string; ko_Phase : string
}.

(** a rig without the file grades over an empty cluster *)
Definition loadKubeObjects (ReadFile : string -> result string) (decode : string -> result (list kubeObject)) (path : string)
  : result (list runtime_Object) :=
  match ReadFile path with
  | inr err => if errors_Is err ErrNotExist then inl [] else inr (errorf_w ("read kube objects " +:+ path +:+ ": ") err)
  | inl raw =>
      match decode raw with
      | inr err => inr (errorf_w ("parse kube objects " +:+ path +:+ ": ") err)
      | inl pods => inl (map (fun p => ObjPod (ko_Namespace p) (ko_Name p) (ko_Labels p) (ko_Phase p)) pods)
      end
  end.

Section harness.
Context {M WP WJ : Type} `{PublisherLaws WP ProposalSet} `{PublisherLaws WJ ProposalSet}.
(** [file] is the path of the package's sources.  [fakes] are the tools over the fake
    Prometheus, the fake Loki and the fake cluster, given what each is scripted with, and
    [changes] is the change source over the fake cluster *)
Context (rf : RigFiles) (file : string) (wire : Wire)
        (fakes : gmap string Query -> gmap string string -> gmap string string -> list runtime_Object -> SubjectIndex -> gmap string (Tool (M := M)))
        (changes : list runtime_Object -> SubjectIndex -> Time -> Detection -> M -> M * result ChangeSnapshot)
        (write : string -> FileWrite) (marshal_turn : Turn -> result string) (marshal_end : option error -> result string)
        (marshal_set : ProposalSet -> result string)
        (complete : list Message -> list ToolSpec -> M -> M * result Completion).

Abbreviation Eng := (Engine (M := M) (S_ := Disk)).

Definition loadDetection (name : string) : result Detection :=
  rf_detection rf (Join [repoRoot file; "internal"; "clank"; "testdata"; "detections"; name]%string).

Definition newHarness (c : Case) (w : ScoringWeights) (profile : string) (kubeObjects : list runtime_Object) : result (Eng * Detection) :=
  match loadDetection (Case_Fixture c) with
  | inr err => inr err
  | inl det =>
  match rf_catalog rf (configPath file [profile; "actions"; "catalog.yaml"]%string) with
  | inr err => inr (errorf_w "load catalog: " err)
  | inl cat =>
  match rf_classes rf (configPath file [profile; "actions"; "failure-classes.yaml"]%string) with
  | inr err => inr (errorf_w "load failure classes: " err)
  | inl classes =>
  match rf_evidence rf (configPath file [profile; "whir"; "evidence-queries.yaml"]%string) with
  | inr err => inr (errorf_w "load evidence queries: " err)
  | inl ev =>
  match rf_whir rf (configPath file [profile; "whir"; "catalog-info.yaml"]%string) with
  | inr err => inr (errorf_w "load catalog-info: " err)
  | inl whirCat =>
      let objects := kubeObjects ++ Case_FaultObjects c in
      let tools := fakes (Evidence_Queries ev) (byExpr (promQLByName (Evidence_Queries ev)) (Case_Evidence c))
                     (lokiLines (Evidence_Index ev) (list_to_map (Case_Evidence c))) objects (Evidence_Index ev) in
      let intake := mkIntake (fun sig m => (m, inl (rigTopology_Topology whirCat (list_to_map (Case_States c)) sig)))
                      (changes objects (Evidence_Index ev) (Detection_DetectedAt det)) in
      let cases := Alignment NewCaseBase in
      inl (mkEngine intake complete tools cat classes
             (mkStore (caseStore_Checkpoint write marshal_turn Background) (caseStore_Finish write marshal_end Background))
             (Some cases) (Some cases) Hour false false (Limits_MaxSteps DefaultLimits) w
             (Wire_schema wire) (Wire_propose wire) (Wire_insufficient wire), det)
  end end end end end.

(** the model's world and the files; [pub] and [journal] are never used *)
Definition RunCase (ck : Clock) (c : Case) (w : ScoringWeights) (transcripts profile : string) (kubeObjects : list runtime_Object)
  (pub : WP) (journal : WJ) (st : M * gmap string string) : (M * gmap string string) * result Row :=
  match newHarness c w profile kubeObjects with
  | inr err => (st, inr err)
  | inl (eng, det) =>
      let st0 := mkEngState st.1 (mkDisk (newCaseStore transcripts (Case_Fixture c)) st.2) NewMemProposalLog pub journal in
      match Propose eng Background ck det id st0 with
      | (st1, inr err) => ((Es_env st1, Disk_files (Es_store st1)), inr (errorf_w ("propose " +:+ Case_Name c +:+ ": ") err))
      | (st1, inl set) =>
          match writeSet write marshal_set transcripts (Case_Fixture c) set (Disk_files (Es_store st1)) with
          | (files, Some err) => ((Es_env st1, files), inr (errorf_w ("write set for " +:+ Case_Name c +:+ ": ") err))
          | (files, None) => ((Es_env st1, files), inl (Grade c set))
          end
      end
  end.

End harness.

(** *** rca.go *)

Record rcaFlags : Type := mkRcaFlags {
  rca_json : bool; rca_transcripts : string; rca_row : string; rca_rig : string; rca_model : string; rca_runs : Z; rca_floor : float64
}.

Definition selected (fl : rcaFlags) (c : Case) : bool :=
  (Case_Rig c =s rca_rig fl) && ((rca_row fl =s "") || strings_Contains (Case_Name c) (rca_row fl)).

Definition render_row (r : Row) : string :=
  pad_right 5 (if Row_Pass r then "PASS" else if Row_KnownMiss r then "KNOWN" else "MISS") +:+ " " +:+ pad_right 58 (Row_Name r) +:+ " class="
  +:+ pad_right 20 (Row_Class r) +:+ " computed=" +:+ fmt_f 2 (Row_Computed r) +:+ " emitted=" +:+ fmt_f 2 (Row_Confidence r) +:+ " ceiling="
  +:+ (if Row_CeilingBound r then "BOUND" else "-") +:+ " " +:+ Row_Miss r +:+ newline.

Definition render_report (rep : Report) : string :=
  String.concat "" (map render_row (Report_Rows rep)) +:+ newline +:+ "scored " +:+ fmt_d (Report_Scored rep) +:+ "/"
  +:+ fmt_d (Z.of_nat (length (Report_Rows rep))) +:+ ", floor " +:+ fmt_d (Report_Floor rep) +:+ newline.

Section suite.
Context {W : Type} (runCase : Case -> W -> W * result Row).

(** the draws of one row *)
Fixpoint draws (n : nat) (c : Case) (w : W) (rows : list Row) : W * result (list Row) :=
  match n with
  | O => (w, inl rows)
  | S n' => match runCase c w with
            | (w', inr err) => (w', inr err)
            | (w', inl row) => draws n' c w' (rows ++ [row])
            end
  end.

(** every selected row, with the summaries printed on the way *)
Fixpoint suite (fl : rcaFlags) (cases : list Case) (w : W) (out : string) (rows : list Row) : W * string * result (list Row) :=
  match cases with
  | [] => (w, out, inl rows)
  | c :: cases' =>
      if negb (selected fl c) then suite fl cases' w out rows
      else match draws (Z.to_nat (rca_runs fl)) c w [] with
           | (w', inr err) => (w', out, inr err)
           | (w', inl drawn) =>
               let out := if 1 <? rca_runs fl
                          then out +:+ Case_Name c +:+ ":" +:+ newline +:+ Probe.RenderSummary (Probe.Summarize (map sample drawn) (rca_floor fl))
                          else out in
               suite fl cases' w' out (rows ++ drawn)
           end
  end.

(** the directory transcripts go to *)
Definition transcripts_dir (fl : rcaFlags) (getenv : string -> string) (tempDir : string) : string :=
  if negb (rca_transcripts fl =s "") then rca_transcripts fl
  else if negb (getenv "CLANK_RCA_TRANSCRIPTS" =s "")%string then getenv "CLANK_RCA_TRANSCRIPTS"%string
  else Join [tempDir; "clank-rca-transcripts"]%string.

End suite.

(** [Main] past the flags.  [modelsel] is modelsel.For, [mkdir] makes the directory,
    [weights] and [objects] load the weights and the cluster's objects, and [runCase]
    then grades a row with them. *)
Definition Main {W : Type} (flags : option rcaFlags) (modelsel : string -> result (ModelChoice + string)) (getenv : string -> string)
  (tempDir file : string) (mkdir : string -> option error) (weights : string -> result ScoringWeights)
  (objects : string -> result (list runtime_Object))
  (runCase : ModelChoice -> ScoringWeights -> string -> string -> list runtime_Object -> Case -> W -> W * result Row)
  (encode : Report -> result string) (w : W) : W * Exit :=
  match flags with
  | None => (w, mkExit 2 "" "")
  | Some fl =>
      if rca_rig fl =s ""
      then (w, fail 2 "usage: rca -rig <name> [-json] [-transcripts dir] [-row substring] [-model haiku|sonnet|gemini-low] [-runs N] [-floor F]")
      else match modelsel (rca_model fl) with
           | inr err => (w, fail 1 ("rca: " +:+ err_text err))
           | inl (inr skip) => (w, mkExit 0 "" (skip +:+ " unset - the RCA harness needs a real model; skipping" +:+ newline))
           | inl (inl model) =>
               let dir := transcripts_dir fl getenv tempDir in
               let note := "transcripts (read a row's own directory when it misses): " +:+ dir +:+ newline in
               match mkdir dir, weights (configPath file ["clank"; "weights.yaml"]%string),
                     objects (configPath file [rca_rig fl; "rca"; "kube-objects.yaml"]%string) with
               | Some err, _, _ => (w, fail 1 ("rca: " +:+ err_text err))
               | None, inr err, _ | None, inl _, inr err => (w, mkExit 1 "" (note +:+ "rca: " +:+ err_text err +:+ newline))
               | None, inl weights, inl kubeObjects =>
                   match suite (runCase model weights dir (rca_rig fl) kubeObjects) fl Table w "" [] with
                   | (w', out, inr err) => (w', mkExit 1 out (note +:+ "rca: " +:+ err_text err +:+ newline))
                   | (w', out, inl rows) =>
                       let rep := NewReport rows in
                       let code := if Met rep then 0 else 1 in
                       if rca_json fl
                       then match encode rep with
                            | inr err => (w', mkExit 1 out (note +:+ "rca: " +:+ err_text err +:+ newline))
                            | inl text => (w', mkExit code (out +:+ text) note)
                            end
                       else (w', mkExit code (out +:+ render_report rep) note)
                   end
               end
           end
  end.

(** ** What a pass means *)

Definition meets (c : Case) (set : ProposalSet) : Prop :=
  if Case_WantDisposition c =s "insufficient" then Set_Proposals set = []
  else exists top rest, Set_Proposals set = top :: rest /\ Set_FailureClass set = Case_WantClass c /\
    (Case_WantContractRef c <> ""%string -> Candidate_ContractRef top = Case_WantContractRef c) /\
    (forall key, key ∈ Case_MustCite c -> key ∈ Candidate_Citations top) /\
    (forall key, key ∈ Case_MustNotCite c -> key ∉ Candidate_Citations top) /\
    (fgt (Case_WantConfidenceAtLeast c) f0 = true ->
       flt (Candidate_Confidence top) (Case_WantConfidenceAtLeast c) = false /\ Candidate_ConfidenceCeilingBound top = Case_WantCeilingBound c).

Lemma citesAll_iff got want : citesAll got want = true <-> forall key, key ∈ want -> key ∈ got.
Proof.
  unfold citesAll. rewrite forallb_forall. split; intros H key Hk.
  - by apply slices_Contains_iff, H, list_elem_of_In.
  - by apply slices_Contains_iff, H, list_elem_of_In.
Qed.

Lemma citesAny_false got want : citesAny got want = false <-> forall key, key ∈ want -> key ∉ got.
Proof.
  unfold citesAny. rewrite <- not_true_iff_false, existsb_elem. split.
  - intros H key Hk Hg. apply H. exists key. split; [done |]. by apply slices_Contains_iff.
  - intros H (key & Hk & Hg%slices_Contains_iff). by eapply H.
Qed.

Lemma miss_of_None c class top : miss_of c class top = None <->
  class = Case_WantClass c /\ (Case_WantContractRef c <> ""%string -> Candidate_ContractRef top = Case_WantContractRef c) /\
  citesAll (Candidate_Citations top) (Case_MustCite c) = true /\ citesAny (Candidate_Citations top) (Case_MustNotCite c) = false /\
  (fgt (Case_WantConfidenceAtLeast c) f0 = true ->
     flt (Candidate_Confidence top) (Case_WantConfidenceAtLeast c) = false /\ Candidate_ConfidenceCeilingBound top = Case_WantCeilingBound c).
Proof.
  unfold miss_of. destruct (class =s Case_WantClass c) eqn:E1; simpl; [apply String.eqb_eq in E1 | apply String.eqb_neq in E1; naive_solver].
  destruct (Case_WantContractRef c =s "") eqn:E2; simpl; [apply String.eqb_eq in E2 | apply String.eqb_neq in E2].
  2: destruct (Candidate_ContractRef top =s Case_WantContractRef c) eqn:E3; simpl; [apply String.eqb_eq in E3 | apply String.eqb_neq in E3; naive_solver].
  all: destruct (citesAll _ _); simpl; [| naive_solver]; destruct (citesAny _ _); simpl; [naive_solver |];
       destruct (fgt _ f0); simpl; [| naive_solver]; destruct (flt _ _); simpl; [naive_solver |];
       destruct (Candidate_ConfidenceCeilingBound top), (Case_WantCeilingBound c); simpl; naive_solver.
Qed.

Lemma miss_of_Some c class top miss : miss_of c class top = Some miss -> miss <> ""%string.
Proof. unfold miss_of. repeat case_match; intros [= <-]; done. Qed.

(** [Grade] passes exactly the sets the row asks for, and says why it fails every other:
    a declined row passes when nothing was proposed; a proposing row when the first candidate
    is of the wanted class and action, cites all the distinguishing evidence and none of the
    decoy, and, when the row grades confidence, is no less confident than it asks and bound
    by its ceiling as it expects. *)
Theorem grade_is_the_label c set :
  (Row_Pass (Grade c set) = true <-> meets c set) /\ (Row_Miss (Grade c set) = ""%string <-> Row_Pass (Grade c set) = true) /\
  Row_Class (Grade c set) = Set_FailureClass set /\ Row_KnownMiss (Grade c set) = Case_KnownMiss c.
Proof.
  unfold Grade, meets. destruct (Case_WantDisposition c =s "insufficient").
  - destruct (Set_Proposals set); simpl; repeat split; try done; naive_solver.
  - destruct (Set_Proposals set) as [| top rest]; simpl; [repeat split; try done; naive_solver |].
    destruct (miss_of c _ top) as [miss |] eqn:E; simpl.
    + pose proof (miss_of_Some _ _ _ _ E). repeat split; try done. intros (top' & rest' & [= <- <-] & H1 & H2 & H3 & H4 & H5).
      assert (miss_of c (Set_FailureClass set) top = None) as E'; [| by rewrite E' in E].
      apply miss_of_None. rewrite citesAll_iff, citesAny_false. naive_solver.
    + apply miss_of_None in E as (H1 & H2 & H3 & H4 & H5). rewrite citesAll_iff in H3. rewrite citesAny_false in H4. repeat split; try done. intros _. exists top, rest. naive_solver.
Qed.

(** ** The table *)

(** a set that answers a row as it asks *)
Definition answer (c : Case) : ProposalSet :=
  let top := mkCandidate "c1" (Case_WantContractRef c) (Case_WantConfidenceAtLeast c) (Case_WantConfidenceAtLeast c) (Case_WantCeilingBound c)
               ConfidenceTerms_zero None "" None None 1 (Case_MustCite c) in
  mkSet "" "" "" "" None (Case_WantClass c) [] [] [] "" None (if Case_WantDisposition c =s "insufficient" then [] else [top]) "" None None.

Definition keys_of (c : Case) : list string := map fst (Case_Evidence c).

(** The graded table is sound: every row can be passed; what a row wants cited, and what it
    wants not cited, is among the evidence it scripts, and no key is both; no row scripts a key
    twice; and no two rows share a name or the files their runs are kept in. *)
Theorem table_is_gradable :
  Forall (fun c => Row_Pass (Grade c (answer c)) = true /\ NoDup (keys_of c) /\
    Forall (fun key => key ∈ keys_of c /\ key ∉ Case_MustNotCite c) (Case_MustCite c) /\
    Forall (fun key => key ∈ keys_of c) (Case_MustNotCite c)) Table /\
  NoDup (map Case_Name Table) /\ NoDup (map TranscriptName Table).
Proof. split; [| split; apply (bool_decide_unpack _); vm_compute; exact I]. apply (bool_decide_unpack _). vm_compute. exact I. Qed.

(** nine rows, three of them known misses *)
Example table_has_nine_rows : length Table = 9%nat /\ length (List.filter Case_KnownMiss Table) = 3%nat /\ Floor = 6.
Proof. vm_compute. auto. Qed.

(** ** The report *)

Lemma NewReport_counts rows :
  NewReport rows = mkReport rows (Z.of_nat (length (List.filter Row_Pass rows))) (Z.of_nat (length (List.filter (fun r => negb (Row_KnownMiss r)) rows))).
Proof.
  unfold NewReport. set (f := fun r row => mkReport _ _ _).
  assert (forall l r, fold_left f l r = mkReport (Report_Rows r) (Report_Scored r + Z.of_nat (length (List.filter Row_Pass l)))
                                          (Report_Floor r + Z.of_nat (length (List.filter (fun r => negb (Row_KnownMiss r)) l)))) as H.
  { induction l as [| row l IH]; intros r; simpl; [destruct r; simpl; f_equal; lia |]. rewrite IH. unfold f. simpl.
    destruct (Row_Pass row), (Row_KnownMiss row); simpl; f_equal; lia. }
  by rewrite H.
Qed.

(** a known miss that passes counts for the floor, and makes up for a row that fails *)
Example lucky_miss_covers_a_failure :
  let miss := mkRow "known" true true "" "" "" f0 f0 false 0 in
  let fail := mkRow "graded" false false "cited the decoy" "" "" f0 f0 false 0 in
  Met (NewReport [miss; fail]) = true.
Proof. reflexivity. Qed.

(** ** The fold of a sample *)

#[export] Instance Bound_eq_dec : EqDecision Bound.
Proof. solve_decision. Defined.

(** the rows that proposed nothing, and those that proposed and are bound by [b] *)
Definition silent (r : Row) : bool := Row_ContractRef r =s "".
Definition bound (floor : float64) (b : Bound) (r : Row) : bool := negb (silent r) && bool_decide (BoundBy r floor = b).
Definition tally (p : Row -> bool) (rows : list Row) : Z := Z.of_nat (length (List.filter p rows)).

(** a row of a scored candidate: its confidence is no more than what was computed *)
Definition scored_row (r : Row) : Prop := fle (Row_Confidence r) (Row_Computed r) = true.

Lemma floor_cases (r : Row) floor : is_nan floor = false -> scored_row r ->
  (fle floor (Row_Confidence r) = true /\ BoundBy r floor = BoundNone) \/
  (fle floor (Row_Confidence r) = false /\ flt (Row_Computed r) floor = true /\ BoundBy r floor = BoundEvidence) \/
  (fle floor (Row_Confidence r) = false /\ flt (Row_Computed r) floor = false /\ BoundBy r floor = BoundSelfReport).
Proof.
  intros Hn Hs. unfold BoundBy. destruct (fle floor (Row_Confidence r)) eqn:E.
  - left. rewrite (fle_flt_false _ _ (fle_trans _ _ _ E Hs)), (fle_flt_false _ _ E). done.
  - right. destruct (flt (Row_Computed r) floor) eqn:Ec; [by left |]. right.
    assert (flt (Row_Confidence r) floor = true) as ->; [| done].
    destruct (flt (Row_Confidence r) floor) eqn:Ef; [done |]. exfalso.
    assert (is_nan (Row_Confidence r) = false) as Hnc by (unfold scored_row in Hs; unfold is_nan; destruct (Row_Confidence r); done).
    destruct (flt_total (Row_Confidence r) floor Hnc Hn); congruence.
Qed.

Lemma tally_cons p r rows : tally p (r :: rows) = (if p r then 1 else 0) + tally p rows.
Proof. unfold tally. simpl. destruct (p r); simpl; lia. Qed.

Lemma fold_sample_tally floor rows : is_nan floor = false -> Forall (fun r => silent r = false -> scored_row r) rows ->
  forall f, let s0 := Probe.Fold_s f in let s := Probe.Fold_s (fold_left (Probe.fold_sample floor) (map sample rows) f) in
  Probe.Sum_N s = Probe.Sum_N s0 /\
  Probe.Sum_NoProposal s = Probe.Sum_NoProposal s0 + tally silent rows /\
  Probe.Sum_AutoApproved s = Probe.Sum_AutoApproved s0 + tally (bound floor BoundNone) rows /\
  Probe.Sum_BoundEvidence s = Probe.Sum_BoundEvidence s0 + tally silent rows + tally (bound floor BoundEvidence) rows /\
  Probe.Sum_BoundSelfReport s = Probe.Sum_BoundSelfReport s0 + tally (bound floor BoundSelfReport) rows /\
  Probe.Sum_UnderFloor s = Probe.Sum_UnderFloor s0 + tally silent rows + tally (bound floor BoundEvidence) rows + tally (bound floor BoundSelfReport) rows.
Proof.
  intros Hn. induction rows as [| r rows IH]; intros Hrows f; cbn [map fold_left].
  { unfold tally. simpl. lia. }
  apply Forall_cons_iff in Hrows as [Hr Hrows]. specialize (IH Hrows (Probe.fold_sample floor f (sample r))). rewrite !tally_cons.
  cbv zeta in IH. destruct IH as (-> & -> & -> & -> & -> & ->). unfold bound. destruct (silent r) eqn:Es.
  - assert (Probe.fold_sample floor f (sample r) = Probe.fold_sample floor f (Probe.mkSample false (Row_Confidence r) (Row_Computed r) (Row_CeilingBound r) (Row_Corroborated r))) as ->
      by (unfold sample; unfold silent in Es; by rewrite Es).
    simpl. lia.
  - destruct (floor_cases r floor Hn (Hr eq_refl)) as [[E1 ->] | [(E1 & E2 & ->) | (E1 & E2 & ->)]];
      unfold Probe.fold_sample, sample; unfold silent in Es; rewrite Es; simpl; rewrite E1, ?E2; simpl; lia.
Qed.

Lemma tally_parts floor rows :
  tally silent rows + tally (bound floor BoundNone) rows + tally (bound floor BoundEvidence) rows + tally (bound floor BoundSelfReport) rows =
  Z.of_nat (length rows).
Proof.
  induction rows as [| r rows IH]; [done |]. rewrite !tally_cons. unfold bound at 1 3 5. simpl length.
  destruct (silent r); simpl; [lia |]. destruct (BoundBy r floor); simpl; lia.
Qed.

(** The probe's summary and the report's [BoundBy] blame one cause: for rows of scored
    candidates and any floor that is a number, every draw is counted once, as approved or as
    under the floor, and every draw under the floor once, for the evidence or for the
    self-report; a draw that proposed nothing is charged to the evidence, and every other draw
    to what [BoundBy] says of its row. *)
Theorem summary_blames_like_the_report rows floor :
  is_nan floor = false -> Forall (fun r => silent r = false -> scored_row r) rows ->
  let s := Probe.Summarize (map sample rows) floor in
  Probe.Sum_N s = Z.of_nat (length rows) /\ Probe.Sum_N s = Probe.Sum_AutoApproved s + Probe.Sum_UnderFloor s /\
  Probe.Sum_UnderFloor s = Probe.Sum_BoundEvidence s + Probe.Sum_BoundSelfReport s /\
  Probe.Sum_NoProposal s = tally silent rows /\ Probe.Sum_AutoApproved s = tally (bound floor BoundNone) rows /\
  Probe.Sum_BoundEvidence s = tally silent rows + tally (bound floor BoundEvidence) rows /\
  Probe.Sum_BoundSelfReport s = tally (bound floor BoundSelfReport) rows.
Proof.
  intros Hn Hrows. pose proof (tally_parts floor rows) as Hparts. unfold Probe.Summarize. rewrite length_map.
  set (f0 := Probe.mkFold _ _ _ _). destruct (fold_sample_tally floor rows Hn Hrows f0) as (H1 & H2 & H3 & H4 & H5 & H6).
  set (f := fold_left _ _ f0) in *. simpl in H1, H2, H3, H4, H5, H6.
  destruct (0 <? Probe.Fold_counted f); cbn -[Z.add]; rewrite ?H1, ?H2, ?H3, ?H4, ?H5, ?H6; lia.
Qed.

Lemma summary_blames_like_the_report_witness :
  let row name x c := mkRow name true false "" "" "act" c x false 1 in
  let rows := [row "a" (flit 8 10) (flit 9 10); row "b" (flit 7 10) (flit 7 10); row "c" (flit 6 10) (flit 9 10); mkRow "d" false false "" "" "" f0 f0 false 0]%string in
  let s := Probe.Summarize (map sample rows) (flit 3 4) in
  Forall (fun r => silent r = false -> scored_row r) rows /\ Probe.Sum_AutoApproved s = 1 /\ Probe.Sum_BoundEvidence s = 2 /\ Probe.Sum_BoundSelfReport s = 1.
Proof.
  set (row := fun name c x => mkRow name true false "" "" "act" c x false 1). cbv zeta. set (rows := [_; _; _; _]).
  assert (Forall (fun r => silent r = false -> scored_row r) rows) as Hrows.
  { unfold rows. do 4 (constructor; [intros Hs; vm_compute in Hs |- *; done |]). constructor. }
  destruct (summary_blames_like_the_report rows (flit 3 4) eq_refl Hrows) as (_ & _ & _ & _ & -> & -> & ->).
  split; [exact Hrows |]. vm_compute. auto.
Defined.

(** ** A probe publishes nothing, and every run is a fresh draw *)

Section probe.
Context {M WP WJ : Type} `{PublisherLaws WP ProposalSet} `{PublisherLaws WJ ProposalSet}.
Abbreviation Eng := (Engine (M := M) (S_ := MemStore)).
Abbreviation St := (EngState (M := M) (S_ := MemStore) (WP := WP) (WJ := WJ)).

(** the set carries a terminal phase *)
Definition phased (s : ProposalSet) : Prop := exists stt, Set_Status s = Some stt /\ Status_Phase stt <> ""%string.

Definition untouched (st st' : St) : Prop := Es_pub st' = Es_pub st /\ Es_journal st' = Es_journal st.

Lemma record_run_quiet (e : Eng) ctx ck set (st st' : St) r : Eng_HasJournal e = false ->
  record_run e ctx ck set st = (st', r) -> untouched st st' /\ forall s, r = inl s -> s = set.
Proof.
  intros Hj. unfold record_run. rewrite Hj. destruct (Record_ _ _ _ _ _) as [l' [err |]]; intros [= <- <-]; split; try done. by intros s [= ->].
Qed.

Lemma conclude_quiet (e : Eng) ctx ck sig runID sao d (st st' : St) r : Eng_HasPub e = false -> Eng_HasJournal e = false ->
  conclude e ctx ck sig runID sao d st = (st', r) -> untouched st st' /\ forall s, r = inl s -> phased s.
Proof.
  intros Hp Hj. unfold conclude.
  assert (forall g phase reason, phase <> ""%string -> record_run e ctx ck (draft_set sig runID sao d g phase reason) st = (st', r) ->
    untouched st st' /\ forall s, r = inl s -> phased s) as Hrec.
  { intros g phase reason Hph Hr. destruct (record_run_quiet _ _ _ _ _ _ _ Hj Hr) as [Hu Hs]. split; [done |]. intros s ->. rewrite (Hs s eq_refl).
    by eexists. }
  destruct (negb (finished d)); [by apply Hrec |]. destruct (negb (Dr_proposed d)); [by apply Hrec |].
  destruct (enforceCatalog _ _ _); [destruct (_ && _); [by intros [= <- <-] | by apply Hrec] |].
  destruct (enforceCitations _); [destruct (negb _); [by intros [= <- <-] | by apply Hrec] |].
  destruct (Open _ _ _ _) as [dupes | err]; [| by intros [= <- <-]].
  set (formed := form_set e sig sao _). set (g := gate_Evaluate formed dupes). clearbody g.
  destruct (record_run e ctx ck (with_gate formed g) st) as [st1 [s1 | err]] eqn:Er; destruct (record_run_quiet _ _ _ _ _ _ _ Hj Er) as [Hu _];
    [| by intros [= <- <-]].
  rewrite Hp, andb_false_r. intros [= <- <-]. split; [done |]. intros s [= <-].
  destruct (form_set_fields e sig sao (draft_set sig runID sao d None "" (Dr_Reason d))) as (_ & _ & _ & _ & _ & _ & _ & Hst & _).
  unfold phased, with_gate. cbn [Set_Status]. fold formed in Hst. rewrite Hst. simpl. destruct (GateResult_Passed g); by eexists.
Qed.

(** a run on an empty ledger is never taken for a duplicate *)
Lemma Propose_fresh (e : Eng) ctx ck sig (st st' : St) r : Eng_HasPub e = false -> Eng_HasJournal e = false ->
  Es_ledger st = NewMemProposalLog -> Propose e ctx ck sig id st = (st', r) -> untouched st st' /\ forall s, r = inl s -> phased s.
Proof.
  intros Hp Hj Hl. unfold Propose. rewrite Hl. unfold Open. destruct (ctx_Err ctx) as [err |]; [by intros [= <- <-] |]. cbn.
  destruct (Assemble _ _ _ _) as [m1 [sao | err]]; [| destruct (MemStore_Finish _ _ _ _) || destruct (Store_Finish _ _ _ _); by intros [= <- <-]].
  destruct (reason_loop _ _ _ _ _ _ _ _) as [[m2 s2] [d | err]]; [| destruct (Store_Finish _ _ _ _); by intros [= <- <-]].
  destruct (conclude _ _ _ _ _ _ d _) as [st1 r1] eqn:Ec. destruct (Store_Finish _ _ _ _). intros [= <- <-].
  destruct (conclude_quiet _ _ _ _ _ _ _ _ _ _ Hp Hj Ec) as [[Hu1 Hu2] Hs]. simpl in Hu1, Hu2. split; [| done]. split; simpl; [by rewrite Hu1 | by rewrite Hu2].
Qed.

Lemma rowFor_phase run s : phased s -> Probe.Row_Run (Probe.rowFor run s) = run /\ Probe.Row_Phase (Probe.rowFor run s) <> ""%string.
Proof. intros (stt & Hs & Hne). unfold Probe.rowFor. rewrite Hs. by destruct (find_first _ _). Qed.

(** A probe only looks: whatever its runs return, the broker and the journal are as they
    were; and when they return, there is a row for every run, in order, each of which reached
    its own terminal phase, none having been stopped as a duplicate of a run before it. *)
Theorem probe_only_looks (e : Eng) ctx ck det n (st st' : St) r :
  Eng_HasPub e = false -> Eng_HasJournal e = false -> Probe.Run e ctx ck det n st = (st', r) ->
  untouched st st' /\
  forall rows, r = inl rows -> length rows = n /\
    forall i row, rows !! i = Some row -> Probe.Row_Run row = Z.of_nat i + 1 /\ Probe.Row_Phase row <> ""%string.
Proof.
  intros Hp Hj. unfold Probe.Run.
  assert (forall todo i st rows0, (length rows0 + 1 = i)%nat ->
    (forall j row, rows0 !! j = Some row -> Probe.Row_Run row = Z.of_nat j + 1 /\ Probe.Row_Phase row <> ""%string) ->
    Probe.run_from e ctx ck det todo i st rows0 = (st', r) -> untouched st st' /\
    forall rows, r = inl rows -> length rows = (length rows0 + todo)%nat /\
      forall i row, rows !! i = Some row -> Probe.Row_Run row = Z.of_nat i + 1 /\ Probe.Row_Phase row <> ""%string) as Hgen.
  { induction todo as [| todo IH]; intros i st0 rows0 Hi Hrows; cbn [Probe.run_from].
    { intros [= <- <-]. split; [done |]. intros rows [= <-]. split; [lia | done]. }
    destruct (Propose e ctx (ck i) det id (Probe.ProbeReset st0)) as [st1 [set | err]] eqn:Er;
      destruct (Propose_fresh e ctx (ck i) det (Probe.ProbeReset st0) st1 _ Hp Hj eq_refl Er) as [[Hu1 Hu2] Hph]; simpl in Hu1, Hu2; [| by intros [= <- <-]].
    intros Hrun. destruct (IH (S i) st1 (rows0 ++ [Probe.rowFor (Z.of_nat i) set])) as [[Hv1 Hv2] Hres]; [rewrite length_app; simpl; lia | | done |].
    { intros j row [[_ Hj'] | [-> <-]]%lookup_snoc_Some; [by apply Hrows |].
      destruct (rowFor_phase (Z.of_nat i) set (Hph _ eq_refl)) as [-> Hne]. split; [lia | done]. }
    split; [split; congruence |]. intros rows Hr. destruct (Hres rows Hr) as [-> Hr']. rewrite length_app. simpl. split; [lia | done]. }
  intros Hrun. apply (Hgen n 1%nat st []); [done | by intros j row Hj' | done].
Qed.

End probe.

Definition demo_limits : Limits := DefaultLimits.

Definition demo_probe_engine : Engine (M := nat) (S_ := MemStore) :=
  match Probe.ProbeEngine (inl (Eng_Intake (demo_engine false))) (Eng_Tools (demo_engine false)) (Eng_Catalog (demo_engine false)) []
          scripted demo_weights demo_limits 0 (fun _ => ""%string) (Eng_decode_propose (demo_engine false)) (Eng_decode_insufficient (demo_engine false)) with
  | inl e => e
  | inr _ => demo_engine false
  end.

Lemma probe_only_looks_witness :
  exists st' rows, Probe.Run demo_probe_engine Background (fun _ => demo_clock) demo_detection 2 (demo_engine_state 0) = (st', inl rows) /\
    untouched (demo_engine_state 0) st' /\ map Probe.Row_Run rows = [1; 2] /\ map Probe.Row_Phase rows = [PhaseProposed; PhaseNoAction].
Proof.
  pose (out := Probe.Run demo_probe_engine Background (fun _ => demo_clock) demo_detection 2 (demo_engine_state 0)).
  pose (rows := match out.2 with inl rows => rows | inr _ => [] end).
  assert (Probe.Run demo_probe_engine Background (fun _ => demo_clock) demo_detection 2 (demo_engine_state 0) = (out.1, inl rows)) as E
    by (vm_compute; reflexivity).
  exists out.1, rows. split; [exact E |].
  split; [exact (proj1 (probe_only_looks demo_probe_engine Background (fun _ => demo_clock) demo_detection 2 _ _ _ eq_refl eq_refl E)) |].
  split; vm_compute; reflexivity.
Defined.

(** an operator with only a Gemini key: the model is there, and the probe still wants the key
    of the other provider *)
Example gemini_probe_needs_the_other_key :
  let getenv name := if name =s "GEMINI_API_KEY" then "key"%string else "x"%string in
  let getenv name := if name =s "ANTHROPIC_API_KEY" then ""%string else getenv name in
  For "haiku" "LOW" getenv (fun _ => None) "gemini-low" = inl (inl (UseGemini "key" Gemini.ModelGemini3_5FlashLite "LOW")) /\
  match (LoadProbe getenv).2 with Some err => err_text err = "ANTHROPIC_API_KEY is required"%string | None => False end.
Proof. vm_compute. auto. Qed.

(** ** What a graded run leaves on disk reads back *)

Section disk.
Context (write : string -> FileWrite) (marshal_turn : Turn -> result string) (marshal_end : option error -> result string)
        (marshal_set : ProposalSet -> result string) (decode_turn : string -> result Turn) (decode_set : string -> result ProposalSet).

(** a JSON object on one line, within the reader's buffer *)
Definition record_line (l : string) : Prop := l <> ""%string /\ no_char "010" l = true /\ strings_TrimSpace l = l /\ Z.of_nat (String.length l) < max_line.

(** JSON loses nothing of what this run writes: a turn, the record of its end and the set read
    back, and a line is shorter than the reader's buffer.  A record of an end carries no run. *)
Record reads_back (ts : list Turn) (runErr : option error) (set : ProposalSet) : Prop := {
  turn_line : forall t l, t ∈ ts -> marshal_turn t = inl l -> record_line l /\ decode_turn l = inl t;
  end_line : forall l, marshal_end runErr = inl l -> record_line l /\ exists t, decode_turn l = inl t /\ Turn_RunID t = ""%string;
  set_text : forall raw, marshal_set set = inl raw -> decode_set raw = inl set
}.

Fixpoint checkpoints (ts : list Turn) (d : Disk) : Disk * option error :=
  match ts with
  | [] => (d, None)
  | t :: ts' => match caseStore_Checkpoint write marshal_turn Background t d with
                | (d', None) => checkpoints ts' d'
                | (d', Some err) => (d', Some err)
                end
  end.

(** the lines the store has written since it was opened *)
Definition content_of (d : Disk) : string := if cs_started (Disk_store d) then default ""%string (Disk_files d !! cs_path (Disk_store d)) else ""%string.

Lemma appendLine_content b d d' : appendLine write b d = (d', None) ->
  exists l, b = inl l /\ cs_path (Disk_store d') = cs_path (Disk_store d) /\ cs_started (Disk_store d') = true /\
    content_of d' = content_of d +:+ l +:+ newline.
Proof.
  unfold appendLine. destruct b as [l | err]; [| done]. cbv zeta. destruct (write _); [| done | done]. intros [= <-]. exists l. repeat (split; [done |]).
  unfold content_of at 1. simpl. by rewrite lookup_insert_eq.
Qed.

Lemma checkpoints_content ts : forall d d', checkpoints ts d = (d', None) ->
  exists ls, Forall2 (fun t l => marshal_turn t = inl l) ts ls /\ cs_path (Disk_store d') = cs_path (Disk_store d) /\
    content_of d' = content_of d +:+ segment_of ls.
Proof.
  induction ts as [| t ts IH]; intros d d'; cbn [checkpoints].
  { intros [= <-]. exists []. split; [apply Forall2_nil; exact I |]. split; [done |]. change (segment_of []) with ""%string. by rewrite string_app_nil_r. }
  change (caseStore_Checkpoint write marshal_turn Background t d) with (appendLine write (marshal_turn t) d).
  destruct (appendLine write (marshal_turn t) d) as [d1 [err |]] eqn:Ea; [done |]. intros Hts.
  destruct (appendLine_content _ _ _ Ea) as (l & Hl & Hp & _ & Hc). destruct (IH _ _ Hts) as (ls & Hls & Hp' & Hc').
  exists (l :: ls). split; [by constructor |]. split; [congruence |]. rewrite Hc', Hc. cbn [segment_of]. by rewrite !string_app_assoc.
Qed.

Lemma split_segment ls : Forall record_line ls -> bytes_Split (segment_of ls) newline = ls ++ [""%string].
Proof.
  unfold bytes_Split, newline. induction 1 as [| l ls (_ & Hl & _) _ IH]; [done |]. cbn [segment_of].
  change (newline +:+ segment_of ls) with (String "010" (segment_of ls)). rewrite split_seq_char by done. cbn [reverse rev_append app].
  by rewrite String.string_of_list_ascii_of_string, IH.
Qed.

Lemma scan_segment ls : Forall record_line ls -> scan_lines (segment_of ls) = ls.
Proof. intros Hls. unfold scan_lines. rewrite split_segment by done. by rewrite last_snoc, removelast_last. Qed.

Lemma last_turn_app path ls1 : forall ls2 last, last_turn decode_turn path (ls1 ++ ls2) last =
  match last_turn decode_turn path ls1 last with inl last' => last_turn decode_turn path ls2 last' | inr err => inr err end.
Proof.
  induction ls1 as [| l ls1 IH]; intros ls2 last; simpl; [done |]. destruct (max_line <=? _); [done |]. destruct (_ =s ""); [apply IH |].
  destruct (decode_turn _); [apply IH | done].
Qed.

Lemma last_turn_line path l t last : record_line l -> decode_turn l = inl t ->
  last_turn decode_turn path [l] last = inl (if Turn_RunID t =s "" then last else Some t).
Proof.
  intros (Hne & _ & Htrim & Hlen) Hd. cbn [last_turn]. rewrite Htrim, Hd. destruct (max_line <=? Z.of_nat (String.length l)) eqn:E; [lia |].
  by destruct (String.eqb_spec l "").
Qed.

Lemma last_turn_turns path ts ls : (forall t l, t ∈ ts -> marshal_turn t = inl l -> record_line l /\ decode_turn l = inl t) -> Forall2 (fun t l => marshal_turn t = inl l) ts ls -> Forall (fun t => Turn_RunID t <> ""%string) ts ->
  forall t, list.last ts = Some t -> forall last, last_turn decode_turn path ls last = inl (Some t).
Proof.
  intros Hlaw Hls Hids t. destruct ts as [| t0 ts _] using rev_ind; [done |]. rewrite last_snoc. intros [= ->] last.
  apply Forall2_app_inv_l in Hls as (ls1 & ls2 & H1 & H2 & ->). apply list.Forall_app in Hids as [Hids [Ht _]%Forall_cons_iff].
  destruct ls2 as [| l [| ? ?]]; [by apply Forall2_length in H2 | | by apply Forall2_length in H2].
  apply list.Forall2_cons in H2 as [Hl _]. destruct (Hlaw t l) as [Hline Hd]; [apply elem_of_app; right; by left | done |]. rewrite last_turn_app.
  assert (exists last', last_turn decode_turn path ls1 last = inl last') as [last' ->].
  { clear Hl Ht Hline Hd. revert last Hlaw. induction H1 as [| t1 l1 ts1 ls1 Hl1 _ IH]; intros last Hlaw; [by eexists |].
    destruct (Hlaw t1 l1) as [Hline1 Hd1]; [by left | done |].
    apply Forall_cons_iff in Hids as [_ Hids]. change (l1 :: ls1) with ([l1] ++ ls1). rewrite last_turn_app, (last_turn_line path l1 t1) by done. apply IH; [done |]. intros t' l' Ht'. apply Hlaw. by right. }
  rewrite (last_turn_line path l t) by done. by apply String.eqb_neq in Ht as ->.
Qed.

(** C38. A graded run is kept whole.  Let the turns of a run, at least one and each with a run
    id, have been checkpointed in a fresh store, the run have been finished and its set
    written without an error, to two paths that differ; and let JSON lose nothing of those
    turns, of that end and of that set, each line being shorter than the reader's 16 MiB.
    Then whatever an earlier run of the case had left in those files, [LoadTranscript] of the
    two reads the completions of the last turn, and the set. *)
Theorem graded_run_reads_back dir fixture ts t runErr set files d1 d2 files' :
  reads_back ts runErr set -> transcriptPath dir fixture <> setPath dir fixture -> Forall (fun t => Turn_RunID t <> ""%string) ts -> list.last ts = Some t ->
  checkpoints ts (mkDisk (newCaseStore dir fixture) files) = (d1, None) ->
  caseStore_Finish write marshal_end Background (Turn_RunID t) runErr d1 = (d2, None) ->
  writeSet write marshal_set dir fixture set (Disk_files d2) = (files', None) ->
  LoadTranscript (fun p => inl <$> files' !! p) decode_turn decode_set (transcriptPath dir fixture) (setPath dir fixture) =
  inl (mkTranscript (Turn_RunID t) (completionsFrom (Turn_Msgs t)) set (transcriptPath dir fixture)).
Proof.
  intros laws Hne Hids Ht Hcp Hfin Hset.
  destruct (checkpoints_content _ _ _ Hcp) as (ls & Hls & Hp1 & Hc1).
  destruct (appendLine_content _ _ _ Hfin) as (l & Hl & Hp2 & Hstart & Hc2).
  unfold writeSet in Hset. destruct (marshal_set set) as [raw | err] eqn:Em; [| done]. destruct (write _); [| done | done]. injection Hset as <-.
  assert (Disk_files d2 !! transcriptPath dir fixture = Some (segment_of (ls ++ [l]))) as Hfile.
  { rewrite segment_last. rewrite Hp1 in Hp2. simpl in Hp2, Hc1. rewrite Hc1 in Hc2. unfold content_of in Hc2. rewrite Hstart, Hp2 in Hc2.
    destruct (Disk_files d2 !! transcriptPath dir fixture) as [c |] eqn:E; simpl in Hc2; [by f_equal |].
    exfalso. revert Hfin. unfold caseStore_Finish, appendLine. simpl. rewrite Hl. destruct (write _); [| done | done]. intros [= <-]. simpl in E, Hp2.
    rewrite Hp2 in E. by rewrite lookup_insert_eq in E. }
  assert (Forall record_line (ls ++ [l])) as Hlines.
  { apply list.Forall_app. split; [| constructor; [by apply (end_line _ _ _ laws _ Hl) | constructor]].
    apply list.Forall_forall. intros l0 Hl0. apply list_elem_of_lookup in Hl0 as [n Hn]. destruct (Forall2_lookup_r _ _ _ _ _ Hls Hn) as (t0 & Ht0 & Hm).
    by apply (turn_line _ _ _ laws t0 l0 (list_elem_of_lookup_2 _ _ _ Ht0)). }
  unfold LoadTranscript. rewrite lookup_insert_ne, Hfile by done. simpl. rewrite scan_segment by done.
  rewrite last_turn_app, (last_turn_turns _ _ _ (turn_line _ _ _ laws) Hls Hids t Ht). destruct (end_line _ _ _ laws _ Hl) as [Hline (te & Hd & Hrun)].
  rewrite (last_turn_line _ l te) by done. rewrite Hrun. simpl. rewrite lookup_insert_eq. simpl. by rewrite (set_text _ _ _ laws _ Em).
Qed.

End disk.

#[local] Instance ToolCall_eq_dec : EqDecision ToolCall. Proof. solve_decision. Defined.
#[local] Instance ToolResult_eq_dec : EqDecision ToolResult. Proof. solve_decision. Defined.
#[local] Instance Message_eq_dec : EqDecision Message. Proof. solve_decision. Defined.
#[local] Instance Turn_eq_dec : EqDecision Turn. Proof. solve_decision. Defined.

(** two turns of one run, the second with what the first asked and got *)
Definition demo_asked : list Message := [mkMessage "user" "why" [] []; mkMessage "assistant" "" [mkToolCall "c1" "query_logs" "{}"] []].
Definition demo_turns : list Turn :=
  [mkTurn "fp/1" 0 demo_asked;
   mkTurn "fp/1" 1 (demo_asked ++ [mkMessage "user" "" [] [mkToolResult "c1" "no errors" "query_logs" false]; mkMessage "assistant" "" [mkToolCall "c2" "propose" "{}"] []])].
Definition demo_last : Turn := List.last demo_turns (mkTurn "" 0 []).

(** a wire form for turns of up to a few messages: the step names the turn *)
Definition demo_marshal_turn (t : Turn) : result string :=
  match demo_turns !! Z.to_nat (Turn_Step t) with
  | Some t' => if bool_decide (t = t') then inl ("{" +:+ fmt_d (Turn_Step t) +:+ "}")%string else inr (errors_New "json")
  | None => inr (errors_New "json")
  end.
Definition demo_decode_turn (l : string) : result Turn :=
  if l =s "{0}" then inl (List.nth 0 demo_turns demo_last) else if l =s "{1}" then inl demo_last else inl (mkTurn "" 0 []).

(** a set with only a signal, as its name *)
Definition signal_set (signal : string) : ProposalSet := mkSet "" "" signal "" None "" [] [] [] "" None [] "" None None.
Definition demo_marshal_set (s : ProposalSet) : result string :=
  match s with
  | mkSet "" "" signal "" None "" [] [] [] "" None [] "" None None => inl signal
  | _ => inr (errors_New "json")
  end.

Lemma demo_reads_back : reads_back demo_marshal_turn (fun _ => inl "{finished}"%string) demo_marshal_set demo_decode_turn (fun raw => inl (signal_set raw))
  demo_turns None (signal_set "fp").
Proof.
  split.
  - intros t l Ht. repeat (apply elem_of_cons in Ht as [-> | Ht]; [intros E; vm_compute in E; injection E as <-; split; [repeat split; vm_compute; done | vm_compute; done] |]). by apply not_elem_of_nil in Ht.
  - intros l [= <-]. split; [repeat split; vm_compute; done |]. by exists (mkTurn "" 0 []).
  - by intros raw [= <-].
Defined.

Lemma graded_run_reads_back_witness :
  exists files : gmap string string, LoadTranscript (fun p => inl <$> files !! p) demo_decode_turn (fun raw => inl (signal_set raw)) "t/row.jsonl" "t/row.set.json" =
    inl (mkTranscript "fp/1" (completionsFrom (Turn_Msgs demo_last)) (signal_set "fp") "t/row.jsonl") /\
    length (completionsFrom (Turn_Msgs demo_last)) = 2%nat.
Proof.
  pose (write := fun _ : string => Written).
  pose (d1 := (checkpoints write demo_marshal_turn demo_turns (mkDisk (newCaseStore "t" "row.yaml") {["t/row.jsonl"%string := "an older run"%string]})).1).
  pose (d2 := (caseStore_Finish write (fun _ => inl "{finished}"%string) Background "fp/1" None d1).1).
  pose (files' := (writeSet write demo_marshal_set "t" "row.yaml" (signal_set "fp") (Disk_files d2)).1). exists files'. split; [| vm_compute; reflexivity].
  apply (graded_run_reads_back write demo_marshal_turn (fun _ => inl "{finished}"%string) demo_marshal_set demo_decode_turn (fun raw => inl (signal_set raw))
           "t" "row.yaml" demo_turns demo_last None (signal_set "fp") {["t/row.jsonl"%string := "an older run"%string]} d1 d2 files' demo_reads_back).
  - vm_compute. discriminate.
  - repeat constructor; discriminate.
  - reflexivity.
  - vm_compute. reflexivity.
  - vm_compute. reflexivity.
  - vm_compute. reflexivity.
Defined.

(** ** The scripted log line is keyed by the query the tool sends *)

Lemma logQLFor_is_sent namespace labels : logQLFor namespace labels = buildLogQL namespace labels "".
Proof.
  unfold logQLFor, buildLogQL. unfold Evidence.sorted_keys. by rewrite string_app_nil_r.
Qed.
