(* ===== verification/Tune.v ===== *)
(** * internal/tune: the sweep of the grounding weights

    [findTranscripts] pairs the recorded runs, [Run] replays each of them at every point of
    the grid and grades what comes back, and [decide] reads a recommendation off the grid.
    Replaying ([propose]) and loading are parameters of [Run], as Replay defines them.  The
    theorems say that the sweep covers the grid, that [decide] recommends the middle of the
    longest plateau at the peak, and that a sweep of labelled runs recommends nothing. *)

From Stdlib Require Import Ascii.
From stdpp Require Import sorting.
From S2P Require Import Prelude GoTime GoFloat Api ClankScore ClankLedger ClankEngine Decimal Strings Corpus Filepath Validate Replay Rca.
Local Open Scope Z_scope.

(** ** objective.go and proposal.go *)

(** the sweep calls [Grounded] alone; [Support] is wired for a report *)
Record Objective : Type := mkObjective {
  Obj_Grounded : option (Report -> Z);
  Obj_Support : option (Corpus -> FailureClass -> float64 -> FloorSupport)
}.

Definition DefaultObjective : Objective := mkObjective (Some Report_Scored) (Some Corpus_FloorSupport).

Record Proposal : Type := mkProposal {
  Proposal_File : string; Proposal_Key : string; Proposal_From : float64; Proposal_To : float64; Proposal_Basis : string;
  Proposal_Support : list FloorSupport
}.

Definition Proposal_zero : Proposal := mkProposal "" "" f0 f0 "" [].

Record NotYet : Type := mkNotYet { NotYet_Reason : string; NotYet_Support : list FloorSupport }.

(** a [NotYet] of a reason alone *)
Definition not_yet (reason : string) : NotYet := mkNotYet reason [].

(** ** sweep.go *)

Record TranscriptPaths : Type := mkTranscriptPaths { Paths_JSONL : string; Paths_Set : string }.

Record SweepConfig : Type := mkSweepConfig {
  Sweep_Transcripts : list TranscriptPaths;
  Sweep_Corpus : Corpus;                       (** no part of the sweep reads it *)
  Sweep_Steps : Z;
  Sweep_Objective : Objective;
  Sweep_Cases : list Rca.Case;
  Sweep_Labels : gmap string Label
}.

Definition Corpus_zero : Corpus := mkCorpus 0 [] 0 [].

Record Point : Type := mkPoint {
  Point_GroundingNone : float64;
  Point_GroundingOne : float64;
  Point_MeanConfidence : float64;
  Point_Moved : Z;
  Point_Grounded : Z
}.

Definition with_grounding (w : ScoringWeights) (none one : float64) : ScoringWeights :=
  mkWeights (W_Temporal w) (W_Topological w) (W_Historical w) (W_HistoricalHalfLife w) none one (W_GroundingMany w) (W_Causal w)
    (W_RecencyHalfLife w) (W_HistoricalAloneCap w) (W_CaseBaseBaseline w) (W_NegativeSignalPenalty w).

(** the [i]th value of each axis *)
Definition none_at (i : nat) : float64 := fadd (flit 1 10) (fmul (flit 1 10) (of_int (Z.of_nat i))).
Definition one_at (j : nat) : float64 := fadd (flit 4 10) (fmul (flit 1 10) (of_int (Z.of_nat j))).

Section sweep.
(** [load] is replay.LoadTranscript, [propose] replay.Propose *)
Context (load : TranscriptPaths -> result Transcript) (propose : Transcript -> ScoringWeights -> result ProposalSet).

Fixpoint load_all (ps : list TranscriptPaths) : result (list Transcript) :=
  match ps with
  | [] => inl []
  | p :: ps' => match load p with
                | inr err => inr err
                | inl tr => match load_all ps' with inr err => inr err | inl trs => inl (tr :: trs) end
                end
  end.

Definition replays (tr : Transcript) : bool := match propose tr DefaultScoringWeights with inl _ => true | inr _ => false end.

Definition stem_of (tr : Transcript) : string := strings_TrimSuffix (Base (Tr_Path tr)) ".jsonl".

Definition byStem (cases : list Rca.Case) : gmap string Rca.Case := fold_left (fun m c => <[TranscriptName c := c]> m) cases ∅.

(** how a transcript is graded: by its label, else by its case, else not at all *)
Definition grading (cfg : SweepConfig) (tr : Transcript) : option (ProposalSet -> Rca.Row) :=
  match Sweep_Labels cfg !! Tr_RunID tr with
  | Some l => Some (GradeByLabel l)
  | None => match byStem (Sweep_Cases cfg) !! stem_of tr with
            | Some c => Some (Grade c)
            | None => None
            end
  end.

Record Acc : Type := mkAcc { Acc_sum : float64; Acc_n : Z; Acc_moved : Z; Acc_rows : list Rca.Row }.

Definition fne (x y : float64) : bool := negb (feq x y).

(** what one replayed set adds *)
Definition add_set (cfg : SweepConfig) (tr : Transcript) (set : ProposalSet) (a : Acc) : Acc :=
  let rows := match grading cfg tr with Some grade => Acc_rows a ++ [grade set] | None => Acc_rows a end in
  match Set_Proposals set with
  | [] => mkAcc (Acc_sum a) (Acc_n a) (Acc_moved a) rows
  | c :: _ =>
      let moved := match Set_Proposals (Tr_Set tr) with
                   | [] => false
                   | c0 :: _ => fne (Candidate_ComputedConfidence c) (Candidate_ComputedConfidence c0)
                   end in
      mkAcc (fadd (Acc_sum a) (Candidate_ComputedConfidence c)) (Acc_n a + 1) (if moved then Acc_moved a + 1 else Acc_moved a) rows
  end.

Fixpoint replay_all (cfg : SweepConfig) (w : ScoringWeights) (trs : list Transcript) (a : Acc) : result Acc :=
  match trs with
  | [] => inl a
  | tr :: trs' => match propose tr w with
                  | inr err => inr err
                  | inl set => replay_all cfg w trs' (add_set cfg tr set a)
                  end
  end.

Definition grounded_of (cfg : SweepConfig) : Report -> Z := default Report_Scored (Obj_Grounded (Sweep_Objective cfg)).

(** one point of the grid *)
Definition sweep_point (cfg : SweepConfig) (usable : list Transcript) (i j : nat) : result Point :=
  let none := none_at i in let one := one_at j in
  match replay_all cfg (with_grounding DefaultScoringWeights none one) usable (mkAcc f0 0 0 []) with
  | inr err => inr err
  | inl a => inl (mkPoint none one (if 0 <? Acc_n a then fdiv (Acc_sum a) (of_int (Acc_n a)) else f0) (Acc_moved a)
                    (grounded_of cfg (NewReport (Acc_rows a))))
  end.

Fixpoint sweep_points (cfg : SweepConfig) (usable : list Transcript) (grid : list (nat * nat)) : result (list Point) :=
  match grid with
  | [] => inl []
  | (i, j) :: grid' =>
      match sweep_point cfg usable i j with
      | inr err => inr err
      | inl p => match sweep_points cfg usable grid' with inr err => inr err | inl ps => inl (p :: ps) end
      end
  end.

Definition steps_of (cfg : SweepConfig) : nat := Z.to_nat (if Sweep_Steps cfg <? 2 then 5 else Sweep_Steps cfg).

Definition grid_of (steps : nat) : list (nat * nat) := flat_map (fun i => map (pair i) (seq 0 steps)) (seq 0 steps).

Definition labelled (cfg : SweepConfig) (tr : Transcript) : bool := match grading cfg tr with Some _ => true | None => false end.

Definition Run (cfg : SweepConfig) : result (list Point) :=
  match Sweep_Transcripts cfg with
  | [] => inr (errors_New "tune: no transcripts — a sweep with nothing to replay reports its own defaults back")
  | _ =>
      match load_all (Sweep_Transcripts cfg) with
      | inr err => inr err
      | inl loaded =>
          let usable := List.filter replays loaded in
          match usable with
          | [] => inr (errors_New "tune: every transcript failed to replay under default weights")
          | _ =>
              if (negb (Nat.eqb (length (Sweep_Cases cfg)) 0) || negb (Nat.eqb (size (Sweep_Labels cfg)) 0)) && negb (existsb (labelled cfg) usable)
              then inr (errors_New "tune: no transcript pairs to a graded case or a label — a sweep with no labels scores an unlabelled mean and calls it a recommendation")
              else sweep_points cfg usable (grid_of (steps_of cfg))
          end
      end
  end.

End sweep.

(** ** tune.go *)

Definition minLabelledCases : Z := 20.

Definition path_le (a b : TranscriptPaths) : Prop := String.leb (Paths_JSONL a) (Paths_JSONL b) = true.
#[local] Instance path_le_dec a b : base.Decision (path_le a b).
Proof. unfold path_le. apply _. Defined.

(** the pairs under a directory: [WalkDir] lists it, each entry with whether it is a
    directory, and nothing of one that is not there; [Stat] is whether a file is there *)
Definition findTranscripts (WalkDir : string -> result (list (string * bool))) (Stat : string -> bool) (dir : string) : result (list TranscriptPaths) :=
  match WalkDir dir with
  | inr err => inr (errorf_w ("tune: read " +:+ dir +:+ ": ") err)
  | inl entries =>
      let pairs := flat_map (fun e =>
          if e.2 || negb (Ext e.1 =s ".jsonl") then []
          else let set := strings_TrimSuffix e.1 ".jsonl" +:+ ".set.json" in
               if Stat set then [mkTranscriptPaths e.1 set] else []) entries in
      inl (merge_sort path_le pairs)
  end.

(** [sort.Slice] by [GroundingOne]; the axis' values are distinct *)
Fixpoint insert_one (p : Point) (l : list Point) : list Point :=
  match l with
  | [] => [p]
  | q :: l' => if flt (Point_GroundingOne q) (Point_GroundingOne p) then q :: insert_one p l' else p :: q :: l'
  end.

Fixpoint sort_one (l : list Point) : list Point := match l with [] => [] | p :: l' => insert_one p (sort_one l') end.

Definition onGroundingNone (points : list Point) (none : float64) : list Point :=
  sort_one (List.filter (fun p => feq (Point_GroundingNone p) none) points).

Definition peak_of (band : list Point) : Z := fold_left (fun peak p => if peak <? Point_Grounded p then Point_Grounded p else peak) band 0.

(** the best run so far and the current one *)
Definition run_step (peak : Z) (st : list Point * list Point) (p : Point) : list Point * list Point :=
  let '(best, cur) := st in
  if negb (Point_Grounded p =? peak) then (best, [])
  else let cur := cur ++ [p] in (if Nat.ltb (length best) (length cur) then cur else best, cur).

Definition longestRunAtMax (band : list Point) : list Point := (fold_left (run_step (peak_of band)) band ([], [])).1.

Definition point_eq (p q : Point) : bool :=
  feq (Point_GroundingNone p) (Point_GroundingNone q) && feq (Point_GroundingOne p) (Point_GroundingOne q)
  && feq (Point_MeanConfidence p) (Point_MeanConfidence q) && (Point_Moved p =? Point_Moved q) && (Point_Grounded p =? Point_Grounded q).

(** [slices.Index] *)
Fixpoint slices_Index (l : list Point) (p : Point) : Z :=
  match l with
  | [] => -1
  | q :: l' => if point_eq q p then 0 else let i := slices_Index l' p in if i <? 0 then -1 else i + 1
  end.

Definition grounded_at (band : list Point) (i : Z) : Z := match band !! Z.to_nat i with Some p => Point_Grounded p | None => 0 end.

Definition basisFor (band best : list Point) (first last : Point) : string :=
  let lo := Point_GroundingOne first in let hi := Point_GroundingOne last in
  let loIdx := slices_Index band first in let hiIdx := slices_Index band last in
  "grounded=" +:+ fmt_d (Point_Grounded first) +:+ " holds for groundingOne in [" +:+ fmt_f 2 lo +:+ ", " +:+ fmt_f 2 hi +:+ "]"
  +:+ (if (0 <? loIdx)%Z then "; below " +:+ fmt_f 2 lo +:+ ", grounded falls to " +:+ fmt_d (grounded_at band (loIdx - 1)%Z) else "")
  +:+ (if (hiIdx <? Z.of_nat (length band) - 1)%Z
       then "; above " +:+ fmt_f 2 hi +:+ ", grounded falls to " +:+ fmt_d (grounded_at band (hiIdx + 1)%Z)
       else "; the grid ends at " +:+ fmt_f 2 hi +:+ " with no ceiling found in range").

(** [None] is the panic of [best[0]] on an empty run *)
Definition decide (points : list Point) : option (Proposal * NotYet) :=
  match points with
  | [] => Some (Proposal_zero, not_yet "no swept grid to decide over")
  | p0 :: _ =>
      let band := onGroundingNone points (Point_GroundingNone p0) in
      let best := longestRunAtMax band in
      match best, list.last best with
      | first :: _, Some last =>
          if Point_Grounded first =? 0
          then Some (Proposal_zero, not_yet "no point in the swept grid grounds a labelled row; the corpus cannot distinguish these weights yet")
          else if Nat.eqb (length best) (length band)
          then Some (Proposal_zero, not_yet ("every point in the swept grid grounds " +:+ fmt_d (Point_Grounded first)
                                              +:+ " labelled rows; the corpus cannot distinguish these weights yet"))
          else Some (mkProposal "config/clank/weights.yaml" "groundingOne" f0
                       (fdiv (fadd (Point_GroundingOne first) (Point_GroundingOne last)) f2) (basisFor band best first last) [], not_yet "")
      | _, _ => None
      end
  end.

Definition deadKnobLimitation : string :=
  "groundingMany is not a swept axis — at least one graded row now corroborates on two backends, so a sweep over it would no longer measure a flat surface, but this grid doesn't vary it yet. causal is not swept either: replay now feeds a recorded run's own change events through the causal scorer, so it can fire, but this grid holds it fixed rather than varying it as an axis.".

Definition render_point (cases : Z) (p : Point) : string :=
  "  groundingNone=" +:+ fmt_f 1 (Point_GroundingNone p) +:+ " groundingOne=" +:+ fmt_f 1 (Point_GroundingOne p) +:+ " grounded="
  +:+ fmt_d (Point_Grounded p) +:+ "/" +:+ fmt_d cases +:+ " meanConfidence=" +:+ fmt_f 3 (Point_MeanConfidence p) +:+ " moved="
  +:+ fmt_d (Point_Moved p) +:+ newline.

Definition emit (encode : list Point -> Proposal -> NotYet -> string) (asJSON : bool) (cases : Z) (points : list Point) (prop : Proposal)
  (res : NotYet) : Exit :=
  if asJSON then mkExit 0 (encode points prop res) ""
  else mkExit 0 (deadKnobLimitation +:+ newline +:+ String.concat "" (map (render_point cases) points)
         +:+ (if negb (NotYet_Reason res =s "") then "not yet: " +:+ NotYet_Reason res +:+ newline
              else "propose " +:+ Proposal_Key prop +:+ " in " +:+ Proposal_File prop +:+ ": " +:+ fmt_f 2 (Proposal_To prop) +:+ " — "
                   +:+ Proposal_Basis prop +:+ newline)) "".

(** [Main] past the flags; the inner [None] is a panic *)
Record Flags : Type := mkFlags { fl_json : bool; fl_transcripts : string; fl_corpus : string }.

Definition Main (load : TranscriptPaths -> result Transcript) (propose : Transcript -> ScoringWeights -> result ProposalSet)
  (WalkDir : string -> result (list (string * bool))) (Stat : string -> bool) (ReadCorpus : string -> result (list ClankScore.Case))
  (encode : list Point -> Proposal -> NotYet -> string) (flags : option Flags) : option Exit :=
  match flags with
  | None => Some (mkExit 2 "" "")
  | Some fl =>
      let close reason := Some (emit encode (fl_json fl) 0 [] Proposal_zero (not_yet reason)) in
      if fl_transcripts fl =s "" then close "no --transcripts directory given"%string
      else match findTranscripts WalkDir Stat (fl_transcripts fl) with
           | inr err => Some (fail 1 (err_text err))
           | inl [] => close (fl_transcripts fl +:+ " holds no paired .jsonl/.set.json transcripts")
           | inl pairs =>
               match ReadCorpus (fl_corpus fl) with
               | inr err => Some (fail 1 (err_text err))
               | inl mined =>
                   let labels := Labels mined in let n := Z.of_nat (size labels) in
                   if (0 <? n) && (n <? minLabelledCases)
                   then close (fmt_d n +:+ " labelled cases (" +:+ fmt_d (minLabelledCases - n) +:+ " short of " +:+ fmt_d minLabelledCases
                                 +:+ ") — not enough to sweep confidently")
                   else match Run load propose (mkSweepConfig pairs Corpus_zero 0 DefaultObjective Table labels) with
                        | inr err => Some (fail 1 (err_text err))
                        | inl points =>
                            match decide points with
                            | None => None
                            | Some (prop, notYet) => Some (emit encode (fl_json fl) (Z.of_nat (length Table)) points prop notYet)
                            end
                        end
               end
           end
  end.

(** ** The grid *)

Section grid.
Context (load : TranscriptPaths -> result Transcript) (propose : Transcript -> ScoringWeights -> result ProposalSet).

Lemma NewReport_Scored rows : Report_Scored (NewReport rows) = Z.of_nat (length (List.filter Rca.Row_Pass rows)).
Proof. by rewrite NewReport_counts. Qed.

Lemma filter_length_le {A} (p : A -> bool) l : (length (List.filter p l) <= length l)%nat.
Proof. induction l as [| x l IH]; simpl; [lia |]. destruct (p x); simpl; lia. Qed.

Lemma replay_all_counts cfg w trs : forall a a', replay_all propose cfg w trs a = inl a' ->
  (Acc_moved a <= Acc_moved a' <= Acc_moved a + Z.of_nat (length trs)) /\
  length (Acc_rows a') = (length (Acc_rows a) + length (List.filter (labelled cfg) trs))%nat.
Proof.
  induction trs as [| tr trs IH]; intros a a'; cbn [replay_all]; [intros [= <-]; simpl; lia |].
  destruct (propose tr w) as [set | err]; [| done]. intros [Hm Hr]%IH. revert Hm Hr. unfold add_set, labelled. simpl.
  destruct (grading cfg tr) as [grade |]; destruct (Set_Proposals set) as [| c cs]; cbn [Acc_moved Acc_rows length];
    rewrite ?length_app; cbn [length]; repeat case_match; cbn [Acc_moved]; lia.
Qed.

Lemma sweep_points_lookup cfg usable grid : forall points, sweep_points propose cfg usable grid = inl points ->
  Forall2 (fun ij p => sweep_point propose cfg usable ij.1 ij.2 = inl p) grid points.
Proof.
  induction grid as [| [i j] grid IH]; intros points; cbn [sweep_points]; [intros [= <-]; by apply Forall2_nil |].
  destruct (sweep_point _ _ _ i j) as [p | err] eqn:Ep; [| done]. destruct (sweep_points _ _ _ grid) as [ps | err]; [| done].
  intros [= <-]. constructor; [done | by apply IH].
Qed.

Lemma grid_lookup steps i j : (i < steps)%nat -> (j < steps)%nat -> grid_of steps !! (i * steps + j)%nat = Some (i, j).
Proof.
  intros Hi Hj. unfold grid_of.
  assert (forall start n k, (k < n)%nat -> flat_map (fun i => map (pair i) (seq 0 steps)) (seq start n) !! (k * steps + j)%nat = Some ((start + k)%nat, j)) as H.
  { intros start n. revert start. induction n as [| n IH]; intros start k Hk; [lia |]. cbn [seq flat_map].
    destruct k as [| k].
    - rewrite lookup_app_l by (rewrite length_map, length_seq; lia). rewrite list_lookup_fmap. simpl. rewrite lookup_seq_lt by lia. simpl.
      f_equal. f_equal; lia.
    - rewrite lookup_app_r by (rewrite length_map, length_seq; lia). rewrite length_map, length_seq.
      replace (S k * steps + j - steps)%nat with (k * steps + j)%nat by lia. rewrite IH by lia. f_equal. f_equal. lia. }
  by rewrite H.
Qed.

Lemma length_grid steps : length (grid_of steps) = (steps * steps)%nat.
Proof.
  unfold grid_of. assert (forall l : list nat, length (flat_map (fun i => map (pair i) (seq 0 steps)) l) = (length l * steps)%nat) as ->.
  { induction l as [| i l IH]; [done |]. cbn [flat_map length]. rewrite length_app, length_map, length_seq, IH. lia. }
  by rewrite length_seq.
Qed.

Lemma Run_points cfg points : Run load propose cfg = inl points ->
  exists loaded, load_all load (Sweep_Transcripts cfg) = inl loaded /\ List.filter (replays propose) loaded <> [] /\
    sweep_points propose cfg (List.filter (replays propose) loaded) (grid_of (steps_of cfg)) = inl points.
Proof.
  unfold Run. destruct (Sweep_Transcripts cfg) as [| p ps] eqn:Ep; [done |]. rewrite <- Ep. clear Ep p ps.
  destruct (load_all load _) as [loaded | err]; [| done]. intros H. exists loaded. split; [done |].
  destruct (List.filter (replays propose) loaded) as [| tr trs]; [done |]. split; [done |]. by destruct (_ && _).
Qed.

(** The sweep covers the grid: when [Run] returns, the points are those of every
    combination of the two axes, in row order, and at each of them every transcript that
    replays under the default weights was replayed again, so that no point moves or grounds
    more of them than there are, nor grounds more than can be graded. *)
Theorem sweep_covers_the_grid cfg points :
  Obj_Grounded (Sweep_Objective cfg) = None \/ Sweep_Objective cfg = DefaultObjective -> Run load propose cfg = inl points ->
  exists loaded, load_all load (Sweep_Transcripts cfg) = inl loaded /\ let usable := List.filter (replays propose) loaded in
    length points = (steps_of cfg * steps_of cfg)%nat /\
    forall i j, (i < steps_of cfg)%nat -> (j < steps_of cfg)%nat ->
      exists p, points !! (i * steps_of cfg + j)%nat = Some p /\ Point_GroundingNone p = none_at i /\ Point_GroundingOne p = one_at j /\
        0 <= Point_Moved p <= Z.of_nat (length usable) /\
        0 <= Point_Grounded p <= Z.of_nat (length (List.filter (labelled cfg) usable)) /\
        Forall (fun tr => exists set, propose tr (with_grounding DefaultScoringWeights (none_at i) (one_at j)) = inl set) usable.
Proof.
  intros Hobj (loaded & Hl & _ & Hp)%Run_points. exists loaded. split; [done |]. intros usable. apply sweep_points_lookup in Hp. fold usable in Hp.
  split; [by rewrite <- (Forall2_length Hp), length_grid |]. intros i j Hi Hj.
  destruct (Forall2_lookup_l _ _ _ _ _ Hp (grid_lookup _ _ _ Hi Hj)) as (p & Hpt & Hs). exists p. split; [done |]. revert Hs. unfold sweep_point. simpl.
  destruct (replay_all _ _ _ usable _) as [a | err] eqn:Er; [| done]. intros [= <-]. simpl. split; [done |]. split; [done |].
  destruct (replay_all_counts _ _ _ _ _ Er) as [Hm Hr]. simpl in Hm, Hr. split; [lia |]. split.
  - assert (grounded_of cfg = Report_Scored) as -> by (unfold grounded_of; by destruct Hobj as [-> | ->]). rewrite NewReport_Scored.
    pose proof (filter_length_le Rca.Row_Pass (Acc_rows a)). lia.
  - clear -Er. revert Er. generalize (mkAcc f0 0 0 []). induction usable as [| tr usable IH]; intros a0; cbn [replay_all]; [constructor |].
    destruct (propose tr _) as [set |] eqn:Eset; [| done]. intros Hr. constructor; [by exists set | by eapply IH].
Qed.

End grid.

(** ** The recommendation *)

Section plateau.
Context (peak : Z).

Definition at_peak (run : list Point) : Prop := Forall (fun p => Point_Grounded p = peak) run.
Definition stretch (run band : list Point) : Prop := exists pre post, band = pre ++ run ++ post.

(** [best] is the longest stretch of the band at the peak *)
Definition longest (best band : list Point) : Prop :=
  stretch best band /\ at_peak best /\ forall run, stretch run band -> at_peak run -> (length run <= length best)%nat.

(** what is known after a part of the band: the best run, and the run it ends with *)
Definition scanned (st : list Point * list Point) (l : list Point) : Prop :=
  longest st.1 l /\ (exists pre, l = pre ++ st.2) /\ at_peak st.2 /\
  forall pre run, l = pre ++ run -> at_peak run -> (length run <= length st.2)%nat.

Lemma stretch_snoc run l p : stretch run (l ++ [p]) -> stretch run l \/ exists pre, l ++ [p] = pre ++ run.
Proof.
  intros (pre & post & H). destruct post as [| q post _] using rev_ind; [right; exists pre; by rewrite app_nil_r in H |].
  left. exists pre, post. rewrite !app_assoc in H. apply app_inj_tail in H as [H _]. by rewrite <- app_assoc in H.
Qed.

Lemma stretch_weaken run l p : stretch run l -> stretch run (l ++ [p]).
Proof. intros (pre & post & ->). exists pre, (post ++ [p]). by rewrite <- !app_assoc. Qed.

Lemma suffix_snoc (pre run l : list Point) (p : Point) : l ++ [p] = pre ++ run -> run = [] \/ exists run', run = run' ++ [p] /\ l = pre ++ run'.
Proof.
  destruct run as [| q run _] using rev_ind; [by left |]. rewrite app_assoc. intros [-> ->]%app_inj_tail. right. by exists run.
Qed.

Lemma run_step_scanned l p st : scanned st l -> scanned (run_step peak st p) (l ++ [p]).
Proof.
  destruct st as [best cur]. intros ((Hs & Hb & Hmax) & (pre & Hl) & Hc & Hcur). simpl in *. unfold run_step. destruct (Point_Grounded p =? peak) eqn:E; simpl.
  - apply Z.eqb_eq in E. assert (at_peak (cur ++ [p])) as Hc' by (apply list.Forall_app; split; [done | by constructor]).
    assert (forall pre run, l ++ [p] = pre ++ run -> at_peak run -> (length run <= length (cur ++ [p]))%nat) as Hcur'.
    { intros pre' run [-> | (run' & -> & Hl')]%suffix_snoc Hrun; [simpl; lia |]. rewrite !length_app. apply list.Forall_app in Hrun as [Hrun _].
      specialize (Hcur _ _ Hl' Hrun). lia. }
    split; [| by split; [exists pre; simpl; by rewrite Hl, app_assoc |]]. unfold longest. simpl.
    destruct (Nat.ltb_spec (length best) (length (cur ++ [p]))) as [Hlt | Hge].
    + split; [exists pre, []; by rewrite app_nil_r, Hl, app_assoc |]. split; [done |].
      intros run [Hr | [pre' Hr]]%stretch_snoc Hrun; [specialize (Hmax _ Hr Hrun); lia | by eapply Hcur'].
    + split; [by apply stretch_weaken |]. split; [done |].
      intros run [Hr | [pre' Hr]]%stretch_snoc Hrun; [by apply Hmax | specialize (Hcur' _ _ Hr Hrun); lia].
  - apply Z.eqb_neq in E. assert (forall pre run, l ++ [p] = pre ++ run -> at_peak run -> run = []) as Hnil.
    { intros pre' run [-> | (run' & -> & _)]%suffix_snoc Hrun; [done |]. apply list.Forall_app in Hrun as [_ [? _]%Forall_cons_iff]. done. }
    split; [| split; [exists (l ++ [p]); by rewrite app_nil_r | split; [constructor | intros pre' run Hr Hrun; by rewrite (Hnil _ _ Hr Hrun)]]].
    split; [by apply stretch_weaken |]. split; [done |].
    intros run [Hr | [pre' Hr]]%stretch_snoc Hrun; [by apply Hmax | rewrite (Hnil _ _ Hr Hrun); simpl; lia].
Qed.

Lemma scan_longest band : longest (fold_left (run_step peak) band ([], [])).1 band.
Proof.
  enough (scanned (fold_left (run_step peak) band ([], [])) band) as [H _] by done.
  induction band as [| p band IH] using rev_ind.
  - split; [| split; [by exists (@nil Point) | split; [constructor | by intros [| ? ?] [| ? ?] ? ?]]]. split; [by exists (@nil Point), [] |]. split; [constructor |].
    intros run (pre & post & H) _. symmetry in H. apply app_eq_nil in H as [_ [-> _]%app_eq_nil]. done.
  - rewrite fold_left_app. by apply run_step_scanned.
Qed.

End plateau.

Lemma feq_refl x : is_nan x = false -> feq x x = true.
Proof. destruct x as [s | s | | s m e]; [done | by destruct s | done |]. intros _. unfold feq, SFeqb, SFcompare. destruct s; by rewrite Z.compare_refl, Pos.compare_cont_refl. Qed.

Lemma peak_spec band : (forall p, p ∈ band -> Point_Grounded p <= peak_of band) /\ 0 <= peak_of band /\
  (peak_of band = 0 \/ exists p, p ∈ band /\ Point_Grounded p = peak_of band).
Proof.
  unfold peak_of. induction band as [| p band (IH1 & IH2 & IH3)] using rev_ind; [split; [by intros p ?%elem_of_nil | simpl; split; [lia | by left]] |].
  rewrite fold_left_app. simpl. set (k := fold_left _ band 0) in *. destruct (k <? Point_Grounded p) eqn:E.
  - split; [| split; [lia |]].
    + intros q [Hq | ->%list_elem_of_singleton]%elem_of_app; [specialize (IH1 q Hq); lia | lia].
    + right. exists p. split; [| done]. apply elem_of_app. right. by apply list_elem_of_singleton.
  - split; [| split; [lia |]].
    + intros q [Hq | ->%list_elem_of_singleton]%elem_of_app; [specialize (IH1 q Hq); lia | lia].
    + destruct IH3 as [-> | (q & Hq & Hk)]; [by left |]. right. exists q. split; [| done]. apply elem_of_app. by left.
Qed.

Lemma insert_one_perm p l : insert_one p l ≡ₚ p :: l.
Proof. induction l as [| q l IH]; simpl; [done |]. destruct (flt _ _); [rewrite IH; apply Permutation_swap | done]. Qed.

Lemma sort_one_perm l : sort_one l ≡ₚ l.
Proof. induction l as [| p l IH]; simpl; [done |]. by rewrite insert_one_perm, IH. Qed.

Lemma band_elem points none p : p ∈ onGroundingNone points none <-> p ∈ points /\ feq (Point_GroundingNone p) none = true.
Proof. unfold onGroundingNone. by rewrite sort_one_perm, elem_of_filterb. Qed.

(** a band on which every point grounds as many *)
Definition flat (band : list Point) : Prop := forall p q, p ∈ band -> q ∈ band -> Point_Grounded p = Point_Grounded q.

(** the middle of the longest plateau at the peak *)
Definition recommends (band : list Point) (prop : Proposal) : Prop :=
  exists best first last, longest (peak_of band) best band /\ best !! 0%nat = Some first /\ list.last best = Some last /\
    0 < peak_of band /\ (length best < length band)%nat /\
    Proposal_Key prop = "groundingOne"%string /\ Proposal_To prop = fdiv (fadd (Point_GroundingOne first) (Point_GroundingOne last)) f2.

Lemma decide_spec p0 points :
  is_nan (Point_GroundingNone p0) = false -> Forall (fun p => 0 <= Point_Grounded p) (p0 :: points) ->
  let band := onGroundingNone (p0 :: points) (Point_GroundingNone p0) in
  exists prop notYet, decide (p0 :: points) = Some (prop, notYet) /\
    ((flat band /\ prop = Proposal_zero /\ NotYet_Reason notYet <> ""%string) \/ (~ flat band /\ NotYet_Reason notYet = ""%string /\ recommends band prop)).
Proof.
  intros Hn Hpos band. assert (p0 ∈ band) as Hp0.
  { apply band_elem. split; [apply list_elem_of_here |]. by apply feq_refl. }
  assert (forall p, p ∈ band -> 0 <= Point_Grounded p) as Hband.
  { intros p [Hp _]%band_elem. rewrite list.Forall_forall in Hpos. by apply Hpos. }
  destruct (peak_spec band) as (Hle & Hge & Hat). pose proof (scan_longest (peak_of band) band) as Hlong. fold (longestRunAtMax band) in Hlong.
  unfold decide. fold band. set (best := longestRunAtMax band) in *. destruct Hlong as (Hs & Hb & Hmax).
  assert (exists p, p ∈ band /\ Point_Grounded p = peak_of band) as (pk & Hpk & Hpe).
  { destruct Hat as [Hz | H]; [| done]. exists p0. split; [done |]. specialize (Hle p0 Hp0). specialize (Hband p0 Hp0). lia. }
  assert (best <> []) as Hne.
  { intros Hnil. apply list_elem_of_split in Hpk as (l1 & l2 & Hband'). specialize (Hmax [pk] ltac:(by exists l1, l2) ltac:(by constructor)).
    rewrite Hnil in Hmax. simpl in Hmax. lia. }
  destruct best as [| first rest] eqn:Ebest; [done |]. destruct (list.last (first :: rest)) as [lst |] eqn:Elast; [| by apply last_None in Elast].
  assert (Point_Grounded first = peak_of band) as Hfirst by (by apply Forall_cons_iff in Hb as [? _]).
  destruct (Point_Grounded first =? 0) eqn:Ez.
  { eexists _, _. split; [done |]. left. split; [| done]. intros p q Hp Hq. pose proof (Hle p Hp). pose proof (Hle q Hq). pose proof (Hband p Hp). pose proof (Hband q Hq). lia. }
  destruct (Nat.eqb_spec (length (first :: rest)) (length band)) as [Hlen | Hlen].
  { eexists _, _. split; [done |]. left. split; [| by split].
    destruct Hs as (pre & post & Hband'). assert (band = first :: rest) as Heq.
    { assert (pre = [] /\ post = []) as [-> ->]; [| by rewrite app_nil_r in Hband'].
      rewrite Hband', !length_app in Hlen. destruct pre, post; simpl in Hlen; try lia; done. }
    intros p q Hp Hq. unfold at_peak in Hb. rewrite list.Forall_forall in Hb. rewrite Heq in Hp, Hq. by rewrite (Hb p Hp), (Hb q Hq). }
  eexists _, _. split; [done |]. right.
  assert (length (first :: rest) < length band)%nat as Hlt.
  { destruct Hs as (pre & post & Hband'). rewrite Hband', !length_app in Hlen |- *. lia. }
  split; [| split; [done |]].
  - intros Hflat. assert (at_peak (peak_of band) band) as Hall by (apply list.Forall_forall; intros p Hp; rewrite (Hflat p pk Hp Hpk); done).
    specialize (Hmax band ltac:(by exists [], []; rewrite app_nil_r) Hall). lia.
  - exists (first :: rest), first, lst. repeat (split; [done |]). split; [lia |]. done.
Qed.

(** ** What a sweep comes to *)

Section outcome.
Context (load : TranscriptPaths -> result Transcript) (propose : Transcript -> ScoringWeights -> result ProposalSet).

Definition default_objective (cfg : SweepConfig) : Prop := Obj_Grounded (Sweep_Objective cfg) = None \/ Sweep_Objective cfg = DefaultObjective.

Lemma grounded_of_default cfg : default_objective cfg -> grounded_of cfg = Report_Scored.
Proof. unfold grounded_of. by intros [-> | ->]. Qed.

Lemma steps_positive cfg : (2 <= steps_of cfg)%nat.
Proof. unfold steps_of. destruct (Sweep_Steps cfg <? 2) eqn:E; lia. Qed.

(** a property of every point of the grid holds of every point of a sweep *)
Lemma sweep_points_all cfg usable grid points (P : Point -> Prop) :
  (forall i j p, sweep_point propose cfg usable i j = inl p -> P p) -> sweep_points propose cfg usable grid = inl points -> Forall P points.
Proof.
  intros HP Hp%sweep_points_lookup. induction Hp as [| [i j] p grid points Hij _ IH]; constructor; [by eapply HP | done].
Qed.

Lemma sweep_head cfg points : default_objective cfg -> Run load propose cfg = inl points ->
  exists p0 rest, points = p0 :: rest /\ Point_GroundingNone p0 = none_at 0 /\ Forall (fun p => 0 <= Point_Grounded p) points.
Proof.
  intros Hobj (loaded & _ & _ & Hp)%Run_points.
  assert (Forall (fun p => 0 <= Point_Grounded p) points) as Hpos.
  { eapply sweep_points_all; [| exact Hp]. intros i j p. unfold sweep_point. destruct (replay_all _ _ _ _ _) as [a | err]; [| done].
    intros [= <-]. simpl. rewrite grounded_of_default, NewReport_Scored by done. lia. }
  apply sweep_points_lookup in Hp. pose proof (steps_positive cfg) as Hs.
  destruct (Forall2_lookup_l _ _ _ _ _ Hp (grid_lookup (steps_of cfg) 0 0 ltac:(lia) ltac:(lia))) as (p0 & Hp0 & Hpt).
  destruct points as [| q rest]; [done |]. injection Hp0 as ->. exists p0, rest. split; [done |]. split; [| done].
  revert Hpt. unfold sweep_point. destruct (replay_all _ _ _ _ _); by intros [= <-].
Qed.

(** C39. A sweep ends in a reason or in the middle of the peak: on the points of any sweep,
    [decide] returns; when all the points of its first row ground as many rows it says why
    nothing is recommended, and otherwise it recommends the midpoint of the longest contiguous
    run of that row that grounds the most, which is shorter than the row and grounds some. *)
Theorem sweep_recommends_the_peak cfg points :
  default_objective cfg -> Run load propose cfg = inl points ->
  let band := onGroundingNone points (none_at 0) in
  exists prop notYet, decide points = Some (prop, notYet) /\
    ((flat band /\ prop = Proposal_zero /\ NotYet_Reason notYet <> ""%string) \/ (~ flat band /\ NotYet_Reason notYet = ""%string /\ recommends band prop)).
Proof.
  intros Hobj Hrun band. destruct (sweep_head _ _ Hobj Hrun) as (p0 & rest & -> & Hnone & Hpos).
  unfold band. rewrite <- Hnone. apply decide_spec; [by rewrite Hnone | done].
Qed.

(** a labelled row passes as its label was settled, whatever was replayed *)
Lemma replay_all_labelled cfg w trs : Forall (fun tr => is_Some (Sweep_Labels cfg !! Tr_RunID tr)) trs ->
  forall a a', replay_all propose cfg w trs a = inl a' ->
  map Rca.Row_Pass (Acc_rows a') = map Rca.Row_Pass (Acc_rows a) ++ omap (fun tr => Label_Correct <$> Sweep_Labels cfg !! Tr_RunID tr) trs.
Proof.
  induction 1 as [| tr trs [l Hl] _ IH]; intros a a'; cbn [replay_all]; [intros [= <-]; by rewrite app_nil_r |].
  destruct (propose tr w) as [set | err]; [| done]. intros ->%IH. cbn [omap list_omap]. rewrite Hl. cbn [fmap option_fmap option_map].
  rewrite cons_middle, app_assoc. f_equal. unfold add_set, grading. rewrite Hl.
  assert (Rca.Row_Pass (GradeByLabel l set) = Label_Correct l) as Hpass by (unfold GradeByLabel; by destruct (Set_Proposals set)).
  destruct (Set_Proposals set); cbn [Acc_rows]; by rewrite map_app; simpl; rewrite Hpass.
Qed.

Lemma filter_map_length {A} (f : A -> bool) l : length (List.filter f l) = length (List.filter id (map f l)).
Proof. induction l as [| x l IH]; simpl; [done |]. unfold id at 1. destruct (f x); simpl; by rewrite IH. Qed.

(** Settled labels move nothing: a sweep whose every transcript is graded by its label
    never recommends a weight, however many labels there are, since what such a row grounds
    does not depend on the weights it is replayed under. *)
Theorem labels_never_recommend cfg points :
  default_objective cfg -> Run load propose cfg = inl points ->
  (forall p tr, p ∈ Sweep_Transcripts cfg -> load p = inl tr -> is_Some (Sweep_Labels cfg !! Tr_RunID tr)) ->
  exists notYet, decide points = Some (Proposal_zero, notYet) /\ NotYet_Reason notYet <> ""%string.
Proof.
  intros Hobj Hrun Hlab. destruct (sweep_head _ _ Hobj Hrun) as (p0 & rest & -> & Hnone & Hpos).
  destruct (decide_spec p0 rest) as (prop & notYet & Hd & [(_ & -> & Hr) | (Hflat & _ & _)]); [by rewrite Hnone | done | by exists notYet |].
  exfalso. apply Hflat. destruct (Run_points _ _ _ _ Hrun) as (loaded & Hload & _ & Hp).
  assert (Forall (fun tr => is_Some (Sweep_Labels cfg !! Tr_RunID tr)) loaded) as Hall.
  { clear -Hload Hlab. revert loaded Hload Hlab. induction (Sweep_Transcripts cfg) as [| pt ps IH]; intros loaded; simpl; [intros [= <-]; constructor |].
    destruct (load pt) as [tr |] eqn:El; [| done]. destruct (load_all load ps) as [trs |]; [| done]. intros [= <-] Hlab.
    constructor; [eapply Hlab; [apply list_elem_of_here | done] |]. apply IH; [done |]. intros p' tr' Hin. apply Hlab. by apply list_elem_of_further. }
  set (usable := List.filter (replays propose) loaded) in *.
  assert (Forall (fun tr => is_Some (Sweep_Labels cfg !! Tr_RunID tr)) usable) as Husable.
  { apply list.Forall_forall. intros tr [Htr _]%elem_of_filterb. rewrite list.Forall_forall in Hall. by apply Hall. }
  pose (k := Z.of_nat (length (List.filter id (omap (fun tr => Label_Correct <$> Sweep_Labels cfg !! Tr_RunID tr) usable)))).
  assert (Forall (fun p => Point_Grounded p = k) (p0 :: rest)) as Hk.
  { eapply sweep_points_all; [| exact Hp]. intros i j p. unfold sweep_point. destruct (replay_all _ _ _ usable _) as [a | err] eqn:Er; [| done].
    intros [= <-]. simpl. rewrite grounded_of_default, NewReport_Scored, filter_map_length by done.
    by rewrite (replay_all_labelled _ _ _ Husable _ _ Er). }
  intros p q [Hpin _]%band_elem [Hqin _]%band_elem. rewrite list.Forall_forall in Hk. by rewrite (Hk p Hpin), (Hk q Hqin).
Qed.

End outcome.

(** ** A sweep of one graded run *)

Definition demo_load (p : TranscriptPaths) : result Transcript := inl (mkTranscript "run-1" [] Set_zero (Paths_JSONL p)).

(** a run whose confidence is the weight of one backend, and which the ceiling binds from
    three quarters on *)
Definition demo_propose (tr : Transcript) (w : ScoringWeights) : result ProposalSet :=
  let c := mkCandidate "c1" "restart" (W_GroundingOne w) (W_GroundingOne w) (fle (flit 3 4) (W_GroundingOne w)) ConfidenceTerms_zero None "" None None 1 [] in
  inl (mkSet "" "" "fp" "" None "service_failure" [] [] [] "" None [c] "c1" None None).

Definition demo_case : Rca.Case :=
  Rca.mkCase "a row" "dev" "row.yaml" [] "propose" "restart" "service_failure" [] [] false (flit 65 100) false [] [].

Definition demo_sweep (labels : gmap string Label) : SweepConfig :=
  mkSweepConfig [mkTranscriptPaths "t/row.jsonl" "t/row.set.json"] Corpus_zero 0 DefaultObjective [demo_case] labels.

Definition points_of (r : result (list Point)) : list Point := match r with inl points => points | inr _ => [] end.

Lemma sweep_covers_the_grid_witness :
  let points := points_of (Run demo_load demo_propose (demo_sweep ∅)) in
  length points = 25%nat /\ exists p, points !! 3%nat = Some p /\ Point_GroundingOne p = one_at 3 /\ Point_Grounded p = 1.
Proof.
  intros points. destruct (sweep_covers_the_grid demo_load demo_propose (demo_sweep ∅) points (or_intror eq_refl)) as (loaded & _ & Hlen & Hp);
    [vm_compute; reflexivity |].
  split; [exact Hlen |]. destruct (Hp 0%nat 3%nat) as (p & Hl & _ & Hone & _); [vm_compute; lia | vm_compute; lia |].
  exists p. split; [exact Hl |]. split; [exact Hone |]. vm_compute in Hl. injection Hl as <-. reflexivity.
Defined.

Lemma sweep_recommends_the_peak_witness :
  exists prop, decide (points_of (Run demo_load demo_propose (demo_sweep ∅))) = Some (prop, not_yet "") /\
    Proposal_To prop = fdiv (fadd (one_at 3) (one_at 3)) f2 /\ Proposal_Key prop = "groundingOne"%string.
Proof.
  destruct (sweep_recommends_the_peak demo_load demo_propose (demo_sweep ∅) (points_of (Run demo_load demo_propose (demo_sweep ∅))) (or_intror eq_refl))
    as (prop & notYet & Hd & [(Hflat & _) | (_ & Hr & Hrec)]); [vm_compute; reflexivity | |].
  - exfalso. vm_compute in Hd. injection Hd as <- <-. set (pts := points_of _) in Hflat.
    assert (exists p q, pts !! 0%nat = Some p /\ pts !! 3%nat = Some q /\ Point_Grounded p <> Point_Grounded q /\
              feq (Point_GroundingNone p) (none_at 0) = true /\ feq (Point_GroundingNone q) (none_at 0) = true) as (p & q & Hp & Hq & Hne & Hn1 & Hn2).
    { eexists _, _. split; [vm_compute; reflexivity |]. split; [vm_compute; reflexivity |]. vm_compute. split; [discriminate | auto]. }
    apply Hne, Hflat; apply band_elem; (split; [by eapply list_elem_of_lookup_2 | done]).
  - exists prop. destruct notYet as [reason support]. simpl in Hr. subst reason. vm_compute in Hd. injection Hd as <- <-. split; [vm_compute; reflexivity |]. vm_compute. auto.
Defined.

Lemma labels_never_recommend_witness :
  exists notYet, decide (points_of (Run demo_load demo_propose (demo_sweep {["run-1"%string := mkLabel "run-1" true "outcome"]}))) = Some (Proposal_zero, notYet) /\
    NotYet_Reason notYet <> ""%string.
Proof.
  apply (labels_never_recommend demo_load demo_propose (demo_sweep {["run-1"%string := mkLabel "run-1" true "outcome"]})); [by right | vm_compute; reflexivity |].
  intros p tr _ [= <-]. eexists. simpl. apply lookup_singleton_eq.
Defined.

(** the bar on labelled cases does not stop a sweep over none at all *)
Example no_labels_is_enough :
  let stat _ := true in let walk _ := inl [("t/argocd-sync-burn.jsonl", false)]%string in
  let encode _ prop (_ : NotYet) := Proposal_Key prop in
  match Main demo_load demo_propose walk stat (fun _ => inl []) encode (Some (mkFlags false "t" "corpus.json")) with
  | Some ex => strings_Contains (Exit_stdout ex) "labelled cases (" = false /\ strings_Contains (Exit_stdout ex) "groundingNone=0.1" = true
  | None => False
  end.
Proof. vm_compute. auto. Qed.

(** the grid starts at 0.1 and 0.4 and ends at 0.5 and 0.8 *)
Example grid_bounds : map (fmt_f 1) [none_at 0; none_at 4; one_at 0; one_at 4] = ["0.1"; "0.5"; "0.4"; "0.8"]%string.
Proof. vm_compute. reflexivity. Qed.

(** the point printed as the default weights is not them: the sum rounds up, and a run recorded
    under the defaults counts as moved there *)
Example default_point_moves :
  let c := W_GroundingOne DefaultScoringWeights in
  let recorded := mkSet "" "" "fp" "" None "service_failure" [] [] [] "" None [mkCandidate "c1" "restart" c c false ConfidenceTerms_zero None "" None None 1 []] "c1" None None in
  match sweep_point demo_propose (demo_sweep ∅) [mkTranscript "run-1" [] recorded "t/row.jsonl"] 2 3, demo_propose (mkTranscript "" [] recorded "") DefaultScoringWeights with
  | inl p, inl under_defaults =>
      fmt_f 1 (Point_GroundingOne p) = "0.7"%string /\ fmt_f 1 c = "0.7"%string /\ Point_Moved p = 1 /\
      map Candidate_ComputedConfidence (Set_Proposals under_defaults) = map Candidate_ComputedConfidence (Set_Proposals recorded)
  | _, _ => False
  end.
Proof. vm_compute. auto. Qed.
