(* ===== verification/Transcripts.v ===== *)
(** * internal/clank/store, heartbeat and internal/transcript: a run's transcript

    The durable [Store]s of the reason loop — [DirStore], [S3Store] (store.go) and the
    decorator [HeartbeatingStore] (heartbeat.go) — and the export of what [S3Store]
    sealed: [WalkTurns], [ListRunIDs], [findSet], [WritePair] and [WriteAll]
    (transcript.go).

    The object store is the class [S3], its documented behaviour [S3Laws] (a put that
    returns is read back, a listing has every key under the prefix once, in no
    promised order).  JSON and the file system are parameters. *)

From Stdlib Require Import Ascii.
From stdpp Require Import sorting.
From S2P Require Import Prelude GoTime GoFloat Decimal Strings Api Contract Publish ClankScore ClankLedger ClankEngine Archive.
Local Open Scope Z_scope.

(** ** The services *)

(** [objects] is what a bucket holds; the other fields are the SDK's calls, a listing
    as the pages of its paginator and a get as the call and then the read of its body *)
Class S3 (W : Type) : Type := {
  objects : W -> gmap string string;
  PutObject : string -> string -> W -> W * option error;
  ListObjectsV2 : string -> W -> list (result (list string));
  GetObject : string -> W -> result (result string)
}.

Class S3Laws (W : Type) `{S3 W} : Prop := {
  put_stored : forall k b w w', PutObject k b w = (w', None) -> objects w' = <[k := b]> (objects w);
  list_complete : forall prefix w pages, ListObjectsV2 prefix w = map inl pages ->
    NoDup (concat pages) /\ forall k, k ∈ concat pages <-> is_Some (objects w !! k) /\ String.prefix prefix k = true;
  get_stored : forall k w b, GetObject k w = inl (inl b) -> objects w !! k = Some b
}.

(** the store answers every read *)
Definition readable {W} `{S3 W} (w : W) : Prop :=
  (forall prefix, exists pages, ListObjectsV2 prefix w = map inl pages) /\
  (forall k, is_Some (objects w !! k) -> exists b, GetObject k w = inl (inl b)).

(** ** store.go *)

Record terminalRecord : Type := mkTerminalRecord { TR_Finished : bool; TR_Error : string }.

Definition terminal_record (runErr : option error) : terminalRecord :=
  mkTerminalRecord true (match runErr with Some e => err_text e | None => ""%string end).

(** [filepath.Dir] of a clean path with a directory *)
Definition filepath_Dir (path : string) : string := match cut_last path "/"%char with Some (d, _) => d | None => "."%string end.

(** [DirStore.appendLine], in a clean [Dir]: the file is created at the open, and a failed write leaves
    the part of the line that [landed] *)
Definition appendLine (Dir runID : string) (b : result string) (mkdir open_ : option error) (landed : string -> string * option error)
  (fs : gmap string string) : gmap string string * option error :=
  match b with
  | inr err => (fs, Some (errorf_w "dir store: marshal: " err))
  | inl b =>
      let path := (Dir +:+ "/" +:+ runID +:+ ".jsonl")%string in
      match mkdir with
      | Some err => (fs, Some (errorf_w ("dir store: mkdir " +:+ filepath_Dir path +:+ ": ") err))
      | None =>
          match open_ with
          | Some err => (fs, Some (errorf_w ("dir store: open " +:+ path +:+ ": ") err))
          | None =>
              let old := default ""%string (fs !! path) in
              let '(part, werr) := landed (b +:+ newline) in
              (<[path := old +:+ part]> fs,
               match werr with Some err => Some (errorf_w ("dir store: write " +:+ path +:+ ": ") err) | None => None end)
          end
      end
  end%string.

Definition DirStore_Checkpoint (encode : Turn -> result string) (Dir : string) (ctx : context) (mkdir open_ : option error)
  (landed : string -> string * option error) (t : Turn) (fs : gmap string string) : gmap string string * option error :=
  match ctx_Err ctx with
  | Some e => (fs, Some e)
  | None => appendLine Dir (Turn_RunID t) (encode t) mkdir open_ landed fs
  end.

Definition DirStore_Pending (ctx : context) : result (list Turn) :=
  match ctx_Err ctx with Some e => inr e | None => inl [] end.

Definition DirStore_Finish (encode : terminalRecord -> result string) (Dir : string) (ctx : context) (mkdir open_ : option error)
  (landed : string -> string * option error) (runID : string) (runErr : option error) (fs : gmap string string)
  : gmap string string * option error :=
  match ctx_Err ctx with
  | Some e => (fs, Some e)
  | None => appendLine Dir runID (encode (terminal_record runErr)) mkdir open_ landed fs
  end.

Section s3store.
Context {W K : Type} `{S3 W} `{AEAD K}.

(** [S3Store.putJSON]; [rnd] is the nonce read for the seal *)
Definition putJSON (k : K) (ctx : context) (key : string) (b : result string) (rnd : result string) (w : W) : W * option error :=
  match ctx_Err ctx with
  | Some e => (w, Some e)
  | None =>
      match b with
      | inr err => (w, Some (errorf_w "s3 store: marshal: " err))
      | inl b =>
          match Key_Seal k rnd b with
          | inr err => (w, Some (errorf_w ("s3 store: seal " +:+ key +:+ ": ") err))
          | inl sealed =>
              let '(w', err) := PutObject key sealed w in
              (w', match err with Some err => Some (errorf_w ("s3 store: put " +:+ key +:+ ": ") err) | None => None end)
          end
      end
  end.

Definition S3Store_Checkpoint (encode : Turn -> result string) (k : K) (ctx : context) (rnd : result string) (t : Turn) (w : W) : W * option error :=
  putJSON k ctx (turnKey (Turn_RunID t) (Turn_Step t)) (encode t) rnd w.

Definition S3Store_Pending (ctx : context) : result (list Turn) :=
  match ctx_Err ctx with Some e => inr e | None => inl [] end.

Definition S3Store_Finish (encode : terminalRecord -> result string) (k : K) (ctx : context) (rnd : result string) (runID : string)
  (runErr : option error) (w : W) : W * option error :=
  putJSON k ctx (finishKey runID) (encode (terminal_record runErr)) rnd w.

End s3store.

(** ** heartbeat.go: [beats] counts the calls of the context's heartbeat, if it has one *)
Definition HeartbeatingStore_Checkpoint {S} (inner : Turn -> S -> S * option error) (hb : bool) (t : Turn) (sb : S * nat) : (S * nat) * option error :=
  let '(s, beats) := sb in
  match inner t s with
  | (s', Some err) => ((s', beats), Some err)
  | (s', None) => ((s', if hb then Datatypes.S beats else beats), None)
  end.

(** ** transcript.go *)

Definition strings_TrimPrefix (s prefix : string) : string :=
  match strings_CutPrefix s prefix with Some p => p | None => s end.

(** [strings.Cut] at a byte: the parts around its first occurrence *)
Fixpoint cut_first (s : string) (sep : ascii) : option (string * string) :=
  match s with
  | EmptyString => None
  | String c s' =>
      if Ascii.eqb c sep then Some (EmptyString, s')
      else match cut_first s' sep with Some (a, b) => Some (String c a, b) | None => None end
  end.

Section transcript.
Context {W K : Type} `{S3 W} `{AEAD K} `{SortKeyed Turn}.

Definition getTurn (decode : string -> result Turn) (k : K) (objKey : string) (w : W) : result Turn :=
  match GetObject objKey w with
  | inr err => inr (errorf_w ("transcript: get " +:+ objKey +:+ ": ") err)
  | inl (inr err) => inr (errorf_w ("transcript: read " +:+ objKey +:+ ": ") err)
  | inl (inl sealed) =>
      match Key_Open k sealed with
      | inr err => inr (errorf_w ("transcript: unseal " +:+ objKey +:+ ": ") err)
      | inl raw =>
          match decode raw with
          | inr err => inr (errorf_w ("transcript: decode " +:+ objKey +:+ ": ") err)
          | inl t => inl t
          end
      end
  end.

Definition turnsPrefix (runID : string) : string := "transcripts/" +:+ runID +:+ "/".

(** the step an object's key names, if it names one *)
Definition step_of (prefix key : string) : option Z := ParseInt (strings_TrimSuffix (strings_TrimPrefix key prefix) ".json").

Fixpoint walk_contents (decode : string -> result Turn) (k : K) (prefix : string) (w : W) (keys : list string) (found : list (Z * Turn))
  : result (list (Z * Turn)) :=
  match keys with
  | [] => inl found
  | key :: keys' =>
      match step_of prefix key with
      | None => walk_contents decode k prefix w keys' found
      | Some step =>
          match getTurn decode k key w with
          | inr err => inr err
          | inl t => walk_contents decode k prefix w keys' (found ++ [(step, t)])
          end
      end
  end.

Fixpoint walk_turn_pages (decode : string -> result Turn) (k : K) (prefix : string) (w : W) (pages : list (result (list string)))
  (found : list (Z * Turn)) : result (list (Z * Turn)) :=
  match pages with
  | [] => inl found
  | inr err :: _ => inr (errorf_w ("transcript: list " +:+ prefix +:+ ": ") err)
  | inl contents :: pages' =>
      match walk_contents decode k prefix w contents found with
      | inr err => inr err
      | inl found' => walk_turn_pages decode k prefix w pages' found'
      end
  end.

Definition WalkTurns (decode : string -> result Turn) (k : K) (runID : string) (w : W) : result (list Turn) :=
  let prefix := turnsPrefix runID in
  match walk_turn_pages decode k prefix w (ListObjectsV2 prefix w) [] with
  | inr err => inr err
  | inl found => inl (map snd (sort_keyed found))
  end.

(** the run an object's key is taken for *)
Definition run_of (key : string) : option string :=
  match cut_first (strings_TrimPrefix key "transcripts/") "/"%char with
  | Some (runID, _) => if runID =s "" then None else Some runID
  | None => None
  end.

Fixpoint list_runs (pages : list (result (list string))) (found : gset string) : result (gset string) :=
  match pages with
  | [] => inl found
  | inr err :: _ => inr (errorf_w "transcript: list transcripts/: " err)
  | inl contents :: pages' => list_runs pages' (found ∪ list_to_set (omap run_of contents))
  end.

(** [slices.Sorted(maps.Keys(found))] *)
Definition ListRunIDs (w : W) : result (list string) :=
  match list_runs (ListObjectsV2 "transcripts/" w) ∅ with
  | inr err => inr err
  | inl found => inl (merge_sort String.le (elements found))
  end.

(** the reader [corpus.Walk] makes of the same client *)
Definition bucket_of (w : W) : Bucket :=
  mkBucket (fun key => match GetObject key w with inr err => Some err | inl _ => None end)
           (fun key => match GetObject key w with inl body => body | inr err => inr err end).

Definition proposalsPrefix : string := "clank/thump.proposals/".
Definition journalPrefix : string := "clank/thump.reasoning/".

Fixpoint find_in (decodeSet : string -> result ProposalSet) (k : K) (w : W) (runID : string) (prefixes : list string) : result (option ProposalSet) :=
  match prefixes with
  | [] => inl None
  | prefix :: prefixes' =>
      match Walk k (bucket_of w) prefix (ListObjectsV2 prefix w) with
      | inr err => inr err
      | inl (_, lines) =>
          match DecodeEach decodeSet lines with
          | inr err => inr (errorf_w ("transcript: decoding " +:+ prefix +:+ ": ") err)
          | inl sets =>
              match List.find (fun s => Set_RunID s =s runID) sets with
              | Some s => inl (Some s)
              | None => find_in decodeSet k w runID prefixes'
              end
          end
      end
  end.

Definition findSet (decodeSet : string -> result ProposalSet) (k : K) (w : W) (runID : string) : result (option ProposalSet) :=
  find_in decodeSet k w runID [proposalsPrefix; journalPrefix].

(** the disk: what [os.MkdirAll] and [os.OpenFile] answer, what of the lines given to
    the [bufio.Writer] reaches a file and what its writes and its flush report, and what
    [os.WriteFile] leaves of a file's bytes *)
Record Disk : Type := mkDisk {
  Disk_MkdirAll : string -> option error;
  Disk_OpenFile : string -> option error;
  Disk_bufio : list string -> string * option error * option error;
  Disk_WriteFile : string -> string -> option string * option error
}.

(** the lines up to the first turn that does not encode, and its error *)
Fixpoint encode_turns (encode : Turn -> result string) (turns : list Turn) : list string * option error :=
  match turns with
  | [] => ([], None)
  | t :: turns' =>
      match encode t with
      | inr err => ([], Some (errorf_w ("transcript: marshal turn " +:+ fmt_d (Turn_Step t) +:+ ": ") err))
      | inl b => let '(ls, err) := encode_turns encode turns' in ((b +:+ newline) :: ls, err)
      end
  end%string.

(** a failed write is seen before the encoding of a later turn *)
Definition writeTurns (encode : Turn -> result string) (disk : Disk) (path : string) (turns : list Turn) (fs : gmap string string)
  : gmap string string * option error :=
  match Disk_OpenFile disk path with
  | Some err => (fs, Some (errorf_w ("transcript: open " +:+ path +:+ ": ") err))
  | None =>
      let '(ls, merr) := encode_turns encode turns in
      let '(data, werr, ferr) := Disk_bufio disk ls in
      (<[path := data]> fs,
       match werr with
       | Some err => Some (errorf_w ("transcript: write " +:+ path +:+ ": ") err)
       | None => match merr with Some err => Some err | None => ferr end
       end)
  end%string.

Definition writeSet (encodeSet : ProposalSet -> result string) (disk : Disk) (path : string) (set : ProposalSet) (fs : gmap string string)
  : gmap string string * option error :=
  match encodeSet set with
  | inr err => (fs, Some (errorf_w "transcript: marshal set: " err))
  | inl b =>
      let '(data, werr) := Disk_WriteFile disk path b in
      (match data with Some data => <[path := data]> fs | None => fs end,
       match werr with Some err => Some (errorf_w ("transcript: write " +:+ path +:+ ": ") err) | None => None end)
  end%string.

Definition WritePair (encode : Turn -> result string) (encodeSet : ProposalSet -> result string) (disk : Disk) (dir : string)
  (turns : list Turn) (set : option ProposalSet) (fs : gmap string string) : gmap string string * result string :=
  match Disk_MkdirAll disk dir with
  | Some err => (fs, inr (errorf_w ("transcript: mkdir " +:+ dir +:+ ": ") err))
  | None =>
      let jsonlPath := dir +:+ "/run.jsonl" in
      match writeTurns encode disk jsonlPath turns fs with
      | (fs1, Some err) => (fs1, inr err)
      | (fs1, None) =>
          match set with
          | None => (fs1, inl jsonlPath)
          | Some s =>
              match writeSet encodeSet disk (dir +:+ "/run.set.json") s fs1 with
              | (fs2, Some err) => (fs2, inr err)
              | (fs2, None) => (fs2, inl jsonlPath)
              end
          end
      end
  end%string.

Definition noTurns : string := "no checkpointed turns".
Definition noSet : string :=
  "no proposal.Set found (can lag turns by up to MaxAge + ShipInterval before shipping; retry after ~11 minutes)".

Section bulk.
Context (decode : string -> result Turn) (decodeSet : string -> result ProposalSet)
        (encode : Turn -> result string) (encodeSet : ProposalSet -> result string) (disk : Disk).

Fixpoint write_runs (k : K) (w : W) (outDir : string) (runIDs : list string) (written : list string) (skipped : gmap string string)
  (fs : gmap string string) : gmap string string * result (list string * gmap string string) :=
  match runIDs with
  | [] => (fs, inl (written, skipped))
  | runID :: rest =>
      match WalkTurns decode k runID w with
      | inr err => (fs, inr err)
      | inl [] => write_runs k w outDir rest written (<[runID := noTurns]> skipped) fs
      | inl turns =>
          match findSet decodeSet k w runID with
          | inr err => (fs, inr err)
          | inl None => write_runs k w outDir rest written (<[runID := noSet]> skipped) fs
          | inl (Some set) =>
              match WritePair encode encodeSet disk (outDir +:+ "/" +:+ runID) turns (Some set) fs with
              | (fs', inr err) => (fs', inr err)
              | (fs', inl _) => write_runs k w outDir rest (written ++ [runID]) skipped fs'
              end
          end
      end
  end.

Definition WriteAll (k : K) (w : W) (outDir : string) (fs : gmap string string) : gmap string string * result (list string * gmap string string) :=
  match ListRunIDs w with
  | inr err => (fs, inr err)
  | inl runIDs => write_runs k w outDir runIDs [] ∅ fs
  end.

End bulk.

End transcript.

(** ** Specifications *)

(** [b] is a turn [t], sealed under a full-size nonce *)
Definition sealed_turn {K} `{AEAD K} (encode : Turn -> result string) (k : K) (t : Turn) (b : string) : Prop :=
  exists nonce s, String.length nonce = NonceSize /\ encode t = inl s /\ Key_Seal k (inl nonce) s = inl b.

(** the bucket holds the run [runID] as the turns [ts], and no other object that an
    export would take for a turn of it *)
Record holds_run {W K} `{S3 W} `{AEAD K} (encode : Turn -> result string) (k : K) (runID : string) (ts : list Turn) (w : W) : Prop := {
  hr_turns : forall key n, is_Some (objects w !! key) -> String.prefix (turnsPrefix runID) key = true -> step_of (turnsPrefix runID) key = Some n ->
    exists t, t ∈ ts /\ Turn_Step t = n /\ key = turnKey runID n;
  hr_stored : forall t, t ∈ ts -> in_int64 (Turn_Step t) = true /\
    exists b, objects w !! turnKey runID (Turn_Step t) = Some b /\ sealed_turn encode k t b
}.

(** JSON loses nothing of the turns [ts]: what is marshalled of them reads back (a turn whose
    text is not UTF-8, or whose arguments are not compact, does not) *)
Definition json_turns (encode : Turn -> result string) (decode : string -> result Turn) (ts : list Turn) : Prop :=
  forall t s, t ∈ ts -> encode t = inl s -> decode s = inl t.

(** ** Lemmas: names *)

Lemma TrimSuffix_app s suf : strings_TrimSuffix (s +:+ suf) suf = s.
Proof. unfold strings_TrimSuffix. by rewrite strings_CutSuffix_app. Qed.

Lemma TrimPrefix_app p s : strings_TrimPrefix (p +:+ s) p = s.
Proof. unfold strings_TrimPrefix. by rewrite strings_CutPrefix_app. Qed.

Lemma turnKey_split r n : turnKey r n = turnsPrefix r +:+ fmt_d n +:+ ".json".
Proof. unfold turnKey, turnsPrefix. by rewrite !string_app_assoc. Qed.

Lemma finishKey_split r : finishKey r = turnsPrefix r +:+ "finish.json".
Proof. unfold finishKey, turnsPrefix. by rewrite !string_app_assoc. Qed.

Lemma step_of_turnKey r n : in_int64 n = true -> step_of (turnsPrefix r) (turnKey r n) = Some n.
Proof.
  intros Hn. unfold step_of. rewrite turnKey_split, TrimPrefix_app, TrimSuffix_app. apply ParseInt_fmt_d. by apply in_int64_spec.
Qed.

(** the name behind a prefix that is read as a step has no slash *)
Lemma step_of_name p key n : step_of p key = Some n -> no_char "/" (strings_TrimPrefix key p) = true.
Proof.
  unfold step_of, strings_TrimSuffix. intros E. apply (ParseInt_no_char "/") in E; [| done..].
  destruct (strings_CutSuffix _ _) as [u |] eqn:Ec; [| done]. apply CutSuffix_split in Ec as ->. by rewrite no_char_app, E.
Qed.

(** a slash-free name belongs to one directory *)
Lemma last_dir_unique r x r' x' : no_char "/" x = true -> no_char "/" x' = true -> r +:+ "/" +:+ x = r' +:+ "/" +:+ x' -> r = r' /\ x = x'.
Proof.
  intros Hx Hx' E. assert (cut_last (r +:+ "/" +:+ x) "/" = Some (r, x)) as E1 by (by apply cut_last_app).
  rewrite E in E1. change ("/" +:+ x') with (String "/" x') in E1. rewrite cut_last_app in E1 by done. by simplify_eq.
Qed.

Lemma foreign_name r name r' n :
  no_char "/" name = true -> String.prefix (turnsPrefix r) (turnsPrefix r' +:+ name) = true ->
  step_of (turnsPrefix r) (turnsPrefix r' +:+ name) = Some n -> r = r'.
Proof.
  intros Hn Hp Hs. apply step_of_name in Hs. apply prefix_split in Hp as [x Hx]. rewrite Hx, TrimPrefix_app in Hs.
  unfold turnsPrefix in Hx. rewrite !string_app_assoc in Hx.
  assert (forall a b : string, "transcripts/" +:+ a = "transcripts/" +:+ b -> a = b) as Hinj by (intros a b E; cbn in E; by simplify_eq).
  apply Hinj in Hx. symmetry in Hx. by destruct (last_dir_unique _ _ _ _ Hs Hn Hx).
Qed.

Lemma turn_name n : no_char "/" (fmt_d n +:+ ".json") = true.
Proof. rewrite no_char_app, fmt_d_no_char by done. done. Qed.

Lemma turnKey_step r n r' n' :
  String.prefix (turnsPrefix r) (turnKey r' n') = true -> step_of (turnsPrefix r) (turnKey r' n') = Some n -> in_int64 n' = true -> r = r' /\ n = n'.
Proof.
  intros Hp Hs Hn. assert (r = r') as <-.
  { rewrite turnKey_split in Hp, Hs. by apply (foreign_name r _ r' n (turn_name n') Hp Hs). }
  split; [done |]. rewrite step_of_turnKey in Hs by done. by simplify_eq.
Qed.

Lemma finishKey_step r r' : String.prefix (turnsPrefix r) (finishKey r') = true -> step_of (turnsPrefix r) (finishKey r') = None.
Proof.
  intros Hp. destruct (step_of _ _) as [n |] eqn:Hs; [| done]. rewrite finishKey_split in Hp, Hs.
  pose proof (foreign_name r "finish.json" r' n eq_refl Hp Hs) as <-. unfold step_of in Hs. by rewrite TrimPrefix_app in Hs.
Qed.

Lemma turnKey_inj r n r' n' : turnKey r n = turnKey r' n' -> r = r' /\ fmt_d n = fmt_d n'.
Proof.
  rewrite !turnKey_split. unfold turnsPrefix. rewrite !string_app_assoc. intros E.
  assert (r +:+ "/" +:+ fmt_d n +:+ ".json" = r' +:+ "/" +:+ fmt_d n' +:+ ".json") as E' by (cbn in E; by simplify_eq).
  apply last_dir_unique in E' as [-> E']; [| apply turn_name..]. split; [done |].
  apply (f_equal (fun x => strings_TrimSuffix x ".json")) in E'. by rewrite !TrimSuffix_app in E'.
Qed.

Lemma turnKey_finishKey r n r' : turnKey r n <> finishKey r'.
Proof.
  rewrite turnKey_split, finishKey_split. unfold turnsPrefix. rewrite !string_app_assoc. intros E.
  assert (r +:+ "/" +:+ fmt_d n +:+ ".json" = r' +:+ "/" +:+ "finish.json") as E' by (cbn in E; by simplify_eq).
  apply last_dir_unique in E' as [_ E']; [| apply turn_name | done].
  apply (f_equal (fun x => strings_TrimSuffix x ".json")) in E'. rewrite TrimSuffix_app in E'.
  pose proof (parse_int_fmt_d n) as Hp. rewrite E' in Hp. done.
Qed.

(** ** Lemmas: the walk *)

Section walk.
Context {W K : Type} `{S3Laws W} `{AEADLaws K} `{SortKeyed Turn}.
Context (encode : Turn -> result string) (decode : string -> result Turn).
Implicit Types (w : W) (k : K).

Lemma getTurn_sealed k key w t b :
  (forall s, encode t = inl s -> decode s = inl t) ->
  objects w !! key = Some b -> (exists b', GetObject key w = inl (inl b')) -> sealed_turn encode k t b -> getTurn decode k key w = inl t.
Proof.
  intros Hjson Hk [b' Hg] (nonce & s & Hn & He & Hs). pose proof (get_stored _ _ _ Hg) as Hb. rewrite Hk in Hb. injection Hb as <-.
  unfold getTurn. by rewrite Hg, (Open_Seal k nonce s b Hn Hs), (Hjson s He).
Qed.

(** a walk in which every named step reads as [T] says *)
Lemma walk_contents_ok k prefix w (T : string -> Turn) keys found :
  (forall key n, key ∈ keys -> step_of prefix key = Some n -> getTurn decode k key w = inl (T key)) ->
  walk_contents decode k prefix w keys found = inl (found ++ omap (fun key => (fun n => (n, T key)) <$> step_of prefix key) keys).
Proof.
  revert found. induction keys as [| key keys IH]; intros found Hk; [by rewrite app_nil_r |]. cbn [walk_contents].
  assert (forall key' n, key' ∈ keys -> step_of prefix key' = Some n -> getTurn decode k key' w = inl (T key')) as Hk' by (intros; eapply Hk; [by right | done]).
  cbn [omap list_omap]. destruct (step_of prefix key) as [n |] eqn:Es; cbn [fmap option_fmap option_map].
  - rewrite (Hk key n ltac:(left) Es), IH by done. by rewrite <- app_assoc.
  - by apply IH.
Qed.

Lemma walk_pages_ok k prefix w (T : string -> Turn) pages found :
  (forall key n, key ∈ concat pages -> step_of prefix key = Some n -> getTurn decode k key w = inl (T key)) ->
  walk_turn_pages decode k prefix w (map inl pages) found = inl (found ++ omap (fun key => (fun n => (n, T key)) <$> step_of prefix key) (concat pages)).
Proof.
  revert found. induction pages as [| page pages IH]; intros found Hk; [by rewrite app_nil_r |]. cbn [walk_turn_pages map concat].
  rewrite (walk_contents_ok k prefix w T) by (intros key n Hin; apply Hk; cbn; set_solver).
  rewrite IH by (intros key n Hin; apply Hk; cbn; set_solver). by rewrite omap_app, <- app_assoc.
Qed.

(** the export of a run the bucket holds *)
Lemma WalkTurns_holds k runID ts w :
  json_turns encode decode ts -> holds_run encode k runID ts w -> readable w -> StronglySorted (fun a b => Turn_Step a < Turn_Step b) ts ->
  WalkTurns decode k runID w = inl ts.
Proof.
  intros Hjson [Hts Hst] [Hlist Hget] Hsort. unfold WalkTurns. destruct (Hlist (turnsPrefix runID)) as [pages Hp]. rewrite Hp.
  destruct (list_complete _ _ _ Hp) as [Hnd Hin].
  set (T := fun key => match getTurn decode k key w with inl t => t | inr _ => mkTurn "" 0 [] end).
  assert (forall t, t ∈ ts -> getTurn decode k (turnKey runID (Turn_Step t)) w = inl t) as Hread.
  { intros t Ht. destruct (Hst t Ht) as (_ & b & Hb & Hs). eapply getTurn_sealed; [intros s; by apply Hjson | exact Hb | by apply Hget; eexists | exact Hs]. }
  assert (forall key n, key ∈ concat pages -> step_of (turnsPrefix runID) key = Some n -> exists t, t ∈ ts /\ Turn_Step t = n /\ key = turnKey runID n /\ T key = t) as Hkey.
  { intros key n [Hk Hpre]%Hin Hs. destruct (Hts key n Hk Hpre Hs) as (t & Ht & <- & ->). exists t. do 3 (split; [done |]).
    unfold T. by rewrite (Hread t Ht). }
  rewrite (walk_pages_ok k _ w T).
  2:{ intros key n Hk Hs. destruct (Hkey key n Hk Hs) as (t & Ht & <- & -> & HT). rewrite HT. by apply Hread. }
  cbn [app]. set (found := omap _ (concat pages)).
  assert (found ≡ₚ map (fun t => (Turn_Step t, t)) ts) as Hperm.
  { apply NoDup_Permutation.
    - unfold found. clear -Hnd Hkey. revert Hkey. induction Hnd as [| key keys Hk _ IH]; intros Hkey; [constructor |]. cbn [omap list_omap].
      destruct (step_of _ key) as [n |] eqn:Es; [| apply IH; intros; apply Hkey; [by right | done]]. cbn. constructor; [| apply IH; intros; apply Hkey; [by right | done]].
      intros (key' & Hin' & E)%list_elem_of_omap. destruct (step_of _ key') as [n' |] eqn:Es'; [| done]. cbn in E. injection E as -> _.
      destruct (Hkey key n ltac:(left) Es) as (_ & _ & _ & E1 & _). destruct (Hkey key' n ltac:(by right) Es') as (_ & _ & _ & E2 & _). by subst.
    - eapply (NoDup_fmap_1 snd). change (snd <$> map (fun t => (Turn_Step t, t)) ts) with (map snd (map (fun t => (Turn_Step t, t)) ts)).
      rewrite map_map. cbn. rewrite map_id. clear -Hsort. induction Hsort as [| t ts _ IH Ht]; constructor; [| done].
      intros Hin. rewrite list.Forall_forall in Ht. specialize (Ht t Hin). lia.
    - intros [n t]. unfold found. rewrite list_elem_of_omap. split.
      + intros (key & Hk & E). destruct (step_of _ key) as [n' |] eqn:Es; [| done]. cbn in E. injection E as -> <-.
        destruct (Hkey key n Hk Es) as (t & Ht & <- & _ & ->). apply list_elem_of_fmap. by exists t.
      + intros (t' & E & Ht)%list_elem_of_fmap. injection E as -> ->. destruct (Hst t' Ht) as (Hn & b & Hb & _).
        pose proof (step_of_turnKey runID _ Hn) as Hs. exists (turnKey runID (Turn_Step t')).
        assert (turnKey runID (Turn_Step t') ∈ concat pages) as Hk by (apply Hin; split; [by eexists | rewrite turnKey_split; apply prefix_app]).
        split; [done |]. rewrite Hs. cbn. do 2 f_equal. unfold T. by rewrite (Hread t' Ht). }
  f_equal. rewrite (sorted_keys_unique (map (fun t => (Turn_Step t, t)) ts) (sort_keyed found)); [by rewrite map_map, map_id | | apply sort_keyed_sorted | by rewrite sort_keyed_perm].
  clear -Hsort. induction Hsort as [| t ts _ IH Ht]; [constructor |]. cbn. constructor; [done |]. apply Forall_fmap. exact Ht.
Qed.

End walk.

(** ** The bucket's life *)

(** what is put in the bucket: a turn checkpointed or a run finished by [S3Store], under
    the nonce read, or an object of another writer *)
Inductive bucket_event : Type :=
| BeTurn (t : Turn) (nonce : string)
| BeFinish (runID : string) (runErr : option error) (nonce : string)
| BePut (key body : string).

Section life.
Context {W K : Type} `{S3 W} `{AEAD K}.
Context (encode : Turn -> result string) (encodeFinish : terminalRecord -> result string) (k : K).

Definition bucket_step (w : W) (ev : bucket_event) : W * option error :=
  match ev with
  | BeTurn t nonce => S3Store_Checkpoint encode k Background (inl nonce) t w
  | BeFinish runID runErr nonce => S3Store_Finish encodeFinish k Background (inl nonce) runID runErr w
  | BePut key body => PutObject key body w
  end.

(** [Some w']: every call succeeded *)
Fixpoint bucket_run (evs : list bucket_event) (w : W) : option W :=
  match evs with
  | [] => Some w
  | ev :: evs' => match bucket_step w ev with (w', None) => bucket_run evs' w' | (_, Some _) => None end
  end.

Definition turns_of (runID : string) (evs : list bucket_event) : list Turn :=
  omap (fun ev => match ev with BeTurn t _ => if Turn_RunID t =s runID then Some t else None | _ => None end) evs.

(** the other writers keep out of the transcripts; a nonce is full-size *)
Definition event_ok (ev : bucket_event) : Prop :=
  match ev with
  | BeTurn _ nonce => String.length nonce = NonceSize
  | BeFinish _ _ _ => True
  | BePut key _ => String.prefix "transcripts/" key = false
  end.

Definition no_transcripts (w : W) : Prop := forall key, is_Some (objects w !! key) -> String.prefix "transcripts/" key = false.

Definition event_key (ev : bucket_event) : string :=
  match ev with BeTurn t _ => turnKey (Turn_RunID t) (Turn_Step t) | BeFinish r _ _ => finishKey r | BePut key _ => key end.

End life.

Section life_lemmas.
Context {W K : Type} `{S3Laws W} `{AEADLaws K}.
Context (encode : Turn -> result string) (encodeFinish : terminalRecord -> result string) (k : K).
Implicit Types (w : W).

Lemma putJSON_ok key b rnd w w' : putJSON k Background key b rnd w = (w', None) ->
  exists s sealed, b = inl s /\ Key_Seal k rnd s = inl sealed /\ objects w' = <[key := sealed]> (objects w).
Proof.
  unfold putJSON. cbn. destruct b as [s |]; [| done]. destruct (Key_Seal k rnd s) as [sealed |] eqn:Es; [| done].
  destruct (PutObject key sealed w) as [w1 [err |]] eqn:Ep; [done |]. intros [= <-]. exists s, sealed. split; [done |]. split; [done |]. by eapply put_stored.
Qed.

(** each event that succeeds puts one object, under its own key *)
Lemma bucket_step_ok ev w w' : bucket_step encode encodeFinish k w ev = (w', None) ->
  exists b, objects w' = <[event_key ev := b]> (objects w) /\
    match ev with BeTurn t nonce => exists s, encode t = inl s /\ Key_Seal k (inl nonce) s = inl b | _ => True end.
Proof.
  destruct ev as [t nonce | r err nonce | key body]; cbn.
  - intros (s & b & ? & ? & ?)%putJSON_ok. eauto.
  - intros (s & b & ? & ? & ?)%putJSON_ok. eauto.
  - intros E. exists body. split; [by eapply put_stored | done].
Qed.

Lemma prefix_transcripts r key : String.prefix (turnsPrefix r) key = true -> String.prefix "transcripts/" key = true.
Proof. intros [x ->]%prefix_split. unfold turnsPrefix. rewrite !string_app_assoc. apply prefix_app. Qed.

(** an object that no export takes for a turn of the run *)
Lemma holds_put_foreign runID ts w w' key b :
  holds_run encode k runID ts w -> objects w' = <[key := b]> (objects w) ->
  (String.prefix (turnsPrefix runID) key = true -> step_of (turnsPrefix runID) key = None) -> holds_run encode k runID ts w'.
Proof.
  intros [Hts Hst] Ho Hk. split.
  - intros key' n Hs Hp Hn. rewrite Ho in Hs. destruct (decide (key' = key)) as [-> | Hne]; [by rewrite Hk in Hn |].
    rewrite lookup_insert_ne in Hs by done. by apply Hts.
  - intros t Ht. destruct (Hst t Ht) as (Hn & b' & Hb & Hsealed). split; [done |]. exists b'. split; [| done].
    rewrite Ho, lookup_insert_ne; [done |]. intros ->. pose proof (step_of_turnKey runID _ Hn) as Hs. rewrite Hk in Hs; [done |].
    rewrite turnKey_split. apply prefix_app.
Qed.

Lemma holds_put_turn runID ts w w' t b :
  holds_run encode k runID ts w -> objects w' = <[turnKey runID (Turn_Step t) := b]> (objects w) -> sealed_turn encode k t b ->
  in_int64 (Turn_Step t) = true -> (forall t', t' ∈ ts -> Turn_Step t' < Turn_Step t) -> holds_run encode k runID (ts ++ [t]) w'.
Proof.
  intros [Hts Hst] Ho Hs Hn Hlt. split.
  - intros key n Hk Hp Hkn. rewrite Ho in Hk. destruct (decide (key = turnKey runID (Turn_Step t))) as [-> | Hne].
    + exists t. rewrite step_of_turnKey in Hkn by done. injection Hkn as <-. split; [set_solver | done].
    + rewrite lookup_insert_ne in Hk by done. destruct (Hts key n Hk Hp Hkn) as (t' & Ht' & ? & ?). exists t'. split; [set_solver | done].
  - intros t' [Ht' | ->%list_elem_of_singleton]%elem_of_app.
    + destruct (Hst t' Ht') as (Hn' & b' & Hb & Hsealed). split; [done |]. exists b'. split; [| done]. rewrite Ho, lookup_insert_ne; [done |].
      intros E. pose proof (step_of_turnKey runID _ Hn') as Hs'. rewrite <- E, step_of_turnKey in Hs' by done. injection Hs' as Hs'. specialize (Hlt t' Ht'). lia.
    + split; [done |]. exists b. by rewrite Ho, lookup_insert_eq.
Qed.

Lemma holds_nothing runID w : no_transcripts w -> holds_run encode k runID [] w.
Proof.
  intros Hno. split; [| intros t Ht; by apply not_elem_of_nil in Ht]. intros key n Hk Hp%prefix_transcripts. rewrite (Hno key Hk) in Hp. done.
Qed.

(** an event of another run, or of another writer *)
Lemma foreign_event runID ev w w' ts :
  holds_run encode k runID ts w -> bucket_step encode encodeFinish k w ev = (w', None) -> event_ok ev ->
  match ev with BeTurn t _ => Turn_RunID t <> runID | _ => True end -> holds_run encode k runID ts w'.
Proof.
  intros Hh (b & Ho & _)%bucket_step_ok Hok Hr. apply (holds_put_foreign _ _ _ _ _ _ Hh Ho). intros Hp. destruct ev as [t nonce | r err nonce | key body]; cbn in *.
  - destruct (step_of _ _) as [n |] eqn:Hs; [| done]. rewrite turnKey_split in Hp, Hs.
    by rewrite (foreign_name runID _ (Turn_RunID t) n (turn_name _) Hp Hs) in Hr.
  - by apply finishKey_step.
  - apply prefix_transcripts in Hp. congruence.
Qed.

Lemma run_holds runID evs w w' ts :
  bucket_run encode encodeFinish k evs w = Some w' -> Forall event_ok evs -> holds_run encode k runID ts w ->
  StronglySorted (fun a b => Turn_Step a < Turn_Step b) (ts ++ turns_of runID evs) ->
  (forall t, t ∈ turns_of runID evs -> in_int64 (Turn_Step t) = true) -> holds_run encode k runID (ts ++ turns_of runID evs) w'.
Proof.
  revert w ts. induction evs as [| ev evs IH]; intros w ts; cbn [bucket_run].
  { intros [= <-] _ Hh _ _. by rewrite app_nil_r. }
  destruct (bucket_step _ _ _ w ev) as [w1 [err |]] eqn:Es; [done |]. intros Hrun [Hok Hoks]%Forall_cons_iff Hh Hsort Hint.
  unfold turns_of in *. cbn [omap list_omap] in *.
  destruct (match ev with BeTurn t _ => if Turn_RunID t =s runID then Some t else None | _ => None end) as [t |] eqn:Et.
  - destruct ev as [t' nonce | |]; [| done..]. destruct (String.eqb_spec (Turn_RunID t') runID) as [Hr |]; [| done]. injection Et as ->.
    rewrite cons_middle, app_assoc in *. apply (IH w1 (ts ++ [t])); [done | done | | done | by intros; apply Hint; right].
    apply bucket_step_ok in Es as (b & Ho & s & He & Hs). cbn [event_key] in Ho. rewrite Hr in Ho.
    apply (holds_put_turn _ _ _ _ _ _ Hh Ho); [by exists nonce, s | apply Hint; left |].
    intros t' Ht'. apply StronglySorted_app_1_l in Hsort.
    exact (StronglySorted_app_1_elem_of _ ts [t] t' t Hsort Ht' ltac:(left)).
  - apply (IH w1 ts); [done | done | | done | done]. apply (foreign_event _ _ _ _ _ Hh Es Hok).
    destruct ev as [t' nonce | |]; [| done..]. by destruct (String.eqb_spec (Turn_RunID t') runID).
Qed.

End life_lemmas.

(** ** The same run over another store *)

Definition with_store {M S1 S2} (store : Store (S_ := S2)) (e : Engine (M := M) (S_ := S1)) : Engine (M := M) (S_ := S2) :=
  mkEngine (Eng_Intake e) (Eng_Complete e) (Eng_Tools e) (Eng_Catalog e) (Eng_FailureClasses e) store (Eng_ScorerPrior e) (Eng_Prior e)
    (Eng_DedupeWindow e) (Eng_HasPub e) (Eng_HasJournal e) (Eng_MaxSteps e) (Eng_Weights e) (Eng_schema e) (Eng_decode_propose e) (Eng_decode_insufficient e).

Section simulation.
Context {M S1 S2 WP WJ : Type} `{PublisherLaws WP ProposalSet} `{PublisherLaws WJ ProposalSet}.
Context (e : Engine (M := M) (S_ := S1)) (store : Store (S_ := S2)).
Let e2 := with_store store e.

Definition with_s (s : S2) (st : EngState (M := M) (S_ := S1) (WP := WP) (WJ := WJ)) : EngState (M := M) (S_ := S2) (WP := WP) (WJ := WJ) :=
  mkEngState (Es_env st) s (Es_ledger st) (Es_pub st) (Es_journal st).

Lemma record_run_with ctx ck set st s :
  record_run e2 ctx ck set (with_s s st) = (with_s s (record_run e ctx ck set st).1, (record_run e ctx ck set st).2) /\
  Es_store (record_run e ctx ck set st).1 = Es_store st.
Proof.
  unfold record_run. cbn. destruct (Record_ _ _ _ _ _) as [l [err |]]; [done |]. cbn.
  destruct (Eng_HasJournal e); [| done]. by destruct (publish _ _ _) as [j [err |]].
Qed.

Lemma conclude_with ctx ck sig runID sao d st s :
  conclude e2 ctx ck sig runID sao d (with_s s st) = (with_s s (conclude e ctx ck sig runID sao d st).1, (conclude e ctx ck sig runID sao d st).2) /\
  Es_store (conclude e ctx ck sig runID sao d st).1 = Es_store st.
Proof.
  unfold conclude. destruct (negb (finished d)); [apply record_run_with |]. destruct (negb (Dr_proposed d)); [apply record_run_with |].
  cbn [e2 with_store Eng_Catalog]. destruct (enforceCatalog _ _ _) as [err |]; [destruct (_ && _); [done | apply record_run_with] |].
  destruct (enforceCitations _) as [err |]; [destruct (negb _); [done | apply record_run_with] |].
  change (form_set e2) with (form_set e). change (Es_ledger (with_s s st)) with (Es_ledger st). cbn [e2 with_store Eng_DedupeWindow].
  destruct (Open _ _ _ _) as [dupes | err]; [| done].
  destruct (record_run_with ctx ck (with_gate (form_set e sig sao (draft_set sig runID sao d None "" (Dr_Reason d))) 
              (gate_Evaluate (form_set e sig sao (draft_set sig runID sao d None "" (Dr_Reason d))) dupes)) st s) as [Er Es].
  fold e2. cbv zeta. rewrite Er. destruct (record_run e _ _ _ st) as [st1 [set | err]]; cbn [fst snd] in *; [| by split].
  cbn [e2 with_store Eng_HasPub]. destruct (_ && _); [| by split]. cbn [with_s Es_pub].
  by destruct (publish _ _ _) as [p [err |]]; cbn [fst snd].
Qed.

Lemma dispatch_with calls d res m : dispatch_calls e2 calls d res m = dispatch_calls e calls d res m.
Proof.
  revert d res m. induction calls as [| call calls IH]; intros d res m; [done |]. cbn [dispatch_calls e2 with_store Eng_decode_propose Eng_decode_insufficient Eng_Tools].
  destruct (_ =s "propose"); [done |]. destruct (_ =s "insufficient"); [done |]. destruct (Eng_Tools e !! _) as [tool |]; [| apply IH].
  destruct (Tool_Run _ _ _) as [m' [ref | err]]; [apply IH | done].
Qed.

(** checkpoints that keep [R]: [R n] after the [n] turns before step [n] *)
Variables (runID : string) (R : Z -> S1 -> S2 -> Prop).
(** what the first store holds at the end is [Good], as everything before it then was *)
Variable Good : S1 -> Prop.
Hypothesis good_checkpoint : forall t s1, Good (Store_Checkpoint (Eng_Store e) t s1).1 -> Good s1.
Hypothesis good_finish : forall err s1, Good (Store_Finish (Eng_Store e) runID err s1).1 -> Good s1.
Hypothesis ck_sim : forall n msgs s1 s2, 0 <= n < Eng_MaxSteps e -> R n s1 s2 ->
  Good (Store_Checkpoint (Eng_Store e) (mkTurn runID n msgs) s1).1 ->
  exists s1' s2', Store_Checkpoint (Eng_Store e) (mkTurn runID n msgs) s1 = (s1', None) /\
    Store_Checkpoint store (mkTurn runID n msgs) s2 = (s2', None) /\ R (n + 1) s1' s2'.

Lemma turn_good n msgs d m s1 : Good (turn e runID n msgs d m s1).1.2 -> Good s1.
Proof.
  unfold turn. destruct (Eng_Complete e msgs (toolSpecs e) m) as [m1 [comp | err]]; [| done].
  match goal with |- context [mkTurn runID n ?ms] =>
    pose proof (good_checkpoint (mkTurn runID n ms) s1) as Hg; destruct (Store_Checkpoint _ (mkTurn runID n ms) s1) as [s1' [err |]]; [done |] end.
  destruct (withCallIDs _ _) as [| c cs]; [done |]. by destruct (dispatch_calls e _ _ _ _) as [m2 [[d' res] | err]].
Qed.

Lemma loop_good fuel n msgs d m s1 : Good (reason_loop e runID fuel n msgs d m s1).1.2 -> Good s1.
Proof.
  revert n msgs d m s1. induction fuel as [| fuel IH]; intros n msgs d m s1; cbn [reason_loop]; [done |].
  pose proof (turn_good n msgs d m s1) as Hg. destruct (turn e _ _ _ _ _ _) as [[m1 s1'] [[d' msgs'] | err]]; [| done].
  destruct (finished d'); [done |]. intros H'. by apply Hg, (IH (n + 1) msgs' d' m1).
Qed.

Lemma turn_sim n msgs d m s1 s2 : 0 <= n < Eng_MaxSteps e -> R n s1 s2 -> Good (turn e runID n msgs d m s1).1.2 ->
  exists n' m' s1' s2' r, turn e runID n msgs d m s1 = (m', s1', r) /\ turn e2 runID n msgs d m s2 = (m', s2', r) /\ R n' s1' s2' /\
    (forall x, r = inl x -> n' = n + 1).
Proof.
  intros Hn HR. unfold turn. change (toolSpecs e2) with (toolSpecs e). cbn [e2 with_store Eng_Complete Eng_Store].
  destruct (Eng_Complete e msgs (toolSpecs e) m) as [m1 [comp | err]]; [| by exists n, m1, s1, s2; eexists].
  match goal with |- context [mkTurn runID n ?ms] => pose proof (ck_sim n ms s1 s2 Hn HR) as Hck; set (t := mkTurn runID n ms) in * end.
  intros Hgood. assert (Good (Store_Checkpoint (Eng_Store e) t s1).1) as Hg.
  { revert Hgood. destruct (Store_Checkpoint (Eng_Store e) t s1) as [s1' [err |]]; [done |].
    destruct (withCallIDs _ _) as [| c cs]; [done |]. by destruct (dispatch_calls e _ _ _ _) as [m2 [[d' res] | err]]. }
  clear Hgood. destruct (Hck Hg) as (s1' & s2' & -> & -> & HR').
  destruct (withCallIDs _ _) as [| c cs]; [by exists (n + 1), m1, s1', s2'; eexists |].
  rewrite dispatch_with. destruct (dispatch_calls e _ _ _ _) as [m2 [[d' res] | err]];
    exists (n + 1), m2, s1', s2'; by eexists.
Qed.

Lemma loop_sim fuel n msgs d m s1 s2 : 0 <= n -> (fuel <= Z.to_nat (Eng_MaxSteps e - n))%nat -> R n s1 s2 ->
  Good (reason_loop e runID fuel n msgs d m s1).1.2 ->
  exists n' m' s1' s2' r, reason_loop e runID fuel n msgs d m s1 = (m', s1', r) /\ reason_loop e2 runID fuel n msgs d m s2 = (m', s2', r) /\ R n' s1' s2'.
Proof.
  revert n msgs d m s1 s2. induction fuel as [| fuel IH]; intros n msgs d m s1 s2 Hn Hle HR Hgood; cbn [reason_loop] in Hgood |- *.
  { exists n, m, s1, s2. by eexists. }
  assert (Good (turn e runID n msgs d m s1).1.2) as Hg.
  { revert Hgood. destruct (turn e _ _ _ _ _ _) as [[m1 s1'] [[d' msgs'] | err]]; [| done]. destruct (finished d'); [done | apply loop_good]. }
  destruct (turn_sim n msgs d m s1 s2 ltac:(lia) HR Hg) as (n' & m' & s1' & s2' & r & E1 & E2 & HR' & Hn'). rewrite E1 in Hgood |- *. rewrite E2. clear E1 E2 Hg.
  destruct r as [[d' msgs'] | err]; [| by exists n', m', s1', s2'; eexists].
  destruct (finished d'); [by exists n', m', s1', s2'; eexists |]. rewrite (Hn' _ eq_refl) in HR'.
  destruct (IH (n + 1) msgs' d' m' s1' s2' ltac:(lia) ltac:(lia) HR' Hgood) as (n2 & m2 & t1 & t2 & r & E1 & E2 & HR2).
  exists n2, m2, t1, t2, r. done.
Qed.

(** the part of [Propose] after the loop's first message is made, and its last step *)
Definition after_seed {S} (eng : Engine (M := M) (S_ := S)) ctx ck sig sao fuel msgs m (ledger : MemProposalLog) (st : EngState (M := M) (S_ := S) (WP := WP) (WJ := WJ))
  : EngState (M := M) (S_ := S) (WP := WP) (WJ := WJ) * result ProposalSet :=
  match reason_loop eng runID fuel 0 msgs Draft_zero m (Es_store st) with
  | (m2, s2, inr err) => (mkEngState m2 s2 ledger (Es_pub st) (Es_journal st), inr err)
  | (m2, s2, inl d) => conclude eng ctx ck sig runID sao d (mkEngState m2 s2 ledger (Es_pub st) (Es_journal st))
  end.

Definition finish {S} (eng : Engine (M := M) (S_ := S)) (sr : EngState (M := M) (S_ := S) (WP := WP) (WJ := WJ) * result ProposalSet)
  : EngState (M := M) (S_ := S) (WP := WP) (WJ := WJ) * result ProposalSet :=
  let '(st', r) := sr in
  let '(s', _) := Store_Finish (Eng_Store eng) runID (match r with inr err => Some err | inl _ => None end) (Es_store st') in
  (mkEngState (Es_env st') s' (Es_ledger st') (Es_pub st') (Es_journal st'), r).

Lemma Propose_parts {S} (eng : Engine (M := M) (S_ := S)) ctx ck sig drift (st : EngState (M := M) (S_ := S) (WP := WP) (WJ := WJ)) :
  runID = Detection_Fingerprint sig +:+ "/" +:+ fmt_d (UnixNano (Ck_run ck)) ->
  Propose eng ctx ck sig drift st =
  match Open ctx (Detection_Fingerprint sig) (GoTime.Add (Ck_open ck) (- Eng_DedupeWindow eng)) (Es_ledger st) with
  | inr err => (st, inr (errorf_w "open dupes: " err))
  | inl (_ :: _) => (st, inl Set_zero)
  | inl [] =>
      finish eng (match Assemble (Eng_Intake eng) sig (Ck_assembled ck) (Es_env st) with
        | (m1, inr err) => (mkEngState m1 (Es_store st) (drift (Es_ledger st)) (Es_pub st) (Es_journal st), inr (errorf_w "intake: " err))
        | (m1, inl sao) =>
            after_seed eng ctx ck sig sao (Z.to_nat (Eng_MaxSteps eng))
              [mkMessage "user" (seedPrompt sig sao (Eng_FailureClasses eng) (ApplicableToTier (Eng_Catalog eng) (Detection_ServiceTier sig) sao)) [] []]
              m1 (drift (Es_ledger st)) st
        end)
  end.
Proof. intros Hid. unfold Propose. by rewrite <- Hid. Qed.

(** the two runs end alike *)
Definition alike (sr : EngState (M := M) (S_ := S1) (WP := WP) (WJ := WJ) * result ProposalSet) (sr2 : EngState (M := M) (S_ := S2) (WP := WP) (WJ := WJ) * result ProposalSet) : Prop :=
  exists n s, sr2 = (with_s s sr.1, sr.2) /\ R n (Es_store sr.1) s.

Lemma after_seed_sim ctx ck sig sao fuel msgs m ledger st s :
  (fuel <= Z.to_nat (Eng_MaxSteps e))%nat -> R 0 (Es_store st) s ->
  Good (Es_store (after_seed e ctx ck sig sao fuel msgs m ledger st).1) ->
  alike (after_seed e ctx ck sig sao fuel msgs m ledger st) (after_seed e2 ctx ck sig sao fuel msgs m ledger (with_s s st)).
Proof.
  intros Hf HR. unfold after_seed. intros Hgood.
  assert (Good (reason_loop e runID fuel 0 msgs Draft_zero m (Es_store st)).1.2) as Hg.
  { revert Hgood. destruct (reason_loop _ _ _ _ _ _ _ _) as [[m2 s2] [d | err]]; [| done].
    destruct (conclude_with ctx ck sig runID sao d (mkEngState m2 s2 ledger (Es_pub st) (Es_journal st)) s) as [_ Es]. by rewrite Es. }
  destruct (loop_sim fuel 0 msgs Draft_zero m (Es_store st) s ltac:(lia) ltac:(rewrite Z.sub_0_r; lia) HR Hg) as (n & m' & s1' & s2' & r & E1 & E2 & HR1).
  change (Es_store (with_s s st)) with s. rewrite E1, E2. destruct r as [d | err]; [| by exists n, s2'].
  pose proof (conclude_with ctx ck sig runID sao d (mkEngState m' s1' ledger (Es_pub st) (Es_journal st)) s2') as [Ec Es].
  exists n, s2'. split; [exact Ec |]. by rewrite Es.
Qed.

Lemma Propose_sim ctx ck sig drift st s :
  runID = Detection_Fingerprint sig +:+ "/" +:+ fmt_d (UnixNano (Ck_run ck)) -> R 0 (Es_store st) s ->
  (forall n s1 s2 err, R n s1 s2 -> R n (Store_Finish (Eng_Store e) runID err s1).1 (Store_Finish store runID err s2).1) ->
  Good (Es_store (Propose e ctx ck sig drift st).1) ->
  alike (Propose e ctx ck sig drift st) (Propose e2 ctx ck sig drift (with_s s st)).
Proof.
  intros Hid HR Hfin. rewrite !(Propose_parts _ ctx ck sig drift _ Hid).
  change (Es_ledger (with_s s st)) with (Es_ledger st). change (Eng_DedupeWindow e2) with (Eng_DedupeWindow e).
  destruct (Open _ _ _ _) as [[| o os] | err]; [| by exists 0, s..].
  change (Eng_Intake e2) with (Eng_Intake e). change (Es_env (with_s s st)) with (Es_env st).
  assert (forall sr sr2, alike sr sr2 -> alike (finish e sr) (finish e2 sr2)) as Hend.
  { clear -Hfin. intros [st1 r] sr2 (n & s2 & -> & HR1). unfold finish. cbn [fst snd with_s Es_store] in *.
    specialize (Hfin n (Es_store st1) s2 (match r with inr err => Some err | inl _ => None end) HR1).
    change (Eng_Store e2) with store. destruct (Store_Finish store _ _ _) as [t2 o2], (Store_Finish (Eng_Store e) _ _ _) as [t1 o1].
    by exists n, t2. }
  assert (forall sr, Good (Es_store (finish e sr).1) -> Good (Es_store sr.1)) as Hback.
  { intros [st1 r]. unfold finish. cbn [fst]. pose proof (good_finish (match r with inr err => Some err | inl _ => None end) (Es_store st1)) as Hg.
    by destruct (Store_Finish _ _ _ _). }
  destruct (Assemble _ _ _ _) as [m1 [sao | err]]; intros Hgood%Hback; apply Hend; [by apply (after_seed_sim ctx ck sig sao) | by exists 0, s].
Qed.

End simulation.

(** the [Store] [S3Store] is, over a bucket and the count of nonces read *)
Definition s3_store {W K} `{S3 W} `{AEAD K} (encode : Turn -> result string) (encodeFinish : terminalRecord -> result string) (k : K)
  (nonces : nat -> result string) : Store (S_ := W * nat) :=
  mkStore
    (fun t wi => let '(w', err) := S3Store_Checkpoint encode k Background (nonces wi.2) t wi.1 in ((w', Datatypes.S wi.2), err))
    (fun runID runErr wi => let '(w', err) := S3Store_Finish encodeFinish k Background (nonces wi.2) runID runErr wi.1 in ((w', Datatypes.S wi.2), err)).

Definition mem_store : Store (S_ := MemStore) := mkStore (MemStore_Checkpoint Background) (MemStore_Finish Background).

(** a bucket and a source of nonces whose calls all succeed, and a key that works *)
Record healthy (W : Type) {K} `{S3 W} `{AEAD K} (k : K) (nonces : nat -> result string) : Prop := {
  h_put : forall key b (w : W), exists w', PutObject key b w = (w', None);
  h_read : forall w : W, readable w;
  h_gcm : newGCM k = None;
  h_nonce : forall i, exists s, nonces i = inl s /\ String.length s = NonceSize
}.

(** each turn of [ts] marshals to text that reads back as it *)
Definition round_trips (encode : Turn -> result string) (decode : string -> result Turn) (ts : list Turn) : Prop :=
  forall t, t ∈ ts -> exists s, encode t = inl s /\ decode s = inl t.

(** what the two stores hold of the run [runID] before step [n] *)
Definition same_run {W K} `{S3 W} `{AEAD K} (encode : Turn -> result string) (k : K) (runID : string) (n : Z) (s1 : MemStore) (s2 : W * nat) : Prop :=
  holds_run encode k runID (MemStore_pending s1) s2.1 /\
  StronglySorted (fun a b => Turn_Step a < Turn_Step b) (MemStore_pending s1) /\
  forall t, t ∈ MemStore_pending s1 -> 0 <= Turn_Step t < n.

Section store_lemmas.
Context {W K : Type} `{S3Laws W} `{AEADLaws K}.
Context (encode : Turn -> result string) (encodeFinish : terminalRecord -> result string) (k : K) (nonces : nat -> result string).
Hypothesis Hh : healthy W k nonces.

Lemma putJSON_healthy key b i w : exists sealed, Key_Seal k (nonces i) b = inl sealed /\
  exists w', putJSON k Background key (inl b) (nonces i) w = (w', None) /\ objects w' = <[key := sealed]> (objects w).
Proof.
  destruct (h_nonce _ _ _ Hh i) as (s & -> & Hs). unfold putJSON. cbn. unfold Key_Seal. rewrite (h_gcm _ _ _ Hh). eexists. split; [done |].
  destruct (h_put _ _ _ Hh key (s +:+ gcm_Seal k s b) w) as [w' Hp]. rewrite Hp. exists w'. split; [done |]. by eapply put_stored.
Qed.

Lemma same_run_checkpoint runID n msgs s1 s2 : 0 <= n -> in_int64 n = true -> same_run encode k runID n s1 s2 ->
  (exists b, encode (mkTurn runID n msgs) = inl b) ->
  exists s1' s2', Store_Checkpoint mem_store (mkTurn runID n msgs) s1 = (s1', None) /\
    Store_Checkpoint (s3_store encode encodeFinish k nonces) (mkTurn runID n msgs) s2 = (s2', None) /\ same_run encode k runID (n + 1) s1' s2'.
Proof.
  intros Hn Hint (Hr & Hs & Hlt) [b Hb]. destruct s2 as [w i]. unfold s3_store, S3Store_Checkpoint. cbn [Store_Checkpoint fst snd Turn_RunID Turn_Step] in *.
  rewrite Hb. destruct (putJSON_healthy (turnKey runID n) b i w) as (sealed & Hseal & w' & Hp & Ho). rewrite Hp.
  do 2 eexists. split; [done |]. split; [done |]. unfold same_run. cbn. split; [| split].
  - apply (holds_put_turn encode k runID _ w w' (mkTurn runID n msgs) sealed Hr Ho); [| done |].
    + destruct (h_nonce _ _ _ Hh i) as (s & Hi & Hl). exists s, b. by rewrite <- Hi.
    + intros t Ht. cbn. specialize (Hlt t Ht). lia.
  - apply StronglySorted_app_2; [| done | repeat constructor]. intros t t' Ht ->%list_elem_of_singleton. cbn. specialize (Hlt t Ht). lia.
  - intros t [Ht | ->%list_elem_of_singleton]%elem_of_app; [specialize (Hlt t Ht); lia | cbn; lia].
Qed.

Lemma same_run_finish runID n s1 s2 r err : same_run encode k runID n s1 s2 ->
  same_run encode k runID n (Store_Finish mem_store r err s1).1 (Store_Finish (s3_store encode encodeFinish k nonces) r err s2).1.
Proof.
  intros (Hr & Hs & Hlt). destruct s2 as [w i]. unfold same_run, s3_store, S3Store_Finish, mem_store, MemStore_Finish. cbn [Store_Finish fst snd ctx_Err Background MemStore_pending] in *.
  destruct (encodeFinish (terminal_record err)) as [b | e]; [| done].
  destruct (putJSON_healthy (finishKey r) b i w) as (sealed & _ & w' & E & Ho). rewrite E. cbn [fst]. split; [| done].
  apply (holds_put_foreign encode k runID _ w w' _ _ Hr Ho). apply finishKey_step.
Qed.

End store_lemmas.

(** ** Lemmas: the bulk export *)

Lemma cut_first_no_char s c a b : cut_first s c = Some (a, b) -> no_char c a = true /\ s = a +:+ String c b.
Proof.
  revert a b. induction s as [| d s IH]; intros a b; [done |]. cbn [cut_first]. destruct (Ascii.eqb_spec d c) as [-> | Hd]; [by intros [= <- <-] |].
  destruct (cut_first s c) as [[a' b'] |]; [| done]. intros [= <- <-]. destruct (IH a' b' eq_refl) as [Ha ->]. split; [| done].
  cbn [no_char]. rewrite Ha, andb_true_r. by apply negb_true_iff, Ascii.eqb_neq.
Qed.

Lemma cut_first_app a c b : no_char c a = true -> cut_first (a +:+ String c b) c = Some (a, b).
Proof.
  induction a as [| d a IH]; cbn [no_char].
  - intros _. change ("" +:+ ?x) with x. cbn [cut_first]. by rewrite Ascii.eqb_refl.
  - intros [Hd%negb_true_iff Ha]%andb_true_iff. rewrite string_app_cons. cbn [cut_first]. by rewrite Hd, (IH Ha).
Qed.

Lemma run_of_no_slash key id : run_of key = Some id -> no_char "/" id = true.
Proof.
  unfold run_of. destruct (cut_first _ _) as [[a b] |] eqn:E; [| done]. destruct (a =s ""); [done |]. intros [= <-].
  by apply cut_first_no_char in E as [].
Qed.

Lemma list_runs_ok pages found : list_runs (map inl pages) found = inl (found ∪ list_to_set (omap run_of (concat pages))).
Proof.
  revert found. induction pages as [| p pages IH]; intros found; cbn [list_runs map concat].
  - f_equal. set_solver.
  - rewrite IH, omap_app, list_to_set_app_L. f_equal. set_solver.
Qed.

(** the run id the engine makes *)
Definition engine_run (runID : string) : Prop := exists fingerprint ns, runID = fingerprint +:+ "/" +:+ fmt_d ns.

Definition engine_event (ev : bucket_event) : Prop :=
  match ev with BeTurn t _ => engine_run (Turn_RunID t) | BeFinish r _ _ => engine_run r | BePut _ _ => True end.

Lemma engine_run_slash r id : engine_run r -> no_char "/" id = true -> r <> id.
Proof. intros (fp & ns & ->) Hid <-. rewrite !no_char_app in Hid. cbn in Hid. by rewrite andb_false_r in Hid. Qed.

Section bulk_lemmas.
Context {W K : Type} `{S3Laws W} `{AEADLaws K} `{SortKeyed Turn}.
Context (encode : Turn -> result string) (decode : string -> result Turn) (encodeFinish : terminalRecord -> result string) (k : K).
Context (decodeSet : string -> result ProposalSet) (encodeSet : ProposalSet -> result string) (disk : Disk).

(** a slash-free id names no turn of any engine run *)
Lemma no_turns id evs w w' :
  bucket_run encode encodeFinish k evs w = Some w' -> Forall event_ok evs -> Forall engine_event evs -> no_char "/" id = true ->
  holds_run encode k id [] w -> holds_run encode k id [] w'.
Proof.
  revert w. induction evs as [| ev evs IH]; intros w; cbn [bucket_run]; [by intros [= <-] |].
  destruct (bucket_step _ _ _ w ev) as [w1 [err |]] eqn:Es; [done |].
  intros Hrun [Hok Hoks]%Forall_cons_iff [He Hes]%Forall_cons_iff Hid Hh. apply (IH w1); [done.. |].
  apply (foreign_event encode encodeFinish k id ev w w1 [] Hh Es Hok). destruct ev as [t nonce | |]; [| done..]. by apply engine_run_slash.
Qed.

Lemma run_keeps evs w w' key :
  bucket_run encode encodeFinish k evs w = Some w' -> is_Some (objects w !! key) -> is_Some (objects w' !! key).
Proof.
  revert w. induction evs as [| ev evs IH]; intros w; cbn [bucket_run]; [by intros [= <-] |].
  destruct (bucket_step _ _ _ w ev) as [w1 [err |]] eqn:Es; [done |]. intros Hrun Hk. apply (IH w1); [done |].
  apply bucket_step_ok in Es as (b & -> & _). destruct (decide (key = event_key ev)) as [-> |]; [rewrite lookup_insert_eq; by eexists | by rewrite lookup_insert_ne by done].
Qed.

Lemma run_stores evs w w' ev : bucket_run encode encodeFinish k evs w = Some w' -> ev ∈ evs -> is_Some (objects w' !! event_key ev).
Proof.
  revert w. induction evs as [| ev' evs IH]; intros w; cbn [bucket_run]; [intros _ Hin; by apply not_elem_of_nil in Hin |].
  destruct (bucket_step _ _ _ w ev') as [w1 [err |]] eqn:Es; [done |]. intros Hrun [-> | Hin]%elem_of_cons; [| by apply (IH w1)].
  apply (run_keeps evs w1 w'); [done |]. apply bucket_step_ok in Es as (b & -> & _). rewrite lookup_insert_eq. by eexists.
Qed.

Lemma write_runs_skips w outDir ids written skipped fs :
  (forall id, id ∈ ids -> WalkTurns decode k id w = inl []) ->
  exists sk, write_runs decode decodeSet encode encodeSet disk k w outDir ids written skipped fs = (fs, inl (written, sk)) /\
    (forall id, id ∈ ids -> sk !! id = Some noTurns) /\ (forall id, id ∉ ids -> sk !! id = skipped !! id).
Proof.
  revert skipped. induction ids as [| id ids IH]; intros skipped Hw; cbn [write_runs].
  { exists skipped. split; [done |]. split; [intros id Hid; by apply not_elem_of_nil in Hid | done]. }
  rewrite (Hw id ltac:(left)). destruct (IH (<[id := noTurns]> skipped)) as (sk & E & Hin & Hout); [intros; apply Hw; by right |].
  exists sk. split; [exact E |]. split.
  - intros id' Hid. destruct (decide (id' ∈ ids)) as [Hi | Hi]; [by apply Hin |]. rewrite (Hout id' Hi).
    apply elem_of_cons in Hid as [-> | ?]; [by rewrite lookup_insert_eq | done].
  - intros id' Hid. apply not_elem_of_cons in Hid as [Hne Hid]. by rewrite (Hout id' Hid), lookup_insert_ne by done.
Qed.

End bulk_lemmas.

(** ** Claims *)

Section claims.
Context {W K : Type} `{S3Laws W} `{AEADLaws K} `{SortKeyed Turn}.
Context (encode : Turn -> result string) (decode : string -> result Turn) (encodeFinish : terminalRecord -> result string) (k : K).

(** A checkpointed run exports whole: over any life of a bucket in which every call
    succeeded — the turns of many runs, their terminal records and other writers'
    objects in any order — [WalkTurns] gives back exactly the turns of the run it is
    asked for, all of them, in step order and nothing of any other run, whatever order
    the listing has. *)
Theorem checkpointed_turns_export runID evs w0 w :
  json_turns encode decode (turns_of runID evs) -> bucket_run encode encodeFinish k evs w0 = Some w -> no_transcripts w0 -> Forall event_ok evs ->
  StronglySorted (fun a b => Turn_Step a < Turn_Step b) (turns_of runID evs) ->
  (forall t, t ∈ turns_of runID evs -> in_int64 (Turn_Step t) = true) -> readable w ->
  WalkTurns decode k runID w = inl (turns_of runID evs).
Proof.
  intros Hj Hrun Hno Hok Hsort Hint Hread. apply (WalkTurns_holds encode decode); [done | | done | done].
  exact (run_holds encode encodeFinish k runID evs w0 w [] Hrun Hok (holds_nothing encode k runID w0 Hno) Hsort Hint).
Qed.

(** C14. The archive holds the run that was.  Let every call to the bucket and every nonce
    succeed, the run's name be new in the bucket, the store be fresh, [MaxSteps] be an int,
    and each turn the run makes marshal to JSON that reads back as it (valid UTF-8, compact
    arguments); of the model, the tools, the publishers and the journal nothing is asked, and
    they may fail.  Then [Propose] over [S3Store] does what it does over [MemStore], with
    the same result, ledger, journal and publishes, and what [WalkTurns] then exports for
    its run id is exactly the list of turns [MemStore] has kept. *)
Theorem exported_run_is_the_run {M WP WJ} `{PublisherLaws WP ProposalSet} `{PublisherLaws WJ ProposalSet}
  (e : Engine (M := M) (S_ := MemStore)) nonces ctx ck sig drift (st : EngState (M := M) (S_ := MemStore) (WP := WP) (WJ := WJ)) w0 i :
  let runID := Detection_Fingerprint sig +:+ "/" +:+ fmt_d (UnixNano (Ck_run ck)) in
  let turns := MemStore_pending (Es_store (Propose e ctx ck sig drift st).1) in
  healthy W k nonces -> round_trips encode decode turns -> Eng_Store e = mem_store -> Eng_MaxSteps e <= int64_max ->
  Es_store st = NewMemStore -> (forall key, is_Some (objects w0 !! key) -> String.prefix (turnsPrefix runID) key = false) ->
  exists w j, Propose (with_store (s3_store encode encodeFinish k nonces) e) ctx ck sig drift (with_s (w0, i) st) =
      (with_s (w, j) (Propose e ctx ck sig drift st).1, (Propose e ctx ck sig drift st).2) /\
    WalkTurns decode k runID w = inl turns.
Proof.
  intros runID turns Hh Hrt Hst Hmax Hnew Hno.
  destruct (Propose_sim (WP := WP) (WJ := WJ) e (s3_store encode encodeFinish k nonces) runID (same_run encode k runID)
      (fun s1 => round_trips encode decode (MemStore_pending s1))) with (ctx := ctx) (ck := ck) (sig := sig) (drift := drift) (st := st) (s := (w0, i))
    as (n & [w j] & E & Hr & Hs & _).
  - intros t s1. rewrite Hst. intros Hg t' Ht'. apply Hg. cbn. set_solver.
  - intros err s1. by rewrite Hst.
  - intros n msgs s1 s2 Hn HR. rewrite Hst. intros Hg. apply (same_run_checkpoint encode encodeFinish k nonces Hh); [lia | | done |].
    + apply in_int64_spec. unfold int64_min. lia.
    + destruct (Hg (mkTurn runID n msgs)) as (b & Hb & _); [cbn; set_solver | by exists b].
  - done.
  - rewrite Hnew. split; [| split]; cbn; [| constructor | intros t Ht; by apply not_elem_of_nil in Ht].
    split; [| intros t Ht; by apply not_elem_of_nil in Ht]. intros key n Hk Hp. by rewrite (Hno key Hk) in Hp.
  - intros n s1 s2 err HR. rewrite Hst. by apply same_run_finish.
  - exact Hrt.
  - exists w, j. split; [exact E |]. apply (WalkTurns_holds encode decode); [| done | by apply (h_read _ _ _ Hh) | done].
    intros t s Ht Hs'. destruct (Hrt t Ht) as (s' & He & Hd). congruence.
Qed.

(** The bulk export exports nothing: [ListRunIDs] cuts an object's key at the first
    slash while the engine's run id is itself [fingerprint/unixnano], so over any life
    of a bucket that only engine runs checkpointed into, [WriteAll] reads every
    fingerprint as a run, finds no turn under any of them, writes no file and reports
    success with every run skipped as having no checkpointed turns. *)
Theorem bulk_export_skips_every_run evs w0 w decodeSet encodeSet disk outDir fs :
  bucket_run encode encodeFinish k evs w0 = Some w -> no_transcripts w0 -> Forall event_ok evs ->
  Forall engine_event evs -> readable w ->
  exists skipped, WriteAll decode decodeSet encode encodeSet disk k w outDir fs = (fs, inl ([], skipped)) /\
    (forall id reason, skipped !! id = Some reason -> reason = noTurns) /\
    (forall t nonce fingerprint ns, BeTurn t nonce ∈ evs -> Turn_RunID t = fingerprint +:+ "/" +:+ fmt_d ns ->
       fingerprint <> "" -> no_char "/" fingerprint = true -> skipped !! fingerprint = Some noTurns).
Proof.
  intros Hrun Hno Hok Heng Hread. unfold WriteAll, ListRunIDs. destruct (proj1 Hread "transcripts/") as [pages Hp]. rewrite Hp, list_runs_ok.
  destruct (list_complete _ _ _ Hp) as [_ Hin]. set (ids := merge_sort String.le _).
  assert (forall id, id ∈ ids <-> exists key, key ∈ concat pages /\ run_of key = Some id) as Hids.
  { intros id. unfold ids. rewrite merge_sort_Permutation, elem_of_elements, elem_of_union, elem_of_list_to_set, list_elem_of_omap. set_solver. }
  destruct (write_runs_skips encode decode k decodeSet encodeSet disk w outDir ids [] ∅ fs) as (sk & E & Hskip & Hout).
  { intros id (key & _ & Hid)%Hids. apply run_of_no_slash in Hid. apply (WalkTurns_holds encode decode); [intros t s Ht; by apply not_elem_of_nil in Ht | | done | constructor].
    apply (no_turns encode encodeFinish k id evs w0 w Hrun Hok Heng Hid). by apply holds_nothing. }
  exists sk. split; [exact E |]. split.
  - intros id reason Hs. destruct (decide (id ∈ ids)) as [Hi | Hi]; [by rewrite (Hskip id Hi) in Hs; simplify_eq |]. by rewrite (Hout id Hi) in Hs.
  - intros t nonce fp ns Ht Hr Hne Hfp. apply Hskip, Hids. exists (turnKey (Turn_RunID t) (Turn_Step t)). split.
    + apply Hin. split; [by apply (run_stores encode encodeFinish k evs w0 w (BeTurn t nonce)) |]. unfold turnKey. apply prefix_app.
    + unfold run_of, turnKey. rewrite TrimPrefix_app, Hr, !string_app_assoc. change ("/" +:+ ?x) with (String "/" x).
      rewrite cut_first_app by done. by destruct (String.eqb_spec fp "").
Qed.

End claims.

(** ** A bucket in memory *)

#[local] Instance mem_S3 : S3 (gmap string string) := {|
  objects := fun w => w;
  PutObject := fun key b w => (<[key := b]> w, None);
  ListObjectsV2 := fun prefix w => [inl (List.filter (String.prefix prefix) (map fst (map_to_list w)))];
  GetObject := fun key w => match w !! key with Some b => inl (inl b) | None => inr (errors_New "NoSuchKey") end
|}.

#[local] Instance mem_S3Laws : S3Laws (gmap string string).
Proof.
  split.
  - by intros k b w w' [= <-].
  - intros prefix w pages Hp. destruct pages as [| page [|]]; [done | | done]. injection Hp as <-. cbn. rewrite app_nil_r. split.
    + apply NoDup_ListNoDup, NoDup_filter, NoDup_ListNoDup, NoDup_fst_map_to_list.
    + intros key. rewrite elem_of_filterb. assert (key ∈ map fst (map_to_list w) <-> is_Some (w !! key)) as ->; [| done].
      rewrite list_elem_of_fmap. split.
      * intros ([k' b] & -> & Hin%elem_of_map_to_list). by eexists.
      * intros [b Hb]. exists (key, b). split; [done |]. by apply elem_of_map_to_list.
  - intros key w b. cbn. destruct (w !! key); by intros [= <-].
Qed.

Lemma mem_readable (w : gmap string string) : readable w.
Proof. split; [intros prefix; by eexists [_] |]. intros key [b Hb]. exists b. cbn in *. by rewrite Hb. Qed.

#[local] Instance null_AEAD : AEAD unit := {|
  new_cipher := fun _ => None; new_gcm := fun _ => None; gcm_Seal := fun _ _ p => p; gcm_Open := fun _ _ c => inl c |}.
#[local] Instance null_AEADLaws : AEADLaws unit.
Proof. by split. Qed.

(** ** A wire form of a turn *)

Definition call_tuple (c : ToolCall) : string * string * string := (ToolCall_ID c, ToolCall_Name c, ToolCall_Args c).
Definition result_tuple (r : ToolResult) : string * string * string * bool := (ToolResult_CallID r, ToolResult_Digest r, ToolResult_Name r, ToolResult_IsError r).
Definition message_tuple (m : Message) := (Message_Role m, Message_Content m, map call_tuple (Message_ToolCalls m), map result_tuple (Message_ToolResults m)).
Definition turn_tuple (t : Turn) := (Turn_RunID t, Turn_Step t, map message_tuple (Turn_Msgs t)).

Definition wire_turn (t : Turn) : result string := inl (fmt_d (Z.pos (countable.encode (turn_tuple t)))).

Definition read_turn (s : string) : result Turn :=
  match parse_int s with
  | Some z =>
      match countable.decode (A := string * Z * list (string * string * list (string * string * string) * list (string * string * string * bool))) (Z.to_pos z) with
      | Some (r, n, ms) =>
          inl (mkTurn r n (map (fun m => mkMessage m.1.1.1 m.1.1.2 (map (fun c => mkToolCall c.1.1 c.1.2 c.2) m.1.2)
                                   (map (fun r => mkToolResult r.1.1.1 r.1.1.2 r.1.2 r.2) m.2)) ms))
      | None => inr (errors_New "unexpected end of JSON input")
      end
  | None => inr (errors_New "invalid character")
  end.

Lemma map_inverse {A B} (f : A -> B) (g : B -> A) (l : list A) : (forall x, g (f x) = x) -> map g (map f l) = l.
Proof. intros Hg. rewrite map_map. induction l as [| x l IH]; [done |]. cbn. by rewrite Hg, IH. Qed.

Lemma wire_turns ts : json_turns wire_turn read_turn ts.
Proof.
  intros t s _ E. apply (f_equal (fun r => match r with inl x => x | inr _ => ""%string end)) in E. unfold wire_turn in E. rewrite <- E.
  unfold read_turn. rewrite parse_int_fmt_d. cbn [Z.to_pos]. rewrite countable.decode_encode. cbn [turn_tuple].
  destruct t as [r n ms]. cbn. f_equal. f_equal. apply map_inverse. intros [role content calls results]. cbn. f_equal; apply map_inverse; by intros [].
Qed.

Lemma mem_healthy : healthy (gmap string string) tt (fun _ => inl "0123456789ab"%string).
Proof.
  split; [intros key b w; by eexists | apply mem_readable | done | intros i; by eexists].
Qed.

Definition demo_turn (runID : string) (step : Z) : Turn := mkTurn runID step [mkMessage "assistant" "" [] []].

Definition demo_bucket_events : list bucket_event :=
  [BeTurn (demo_turn "slo_burn:acme/5" 0) "0123456789ab"; BeTurn (demo_turn "slo_burn:web/6" 0) "0123456789ab";
   BePut "clank/thump.proposals/0.jsonl" "x"; BeTurn (demo_turn "slo_burn:acme/5" 1) "0123456789ab";
   BeFinish "slo_burn:acme/5" None "0123456789ab"]%string.

Definition demo_finish (r : terminalRecord) : result string := inl "{}"%string.

Lemma demo_events_run : exists w, bucket_run wire_turn demo_finish tt demo_bucket_events (∅ : gmap string string) = Some w.
Proof. by eexists. Qed.

Lemma empty_no_transcripts : no_transcripts (∅ : gmap string string).
Proof. intros key. cbn. rewrite lookup_empty. by intros [? ?]. Qed.

Lemma checkpointed_turns_export_witness :
  exists w, WalkTurns (W := gmap string string) read_turn tt "slo_burn:acme/5" w = inl [demo_turn "slo_burn:acme/5" 0; demo_turn "slo_burn:acme/5" 1].
Proof.
  destruct demo_events_run as [w Hw]. exists w.
  apply (checkpointed_turns_export wire_turn read_turn demo_finish tt "slo_burn:acme/5" demo_bucket_events ∅ w (wire_turns _) Hw empty_no_transcripts).
  - repeat constructor.
  - repeat constructor.
  - intros t Ht. cbn in Ht. repeat (apply elem_of_cons in Ht as [-> | Ht]; [reflexivity |]). by apply not_elem_of_nil in Ht.
  - apply mem_readable.
Defined.

Lemma bulk_export_skips_every_run_witness :
  exists w skipped, WriteAll (W := gmap string string) read_turn (fun _ => inr (errors_New "no sets")) wire_turn (fun _ => inl ""%string)
      (mkDisk (fun _ => None) (fun _ => None) (fun ls => (String.concat "" ls, None, None)) (fun _ b => (Some b, None))) tt w "out" ∅ = (∅, inl ([], skipped)) /\
    skipped !! "slo_burn:acme"%string = Some noTurns.
Proof.
  destruct demo_events_run as [w Hw].
  destruct (bulk_export_skips_every_run wire_turn read_turn demo_finish tt demo_bucket_events ∅ w (fun _ => inr (errors_New "no sets")) (fun _ => inl ""%string)
    (mkDisk (fun _ => None) (fun _ => None) (fun ls => (String.concat "" ls, None, None)) (fun _ b => (Some b, None))) "out" ∅ Hw empty_no_transcripts) as (sk & E & _ & Hs).
  - repeat constructor.
  - unfold demo_bucket_events. repeat (constructor; [first [by exists "slo_burn:acme"%string, 5 | by exists "slo_burn:web"%string, 6 | exact I] |]). constructor.
  - apply mem_readable.
  - exists w, sk. split; [exact E |]. apply (Hs (demo_turn "slo_burn:acme/5" 0) "0123456789ab"%string "slo_burn:acme"%string 5); [left | reflexivity | done | reflexivity].
Defined.

Lemma exported_run_is_the_run_witness :
  length (MemStore_pending (Es_store (demo_run 0).1)) = 2%nat /\
  exists w j, Propose (with_store (s3_store wire_turn demo_finish tt (fun _ => inl "0123456789ab"%string)) (demo_engine true)) Background demo_clock demo_detection id
      (with_s ((∅ : gmap string string), 0%nat) (demo_engine_state 0)) = (with_s (w, j) (demo_run 0).1, (demo_run 0).2) /\
    WalkTurns read_turn tt (Detection_Fingerprint demo_detection +:+ "/" +:+ fmt_d (UnixNano (Ck_run demo_clock))) w = inl (MemStore_pending (Es_store (demo_run 0).1)).
Proof.
  split; [vm_compute; reflexivity |].
  apply (exported_run_is_the_run wire_turn read_turn demo_finish tt (demo_engine true) (fun _ => inl "0123456789ab"%string) Background demo_clock demo_detection id
    (demo_engine_state 0) ∅ 0 mem_healthy).
  - intros t _. eexists. split; [reflexivity |]. by apply (wire_turns [t]); [left |].
  - reflexivity.
  - discriminate.
  - reflexivity.
  - intros key. cbn. rewrite lookup_empty. by intros [? ?].
Defined.
