(* ===== verification/Adapters.v ===== *)
(** * The production side of the ports

    What the interfaces of the other files are backed with in production: [JetPublisher]
    (publish/jetstream.go) is a [Publisher] over JetStream, [S3SegmentSink]
    (publish/s3_sink.go) the sink segments are shipped through, [liveKube] (actuate/kube.go)
    the cluster the runner acts on, [ProvisionedAckWait] (broker/acktiming.go) the deadline a
    handler is held to, and the trace identity of tracing/fingerprint.go.  The calls of
    nats.go, the AWS SDK and client-go are parameters. *)

From Stdlib Require Import Ascii.
From S2P Require Import Prelude GoTime GoFloat Api Contract Publish Hiss HissTransport ThumpExec Actuate Decimal Strings Replay Archive Transcripts.
From S2P Require Broker.
Local Open Scope Z_scope.

(** ** publish/jetstream.go *)

(** internal/wire at one type: the codec every object crosses the broker through *)
Class Wire (T : Type) : Type := {
  wire_Marshal : T -> result string;
  wire_Unmarshal : string -> result T
}.

Class WireLaws (T : Type) `{Wire T} : Prop := {
  wire_reads_back : forall obj data, wire_Marshal obj = inl data -> wire_Unmarshal data = inl obj
}.

Section jetstream.
Context {J T : Type} `{Broker.JetStream J} `{Wire T}.

Definition JetPublisher_Publish (subject : string) (obj : T) (js : J) : J * option error :=
  match wire_Marshal obj with
  | inr err => (js, Some (errorf_w ("jet publisher: marshal " +:+ subject +:+ ": ") err))
  | inl data =>
      match Broker.js_Publish subject data js with
      | (js', Some err) => (js', Some (errorf_w ("jet publisher: publish " +:+ subject +:+ ": ") err))
      | (js', None) => (js', None)
      end
  end.

(** the messages of the stream that are objects of [T] *)
Definition decoded (m : string * string) : option (string * T) :=
  match wire_Unmarshal m.2 with inl obj => Some (m.1, obj) | inr _ => None end.

#[export] Instance JetPublisher : Publisher J T := {|
  publish := JetPublisher_Publish;
  delivered js := omap decoded (Broker.published js)
|}.
End jetstream.

(** JetStream and a codec that reads back make the publisher every beat relies on: a nil
    error delivered the object once, an error at most once. *)
#[export] Instance JetPublisher_laws {J T} `{Broker.JetStreamLaws J} `{WireLaws T} : PublisherLaws J T.
Proof.
  assert (forall subj (obj : T) (js js' : J) data r, wire_Marshal obj = inl data -> Broker.js_Publish subj data js = (js', r) ->
    omap decoded (Broker.published js') = omap decoded (Broker.published js) ++ [(subj, obj)] \/
    (is_Some r /\ omap decoded (Broker.published js') = omap decoded (Broker.published js))) as Hone.
  { intros subj obj js js' data r Hm [_ [Hp | [Hr Hp]]]%Broker.publish_view; rewrite Hp; [left | by right].
    rewrite omap_app. f_equal. cbn. unfold decoded. cbn. by rewrite (wire_reads_back _ _ Hm). }
  split; intros subj obj js js'; cbn; unfold JetPublisher_Publish; destruct (wire_Marshal obj) as [data | e] eqn:Em; intros; simplify_eq; try by left.
  - destruct (Broker.js_Publish subj data js) as [js1 [e |]] eqn:Ep; simplify_eq. by destruct (Hone _ _ _ _ _ _ Em Ep) as [? | [[? [=]] _]].
  - destruct (Broker.js_Publish subj data js) as [js1 [e' |]] eqn:Ep; simplify_eq. destruct (Hone _ _ _ _ _ _ Em Ep) as [? | [_ ?]]; auto.
Qed.

(** ** publish/s3_sink.go *)

Definition S3SegmentSink_Put {W} `{S3 W} (key r : string) (w : W) : W * option error :=
  match PutObject key r w with
  | (w', Some err) => (w', Some (errorf_w ("s3 segment sink: put " +:+ key +:+ ": ") err))
  | (w', None) => (w', None)
  end.

(** A segment that was shipped is in the bucket: after a put that succeeds through the
    sealing sink, a read of its key that succeeds unseals to its lines. *)
Theorem shipped_segment_is_in_the_bucket {W K} `{S3Laws W} `{AEADLaws K} (k : K) key ls nonce (w w' : W) body :
  String.length nonce = NonceSize -> Forall journal_line ls ->
  EncryptingSink_Put k S3SegmentSink_Put key (inl (segment_of ls)) (inl nonce) w = (w', None) ->
  GetObject key w' = inl (inl body) -> UnsealSegment k (inl body) = inl ls.
Proof.
  intros Hn Hls. unfold EncryptingSink_Put, S3SegmentSink_Put. destruct (Key_Seal k (inl nonce) (segment_of ls)) as [sealed | e] eqn:Es; [| done].
  destruct (PutObject key sealed w) as [w1 [e |]] eqn:Ep; [done |]. intros [= <-] Hg. apply put_stored in Ep. apply get_stored in Hg.
  rewrite Ep, lookup_insert_eq in Hg. injection Hg as <-. by eapply UnsealSegment_of.
Qed.

(** ** broker/acktiming.go *)

Definition ProvisionedAckWait {J} (EnsureTopology : J -> J * option error) (Consumer : string -> string -> J -> option error)
  (Info : string -> J -> result Broker.ConsumerConfig) (subject : string) (j : J) : J * result Duration :=
  match EnsureTopology j with
  | (j', Some err) => (j', inr (errorf_w "broker: provision for ack timing: " err))
  | (j', None) =>
      (j', match Consumer Broker.StreamName (Broker.DurableFor subject) j' with
           | Some err => inr (errorf_w ("broker: get consumer " +:+ subject +:+ ": ") err)
           | None =>
               match Info (Broker.DurableFor subject) j' with
               | inr err => inr (errorf_w ("broker: consumer info " +:+ subject +:+ ": ") err)
               | inl cfg => inl (Broker.Cons_AckWait cfg)
               end
           end)
  end.

(** ** tracing/fingerprint.go *)

Definition TraceIDFromFingerprint (sha256 : string -> string) (fingerprint : string) : string := String.substring 0 16 (sha256 fingerprint).

(** the span context [RootContext] seeds: an id, the fabricated parent, sampled and remote *)
Record SpanContext : Type := mkSpanContext { Sc_TraceID : string; Sc_SpanID : Z; Sc_Sampled : bool; Sc_Remote : bool }.

Definition RootContext (sha256 : string -> string) (fingerprint : string) : SpanContext :=
  mkSpanContext (TraceIDFromFingerprint sha256 fingerprint) 1 true true.

(** ** actuate/kube.go *)

Record Pod : Type := mkPod { Pod_Name : string; Pod_Phase : string; Pod_Containers : list string }.

Definition PodRunning : string := "Running".

Fixpoint firstRunning (pods : list Pod) : result (string * string) :=
  match pods with
  | [] => inr (errors_New "no running pod matched selector")
  | p :: pods' =>
      if Pod_Phase p <>s PodRunning then firstRunning pods'
      else match Pod_Containers p with [] => firstRunning pods' | c :: _ => inl (Pod_Name p, c) end
  end.

(** client-go: the calls [liveKube] makes; [StreamWithContext] gives what the command left
    on its standard error too *)
Record ClientGo (C : Type) : Type := mkClientGo {
  Cg_ListPods : string -> string -> C -> result (list Pod);
  Cg_NewSPDYExecutor : string -> string -> string -> list string -> option error;
  Cg_StreamWithContext : string -> string -> string -> list string -> C -> C * (option error * string);
  Cg_Patch : string -> string -> string -> string -> string -> json -> C -> C * option error;
  Cg_GetConfigMap : string -> string -> C -> result (gmap string string)
}.
Arguments mkClientGo {C}. Arguments Cg_ListPods {C}. Arguments Cg_NewSPDYExecutor {C}. Arguments Cg_StreamWithContext {C}.
Arguments Cg_Patch {C}. Arguments Cg_GetConfigMap {C}.

Section kube.
Context {C : Type} (cg : ClientGo C).

Definition execTarget (namespace selector : string) (c : C) : result (string * string) :=
  match Cg_ListPods cg namespace selector c with
  | inr err => inr (errorf_w ("list pods " +:+ fmt_q selector +:+ " in " +:+ namespace +:+ ": ") err)
  | inl pods => firstRunning pods
  end.

Definition liveKube_Exec (namespace selector : string) (command : list string) (c : C) : C * option error :=
  match execTarget namespace selector c with
  | inr err => (c, Some (errorf_w ("no pod for " +:+ fmt_q selector +:+ " in " +:+ namespace +:+ ": ") err))
  | inl (pod, container) =>
      match Cg_NewSPDYExecutor cg namespace pod container command with
      | Some err => (c, Some (errorf_w ("build exec for " +:+ namespace +:+ "/" +:+ pod +:+ ": ") err))
      | None =>
          match Cg_StreamWithContext cg namespace pod container command c with
          | (c', (None, _)) => (c', None)
          | (c', (Some err, stderr)) =>
              (c', Some (errorf_wp (errorf_w ("exec [" +:+ strings_Join command " " +:+ "] in " +:+ namespace +:+ "/" +:+ pod +:+ ": ") err)
                           (": " +:+ strings_TrimSpace stderr)))
          end
      end
  end.

Definition liveKube_Patch (group version resource namespace name : string) (mergePatch : json) (c : C) : C * option error :=
  match Cg_Patch cg group version resource namespace name mergePatch c with
  | (c', Some err) => (c', Some (errorf_w ("patch " +:+ resource +:+ " " +:+ fmt_q name +:+ " in " +:+ namespace +:+ ": ") err))
  | (c', None) => (c', None)
  end.

Definition liveKube_GetConfigMapKey (namespace name key : string) (c : C) : result string :=
  match Cg_GetConfigMap cg namespace name c with
  | inr err => inr (errorf_w ("get configmap " +:+ namespace +:+ "/" +:+ name +:+ ": ") err)
  | inl data =>
      match data !! key with
      | None => inr (errors_New ("configmap " +:+ namespace +:+ "/" +:+ name +:+ " has no data key " +:+ fmt_q key))
      | Some val => inl val
      end
  end.

(** the cluster the production runner is built over *)
Definition liveKube : Kube := mkKube liveKube_Exec liveKube_Patch liveKube_GetConfigMapKey.

Lemma firstRunning_spec pods pod container : firstRunning pods = inl (pod, container) ->
  exists pre p post rest, pods = pre ++ p :: post /\ Pod_Phase p = PodRunning /\ Pod_Name p = pod /\ Pod_Containers p = container :: rest /\
    Forall (fun q => Pod_Phase q <> PodRunning \/ Pod_Containers q = []) pre.
Proof.
  induction pods as [| p pods IH]; [done |]. cbn [firstRunning]. destruct (Pod_Phase p <>s PodRunning) eqn:Ep.
  - intros (pre & p' & post & rest & -> & H1 & H2 & H3 & H4)%IH. exists (p :: pre), p', post, rest. repeat (split; [done |]). constructor; [| done].
    left. by apply negb_true_iff, String.eqb_neq in Ep.
  - destruct (Pod_Containers p) as [| c cs] eqn:Ec.
    + intros (pre & p' & post & rest & -> & H1 & H2 & H3 & H4)%IH. exists (p :: pre), p', post, rest. repeat (split; [done |]). constructor; [by right | done].
    + intros [= <- <-]. exists [], p, pods, cs. apply negb_false_iff, String.eqb_eq in Ep. repeat (split; [done |]). constructor.
Qed.

(** A command of the catalog runs in a running pod its selector matched, the first one that
    has a container, and in that container; whatever else happens, the cluster is left as it
    was and the runner is told why. *)
Theorem exec_runs_in_the_first_running_pod namespace selector command (c c' : C) r :
  Kube_Exec liveKube namespace selector command c = (c', r) ->
  (c' = c /\ is_Some r) \/
  exists pods pre p post container rest err stderr,
    Cg_ListPods cg namespace selector c = inl pods /\ pods = pre ++ p :: post /\ Pod_Phase p = PodRunning /\ Pod_Containers p = container :: rest /\
    Forall (fun q => Pod_Phase q <> PodRunning \/ Pod_Containers q = []) pre /\
    Cg_StreamWithContext cg namespace (Pod_Name p) container command c = (c', (err, stderr)) /\ (r = None <-> err = None).
Proof.
  cbn. unfold liveKube_Exec, execTarget. destruct (Cg_ListPods cg namespace selector c) as [pods | e] eqn:El; [| intros [= <- <-]; left; split; [done | eauto]].
  destruct (firstRunning pods) as [[pod container] | e] eqn:Ef; [| intros [= <- <-]; left; split; [done | eauto]].
  destruct (Cg_NewSPDYExecutor _ _ _ _ _); [intros [= <- <-]; left; split; [done | eauto] |].
  destruct (firstRunning_spec _ _ _ Ef) as (pre & p & post & rest & Hpods & Hp & Hname & Hc & Hpre). subst pod.
  destruct (Cg_StreamWithContext _ _ _ _ _ _) as [c1 [[e |] stderr]] eqn:Es; intros [= <- <-]; right; exists pods, pre, p, post, container, rest; do 2 eexists;
    (do 5 (split; [done |])); (split; [exact Es |]); split; intros [=]; done.
Qed.
End kube.
