(* ===== verification/Harvest.v ===== *)
(** * internal/harvest and internal/scorecard: calibration runs and their grades

    The scenario table ([LoadScenarios], scenario.go), the wait for a terminal state
    ([Settle], settle.go), one scenario end to end with its deferred restore
    ([Harvest.Run]) and the loop over the table ([run], harvest.go), and the
    scorecard of the rows ([grade], [failedReason], [Grade], scorecard/grade.go).

    [Settle] selects among its legs: a schedule is the list of the choices it makes,
    each taken only where its channel is open or its timer armed.  Commands run in a
    world that is the log of what ran; [runner] is what each answers given that log.
    The NATS legs, [kubectl] and JSON are parameters. *)

From Stdlib Require Import Ascii.
From S2P Require Import Prelude GoTime GoFloat Decimal Strings GoParse Api Contract Configfile Publish Hiss.
Local Open Scope Z_scope.

(** ** scenario.go *)

Definition ErrInvalidScenario : error := errors_New "harvest: scenario table is invalid".

Record Action : Type := mkAction { Action_Path : string; Action_Apply : string; Action_Args : list string }.

Record Precondition : Type := mkPrecondition { Pre_Name : string; Pre_Set : string; Pre_Restore : string }.

Record Expects : Type := mkExpects { Exp_FailureClass : FailureClass; Exp_ContractRef : string; Exp_Verdict : string }.

Record Scenario : Type := mkScenario {
  Sc_Name : string;
  Sc_Domain : string;
  Sc_SignalRef : string;
  Sc_Fault : Action;
  Sc_Preconditions : list Precondition;
  Sc_Expects : Expects;
  Sc_SettleWindow : Duration;
  Sc_Restore : Action
}.

Definition validApply (s : string) : bool := (s =s "kubectl") || (s =s "kubectl-delete") || (s =s "exec").

Definition validVerdict (s : string) : bool := (s =s "approved") || (s =s "held") || (s =s "declined") || (s =s "refused").

Record scenarioStage : Type := mkScenarioStage {
  Ss_Name : string;
  Ss_Domain : string;
  Ss_SignalRef : string;
  Ss_Fault : Action;
  Ss_Preconditions : list Precondition;
  Ss_Expects : Expects;
  Ss_SettleWindow : string;
  Ss_Restore : Action
}.

Record scenariosFile : Type := mkScenariosFile { Sf_Version : Z; Sf_Rig : string; Sf_Scenarios : list scenarioStage }.

(** [actionStage.validate] *)
Definition validate_action (a : Action) : result Action :=
  if Action_Path a =s "" then inr (errors_New "path is empty")
  else if negb (validApply (Action_Apply a)) then
    inr (errors_New ("apply " +:+ fmt_q (Action_Apply a) +:+ " not one of kubectl, kubectl-delete, exec"))
  else inl a.

(** the first precondition without both its commands *)
Definition half_precondition (ps : list Precondition) : option Precondition :=
  List.find (fun p => (Pre_Set p =s "") || (Pre_Restore p =s "")) ps.

(** [scenarioStage.validate] *)
Definition validate (s : scenarioStage) : result Scenario :=
  if Ss_Name s =s "" then inr (errors_New "scenario has no name")
  else match validate_action (Ss_Fault s) with
  | inr err => inr (errorf_w "fault: " err)
  | inl fault =>
  match validate_action (Ss_Restore s) with
  | inr err => inr (errorf_w "restore: " err)
  | inl restore =>
  if Action_Path restore =s "" then inr (errors_New "no restore - a harvest that cannot restore is a rig teardown")
  else if negb (validVerdict (Exp_Verdict (Ss_Expects s))) then
    inr (errors_New ("expects.verdict " +:+ fmt_q (Exp_Verdict (Ss_Expects s)) +:+ " not one of approved, held, declined, refused"))
  else if (Exp_Verdict (Ss_Expects s) <>s "refused") && (Exp_ContractRef (Ss_Expects s) =s "") then
    inr (errors_New "expects.contractRef is empty")
  else if Ss_SignalRef s =s "" then
    inr (errors_New "no signalRef - a scenario that names no signal waits out its whole window on an outcome that can never match")
  else match ParseDuration (Ss_SettleWindow s) with
  | inr err => inr (errorf_w ("settleWindow " +:+ fmt_q (Ss_SettleWindow s) +:+ ": ") err)
  | inl window =>
  if window <=? 0 then inr (errors_New ("settleWindow " +:+ fmt_q (Ss_SettleWindow s) +:+ " must be positive"))
  else match half_precondition (Ss_Preconditions s) with
  | Some p => inr (errors_New ("precondition " +:+ fmt_q (Pre_Name p) +:+ " must have both set and restore"))
  | None =>
      inl (mkScenario (Ss_Name s) (Ss_Domain s) (Ss_SignalRef s) fault (Ss_Preconditions s) (Ss_Expects s) window restore)
  end end end end.

Record Table : Type := mkTable { Table_Rig : string; Table_Scenarios : list Scenario }.

Fixpoint validate_all (ss : list scenarioStage) : result (list Scenario) :=
  match ss with
  | [] => inl []
  | s :: ss' =>
      match validate s with
      | inr err => inr (errorf_ww ErrInvalidScenario (errorf_w ("scenario " +:+ fmt_q (Ss_Name s) +:+ ": ") err))
      | inl sc => match validate_all ss' with inr err => inr err | inl out => inl (sc :: out) end
      end
  end.

Definition LoadScenarios (readFile : string -> result string) (unmarshal : string -> result scenariosFile) (path : string) : result Table :=
  match Stage readFile unmarshal path "scenario table" with
  | inr err => inr err
  | inl sf =>
      if Sf_Rig sf =s "" then
        inr (errorf_wp ErrInvalidScenario ": no rig - a signalRef is only checkable against one rig's watch list")
      else match validate_all (Sf_Scenarios sf) with
           | inr err => inr err
           | inl out => inl (mkTable (Sf_Rig sf) out)
           end
  end.

(** ** settle.go *)

Definition ErrSettleTimeout : error := errors_New "harvest: settle window elapsed with no terminal outcome".

Record Terminal : Type := mkTerminal {
  Term_Verdict : string;
  Term_Result : Result;
  Term_ContractRef : string;
  Term_DecisionRef : string;
  Term_ObservedSeverity : option float64;
  Term_RunID : string;
  Term_EmittedConfidence : float64;
  Term_ComputedConfidence : float64;
  Term_CeilingBound : bool
}.

(** a terminal state before [enrichFromSet] *)
Definition terminal (verdict : string) (r : Result) (contract dec : string) (sev : option float64) : Terminal :=
  mkTerminal verdict r contract dec sev "" f0 f0 false.

Definition enrichFromSet (t : Terminal) (matched : option ProposalSet) : Terminal :=
  match matched with
  | None => t
  | Some s =>
      let '(emitted, computed, bound) :=
        match Set_Proposals s with
        | [] => (Term_EmittedConfidence t, Term_ComputedConfidence t, Term_CeilingBound t)
        | top :: _ => (Candidate_Confidence top, Candidate_ComputedConfidence top, Candidate_ConfidenceCeilingBound top)
        end in
      mkTerminal (Term_Verdict t) (Term_Result t) (Term_ContractRef t) (Term_DecisionRef t) (Term_ObservedSeverity t)
        (Set_RunID s) emitted computed bound
  end.

Definition isTerminal (r : Result) : bool :=
  (r =s ResultSuccess) || (r =s ResultFailure) || (r =s ResultPartialNonConverging) || (r =s ResultBlocked)
  || (r =s ResultUnknown) || (r =s ResultRendered).

Definition runIDGrace : Duration := 5 * Second.

Definition runIDFresh (runID : string) (since : Time) : bool :=
  match cut_last runID "/"%char with
  | None => true
  | Some (_, ns) =>
      match ParseInt ns with
      | None => true
      | Some n => negb (Before (n + unixToInternal * Second) (GoTime.Add since (- runIDGrace)))
      end
  end.

(** the legs [Settle] selects across *)
Inductive leg : Type := LOutcomes | LDeclines | LHeld | LDetections | LSets.

#[export] Instance leg_eq_dec : EqDecision leg.
Proof. solve_decision. Defined.

(** one choice of the [select]: the window elapses, the refusal timer fires, a leg's
    channel is found closed, or a message arrives on one *)
Inductive settle_event : Type :=
| SeDone
| SeRefusal
| SeClosed (l : leg)
| SeOutcome (o : Outcome)
| SeDecline (d : Decision)
| SeHeld (g : Governed)
| SeDetection (d : Detection)
| SeSet (s : ProposalSet).

(** the loop's variables: the channels not nil, whether the refusal timer is armed, and
    what has been seen *)
Record settle_state : Type := mkSettle {
  Se_open : list leg;
  Se_armed : bool;
  Se_detected : bool;
  Se_matched : option ProposalSet
}.

Definition leg_of (ev : settle_event) : option leg :=
  match ev with
  | SeOutcome _ => Some LOutcomes | SeDecline _ => Some LDeclines | SeHeld _ => Some LHeld
  | SeDetection _ => Some LDetections | SeSet _ => Some LSets | SeClosed l => Some l
  | SeDone | SeRefusal => None
  end.

(** a choice the [select] can make *)
Definition enabled (st : settle_state) (ev : settle_event) : bool :=
  match ev with
  | SeDone => true
  | SeRefusal => Se_armed st
  | _ => match leg_of ev with Some l => bool_decide (l ∈ Se_open st) | None => true end
  end.

(** one turn of the loop: the next state, or the return *)
Definition settle_step (startedAt : Time) (signalRef : string) (st : settle_state) (ev : settle_event) : settle_state + result Terminal :=
  match ev with
  | SeDone => inr (inr (errorf_wp ErrSettleTimeout (": " +:+ signalRef)))
  | SeRefusal => inr (inl (terminal "refused" "" "" "" None))
  | SeClosed l => inl (mkSettle (List.filter (fun l' => negb (bool_decide (l' = l))) (Se_open st)) (Se_armed st) (Se_detected st) (Se_matched st))
  | SeOutcome o =>
      if (Outcome_SignalRef o <>s signalRef) || negb (isTerminal (Outcome_Result o)) then inl st
      else inr (inl (enrichFromSet (terminal "approved" (Outcome_Result o) (Outcome_ContractRef o) (Outcome_DecisionRef o) (Outcome_ObservedSeverity o)) (Se_matched st)))
  | SeDecline d =>
      if Decision_SignalRef d <>s signalRef then inl st
      else inr (inl (enrichFromSet (terminal "declined" "" "" (Decision_ID d) None) (Se_matched st)))
  | SeHeld g =>
      if Decision_SignalRef (Governed_Decision g) <>s signalRef then inl st
      else inr (inl (enrichFromSet (terminal "held" "" (ContractRefFor (Governed_Set g) (Decision_CandidateRef (Governed_Decision g)))
                                      (Decision_ID (Governed_Decision g)) None) (Se_matched st)))
  | SeDetection det =>
      if (Detection_Fingerprint det <>s signalRef) || Se_detected st then inl st
      else inl (mkSettle (Se_open st) true true (Se_matched st))
  | SeSet s =>
      if (Set_SignalRef s <>s signalRef) || negb (runIDFresh (Set_RunID s) startedAt) then inl st
      else inl (mkSettle (Se_open st) false (Se_detected st) (match Se_matched st with Some m => Some m | None => Some s end))
  end.

(** the loop along a schedule: [None] while it still waits, or when the schedule makes a
    choice the [select] does not have *)
Fixpoint settle_loop (startedAt : Time) (signalRef : string) (st : settle_state) (evs : list settle_event) : option (result Terminal) :=
  match evs with
  | [] => None
  | ev :: evs' =>
      if enabled st ev then
        match settle_step startedAt signalRef st ev with
        | inr r => Some r
        | inl st' => settle_loop startedAt signalRef st' evs'
        end
      else None
  end.

(** a leg: not wired, or the error its watcher gives *)
Record Legs : Type := mkLegs {
  Legs_Outcomes : option (option error);
  Legs_Declines : option (option error);
  Legs_Held : option (option error);
  Legs_Detections : option (option error);
  Legs_Sets : option (option error)
}.

Definition open_leg (what : string) (w : option (option error)) : option error :=
  match w with Some (Some err) => Some (errorf_w ("harvest: watch " +:+ what +:+ ": ") err) | _ => None end.

Definition wired (l : leg) (w : option (option error)) : list leg := match w with Some None => [l] | _ => [] end.

Definition Settle (legs : Legs) (startedAt : Time) (signalRef : string) (evs : list settle_event) : option (result Terminal) :=
  match open_leg "outcomes" (Legs_Outcomes legs) with
  | Some err => Some (inr err)
  | None =>
  match open_leg "declines" (Legs_Declines legs) with
  | Some err => Some (inr err)
  | None =>
  match open_leg "held" (Legs_Held legs) with
  | Some err => Some (inr err)
  | None =>
  match open_leg "detections" (Legs_Detections legs) with
  | Some err => Some (inr err)
  | None =>
  match open_leg "sets" (Legs_Sets legs) with
  | Some err => Some (inr err)
  | None =>
      settle_loop startedAt signalRef
        (mkSettle (wired LOutcomes (Legs_Outcomes legs) ++ wired LDeclines (Legs_Declines legs) ++ wired LHeld (Legs_Held legs)
                   ++ wired LDetections (Legs_Detections legs) ++ wired LSets (Legs_Sets legs)) false false None) evs
  end end end end end.

(** ** harvest.go *)

Definition defaultRefusalGrace : Duration := 3 * Minute.

Definition ErrBrokerUnreachable : error := errors_New "harvest: NATS broker unreachable before fault injection".

Definition verifyKubeContext (want : string) (check : result string) : option error :=
  match check with
  | inr err => Some err
  | inl got =>
      if got <>s want then
        Some (errors_New ("active kubectl context is " +:+ fmt_q got +:+ ", want " +:+ fmt_q want
                +:+ " — switch context or drop --kube-context to fire without this check"))
      else None
  end.

(** a command and its arguments *)
Definition command : Type := (string * list string)%type.

(** [Result] *)
Record Row : Type := mkRow {
  Row_ScenarioName : string;
  Row_ExpectedClass : FailureClass;
  Row_ExpectedContract : string;
  Row_ExpectedVerdict : string;
  Row_ActualVerdict : string;
  Row_ActualContract : string;
  Row_ActualResult : Result;
  Row_EmittedConfidence : float64;
  Row_ComputedConfidence : float64;
  Row_CeilingBound : bool;
  Row_ObservedSeverity : option float64;
  Row_RunID : string;
  Row_RunIndex : Z;
  Row_StartedAt : Time;
  Row_EndedAt : Time;
  Row_Err : string
}.

(** a row's own outcome: what was expected and when it began, and no result yet *)
Definition new_row (sc : Scenario) (startedAt : Time) : Row :=
  mkRow (Sc_Name sc) (Exp_FailureClass (Sc_Expects sc)) (Exp_ContractRef (Sc_Expects sc)) (Exp_Verdict (Sc_Expects sc))
    "" "" "" f0 f0 false None "" 0 startedAt 0 "".

Definition row_err (r : Row) (err : string) : Row :=
  mkRow (Row_ScenarioName r) (Row_ExpectedClass r) (Row_ExpectedContract r) (Row_ExpectedVerdict r) (Row_ActualVerdict r) (Row_ActualContract r)
    (Row_ActualResult r) (Row_EmittedConfidence r) (Row_ComputedConfidence r) (Row_CeilingBound r) (Row_ObservedSeverity r) (Row_RunID r)
    (Row_RunIndex r) (Row_StartedAt r) (Row_EndedAt r) err.

Definition row_unknown (r : Row) : Row :=
  mkRow (Row_ScenarioName r) (Row_ExpectedClass r) (Row_ExpectedContract r) (Row_ExpectedVerdict r) (Row_ActualVerdict r) (Row_ActualContract r)
    ResultUnknown (Row_EmittedConfidence r) (Row_ComputedConfidence r) (Row_CeilingBound r) (Row_ObservedSeverity r) (Row_RunID r)
    (Row_RunIndex r) (Row_StartedAt r) (Row_EndedAt r) (Row_Err r).

Definition row_terminal (r : Row) (t : Terminal) : Row :=
  mkRow (Row_ScenarioName r) (Row_ExpectedClass r) (Row_ExpectedContract r) (Row_ExpectedVerdict r) (Term_Verdict t) (Term_ContractRef t)
    (Term_Result t) (Term_EmittedConfidence t) (Term_ComputedConfidence t) (Term_CeilingBound t) (Term_ObservedSeverity t) (Term_RunID t)
    (Row_RunIndex r) (Row_StartedAt r) (Row_EndedAt r) (Row_Err r).

Definition row_ended (r : Row) (endedAt : Time) : Row :=
  mkRow (Row_ScenarioName r) (Row_ExpectedClass r) (Row_ExpectedContract r) (Row_ExpectedVerdict r) (Row_ActualVerdict r) (Row_ActualContract r)
    (Row_ActualResult r) (Row_EmittedConfidence r) (Row_ComputedConfidence r) (Row_CeilingBound r) (Row_ObservedSeverity r) (Row_RunID r)
    (Row_RunIndex r) (Row_StartedAt r) endedAt (Row_Err r).

Definition row_index (r : Row) (i : Z) : Row :=
  mkRow (Row_ScenarioName r) (Row_ExpectedClass r) (Row_ExpectedContract r) (Row_ExpectedVerdict r) (Row_ActualVerdict r) (Row_ActualContract r)
    (Row_ActualResult r) (Row_EmittedConfidence r) (Row_ComputedConfidence r) (Row_CeilingBound r) (Row_ObservedSeverity r) (Row_RunID r)
    i (Row_StartedAt r) (Row_EndedAt r) (Row_Err r).

Section harvest.
Context (runner : list command -> command -> option error).

(** [Runner.Run]: the command joins the log *)
Definition Run_command (c : command) (log : list command) : list command * option error := (log ++ [c], runner log c).

Definition runAction (cmd : string) : list command -> list command * option error := Run_command ("/bin/sh"%string, ["-c"; cmd]%string).

(** the command an action's verb names, if it names one *)
Definition action_command (a : Action) : option command :=
  if Action_Apply a =s "kubectl" then Some ("kubectl"%string, ["apply"; "-f"; Action_Path a]%string ++ Action_Args a)
  else if Action_Apply a =s "kubectl-delete" then Some ("kubectl"%string, ["delete"; "-f"; Action_Path a]%string ++ Action_Args a)
  else if Action_Apply a =s "exec" then Some (Action_Path a, Action_Args a)
  else None.

Definition applyAction (a : Action) (log : list command) : list command * option error :=
  match action_command a with
  | Some c => Run_command c log
  | None => (log, Some (errors_New ("harvest: unknown apply verb: " +:+ fmt_q (Action_Apply a))))
  end.

(** the preconditions' restores, in the order given *)
Fixpoint restore_all (ps : list Precondition) (log : list command) : list command * list error :=
  match ps with
  | [] => (log, [])
  | p :: ps' =>
      let '(log1, err) := runAction (Pre_Restore p) log in
      let '(log2, errs) := restore_all ps' log1 in
      (log2, match err with Some e => errorf_w ("precondition " +:+ Pre_Name p +:+ " restore: ") e :: errs | None => errs end)
  end.

Definition restore (sc : Scenario) (log : list command) : list command * option error :=
  let '(log1, err) := applyAction (Sc_Restore sc) log in
  let '(log2, errs) := restore_all (rev (Sc_Preconditions sc)) log1 in
  (log2, errors_Join (match err with Some e => errorf_w "fault restore: " e :: errs | None => errs end)).

(** the preconditions in order, up to the first that fails *)
Fixpoint set_preconditions (ps : list Precondition) (log : list command) : list command * option error :=
  match ps with
  | [] => (log, None)
  | p :: ps' =>
      match runAction (Pre_Set p) log with
      | (log1, Some err) => (log1, Some (errorf_w ("precondition " +:+ Pre_Name p +:+ ": ") err))
      | (log1, None) => set_preconditions ps' log1
      end
  end.

(** [Harvest.Run] before its deferred restore; [live] is the liveness check's answer, if
    one is wired, and [settle] what [Settle] returns *)
Definition run_body (live : option (option error)) (settle : result Terminal) (sc : Scenario) (startedAt : Time) (log : list command)
  : list command * Row * option error :=
  let res := new_row sc startedAt in
  match set_preconditions (Sc_Preconditions sc) log with
  | (log1, Some walkErr) => (log1, row_err res (err_text walkErr), Some walkErr)
  | (log1, None) =>
      match live with
      | Some (Some lerr) =>
          let walkErr := errorf_w ("preflight: scenario " +:+ Sc_Name sc +:+ ": ") (errorf_ww ErrBrokerUnreachable lerr) in
          (log1, row_err res (err_text walkErr), Some walkErr)
      | _ =>
          match applyAction (Sc_Fault sc) log1 with
          | (log2, Some ferr) =>
              let walkErr := errorf_w "fault: " ferr in
              (log2, row_err res (err_text walkErr), Some walkErr)
          | (log2, None) =>
              match settle with
              | inr serr => (log2, row_unknown (row_err res (err_text serr)), Some serr)
              | inl term => (log2, row_terminal res term, None)
              end
          end
      end
  end.

Definition Run (live : option (option error)) (settle : result Terminal) (sc : Scenario) (startedAt endedAt : Time) (log : list command)
  : list command * Row * option error :=
  let '(log1, res, err) := run_body live settle sc startedAt log in
  let '(log2, rerr) := restore sc log1 in
  let res := row_ended res endedAt in
  match rerr with
  | None => (log2, res, err)
  | Some rerr =>
      let err' := match err with
                  | Some e => mkError (err_text e +:+ " (restore also failed: " +:+ err_text rerr +:+ ")") (err_chain e ++ err_chain rerr)
                  | None => errorf_w "restore failed: " rerr
                  end in
      (log2, row_err res (err_text err'), Some err')
  end.

(** ** the loop over the table *)

(** what the cluster does in one firing *)
Record Firing : Type := mkFiring {
  Fi_live : option (option error);
  Fi_settle : result Terminal;
  Fi_startedAt : Time;
  Fi_endedAt : Time
}.

(** the rows in the order they fire: [repeat] passes over the table *)
Definition schedule (repeat : Z) (rows : list Scenario) : list (Z * Scenario) :=
  flat_map (fun i => map (pair (Z.of_nat i)) rows) (seq 0 (Z.to_nat repeat)).

Definition exitCode (failed : bool) : Z := if failed then 1 else 0.

(** [run] from the [n]th firing on: [cancelled n] is [ctx.Err] before it, [cooled n]
    whether the cooldown after it ran out before the context; [encode] is the JSON
    encoder's answer, and [out] the rows printed *)
Fixpoint fire (firings : nat -> Firing) (cancelled cooled : nat -> bool) (encode : Row -> option error) (asJSON : bool) (n : nat)
  (todo : list (Z * Scenario)) (failed : bool) (out : list Row) (log : list command) : list command * list Row * Z :=
  match todo with
  | [] => (log, out, exitCode failed)
  | (i, sc) :: todo' =>
      if cancelled n then (log, out, exitCode failed)
      else
        let fi := firings n in
        let '(log1, res, runErr) := Run (Fi_live fi) (Fi_settle fi) sc (Fi_startedAt fi) (Fi_endedAt fi) log in
        let res := row_index res i in
        let failed := failed || is_some runErr in
        if asJSON && is_some (encode res) then (log1, out, 1)
        else
          let out := out ++ [res] in
          match todo' with
          | [] => fire firings cancelled cooled encode asJSON (S n) todo' failed out log1
          | _ => if cooled n then fire firings cancelled cooled encode asJSON (S n) todo' failed out log1
                 else (log1, out, exitCode failed)
          end
  end.

Definition run (firings : nat -> Firing) (cancelled cooled : nat -> bool) (encode : Row -> option error) (table : Table) (only : string)
  (asJSON : bool) (repeat : Z) : list command * list Row * Z :=
  let rows := List.filter (fun sc => (only =s "") || strings_Contains (Sc_Name sc) only) (Table_Scenarios table) in
  fire firings cancelled cooled encode asJSON 0 (schedule repeat rows) false [] [].

End harvest.

(** ** scorecard/grade.go: a row is a [Result] *)

Definition failed (r : Row) : bool := Row_Err r <>s "".

Definition hit : string := "".
Definition refusedWrongBeat : string := "refused at wrong beat".
Definition noDetection : string := "no detection / settle timeout".
Definition wrongContract : string := "wrong contract".
Definition wrongVerdict : string := "wrong verdict".
Definition nonConverging : string := "non-converging".
Definition restoreFailure : string := "restore failure".
Definition harnessError : string := "harness error".
Definition harnessLivenessFailure : string := "harness fault: NATS unreachable before fault injection".

Definition failedReason (msg : string) : string :=
  if strings_Contains msg "restore" then restoreFailure
  else if strings_Contains msg "broker unreachable" then harnessLivenessFailure
  else if strings_Contains msg "settle window elapsed" then noDetection
  else harnessError.

Definition grade (r : Row) : string :=
  if failed r then failedReason (Row_Err r)
  else if (Row_ActualVerdict r =s "refused") && (Row_ExpectedVerdict r <>s "refused") then refusedWrongBeat
  else if (Row_ExpectedVerdict r =s "refused") && (Row_ActualVerdict r <>s "refused") then refusedWrongBeat
  else if Row_ActualVerdict r <>s Row_ExpectedVerdict r then wrongVerdict
  else if Row_ExpectedVerdict r =s "refused" then hit
  else if Row_ActualContract r <>s Row_ExpectedContract r then wrongContract
  else if (Row_ExpectedVerdict r =s "approved") && (Row_ActualResult r <>s ResultSuccess) then nonConverging
  else hit.

Record Tally : Type := mkTally { Tally_Hits : Z; Tally_N : Z }.

Record Miss : Type := mkMiss { Miss_ScenarioName : string; Miss_RunIndex : Z; Miss_RunID : string; Miss_Reason : string }.

Record Report : Type := mkReport {
  Rpt_N : Z;
  Rpt_Hits : Z;
  Rpt_ByScenario : gmap string Tally;
  Rpt_ByRunIndex : gmap Z Tally;
  Rpt_Reasons : gmap string Z;
  Rpt_Misses : list Miss;
  Rpt_HarnessExcluded : Z
}.

Definition Report_zero : Report := mkReport 0 0 ∅ ∅ ∅ [] 0.

Definition miss_of (r : Row) (g : string) : Miss := mkMiss (Row_ScenarioName r) (Row_RunIndex r) (Row_RunID r) g.

Definition bump (m : gmap string Z) (g : string) : gmap string Z := <[g := default 0 (m !! g) + 1]> m.

Definition tally_add (t : option Tally) (isHit : bool) : Tally :=
  let t := default (mkTally 0 0) t in mkTally (Tally_Hits t + (if isHit then 1 else 0)) (Tally_N t + 1).

(** one graded row *)
Definition grade_row (rpt : Report) (rw : Row) : Report :=
  let g := grade rw in
  if g =s harnessLivenessFailure then
    mkReport (Rpt_N rpt) (Rpt_Hits rpt) (Rpt_ByScenario rpt) (Rpt_ByRunIndex rpt) (bump (Rpt_Reasons rpt) g)
      (Rpt_Misses rpt ++ [miss_of rw g]) (Rpt_HarnessExcluded rpt + 1)
  else
    let isHit := g =s hit in
    mkReport (Rpt_N rpt + 1) (Rpt_Hits rpt + (if isHit then 1 else 0))
      (<[Row_ScenarioName rw := tally_add (Rpt_ByScenario rpt !! Row_ScenarioName rw) isHit]> (Rpt_ByScenario rpt))
      (<[Row_RunIndex rw := tally_add (Rpt_ByRunIndex rpt !! Row_RunIndex rw) isHit]> (Rpt_ByRunIndex rpt))
      (if isHit then Rpt_Reasons rpt else bump (Rpt_Reasons rpt) g)
      (if isHit then Rpt_Misses rpt else Rpt_Misses rpt ++ [miss_of rw g])
      (Rpt_HarnessExcluded rpt).

(** [Grade] over the trimmed lines read, and the scanner's own error *)
Fixpoint grade_lines (decode : string -> result Row) (lines : list string) (rpt : Report) : result Report :=
  match lines with
  | [] => inl rpt
  | line :: lines' =>
      if line =s "" then grade_lines decode lines' rpt
      else match decode line with
           | inr err => inr (errorf_w "scorecard: decode result: " err)
           | inl rw => grade_lines decode lines' (grade_row rpt rw)
           end
  end.

Definition Grade (decode : string -> result Row) (lines : list string) (scan : option error) : result Report :=
  match grade_lines decode lines Report_zero with
  | inr err => inr err
  | inl rpt => match scan with Some err => inr (errorf_w "scorecard: read results: " err) | None => inl rpt end
  end.

(** ** Lemmas: loading *)

Lemma validate_action_ok a b : validate_action a = inl b -> a = b /\ Action_Path b <> "" /\ is_Some (action_command b).
Proof.
  unfold validate_action, action_command, validApply. destruct (String.eqb_spec (Action_Path a) ""); [done |].
  destruct (_ =s "kubectl") eqn:E1; [cbn; intros [= <-]; rewrite E1; eauto |].
  destruct (_ =s "kubectl-delete") eqn:E2; [cbn; intros [= <-]; rewrite E1, E2; eauto |].
  destruct (_ =s "exec") eqn:E3; cbn; [intros [= <-]; rewrite E1, E2, E3; eauto | done].
Qed.

Record loaded (sc : Scenario) : Prop := {
  ld_fault : is_Some (action_command (Sc_Fault sc));
  ld_restore : is_Some (action_command (Sc_Restore sc));
  ld_verdict : validVerdict (Exp_Verdict (Sc_Expects sc)) = true;
  ld_contract : Exp_Verdict (Sc_Expects sc) <> "refused" -> Exp_ContractRef (Sc_Expects sc) <> "";
  ld_signal : Sc_SignalRef sc <> "";
  ld_window : 0 < Sc_SettleWindow sc;
  ld_pre : Forall (fun p => Pre_Set p <> "" /\ Pre_Restore p <> "") (Sc_Preconditions sc)
}.

Lemma half_precondition_none ps : half_precondition ps = None -> Forall (fun p => Pre_Set p <> "" /\ Pre_Restore p <> "") ps.
Proof.
  induction ps as [| p ps IH]; [constructor |]. unfold half_precondition. cbn [List.find].
  destruct (String.eqb_spec (Pre_Set p) ""), (String.eqb_spec (Pre_Restore p) ""); cbn [orb]; [done.. |]. constructor; [done | by apply IH].
Qed.

Lemma validate_loaded s sc : validate s = inl sc -> loaded sc.
Proof.
  unfold validate. destruct (Ss_Name s =s ""); [done |].
  destruct (validate_action (Ss_Fault s)) as [fault |] eqn:Ef; [| done]. destruct (validate_action (Ss_Restore s)) as [rest |] eqn:Er; [| done].
  apply validate_action_ok in Ef as (_ & _ & Hf), Er as (_ & _ & Hr). destruct (Action_Path rest =s ""); [done |].
  destruct (validVerdict _) eqn:Ev; [| done]. cbn [negb]. destruct (_ && _) eqn:Ec; [done |]. destruct (String.eqb_spec (Ss_SignalRef s) ""); [done |].
  destruct (ParseDuration _) as [window |]; [| done]. destruct (Z.leb_spec window 0); [done |].
  destruct (half_precondition _) eqn:Eh; [done |]. intros [= <-]. split; cbn; [done.. | | done | done | by apply half_precondition_none].
  intros Hv Hc. rewrite Hc in Ec. apply andb_false_iff in Ec as [Ec | Ec]; [| done]. by apply negb_false_iff, String.eqb_eq in Ec.
Qed.

Lemma LoadScenarios_loaded readFile unmarshal path t : LoadScenarios readFile unmarshal path = inl t -> Forall loaded (Table_Scenarios t).
Proof.
  unfold LoadScenarios. destruct (Stage _ _ _ _) as [sf |]; [| done]. destruct (Sf_Rig sf =s ""); [done |].
  destruct (validate_all (Sf_Scenarios sf)) as [out |] eqn:E; [| done]. intros [= <-]. cbn. revert out E.
  induction (Sf_Scenarios sf) as [| s ss IH]; intros out; cbn [validate_all]; [intros [= <-]; constructor |].
  destruct (validate s) as [sc |] eqn:Es; [| done]. destruct (validate_all ss) as [out' |] eqn:E; [| done]. intros [= <-].
  constructor; [by eapply validate_loaded | by apply IH].
Qed.

(** ** Lemmas: the wait *)

(** the event that ends the wait on [signalRef], and with what *)
Definition decides (signalRef : string) (ev : settle_event) : bool :=
  match ev with
  | SeDone | SeRefusal => true
  | SeOutcome o => (Outcome_SignalRef o =s signalRef) && isTerminal (Outcome_Result o)
  | SeDecline d => Decision_SignalRef d =s signalRef
  | SeHeld g => Decision_SignalRef (Governed_Decision g) =s signalRef
  | _ => false
  end.

Definition fresh_set (startedAt : Time) (signalRef : string) (ev : settle_event) : bool :=
  match ev with SeSet s => (Set_SignalRef s =s signalRef) && runIDFresh (Set_RunID s) startedAt | _ => false end.

Lemma step_decides startedAt signalRef st ev : decides signalRef ev = false -> exists st', settle_step startedAt signalRef st ev = inl st'.
Proof.
  destruct ev as [| | l | o | d | g | det | s]; cbn; try done; intros E; eauto.
  - apply andb_false_iff in E. destruct (_ =s _); cbn; [| eauto]. destruct E as [| ->]; [done |]. cbn. eauto.
  - rewrite E. cbn. eauto.
  - rewrite E. cbn. eauto.
  - destruct (_ || _); eauto.
  - destruct (_ || _); eauto.
Qed.

Lemma decides_step startedAt signalRef st ev : decides signalRef ev = true -> exists r, settle_step startedAt signalRef st ev = inr r.
Proof.
  destruct ev as [| | l | o | d | g | det | s]; cbn; try done; eauto.
  - intros [-> ->]%andb_true_iff. cbn. eauto.
  - intros ->. cbn. eauto.
  - intros ->. cbn. eauto.
Qed.

(** the first fresh set on [signalRef] *)
Definition first_fresh (startedAt : Time) (signalRef : string) (evs : list settle_event) : option ProposalSet :=
  head (omap (fun ev => match ev with SeSet s => if fresh_set startedAt signalRef ev then Some s else None | _ => None end) evs).

Lemma step_matched startedAt signalRef st ev st' : settle_step startedAt signalRef st ev = inl st' ->
  Se_matched st' = match Se_matched st with Some m => Some m | None => first_fresh startedAt signalRef [ev] end.
Proof.
  destruct ev as [| | l | o | d | g | det | s]; cbn; try done.
  - intros [= <-]. by destruct (Se_matched st).
  - destruct (_ || _); [| done]. intros [= <-]. by destruct (Se_matched st).
  - destruct (negb _); [| done]. intros [= <-]. by destruct (Se_matched st).
  - destruct (negb _); [| done]. intros [= <-]. by destruct (Se_matched st).
  - destruct (_ || _); intros [= <-]; by destruct (Se_matched st).
  - unfold first_fresh. cbn. destruct (Set_SignalRef s =s signalRef), (runIDFresh (Set_RunID s) startedAt); cbn; intros [= <-]; by destruct (Se_matched st).
Qed.

(** the wait ends at the first deciding event *)
Lemma settle_loop_first startedAt signalRef evs st r :
  settle_loop startedAt signalRef st evs = Some r ->
  exists pre ev post st', evs = pre ++ ev :: post /\ Forall (fun e => decides signalRef e = false) pre /\ decides signalRef ev = true /\
    settle_step startedAt signalRef st' ev = inr r /\
    Se_matched st' = match Se_matched st with Some m => Some m | None => first_fresh startedAt signalRef pre end.
Proof.
  revert st. induction evs as [| ev evs IH]; intros st; cbn [settle_loop]; [done |]. destruct (enabled st ev) eqn:He; [| done].
  destruct (decides signalRef ev) eqn:Hd.
  - destruct (decides_step startedAt signalRef st ev Hd) as [r' Es]. rewrite Es. intros [= <-]. exists [], ev, evs, st. repeat split; try done. by destruct (Se_matched st).
  - destruct (step_decides startedAt signalRef st ev Hd) as [st1 Es]. rewrite Es. intros (pre & ev' & post & st' & -> & Hpre & Hev & Hs & Hm)%IH.
    exists (ev :: pre), ev', post, st'. split; [done |]. split; [by constructor |]. do 2 (split; [done |]).
    rewrite Hm, (step_matched _ _ _ _ _ Es). destruct (Se_matched st); [done |]. unfold first_fresh. cbn [omap list_omap].
    destruct ev as [| | | | | | | s]; [done.. |]. by destruct (fresh_set startedAt signalRef (SeSet s)).
Qed.

(** an armed timer: a detection of the signal, and no fresh set of it since *)
Lemma settle_loop_armed startedAt signalRef evs st :
  settle_loop startedAt signalRef st evs = Some (inl (terminal "refused" "" "" "" None)) -> 
  exists pre post, evs = pre ++ SeRefusal :: post /\ Forall (fun e => decides signalRef e = false) pre /\
    ((Se_armed st = true /\ Forall (fun e => fresh_set startedAt signalRef e = false) pre) \/
     exists a det b, pre = a ++ SeDetection det :: b /\ Detection_Fingerprint det = signalRef /\ Forall (fun e => fresh_set startedAt signalRef e = false) b).
Proof.
  revert st. induction evs as [| ev evs IH]; intros st; cbn [settle_loop]; [done |]. destruct (enabled st ev) eqn:He; [| done].
  destruct (decides signalRef ev) eqn:Hd.
  - intros Hr. assert (ev = SeRefusal) as ->.
    { destruct ev as [| | l | o | d | g | det | s]; cbn in *; try done.
      - apply andb_true_iff in Hd as [E1 E2]. rewrite E1, E2 in Hr. cbn in Hr. unfold enrichFromSet in Hr. destruct (Se_matched st) as [m |]; [destruct (Set_Proposals m) |]; done.
      - rewrite Hd in Hr. cbn in Hr. unfold enrichFromSet in Hr. destruct (Se_matched st) as [m |]; [destruct (Set_Proposals m) |]; done.
      - rewrite Hd in Hr. cbn in Hr. unfold enrichFromSet in Hr. destruct (Se_matched st) as [m |]; [destruct (Set_Proposals m) |]; done. }
    exists [], evs. split; [done |]. split; [constructor |]. left. split; [exact He | constructor].
  - destruct (step_decides startedAt signalRef st ev Hd) as [st1 Es]. rewrite Es. intros (pre & post & -> & Hpre & Hor)%IH.
    exists (ev :: pre), post. split; [done |]. split; [by constructor |]. destruct Hor as [[Harm Hf] | (a & det & b & -> & Hfp & Hb)].
    + destruct ev as [| | l | o | d | g | det | s]; cbn in Es, Hd; try done.
      * injection Es as <-. left. split; [done | by constructor].
      * destruct (_ || _); [| done]. injection Es as <-. left. split; [done | by constructor].
      * destruct (negb _); [| done]. injection Es as <-. left. split; [done | by constructor].
      * destruct (negb _); [| done]. injection Es as <-. left. split; [done | by constructor].
      * destruct (String.eqb_spec (Detection_Fingerprint det) signalRef) as [Efp |]; cbn in Es.
        -- right. exists [], det, pre. done.
        -- injection Es as <-. left. split; [done | by constructor].
      * destruct ((Set_SignalRef s <>s signalRef) || negb (runIDFresh (Set_RunID s) startedAt)) eqn:Ef; injection Es as <-; [| done].
        left. split; [done |]. constructor; [| done]. cbn. apply orb_true_iff in Ef as [Ef | Ef]; apply negb_true_iff in Ef; rewrite Ef; [done | apply andb_false_r].
    + right. exists (ev :: a), det, b. done.
Qed.

(** ** Lemmas: what one firing runs *)

Definition sh (c : string) : command := ("/bin/sh"%string, ["-c"; c]%string).

Definition opt_list {A} (o : option A) : list A := match o with Some x => [x] | None => [] end.

Definition sets (sc : Scenario) : list command := map (fun p => sh (Pre_Set p)) (Sc_Preconditions sc).

(** the fault's reversal, then every precondition's, last first *)
Definition restores (sc : Scenario) : list command :=
  opt_list (action_command (Sc_Restore sc)) ++ map (fun p => sh (Pre_Restore p)) (rev (Sc_Preconditions sc)).

Section run_lemmas.
Context (runner : list command -> command -> option error).

(** every one of [cs], run after [log], succeeded *)
Fixpoint answered (log cs : list command) : Prop :=
  match cs with [] => True | c :: cs' => runner log c = None /\ answered (log ++ [c]) cs' end.

Lemma answered_app log a b : answered log a -> answered (log ++ a) b -> answered log (a ++ b).
Proof.
  revert log. induction a as [| c a IH]; intros log; cbn; [by rewrite app_nil_r |]. intros [Hc Ha] Hb. split; [done |].
  apply IH; [done |]. by rewrite <- app_assoc.
Qed.

Lemma restore_all_spec ps log :
  (restore_all runner ps log).1 = log ++ map (fun p => sh (Pre_Restore p)) ps /\
  ((restore_all runner ps log).2 = [] -> answered log (map (fun p => sh (Pre_Restore p)) ps)).
Proof.
  revert log. induction ps as [| p ps IH]; intros log; cbn [restore_all map]; [by rewrite app_nil_r |].
  unfold runAction, Run_command. fold (sh (Pre_Restore p)). destruct (IH (log ++ [sh (Pre_Restore p)])) as [Hl Ha].
  destruct (restore_all runner ps _) as [log2 errs]. cbn [fst snd] in *. split; [by rewrite Hl, <- app_assoc |].
  destruct (runner log (sh (Pre_Restore p))) eqn:E; [done |]. intros He. cbn. auto.
Qed.

Lemma restore_spec sc log :
  (restore runner sc log).1 = log ++ restores sc /\ ((restore runner sc log).2 = None -> answered log (restores sc)).
Proof.
  unfold restore, restores, applyAction. destruct (action_command (Sc_Restore sc)) as [c |]; cbn [opt_list app].
  - unfold Run_command. destruct (restore_all_spec (rev (Sc_Preconditions sc)) (log ++ [c])) as [Hl Ha].
    destruct (restore_all runner _ _) as [log2 errs]. cbn [fst snd] in *. split; [by rewrite Hl, <- app_assoc |].
    destruct (runner log c) eqn:E; cbn; [done |]. destruct errs; [auto | done].
  - destruct (restore_all_spec (rev (Sc_Preconditions sc)) log) as [Hl Ha]. destruct (restore_all runner _ _) as [log2 errs].
    cbn [fst snd] in *. split; [done |]. done.
Qed.

Lemma set_preconditions_spec ps log :
  exists n, (set_preconditions runner ps log).1 = log ++ take n (map (fun p => sh (Pre_Set p)) ps) /\
    ((set_preconditions runner ps log).2 = None -> n = length ps /\ answered log (map (fun p => sh (Pre_Set p)) ps)).
Proof.
  revert log. induction ps as [| p ps IH]; intros log; cbn [set_preconditions map].
  { exists 0%nat. by rewrite app_nil_r. }
  unfold runAction, Run_command. fold (sh (Pre_Set p)). destruct (runner log (sh (Pre_Set p))) eqn:E.
  - exists 1%nat. split; [by cbn | done].
  - destruct (IH (log ++ [sh (Pre_Set p)])) as (n & Hl & Ha). exists (S n). split; [by rewrite Hl, <- app_assoc |].
    intros [-> Ha']%Ha. split; [done | by split].
Qed.

(** the commands before the restores: some of the preconditions, or all of them and the
    fault *)
Lemma run_body_spec live settle sc startedAt log log1 res err :
  run_body runner live settle sc startedAt log = (log1, res, err) ->
  exists did, log1 = log ++ did /\
    ((exists n, did = take n (sets sc)) \/ (did = sets sc ++ opt_list (action_command (Sc_Fault sc)) /\ answered log (sets sc) /\
        (forall lerr, live <> Some (Some lerr)))) /\
    (err = None -> answered log did /\ did = sets sc ++ opt_list (action_command (Sc_Fault sc)) /\ (forall lerr, live <> Some (Some lerr)) /\
        exists t, settle = inl t /\ res = row_terminal (new_row sc startedAt) t) /\
    (forall e, err = Some e -> Row_Err res = err_text e).
Proof.
  unfold run_body. destruct (set_preconditions_spec (Sc_Preconditions sc) log) as (n & Hl & Ha). fold (sets sc) in *.
  destruct (set_preconditions runner _ log) as [log' [e |]]; cbn [fst snd] in *.
  { intros [= <- <- <-]. exists (take n (sets sc)). split; [done |]. split; [eauto |]. split; [done |]. by intros e' [= ->]. }
  destruct (Ha eq_refl) as [-> Hans]. rewrite (take_ge (sets sc)) in Hl by (by unfold sets; rewrite length_map).
  destruct live as [[lerr |] |] eqn:El.
  { intros [= <- <- <-]. exists (sets sc). split; [done |]. split; [left; exists (length (sets sc)); by rewrite take_ge |]. split; [done |]. by intros e [= <-]. }
  all: unfold applyAction; destruct (action_command (Sc_Fault sc)) as [c |] eqn:Ec;
    [unfold Run_command; destruct (runner log' c) as [ferr |] eqn:Ef |];
    [| destruct settle as [t | serr] |]; intros [= <- <- <-]; exists (sets sc ++ opt_list (action_command (Sc_Fault sc))); rewrite Ec; cbn [opt_list];
    (split; [by rewrite Hl, ?app_nil_r, <- ?app_assoc |]); (split; [by right |]); (split; [| intros e; by try intros [= <-]]); try done.
  all: intros _; (split; [apply answered_app; [done | by rewrite <- Hl] |]); split; [done |]; split; [done |]; by exists t.
Qed.

Lemma Run_spec live settle sc startedAt endedAt log log' res err :
  Run runner live settle sc startedAt endedAt log = (log', res, err) ->
  exists did, log' = log ++ did ++ restores sc /\
    ((exists n, did = take n (sets sc)) \/ (did = sets sc ++ opt_list (action_command (Sc_Fault sc)) /\ answered log (sets sc) /\
        (forall lerr, live <> Some (Some lerr)))) /\
    (err = None -> answered log (did ++ restores sc) /\ did = sets sc ++ opt_list (action_command (Sc_Fault sc)) /\ (forall lerr, live <> Some (Some lerr)) /\
        exists t, settle = inl t /\ res = row_ended (row_terminal (new_row sc startedAt) t) endedAt) /\
    (forall e, err = Some e -> Row_Err res = err_text e).
Proof.
  unfold Run. destruct (run_body _ _ _ _ _ _) as [[log1 res1] err1] eqn:Eb. apply run_body_spec in Eb as (did & -> & Hdid & Hok & Herr).
  destruct (restore_spec sc (log ++ did)) as [Hl Ha]. destruct (restore runner sc _) as [log2 [rerr |]]; cbn [fst snd] in *; subst log2.
  - intros [= <- <- <-]. exists did. split; [by rewrite app_assoc |]. split; [done |]. split; [done |]. by intros e [= <-].
  - intros [= <- <- <-]. exists did. split; [by rewrite app_assoc |]. split; [done |]. split.
    + intros He. destruct (Hok He) as (Hans & Hd & Hl & t & Hs & ->). split; [by apply answered_app; [| apply Ha] |]. split; [done |]. split; [done |]. by exists t.
    + intros e He. destruct res1. by apply Herr in He.
Qed.

(** an error has text *)
Lemma Run_err_text live settle sc startedAt endedAt log log' res e :
  (forall serr, settle = inr serr -> err_text serr <> "") ->
  Run runner live settle sc startedAt endedAt log = (log', res, Some e) -> err_text e <> "".
Proof.
  intros Hs. unfold Run. destruct (run_body runner live settle sc startedAt log) as [[log1 res1] err1] eqn:Eb.
  destruct (restore runner sc log1) as [log2 [rerr |]].
  { intros [= _ _ <-]. destruct err1 as [e1 |]; cbn; [by destruct (err_text e1) | done]. }
  intros [= _ _ ->]. revert Eb. unfold run_body. destruct (set_preconditions runner _ log) as [log3 [e1 |]] eqn:Ep.
  - intros [= _ _ <-]. clear -Ep. revert log Ep. induction (Sc_Preconditions sc) as [| p ps IH]; intros log; cbn [set_preconditions]; [done |].
    unfold runAction, Run_command. destruct (runner log _); [by intros [= _ <-] | apply IH].
  - destruct live as [[lerr |] |]; [by intros [= _ _ <-] | |]; (destruct (applyAction runner (Sc_Fault sc) log3) as [log4 [ferr |]];
      [by intros [= _ _ <-] | destruct settle as [t | serr]; [done | intros [= _ _ <-]; by apply Hs]]).
Qed.

End run_lemmas.

Lemma open_leg_text what w err : open_leg what w = Some err -> err_text err <> "".
Proof. unfold open_leg. destruct w as [[e |] |]; [| done..]. by intros [= <-]. Qed.

(** [Settle]: a leg that does not open, or the loop *)
Lemma Settle_cases legs startedAt signalRef evs r : Settle legs startedAt signalRef evs = Some r ->
  (exists what w err, open_leg what w = Some err /\ r = inr err) \/
  exists st, settle_loop startedAt signalRef st evs = Some r /\ Se_armed st = false /\ Se_matched st = None.
Proof.
  unfold Settle.
  destruct (open_leg "outcomes" _) eqn:E1; [intros [= <-]; left; eauto |]. destruct (open_leg "declines" _) eqn:E2; [intros [= <-]; left; eauto |].
  destruct (open_leg "held" _) eqn:E3; [intros [= <-]; left; eauto |]. destruct (open_leg "detections" _) eqn:E4; [intros [= <-]; left; eauto |].
  destruct (open_leg "sets" _) eqn:E5; [intros [= <-]; left; eauto |]. intros Hl. right. by eexists.
Qed.

Lemma Settle_err_text legs startedAt signalRef evs serr : Settle legs startedAt signalRef evs = Some (inr serr) -> err_text serr <> "".
Proof.
  intros [(what & w & err & E & [= ->]) | (st & Hl & _)]%Settle_cases; [by apply open_leg_text in E | revert Hl].
  intros (pre & ev & post & st' & _ & _ & _ & Hs & _)%settle_loop_first. destruct ev as [| | l | o | d | g | det | s]; cbn in Hs; try done.
  - by injection Hs as <-.
  - by destruct (_ || _).
  - by destruct (negb _).
  - by destruct (negb _).
  - by destruct (_ || _).
  - by destruct (_ || _).
Qed.

(** ** Lemmas: the scorecard *)

Definition count_rows (p : Row -> bool) (rows : list Row) : Z := Z.of_nat (length (List.filter p rows)).

Lemma count_rows_snoc p rows r : count_rows p (rows ++ [r]) = count_rows p rows + (if p r then 1 else 0).
Proof. unfold count_rows. rewrite filter_app, length_app. cbn. destruct (p r); cbn; lia. Qed.

Lemma count_rows_split p rows : count_rows p rows + count_rows (fun r => negb (p r)) rows = Z.of_nat (length rows).
Proof. unfold count_rows. induction rows as [| r l IH]; [done |]. cbn [List.filter length]. destruct (p r); cbn [negb length]; lia. Qed.

Definition is_trial (r : Row) : bool := grade r <>s harnessLivenessFailure.
Definition is_hit (r : Row) : bool := grade r =s hit.

(** the tally of the trials [p] picks, if there is one *)
Definition tally_of (p : Row -> bool) (rows : list Row) : option Tally :=
  if count_rows (fun r => p r && is_trial r) rows =? 0 then None
  else Some (mkTally (count_rows (fun r => p r && is_hit r) rows) (count_rows (fun r => p r && is_trial r) rows)).

Record report_of (rows : list Row) (rpt : Report) : Prop := {
  ro_N : Rpt_N rpt = count_rows is_trial rows;
  ro_hits : Rpt_Hits rpt = count_rows is_hit rows;
  ro_excluded : Rpt_HarnessExcluded rpt = count_rows (fun r => negb (is_trial r)) rows;
  ro_scenario : forall s, Rpt_ByScenario rpt !! s = tally_of (fun r => Row_ScenarioName r =s s) rows;
  ro_index : forall i, Rpt_ByRunIndex rpt !! i = tally_of (fun r => Row_RunIndex r =? i) rows;
  ro_reasons : forall g, g <> hit -> default 0 (Rpt_Reasons rpt !! g) = count_rows (fun r => grade r =s g) rows;
  ro_no_hit : Rpt_Reasons rpt !! hit = None;
  ro_misses : Rpt_Misses rpt = map (fun r => miss_of r (grade r)) (List.filter (fun r => negb (is_hit r)) rows)
}.

Lemma count_rows_nonneg p rows : 0 <= count_rows p rows.
Proof. unfold count_rows. lia. Qed.

Lemma hit_is_trial r : is_hit r = true -> is_trial r = true.
Proof. unfold is_hit, is_trial. by intros ->%String.eqb_eq. Qed.

Lemma count_rows_mono p q rows : (forall r, p r = true -> q r = true) -> count_rows p rows <= count_rows q rows.
Proof.
  intros Hpq. unfold count_rows. induction rows as [| r rows IH]; [done |]. cbn. destruct (p r) eqn:E; [rewrite (Hpq r E); cbn; lia |].
  destruct (q r); cbn; lia.
Qed.

(** a trial joins its tally *)
Lemma tally_of_snoc p rows r :
  tally_of p (rows ++ [r]) = if p r && is_trial r then Some (tally_add (tally_of p rows) (is_hit r)) else tally_of p rows.
Proof.
  unfold tally_of. rewrite !count_rows_snoc. pose proof (count_rows_nonneg (fun r => p r && is_trial r) rows) as Hn.
  pose proof (count_rows_mono (fun r => p r && is_hit r) (fun r => p r && is_trial r) rows) as Hm.
  assert (0 <= count_rows (fun r => p r && is_hit r) rows) by apply count_rows_nonneg.
  specialize (Hm ltac:(intros x; rewrite !andb_true_iff; intros [? ?%hit_is_trial]; done)).
  destruct (p r) eqn:Ep; cbn [andb]; [| by rewrite !Z.add_0_r]. destruct (is_trial r) eqn:Et.
  - replace (count_rows (fun r => p r && is_trial r) rows + 1 =? 0) with false by lia. unfold tally_add.
    destruct (Z.eqb_spec (count_rows (fun r => p r && is_trial r) rows) 0) as [E | E]; cbn; [| done]. do 2 f_equal; lia.
  - assert (is_hit r = false) as -> by (apply not_true_is_false; intros Hh%hit_is_trial; congruence). by rewrite !Z.add_0_r.
Qed.

Lemma grade_row_report rows rpt r : report_of rows rpt -> report_of (rows ++ [r]) (grade_row rpt r).
Proof.
  intros [HN Hh He Hs Hi Hr Hno Hm]. unfold grade_row. destruct (grade r =s harnessLivenessFailure) eqn:Eg.
  - assert (is_trial r = false) as Et by (unfold is_trial; by rewrite Eg). apply String.eqb_eq in Eg as Eg'.
    assert (is_hit r = false) as Eh by (unfold is_hit; by rewrite Eg').
    split; cbn [Rpt_N Rpt_Hits Rpt_HarnessExcluded Rpt_ByScenario Rpt_ByRunIndex Rpt_Reasons Rpt_Misses]; rewrite ?count_rows_snoc.
    + rewrite HN, Et. lia.
    + rewrite Hh, Eh. lia.
    + rewrite He, Et. done.
    + intros s. rewrite tally_of_snoc, Et, andb_false_r. apply Hs.
    + intros i. rewrite tally_of_snoc, Et, andb_false_r. apply Hi.
    + intros g Hg. rewrite count_rows_snoc, <- (Hr g Hg). unfold bump. destruct (String.eqb_spec (grade r) g) as [-> | Hne].
      * by rewrite lookup_insert_eq.
      * rewrite lookup_insert_ne by done. lia.
    + unfold bump. rewrite lookup_insert_ne; [done | by rewrite Eg'].
    + rewrite filter_app, map_app, Hm. cbn. by rewrite Eh.
  - assert (is_trial r = true) as Et by (unfold is_trial; by rewrite Eg). fold (is_hit r).
    assert (forall (A : Type) (p : A -> Row -> bool) (m : A -> option Tally) (key : A) (ins : A -> option Tally),
      (forall a, m a = tally_of (p a) rows) -> p key r = true -> (forall a, a <> key -> p a r = false) ->
      ins key = Some (tally_add (m key) (is_hit r)) -> (forall a, a <> key -> ins a = m a) -> (forall a, a = key \/ a <> key) -> forall a, ins a = tally_of (p a) (rows ++ [r])) as Hins.
    { intros A p m key ins Hp Hk Hne Hi1 Hi2 Hdec a. rewrite tally_of_snoc, Et, andb_true_r. destruct (Hdec a) as [-> | Ha].
      - rewrite Hk, Hi1, Hp. done.
      - rewrite (Hne a Ha), (Hi2 a Ha). apply Hp. }
    split; cbn [Rpt_N Rpt_Hits Rpt_HarnessExcluded Rpt_ByScenario Rpt_ByRunIndex Rpt_Reasons Rpt_Misses]; rewrite ?count_rows_snoc.
    + rewrite HN, Et. lia.
    + by rewrite Hh.
    + rewrite He, Et. cbn. lia.
    + apply (Hins string (fun s r => Row_ScenarioName r =s s) (fun s => Rpt_ByScenario rpt !! s) (Row_ScenarioName r)).
      * exact Hs.
      * apply seqb_refl.
      * intros a Ha. by apply String.eqb_neq.
      * apply lookup_insert_eq.
      * intros a Ha. by rewrite lookup_insert_ne.
      * intros a. destruct (decide (a = Row_ScenarioName r)); auto.
    + apply (Hins Z (fun i r => Row_RunIndex r =? i) (fun i => Rpt_ByRunIndex rpt !! i) (Row_RunIndex r)).
      * exact Hi.
      * apply Z.eqb_refl.
      * intros a Ha. by apply Z.eqb_neq.
      * apply lookup_insert_eq.
      * intros a Ha. by rewrite lookup_insert_ne.
      * intros a. destruct (decide (a = Row_RunIndex r)); auto.
    + intros g Hg. rewrite count_rows_snoc, <- (Hr g Hg). unfold is_hit. destruct (String.eqb_spec (grade r) hit) as [E | E].
      * rewrite E. destruct (String.eqb_spec hit g); [by subst | lia].
      * unfold bump. destruct (String.eqb_spec (grade r) g) as [-> | Hne]; [by rewrite lookup_insert_eq | rewrite lookup_insert_ne by done; lia].
    + unfold is_hit. destruct (String.eqb_spec (grade r) hit) as [E | E]; [done |]. unfold bump. by rewrite lookup_insert_ne.
    + rewrite filter_app, map_app, Hm. cbn. destruct (is_hit r); cbn; by rewrite ?app_nil_r.
Qed.

Lemma report_zero : report_of [] Report_zero.
Proof. split; done. Qed.

(** the rows decoded *)
Fixpoint rows_of (decode : string -> result Row) (lines : list string) : list Row :=
  match lines with
  | [] => []
  | line :: lines' => if line =s "" then rows_of decode lines' else match decode line with inl rw => rw :: rows_of decode lines' | inr _ => [] end
  end.

Lemma grade_lines_report decode lines rows rpt rpt' :
  report_of rows rpt -> grade_lines decode lines rpt = inl rpt' -> report_of (rows ++ rows_of decode lines) rpt'.
Proof.
  revert rows rpt. induction lines as [| line lines IH]; intros rows rpt Hrep; cbn [grade_lines rows_of]; [intros [= <-]; by rewrite app_nil_r |].
  destruct (line =s ""); [by apply IH |]. destruct (decode line) as [rw |]; [| done]. intros Hg.
  rewrite cons_middle, app_assoc. by eapply IH; [apply grade_row_report |].
Qed.

(** ** Claims *)

(** C15. Every firing puts the rig back: for a scenario that loaded, whatever any command,
    the liveness check or the wait answers, [Run] ends with the fault's reversal and
    then every precondition's restore in reverse order, each once, after whatever it
    did; what it did is a prefix of the preconditions, or all of them, each having
    succeeded, and then the fault, and the fault only if the broker was not found
    unreachable. *)
Theorem every_firing_restores readFile unmarshal path t sc runner live settle startedAt endedAt log :
  LoadScenarios readFile unmarshal path = inl t -> sc ∈ Table_Scenarios t ->
  exists fault undo did,
    action_command (Sc_Fault sc) = Some fault /\ action_command (Sc_Restore sc) = Some undo /\
    (Run runner live settle sc startedAt endedAt log).1.1 = log ++ did ++ undo :: map (fun p => sh (Pre_Restore p)) (rev (Sc_Preconditions sc)) /\
    ((exists n, did = take n (sets sc)) \/
     (did = sets sc ++ [fault] /\ answered runner log (sets sc) /\ forall lerr, live <> Some (Some lerr))).
Proof.
  intros Hl Hin. apply LoadScenarios_loaded in Hl. rewrite list.Forall_forall in Hl. destruct (Hl sc Hin) as [[fault Hf] [undo Hu] _ _ _ _ _].
  destruct (Run runner live settle sc startedAt endedAt log) as [[log' res] err] eqn:E. apply Run_spec in E as (did & -> & Hdid & _).
  exists fault, undo, did. split; [done |]. split; [done |]. unfold restores in *. rewrite Hf, Hu in *. split; [done | exact Hdid].
Qed.

(** [Settle] reports the first answer: along any schedule, what it returns is decided
    by the first event that answers for the fingerprint — a settled outcome, a
    decline, a hold, the refusal timer or the end of the window — with the fields of
    that message and the run and confidence of the first fresh proposal set seen
    before it; a refusal is reported only with a detection of the fingerprint since
    which no fresh set was seen. *)
Theorem settle_reports_the_first_answer legs startedAt signalRef evs r :
  Settle legs startedAt signalRef evs = Some r ->
  (exists what w err, open_leg what w = Some err /\ r = inr err) \/
  exists pre ev post, evs = pre ++ ev :: post /\ Forall (fun e => decides signalRef e = false) pre /\
    let with_run := fun t => inl (enrichFromSet t (first_fresh startedAt signalRef pre)) in
    match ev with
    | SeOutcome o => Outcome_SignalRef o = signalRef /\ isTerminal (Outcome_Result o) = true /\
        r = with_run (terminal "approved" (Outcome_Result o) (Outcome_ContractRef o) (Outcome_DecisionRef o) (Outcome_ObservedSeverity o))
    | SeDecline d => Decision_SignalRef d = signalRef /\ r = with_run (terminal "declined" "" "" (Decision_ID d) None)
    | SeHeld g => Decision_SignalRef (Governed_Decision g) = signalRef /\
        r = with_run (terminal "held" "" (ContractRefFor (Governed_Set g) (Decision_CandidateRef (Governed_Decision g))) (Decision_ID (Governed_Decision g)) None)
    | SeRefusal => r = inl (terminal "refused" "" "" "" None) /\
        exists a det b, pre = a ++ SeDetection det :: b /\ Detection_Fingerprint det = signalRef /\ Forall (fun e => fresh_set startedAt signalRef e = false) b
    | SeDone => exists err, r = inr err /\ errors_Is err ErrSettleTimeout = true
    | _ => False
    end.
Proof.
  intros [Hleg | (st & Hl & Harm & Hm)]%Settle_cases; [by left | right]. pose proof Hl as Hl'.
  apply settle_loop_first in Hl as (pre & ev & post & st' & -> & Hpre & Hd & Hs & Hm'). rewrite Hm in Hm'.
  exists pre, ev, post. split; [done |]. split; [done |]. cbn zeta. destruct ev as [| | l | o | d | g | det | s]; cbn in Hd, Hs; try done.
  - injection Hs as <-. eexists. split; [done |]. unfold errors_Is, errorf_wp. cbn. done.
  - injection Hs as <-. split; [done |]. apply settle_loop_armed in Hl' as (pre' & post' & E & Hpre' & Hor).
    assert (pre' = pre) as ->.
    { clear -E Hpre Hpre'. revert pre' E Hpre'. induction pre as [| e pre IH]; intros [| e' pre'] E Hpre'; [done | | |].
      - injection E as <- _. apply Forall_cons_iff in Hpre' as [Hx _]. by cbn in Hx.
      - injection E as -> _. apply Forall_cons_iff in Hpre as [Hx _]. by cbn in Hx.
      - injection E as -> E. apply Forall_cons_iff in Hpre as [_ Hpre], Hpre' as [_ Hpre']. f_equal. by apply IH. }
    destruct Hor as [[Ha _] | Hor]; [congruence | exact Hor].
  - apply andb_true_iff in Hd as [E1 E2]. rewrite E1, E2 in Hs. cbn in Hs. injection Hs as <-. rewrite Hm'. apply String.eqb_eq in E1. done.
  - rewrite Hd in Hs. cbn in Hs. injection Hs as <-. rewrite Hm'. apply String.eqb_eq in Hd. done.
  - rewrite Hd in Hs. cbn in Hs. injection Hs as <-. rewrite Hm'. apply String.eqb_eq in Hd. done.
Qed.

(** a row that is a hit: no error, and the verdicts agree *)
Lemma grade_hit r : grade r = hit ->
  Row_Err r = "" /\ Row_ActualVerdict r = Row_ExpectedVerdict r /\
  (Row_ExpectedVerdict r <> "refused" -> Row_ActualContract r = Row_ExpectedContract r) /\
  (Row_ExpectedVerdict r = "approved" -> Row_ActualResult r = ResultSuccess).
Proof.
  unfold grade, failed. destruct (String.eqb_spec (Row_Err r) ""); cbn [negb].
  2:{ unfold failedReason. destruct (strings_Contains _ "restore"); [done |]. destruct (strings_Contains _ "broker unreachable"); [done |].
      by destruct (strings_Contains _ _). }
  destruct (_ && _); [done |]. destruct (_ && _); [done |]. destruct (String.eqb_spec (Row_ActualVerdict r) (Row_ExpectedVerdict r)) as [Ev |]; [cbn [negb] | done].
  destruct (String.eqb_spec (Row_ExpectedVerdict r) "refused") as [Er |]; [intros _; repeat split; [done | done | done | by rewrite Er] |].
  destruct (String.eqb_spec (Row_ActualContract r) (Row_ExpectedContract r)) as [Ec |]; [cbn [negb] | done].
  destruct (String.eqb_spec (Row_ExpectedVerdict r) "approved"); cbn [andb].
  - destruct (String.eqb_spec (Row_ActualResult r) ResultSuccess); [done |]. done.
  - done.
Qed.

Lemma set_enrichment_fields t m : Term_Verdict (enrichFromSet t m) = Term_Verdict t /\ Term_Result (enrichFromSet t m) = Term_Result t /\
  Term_ContractRef (enrichFromSet t m) = Term_ContractRef t.
Proof. unfold enrichFromSet. destruct m as [s |]; [| done]. by destruct (Set_Proposals s). Qed.

(** what a terminal state stands on *)
Lemma Settle_evidence legs startedAt signalRef evs t : Settle legs startedAt signalRef evs = Some (inl t) ->
  (exists o, SeOutcome o ∈ evs /\ Outcome_SignalRef o = signalRef /\ Term_Verdict t = "approved" /\ Term_Result t = Outcome_Result o /\ Term_ContractRef t = Outcome_ContractRef o) \/
  (Term_Verdict t = "declined" /\ Term_ContractRef t = "") \/
  (exists g, SeHeld g ∈ evs /\ Decision_SignalRef (Governed_Decision g) = signalRef /\ Term_Verdict t = "held" /\
     Term_ContractRef t = ContractRefFor (Governed_Set g) (Decision_CandidateRef (Governed_Decision g))) \/
  (exists det, SeDetection det ∈ evs /\ Detection_Fingerprint det = signalRef /\ Term_Verdict t = "refused").
Proof.
  intros [(what & w & err & E & [=]) | (st & Hl & Harm & Hm)]%Settle_cases. pose proof Hl as Hl'.
  apply settle_loop_first in Hl as (pre & ev & post & st' & -> & Hpre & Hd & Hs & _).
  destruct ev as [| | l | o | d | g | det | s]; cbn in Hd, Hs; try done.
  - injection Hs as <-. do 3 right. apply settle_loop_armed in Hl' as (pre' & post' & E & _ & [[Ha _] | (a & det & b & -> & Hfp & _)]); [congruence |].
    exists det. rewrite E. split; [set_solver | done].
  - apply andb_true_iff in Hd as [E1 E2]. rewrite E1, E2 in Hs. cbn in Hs. injection Hs as <-. left. exists o. apply String.eqb_eq in E1.
    match goal with |- context [enrichFromSet ?a ?b] => destruct (set_enrichment_fields a b) as (-> & -> & ->) end. split; [set_solver | done].
  - rewrite Hd in Hs. cbn in Hs. injection Hs as <-. right. left.
    match goal with |- context [enrichFromSet ?a ?b] => destruct (set_enrichment_fields a b) as (-> & _ & ->) end. done.
  - rewrite Hd in Hs. cbn in Hs. injection Hs as <-. do 2 right. left. exists g. apply String.eqb_eq in Hd.
    match goal with |- context [enrichFromSet ?a ?b] => destruct (set_enrichment_fields a b) as (-> & _ & ->) end. split; [set_solver | done].
Qed.

(** a graded firing of a loaded scenario *)
Lemma hit_earned sc runner live settle startedAt endedAt log log' res err i legs evs :
  loaded sc -> Settle legs startedAt (Sc_SignalRef sc) evs = Some settle ->
  Run runner live settle sc startedAt endedAt log = (log', res, err) -> grade (row_index res i) = hit ->
  err = None /\
  (exists cs, log' = log ++ cs /\ answered runner log cs /\ forall lerr, live <> Some (Some lerr)) /\
  ((exists o, SeOutcome o ∈ evs /\ Exp_Verdict (Sc_Expects sc) = "approved" /\ Outcome_SignalRef o = Sc_SignalRef sc /\
      Outcome_Result o = ResultSuccess /\ Outcome_ContractRef o = Exp_ContractRef (Sc_Expects sc)) \/
   (exists g, SeHeld g ∈ evs /\ Exp_Verdict (Sc_Expects sc) = "held" /\ Decision_SignalRef (Governed_Decision g) = Sc_SignalRef sc /\
      ContractRefFor (Governed_Set g) (Decision_CandidateRef (Governed_Decision g)) = Exp_ContractRef (Sc_Expects sc)) \/
   (exists det, SeDetection det ∈ evs /\ Exp_Verdict (Sc_Expects sc) = "refused" /\ Detection_Fingerprint det = Sc_SignalRef sc)).
Proof.
  intros Hld Hset HR Hg. apply grade_hit in Hg as (He & Hv & Hc & Hr). cbn [row_index Row_Err Row_ActualVerdict Row_ExpectedVerdict Row_ActualContract Row_ExpectedContract Row_ActualResult] in *.
  assert (err = None) as ->.
  { destruct err as [e |]; [| done]. exfalso. eapply Run_err_text; [| exact HR |].
    - intros serr ->. by eapply Settle_err_text.
    - apply Run_spec in HR as (_ & _ & _ & _ & Ht). by rewrite <- (Ht e eq_refl). }
  apply Run_spec in HR as (did & -> & _ & Hok & _). destruct (Hok eq_refl) as (Hans & _ & Hlive & t & -> & ->). split; [done |].
  split; [by exists (did ++ restores sc) |]. cbn in Hv, Hc, Hr. pose proof (ld_contract _ Hld) as Hcontract.
  apply Settle_evidence in Hset as [(o & Ho & Hsig & Hver & Hres & Hct) | [(Hver & Hct) | [(g & Hgin & Hsig & Hver & Hct) | (det & Hdet & Hfp & Hver)]]].
  - left. exists o. rewrite Hver in Hv. rewrite <- Hv in *. rewrite <- Hres, <- Hct. repeat split; auto.
  - rewrite Hver in Hv. rewrite <- Hv in *. destruct (Hcontract ltac:(done)). by rewrite <- Hc, Hct.
  - right. left. exists g. rewrite Hver in Hv. rewrite <- Hv in *. repeat split; auto. rewrite <- Hct. by apply Hc.
  - do 2 right. exists det. rewrite Hver in Hv. auto.
Qed.

(** A hit is earned: when the row of a loaded scenario's firing grades as a hit, the
    firing had no error, every command it ran succeeded — preconditions, fault and
    every restore — and the wait saw the expected answer on the scenario's own
    fingerprint: a successful outcome of the expected contract, a hold of the expected
    contract, or a detection that was refused. *)
Theorem a_hit_is_earned readFile unmarshal path t sc runner live settle startedAt endedAt log log' res err i legs evs :
  LoadScenarios readFile unmarshal path = inl t -> sc ∈ Table_Scenarios t ->
  Settle legs startedAt (Sc_SignalRef sc) evs = Some settle ->
  Run runner live settle sc startedAt endedAt log = (log', res, err) -> grade (row_index res i) = hit ->
  err = None /\
  (exists cs, log' = log ++ cs /\ answered runner log cs /\ forall lerr, live <> Some (Some lerr)) /\
  ((exists o, SeOutcome o ∈ evs /\ Exp_Verdict (Sc_Expects sc) = "approved" /\ Outcome_SignalRef o = Sc_SignalRef sc /\
      Outcome_Result o = ResultSuccess /\ Outcome_ContractRef o = Exp_ContractRef (Sc_Expects sc)) \/
   (exists g, SeHeld g ∈ evs /\ Exp_Verdict (Sc_Expects sc) = "held" /\ Decision_SignalRef (Governed_Decision g) = Sc_SignalRef sc /\
      ContractRefFor (Governed_Set g) (Decision_CandidateRef (Governed_Decision g)) = Exp_ContractRef (Sc_Expects sc)) \/
   (exists det, SeDetection det ∈ evs /\ Exp_Verdict (Sc_Expects sc) = "refused" /\ Detection_Fingerprint det = Sc_SignalRef sc)).
Proof.
  intros Hl Hin. apply LoadScenarios_loaded in Hl. rewrite list.Forall_forall in Hl. by apply hit_earned, Hl.
Qed.

(** A decline can never be graded a hit: a decline carries no contract and a table
    only loads a declined row that expects one, so whatever the rig answers, a firing of a
    scenario that expects a decline is a miss, and when the decline does come it is a
    wrong contract. *)
Theorem declined_rows_never_hit readFile unmarshal path t sc runner live settle startedAt endedAt log i legs evs :
  LoadScenarios readFile unmarshal path = inl t -> sc ∈ Table_Scenarios t -> Exp_Verdict (Sc_Expects sc) = "declined" ->
  Settle legs startedAt (Sc_SignalRef sc) evs = Some settle ->
  let r := row_index (Run runner live settle sc startedAt endedAt log).1.2 i in
  grade r <> hit /\ (Row_Err r = "" -> Row_ActualVerdict r = "declined" -> grade r = wrongContract).
Proof.
  intros Hl Hin Hv Hset r. apply LoadScenarios_loaded in Hl. rewrite list.Forall_forall in Hl. specialize (Hl sc Hin).
  destruct (Run runner live settle sc startedAt endedAt log) as [[log' res] err] eqn:E. cbn in r. split.
  - intros Hg. destruct (hit_earned _ _ _ _ _ _ _ _ _ _ _ _ _ Hl Hset E Hg) as (_ & _ & [(o & _ & Ho & _) | [(g & _ & Hgv & _) | (d & _ & Hd & _)]]); congruence.
  - intros He Ha. assert (Row_ExpectedVerdict r = "declined" /\ Row_ActualContract r = "" /\ Row_ExpectedContract r <> "") as (H1 & H2 & H3).
    { pose proof (ld_contract _ Hl) as Hc. rewrite Hv in Hc. specialize (Hc ltac:(done)).
      assert (err = None) as ->.
      { destruct err as [e |]; [| done]. exfalso. eapply Run_err_text; [| exact E |].
        - intros serr ->. by eapply Settle_err_text.
        - apply Run_spec in E as (_ & _ & _ & _ & Ht). by rewrite <- (Ht e eq_refl). }
      apply Run_spec in E as (did & _ & _ & Hok & _). destruct (Hok eq_refl) as (_ & _ & _ & term & -> & ->). cbn in Ha |- *.
      split; [done |]. split; [| done]. apply Settle_evidence in Hset as [(o & _ & _ & Hver & _) | [(_ & ?) | [(g & _ & _ & Hver & _) | (d & _ & _ & Hver)]]]; congruence. }
    unfold grade, failed. assert (("" =s Row_ExpectedContract r) = false) as E0 by (apply String.eqb_neq; congruence). by rewrite He, Ha, H1, H2, E0.
Qed.

(** The scorecard loses no row: a report [Grade] returns counts every decoded row as
    a trial or as excluded, its hits, its tallies per scenario and per pass and its
    histogram are exactly the counts over those rows, and every row that is not a hit is
    named among the misses with its reason, in order. *)
Theorem scorecard_counts_every_row decode lines scan rpt :
  Grade decode lines scan = inl rpt ->
  let rows := rows_of decode lines in
  Rpt_N rpt + Rpt_HarnessExcluded rpt = Z.of_nat (length rows) /\
  Rpt_Hits rpt = count_rows is_hit rows /\
  Z.of_nat (length (Rpt_Misses rpt)) = Rpt_N rpt - Rpt_Hits rpt + Rpt_HarnessExcluded rpt /\
  (forall s, Rpt_ByScenario rpt !! s = tally_of (fun r => Row_ScenarioName r =s s) rows) /\
  (forall i, Rpt_ByRunIndex rpt !! i = tally_of (fun r => Row_RunIndex r =? i) rows) /\
  (forall g, g <> hit -> default 0 (Rpt_Reasons rpt !! g) = count_rows (fun r => grade r =s g) rows) /\
  Rpt_Misses rpt = map (fun r => miss_of r (grade r)) (List.filter (fun r => negb (is_hit r)) rows).
Proof.
  intros HG rows. assert (report_of rows rpt) as [HN Hh He Hs Hi Hr _ Hm].
  { unfold Grade in HG. destruct (grade_lines decode lines Report_zero) as [rpt' |] eqn:E; [| done]. destruct scan; [done |]. injection HG as ->.
    apply (grade_lines_report decode lines [] Report_zero rpt report_zero E). }
  split; [rewrite HN, He; apply count_rows_split |]. split; [done |]. split; [| done].
  rewrite Hm, length_map, HN, Hh, He. change (Z.of_nat (length (List.filter (fun r => negb (is_hit r)) rows))) with (count_rows (fun r => negb (is_hit r)) rows). pose proof (count_rows_split is_hit rows). pose proof (count_rows_split is_trial rows). lia.
Qed.

(** ** Concrete firings *)

Definition demo_stage : scenarioStage :=
  mkScenarioStage "cart" "otel" "slo_burn:cart" (mkAction "fault.yaml" "kubectl" []) [mkPrecondition "osd" "set 60" "set 600"]
    (mkExpects "service_failure" "cart-rollback" "approved") "10m" (mkAction "fault.yaml" "kubectl-delete" []).

Definition demo_file : scenariosFile := mkScenariosFile 1 "thump-test" [demo_stage].

Definition demo_load (sf : scenariosFile) : result Table := LoadScenarios (fun _ => inl ""%string) (fun _ => inl sf) "chaos/scenarios.yaml".

Definition demo_scenario : Scenario :=
  mkScenario "cart" "otel" "slo_burn:cart" (mkAction "fault.yaml" "kubectl" []) [mkPrecondition "osd" "set 60" "set 600"]
    (mkExpects "service_failure" "cart-rollback" "approved") (10 * Minute) (mkAction "fault.yaml" "kubectl-delete" []).

Definition demo_legs : Legs := mkLegs (Some None) (Some None) (Some None) (Some None) (Some None).

Definition harvest_detection : Detection :=
  mkDetection "cart-burn" "slo_burn:cart" "cart" "tier-1" "slo_burn" (mkDivergence "errors" f1 f0 f1 "") (mkTopologyContext [] [])
    TrafficContext_zero (mkImpact Severity_zero BlastRadius_zero) "" "cart-availability" 5.

Definition harvest_set : ProposalSet :=
  mkSet "p" "slo_burn:cart/99" "slo_burn:cart" "" None "" [] [] [] "" None [] "" None None.

Definition harvest_outcome : Outcome := mkOutcome "o" "dec:1" "slo_burn:cart" "cart-rollback" ModeLive ResultSuccess "" 9 None.

Definition all_succeed (log : list command) (c : command) : option error := None.

Lemma every_firing_restores_witness :
  exists did undo, (Run (fun _ _ => Some (errors_New "exit status 1")) None (inr ErrSettleTimeout) demo_scenario 5 9 []).1.1 = did ++ [undo; sh "set 600"].
Proof.
  destruct (every_firing_restores (fun _ => inl ""%string) (fun _ => inl demo_file) "chaos/scenarios.yaml" (mkTable "thump-test" [demo_scenario]) demo_scenario
    (fun _ _ => Some (errors_New "exit status 1")) None (inr ErrSettleTimeout) 5 9 []) as (fault & undo & did & _ & _ & E & _).
  - vm_compute. reflexivity.
  - left.
  - exists did, undo. exact E.
Defined.

Definition demo_schedule : list settle_event := [SeDetection harvest_detection; SeSet harvest_set; SeOutcome harvest_outcome].

Definition demo_terminal : Terminal :=
  mkTerminal "approved" ResultSuccess "cart-rollback" "dec:1" None "slo_burn:cart/99" f0 f0 false.

Lemma settle_reports_the_first_answer_witness :
  exists pre ev post, demo_schedule = pre ++ ev :: post /\ Forall (fun e => decides "slo_burn:cart" e = false) pre.
Proof.
  destruct (settle_reports_the_first_answer demo_legs 0 "slo_burn:cart" demo_schedule (inl demo_terminal)) as [(what & w & err & _ & E) | (pre & ev & post & E & Hp & _)].
  - vm_compute. reflexivity.
  - discriminate.
  - exists pre, ev, post. exact (conj E Hp).
Defined.

Lemma a_hit_is_earned_witness :
  grade (row_index (Run all_succeed None (inl demo_terminal) demo_scenario 5 9 []).1.2 0) = hit /\
  exists o, SeOutcome o ∈ demo_schedule /\ Outcome_Result o = ResultSuccess.
Proof.
  split; [vm_compute; reflexivity |].
  destruct (a_hit_is_earned (fun _ => inl ""%string) (fun _ => inl demo_file) "chaos/scenarios.yaml" (mkTable "thump-test" [demo_scenario]) demo_scenario
    all_succeed None (inl demo_terminal) 5 9 [] (Run all_succeed None (inl demo_terminal) demo_scenario 5 9 []).1.1
    (Run all_succeed None (inl demo_terminal) demo_scenario 5 9 []).1.2 None 0 demo_legs demo_schedule)
    as (_ & _ & [(o & Ho & _ & _ & Hr & _) | [(g & _ & Hv & _) | (d & _ & Hv & _)]]).
  - vm_compute. reflexivity.
  - left.
  - vm_compute. reflexivity.
  - vm_compute. reflexivity.
  - vm_compute. reflexivity.
  - exists o. exact (conj Ho Hr).
  - discriminate.
  - discriminate.
Defined.

Definition declined_stage : scenarioStage :=
  mkScenarioStage "cart" "otel" "slo_burn:cart" (mkAction "fault.yaml" "kubectl" []) []
    (mkExpects "service_failure" "cart-rollback" "declined") "10m" (mkAction "fault.yaml" "kubectl-delete" []).

Definition declined_scenario : Scenario :=
  mkScenario "cart" "otel" "slo_burn:cart" (mkAction "fault.yaml" "kubectl" []) []
    (mkExpects "service_failure" "cart-rollback" "declined") (10 * Minute) (mkAction "fault.yaml" "kubectl-delete" []).

Definition harvest_decline : Decision :=
  mkDecision "dec:1" "p" "slo_burn:cart" "" "c1" VerdictEscalate [] "" "" "" f0 "v" 6 false "" "".

Lemma declined_rows_never_hit_witness :
  grade (row_index (Run all_succeed None (inl (terminal "declined" "" "" "dec:1" None)) declined_scenario 5 9 []).1.2 0) = wrongContract.
Proof.
  apply (declined_rows_never_hit (fun _ => inl ""%string) (fun _ => inl (mkScenariosFile 1 "thump-test" [declined_stage])) "chaos/scenarios.yaml"
    (mkTable "thump-test" [declined_scenario]) declined_scenario all_succeed None (inl (terminal "declined" "" "" "dec:1" None)) 5 9 [] 0 demo_legs [SeDecline harvest_decline]).
  - vm_compute. reflexivity.
  - left.
  - reflexivity.
  - vm_compute. reflexivity.
  - vm_compute. reflexivity.
  - vm_compute. reflexivity.
Defined.

Definition demo_row : Row := (Run all_succeed None (inl demo_terminal) demo_scenario 5 9 []).1.2.

Lemma scorecard_counts_every_row_witness :
  exists rpt, Grade (fun _ => inl demo_row) ["{}"; ""; "{}"]%string None = inl rpt /\ Rpt_N rpt + Rpt_HarnessExcluded rpt = 2.
Proof.
  destruct (Grade (fun _ => inl demo_row) ["{}"; ""; "{}"]%string None) as [rpt | err] eqn:E; [| discriminate].
  exists rpt. split; [reflexivity |]. apply (scorecard_counts_every_row (fun _ => inl demo_row) ["{}"; ""; "{}"]%string None rpt E).
Defined.

(** the set seen before the detection does not stop the refusal timer *)
Example set_before_detection_is_refused :
  Settle demo_legs 0 "slo_burn:cart" [SeSet harvest_set; SeDetection harvest_detection; SeRefusal] = Some (inl (terminal "refused" "" "" "" None)).
Proof. reflexivity. Qed.

(** a broker found unreachable is a trial that counts when a restore fails too *)
Example unreachable_and_unrestored_counts :
  let runner := fun log c => if decide (c = sh "set 600") then Some (errors_New "exit status 1") else None in
  let '(log, res, err) := Run runner (Some (Some (errors_New "i/o timeout"))) (inr ErrSettleTimeout) demo_scenario 5 9 [] in
  log = [sh "set 60"; ("kubectl", ["delete"; "-f"; "fault.yaml"]); sh "set 600"]%string /\ grade res = restoreFailure.
Proof. vm_compute. done. Qed.
