(* ===== verification/Incident.v ===== *)
(** * internal/incident: the operator's read model

    [Fold] (incident.go), [FoldRecord] (record.go), the [Projection] (projection.go) and
    the replay of the shared stream into one, [SnapshotBroker] (broker.go), and the
    audit text of a record, [Render] (render.go).

    A boundary object is the inductive [obj]; the pointers [FoldRecord] also takes are
    their pointees, a nil one being [ObjOther].  The stream is what the four drains
    return. *)

From stdpp Require Import sorting.
From S2P Require Import Prelude GoTime GoFloat Decimal Strings Api ClankScore.
Local Open Scope Z_scope.

(** ** incident.go *)

Definition StageDetected : string := "detected".
Definition StageProposed : string := "proposed".
Definition StageDecided : string := "decided".
Definition StageApplied : string := "applied".
Definition StageSettled : string := "settled".

Record Incident : Type := mkIncident {
  Inc_Fingerprint : string;
  Inc_Stage : string;
  Inc_Service : string;
  Inc_UpdatedAt : Time;
  Inc_Governed : option Governed;
  Inc_Severity : option float64
}.

Definition Incident_zero : Incident := mkIncident "" "" "" 0 None None.

(** what the beats emit; [ObjOther] is any value of another type *)
Inductive obj : Type :=
| ObjDetection (d : Detection)
| ObjSet (s : ProposalSet)
| ObjGoverned (g : Governed)
| ObjDecision (d : Decision)
| ObjOutcome (o : Outcome)
| ObjOther.

Definition Fold (prior : Incident) (o : obj) : Incident :=
  match o with
  | ObjDetection v =>
      mkIncident (Detection_Fingerprint v) StageDetected (Detection_OriginService v) (Detection_DetectedAt v) (Inc_Governed prior) (Inc_Severity prior)
  | ObjSet v =>
      mkIncident (Set_SignalRef v) StageProposed (Inc_Service prior)
        (match Set_SAOSnapshot v with Some s => SAO_AssembledAt s | None => Inc_UpdatedAt prior end) (Inc_Governed prior) (Inc_Severity prior)
  | ObjGoverned v =>
      mkIncident (Decision_SignalRef (Governed_Decision v)) StageDecided (Inc_Service prior) (Decision_EvaluatedAt (Governed_Decision v)) (Some v) (Inc_Severity prior)
  | ObjOutcome v =>
      mkIncident (Outcome_SignalRef v) (if Outcome_Result v =s ResultApplied then StageApplied else StageSettled) (Inc_Service prior)
        (Outcome_ExecutedAt v) (Inc_Governed prior) (Outcome_ObservedSeverity v)
  | ObjDecision _ | ObjOther => prior
  end.

(** ** record.go: [Record] is a keyword of Rocq *)

Record IncidentRecord : Type := mkIncidentRecord {
  Rec_Incident : Incident;
  Rec_Detected : option Detection;
  Rec_Proposed : option ProposalSet;
  Rec_Decided : option Decision;
  Rec_Settled : list Outcome
}.

Definition Record_zero : IncidentRecord := mkIncidentRecord Incident_zero None None None [].

Definition FoldRecord (prior : IncidentRecord) (o : obj) : IncidentRecord :=
  let inc := Fold (Rec_Incident prior) o in
  match o with
  | ObjDetection v => mkIncidentRecord inc (Some v) (Rec_Proposed prior) (Rec_Decided prior) (Rec_Settled prior)
  | ObjSet v => mkIncidentRecord inc (Rec_Detected prior) (Some v) (Rec_Decided prior) (Rec_Settled prior)
  | ObjGoverned v => mkIncidentRecord inc (Rec_Detected prior) (Rec_Proposed prior) (Some (Governed_Decision v)) (Rec_Settled prior)
  | ObjDecision v => mkIncidentRecord inc (Rec_Detected prior) (Rec_Proposed prior) (Some v) (Rec_Settled prior)
  | ObjOutcome v => mkIncidentRecord inc (Rec_Detected prior) (Rec_Proposed prior) (Rec_Decided prior) (Rec_Settled prior ++ [v])
  | ObjOther => mkIncidentRecord inc (Rec_Detected prior) (Rec_Proposed prior) (Rec_Decided prior) (Rec_Settled prior)
  end.

(** ** projection.go *)

Definition ErrNoFingerprint : error := errors_New "incident: object carries no fingerprint".

Definition fingerprintOf (o : obj) : string * bool :=
  match o with
  | ObjDetection v => (Detection_Fingerprint v, Detection_Fingerprint v <>s "")
  | ObjSet v => (Set_SignalRef v, Set_SignalRef v <>s "")
  | ObjGoverned v => (Decision_SignalRef (Governed_Decision v), Decision_SignalRef (Governed_Decision v) <>s "")
  | ObjOutcome v => (Outcome_SignalRef v, Outcome_SignalRef v <>s "")
  | ObjDecision _ | ObjOther => (""%string, false)
  end.

Abbreviation Projection := (gmap string IncidentRecord).

Definition NewProjection : Projection := ∅.

(** [typ] is the object's Go type, as [%T] prints it *)
Definition Apply (typ : obj -> string) (p : Projection) (o : obj) : Projection * option error :=
  match fingerprintOf o with
  | (_, false) => (p, Some (errorf_w ("incident: apply " +:+ typ o +:+ ": ") ErrNoFingerprint))
  | (fp, true) => (<[fp := FoldRecord (default Record_zero (p !! fp)) o]> p, None)
  end.

Definition Get (p : Projection) (fingerprint : string) : Incident * bool :=
  match p !! fingerprint with Some rec => (Rec_Incident rec, true) | None => (Incident_zero, false) end.

Definition GetRecord (p : Projection) (fingerprint : string) : IncidentRecord * bool :=
  match p !! fingerprint with Some rec => (rec, true) | None => (Record_zero, false) end.

(** in no particular order *)
Definition Snapshot (p : Projection) : list Incident := map (fun kv => Rec_Incident kv.2) (map_to_list p).

(** ** broker.go *)

Fixpoint apply_all (typ : obj -> string) (p : Projection) (evs : list (Time * obj)) : result Projection :=
  match evs with
  | [] => inl p
  | ev :: evs' =>
      match Apply typ p ev.2 with
      | (_, Some err) => inr (errorf_w "incident: snapshot broker: " err)
      | (p', None) => apply_all typ p' evs'
      end
  end.

(** what [DrainSubject] hands over: the objects of a subject with their times, in stream
    order, and the error that may end it *)
Definition drained (A : Type) : Type := (list (Time * A) * option error)%type.

Definition SnapshotBroker `{SortKeyed obj} (typ : obj -> string) (detections : drained Detection) (proposals : drained ProposalSet)
  (decisions : drained Governed) (outcomes : drained Outcome) : result Projection :=
  match detections.2 with
  | Some err => inr (errorf_w "incident: snapshot broker: " err)
  | None =>
  match proposals.2 with
  | Some err => inr (errorf_w "incident: snapshot broker: " err)
  | None =>
  match decisions.2 with
  | Some err => inr (errorf_w "incident: snapshot broker: " err)
  | None =>
  match outcomes.2 with
  | Some err => inr (errorf_w "incident: snapshot broker: " err)
  | None =>
      let events := map (fun e => (e.1, ObjDetection e.2)) detections.1 ++ map (fun e => (e.1, ObjSet e.2)) proposals.1
                    ++ map (fun e => (e.1, ObjGoverned e.2)) decisions.1 ++ map (fun e => (e.1, ObjOutcome e.2)) outcomes.1 in
      apply_all typ NewProjection (sort_keyed events)
  end end end end.

(** ** render.go; [rfc3339] is [t.UTC().Format(time.RFC3339)] *)

Section render.
Context (rfc3339 : Time -> string).

Definition formatTime (t : Time) : string := if IsZero t then "unknown" else rfc3339 t.

Definition padLeft (s : string) : string := if s =s "" then " " else " " +:+ s.

Definition renderDetection (d : option Detection) : string :=
  "=== 1. WHAT FIRED (Detection) ===" +:+ newline +:+
  match d with
  | None => "  No detection recorded on stream." +:+ newline +:+ newline
  | Some d =>
      let dv := Detection_Divergence d in let im := Detection_Impact d in
      "  Fingerprint:   " +:+ Detection_Fingerprint d +:+ newline
      +:+ "  Origin Service:" +:+ padLeft (Detection_OriginService d) +:+ " (Tier: " +:+ Detection_ServiceTier d +:+ ")" +:+ newline
      +:+ "  Detector Type: " +:+ Detection_DetectorType d +:+ newline
      +:+ "  Detected At:   " +:+ formatTime (Detection_DetectedAt d) +:+ newline
      +:+ "  Divergence:" +:+ newline
      +:+ "    Metric:      " +:+ Divergence_Metric dv +:+ newline
      +:+ "    Observed:    " +:+ fmt_f 4 (Divergence_Observed dv) +:+ " (Baseline: " +:+ fmt_f 4 (Divergence_Baseline dv) +:+ ")" +:+ newline
      +:+ "    Confidence:  " +:+ fmt_f 2 (Divergence_Confidence dv) +:+ " (Trajectory: " +:+ Divergence_Trajectory dv +:+ ")" +:+ newline
      +:+ "  Impact:" +:+ newline
      +:+ "    Severity:    Degradation=" +:+ fmt_f 2 (fmul (Severity_DegradationPct (Impact_Severity im)) (of_int 100)) +:+ "% (Trajectory: "
          +:+ Severity_Trajectory (Impact_Severity im) +:+ ")" +:+ newline
      +:+ "    Blast:       Affected=" +:+ fmt_f 2 (fmul (BlastRadius_AffectedPct (Impact_BlastRadius im)) (of_int 100)) +:+ "%, Velocity="
          +:+ BlastRadius_Velocity (Impact_BlastRadius im) +:+ ", Downstream=" +:+ fmt_d (BlastRadius_DownstreamConsumers (Impact_BlastRadius im)) +:+ newline +:+ newline
  end.

Definition evidence_lines (ev : EvidenceRef) : string :=
  "  - [" +:+ EvidenceRef_Key ev +:+ "] tool=" +:+ EvidenceRef_Tool ev +:+ " source=" +:+ (if EvidenceRef_Live ev then "live" else "historical")
  +:+ " subject=" +:+ EvidenceRef_Subject ev +:+ newline
  +:+ (if EvidenceRef_Query ev <>s "" then "    Query:   " +:+ EvidenceRef_Query ev +:+ newline else "")
  +:+ (if EvidenceRef_Summary ev <>s "" then "    Summary: " +:+ EvidenceRef_Summary ev +:+ newline else "")
  +:+ (if EvidenceRef_Ref ev <>s "" then "    Ref:     " +:+ EvidenceRef_Ref ev +:+ newline else "").

Definition renderEvidence (p : option ProposalSet) : string :=
  "=== 2. WHAT IT LOOKED AT (Evidence) ===" +:+ newline +:+
  match match p with Some p => Set_Evidence p | None => [] end with
  | [] => "  No evidence references recorded." +:+ newline +:+ newline
  | evs => String.concat "" (map evidence_lines evs) +:+ newline
  end.

Definition candidate_lines (p : ProposalSet) (c : Candidate) : string :=
  "    Rank " +:+ fmt_d (Candidate_Rank c) +:+ ": " +:+ Candidate_ID c +:+ " (Contract: " +:+ Candidate_ContractRef c +:+ ")"
  +:+ (if Candidate_ID c =s Set_Recommended p then " [RECOMMENDED]" else "") +:+ newline
  +:+ "      Confidence: emitted=" +:+ fmt_f 2 (Candidate_Confidence c) +:+ ", computed=" +:+ fmt_f 2 (Candidate_ComputedConfidence c)
      +:+ " (ceilingBound=" +:+ fmt_t (Candidate_ConfidenceCeilingBound c) +:+ ")" +:+ newline
  +:+ "      Blast Tier: " +:+ Candidate_BlastTier c +:+ newline
  +:+ match Candidate_ReversalPath c with
      | Some r => "      Reversal:   " +:+ (if ReversalPath_Automatic r then "automatic" else "manual") +:+ " (" +:+ ReversalPath_Method r
                    +:+ ", watching: " +:+ ReversalPath_Watching r +:+ ", trigger: " +:+ ReversalPath_Trigger r +:+ ")" +:+ newline
      | None => "      Reversal:   none (irreversible)" +:+ newline
      end
  +:+ match Candidate_Citations c with [] => "" | cs => "      Citations:  " +:+ String.concat ", " cs +:+ newline end.

Definition causal_lines (cs : CausalScore) : string :=
  "    - Event: " +:+ CausalScore_EventID cs +:+ " (inTopology=" +:+ fmt_t (CausalScore_InTopology cs) +:+ ", liveCorroborated="
  +:+ fmt_t (CausalScore_LiveCorroborated cs) +:+ ", likelihood=" +:+ fmt_f 4 (CausalScore_Likelihood cs) +:+ ")" +:+ newline
  +:+ "      Components: temporal=" +:+ fmt_f 4 (CausalScore_Temporal cs) +:+ ", topological=" +:+ fmt_f 4 (CausalScore_Topological cs)
      +:+ ", historical=" +:+ fmt_f 4 (CausalScore_Historical cs) +:+ newline
  +:+ String.concat "" (map (fun rat => "        * " +:+ rat +:+ newline) (CausalScore_Rationale cs)).

Definition renderProposals (p : option ProposalSet) : string :=
  "=== 3. WHAT IT PROPOSED & DECLINED (Ranked Candidates) ===" +:+ newline +:+
  match p with
  | None => "  No proposal set recorded on stream." +:+ newline +:+ newline
  | Some p =>
      (if Set_FailureClass p <>s "" then "  Leading Hypothesis: " +:+ Set_FailureClass p +:+ newline else "")
      +:+ match Set_Hypotheses p with
          | [] => ""
          | hs => "  Competing Hypotheses:" +:+ newline
                  +:+ String.concat "" (map (fun h => "    - " +:+ Hypothesis_Name h +:+ " (weight: " +:+ fmt_f 2 (Hypothesis_Weight h) +:+ ")" +:+ newline) hs)
          end
      +:+ "  Candidates:" +:+ newline +:+ String.concat "" (map (candidate_lines p) (Set_Proposals p))
      +:+ match Set_CausalScores p with [] => "" | cs => "  Causal Scores:" +:+ newline +:+ String.concat "" (map causal_lines cs) end
      +:+ newline
  end.

Definition renderGovernance (d : option Decision) : string :=
  "=== 4. WHAT GOVERNANCE RULED ===" +:+ newline +:+
  match d with
  | None => "  No governance decision recorded on stream." +:+ newline +:+ newline
  | Some d =>
      "  Verdict:        " +:+ Decision_Verdict d +:+ newline
      +:+ "  Reasons:        " +:+ match Decision_Reasons d with [] => "none (approved)" | rs => String.concat ", " rs end +:+ newline
      +:+ "  Risk Band:      " +:+ Decision_RiskBand d +:+ " (Requested: " +:+ Decision_RequestedBand d +:+ ", Granted: " +:+ Decision_GrantedBand d +:+ ")" +:+ newline
      +:+ "  Floor Applied:  " +:+ fmt_f 2 (Decision_FloorApplied d) +:+ newline
      +:+ "  Policy Version: " +:+ Decision_PolicyVersion d +:+ newline
      +:+ "  Evaluated At:   " +:+ formatTime (Decision_EvaluatedAt d) +:+ newline
      +:+ (if Decision_Forced d then "  Forced:         true (Operator: " +:+ Decision_Operator d +:+ ")" +:+ newline else "")
      +:+ (if Decision_Approver d <>s "" then "  Approver:       " +:+ Decision_Approver d +:+ newline else "")
      +:+ newline
  end.

Definition renderOrder (r : IncidentRecord) : string :=
  "=== 5. WHAT RAN ===" +:+ newline +:+
  match Rec_Decided r with
  | Some d =>
      if (Decision_Verdict d <>s VerdictApproved) && negb (Decision_Forced d) then "  No action executed (verdict was not approved)." +:+ newline +:+ newline
      else
        let contractRef := match Rec_Proposed r with Some p => ContractRefFor p (Decision_CandidateRef d) | None => "" end in
        "  Candidate Ref: " +:+ Decision_CandidateRef d +:+ newline
        +:+ (if contractRef <>s "" then "  Contract Ref:  " +:+ contractRef +:+ newline else "") +:+ newline
  | None => "  No action executed (verdict was not approved)." +:+ newline +:+ newline
  end.

Definition metric_name (d : option Detection) : string :=
  match d with
  | Some d => if Detection_SLORef d <>s "" then Detection_SLORef d
              else if Divergence_Metric (Detection_Divergence d) <>s "" then Divergence_Metric (Detection_Divergence d) else "unrecorded"
  | None => "unrecorded"
  end.

Definition outcome_lines (metricName : string) (i : nat) (o : Outcome) : string :=
  let sevStr := match Outcome_ObservedSeverity o with Some x => fmt_f 4 x | None => "unmeasured" end in
  "  Outcome #" +:+ fmt_d (Z.of_nat i + 1) +:+ ":" +:+ newline
  +:+ "    Contract:          " +:+ Outcome_ContractRef o +:+ " (Mode: " +:+ Outcome_Mode o +:+ ")" +:+ newline
  +:+ "    Claimed Result:    " +:+ Outcome_Result o +:+ newline
  +:+ "    Observed Severity: " +:+ sevStr +:+ newline
  +:+ "    Fired SLI Reading: metric=" +:+ metricName +:+ ", postActionSeverity=" +:+ sevStr +:+ newline
  +:+ (if Outcome_Error o <>s "" then "    Error:             " +:+ Outcome_Error o +:+ newline else "")
  +:+ "    Executed At:       " +:+ formatTime (Outcome_ExecutedAt o) +:+ newline.

Definition renderOutcomes (settled : list Outcome) (d : option Detection) : string :=
  "=== 6. WHAT HAPPENED (Outcomes & Fired SLI) ===" +:+ newline +:+
  match settled with
  | [] => "  No execution outcomes recorded on stream." +:+ newline +:+ newline
  | _ => String.concat "" (imap (outcome_lines (metric_name d)) settled) +:+ newline
  end.

Definition rule_line : string := "================================================================================" +:+ newline.

Definition Render (r : IncidentRecord) : string :=
  let inc := Rec_Incident r in
  rule_line
  +:+ "INCIDENT AUDIT RECORD: " +:+ Inc_Fingerprint inc +:+ newline
  +:+ "Service: " +:+ Inc_Service inc +:+ " | Stage: " +:+ Inc_Stage inc +:+ " | Updated: " +:+ formatTime (Inc_UpdatedAt inc) +:+ newline
  +:+ rule_line +:+ newline
  +:+ renderDetection (Rec_Detected r) +:+ renderEvidence (Rec_Proposed r) +:+ renderProposals (Rec_Proposed r)
  +:+ renderGovernance (Rec_Decided r) +:+ renderOrder r +:+ renderOutcomes (Rec_Settled r) (Rec_Detected r).

End render.

(** ** Lemmas *)

Definition fp_of (o : obj) : string := (fingerprintOf o).1.

Definition named (o : obj) : bool := (fingerprintOf o).2.

Definition of_fp (fp : string) (o : obj) : bool := named o && (fp_of o =s fp).

Lemma Apply_named typ p o : named o = true -> Apply typ p o = (<[fp_of o := FoldRecord (default Record_zero (p !! fp_of o)) o]> p, None).
Proof. unfold named, Apply, fp_of. destruct (fingerprintOf o) as [fp []]; done. Qed.

(** the records are folds of their own objects *)
Lemma apply_all_folds typ evs p : Forall (fun ev => named ev.2 = true) evs ->
  exists p', apply_all typ p evs = inl p' /\ forall fp, p' !! fp =
    match List.filter (of_fp fp) (map snd evs) with [] => p !! fp | os => Some (fold_left FoldRecord os (default Record_zero (p !! fp))) end.
Proof.
  intros Hn. revert p. induction Hn as [| ev evs Hev _ IH]; intros p; [by exists p |]. cbn [apply_all map List.filter].
  rewrite (Apply_named typ p _ Hev). destruct (IH (<[fp_of ev.2 := FoldRecord (default Record_zero (p !! fp_of ev.2)) ev.2]> p)) as (p' & E & Hp).
  exists p'. split; [exact E |]. intros fp. rewrite Hp. unfold of_fp at 2. rewrite Hev. cbn [andb].
  destruct (String.eqb_spec (fp_of ev.2) fp) as [<- | Hne].
  - rewrite lookup_insert_eq. cbn [fold_left default from_option]. by destruct (List.filter _ _).
  - by rewrite lookup_insert_ne by done.
Qed.

Definition detection_of (o : obj) : option Detection := match o with ObjDetection d => Some d | _ => None end.
Definition set_of (o : obj) : option ProposalSet := match o with ObjSet s => Some s | _ => None end.
Definition governed_of (o : obj) : option Governed := match o with ObjGoverned g => Some g | _ => None end.
Definition outcome_of (o : obj) : option Outcome := match o with ObjOutcome x => Some x | _ => None end.

Lemma last_snoc_or {A} (l : list A) (x : option A) (d : option A) :
  match list.last (l ++ match x with Some y => [y] | None => [] end) with Some y => Some y | None => d end
  = match x with Some y => Some y | None => match list.last l with Some y => Some y | None => d end end.
Proof. destruct x; [by rewrite last_snoc | by rewrite app_nil_r]. Qed.

(** what a fold of the four boundary types holds *)
Lemma FoldRecord_fields os r : Forall (fun o => named o = true) os ->
  let r' := fold_left FoldRecord os r in
  Rec_Detected r' = match list.last (omap detection_of os) with Some d => Some d | None => Rec_Detected r end /\
  Rec_Proposed r' = match list.last (omap set_of os) with Some d => Some d | None => Rec_Proposed r end /\
  Rec_Decided r' = match list.last (omap governed_of os) with Some g => Some (Governed_Decision g) | None => Rec_Decided r end /\
  Rec_Settled r' = Rec_Settled r ++ omap outcome_of os /\
  Inc_Governed (Rec_Incident r') = match list.last (omap governed_of os) with Some g => Some g | None => Inc_Governed (Rec_Incident r) end /\
  Inc_Severity (Rec_Incident r') = match list.last (omap outcome_of os) with Some o => Outcome_ObservedSeverity o | None => Inc_Severity (Rec_Incident r) end /\
  (os <> [] -> Inc_Fingerprint (Rec_Incident r') = default ""%string (fp_of <$> list.last os)).
Proof.
  cbv zeta. induction os as [| o os IH] using rev_ind; intros Hn; [cbn; by rewrite app_nil_r |].
  apply Forall_app in Hn as [Hn Ho]. apply Forall_cons_iff in Ho as [Ho _]. destruct (IH Hn) as (H1 & H2 & H3 & H4 & H5 & H6 & _).
  rewrite fold_left_app. cbn [fold_left]. set (r1 := fold_left FoldRecord os r) in *. rewrite !omap_app, last_snoc. cbn [fmap option_fmap option_map default from_option].
  destruct o as [d | s | g | d | o |]; cbn in Ho |- *; try done; rewrite ?app_nil_r, ?last_snoc; (repeat split; try done).
  by rewrite H4, app_assoc.
Qed.

(** ** The stream behind the subjects *)

(** what is published on the four subjects *)
Definition on_the_stream (o : obj) : Prop := match o with ObjDecision _ | ObjOther => False | _ => True end.

(** one subject of a history, as it is drained *)
Definition drain {A} (f : obj -> option A) (history : list (Time * obj)) : list (Time * A) :=
  omap (fun ev => pair ev.1 <$> f ev.2) history.

(** the snapshot taken of a history, when the drains of its subjects end with these errors *)
Definition snapshot_of `{SortKeyed obj} (typ : obj -> string) (history : list (Time * obj)) (e1 e2 e3 e4 : option error) : result Projection :=
  SnapshotBroker typ (drain detection_of history, e1) (drain set_of history, e2) (drain governed_of history, e3) (drain outcome_of history, e4).

Definition increasing {A} (l : list (Time * A)) : Prop := StronglySorted (fun a b => a.1 < b.1) l.

(** the objects of a fingerprint, in the order they were published *)
Definition published_for (fp : string) (history : list (Time * obj)) : list obj := List.filter (fun o => fp_of o =s fp) (map snd history).

(** drained subject by subject and put together, a history keeps its events *)
Lemma drained_perm (history : list (Time * obj)) : Forall (fun ev => on_the_stream ev.2) history ->
  map (fun e => (e.1, ObjDetection e.2)) (drain detection_of history) ++ map (fun e => (e.1, ObjSet e.2)) (drain set_of history)
  ++ map (fun e => (e.1, ObjGoverned e.2)) (drain governed_of history) ++ map (fun e => (e.1, ObjOutcome e.2)) (drain outcome_of history)
  ≡ₚ history.
Proof.
  induction 1 as [| [t o] h Ho _ IH]; [done |]. unfold drain in *.
  destruct o; try done; cbn [omap list_omap detection_of set_of governed_of outcome_of fmap option_fmap option_map fst snd map];
    (etransitivity; [| apply Permutation_cons; [reflexivity | exact IH]]); clear.
  all: cbn [app]; try done; rewrite ?(app_assoc (map _ (omap _ _)) (map _ (omap _ _)) (_ :: _)); try rewrite <- Permutation_middle; try done.
  all: rewrite ?app_assoc; try rewrite <- Permutation_middle; by rewrite ?app_assoc.
Qed.

(** the snapshot is the history applied in the order it was published, when every drain ends well *)
Lemma snapshot_applies `{SortKeyed obj} typ history e1 e2 e3 e4 : increasing history -> Forall (fun ev => on_the_stream ev.2) history ->
  snapshot_of typ history e1 e2 e3 e4 =
    match omap id [e1; e2; e3; e4] with
    | err :: _ => inr (errorf_w "incident: snapshot broker: " err)
    | [] => apply_all typ NewProjection history
    end.
Proof.
  intros Hs Hk. unfold snapshot_of, SnapshotBroker. cbn [fst snd]. destruct e1, e2, e3, e4; try done. cbn. f_equal.
  apply sorted_keys_unique; [exact Hs | apply sort_keyed_sorted |]. rewrite sort_keyed_perm. by apply drained_perm.
Qed.

Lemma apply_all_unnamed typ evs p : Exists (fun ev => named ev.2 = false) evs ->
  exists err, apply_all typ p evs = inr err /\ errors_Is err ErrNoFingerprint = true.
Proof.
  induction evs as [| ev evs IH] in p |- *; intros Hx; [by apply Exists_nil in Hx |]. cbn [apply_all]. unfold Apply.
  destruct (fingerprintOf ev.2) as [fp []] eqn:E; [| by eexists].
  apply IH. apply Exists_cons in Hx as [Hx | Hx]; [| done]. unfold named in Hx. by rewrite E in Hx.
Qed.

Lemma all_or_unnamed (evs : list (Time * obj)) : Forall (fun ev => named ev.2 = true) evs \/ Exists (fun ev => named ev.2 = false) evs.
Proof.
  destruct (decide (Forall (fun ev => named ev.2 = true) evs)) as [Hf | Hf]; [by left | right].
  apply not_Forall_Exists in Hf; [| apply _]. eapply Exists_impl; [| exact Hf]. intros ev He. by apply not_true_is_false in He.
Qed.

(** a snapshot that is taken holds, for each fingerprint, the fold of what was published for it *)
Lemma snapshot_folds `{SortKeyed obj} typ history e1 e2 e3 e4 p : increasing history -> Forall (fun ev => on_the_stream ev.2) history ->
  snapshot_of typ history e1 e2 e3 e4 = inl p ->
  Forall (fun ev => named ev.2 = true) history /\
  forall fp, p !! fp = match published_for fp history with [] => None | os => Some (fold_left FoldRecord os Record_zero) end.
Proof.
  intros Hs Hk. rewrite snapshot_applies by done. destruct (omap id _); [| done]. intros Ha.
  destruct (all_or_unnamed history) as [Hn | Hx]; [| destruct (apply_all_unnamed typ history NewProjection Hx) as (err & E & _); congruence].
  split; [done |]. intros fp. destruct (apply_all_folds typ history NewProjection Hn) as (p' & E & Hl). rewrite E in Ha. injection Ha as <-.
  rewrite Hl. unfold NewProjection. rewrite lookup_empty. replace (List.filter (of_fp fp) (map snd history)) with (published_for fp history); [done |].
  unfold published_for. clear -Hn. induction Hn as [| ev evs Hev _ IH]; [done |]. cbn. unfold of_fp at 1. rewrite Hev, IH. done.
Qed.

Lemma published_named fp history : Forall (fun ev => named ev.2 = true) history -> Forall (fun o => named o = true) (published_for fp history).
Proof.
  rewrite !list.Forall_forall. intros Hn o [(ev & -> & Hin)%list_elem_of_fmap _]%elem_of_filterb. by apply Hn.
Qed.

(** the stage an object moves its incident to *)
Definition stage_after (o : obj) : string :=
  match o with
  | ObjDetection _ => StageDetected
  | ObjSet _ => StageProposed
  | ObjGoverned _ => StageDecided
  | ObjOutcome v => if Outcome_Result v =s ResultApplied then StageApplied else StageSettled
  | _ => ""
  end.

Lemma FoldRecord_stage os : Forall (fun o => named o = true) os ->
  Inc_Stage (Rec_Incident (fold_left FoldRecord os Record_zero)) = default ""%string (stage_after <$> list.last os).
Proof.
  intros Hn. induction os as [| o os _] using rev_ind; [done |]. apply Forall_app in Hn as [_ Ho]. apply Forall_cons_iff in Ho as [Ho _].
  rewrite fold_left_app, last_snoc. by destruct o.
Qed.

(** ** Claims *)

(** C21. The read model is the stream. Take the objects of the four subjects with the times
    they were published at, no two at the same time. When the drain of a subject fails, or an
    object bears no fingerprint, there is no snapshot but an error. Otherwise the record of a
    fingerprint is what was published for it, folded across the four subjects in the order it
    was published: its stage is that of the last object, whatever subject that was on; it holds
    the last detection, the last set, the last decision and every outcome, in order; its status
    line carries the last governed decision and the severity of the last outcome; and it exists
    exactly when something was published for it. *)
Theorem snapshot_is_the_stream `{SortKeyed obj} typ (history : list (Time * obj)) e1 e2 e3 e4 :
  increasing history -> Forall (fun ev => on_the_stream ev.2) history ->
  match omap id [e1; e2; e3; e4] with
  | err :: _ => snapshot_of typ history e1 e2 e3 e4 = inr (errorf_w "incident: snapshot broker: " err)
  | [] =>
      (Exists (fun ev => named ev.2 = false) history /\
       exists err, snapshot_of typ history e1 e2 e3 e4 = inr err /\ errors_Is err ErrNoFingerprint = true) \/
      (Forall (fun ev => named ev.2 = true) history /\
       exists p, snapshot_of typ history e1 e2 e3 e4 = inl p /\
       forall fp, let os := published_for fp history in let r := (GetRecord p fp).1 in
         r = fold_left FoldRecord os Record_zero /\ ((GetRecord p fp).2 = true <-> os <> []) /\
         Inc_Stage (Rec_Incident r) = default ""%string (stage_after <$> list.last os) /\
         Rec_Detected r = list.last (omap detection_of os) /\
         Rec_Proposed r = list.last (omap set_of os) /\
         Rec_Decided r = Governed_Decision <$> list.last (omap governed_of os) /\
         Rec_Settled r = omap outcome_of os /\
         Inc_Governed (Rec_Incident r) = list.last (omap governed_of os) /\
         Inc_Severity (Rec_Incident r) = list.last (omap outcome_of os) ≫= Outcome_ObservedSeverity)
  end.
Proof.
  intros Hs Hk. pose proof (snapshot_applies typ history e1 e2 e3 e4 Hs Hk) as E. destruct (omap id _); [| exact E].
  destruct (all_or_unnamed history) as [Hn | Hx]; [right | left; split; [done |]; rewrite E; by apply apply_all_unnamed].
  split; [done |]. destruct (apply_all_folds typ history NewProjection Hn) as (p & Ep & _). rewrite Ep in E. exists p. split; [exact E |].
  destruct (snapshot_folds typ history e1 e2 e3 e4 p Hs Hk E) as [_ Hl]. intros fp. cbv zeta.
  pose proof (published_named fp history Hn) as Hos. specialize (Hl fp). set (os := published_for fp history) in *.
  pose proof (FoldRecord_fields os Record_zero Hos) as (F1 & F2 & F3 & F4 & F5 & F6 & _).
  assert (GetRecord p fp = (fold_left FoldRecord os Record_zero, match os with [] => false | _ => true end)) as -> by (unfold GetRecord; rewrite Hl; by destruct os).
  cbn [fst snd]. rewrite F1, F2, F3, F4, F5, F6, (FoldRecord_stage os Hos). split; [done |]. split; [by destruct os |]. repeat split.
  - by destruct (list.last (omap detection_of os)).
  - by destruct (list.last (omap set_of os)).
  - by destruct (list.last (omap governed_of os)).
Qed.

(** *** The claim at work *)

Definition inc_outcome (id : string) (r : Result) (at_ : Time) : Outcome :=
  mkOutcome id "dec:1" "slo_burn:cart" "cart-rollback" ModeLive r "" at_ (Some f1).

Definition inc_detection : Detection :=
  mkDetection "cart-burn" "slo_burn:cart" "cart" "tier-1" "slo_burn" (mkDivergence "errors" f1 f0 f1 "") (mkTopologyContext [] []) TrafficContext_zero
    (mkImpact Severity_zero BlastRadius_zero) "" "cart-availability" 11.

Definition inc_outcomes : list (Time * Outcome) :=
  [(5, inc_outcome "a" ResultApplied 5); (9, inc_outcome "b" ResultSuccess 9)].

(** the outcome that settled it was published before it fired again *)
Definition inc_history : list (Time * obj) :=
  [(5, ObjOutcome (inc_outcome "a" ResultApplied 5)); (9, ObjOutcome (inc_outcome "b" ResultSuccess 9)); (11, ObjDetection inc_detection)].

Lemma snapshot_is_the_stream_witness : exists p,
  SnapshotBroker (fun _ => "outcome.Outcome") ([(11, inc_detection)], None) ([], None) ([], None) (inc_outcomes, None) = inl p /\
  Rec_Settled (GetRecord p "slo_burn:cart").1 = map snd inc_outcomes /\ Inc_Stage (Rec_Incident (GetRecord p "slo_burn:cart").1) = StageDetected.
Proof.
  assert (increasing inc_history) as Ho by (repeat constructor; cbn; lia).
  assert (Forall (fun ev => on_the_stream ev.2) inc_history) as Hk by repeat constructor.
  pose proof (snapshot_is_the_stream (fun _ => "outcome.Outcome") inc_history None None None None Ho Hk) as HS.
  destruct HS as [[Hx _] | [_ (p & E & Hp)]].
  - exfalso. repeat (apply Exists_cons in Hx as [Hx | Hx]; [discriminate Hx |]). by apply Exists_nil in Hx.
  - exists p. split; [exact E |]. destruct (Hp "slo_burn:cart") as (_ & _ & Hst & _ & _ & _ & Hs & _). rewrite Hs, Hst. split; reflexivity.
Defined.

(** record.go says [Settled] holds "every terminal Outcome": an acknowledgement that the
    order was applied, which is not terminal, is appended like the rest. *)
Example applied_ack_is_settled :
  map Outcome_Result (Rec_Settled (fold_left FoldRecord (map (fun ev => ObjOutcome ev.2) inc_outcomes) Record_zero)) = [ResultApplied; ResultSuccess].
Proof. reflexivity. Qed.

(** "WHAT RAN" is read off the decision: an approved candidate whose only outcome says it
    was blocked is listed as what ran. *)
Example blocked_order_is_listed_as_run :
  let d := mkDecision "dec:1" "prop:1" "slo_burn:cart" "" "cand-1" VerdictApproved [] BandObserve BandObserve BandObserve f1 "v1" 7 false "" "" in
  let r := mkIncidentRecord Incident_zero None None (Some d) [inc_outcome "a" ResultBlocked 9] in
  renderOrder r = "=== 5. WHAT RAN ===" +:+ newline +:+ "  Candidate Ref: cand-1" +:+ newline +:+ newline.
Proof. reflexivity. Qed.
