(* ===== verification/Calipers.v ===== *)
(** * internal/calipers: the operator's commands

    The verbs [incidents], [approve] and [force] (calipers.go), the disk transport they
    read from (transport.go) and the text of an incident (render.go).  The other verbs are
    the packages' own entry points, a parameter of [Main].  Flag parsing is a parameter;
    [Op] is what the commands write to: the broker and the outbox. *)

From stdpp Require Import sorting.
From S2P Require Import Prelude Effects GoTime GoFloat Decimal Strings Api Ledger Contract Publish Hiss HissTransport ThumpExec Inbox ClankScore Incident.
Local Open Scope Z_scope.
Local Open Scope io_scope.

(** ** transport.go *)

(** the four subdirectories of [Transport.Inbox] *)
Inductive subdir : Type := Detections | Proposals | Decisions | Outcomes.

#[export] Instance subdir_eq_dec : EqDecision subdir.
Proof. solve_decision. Defined.

Definition dir_name (d : subdir) : string :=
  match d with Detections => "detections" | Proposals => "proposals" | Decisions => "decisions" | Outcomes => "outcomes" end.

Definition Disk : Type := subdir -> Inbox.

(** one YAML decoder per type, as objects of the projection *)
Record Decoders : Type := mkDecoders { decode_in : subdir -> string -> result obj }.

(** [os.MkdirAll] and [os.Rename] *)
Definition relocate (name sub : string) : Effects.IO Inbox unit := sys (fun ib => (ib, inl tt)) ;;~ Rename name sub.
Definition quarantine (name : string) : Effects.IO Inbox unit := relocate name "quarantine".
Definition archive (name : string) : Effects.IO Inbox unit := relocate name "processed".

Section transport.
Context (typ : obj -> string) (dec : Decoders) (inbox : string).

(** [filepath.Join(tr.Inbox, dir)] *)
Definition root (d : subdir) : string := inbox +:+ "/" +:+ dir_name d.

(** [tr.Proj.Apply(v)] *)
Definition apply_proj (o : obj) : Effects.IO (gmap string IncidentRecord * Inbox) (option error) :=
  fun '(p, ib) => let '(p', err) := Apply typ p o in ((p', ib), inl err).

Definition tick_path (d : subdir) (name : string) : Effects.IO (gmap string IncidentRecord * Inbox) unit :=
  let p := path (root d) name in
  raw <~ wrapping ("calipers: read " +:+ p +:+ ": ") (on_snd (ReadFile name)) ;;
  match decode_in dec d raw with
  | inr _ => wrapping ("calipers: quarantine " +:+ p +:+ ": ") (on_snd (quarantine name))
  | inl v =>
      err <~ apply_proj v ;;
      match err with
      | Some _ => wrapping ("calipers: quarantine " +:+ p +:+ ": ") (on_snd (quarantine name))
      | None => wrapping ("calipers: archive " +:+ p +:+ ": ") (on_snd (archive name))
      end
  end.

Fixpoint tick_paths (d : subdir) (matches : list string) : Effects.IO (gmap string IncidentRecord * Inbox) unit :=
  match matches with
  | [] => ret tt
  | name :: rest => tick_path d name ;;~ tick_paths d rest
  end.

Definition tickDir (d : subdir) : Effects.IO (gmap string IncidentRecord * Inbox) unit :=
  matches <~ wrapping ("calipers: list " +:+ root d +:+ ": ") (on_snd Glob) ;;
  tick_paths d matches.

Definition set_dir (d : subdir) (ib : Inbox) (disk : Disk) : Disk := fun d' => if decide (d' = d) then ib else disk d'.

(** a step on one subdirectory of the disk *)
Definition at_dir (d : subdir) (m : Effects.IO (gmap string IncidentRecord * Inbox) unit) : Effects.IO (gmap string IncidentRecord * Disk) unit :=
  fun '(p, disk) =>
    let '((p', ib), r) := m (p, disk d) in
    ((p', set_dir d ib disk), r).

(** [Transport.Tick] *)
Definition Tick (ctx : context) : Effects.IO (gmap string IncidentRecord * Disk) unit :=
  with_ctx ctx
    (at_dir Detections (tickDir Detections) ;;~ at_dir Proposals (tickDir Proposals) ;;~
     at_dir Decisions (tickDir Decisions) ;;~ at_dir Outcomes (tickDir Outcomes)).

(** the two patterns of a snapshot: the directory, or its [processed] subdirectory *)
Definition glob_in (processed : bool) : Effects.IO Inbox (list string) :=
  if processed then
    sys (fun ib => (ib, inl (merge_sort name_le (omap (fun k => if (k.1.1 =s "processed") && is_yaml k.1.2 then Some k.1.2 else None) (map_to_list (in_filed ib))))))
  else Glob.

Definition read_in (processed : bool) (name : string) : Effects.IO Inbox string :=
  if processed then sys (fun ib => (ib, match in_filed ib !! ("processed"%string, name) with Some raw => inl raw | None => inr ErrNotExist end))
  else ReadFile name.

Definition pattern_root (d : subdir) (processed : bool) : string := if processed then root d +:+ "/processed" else root d.

(** what a file adds to a snapshot: nothing unless it decodes and applies *)
Definition absorb (p : gmap string IncidentRecord) (r : result obj) : gmap string IncidentRecord :=
  match r with
  | inr _ => p
  | inl v => match Apply typ p v with (p', None) => p' | (_, Some _) => p end
  end.

Fixpoint snapshot_paths (d : subdir) (processed : bool) (matches : list string) (p : gmap string IncidentRecord) : Effects.IO Inbox (gmap string IncidentRecord) :=
  match matches with
  | [] => ret p
  | name :: rest =>
      raw <~ wrapping ("calipers: read " +:+ path (pattern_root d processed) name +:+ ": ") (read_in processed name) ;;
      snapshot_paths d processed rest (absorb p (decode_in dec d raw))
  end.

Definition snapshot_pattern (d : subdir) (processed : bool) (p : gmap string IncidentRecord) : Effects.IO Inbox (gmap string IncidentRecord) :=
  matches <~ wrapping ("calipers: list " +:+ path (pattern_root d processed) "*.yaml" +:+ ": ") (glob_in processed) ;;
  snapshot_paths d processed matches p.

Definition snapshotDir (d : subdir) (p : gmap string IncidentRecord) : Effects.IO Inbox (gmap string IncidentRecord) :=
  p1 <~ snapshot_pattern d false p ;; snapshot_pattern d true p1.

(** the directories of a disk in turn; the disk is only read *)
Fixpoint snapshot_dirs (ds : list subdir) (p : gmap string IncidentRecord) (disk : Disk) : result (gmap string IncidentRecord) :=
  match ds with
  | [] => inl p
  | d :: ds' =>
      match (snapshotDir d p (disk d)).2 with
      | inr e => inr e
      | inl p' => snapshot_dirs ds' p' disk
      end
  end.

(** [Transport.Snapshot] *)
Definition Snapshot (ctx : context) (disk : Disk) : result (gmap string IncidentRecord) :=
  match ctx_Err ctx with
  | Some e => inr e
  | None => snapshot_dirs [Detections; Proposals; Decisions; Outcomes] NewProjection disk
  end.

End transport.

(** ** render.go *)

Section render.
Context (rfc3339 : Time -> string).
(** the terminal styles *)
Context (dimStyle dangerStyle : string -> string).

Definition governed_awaits (g : Governed) : bool := AwaitsApproval (Decision_Verdict (Governed_Decision g)).

Definition renderIncident (inc : Incident) (now : Time) : string :=
  Inc_Fingerprint inc +:+ "  " +:+ Inc_Service inc +:+ "  " +:+ Inc_Stage inc +:+ "  severity="
  +:+ match Inc_Severity inc with None => dimStyle "unmeasured" | Some v => fmt_f 2 v end
  +:+ match Inc_Governed inc with
      | Some g => if governed_awaits g then " held " +:+ Duration_String (Sub now (Inc_UpdatedAt inc)) else ""
      | None => ""
      end
  +:+ match Inc_Governed inc with
      | Some g =>
          let d := Governed_Decision g in
          if Decision_Forced d then " " +:+ dangerStyle "FORCED" +:+ " by " +:+ Decision_Operator d
          else if Decision_Approver d <>s "" then " approved by " +:+ Decision_Approver d
          else ""
      | None => ""
      end.

Definition renderIncidents (incidents : list Incident) (now : Time) : string :=
  strings_Join (map (fun inc => renderIncident inc now) incidents) newline.

(** [%-30s]: the padding counts characters; for ASCII text those are its bytes *)
Definition proposal_line (recommended : string) (c : Candidate) : string :=
  (if Candidate_ID c =s recommended then "* " else "  ") +:+ "#" +:+ fmt_d (Candidate_Rank c) +:+ "  " +:+ pad_right 30 (Candidate_ContractRef c)
  +:+ " confidence=" +:+ fmt_f 2 (Candidate_Confidence c) +:+ " computed=" +:+ fmt_f 2 (Candidate_ComputedConfidence c)
  +:+ " ceiling-bound=" +:+ fmt_t (Candidate_ConfidenceCeilingBound c) +:+ newline.

Definition renderIncidentDetail (inc : Incident) (now : Time) : string :=
  "Fingerprint:  " +:+ Inc_Fingerprint inc +:+ newline
  +:+ "Service:      " +:+ Inc_Service inc +:+ newline
  +:+ "Stage:        " +:+ Inc_Stage inc +:+ newline
  +:+ "Updated:      " +:+ rfc3339 (Inc_UpdatedAt inc) +:+ " (" +:+ Duration_String (Sub now (Inc_UpdatedAt inc)) +:+ " ago)" +:+ newline
  +:+ "Severity:     " +:+ match Inc_Severity inc with Some v => fmt_f 2 v | None => dimStyle "unmeasured" end +:+ newline
  +:+ match Inc_Governed inc with
      | None => newline +:+ "No decision recorded yet." +:+ newline
      | Some g =>
          let d := Governed_Decision g in
          let set := Governed_Set g in
          newline +:+ "Verdict:      " +:+ Decision_Verdict d +:+ newline
          +:+ (if Decision_Forced d then "              " +:+ dangerStyle "FORCED" +:+ " by " +:+ Decision_Operator d +:+ newline
               else if Decision_Approver d <>s "" then "              approved by " +:+ Decision_Approver d +:+ newline
               else "")
          +:+ match Decision_Reasons d with [] => "" | rs => "Reasons:      " +:+ strings_Join rs ", " +:+ newline end
          +:+ newline +:+ "Proposals (" +:+ fmt_d (Z.of_nat (length (Set_Proposals set))) +:+ "), recommended=" +:+ Set_Recommended set +:+ ":" +:+ newline
          +:+ String.concat "" (map (proposal_line (Set_Recommended set)) (Set_Proposals set))
      end.

End render.

(** ** calipers.go *)

Definition shiftPositional (args : list string) : option (string * list string) :=
  match args with
  | [] => None
  | a :: rest => if String.prefix "-" a then None else Some (a, rest)
  end.

(** what a verb leaves behind besides its publishes *)
Record Exit : Type := mkExit { Exit_code : Z; Exit_stdout : string; Exit_stderr : string }.

Definition exit_err (code : Z) (line : string) : Exit := mkExit code "" (line +:+ newline).

Definition complain_exit (e : error) : Exit := exit_err 1 ("calipers: " +:+ err_text e).

(** the flags a verb reads, once parsed; [Fl_NArg] is what parsing left over *)
Record Flags : Type := mkFlags {
  Fl_who : string;
  Fl_inbox : string;
  Fl_outbox : string;
  Fl_natsURL : string;
  Fl_json : bool;
  Fl_render : string;
  Fl_NArg : Z
}.

Definition approve_usage : string :=
  "usage: calipers approve <fingerprint> [--approver name] [--outbox dir] [--nats-url url] [--tls-cert path --tls-key path --tls-ca path --server-name name]".
Definition force_usage : string :=
  "usage: calipers force <fingerprint> [--operator name] [--inbox dir] [--outbox dir] [--nats-url url] [--tls-cert path --tls-key path --tls-ca path --server-name name]".

Section operator.
Context {W : Type} `{Publisher W Approval} `{Publisher W Governed}.
(** [broker.Connect]: its error *)
Context (connect : string -> option error).
(** a fault of parsing prints its own message *)
Context (parse : list string -> option Flags).

Definition Op : Type := (W * OutDir)%type.

Definition error_of {A} (r : result A) : option error := match r with inl _ => None | inr e => Some e end.

(** [now] is the clock the directory publisher reads *)
Definition operatorPublisher {T} `{Publisher W T} (natsURL outbox : string) (name : T -> string) (marshal : T -> result string) (now : Time)
  : result (string -> T -> Op -> Op * option error) :=
  if natsURL =s "" then
    inl (fun subject obj '(w, d) => let '(d', r) := DirPublisher_Publish outbox (Some name) marshal now subject obj d in ((w, d'), error_of r))
  else
    match connect natsURL with
    | Some err => inr (errorf_w ("connect " +:+ natsURL +:+ ": ") err)
    | None => inl (fun subject obj '(w, d) => let '(w', e) := publish subject obj w in ((w', d), e))
    end.

(** [disk] and [stream] are the two read backends *)
Definition operatorProjection (disk : string -> result (gmap string IncidentRecord)) (stream : result (gmap string IncidentRecord)) (natsURL inbox : string)
  : result (gmap string IncidentRecord) :=
  if natsURL =s "" then disk inbox
  else
    match connect natsURL with
    | Some err => inr (errorf_w ("connect " +:+ natsURL +:+ ": ") err)
    | None => match stream with inr err => inr (errorf_w "snapshot broker: " err) | inl p => inl p end
    end.

(** [now] is the approval's clock, [now'] the publisher's *)
Definition runApprove (marshal : Approval -> result string) (args : list string) (now now' : Time) (op : Op) : Op * Exit :=
  match shiftPositional args with
  | None => (op, exit_err 2 approve_usage)
  | Some (fp, rest) =>
      match parse rest with
      | None => (op, mkExit 2 "" "")
      | Some fl =>
          if negb (Fl_NArg fl =? 0) then (op, exit_err 2 approve_usage)
          else
            let a := mkApproval fp (Fl_who fl) now "" in
            match Approval_Auditable a with
            | Some err => (op, complain_exit err)
            | None =>
                match operatorPublisher (Fl_natsURL fl) (Fl_outbox fl) Approval_SignalRef marshal now' with
                | inr err => (op, complain_exit err)
                | inl pub =>
                    let '(op', err) := pub "thump.approvals"%string a op in
                    match err with
                    | Some err => (op', complain_exit err)
                    | None => (op', mkExit 0 ("approved " +:+ fp +:+ " as " +:+ Approval_Approver a) "")
                    end
                end
            end
      end
  end.

(** the decision [force] publishes in place of the held one *)
Definition forced (fp operator : string) (now1 now2 : Time) (g : Governed) : Governed :=
  let d := Governed_Decision g in
  mkGoverned
    (mkDecision ("dec:" +:+ fp +:+ ":force:" +:+ fmt_d (Unix now1)) (Decision_ProposalRef d) (Decision_SignalRef d) (Decision_SLORef d) (Decision_CandidateRef d)
       VerdictApproved [] (Decision_RequestedBand d) (Decision_RequestedBand d) (Decision_RiskBand d) (Decision_FloorApplied d) (Decision_PolicyVersion d)
       now2 true operator (Decision_Approver d))
    (Governed_Set g).

(** [now1] and [now2] are the two clock reads of the decision, [now'] the publisher's *)
Definition runForce (project : string -> string -> result (gmap string IncidentRecord)) (marshal : Governed -> result string)
  (args : list string) (now1 now2 now' : Time) (op : Op) : Op * Exit :=
  match shiftPositional args with
  | None => (op, exit_err 2 force_usage)
  | Some (fp, rest) =>
      match parse rest with
      | None => (op, mkExit 2 "" "")
      | Some fl =>
          if negb (Fl_NArg fl =? 0) then (op, exit_err 2 force_usage)
          else
            match project (Fl_natsURL fl) (Fl_inbox fl) with
            | inr err => (op, complain_exit err)
            | inl proj =>
                let refuse := (op, exit_err 1 ("calipers: " +:+ fp +:+ " is not currently held — nothing to force")) in
                match Get proj fp with
                | (_, false) => refuse
                | (inc, true) =>
                    match Inc_Governed inc with
                    | None => refuse
                    | Some held =>
                        if negb (governed_awaits held) then refuse
                        else
                          let g := forced fp (Fl_who fl) now1 now2 held in
                          match Decision_Auditable (Governed_Decision g) with
                          | Some err => (op, complain_exit err)
                          | None =>
                              match operatorPublisher (Fl_natsURL fl) (Fl_outbox fl) (fun g => Decision_SignalRef (Governed_Decision g)) marshal now' with
                              | inr err => (op, complain_exit err)
                              | inl pub =>
                                  let '(op', err) := pub "thump.decisions"%string g op in
                                  match err with
                                  | Some err => (op', complain_exit err)
                                  | None => (op', mkExit 0 ("FORCED " +:+ fp +:+ " by " +:+ Fl_who fl +:+ " — bypassed hiss's risk gate" +:+ newline) "")
                                  end
                              end
                          end
                    end
                end
            end
      end
  end.

End operator.

(** [audit] is [incident.Render], [encode] the JSON of the incidents *)
Definition runIncidents (parse : list string -> option Flags) (project : string -> string -> result (gmap string IncidentRecord))
  (audit : IncidentRecord -> string) (encode : list Incident -> result string) (rfc3339 : Time -> string) (dim danger : string -> string)
  (args : list string) (now : Time) : Exit :=
  let '(fp, rest) := match shiftPositional args with Some (f, r) => (f, r) | None => (""%string, args) end in
  match parse rest with
  | None => mkExit 2 "" ""
  | Some fl =>
      match project (Fl_natsURL fl) (Fl_inbox fl) with
      | inr err => complain_exit err
      | inl proj =>
          if Fl_render fl <>s "" then
            match GetRecord proj (Fl_render fl) with
            | (_, false) => exit_err 1 ("calipers: no incident at fingerprint " +:+ Fl_render fl)
            | (rec, true) => mkExit 0 (audit rec) ""
            end
          else if fp <>s "" then
            match Get proj fp with
            | (_, false) => exit_err 1 ("calipers: no incident at fingerprint " +:+ fp)
            | (inc, true) => mkExit 0 (renderIncidentDetail rfc3339 dim danger inc now +:+ newline) ""
            end
          else if Fl_json fl then
            match encode (Incident.Snapshot proj) with
            | inr err => complain_exit err
            | inl s => mkExit 0 s ""
            end
          else mkExit 0 (renderIncidents dim danger (Incident.Snapshot proj) now +:+ newline) ""
      end
  end.

Definition topUsage : string :=
  "usage: calipers <incidents|approve|force|unseal|corpus|rca|tune|replay|harvest|probe|transcript|scorecard|validate> [flags]".

Definition verbs : list string :=
  ["incidents"; "approve"; "force"; "unseal"; "corpus"; "rca"; "tune"; "replay"; "harvest"; "probe"; "transcript"; "scorecard"; "validate"]%string.

Definition Main {S} (run : string -> list string -> S -> S * Exit) (args : list string) (s : S) : S * Exit :=
  match args with
  | verb :: rest => if existsb (String.eqb verb) verbs then run verb rest s else (s, exit_err 2 topUsage)
  | [] => (s, exit_err 2 topUsage)
  end.

(** ** Lemmas: a pass of [Tick] *)

Section tick_lemmas.
Context (typ : obj -> string) (dec : Decoders) (inbox : string).

(** whether a file is archived: it decodes to an object with a fingerprint *)
Definition applies (d : subdir) (raw : string) : bool :=
  match decode_in dec d raw with inl o => (fingerprintOf o).2 | inr _ => false end.

Definition sub_of (d : subdir) (raw : string) : string := if applies d raw then "processed" else "quarantine".

Definition absorb_file (d : subdir) (files : gmap string string) (p : gmap string IncidentRecord) (n : string) : gmap string IncidentRecord :=
  match files !! n with Some raw => absorb typ p (decode_in dec d raw) | None => p end.

Lemma absorb_not d raw p : applies d raw = false -> absorb typ p (decode_in dec d raw) = p.
Proof.
  unfold applies, absorb, Apply. destruct (decode_in dec d raw) as [o | e]; [| done]. by destruct (fingerprintOf o) as [fp []].
Qed.

Lemma tick_path_quiet d name raw p ib :
  quiet ib -> in_files ib !! name = Some raw ->
  tick_path typ dec inbox d name (p, ib) = ((absorb typ p (decode_in dec d raw), file_away name (sub_of d raw) raw ib), inl tt).
Proof.
  intros Hq Hl. unfold tick_path, sub_of, applies, quarantine, archive.
  assert (forall sub, relocate name sub ib = (file_away name sub raw ib, inl tt)) as Hr by (intros sub; exact (Disposition_quiet name sub raw ib Hq Hl)).
  cbv zeta. erewrite bind_eq; [| unfold wrapping, on_snd; by rewrite (ReadFile_quiet _ raw) by done].
  destruct (decode_in dec d raw) as [o | e]; cbn [absorb].
  - unfold apply_proj, bind, Apply. destruct (fingerprintOf o) as [fp []]; cbn; unfold wrapping, on_snd; by rewrite Hr.
  - unfold wrapping, on_snd. by rewrite Hr.
Qed.

(** what a pass over the files [l] makes of a directory *)
Definition filed_after (d : subdir) (l : list string) (ib ib' : Inbox) : Prop :=
  quiet ib' /\
  (forall n, n ∈ l -> in_files ib' !! n = None /\ exists raw, in_files ib !! n = Some raw /\ forall sub, in_filed ib' !! (sub, n) =
     if sub =s sub_of d raw then Some raw else in_filed ib !! (sub, n)) /\
  (forall n, n ∉ l -> in_files ib' !! n = in_files ib !! n /\ forall sub, in_filed ib' !! (sub, n) = in_filed ib !! (sub, n)).

Lemma tick_paths_quiet d l p ib (files : gmap string string) :
  NoDup l -> quiet ib -> (forall n, n ∈ l -> is_Some (files !! n) /\ in_files ib !! n = files !! n) ->
  exists ib', tick_paths typ dec inbox d l (p, ib) = ((fold_left (absorb_file d files) l p, ib'), inl tt) /\ filed_after d l ib ib'.
Proof.
  revert p ib. induction l as [| name l IH]; intros p ib Hnd Hq Hl.
  { exists ib. split; [done |]. split; [done |]. split; [intros n Hn; by apply not_elem_of_nil in Hn | by split]. }
  apply list.NoDup_cons in Hnd as [Hni Hnd]. destruct (Hl name ltac:(by left)) as [[raw Hraw] Hib]. rewrite Hraw in Hib.
  set (ib1 := file_away name (sub_of d raw) raw ib).
  destruct (IH (absorb typ p (decode_in dec d raw)) ib1 Hnd Hq) as (ib' & E & Hq' & Hin & Hout).
  { intros n Hn. destruct (Hl n ltac:(by right)) as [Hs Hf]. split; [exact Hs |]. cbn. rewrite lookup_delete_ne; [exact Hf |]. by intros ->. }
  exists ib'. split.
  { cbn [tick_paths fold_left]. erewrite bind_eq; [| by apply tick_path_quiet]. cbv beta. fold ib1. rewrite E. unfold absorb_file. by rewrite Hraw. }
  split; [done |]. split.
  - intros n [-> | Hn]%elem_of_cons.
    + destruct (Hout name Hni) as [-> Ho]. cbn. rewrite lookup_delete_eq. split; [done |]. exists raw. split; [done |]. intros sub. rewrite Ho. cbn.
      destruct (String.eqb_spec sub (sub_of d raw)) as [-> | Hne]; [apply lookup_insert_eq | apply lookup_insert_ne; congruence].
    + destruct (Hin n Hn) as (H1 & raw' & H2 & H3). assert (name <> n) as Hne by (by intros ->). split; [done |]. exists raw'. cbn in H2.
      rewrite lookup_delete_ne in H2 by done. split; [done |]. intros sub. rewrite H3. cbn. rewrite lookup_insert_ne by congruence. done.
  - intros n [Hne Hn]%not_elem_of_cons. destruct (Hout n Hn) as [-> Ho]. cbn. rewrite lookup_delete_ne by done. split; [done |].
    intros sub. rewrite Ho. cbn. by rewrite lookup_insert_ne by congruence.
Qed.

Lemma tickDir_quiet d p ib : quiet ib ->
  exists ib', tickDir typ dec inbox d (p, ib) = ((fold_left (absorb_file d (in_files ib)) (matches_of (in_files ib)) p, ib'), inl tt) /\
    filed_after d (matches_of (in_files ib)) ib ib'.
Proof.
  intros Hq. destruct (tick_paths_quiet d (matches_of (in_files ib)) p ib (in_files ib) (matches_NoDup _) Hq) as (ib' & E & Hf).
  { intros n [_ ?]%elem_of_matches. by split. }
  exists ib'. split; [| done]. unfold tickDir. erewrite bind_eq; [exact E |]. unfold wrapping, on_snd. by rewrite (Glob_quiet ib Hq).
Qed.

(** *** The snapshot of a directory *)

Lemma snapshot_paths_files d l p ib : quiet ib -> (forall n, n ∈ l -> is_Some (in_files ib !! n)) ->
  snapshot_paths typ dec inbox d false l p ib = (ib, inl (fold_left (absorb_file d (in_files ib)) l p)).
Proof.
  intros Hq. revert p. induction l as [| n l IH]; intros p Hl; [done |]. destruct (Hl n ltac:(by left)) as [raw Hraw]. cbn [snapshot_paths fold_left].
  erewrite bind_eq; [| unfold wrapping, read_in; by rewrite (ReadFile_quiet _ raw) by done].
  rewrite IH by (intros n' ?; apply Hl; by right). unfold absorb_file. by rewrite Hraw.
Qed.

Definition processed_names (ib : Inbox) : list string :=
  merge_sort name_le (omap (fun k => if (k.1.1 =s "processed") && is_yaml k.1.2 then Some k.1.2 else None) (map_to_list (in_filed ib))).

Definition absorb_processed (d : subdir) (ib : Inbox) (p : gmap string IncidentRecord) (n : string) : gmap string IncidentRecord :=
  match in_filed ib !! ("processed"%string, n) with Some raw => absorb typ p (decode_in dec d raw) | None => p end.

Lemma snapshot_paths_processed d l p ib : quiet ib -> (forall n, n ∈ l -> is_Some (in_filed ib !! ("processed"%string, n))) ->
  snapshot_paths typ dec inbox d true l p ib = (ib, inl (fold_left (absorb_processed d ib) l p)).
Proof.
  intros Hq. revert p. induction l as [| n l IH]; intros p Hl; [done |]. destruct (Hl n ltac:(by left)) as [raw Hraw]. cbn [snapshot_paths fold_left].
  erewrite bind_eq; [| unfold wrapping, read_in; rewrite sys_quiet by done; by rewrite Hraw].
  rewrite IH by (intros n' ?; apply Hl; by right). unfold absorb_processed. by rewrite Hraw.
Qed.

Lemma elem_of_processed ib n : n ∈ processed_names ib <-> is_yaml n = true /\ is_Some (in_filed ib !! ("processed"%string, n)).
Proof.
  unfold processed_names. rewrite merge_sort_Permutation, list_elem_of_omap. split.
  - intros ([[s m] raw] & Hin & Hk). cbn in Hk. destruct (String.eqb_spec s "processed") as [-> | Hs]; [| done]. cbn in Hk.
    destruct (is_yaml m) eqn:Ey; [| done]. injection Hk as ->. split; [done |]. exists raw. by apply elem_of_map_to_list in Hin.
  - intros [Hy [raw Hr]]. exists (("processed"%string, n), raw). split; [by apply elem_of_map_to_list |]. cbn. by rewrite Hy.
Qed.

Lemma snapshotDir_quiet d p ib : quiet ib ->
  snapshotDir typ dec inbox d p ib =
    (ib, inl (fold_left (absorb_processed d ib) (processed_names ib) (fold_left (absorb_file d (in_files ib)) (matches_of (in_files ib)) p))).
Proof.
  intros Hq. unfold snapshotDir, snapshot_pattern. erewrite bind_eq.
  2:{ erewrite bind_eq; [| unfold wrapping, glob_in; by rewrite (Glob_quiet ib Hq)]. apply snapshot_paths_files; [done |]. by intros n [_ ?]%elem_of_matches. }
  erewrite bind_eq; [| unfold wrapping, glob_in; by rewrite sys_quiet by done]. apply snapshot_paths_processed; [done |]. by intros n [_ ?]%elem_of_processed.
Qed.

End tick_lemmas.

(** *** Names in order *)

Lemma name_le_iff a b : name_le a b <-> String.le a b.
Proof. unfold name_le, String.le. by destruct (String.leb a b). Qed.

#[export] Instance name_le_trans : Transitive name_le.
Proof. intros a b c. rewrite !name_le_iff. by etrans. Qed.
#[export] Instance name_le_total : Total name_le.
Proof. intros a b. rewrite !name_le_iff. apply total, _. Qed.
#[export] Instance name_le_antisym : AntiSymm (=) name_le.
Proof. intros a b. rewrite !name_le_iff. apply (anti_symm String.le). Qed.

Lemma NoDup_omap {A B} (f : A -> option B) (g : A -> A -> Prop) l :
  NoDup l -> (forall a b x, a ∈ l -> b ∈ l -> f a = Some x -> f b = Some x -> a = b) -> NoDup (omap f l).
Proof.
  induction 1 as [| a l Ha Hl IH]; intros Hf; [constructor |]. cbn. destruct (f a) as [x |] eqn:E.
  - apply list.NoDup_cons. split.
    + intros (b & Hb & E')%list_elem_of_omap. rewrite (Hf a b x) in Ha; [done | by left | by right | done | done].
    + apply IH. intros. eapply Hf; [by right | by right | done | done].
  - apply IH. intros. eapply Hf; [by right | by right | done | done].
Qed.

Section snapshot_lemmas.
Context (typ : obj -> string) (dec : Decoders) (inbox : string).

(** nothing was processed before *)
Definition fresh (ib : Inbox) : Prop := forall n, in_filed ib !! ("processed"%string, n) = None.

Lemma processed_NoDup ib : NoDup (processed_names ib).
Proof.
  unfold processed_names. rewrite merge_sort_Permutation. apply (NoDup_omap _ (fun _ _ => True)); [apply NoDup_map_to_list |].
  intros [[s1 m1] r1] [[s2 m2] r2] x H1 H2 E1 E2. cbn in *. apply elem_of_map_to_list in H1, H2.
  destruct (String.eqb_spec s1 "processed") as [-> |], (String.eqb_spec s2 "processed") as [-> |]; cbn in *; try done.
  destruct (is_yaml m1), (is_yaml m2); try done. injection E1 as ->. injection E2 as ->. congruence.
Qed.

Lemma filed_no_matches d ib ib' : filed_after dec d (matches_of (in_files ib)) ib ib' -> matches_of (in_files ib') = [].
Proof.
  intros (_ & Hin & Hout). destruct (matches_of (in_files ib')) as [| n l] eqn:E; [done | exfalso].
  assert (n ∈ matches_of (in_files ib')) as [Hy Hs]%elem_of_matches by (rewrite E; by left).
  destruct (decide (n ∈ matches_of (in_files ib))) as [Hn | Hn]; [destruct (Hin n Hn) as [H0 _]; rewrite H0 in Hs; by destruct Hs |].
  destruct (Hout n Hn) as [H0 _]. rewrite H0 in Hs. apply Hn, elem_of_matches. by split.
Qed.

Definition applied_file (d : subdir) (ib : Inbox) (n : string) : bool :=
  match in_files ib !! n with Some raw => applies dec d raw | None => false end.

Lemma filed_names d ib ib' : fresh ib -> filed_after dec d (matches_of (in_files ib)) ib ib' ->
  processed_names ib' = List.filter (applied_file d ib) (matches_of (in_files ib)).
Proof.
  intros Hf (_ & Hin & Hout). apply (StronglySorted_unique name_le).
  - apply (StronglySorted_merge_sort name_le).
  - apply StronglySorted_filterb. apply (StronglySorted_merge_sort name_le).
  - apply NoDup_Permutation; [apply processed_NoDup | apply NoDup_ListNoDup, NoDup_filter, NoDup_ListNoDup, matches_NoDup |].
    intros n. rewrite elem_of_processed, elem_of_filterb. unfold applied_file. split.
    + intros [Hy Hs]. destruct (decide (n ∈ matches_of (in_files ib))) as [Hn | Hn].
      * split; [done |]. destruct (Hin n Hn) as (_ & raw & Hr & Hsub). rewrite Hr. rewrite Hsub in Hs. unfold sub_of in Hs.
        destruct (applies dec d raw); [done |]. cbn in Hs. rewrite Hf in Hs. by destruct Hs.
      * destruct (Hout n Hn) as [_ Hsub]. rewrite Hsub, Hf in Hs. by destruct Hs.
    + intros [Hn Ha]. destruct (Hin n Hn) as (_ & raw & Hr & Hsub). rewrite Hr in Ha. split; [by apply elem_of_matches in Hn as [? _] |].
      rewrite Hsub. unfold sub_of. rewrite Ha. cbn. by exists raw.
Qed.

Lemma filed_fold d ib ib' l p : fresh ib -> filed_after dec d (matches_of (in_files ib)) ib ib' -> l ⊆ matches_of (in_files ib) ->
  fold_left (absorb_processed typ dec d ib') (List.filter (applied_file d ib) l) p = fold_left (absorb_file typ dec d (in_files ib)) l p.
Proof.
  intros Hf (_ & Hin & _). revert p. induction l as [| n l IH]; intros p Hl; [done |]. cbn [List.filter fold_left].
  destruct (Hin n ltac:(apply Hl; by left)) as (_ & raw & Hr & Hsub).
  assert (absorb_file typ dec d (in_files ib) p n = absorb typ p (decode_in dec d raw)) as -> by (unfold absorb_file; by rewrite Hr).
  unfold applied_file at 1. rewrite Hr. destruct (applies dec d raw) eqn:Ha; cbn [fold_left].
  - unfold absorb_processed at 2. rewrite Hsub. unfold sub_of. rewrite Ha. cbn. apply IH. intros x Hx. apply Hl. by right.
  - rewrite (absorb_not typ dec d raw p Ha). apply IH. intros x Hx. apply Hl. by right.
Qed.

Lemma processed_fresh ib : fresh ib -> processed_names ib = [].
Proof.
  intros Hf. destruct (processed_names ib) as [| n l] eqn:E; [done | exfalso].
  assert (n ∈ processed_names ib) as [_ Hs]%elem_of_processed by (rewrite E; by left). rewrite Hf in Hs. by destruct Hs.
Qed.

(** one directory: the tick, and the snapshots before and after it *)
Lemma tick_and_snapshots d p ib : quiet ib -> fresh ib ->
  exists ib' p', tickDir typ dec inbox d (p, ib) = ((p', ib'), inl tt) /\
    snapshotDir typ dec inbox d p ib = (ib, inl p') /\ snapshotDir typ dec inbox d p ib' = (ib', inl p') /\ matches_of (in_files ib') = [].
Proof.
  intros Hq Hf. destruct (tickDir_quiet typ dec inbox d p ib Hq) as (ib' & E & Hfa). exists ib'. eexists. split; [exact E |].
  pose proof (filed_no_matches d ib ib' Hfa) as Hm. split; [| split; [| done]].
  - rewrite snapshotDir_quiet, (processed_fresh ib Hf) by done. done.
  - rewrite snapshotDir_quiet by apply Hfa. rewrite Hm. cbn [fold_left]. rewrite (filed_names d ib ib' Hf Hfa). by rewrite (filed_fold d ib ib' _ p Hf Hfa).
Qed.

End snapshot_lemmas.

Lemma set_dir_eq d ib disk : set_dir d ib disk d = ib.
Proof. unfold set_dir. by rewrite decide_True. Qed.

Lemma set_dir_ne d d' ib disk : d' <> d -> set_dir d ib disk d' = disk d'.
Proof. intros Hd. unfold set_dir. by rewrite decide_False. Qed.

(** ** Claims *)

(** The one-shot reading of the disk is the poll: on a disk whose calls succeed and
    where nothing was processed before, [Snapshot] computes exactly the projection a
    [Tick] from scratch ends with, computes it again after the [Tick] has moved every
    file away, and the [Tick] leaves no file unhandled. *)
Theorem snapshot_is_the_tick (typ : obj -> string) (dec : Decoders) (inbox : string) (disk : Disk) :
  (forall d, quiet (disk d)) -> (forall d, fresh (disk d)) ->
  exists p disk', Tick typ dec inbox Background (NewProjection, disk) = ((p, disk'), inl tt) /\
    Snapshot typ dec inbox Background disk = inl p /\ Snapshot typ dec inbox Background disk' = inl p /\
    forall d, matches_of (in_files (disk' d)) = [].
Proof.
  intros Hq Hf.
  destruct (tick_and_snapshots typ dec inbox Detections NewProjection (disk Detections) (Hq _) (Hf _)) as (i1 & p1 & T1 & B1 & A1 & M1).
  destruct (tick_and_snapshots typ dec inbox Proposals p1 (disk Proposals) (Hq _) (Hf _)) as (i2 & p2 & T2 & B2 & A2 & M2).
  destruct (tick_and_snapshots typ dec inbox Decisions p2 (disk Decisions) (Hq _) (Hf _)) as (i3 & p3 & T3 & B3 & A3 & M3).
  destruct (tick_and_snapshots typ dec inbox Outcomes p3 (disk Outcomes) (Hq _) (Hf _)) as (i4 & p4 & T4 & B4 & A4 & M4).
  eexists p4, _. split; [| split; [| split]].
  - unfold Tick, with_ctx. cbn [ctx_Err Background].
    erewrite bind_eq; [| unfold at_dir; by rewrite T1]. erewrite bind_eq; [| unfold at_dir; rewrite !set_dir_ne by done; by rewrite T2].
    erewrite bind_eq; [| unfold at_dir; rewrite !set_dir_ne by done; by rewrite T3]. unfold at_dir. rewrite !set_dir_ne by done. by rewrite T4.
  - unfold Snapshot. cbn. rewrite B1. cbn [snd]. rewrite B2. cbn [snd]. rewrite B3. cbn [snd]. by rewrite B4.
  - unfold Snapshot. cbn [ctx_Err Background snapshot_dirs]. repeat (rewrite set_dir_eq || rewrite set_dir_ne by done). rewrite A1. cbn [snd]. rewrite A2. cbn [snd]. rewrite A3. cbn [snd]. by rewrite A4.
  - intros []; repeat (rewrite set_dir_eq || rewrite set_dir_ne by done); done.
Qed.

Section force.
Context {W : Type} `{PublisherLaws W Governed}.

(** what the projection has of a fingerprint's governance is the last word published for it *)
Lemma last_word fp history (p : Projection) inc held : Forall (fun ev => named ev.2 = true) history ->
  p !! fp = match published_for fp history with [] => None | os => Some (fold_left FoldRecord os Record_zero) end ->
  Get p fp = (inc, true) -> Inc_Governed inc = Some held ->
  list.last (omap governed_of (published_for fp history)) = Some held /\ Decision_SignalRef (Governed_Decision held) = fp.
Proof.
  intros Hn Hl Hget Hheld. pose proof (published_named fp history Hn) as Hos. unfold Get in Hget. rewrite Hl in Hget.
  set (os := published_for fp history) in *. pose proof (FoldRecord_fields os Record_zero Hos) as (_ & _ & _ & _ & F5 & _).
  assert (inc = Rec_Incident (fold_left FoldRecord os Record_zero)) as -> by (destruct os; [done | by injection Hget]).
  rewrite F5 in Hheld. assert (list.last (omap governed_of os) = Some held) as E by (by destruct (list.last (omap governed_of os))).
  split; [exact E |]. apply last_Some_elem_of, list_elem_of_omap in E as (o & Hin & Ho). unfold os, published_for in Hin.
  apply elem_of_filterb in Hin as [_ Hfp%String.eqb_eq]. destruct o; try done. by injection Ho as ->.
Qed.

(** what [force] can publish: the held decision, granted in full and marked as forced *)
Lemma runForce_spec connect parse project marshal args now1 now2 now' (op : Op (W := W)) :
  let '(op', ex) := runForce connect parse project marshal args now1 now2 now' op in
  (op' = op /\ Exit_code ex <> 0) \/
  exists fp rest fl proj inc held pub,
    args = fp :: rest /\ parse rest = Some fl /\ project (Fl_natsURL fl) (Fl_inbox fl) = inl proj /\ Get proj fp = (inc, true) /\
    Inc_Governed inc = Some held /\ governed_awaits held = true /\
    let g := forced fp (Fl_who fl) now1 now2 held in
    Decision_Auditable (Governed_Decision g) = None /\
    operatorPublisher (W := W) connect (Fl_natsURL fl) (Fl_outbox fl) (fun g => Decision_SignalRef (Governed_Decision g)) marshal now' = inl pub /\
    op' = (pub "thump.decisions"%string g op).1 /\ (Exit_code ex = 0 <-> (pub "thump.decisions"%string g op).2 = None).
Proof.
  destruct (runForce _ _ _ _ _ _ _ _ _) as [op' ex] eqn:E. unfold runForce, shiftPositional in E. destruct args as [| a rest]; [injection E as <- <-; by left |].
  destruct (String.prefix "-" a); [injection E as <- <-; by left |]. destruct (parse rest) as [fl |] eqn:Ep; [| injection E as <- <-; by left].
  destruct (negb _); [injection E as <- <-; by left |]. destruct (project _ _) as [proj | err] eqn:Epr; [| injection E as <- <-; by left].
  destruct (Get proj a) as [inc []] eqn:Eg; [| injection E as <- <-; by left]. destruct (Inc_Governed inc) as [held |] eqn:Eh; [| injection E as <- <-; by left].
  destruct (governed_awaits held) eqn:Ea; [| injection E as <- <-; by left]. cbn [negb] in E. cbv zeta in E.
  destruct (Decision_Auditable _) as [err |] eqn:Eau; [injection E as <- <-; by left |].
  destruct (operatorPublisher _ _ _ _ _ _) as [pub | err] eqn:Eop; [| injection E as <- <-; by left].
  destruct (pub "thump.decisions"%string _ op) as [op1 perr] eqn:Epub. right. exists a, rest, fl, proj, inc, held, pub.
  do 6 (split; [done |]). cbv zeta. split; [done |]. split; [done |]. rewrite Epub. cbn [fst snd]. destruct perr; injection E as <- <-; by split.
Qed.

(** C31. A break-glass answers the last word of governance. Run against a broker, over the
    objects of its four subjects in the order of their distinct publish times, whatever
    drains or connections fail, [force] publishes nothing unless the last decision published
    for that fingerprint awaits a person; what it publishes then is one decision, auditable,
    on that decision's own set, proposal, candidate and fingerprint, approved with no reasons,
    granted the band that was asked for, and marked as forced and with the operator the
    command names; if it publishes nothing it exits with an error. *)
Theorem force_answers_a_hold `{SortKeyed obj} typ connect parse disk marshal args now1 now2 now' (op : Op (W := W)) (history : list (Time * obj)) e1 e2 e3 e4 :
  increasing history -> Forall (fun ev => on_the_stream ev.2) history ->
  (forall rest fl, parse rest = Some fl -> Fl_natsURL fl <> "") ->
  let project := operatorProjection connect disk (snapshot_of typ history e1 e2 e3 e4) in
  let '(op', ex) := runForce connect parse project marshal args now1 now2 now' op in
  (delivered op'.1 = delivered op.1 /\ Exit_code ex <> 0) \/
  exists fp rest fl held g,
    args = fp :: rest /\ parse rest = Some fl /\
    list.last (omap governed_of (published_for fp history)) = Some held /\ AwaitsApproval (Decision_Verdict (Governed_Decision held)) = true /\
    delivered op'.1 = delivered op.1 ++ [("thump.decisions"%string, g)] /\ Governed_Set g = Governed_Set held /\
    let d := Governed_Decision g in let h := Governed_Decision held in
    Decision_Auditable d = None /\ Decision_SignalRef d = fp /\ Decision_ProposalRef d = Decision_ProposalRef h /\
    Decision_CandidateRef d = Decision_CandidateRef h /\ Decision_Verdict d = VerdictApproved /\ Decision_Reasons d = [] /\
    Decision_RequestedBand d = Decision_RequestedBand h /\ Decision_GrantedBand d = Decision_RequestedBand h /\
    Decision_PolicyVersion d = Decision_PolicyVersion h /\ Decision_EvaluatedAt d = now2 /\
    Decision_Forced d = true /\ Decision_Operator d = Fl_who fl.
Proof.
  intros Hs Hk Hnats project. pose proof (runForce_spec connect parse project marshal args now1 now2 now' op) as HS.
  destruct (runForce _ _ _ _ _ _ _ _ _) as [op' ex]. destruct HS as [[-> Hc] | (fp & rest & fl & proj & inc & held & pub & -> & Hfl & Hpr & Hget & Hheld & Ha & Hau & Hpub & -> & Hex)]; [by left |].
  specialize (Hnats rest fl Hfl). apply String.eqb_neq in Hnats. unfold operatorPublisher in Hpub. unfold project, operatorProjection in Hpr. rewrite Hnats in Hpub, Hpr.
  destruct (connect (Fl_natsURL fl)); [done |]. destruct (snapshot_of _ _ _ _ _ _) as [p |] eqn:Esnap; [| done]. injection Hpr as <-. injection Hpub as <-.
  destruct (snapshot_folds typ history e1 e2 e3 e4 p Hs Hk Esnap) as [Hn Hlook].
  destruct (last_word fp history p inc held Hn (Hlook fp) Hget Hheld) as [Hlast Hfp].
  destruct op as [w d]. cbn [fst snd] in *. set (g := forced fp (Fl_who fl) now1 now2 held) in *.
  destruct (publish "thump.decisions" g w) as [w' perr] eqn:Epub. cbn [fst snd] in *.
  assert (delivered w' = delivered w /\ perr <> None \/ delivered w' = delivered w ++ [("thump.decisions"%string, g)]) as [[Hdel He] | Hdel].
  { destruct perr as [e |]; [| right; by apply publish_ok]. destruct (publish_err _ _ _ _ _ Epub); auto. }
  - left. split; [done |]. intros Hz. by apply Hex in Hz.
  - right. exists fp, rest, fl, held, g. by repeat split.
Qed.

(** A forced action can run twice: [force] publishes on the stream behind hiss, so
    the hold it overrides stays in hiss until a restart would drop it, and an
    acknowledgement that arrives later approves the same candidate of the same set a
    second time. *)
Theorem forced_hold_is_released_again (cfg : TransportConfig W) (st : TransportState W) h held fp operator f1 f2 a n1 n2 w' :
  Tr_Holds st = Some h -> h !! fp = Some held -> Decision_SignalRef (Governed_Decision held) = fp -> Approval_SignalRef a = fp ->
  let g := forced fp operator f1 f2 held in
  publish "thump.decisions" g (Tr_world st) = (w', None) ->
  let st1 := mkTransportState (Tr_Holds st) (Tr_Log st) w' in
  rebuildHolds (on_subject "thump.decisions" w') !! fp = None /\
  ((approveHandler cfg a n1 n2 st1).2 = None ->
   exists g2, on_subject "thump.decisions" (Tr_world (approveHandler cfg a n1 n2 st1).1) = on_subject "thump.decisions" (Tr_world st) ++ [g; g2] /\
     Forall (fun g => Decision_Verdict (Governed_Decision g) = VerdictApproved /\ Governed_Set g = Governed_Set held /\
                      Decision_CandidateRef (Governed_Decision g) = Decision_CandidateRef (Governed_Decision held)) [g; g2]).
Proof.
  intros Hh Hl Hfp Ha g Hp st1. split.
  - rewrite (on_subject_ok _ _ _ _ Hp), rebuildHolds_snoc. unfold awaits. cbn. rewrite Hfp. apply lookup_delete_eq.
  - unfold approveHandler, Holds_Take. cbn. rewrite Hh, Ha, Hl. cbv zeta. destruct (Decision_Auditable _); [done |]. cbn [Tr_world].
    destruct (publish _ _ w') as [w2 [e |]] eqn:Ep2; [done |]. intros _. exists (reissue cfg held a n1 n2). split; [| by repeat constructor].
    cbn. by rewrite (on_subject_ok _ _ _ _ Ep2), (on_subject_ok _ _ _ _ Hp), <- app_assoc.
Qed.

End force.

(** *** Concrete commands *)

Definition held_state : TransportState (MemPub Governed) := run demo_cfg (buildTransport empty_stream) [EvProposal weak_set 5].
Definition held_weak : Governed := mkGoverned (Evaluate weak_set demo_policy 5) weak_set.
Definition forced_weak : Governed := forced "slo_burn:acme" "bob" 6 6 held_weak.
Definition after_force : MemPub Governed := (publish "thump.decisions" forced_weak (Tr_world held_state)).1.

Lemma forced_hold_is_released_again_witness :
  exists g2, on_subject "thump.decisions"
      (Tr_world (approveHandler demo_cfg demo_ack 7 7 (mkTransportState (Tr_Holds held_state) (Tr_Log held_state) after_force)).1)
    = on_subject "thump.decisions" (Tr_world held_state) ++ [forced_weak; g2].
Proof.
  destruct (forced_hold_is_released_again demo_cfg held_state (default ∅ (Tr_Holds held_state)) held_weak "slo_burn:acme" "bob" 6 6 demo_ack 7 7 after_force)
    as [_ Hagain]; [vm_compute; reflexivity .. |].
  destruct Hagain as (g2 & E & _); [vm_compute; reflexivity |]. exists g2. exact E.
Defined.

(** [force] does not ask who: an empty operator publishes all the same, where [approve]
    refuses an empty approver *)
Definition anonymous : Flags := mkFlags "" "." "." "nats://hub:4222" false "" 0.

#[local] Instance no_approvals : Publisher (MemPub Governed) Approval := {| publish _ _ w := (w, None); delivered _ := [] |}.

Example anonymous_force_publishes :
  let project := fun _ _ => inl (fold_left (fun p o => (Apply (fun _ => "decision.Governed"%string) p o).1) [ObjGoverned held_weak] NewProjection) in
  let '(op', ex) := runForce (fun _ => None) (fun _ => Some anonymous) project (fun _ => inl ""%string) ["slo_burn:acme"]%string 6 6 6 (empty_stream, mkOutDir ∅ [] []) in
  Exit_code ex = 0 /\ map (fun g => (Decision_Operator (Governed_Decision g), Decision_Forced (Governed_Decision g))) (on_subject "thump.decisions" op'.1) = [(""%string, true)] /\
  Exit_code (runApprove (fun _ => None) (fun _ => Some anonymous) (fun _ => inl ""%string) ["slo_burn:acme"]%string 6 6 (empty_stream, mkOutDir ∅ [] [])).2 = 1.
Proof. vm_compute. auto. Qed.

(** a snapshot folds the new files before the processed ones, so an archived decision of
    yesterday overwrites the one that has just arrived *)
Definition two_decisions : Disk := fun d =>
  match d with
  | Decisions => mkInbox {[ "new.yaml"%string := "approved"%string ]} {[ ("processed", "old.yaml")%string := "hold"%string ]} []
  | _ => mkInbox ∅ ∅ []
  end.

Definition verdict_decoder : Decoders :=
  mkDecoders (fun _ raw => inl (ObjGoverned (mkGoverned (mkDecision "d" "p" "slo_burn:acme" "" "c1" raw [] BandObserve BandObserve BandObserve f0 "v1" 5 false "" "") weak_set))).

Example archived_decision_wins :
  match Snapshot (fun _ => ""%string) verdict_decoder "inbox" Background two_decisions with
  | inl p => (fun g => Decision_Verdict (Governed_Decision g)) <$> Inc_Governed (Get p "slo_burn:acme").1 = Some "hold"%string
  | inr _ => False
  end.
Proof. vm_compute. reflexivity. Qed.

Lemma snapshot_is_the_tick_witness :
  let disk : Disk := fun d => match d with Decisions => mkInbox {[ "new.yaml"%string := "approved"%string ]} ∅ [] | _ => mkInbox ∅ ∅ [] end in
  exists p disk', Tick (fun _ => ""%string) verdict_decoder "inbox" Background (NewProjection, disk) = ((p, disk'), inl tt) /\
    Snapshot (fun _ => ""%string) verdict_decoder "inbox" Background disk' = inl p.
Proof.
  intros disk. destruct (snapshot_is_the_tick (fun _ => ""%string) verdict_decoder "inbox" disk) as (p & disk' & E & _ & E' & _).
  - by intros [].
  - by intros [] n.
  - exists p, disk'. split; [exact E | exact E'].
Defined.

Lemma force_answers_a_hold_witness :
  exists held (op' : MemPub Governed), list.last (omap governed_of (published_for "slo_burn:acme" [(5, ObjGoverned held_weak)])) = Some held /\
    delivered op' = [("thump.decisions"%string, forced_weak)] /\ AwaitsApproval (Decision_Verdict (Governed_Decision held)) = true.
Proof.
  set (parse := fun _ : list string => Some (mkFlags "bob" "." "." "nats://hub:4222" false "" 0)).
  pose proof (force_answers_a_hold (W := MemPub Governed) (fun _ => "decision.Governed"%string) (fun _ => None) parse
    (fun _ => inl ∅) (fun _ => inl ""%string) ["slo_burn:acme"]%string 6 6 6 (empty_stream, mkOutDir ∅ [] []) [(5, ObjGoverned held_weak)] None None None None) as HF.
  specialize (HF ltac:(repeat constructor) ltac:(repeat constructor) ltac:(intros rest fl [= <-]; discriminate)). cbv zeta in HF.
  destruct (runForce _ _ _ _ _ _ _ _ _) as [op' ex] eqn:E. destruct HF as [[_ Hc] | (fp & rest & fl & held & g & Ha & _ & Hl & Hw & _)].
  - exfalso. apply Hc. revert E. vm_compute. by intros [= <- <-].
  - injection Ha as <- <-. exists held, op'.1. split; [exact Hl |]. split; [| exact Hw]. revert E. clear. vm_compute. by intros [= <- <-].
Defined.
