(* ===== verification/Commands.v ===== *)
(** * internal/unseal, transcript, corpus: the commands over the bucket

    The [Main]s an operator runs against what the beats sealed: [unseal] prints segments,
    [transcript] exports runs, [corpus] mines the artifact the sweep reads.  Archive,
    Transcripts and Corpus have what they compute; this file has the key they read it with,
    the order of their steps, what they leave on the disk and what they exit with.  Flag
    parsing, the environment and the S3 client are parameters; a key is its thirty-two
    bytes. *)

From Stdlib Require Import Ascii.
From S2P Require Import Prelude GoTime GoFloat Api ThumpExec ClankScore ClankLedger ClankEngine Decimal Strings Subjects Config Archive Transcripts Replay Validate Forge.
From S2P Require Corpus.
Local Open Scope Z_scope.

(** ** unseal.go *)

Definition keyBytes : nat := 32.

Definition KeyFromEnv (env : string) : result string :=
  if env =s "" then inr (errors_New "THUMP_SEAL_KEY is unset")
  else match DecodeString (strings_TrimSpace env) with
       | inr err => inr (errorf_w "THUMP_SEAL_KEY is not base64: " err)
       | inl b =>
           if negb (String.length b =? keyBytes)%nat then
             inr (errors_New ("THUMP_SEAL_KEY decodes to " +:+ fmt_d (Z.of_nat (String.length b)) +:+ " bytes, want " +:+ fmt_d (Z.of_nat keyBytes)
                    +:+ " — a value read straight out of kubectl needs a second base64 -d"))
           else inl b
       end.

Definition unsealUsage : string :=
  "usage: unseal [-raw] <segment file>..." +:+ newline +:+ newline +:+
  "Unseals WAL segments pulled from the object store and prints what they hold." +:+ newline +:+
  "THUMP_SEAL_KEY must hold the same base64 key the beats seal with. Reading it" +:+ newline +:+
  "out of a cluster takes two decodes, not one:" +:+ newline +:+ newline +:+
  "  kubectl get secret thump-seal -n thump -o jsonpath='{.data.key}' | base64 -d" +:+ newline +:+ newline +:+
  "The inner value is itself base64; stopping after one decode yields a key of" +:+ newline +:+
  "plausible length that fails every open with an authentication error." +:+ newline +:+ newline.

Section commands.
Context `{AEAD string}.

(** the segments in the order of the arguments, up to the first that fails *)
Fixpoint print_segments (key : string) (decode : string -> result ProposalSet) (open : string -> result (result string)) (raw : bool)
  (paths : list string) (stdout : string) : Exit :=
  match paths with
  | [] => mkExit 0 stdout ""
  | path :: paths' =>
      match printSegment key decode path (open path) raw with
      | inr err => mkExit 1 stdout (err_text err +:+ newline)
      | inl text => print_segments key decode open raw paths' (stdout +:+ text)
      end
  end.

(** [flags] is [-raw] and the arguments; [None] when parsing failed and was reported *)
Definition unseal_Main (getenv : string -> string) (decode : string -> result ProposalSet) (open : string -> result (result string))
  (PrintDefaults : string) (flags : option (bool * list string)) : Exit :=
  match flags with
  | None => mkExit 1 "" ""
  | Some (_, []) => mkExit 1 "" (unsealUsage +:+ PrintDefaults)
  | Some (raw, paths) =>
      match KeyFromEnv (getenv "THUMP_SEAL_KEY") with
      | inr err => mkExit 1 "" (err_text err +:+ newline)
      | inl key => print_segments key decode open raw paths ""
      end
  end.

(** ** What [transcript] and [corpus] read: the key, the environment, the bucket *)

Section bucket.
Context {W : Type} `{S3 W}.

(** the three steps both commands open with; [NewS3Client] is the client of a bucket *)
Definition open_bucket (getenv : string -> string) (url_valid : string -> bool) (NewS3Client : CorpusConfig -> result W) : result (string * W) :=
  match KeyFromEnv (getenv "THUMP_SEAL_KEY") with
  | inr err => inr err
  | inl key =>
      match LoadCorpus getenv url_valid with
      | (_, Some err) => inr err
      | (cfg, None) => match NewS3Client cfg with inr err => inr err | inl w => inl (key, w) end
      end
  end.

(** ** transcript.go *)

Definition transcriptUsage : string :=
  "usage: transcript -run-id <fingerprint/unixnano> -out <dir>" +:+ newline +:+ "   or: transcript -all -out <dir>" +:+ newline.

Record TranscriptFlags : Type := mkTranscriptFlags { Tf_runID : string; Tf_out : string; Tf_all : bool }.

Definition transcript_fail (err : error) : Exit := mkExit 1 "" ("transcript: " +:+ err_text err +:+ newline).

Section transcript.
Context `{SortKeyed Turn}.
Context (decode : string -> result Turn) (decodeSet : string -> result ProposalSet)
  (encode : Turn -> result string) (encodeSet : ProposalSet -> result string) (disk : Disk).

Definition mainAll (w : W) (key out : string) (fs : gmap string string) : gmap string string * Exit :=
  match WriteAll decode decodeSet encode encodeSet disk key w out fs with
  | (fs', inr err) => (fs', transcript_fail err)
  | (fs', inl (written, skipped)) =>
      (fs', mkExit 0 ("wrote " +:+ fmt_d (Z.of_nat (length written)) +:+ " run(s) to " +:+ out +:+ newline)
              (strings_Join (map (fun runID => "transcript: skipped " +:+ runID +:+ ": " +:+ default ""%string (skipped !! runID) +:+ newline)
                 (sort_Strings (map fst (map_to_list skipped)))) ""))
  end.

Definition lateSet : string :=
  "; no proposal.Set found for this run-id — its WAL segment can lag its turns by up to MaxAge + ShipInterval (~11 minutes with today's config) before it ships, so retry after that before concluding the record doesn't exist".

Definition exportRun (w : W) (key runID out : string) (fs : gmap string string) : gmap string string * Exit :=
  match WalkTurns decode key runID w with
  | inr err => (fs, transcript_fail err)
  | inl [] => (fs, mkExit 1 "" ("transcript: no checkpointed turns under transcripts/" +:+ runID +:+ "/" +:+ newline))
  | inl turns =>
      match findSet decodeSet key w runID with
      | inr err => (fs, transcript_fail err)
      | inl set =>
          match WritePair encode encodeSet disk out turns set fs with
          | (fs', inr err) => (fs', transcript_fail err)
          | (fs', inl jsonlPath) =>
              (fs', mkExit 0 ("wrote " +:+ fmt_d (Z.of_nat (length turns)) +:+ " turn(s) to " +:+ jsonlPath +:+
                 (match set with Some _ => ", plus the run's proposal.Set" | None => lateSet end) +:+ newline) "")
          end
      end
  end.

Definition transcript_Main (getenv : string -> string) (url_valid : string -> bool) (NewS3Client : CorpusConfig -> result W) (flags : option TranscriptFlags)
  (fs : gmap string string) : gmap string string * Exit :=
  match flags with
  | None => (fs, mkExit 2 "" "")
  | Some fl =>
      if (Tf_out fl =s "") || (Tf_all fl && negb (Tf_runID fl =s "")) || (negb (Tf_all fl) && (Tf_runID fl =s "")) then (fs, mkExit 2 "" transcriptUsage)
      else match open_bucket getenv url_valid NewS3Client with
           | inr err => (fs, transcript_fail err)
           | inl (key, w) => if Tf_all fl then mainAll w key (Tf_out fl) fs else exportRun w key (Tf_runID fl) (Tf_out fl) fs
           end
  end.
End transcript.

(** ** corpus/mine.go *)

Definition OutPath : string := "internal/clank/testdata/corpus/corpus.json".

(** the file system under the artifact, and its codecs; [Art_Write] is what of the encoded
    artifact is written, and the write's error *)
Record Artifact : Type := mkArtifact {
  Art_Open : option error;
  Art_MkdirAll : option error;
  Art_OpenFile : option error;
  Art_probe : string -> result Z;
  Art_decodeLegacy : string -> result Corpus.legacyCorpus;
  Art_decode : string -> result Corpus.Corpus;
  Art_encode : Corpus.Corpus -> result string;
  Art_Write : string -> string * option error
}.

Definition read_artifact (a : Artifact) (fs : gmap string string) : result Corpus.Corpus :=
  Corpus.ReadCorpus OutPath
    (match Art_Open a with
     | Some err => inr err
     | None => match fs !! OutPath with None => inr Corpus.ErrNotExist | Some raw => inl raw end
     end) (Art_probe a) (Art_decodeLegacy a) (Art_decode a).

(** [O_TRUNC] empties the artifact before its successor is encoded *)
Definition writeCorpus `{Corpus.SortCases} (a : Artifact) (mined : Corpus.Corpus) (fs : gmap string string) : gmap string string * option error :=
  match Corpus.writeCorpus (read_artifact a fs) mined with
  | inr err => (fs, Some err)
  | inl merged =>
      match Art_MkdirAll a with
      | Some err => (fs, Some (errorf_w "mkdir: " err))
      | None =>
          match Art_OpenFile a with
          | Some err => (fs, Some (errorf_w ("open " +:+ OutPath +:+ ": ") err))
          | None =>
              match Art_encode a merged with
              | inr err => (<[OutPath := ""%string]> fs, Some (errorf_w "encode: " err))
              | inl b =>
                  let '(data, err) := Art_Write a b in
                  (<[OutPath := data]> fs, match err with Some err => Some (errorf_w "encode: " err) | None => None end)
              end
          end
      end
  end.

Definition count_class (m : gmap string Z) (c : Case) : gmap string Z := <[Case_FailureClass c := default 0 (m !! Case_FailureClass c) + 1]> m.

Definition byClass (c : Corpus.Corpus) : gmap string Z := fold_left count_class (Corpus.Corpus_Cases c) ∅.

(** [order] is the order in which the range over [byClass] visits it *)
Definition report (order : gmap string Z -> list (string * Z)) (c : Corpus.Corpus) (pop : Corpus.populations) : string :=
  "mined " +:+ fmt_d (Z.of_nat (length (Corpus.Corpus_Cases c))) +:+ " cases from " +:+ fmt_d (Z.of_nat (length (Corpus.Corpus_Segments c))) +:+ " segments" +:+ newline +:+
  fmt_d (Z.of_nat (Corpus.Pop_Journaled pop)) +:+ " reasoning-journal records observed (every terminal phase, not yet joined into cases)" +:+ newline +:+
  "corpus: " +:+ fmt_d (Z.of_nat (Corpus.Pop_Labelled pop + Corpus.Pop_InFlight pop + Corpus.Pop_Unlabelled pop)) +:+ " cases — " +:+
  fmt_d (Z.of_nat (Corpus.Pop_Labelled pop)) +:+ " labelled, " +:+ fmt_d (Z.of_nat (Corpus.Pop_InFlight pop)) +:+ " in flight, " +:+
  fmt_d (Z.of_nat (Corpus.Pop_Unlabelled pop)) +:+ " unlabelled (declined; no verdict exists)" +:+ newline +:+
  strings_Join (map (fun cn => " " +:+ pad_right 24 cn.1 +:+ " " +:+ fmt_d cn.2 +:+ newline) (order (byClass c))) "".

Definition corpus_fail (err : error) : Exit := mkExit 1 "" ("corpus: " +:+ err_text err +:+ newline).

Definition corpus_Main `{Corpus.SortCases} (decodeSet : string -> result ProposalSet) (decodeOutcome : string -> result Outcome) (now : Time)
  (order : gmap string Z -> list (string * Z)) (a : Artifact) (getenv : string -> string) (url_valid : string -> bool)
  (NewS3Client : CorpusConfig -> result W) (fs : gmap string string) : gmap string string * Exit :=
  match open_bucket getenv url_valid NewS3Client with
  | inr err => (fs, corpus_fail err)
  | inl (key, w) =>
      match Corpus.mine (fun prefix => Walk key (bucket_of w) prefix (ListObjectsV2 prefix w)) decodeSet decodeOutcome now with
      | inr err => (fs, corpus_fail err)
      | inl (c, pop) =>
          match writeCorpus a c fs with
          | (fs', Some err) => (fs', corpus_fail err)
          | (fs', None) => (fs', mkExit 0 (report order c pop) "")
          end
      end
  end.
End bucket.
End commands.

(** ** The key *)

Definition b64_digit (c : ascii) : bool := match b64_val c with Some _ => true | None => false end.

(** a byte the decoder lets pass is ASCII, and white space among them a line break *)
Definition plain (c : ascii) : bool := Nat.ltb (nat_of_ascii c) 128 && implb (space_byte c) (is_line_break c).

Definition all_bytes (p : ascii -> bool) : bool := forallb (fun n => p (ascii_of_nat n)) (seq 0 256).

Lemma all_bytes_spec p c : all_bytes p = true -> p c = true.
Proof.
  unfold all_bytes. rewrite forallb_forall. intros Hp. specialize (Hp (nat_of_ascii c)). rewrite ascii_nat_embedding in Hp.
  apply Hp, in_seq. pose proof (nat_ascii_bounded c). lia.
Qed.

Lemma read_byte_plain c : is_line_break c = true \/ Ascii.eqb c "=" = true \/ b64_digit c = true -> plain c = true.
Proof.
  intros Hc. pose proof (all_bytes_spec (fun c => implb (is_line_break c || Ascii.eqb c "=" || b64_digit c) (plain c)) c
    ltac:(vm_compute; reflexivity)) as Hall. destruct Hc as [-> | [-> | ->]] in Hall; rewrite ?orb_true_r in Hall; exact Hall.
Qed.

Lemma space_not_digit c : space_byte c = true -> b64_val c = None /\ Ascii.eqb c "=" = false.
Proof.
  intros Hc. pose proof (all_bytes_spec (fun c => implb (space_byte c) (negb (b64_digit c) && negb (Ascii.eqb c "="))) c
    ltac:(vm_compute; reflexivity)) as Hall. cbv beta in Hall. rewrite Hc in Hall. cbn [implb] in Hall. apply andb_true_iff in Hall as [Hv He].
  unfold b64_digit in Hv. split; [by destruct (b64_val c) | by destruct (Ascii.eqb c "=")].
Qed.

(** white space whose first byte is ASCII starts with an ASCII space *)
Lemma blank_cons c s : plain c = true -> blank (String c s) = (space_byte c && blank s).
Proof.
  intros [Hc _]%andb_true_iff. apply Nat.ltb_lt in Hc. cbn [blank]. destruct (space_byte c); [done |].
  destruct s as [| d [| e s]]; [done | |]; cbv zeta;
    (repeat match goal with |- context [Z.of_nat (nat_of_ascii c) =? ?k] => rewrite (proj2 (Z.eqb_neq (Z.of_nat (nat_of_ascii c)) k)) by lia end); reflexivity.
Qed.

(** the three states of the decoder: in a quantum, before the second pad, past the pads *)
Inductive phase : Type := PDigits (q : list Z) | PPad | PEnd.

Definition decode_in (ph : phase) (s : string) (si : Z) (out : string) : result string :=
  match ph with PDigits q => b64_decode s si q out | PPad => b64_pad s si out | PEnd => b64_end s si out end.

(** one accepted byte: it is plain, and what follows is accepted in some state; a line break
    changes nothing *)
Lemma decode_step ph c s si out b : decode_in ph (String c s) si out = inl b ->
  plain c = true /\ exists ph' out', decode_in ph' s (si + 1) out' = inl b /\
    (forall s' si', decode_in ph (String c s') si' out = decode_in ph' s' (si' + 1) out') /\ (is_line_break c = true -> ph' = ph /\ out' = out).
Proof.
  destruct ph as [q | |]; cbn [decode_in].
  - cbn [b64_decode]. destruct (b64_val c) as [d |] eqn:Ev.
    + assert (plain c = true) as Hp by (apply read_byte_plain; unfold b64_digit; rewrite Ev; auto).
      assert (is_line_break c = false) as Hl.
      { destruct (is_line_break c) eqn:El; [| done]. exfalso.
        pose proof (all_bytes_spec (fun c => implb (is_line_break c) (space_byte c)) c ltac:(vm_compute; reflexivity)) as Hall. cbv beta in Hall. rewrite El in Hall.
        apply space_not_digit in Hall as [Hn _]. congruence. }
      intros Hd. split; [done |]. destruct q as [| x [| y [| z [| u q]]]]; eexists (PDigits _), _; (split; [exact Hd |]); (split; [reflexivity | by rewrite Hl]).
    + destruct (is_line_break c) eqn:El.
      { intros Hd. split; [apply read_byte_plain; auto |]. exists (PDigits q), out. by split; [destruct q as [| x [| y [| z [| u q]]]] |]; [.. | split; [intros s' si'; destruct q as [| x [| y [| z [| u q]]]] |]]. }
      destruct (Ascii.eqb c "=") eqn:Ee; [| by destruct q as [| x [| y [| z [| u q]]]]].
      intros Hd. split; [apply read_byte_plain; auto |]. destruct q as [| x [| y [| z [| u q]]]]; try discriminate Hd.
      * exists PPad. eexists. split; [exact Hd |]. by split.
      * exists PEnd. eexists. split; [exact Hd |]. by split.
  - cbn [b64_pad]. destruct (is_line_break c) eqn:El; [intros Hd; split; [apply read_byte_plain; auto |]; by exists PPad, out |].
    destruct (Ascii.eqb c "=") eqn:Ee; [| done]. intros Hd. split; [apply read_byte_plain; auto |]. by exists PEnd, out.
  - cbn [b64_end]. destruct (is_line_break c) eqn:El; [| done]. intros Hd. split; [apply read_byte_plain; auto |]. by exists PEnd, out.
Qed.

Lemma decode_anywhere s ph si out b : decode_in ph s si out = inl b -> forall si', decode_in ph s si' out = inl b.
Proof.
  revert ph si out. induction s as [| c s IH]; intros ph si out Hd si'.
  - destruct ph as [[| x q] | |]; cbn in *; done.
  - apply decode_step in Hd as (_ & ph' & out' & Hd & Hs & _). rewrite Hs. by eapply IH.
Qed.

Lemma decode_blank s ph si out b : blank s = true -> decode_in ph s si out = inl b -> decode_in ph "" si out = inl b.
Proof.
  revert ph si out. induction s as [| c s IH]; intros ph si out Hb Hd; [done |].
  apply decode_step in Hd as (Hp & ph' & out' & Hd & _ & Hbreak). rewrite blank_cons in Hb by done.
  apply andb_true_iff in Hb as [Hc Hb]. apply andb_true_iff in Hp as [_ Hp]. rewrite Hc in Hp. destruct (Hbreak Hp) as [-> ->].
  by eapply decode_anywhere, IH.
Qed.

Lemma decode_trim_right s ph si out b : decode_in ph s si out = inl b -> decode_in ph (trim_right s) si out = inl b.
Proof.
  revert ph si out. induction s as [| c s IH]; intros ph si out Hd; [done |]. cbn [trim_right].
  destruct (blank (String c s)) eqn:Hb; [by eapply decode_blank |].
  apply decode_step in Hd as (_ & ph' & out' & Hd & Hs & _). rewrite Hs. by apply IH.
Qed.

Lemma decode_trim_left n : forall s ph si out b, (String.length s <= n)%nat -> decode_in ph s si out = inl b -> decode_in ph (trim_left s) si out = inl b.
Proof.
  induction n as [| n IH]; intros s ph si out b Hn Hd; [destruct s; [done | cbn in Hn; lia] |].
  destruct s as [| c s]; [done |]. pose proof Hd as Hd0. apply decode_step in Hd as (Hp & ph' & out' & Hd & _ & Hbreak).
  cbn [trim_left]. rewrite (blank_cons c "") by done. change (blank "") with true. rewrite andb_true_r.
  destruct (space_byte c) eqn:Hc.
  - pose proof Hp as [_ Hl]%andb_true_iff. rewrite Hc in Hl. destruct (Hbreak Hl) as [-> ->]. eapply decode_anywhere, IH; [cbn in Hn; lia | exact Hd].
  - destruct s as [| d s]; [done |]. rewrite (blank_cons c (String d "")), Hc by done. cbn [andb].
    destruct s as [| e s]; [done |]. by rewrite (blank_cons c (String d (String e ""))), Hc by done.
Qed.

Lemma decode_trimmed v b : DecodeString v = inl b -> DecodeString (strings_TrimSpace v) = inl b.
Proof. intros Hd. apply (decode_trim_right _ (PDigits [])), (decode_trim_left _ _ (PDigits [])) with (1 := le_n _), Hd. Qed.

(** The commands read the bucket with the beats' key: a value of the variable a beat starts
    with is one the commands accept, as the same key. *)
Theorem beats_key_opens_the_bucket getenv name errs key :
  RequireBase64Key getenv name keyBytes errs = (Some key, errs) -> KeyFromEnv (getenv name) = inl key.
Proof.
  unfold RequireBase64Key, Require_var, KeyFromEnv, when, load, pure, complain. cbv beta zeta.
  destruct (getenv name =s "") eqn:Ev; rewrite ?Ev; [intros Hk; discriminate Hk |].
  destruct (DecodeString (getenv name)) as [b | err] eqn:Ed; [| intros Hk; cbn in Hk; by simplify_eq]. apply decode_trimmed in Ed. rewrite Ed.
  destruct (String.length b =? keyBytes)%nat; [| intros Hk; cbn in Hk; by simplify_eq]. intros Hk. by injection Hk as ->.
Qed.

(** ** A key as it comes out of the cluster *)

Lemma EncodeToString_length n : forall s, (String.length s <= n)%nat ->
  String.length (EncodeToString s) = (4 * ((String.length s + 2) / 3))%nat.
Proof.
  induction n as [| n IH]; intros s Hn; [destruct s; [done | cbn in Hn; lia] |].
  destruct s as [| a [| b [| c s]]]; [done | done | done |]. cbn [EncodeToString String.length]. rewrite IH by (cbn in Hn; lia).
  replace (S (S (S (String.length s))) + 2)%nat with (1 * 3 + (String.length s + 2))%nat by lia. rewrite Nat.div_add_l by done. lia.
Qed.

Lemma EncodeToString_empty s : (EncodeToString s =s "") = (s =s "").
Proof. by destruct s as [| a [| b [| c s]]]. Qed.

(** The key is read back from its encoding, and a value encoded twice, which is what a
    cluster's secret holds, is refused with a word on the second decoding. *)
Theorem key_is_decoded_once key : String.length key = keyBytes ->
  KeyFromEnv (EncodeToString key) = inl key /\
  KeyFromEnv (EncodeToString (EncodeToString key)) =
    inr (errors_New "THUMP_SEAL_KEY decodes to 44 bytes, want 32 — a value read straight out of kubectl needs a second base64 -d").
Proof.
  intros Hlen. assert (key <> ""%string) as Hne by (by intros ->). apply String.eqb_neq in Hne.
  unfold KeyFromEnv. rewrite !EncodeToString_empty, Hne, !(decode_trimmed _ _ (DecodeString_Encode _)), Hlen. split; [done |].
  rewrite (EncodeToString_length _ _ (le_n _)), Hlen. reflexivity.
Qed.

(** ** What the commands leave behind *)

Section results.
Context `{AEAD string} {W : Type} `{S3 W}.

(** A run's export exits 0 exactly when it wrote the run: its turns, which there were, and
    its set if one was found; a usage error and a failed read write nothing, and every other
    exit is 1. *)
Theorem transcript_exits_on_what_it_wrote `{SortKeyed Turn} decode decodeSet encode encodeSet disk getenv url_valid (client : CorpusConfig -> result W) fl fs fs' ex :
  Tf_all fl = false -> transcript_Main decode decodeSet encode encodeSet disk getenv url_valid client (Some fl) fs = (fs', ex) ->
  (Exit_code ex = 2 <-> Tf_out fl = "" \/ Tf_runID fl = "") /\ (Exit_code ex = 0 \/ Exit_code ex = 1 \/ Exit_code ex = 2) /\
  (Exit_code ex = 0 \/ fs' <> fs -> exists key w turns set r, open_bucket getenv url_valid client = inl (key, w) /\
     WalkTurns decode key (Tf_runID fl) w = inl turns /\ turns <> [] /\ findSet decodeSet key w (Tf_runID fl) = inl set /\
     WritePair encode encodeSet disk (Tf_out fl) turns set fs = (fs', r) /\ (Exit_code ex = 0 <-> r = inl (Tf_out fl +:+ "/run.jsonl"))).
Proof.
  intros Hall. unfold transcript_Main. rewrite Hall. cbn [andb negb]. rewrite orb_false_r.
  destruct ((Tf_out fl =s "") || (Tf_runID fl =s "")) eqn:Eu.
  { intros [= <- <-]. apply orb_true_iff in Eu. rewrite !String.eqb_eq in Eu. cbn. split; [tauto |]. split; [auto |]. intros [[=] | []]; done. }
  apply orb_false_iff in Eu as [Eo%String.eqb_neq Er%String.eqb_neq].
  assert (forall c, c <> 2 -> (c = 2 <-> Tf_out fl = "" \/ Tf_runID fl = "")) as H2 by tauto.
  destruct (open_bucket _ _ _) as [[key w] | err] eqn:Eb; [| intros [= <- <-]; cbn; split; [by apply H2 | split; [auto |]; intros [[=] | []]; done]].
  unfold exportRun. destruct (WalkTurns _ _ _ _) as [[| t turns] | err] eqn:Ew;
    [intros [= <- <-]; cbn; split; [by apply H2 | split; [auto |]; intros [[=] | []]; done] |
    | intros [= <- <-]; cbn; split; [by apply H2 | split; [auto |]; intros [[=] | []]; done]].
  destruct (findSet _ _ _ _) as [set | err] eqn:Ef; [| intros [= <- <-]; cbn; split; [by apply H2 | split; [auto |]; intros [[=] | []]; done]].
  destruct (WritePair _ _ _ _ _ _ _) as [fs1 r] eqn:Ep.
  assert (forall p, r = inl p -> p = Tf_out fl +:+ "/run.jsonl") as Hpath.
  { intros p ->. unfold WritePair in Ep. destruct (Disk_MkdirAll _ _); [done |]. destruct (writeTurns _ _ _ _ _) as [fs2 [e |]]; [done |].
    destruct set; [destruct (writeSet _ _ _ _ _) as [fs3 [e |]]; [done |] |]; by injection Ep. }
  assert (Exit_code ex = 0 \/ Exit_code ex = 1 -> (Exit_code ex = 0 <-> r = inl (Tf_out fl +:+ "/run.jsonl")) -> fs1 = fs' ->
    (Exit_code ex = 2 <-> Tf_out fl = "" \/ Tf_runID fl = "") /\ (Exit_code ex = 0 \/ Exit_code ex = 1 \/ Exit_code ex = 2) /\
    (Exit_code ex = 0 \/ fs' <> fs -> exists key' w' turns' set' r', inl (key, w) = inl (A := string * W) (B := error) (key', w') /\
       WalkTurns decode key' (Tf_runID fl) w' = inl turns' /\ turns' <> [] /\ findSet decodeSet key' w' (Tf_runID fl) = inl set' /\
       WritePair encode encodeSet disk (Tf_out fl) turns' set' fs = (fs', r') /\ (Exit_code ex = 0 <-> r' = inl (Tf_out fl +:+ "/run.jsonl")))) as Hdone.
  { intros Hc Hr ->. split; [apply H2; lia |]. split; [tauto |]. intros _. by exists key, w, (t :: turns), set, r. }
  destruct r as [p | err]; intros [= <- <-]; apply Hdone; cbn; auto; split; try done. intros _. by rewrite (Hpath p).
Qed.

(** ** The artifact *)

Context `{Corpus.SortCases}.

(** the codecs read back what they write, and the disk writes what it is given *)
Record sound_artifact (a : Artifact) : Prop := {
  art_opens : Art_Open a = None;
  art_version : forall c b, Art_encode a c = inl b -> Art_probe a b = inl (Corpus.Corpus_Version c);
  art_codec : forall c b, Art_encode a c = inl b -> Art_decode a b = inl c;
  art_writes : forall b data, Art_Write a b = (data, None) -> data = b
}.

(** Mining adds to the artifact what it mined and changes nothing else: after an exit 0 the
    artifact reads back as the merge of what it was and what the bucket held. *)
Theorem corpus_artifact_reads_back decodeSet decodeOutcome now order a getenv url_valid (client : CorpusConfig -> result W) fs fs' ex :
  sound_artifact a -> corpus_Main decodeSet decodeOutcome now order a getenv url_valid client fs = (fs', ex) -> Exit_code ex = 0 ->
  exists existing mined, read_artifact a fs = inl existing /\ read_artifact a fs' = inl (Corpus.mergeCorpus existing mined) /\
    forall path, path <> OutPath -> fs' !! path = fs !! path.
Proof.
  intros [Hopen Hver Hcodec Hwr]. unfold corpus_Main. destruct (open_bucket _ _ _) as [[key w] | err]; [| by intros [= <- <-]].
  destruct (Corpus.mine _ _ _ _) as [[mined pop] | err]; [| by intros [= <- <-]]. unfold writeCorpus, Corpus.writeCorpus.
  destruct (read_artifact a fs) as [existing | err]; [| by intros [= <- <-]].
  destruct (Art_MkdirAll a); [by intros [= <- <-] |]. destruct (Art_OpenFile a); [by intros [= <- <-] |].
  destruct (Art_encode a _) as [b | err] eqn:Ee; [| by intros [= <- <-]]. destruct (Art_Write a b) as [data [err |]] eqn:Ew; [by intros [= <- <-] |].
  intros [= <- <-] _. apply Hwr in Ew as ->. exists existing, mined. split; [done |]. split; [| intros path Hp; by rewrite lookup_insert_ne].
  unfold read_artifact, Corpus.ReadCorpus. rewrite Hopen, lookup_insert_eq, (Hver _ _ Ee). cbn [Corpus.Corpus_Version Corpus.mergeCorpus].
  change (Corpus.CorpusVersion =? 0) with false. change (Corpus.CorpusVersion <? Corpus.CorpusVersion) with false. by rewrite (Hcodec _ _ Ee).
Qed.

(** The artifact is emptied before its successor is encoded: when encoding fails the record
    of every earlier run is gone, and since an empty file has no version the miner then
    refuses to run until someone removes it. *)
Theorem failed_encoding_loses_the_corpus decodeSet decodeOutcome now order a getenv url_valid (client : CorpusConfig -> result W) fs fs' ex existing key w mined pop err empty :
  open_bucket getenv url_valid client = inl (key, w) ->
  Corpus.mine (fun prefix => Walk key (bucket_of w) prefix (ListObjectsV2 prefix w)) decodeSet decodeOutcome now = inl (mined, pop) ->
  read_artifact a fs = inl existing -> Art_MkdirAll a = None -> Art_OpenFile a = None -> Art_encode a (Corpus.mergeCorpus existing mined) = inr err ->
  Art_Open a = None -> Art_probe a "" = inr empty ->
  corpus_Main decodeSet decodeOutcome now order a getenv url_valid client fs = (fs', ex) ->
  Exit_code ex = 1 /\ fs' !! OutPath = Some ""%string /\
  forall now' order' getenv' url_valid' (client' : CorpusConfig -> result W) fs'' ex',
    corpus_Main decodeSet decodeOutcome now' order' a getenv' url_valid' client' fs' = (fs'', ex') -> Exit_code ex' = 1 /\ fs'' = fs'.
Proof.
  intros Eb Em Er Hmk Hof Ee Hopen Hprobe. unfold corpus_Main, writeCorpus, Corpus.writeCorpus. rewrite Eb, Em, Er, Hmk, Hof, Ee. intros [= <- <-].
  split; [done |]. split; [apply lookup_insert_eq |]. intros now' order' getenv' url_valid' client' fs'' ex'.
  destruct (open_bucket getenv' url_valid' client') as [[key' w'] | err']; [| intros Heq; by simplify_eq]. destruct (Corpus.mine (fun prefix => Walk key' (bucket_of w') prefix (ListObjectsV2 prefix w')) decodeSet decodeOutcome now') as [[mined' pop'] | err']; [| intros Heq; by simplify_eq].
  unfold read_artifact, Corpus.ReadCorpus. rewrite Hopen, lookup_insert_eq, Hprobe. intros Heq; by simplify_eq.
Qed.

End results.

(** ** What [unseal] prints *)

(** [unseal] prints the segments in the order they were named up to the first it cannot open,
    and exits 0 exactly when it printed them all. *)
Theorem unseal_prints_up_to_a_failure `{AEAD string} key decode open raw paths :
  let ex := print_segments key decode open raw paths "" in
  exists n texts, (n <= length paths)%nat /\ Forall2 (fun path text => printSegment key decode path (open path) raw = inl text) (take n paths) texts /\
    Exit_stdout ex = String.concat "" texts /\ (Exit_code ex = 0 <-> n = length paths) /\ (Exit_code ex = 0 \/ Exit_code ex = 1).
Proof.
  cbv zeta. assert (forall out, exists n texts, (n <= length paths)%nat /\
    Forall2 (fun path text => printSegment key decode path (open path) raw = inl text) (take n paths) texts /\
    Exit_stdout (print_segments key decode open raw paths out) = out +:+ String.concat "" texts /\
    (Exit_code (print_segments key decode open raw paths out) = 0 <-> n = length paths) /\
    (Exit_code (print_segments key decode open raw paths out) = 0 \/ Exit_code (print_segments key decode open raw paths out) = 1)) as Hp;
    [| apply (Hp ""%string)].
  induction paths as [| path paths IH]; intros out; cbn [print_segments].
  - exists 0%nat, []. cbn. rewrite string_app_nil_r. repeat split; auto.
  - destruct (printSegment _ _ _ _ _) as [text | err] eqn:Et.
    + destruct (IH (out +:+ text)) as (n & texts & Hn & Hf & -> & Hc & Hc'). exists (S n), (text :: texts). cbn [take length].
      split; [lia |]. split; [by constructor |]. split; [| split; [rewrite Hc; lia | done]].
      rewrite string_app_assoc. f_equal. by destruct texts; cbn; rewrite ?string_app_nil_r.
    + exists 0%nat, []. cbn. rewrite string_app_nil_r. split; [lia |]. split; [constructor |]. split; [done |]. split; [lia | auto].
Qed.
