(* ===== verification/HarvestMain.v ===== *)
(** * internal/harvest and internal/scorecard: the commands

    [Main] of harvest.go with its check of the cluster, [CommandRunner], the legs over NATS
    (nats.go) and the line of a result; [Render] and [Main] of the scorecard.  Harvest has the
    firing, the wait and the grades.  A command's output, the connection, the consumers of
    JetStream and JSON are parameters. *)

From stdpp Require Import sorting.
From S2P Require Import Prelude GoTime GoFloat Decimal Strings Api Contract Configfile Publish Hiss ThumpExec Broker Subjects Tlsx Lifecycle Replay Validate Harvest.
Local Open Scope Z_scope.

(** ** harvest.go: what runs a command *)

(** [exec.Cmd.CombinedOutput]: the output, and the error of a command that failed *)
Definition CommandRunner_Run (combinedOutput : list command -> command -> string * option error) (log : list command) (c : command) : option error :=
  match combinedOutput log c with
  | (_, None) => None
  | (out, Some err) => Some (errorf_wp (errorf_w (c.1 +:+ " " +:+ strings_Join c.2 "" +:+ ": ") err) (": " +:+ out))
  end.

(** [out] is what [kubectl config current-context] prints *)
Definition kubectlCurrentContext (out : result string) : result string :=
  match out with
  | inr err => inr (errorf_w "kubectl config current-context: " err)
  | inl out => inl (strings_TrimSpace out)
  end.

Definition printResult (r : Row) : string :=
  pad_right 4 (if Row_Err r =s "" then "OK" else "ERR") +:+ " " +:+ pad_right 30 (Row_ScenarioName r) +:+ " run=" +:+ pad_right 2 (fmt_d (Row_RunIndex r))
  +:+ " expected=" +:+ Row_ExpectedClass r +:+ "/" +:+ Row_ExpectedContract r +:+ "/" +:+ Row_ExpectedVerdict r
  +:+ " actual=" +:+ Row_ActualContract r +:+ "/" +:+ Row_ActualVerdict r +:+ "/" +:+ Row_ActualResult r
  +:+ " runID=" +:+ Row_RunID r +:+ " confidence=" +:+ fmt_f 3 (Row_EmittedConfidence r) +:+ " computed=" +:+ fmt_f 3 (Row_ComputedConfidence r)
  +:+ " ceiling=" +:+ fmt_t (Row_CeilingBound r) +:+ (if Row_Err r =s "" then "" else " err=" +:+ fmt_q (Row_Err r)) +:+ newline.

(** ** nats.go *)

Inductive DeliverPolicy : Type := DeliverNew | DeliverAll.

(** what an ordered consumer of [subject] delivers of the stream: all of it, or what follows
    its first [opened] messages *)
Definition consumed (stream : list (string * string)) (opened : nat) (policy : DeliverPolicy) (subject : string) : list string :=
  map snd (List.filter (fun m => m.1 =s subject) (match policy with DeliverAll => stream | DeliverNew => drop opened stream end)).

(** [js.OrderedConsumer] and [cons.Consume] *)
Record Consumers : Type := mkConsumers {
  Co_OrderedConsumer : string -> DeliverPolicy -> option error;
  Co_Consume : string -> option error
}.

(** [watchSubject]: its error, or what it puts on the channel; an undecodable message is
    skipped *)
Definition watchSubject {T} (unmarshal : string -> result T) (js : Consumers) (stream : list (string * string)) (opened : nat)
  (subject : string) (policy : DeliverPolicy) : result (list T) :=
  match Co_OrderedConsumer js subject policy with
  | Some err => inr (errorf_w ("harvest: ordered consumer " +:+ subject +:+ ": ") err)
  | None =>
      match Co_Consume js subject with
      | Some err => inr (errorf_w ("harvest: consume " +:+ subject +:+ ": ") err)
      | None => inl (omap (fun data => match unmarshal data with inl obj => Some obj | inr _ => None end) (consumed stream opened policy subject))
      end
  end.

(** [wire.Unmarshal] at the types watched *)
Record Wires : Type := mkWires {
  Wr_outcome : string -> result Outcome;
  Wr_set : string -> result ProposalSet;
  Wr_decision : string -> result Decision;
  Wr_governed : string -> result Governed;
  Wr_detection : string -> result Detection
}.

Section watchers.
Context (u : Wires) (js : Consumers) (stream : list (string * string)) (opened : nat).

Definition Outcomes : result (list Outcome) := watchSubject (Wr_outcome u) js stream opened "thump.outcomes" DeliverNew.
Definition Sets : result (list ProposalSet) := watchSubject (Wr_set u) js stream opened "thump.proposals" DeliverAll.
Definition Declines : result (list Decision) := watchSubject (Wr_decision u) js stream opened "thump.declines" DeliverNew.
Definition Held : result (list Governed) := watchSubject (Wr_governed u) js stream opened "thump.held" DeliverNew.
Definition Detections : result (list Detection) := watchSubject (Wr_detection u) js stream opened "thump.detections" DeliverNew.

Definition leg_error {T} (w : result (list T)) : option (option error) := Some (match w with inr err => Some err | inl _ => None end).

(** the legs [Main] wires *)
Definition nats_legs : Legs := mkLegs (leg_error Outcomes) (leg_error Declines) (leg_error Held) (leg_error Detections) (leg_error Sets).

(** what the select can receive over them; the channels are never closed *)
Inductive received : settle_event -> Prop :=
| rec_done : received SeDone
| rec_refusal : received SeRefusal
| rec_outcome l o : Outcomes = inl l -> o ∈ l -> received (SeOutcome o)
| rec_decline l d : Declines = inl l -> d ∈ l -> received (SeDecline d)
| rec_held l g : Held = inl l -> g ∈ l -> received (SeHeld g)
| rec_detection l d : Detections = inl l -> d ∈ l -> received (SeDetection d)
| rec_set l s : Sets = inl l -> s ∈ l -> received (SeSet s).
End watchers.

(** [js.AccountInfo] *)
Definition NewNATSLivenessCheck (accountInfo : option error) : option (option error) := Some accountInfo.

(** [NewHarvest]'s grace *)
Definition refusal_grace (d : Duration) : Duration := if d <=? 0 then defaultRefusalGrace else d.

(** ** harvest.go: [Main] *)

Record HarvestFlags : Type := mkHarvestFlags {
  Hf_scenarios : string;
  Hf_natsURL : string;
  Hf_tls : TLSConfig;
  Hf_row : string;
  Hf_json : bool;
  Hf_kubeContext : string;
  Hf_repeat : Z;
  Hf_cooldown : Duration;
  Hf_refusalGrace : Duration
}.

Definition harvestUsage : string :=
  "usage: harvest --scenarios <path> --nats-url <url> [--tls-cert path --tls-key path --tls-ca path --server-name name] [--row substring] [--json] [--kube-context name] [--repeat N] [--cooldown duration] [--refusal-grace duration]".

(** what a run of the command ran, the rows it printed, its exit code, and standard error *)
Record HarvestRun : Type := mkHarvestRun { Hr_commands : list command; Hr_rows : list Row; Hr_code : Z; Hr_stderr : string }.

Definition refuse (code : Z) (line : string) : HarvestRun := mkHarvestRun [] [] code (line +:+ newline).

Section harvest_main.
Context {Cert Pool NC JS : Type} (AppendCertsFromPEM : string -> option Pool).
Context (nats_Connect : string -> list (nats_option (S := unit) (Cert := Cert) (Pool := Pool)) -> result NC) (jetstream_New : NC -> result JS).

(** the firings a connection gives, as Harvest describes one *)
Definition harvest_Main (fs : FS) (readFile : string -> result string) (unmarshal : string -> result scenariosFile) (currentContext : result string)
  (combinedOutput : list command -> command -> string * option error) (firings : JS -> Duration -> nat -> Firing)
  (cancelled cooled : nat -> bool) (encode : Row -> option error) (flags : option HarvestFlags) : HarvestRun :=
  match flags with
  | None => mkHarvestRun [] [] 2 ""
  | Some fl =>
      if (Hf_scenarios fl =s "") || (Hf_natsURL fl =s "") then refuse 2 harvestUsage
      else if Hf_repeat fl <? 1 then refuse 2 "harvest: --repeat must be at least 1"
      else
        match LoadScenarios readFile unmarshal (Hf_scenarios fl) with
        | inr err => refuse 1 ("harvest: " +:+ err_text err)
        | inl table =>
            match (if Hf_kubeContext fl <>s "" then verifyKubeContext (Hf_kubeContext fl) (kubectlCurrentContext currentContext) else None) with
            | Some err => refuse 1 ("harvest: " +:+ err_text err)
            | None =>
                let warning := if Hf_kubeContext fl <>s "" then "" else
                  "harvest: no --kube-context given — firing against whatever kubectl context is currently active" +:+ newline in
                match Connect AppendCertsFromPEM nats_Connect jetstream_New fs (Hf_natsURL fl) (Hf_tls fl) no_hooks with
                | inr err => mkHarvestRun [] [] 1 (warning +:+ "harvest: " +:+ err_text err +:+ newline)
                | inl js =>
                    let '(log, rows, code) :=
                      Harvest.run (CommandRunner_Run combinedOutput) (firings js (refusal_grace (Hf_refusalGrace fl))) cancelled cooled encode table
                        (Hf_row fl) (Hf_json fl) (Hf_repeat fl) in
                    mkHarvestRun log rows code warning
                end
            end
        end
  end.
End harvest_main.

(** ** scorecard: render.go *)

Definition orDash (s : string) : string := if s =s "" then "-" else s.

Definition sortedKeys {A} (m : gmap string A) : list string := sort_Strings (map fst (map_to_list m)).

Definition sortedIntKeys {A} (m : gmap Z A) : list Z := merge_sort Z.le (map fst (map_to_list m)).

Definition headline (rpt : Report) : string :=
  "runs=" +:+ fmt_d (Rpt_N rpt) +:+ " hits=" +:+ fmt_d (Rpt_Hits rpt) +:+ " harnessExcluded=" +:+ fmt_d (Rpt_HarnessExcluded rpt) +:+ newline.

Definition tally_line (name : string) (t : Tally) : string :=
  "  " +:+ name +:+ " hits=" +:+ fmt_d (Tally_Hits t) +:+ " n=" +:+ fmt_d (Tally_N t) +:+ newline.

Definition reason_line (rs : string) (n : Z) : string := "  " +:+ pad_right 24 rs +:+ " " +:+ fmt_d n +:+ newline.

Definition miss_line (m : Miss) : string :=
  "  " +:+ pad_right 30 (Miss_ScenarioName m) +:+ " run=" +:+ pad_right 2 (fmt_d (Miss_RunIndex m)) +:+ " runID=" +:+ pad_right 20 (orDash (Miss_RunID m))
  +:+ " reason=" +:+ Miss_Reason m +:+ newline.

Definition none_line : string := "  none" +:+ newline.

(** the pieces [Render] writes, one per call of [Fprintf] *)
Definition Render_pieces (rpt : Report) : list string :=
  [headline rpt; newline +:+ "by scenario:" +:+ newline]
  ++ map (fun name => tally_line (pad_right 30 name) (default (mkTally 0 0) (Rpt_ByScenario rpt !! name))) (sortedKeys (Rpt_ByScenario rpt))
  ++ [newline +:+ "by run index:" +:+ newline]
  ++ map (fun idx => tally_line (pad_right 4 (fmt_d idx)) (default (mkTally 0 0) (Rpt_ByRunIndex rpt !! idx))) (sortedIntKeys (Rpt_ByRunIndex rpt))
  ++ [newline +:+ "failure reasons:" +:+ newline]
  ++ (if decide (Rpt_Reasons rpt = ∅) then [none_line] else [])
  ++ map (fun rs => reason_line rs (default 0 (Rpt_Reasons rpt !! rs))) (sortedKeys (Rpt_Reasons rpt))
  ++ [newline +:+ "misses:" +:+ newline]
  ++ (match Rpt_Misses rpt with [] => [none_line] | _ => [] end)
  ++ map miss_line (Rpt_Misses rpt).

Definition Render (rpt : Report) : string := strings_Join (Render_pieces rpt) "".

(** ** scorecard.go: [Main]; [flags] is --results and --json, [open] the named file, a file
    or the standard input being its trimmed lines and the scanner's own error *)

Definition scorecard_Main (decode : string -> result Row) (open : string -> result (list string * option error)) (stdin : list string * option error)
  (encode : Report -> result string) (flags : option (string * bool)) : Exit :=
  let fail err := mkExit 1 "" ("scorecard: " +:+ err_text err +:+ newline) in
  match flags with
  | None => mkExit 2 "" ""
  | Some (resultsPath, asJSON) =>
      match (if resultsPath <>s "-" then open resultsPath else inl stdin) with
      | inr err => fail err
      | inl (lines, scan) =>
          match Grade decode lines scan with
          | inr err => fail err
          | inl rpt =>
              if asJSON then match encode rpt with inr err => fail err | inl text => mkExit 0 text "" end
              else mkExit 0 (Render rpt) ""
          end
      end
  end.

(** ** Nothing fires by accident *)

(** A harvest runs a command only with a table that loaded, a connection, at least one pass
    asked for and, where a context was named, in that kubectl context; a run that is refused
    exits non-zero. *)
Theorem harvest_fires_where_asked {Cert Pool NC JS : Type} AppendCertsFromPEM nats_Connect jetstream_New fs readFile unmarshal currentContext combinedOutput firings
  cancelled cooled encode fl :
  let r := harvest_Main (Cert := Cert) (Pool := Pool) (NC := NC) (JS := JS) AppendCertsFromPEM nats_Connect jetstream_New fs readFile unmarshal currentContext
             combinedOutput firings cancelled cooled encode (Some fl) in
  (exists table js, LoadScenarios readFile unmarshal (Hf_scenarios fl) = inl table /\ 1 <= Hf_repeat fl /\
     Connect AppendCertsFromPEM nats_Connect jetstream_New fs (Hf_natsURL fl) (Hf_tls fl) no_hooks = inl js /\
     (Hf_kubeContext fl <> "" -> exists out, currentContext = inl out /\ strings_TrimSpace out = Hf_kubeContext fl)) \/
  (Hr_commands r = [] /\ Hr_rows r = [] /\ Hr_code r <> 0).
Proof.
  cbv zeta. unfold harvest_Main. destruct (_ || _); [by right |]. destruct (Hf_repeat fl <? 1) eqn:Er; [by right |].
  destruct (LoadScenarios _ _ _) as [table | err]; [| by right]. destruct (if Hf_kubeContext fl <>s "" then _ else _) eqn:Ek; [by right |].
  destruct (Connect _ _ _ _ _ _ _) as [js | err]; [| by right]. left. exists table, js. split; [done |]. split; [lia |]. split; [done |].
  intros Hc%String.eqb_neq. rewrite Hc in Ek. cbn [negb] in Ek. unfold verifyKubeContext, kubectlCurrentContext in Ek.
  destruct currentContext as [out | err]; [| done]. exists out. split; [done |].
  destruct (strings_TrimSpace out <>s Hf_kubeContext fl) eqn:Et; [done |]. by apply negb_false_iff, String.eqb_eq in Et.
Qed.

(** ** What a result over NATS rests on *)

Lemma watched {T} (unmarshal : string -> result T) js stream opened subject policy l x :
  watchSubject unmarshal js stream opened subject policy = inl l -> x ∈ l ->
  exists i data, stream !! i = Some (subject, data) /\ unmarshal data = inl x /\ (policy = DeliverNew -> (opened <= i)%nat).
Proof.
  unfold watchSubject. destruct (Co_OrderedConsumer _ _ _); [done |]. destruct (Co_Consume _ _); [done |]. intros [= <-].
  intros (data & Hd & Hx)%list_elem_of_omap. destruct (unmarshal data) as [y |] eqn:Eu; [| done]. injection Hx as ->.
  unfold consumed in Hd. apply list_elem_of_fmap in Hd as ([s d] & -> & Hm). cbn in Eu.
  apply list_elem_of_In, filter_In in Hm as [Hin Hs]. apply String.eqb_eq in Hs. cbn in Hs. subst s. apply list_elem_of_In in Hin.
  destruct policy.
  - apply list_elem_of_lookup in Hin as [i Hi]. rewrite lookup_drop in Hi. exists (opened + i)%nat, d. split; [done |]. split; [done |]. lia.
  - apply list_elem_of_lookup in Hin as [i Hi]. by exists i, d.
Qed.

(** A row answered over NATS is answered by this run: an approved verdict is an outcome about
    the scenario's signal, published after the legs were opened; a decline and a hold are
    decisions published since; and a refusal is the timer's, so no result is read off a
    message older than the run. *)
Theorem answers_are_published_since u js stream opened startedAt signalRef evs t :
  Settle (nats_legs u js stream opened) startedAt signalRef evs = Some (inl t) -> Forall (received u js stream opened) evs ->
  SeRefusal ∈ evs \/ exists i subject data, (opened <= i)%nat /\ stream !! i = Some (subject, data) /\
    ((exists o, subject = "thump.outcomes" /\ Wr_outcome u data = inl o /\ Outcome_SignalRef o = signalRef /\ isTerminal (Outcome_Result o) = true /\
        Term_Verdict t = "approved" /\ Term_Result t = Outcome_Result o) \/
     (exists d, subject = "thump.declines" /\ Wr_decision u data = inl d /\ Decision_SignalRef d = signalRef /\ Term_Verdict t = "declined") \/
     (exists g, subject = "thump.held" /\ Wr_governed u data = inl g /\ Decision_SignalRef (Governed_Decision g) = signalRef /\ Term_Verdict t = "held")).
Proof.
  intros [(what & w & err & _ & [=]) | (st & Hl & _)]%Settle_cases Hrec.
  apply settle_loop_first in Hl as (pre & ev & post & st' & -> & _ & _ & Hs & _).
  assert (received u js stream opened ev) as Hev by (rewrite list.Forall_forall in Hrec; apply Hrec; set_solver).
  destruct Hev as [| | l o Hw Hin | l d Hw Hin | l g Hw Hin | l d Hw Hin | l s Hw Hin]; cbn in Hs; try done.
  - left. set_solver.
  - right. destruct ((Outcome_SignalRef o <>s signalRef) || negb (isTerminal (Outcome_Result o))) eqn:Ed; [done |]. injection Hs as <-.
    apply orb_false_iff in Ed as [Es%negb_false_iff%String.eqb_eq Et%negb_false_iff].
    destruct (watched _ _ _ _ _ _ _ _ Hw Hin) as (i & data & Hi & Hu & Hn). exists i, "thump.outcomes"%string, data. split; [by apply Hn |]. split; [done |]. left.
    exists o. destruct (set_enrichment_fields (terminal "approved" (Outcome_Result o) (Outcome_ContractRef o) (Outcome_DecisionRef o) (Outcome_ObservedSeverity o)) (Se_matched st')) as (Hv & Hr & _).
    by rewrite Hv, Hr.
  - right. destruct (Decision_SignalRef d <>s signalRef) eqn:Ed; [done |]. injection Hs as <-. apply negb_false_iff, String.eqb_eq in Ed.
    destruct (watched _ _ _ _ _ _ _ _ Hw Hin) as (i & data & Hi & Hu & Hn). exists i, "thump.declines"%string, data. split; [by apply Hn |]. split; [done |]. right. left.
    exists d. destruct (set_enrichment_fields (terminal "declined" "" "" (Decision_ID d) None) (Se_matched st')) as (Hv & _). by rewrite Hv.
  - right. destruct (Decision_SignalRef (Governed_Decision g) <>s signalRef) eqn:Ed; [done |]. injection Hs as <-. apply negb_false_iff, String.eqb_eq in Ed.
    destruct (watched _ _ _ _ _ _ _ _ Hw Hin) as (i & data & Hi & Hu & Hn). exists i, "thump.held"%string, data. split; [by apply Hn |]. split; [done |]. right. right.
    exists g. match goal with |- context [enrichFromSet ?tm _] => destruct (set_enrichment_fields tm (Se_matched st')) as (Hv & _) end. by rewrite Hv.
  - by destruct (_ || _).
  - by destruct (_ || _).
Qed.

(** ** The printed scorecard *)

(** The scorecard names every row that did not count: when the command exits 0 with the human
    report, the report is printed piece by piece, its headline counts the rows read, and each
    row that is no hit has its line. *)
Theorem scorecard_names_every_miss decode open stdin encode path :
  let ex := scorecard_Main decode open stdin encode (Some (path, false)) in
  Exit_code ex = 0 -> exists lines scan rpt,
    (if path =s "-" then stdin = (lines, scan) else open path = inl (lines, scan)) /\ Exit_stdout ex = strings_Join (Render_pieces rpt) "" /\
    headline rpt ∈ Render_pieces rpt /\ Rpt_N rpt + Rpt_HarnessExcluded rpt = Z.of_nat (length (rows_of decode lines)) /\
    forall r, r ∈ rows_of decode lines -> grade r <> hit -> miss_line (miss_of r (grade r)) ∈ Render_pieces rpt.
Proof.
  cbv zeta. unfold scorecard_Main. destruct (if path <>s "-" then open path else inl stdin) as [[lines scan] | err] eqn:Eo; [| done].
  destruct (Grade decode lines scan) as [rpt | err] eqn:Eg; [| done]. intros _. exists lines, scan, rpt.
  split; [destruct (path =s "-"); cbn in Eo; congruence |]. split; [done |]. split; [unfold Render_pieces; set_solver |].
  assert (report_of (rows_of decode lines) rpt) as [HN _ He _ _ _ _ Hm].
  { unfold Grade in Eg. destruct (grade_lines decode lines Report_zero) as [rpt' |] eqn:E; [| done]. destruct scan; [done |]. injection Eg as ->.
    apply (grade_lines_report decode lines [] Report_zero rpt report_zero E). }
  split; [rewrite HN, He; apply count_rows_split |]. intros r Hr Hg. unfold Render_pieces. rewrite !elem_of_app. do 9 right.
  rewrite Hm, map_map. apply list_elem_of_fmap. exists r. split; [done |]. apply list_elem_of_In, filter_In. split; [by apply list_elem_of_In |].
  unfold is_hit. by apply negb_true_iff, String.eqb_neq.
Qed.
