(* ===== verification/Pipeline.v ===== *)
(** * The loop end to end: clank proposes, hiss governs, thump acts

    The seams between the beats, proved against the beats' own theorems: what
    clank publishes, governed by hiss, is something thump can render from the
    same catalog and the runner is bound to execute. *)

From S2P Require Import Prelude GoTime GoFloat Api Contract Publish Hiss HissTransport ThumpExec Actuate.
From S2P Require Import ClankScore ClankLedger ClankEngine.
Local Open Scope Z_scope.

Section seams.
Context {M S_ : Type}.

Lemma approved_recommended ps pol now :
  Decision_Verdict (Evaluate ps pol now) = VerdictApproved ->
  exists rec, candidate_by_id ps (Set_Recommended ps) = Some rec /\
    Decision_GrantedBand (Evaluate ps pol now) = requestedBand rec.
Proof.
  intros Hv. destruct (Evaluate_Ruling ps pol now) as [| | |rec Hp _ _ _ Hg]; try sclash.
  exists rec. split; [apply (permitted_recommended _ _ _ _ Hp)|done].
Qed.

Lemma ready_listed (e : Engine (M := M) (S_ := S_)) sig sao s c :
  Ready e sig sao s -> c ∈ Set_Proposals s -> is_Some (ByName (Eng_Catalog e) (Candidate_ContractRef c)).
Proof.
  intros Hr Hc. destruct (ready_catalog _ _ _ _ Hr c Hc) as (ct & Hin & <-).
  apply Applicable_spec in Hin as [Hin _]. by apply ByName_listed.
Qed.

(** a decision that approves a ready set, describes it and stands an audit is
    always renderable from the catalog the set was proposed from *)
Lemma ready_renders (e : Engine (M := M) (S_ := S_)) sig sao s g cand now :
  Ready e sig sao s -> Governed_Set g = s ->
  Decision_Auditable (Governed_Decision g) = None ->
  Decision_Verdict (Governed_Decision g) = VerdictApproved ->
  Decision_ProposalRef (Governed_Decision g) = Set_Name s ->
  Decision_SignalRef (Governed_Decision g) = Set_SignalRef s ->
  candidate_by_id s (Decision_CandidateRef (Governed_Decision g)) = Some cand ->
  exists ct, ByName (Eng_Catalog e) (Candidate_ContractRef cand) = Some ct /\
    Render g (Eng_Catalog e) now = inl (order_of g cand ct now).
Proof.
  intros Hr Hs Ha Hv Hp Hsig Hc. apply candidate_by_id_Some in Hc as Hc'. destruct Hc' as [Hin Hid].
  destruct (ready_listed e sig sao s cand Hr Hin) as [ct Hct].
  exists ct. split; [done|].
  apply Render_inl. exists cand, ct. split; [|done]. unfold Renderable, describes, candidate. by rewrite Hs.
Qed.

Lemma rendered_is_bound {C} (k : Kube (C := C)) cat f (r : Runner) g now o :
  NewWithKube k cat f = inl r -> Render g cat now = inl o -> is_Some (Runner_bindings r !! Order_ContractRef o).
Proof.
  intros Hrun Hcat%Order_ContractRef_catalogued. unfold NewWithKube, newWithTimeout in Hrun.
  destruct (bind cat (is_some f)) as [m|] eqn:Eb; [|done]. simplify_eq. simpl.
  destruct (bind_all_lookup _ _ _ _ _ Eb (or_introl Hcat)) as (b & Hl & _). eauto.
Qed.

(** C2. What clank publishes and hiss approves, thump can carry out: for a ready
    set that [Evaluate] approves under a versioned policy and a real clock,
    [Render] over the same catalog succeeds with the recommended candidate's
    contract; the granted band on the order is the one the catalog's reversal
    implies, not one the model chose; and a runner built from that catalog has
    the contract bound. *)
Theorem approved_proposals_execute {C} (e : Engine (M := M) (S_ := S_)) sig sao s pol now now1
  (k : Kube (C := C)) (f : option Forge) (r : Runner) :
  Ready e sig sao s -> Decision_Verdict (Evaluate s pol now) = VerdictApproved ->
  Policy_Version pol <> ""%string -> now <> 0 -> NewWithKube k (Eng_Catalog e) f = inl r ->
  exists cand ct o,
    candidate_by_id s (Set_Recommended s) = Some cand /\
    ByName (Eng_Catalog e) (Candidate_ContractRef cand) = Some ct /\
    Render (mkGoverned (Evaluate s pol now) s) (Eng_Catalog e) now1 = inl o /\
    Order_ContractRef o = AC_Name ct /\
    Order_GrantedBand o =
      (if Reversal_Method (AC_Reversal ct) =s "" then BandActDisruptive else BandActReversible) /\
    is_Some (Runner_bindings r !! Order_ContractRef o).
Proof.
  intros Hr Hv Hpol Hnow Hrun.
  destruct (approved_recommended s pol now Hv) as (cand & Hrec & Hband).
  assert (Decision_ProposalRef (Evaluate s pol now) = Set_Name s /\
          Decision_SignalRef (Evaluate s pol now) = Set_SignalRef s /\
          Decision_CandidateRef (Evaluate s pol now) = Set_Recommended s /\
          Decision_PolicyVersion (Evaluate s pol now) = Policy_Version pol /\
          Decision_EvaluatedAt (Evaluate s pol now) = now) as (Hp & Hs & Hc & Hver & Hev)
    by (unfold Evaluate; by repeat case_match).
  destruct (ready_renders e sig sao s (mkGoverned (Evaluate s pol now) s) cand now1 Hr eq_refl) as
    (ct & Hct & Hrend); simpl; try done; [apply Decision_Auditable_None; rewrite Hver, Hev; auto|by rewrite Hc|].
  exists cand, ct, (order_of (mkGoverned (Evaluate s pol now) s) cand ct now1).
  apply candidate_by_id_Some in Hrec as Hin. destruct Hin as [Hin _].
  split; [done|]. split; [done|]. split; [done|]. apply ByName_Some in Hct as Hn.
  split; [symmetry; apply Hn|]. split; [|by eapply rendered_is_bound].
  simpl. rewrite Hband. unfold requestedBand.
  rewrite (proj2 (ready_enriched _ _ _ _ Hr _ _ Hin Hct)). simpl. by destruct (_ =s "").
Qed.

End seams.

(** the set the scripted engine publishes *)
Definition demo_published : ProposalSet :=
  match (demo_run 0).2 with inl s => s | inr _ => Set_zero end.

Lemma demo_published_ready : exists sao, Ready (demo_engine true) demo_detection sao demo_published.
Proof.
  assert (exists st', demo_run 0 = (st', inl demo_published) /\
            on_subject "thump.proposals" (Es_pub st') = [demo_published]) as (st' & Hrun & Hpub)
    by (eexists; split; [vm_compute; reflexivity|vm_compute; reflexivity]).
  unfold demo_run in Hrun. apply Propose_cases in Hrun.
  destruct Hrun as [[-> _]|[(_ & _ & err & Hr)|(runID & sao & d & st0 & st1 & Hc & _ & Hp & _ & _ & Hp1 & _)]];
    [done|done|].
  apply conclude_spec in Hc as [[Hp2 _]|(s & res & Hready & _ & _ & _ & _ & Hr & _)].
  - rewrite Hp1, Hp2, Hp in Hpub. done.
  - destruct res; [done|]. injection Hr as ->. eauto.
Qed.

Definition open_policy : Policy := mkPolicy "v1" "collapsed" ∅ ∅ ∅ [] true.

Definition demo_runner : Runner (C := list string) :=
  mkRunner log_kube None
    {[ "acme-shed-load" := mkBinding (scaleOp "acme" "web" 2) (scaleOp "acme" "web" 4) ]} actuateTimeout.

Lemma approved_proposals_execute_witness :
  exists cand ct o,
    candidate_by_id demo_published (Set_Recommended demo_published) = Some cand /\
    ByName (Eng_Catalog (demo_engine true)) (Candidate_ContractRef cand) = Some ct /\
    Render (mkGoverned (Evaluate demo_published open_policy 8) demo_published)
      (Eng_Catalog (demo_engine true)) 9 = inl o /\
    Order_ContractRef o = AC_Name ct /\
    Order_GrantedBand o =
      (if Reversal_Method (AC_Reversal ct) =s "" then BandActDisruptive else BandActReversible) /\
    is_Some (Runner_bindings demo_runner !! Order_ContractRef o).
Proof.
  destruct demo_published_ready as [sao Hr].
  apply (approved_proposals_execute (demo_engine true) demo_detection sao demo_published open_policy 8 9
           log_kube None demo_runner Hr);
    [vm_compute; reflexivity|discriminate|discriminate|vm_compute; reflexivity].
Defined.
