(* ===== verification/Loop.v ===== *)
(** * The closed loop: from a reading of Prometheus to a call on the infrastructure

    The four beats and the operator as one system, each hearing only what the one before it
    published, at any interleaving and across restarts and failures.  The theorem follows an
    effect back through every beat to the measurement it answers. *)

From S2P Require Import Prelude GoTime GoFloat Converge Api Contract Publish Hiss HissTransport ThumpExec ThumpTransport Actuate.
From S2P Require Import ClankScore ClankLedger ClankEngine Clank Rattle RattleSources Calipers.
Local Open Scope Z_scope.

Section loop.
Context {E M S_ WP WJ W WO WU WD WG R : Type}.
Context `{PublisherLaws WP ProposalSet} `{PublisherLaws WJ ProposalSet} `{PublisherLaws W Governed}
  `{PublisherLaws WO Order} `{PublisherLaws WU Outcome} `{PublisherLaws WD Decision} `{PublisherLaws WG Governed}.
Abbreviation Beat := (Beat (M := M) (S_ := S_) (WP := WP) (WJ := WJ)).

(** rattle: its clock, its clients, the server, the watch list and the query configuration *)
Context (now : E -> Time) (cl : RattleClients (E := E)) (promURL : string) (slos : list SLO) (query : QueryConfig).
(** clank, hiss and thump: the parts each process is built from *)
Context (p : Parts (M := M) (S_ := S_)) (cfg : TransportConfig W) (wi : Wiring (R := R)).

(** a history of clank, of hiss and of thump *)
Context (heard_by_clank : list Clank.event) (heard_by_hiss : list HissTransport.event) (heard_by_thump : list ThumpTransport.event).

(** what travels on thump.decisions: a decision of hiss, or an operator's break-glass over a
    decision of hiss that awaits a person *)
Inductive on_decisions (st : TransportState W) : Governed -> Prop :=
| ruled g : g ∈ on_subject "thump.decisions" (Tr_world st) -> on_decisions st g
| broke_glass fp operator now1 now2 held :
    held ∈ on_subject "thump.decisions" (Tr_world st) -> governed_awaits held = true ->
    on_decisions st (forced fp operator now1 now2 held).

(** each beat hears what the one before it published, as often and as late as the broker
    delivers it *)
Record linked (detections : list Detection) (b : Beat) (st : TransportState W) : Prop := {
  link_detections sig ck during err : EvDetection sig ck during err ∈ heard_by_clank -> sig ∈ detections;
  link_proposals ps t : EvProposal ps t ∈ heard_by_hiss -> ps ∈ on_subject "thump.proposals" (B_pub b);
  link_decisions g t1 t2 : EvDecision g t1 t2 ∈ heard_by_thump -> on_decisions st g
}.

(** [g] carries the word of governance on its set: a verdict of the policy, the re-issue of a
    decision a person released, or a break-glass over a decision that awaited one *)
Definition governed (g : Governed) : Prop :=
  (exists t rec, Governed_Decision g = Evaluate (Governed_Set g) (Tr_Policy cfg) t /\ Permitted (Governed_Set g) (Tr_Policy cfg) t rec) \/
  (exists held a t1 t2, Judged cfg held /\ awaits held = true /\ EvAck a t1 t2 ∈ heard_by_hiss /\
     Approval_SignalRef a = Decision_SignalRef (Governed_Decision held) /\ g = reissue cfg held a t1 t2) \/
  (exists held fp operator t1 t2, Judged cfg held /\ awaits held = true /\ g = forced fp operator t1 t2 held).

(** where an order comes from *)
Definition Traced (o : Order) : Prop :=
  exists d sao s s0 st g t cand ct,
    (* rattle read it off Prometheus *)
    ReadOff cl promURL slos query d /\
    (* clank was handed it and formed a ready set for it *)
    (exists ck during err, EvDetection d ck during err ∈ heard_by_clank) /\ Ready (newBrokerEngine p NewCaseBase) d sao s0 /\ s = with_status s0 st /\
    (* hiss, or a person, let that set pass *)
    Governed_Set g = s /\ governed g /\ Decision_Verdict (Governed_Decision g) = VerdictApproved /\
    (* thump rendered one of its candidates from the catalog *)
    Render g (Wi_Catalog wi) t = inl o /\ candidate_by_id s0 (Decision_CandidateRef (Governed_Decision g)) = Some cand /\
    ByName (Wi_Catalog wi) (Candidate_ContractRef cand) = Some ct /\ o = order_of g cand ct t.

Lemma issued_governed g : Issued cfg heard_by_hiss g -> Decision_Verdict (Governed_Decision g) = VerdictApproved -> governed g.
Proof.
  intros [g' [t Hj] | held a t1 t2 Hj Ha Hack Hfp] Hv.
  - left. rewrite Hj in Hv. destruct (Evaluate_Ruling (Governed_Set g') (Tr_Policy cfg) t) as [| | | rec HP]; try sclash. eauto.
  - right. left. by exists held, a, t1, t2.
Qed.

(** a decision thump hears is governed, over a set hiss was handed *)
Lemma decision_governed w g : approvals_quiet cfg -> delivered w = [] ->
  on_decisions (HissTransport.run cfg (buildTransport w) heard_by_hiss) g -> Decision_Verdict (Governed_Decision g) = VerdictApproved ->
  governed g /\ Proposed heard_by_hiss g.
Proof.
  intros Hq Hw Hon Hv. pose proof (run_inv cfg w heard_by_hiss Hq Hw) as [HI _]. pose proof (run_heard cfg w heard_by_hiss Hq Hw) as [HP _].
  rewrite list.Forall_forall in HI, HP. destruct Hon as [g Hin | fp operator n1 n2 held Hin Ha].
  - split; [apply issued_governed; auto | auto].
  - split; [| by apply HP in Hin]. right. right. exists held, fp, operator, n1, n2. split; [| done].
    by eapply Issued_awaiting_Judged; [apply HI |].
Qed.

Lemma granted_traced topo traffic n e deb r (b : Beat) m s pub journal w o :
  prom_reconciler now cl promURL slos topo traffic query = (r, deb) ->
  on_subject "thump.proposals" pub = [] -> reach p (Clank.fresh p m s pub journal) heard_by_clank b ->
  approvals_quiet cfg -> delivered w = [] ->
  linked (passes r n deb e) b (HissTransport.run cfg (buildTransport w) heard_by_hiss) ->
  Granted wi heard_by_thump o -> Traced o.
Proof.
  intros Er Hpub Hreach Hq Hw [Hd Hp Hg] (g & t1 & t2 & Hin & Hr). apply Hg in Hin.
  apply Render_inl in Hr as Hr'. destruct Hr' as (cand & ct & (_ & Hv & (_ & _ & Hc) & Hb) & ->).
  destruct (decision_governed w g Hq Hw Hin Hv) as [Hgov [t Hps]]. apply Hp in Hps.
  destruct (reach_ok p _ _ _ (fresh_ok p m s pub journal Hpub) Hreach) as [_ Hformed].
  destruct (Hformed _ Hps) as (sig & ck & during & err & sao & s0 & st & Hev & Hready & Hs).
  exists sig, sao, (Governed_Set g), s0, st, g, t1, cand, ct.
  split; [| repeat (split; [done || by eauto |]); split; [by rewrite Hs in Hc | done]].
  pose proof (detections_are_read_from_prometheus now cl promURL slos topo traffic query n e sig) as Hread. rewrite Er in Hread.
  by eapply Hread, Hd.
Qed.

(** C1. Everything the loop does to the infrastructure answers an incident it measured, and
    was let through by governance: with the four beats over their streams, in any order of
    deliveries, redeliveries, restarts, failures and operator commands, whatever the
    infrastructure is left as was made by forward actions, undos and withdrawals of traced
    orders only; and the forward actions were made after a reload that read the kill switch
    armed.  A traced order is rendered from the catalog for a candidate of a set clank had
    ready (cited, catalogued, gated) for a detection rattle read off Prometheus, and that set
    was approved by the policy, released by a person's approval of the hold it was put in, or
    forced by an operator over the decision that held it. *)
Theorem every_effect_answers_an_incident (P : R -> Prop) topo traffic n e m s pub journal (b : Beat) w wo wu wd wg r0 st' :
  let '(r, deb) := prom_reconciler now cl promURL slos topo traffic query in
  on_subject "thump.proposals" pub = [] -> reach p (Clank.fresh p m s pub journal) heard_by_clank b ->
  approvals_quiet cfg -> delivered w = [] ->
  linked (passes r n deb e) b (HissTransport.run cfg (buildTransport w) heard_by_hiss) ->
  (forall o x, Traced o -> Arming wi heard_by_thump -> P x -> P (Wi_Runner wi (Order_ContractRef o) false (Order_Parameters o) (Order_Notes o) x).1) ->
  (forall o x, Traced o -> P x -> P (Wi_Runner wi (Order_ContractRef o) true ∅ "" x).1) ->
  (forall f o x, Wi_Forge wi = Some f -> Traced o -> P x -> P (f (Order_ContractRef o) x).1) ->
  P r0 -> ThumpTransport.run (WO := WO) (WU := WU) (WD := WD) (WG := WG) wi (start wi wo wu wd wg r0) heard_by_thump = Some st' ->
  P (lw_infra (St_world st')).
Proof.
  destruct (prom_reconciler now cl promURL slos topo traffic query) as [r deb] eqn:Er.
  intros Hpub Hreach Hq Hw Hl Hfwd Hrev Hforge HP Hrun.
  assert (forall o, Granted wi heard_by_thump o -> Traced o) as Ht by (intros o; by eapply granted_traced).
  eapply linv_infra, (run_live_inv wi P heard_by_thump); [| | done | | exact Hrun].
  - intros ref rev params notes x [o Hg Ha | o Hg] Hx; auto.
  - intros f o x Hf Hg Hx; auto.
  - split; simpl; try done. intros t Hin. by apply elem_of_nil in Hin.
Qed.

End loop.

(** ** A loop that runs: one SLO burning, one proposal, one order, its undo *)

Definition acme : SLO := mkSLO "acme-availability" "acme" "tier-1" (flit 999 1000) "acme-contract" [].

Definition acme_range : RangeClient unit :=
  mkRangeClient (fun _ => None) (fun _ => None) (fun rq _ =>
    if Range_Query rq =s burn_query acme then inl (200, "200 OK"%string, inl (mkRangeResponse "success" [demo_series])) else inr (errors_New "down")).

Definition acme_clients : RattleClients := mkRattleClients acme_range (mkClient (fun _ => None) (fun _ _ _ => inr (errors_New "down"))).

Definition acme_reconciler := prom_reconciler RattleSources.demo_clock acme_clients "http://prom" [acme] None None RattleSources.demo_query.
Definition acme_burning : list Detection := passes acme_reconciler.1 1 acme_reconciler.2 tt.

Definition acme_detection : Detection := default ClankEngine.demo_detection (head acme_burning).
Definition acme_beat := on_detection demo_parts acme_detection ClankEngine.demo_clock [] Clank.demo_start.

Definition acme_heard : list Clank.event := [EvDetection acme_detection ClankEngine.demo_clock [] None].
Definition acme_set : ProposalSet := default Set_zero (head (on_subject "thump.proposals" (B_pub acme_beat.1))).

Definition acme_cfg : TransportConfig (MemPub Governed) := mkTransportConfig (mkPolicy "v1" "collapsed" ∅ ∅ ∅ [] true) None.
Definition acme_ruling : TransportState (MemPub Governed) := HissTransport.run acme_cfg (buildTransport empty_stream) [EvProposal acme_set 8].
Definition acme_decision : Governed := mkGoverned (Evaluate acme_set (Tr_Policy acme_cfg) 8) acme_set.

(** the forward action converges on nothing, so it is undone *)
Definition acme_wiring : Wiring (R := list (string * bool)) :=
  mkWiring (Eng_Catalog (demo_engine true)) log_runner (Some (fun _ _ => (false, None))) (Some (fun _ l => (l, inl true))) None "/etc/thump/killswitch".

Definition acme_events : list ThumpTransport.event :=
  [EvReload (fun _ => inl "armed: true"%string) (fun _ => inl true); EvDecision acme_decision 9 10; EvSettle 0 false 11 12 13 14].

Definition acme_start := start (WO := MemPub Order) (WU := MemPub Outcome) (WD := MemPub Decision) (WG := MemPub Governed)
  acme_wiring (mkMemPub [] 0) (mkMemPub [] 0) (mkMemPub [] 0) (mkMemPub [] 0) [].

(** one of each heard, in a history of one detection, one proposal, and one decision after a
    reload and before a settlement *)
Lemma linked_single {M S_ WP WJ W : Type} `{PublisherLaws WP ProposalSet} `{PublisherLaws WJ ProposalSet} `{PublisherLaws W Governed}
  ds (b : Beat (M := M) (S_ := S_) (WP := WP) (WJ := WJ)) (st : TransportState W) d ck during err ps t rd um g t1 t2 i c n1 n2 n3 n4 :
  head ds = Some d -> head (on_subject "thump.proposals" (B_pub b)) = Some ps -> head (on_subject "thump.decisions" (Tr_world st)) = Some g ->
  linked [EvDetection d ck during err] [EvProposal ps t] [EvReload rd um; EvDecision g t1 t2; EvSettle i c n1 n2 n3 n4] ds b st.
Proof.
  intros Hd Hp Hg. split.
  - intros sig ck' during' err' Hin%list_elem_of_singleton. injection Hin as -> _ _ _. by apply head_Some_elem_of.
  - intros ps' t' Hin%list_elem_of_singleton. injection Hin as -> _. by apply head_Some_elem_of.
  - intros g' t1' t2' Hin. apply ruled. rewrite !elem_of_cons in Hin. destruct Hin as [[=] | [[= -> _ _] | [[=] | []%elem_of_nil]]]. by apply head_Some_elem_of.
Qed.

Lemma acme_reached : reach demo_parts Clank.demo_start acme_heard acme_beat.1.
Proof. eapply (reach_step _ _ [] _ _ _ (reach_start _ _)), step_detection. vm_compute. reflexivity. Defined.

Lemma every_effect_answers_an_incident_witness :
  option_map (fun st => lw_infra (St_world st)) (ThumpTransport.run acme_wiring acme_start acme_events)
    = Some [("acme-shed-load"%string, false); ("acme-shed-load"%string, true)] /\
  (forall st', ThumpTransport.run acme_wiring acme_start acme_events = Some st' -> Forall (fun c => c.1 = "acme-shed-load"%string) (lw_infra (St_world st'))).
Proof.
  split; [vm_compute; reflexivity |]. intros st' Hrun.
  assert (forall o, Traced acme_clients "http://prom" [acme] RattleSources.demo_query demo_parts acme_cfg acme_wiring acme_heard [EvProposal acme_set 8] o ->
    Order_ContractRef o = "acme-shed-load"%string) as Ht.
  { intros o (d & sao & s & s0 & st & g & t & cand & ct & _ & _ & _ & _ & _ & _ & _ & _ & _ & Hct & ->).
    apply ByName_Some in Hct as [Hin Hn]. change (Contracts (Wi_Catalog acme_wiring)) with [demo_action] in Hin.
    apply list_elem_of_singleton in Hin as ->. change (Candidate_ContractRef cand = "acme-shed-load"%string). by rewrite <- Hn. }
  pose proof (every_effect_answers_an_incident RattleSources.demo_clock acme_clients "http://prom" [acme] RattleSources.demo_query demo_parts acme_cfg acme_wiring
    acme_heard [EvProposal acme_set 8] acme_events (Forall (fun c => c.1 = "acme-shed-load"%string)) None None 1 tt 0%nat NewMemStore
    (mkMemPub [] 0 : MemPub ProposalSet) (mkMemPub [] 0 : MemPub ProposalSet) acme_beat.1 empty_stream
    (mkMemPub [] 0 : MemPub Order) (mkMemPub [] 0 : MemPub Outcome) (mkMemPub [] 0 : MemPub Decision) (mkMemPub [] 0 : MemPub Governed) [] st') as HT.
  pose proof (linked_single acme_burning acme_beat.1 acme_ruling acme_detection ClankEngine.demo_clock [] None acme_set 8
    (fun _ => inl "armed: true"%string) (fun _ => inl true) acme_decision 9 10 0 false 11 12 13 14
    ltac:(vm_compute; reflexivity) ltac:(vm_compute; reflexivity) ltac:(vm_compute; reflexivity)) as Hl.
  unfold acme_burning, acme_ruling in Hl. unfold acme_reconciler in Hl.
  destruct (prom_reconciler _ _ _ _ _ _ _) as [r deb].
  apply HT; [reflexivity | exact acme_reached | by intros ? | reflexivity | exact Hl | | | | constructor | exact Hrun].
  - intros o x Ho _ Hx. apply Forall_app. split; [done |]. constructor; [by apply Ht | constructor].
  - intros o x Ho Hx. apply Forall_app. split; [done |]. constructor; [by apply Ht | constructor].
  - intros f o x [= <-] _ Hx. exact Hx.
Defined.
